(* ===== verification/_CoqProject ===== *)
-Q . S2P
Prelude.v
Endian.v
Wire.v
ControlWire.v
EventWire.v
SetupWire.v
InputWire.v
ClipboardWire.v
Profiles.v
CameraWire.v
Float32.v
Atomic.v
Calls.v
Plist.v
SessionPolicy.v
VideoRecovery.v
Diagnostics.v
WacomBridge.v
MacProbes.v
ConfigFiles.v
BenchX264.v
Recording.v
Playback.v
UhidProbe.v
VideoPipeline.v
VideoThreads.v
VideoSetup.v
ClientPipeline.v
ClientSession.v
ClientKms.v
X11Native.v
VaapiChecks.v
NvfbcProbes.v
TransportLoopback.v
CameraLive.v
KmsProbes.v
PamProbe.v
LinuxProbes.v
MediaClock.v
MediaFeatures.v
TapBuffer.v
MicBuffer.v
HalDriver.v
MicDecoder.v
MicQueue.v
MicIPC.v
MicDriver.v
OutputDriver.v
DeviceQueries.v
CameraLink.v
CameraPayload.v
