(* ===== verification/Prelude.v ===== *)
(** * PLANK: a verification development for its native core

    PLANK streams a desktop: a host captures, encodes and injects input; a client decodes,
    displays, and sends back input, camera and microphone.  This library models the C and C++
    (and the pure headers under Objective-C) of the repository: the wire formats, the shared
    memory between the macOS host's processes, its two Core Audio plug-ins, its policies, and
    the self-contained probes.  Paths are under src/.

    ** Files

    Foundations.
    - [Prelude] (this file): machine integers as [Z] with their wrap-around written out, memory
      as [list Z] with accesses that fail out of bounds, the tactics [guards], [ranges] and
      [concrete], the hint database, notations.
    - [Endian]: the big- and little-endian accessors of all headers, with their round trips.
    - [Wire]: the class of a wire format (valid messages, layout, parser) and its consequences.
    - [Float32]: floating-point values as bit patterns; doubles by [SpecFloat].
    - [Atomic]: programs of atomic loads and stores, run alone or interleaved; [wp] for readers
      whose environment acts between any two of their accesses.
    - [Plist]: the values of property lists and JSON requests.
    - [Calls]: programs over calls that the outside answers: their traces, the programs run in an
      environment, monitors with a weakest precondition, and the class [Handling] of what is
      acquired and given back.

    Protocol headers, protocol/plank-transport/include/.
    - [ControlWire] plank_transport_control.h, [EventWire] plank_transport_event.h, [SetupWire]
      plank_transport_setup.h, [InputWire] plank_transport_input.h, [ClipboardWire]
      plank_clipboard_wire.h, [CameraWire] plank_transport_camera.h and
      plank_transport_camera_encoded.h, [Profiles] plank_encoding_profiles.h.

    Shared memory of the macOS host, apps/host/macos/.
    - [CameraLink] camera-device/camera-link.h: a ring of three seqlock slots between the
      camera's producer and consumer processes.
    - [TapBuffer] media/audio-tap-buffer.h and its client loop in media/audio-tap.m: the ring
      between the audio callback and the session's queue.
    - [MicBuffer] audio-device/microphone-buffer.h: the sample history that real-time reads use.
    - [MicQueue] audio-device/microphone-queue.h: the producer's queue of decoded frames.
    - [MicIPC] audio-device/microphone-driver-ipc.h and microphone-link.h: the plug-in's control
      queue, which copies from a region that an untrusted process writes.  It uses [MicBuffer].

    Core Audio plug-ins, apps/host/macos/audio-device/.
    - [HalDriver]: the skeleton common to both (references, clients, clock anchor).
    - [MicDriver] microphone-driver.c over [HalDriver], [MicBuffer] and [MicIPC];
      [OutputDriver] output-driver.c over [HalDriver].
    - [DeviceQueries] media/audio-output-volume.h and microphone-selection.h: the host's
      questions, asked of the two plug-ins.

    Media and policy, apps/host/macos/.
    - [MicDecoder] media/microphone-decoder.h, [MediaClock] media/reverse-media-clock.h,
      [CameraPayload] media/native-camera-payload.h, [VideoRecovery] media/video-recovery.h with
      media/native-video.m, [Diagnostics] media/stream-diagnostics.h and media/frame-timing.h.
    - [MediaFeatures] control/media-features.h, [SessionPolicy] auth/account-policy.h,
      auth/boot-sign-in.h and four one-function policies, [ConfigFiles]
      session/configuration-files.h.

    Probes, probes/.
    - [WacomBridge] wacom/plank-wacom-raw-bridge.cpp, [UhidProbe] wacom/plank-probe-uhid.cpp,
      [MacProbes] three headers of macos/.
    - [BenchX264] video/plank-benchmark-x264.cpp, [Recording] video/plank-probe-video-record.c
      and the replay of video/plank-probe-vaapi-decode.cpp, [Playback] the rest of that probe
      with video/vaapi-sampling.h.
    - video/plank-probe-video-pipeline.cpp: [VideoPipeline] its options and device kernels,
      [VideoThreads] the two-slot pipeline, [VideoSetup] its resources, encoder configuration,
      self-tests and report.
    - video/plank-probe-client-pipeline.cpp: [ClientPipeline] its threads, [ClientSession] what
      they call; [ClientKms] video/plank-probe-client-kms.cpp.
    - [X11Native] x11/plank-probe-x11-native10.cpp.
    - As programs of [Calls]: [VaapiChecks] video/plank-probe-vaapi-dmabuf.cpp, [NvfbcProbes]
      nvfbc/, [TransportLoopback] network/plank-transport/native-ffi-loopback.c, [CameraLive]
      network/plank-transport/native-camera-live.cpp with native-audio-stats.c (over
      [ControlWire] and [CameraWire]), [KmsProbes] kms/, [PamProbe] auth/plank-probe-pam.cpp,
      [LinuxProbes] nvenc/plank-probe-nvenc.cpp, wacom/plank-probe-wacom.cpp and
      linux/native-camera-capture.cpp.

    ** What the theorems show

    - Formats: each decoder accepts exactly the layouts of valid messages, within bounds, on
      every branch ([*_decode_exact]), and reads back what the encoder wrote
      ([*_roundtrip], [*_encode_decode]); [valid_text_exact] is UTF-8 validity,
      [parse_payload_exact] the framing of H.264 and JPEG as a grammar over all inputs.
    - Concurrency: under every interleaving of single accesses a camera record or a microphone
      sample is delivered whole or not at all ([camera_no_tearing], [mic_read_coherent]), the
      rings behave as queues ([camera_link_fifo], [tap_fifo]).  Of the threaded probes: no wakeup
      is lost, every run ends within a stated number of steps, and frames pass whole and in order
      ([pipeline_exact] 40 n + 27, [recovery_pipeline] 130 n + 67, [client_handoff] 9 n + 13);
      where a wakeup can be lost a run shows it ([failure_unheard]).
    - Resources: [resources_released], [feedback_window] and [display_exact] account for every
      object, whatever the drivers answer; [sample_left_behind] is the exception that was found.
    - Video probes: [recording_replayed] (what was recorded is replayed), [access_units_exact],
      [identity_conversion] (the device kernels write the reference samples, and
      [padded_rows_skewed] where they do not), [encoder_configured], [self_tests_pass],
      [percentile_rank], [schedule_exact] and [samples_matched] (pacing and stamps),
      [select_output_best] (the display mode), [has_extension_words], [round_trip_masks] and
      [unpack_parallel_exact] (pixels by their masks, rows on several threads).
    - Probes over their environment: an exit with 0 implies what the probe claims to have shown,
      for every sequence of answers: [dmabuf_gate] (the decoder's surfaces), [raw_capture_exact]
      and [probe_passes] (the grabbed pixels), [loopback_exact] (what one side accepted the other
      received, in order, behind both gates), [camera_live_exact] (the frames of the camera reach
      the server's file), [xb30_shows] (a display restored), [pam_session] (terminal, secrets,
      steps, session), [nvenc_gate], [tablets_exact], [capture_exact].  What they acquire is given
      back on every path ([loopback_balanced], [live_balanced], [nvenc_balanced],
      [tablets_balanced], [dmabuf_balanced]).  Where the code does not hold its intent a run shows it
      ([answers_lost], [credentials_left], [bad_count_terminates], [long_count_accepted],
      [late_applied_undefined]).
    - Abstract specifications: [mic_queue_refines] (a list of aged frames), [hal_refines] (a
      finite map of clients), [bridge_transparent] (reports pass unchanged).
    - Untrusted parties: [mic_gate_safe], [mic_ipc_read_sane], [bridge_attach].
    - Plug-ins: property tables on every branch ([mic_property_exact], [mic_set_exact],
      [output_property_exact], [output_set_controls]); the host's queries see the plug-ins
      ([queries_match_drivers]).
    - Policies and errors: [boot_console_exact], [media_negotiate_launch], [config_files_exact],
      [video_stream_decodable].

    ** Modelling conventions, bounds and fuel

    - An access outside an object, a signed overflow or any other undefined behaviour is [None],
      as is fuel that runs out; a theorem whose conclusion is [Some _] thus contains safety and
      termination.  Fuel is the length of the input plus one where a loop consumes input, and
      the loop's own bound (slots, capacity, burst) elsewhere.
    - Atomics are sequentially consistent, also where the source uses relaxed, acquire or release
      orders: the interleavings are those of single accesses; reorderings that the weaker orders
      allow are not covered.
    - Doubles round every operation to nearest even, with no contraction into fused
      multiply-adds; conversions to 64-bit integers in [MicIPC] are taken modulo 2^64.
    - Constants of Apple's SDK are fields of a class ([AudioSDK]) or constructors (selectors,
      scopes, statuses), those of the Linux headers fields of [UAPI]; nothing depends on their
      values but the stated distinctness.  Linux structures are little-endian and packed.
    - The buffers the audio server hands to a plug-in hold the announced number of frames.  The
      history's counters stay below 2^62 resets.  The microphone history has one writer.
    - The driver's store of its tick length into the shared region of [MicIPC] is not observed by
      the driver again and not modelled as an observation.
    - System calls are answered by lists ([transfer], [turn]): any sequence of short, interrupted
      and failing transfers is a list.  Sleeping threads of [BenchX264] wake by notification
      only; a spurious wakeup re-checks the predicate and changes nothing but the step count.
    - Times the probes keep as doubles of milliseconds are the integers they are divided from;
      the doubles that decide (a mode's refresh) are computed as doubles.
    - In the programs of [Calls] the counts of polls are the source's own (700, 200, 40); a loop
      bounded by a clock takes its rounds as an argument and ends as [Pending] when they run out.
      The theorems hold for every number of rounds; [live_terminates] says how many are enough.  Their witnesses run the whole program in
      an environment that keeps its promises ([loopback], [Qualification]).
    - Timings, statistics and printed text of the probes are left out where they do not decide.

    ** Not modelled

    Objective-C classes around system frameworks (sessions, XPC brokers, capture, input
    injection): their decisions are the headers above.  The Rust transport and the vendored
    QUIC library.  The applications that are git submodules, empty in this tree.  The Wayland
    ten-bit probe, the Qt probes, the macOS measurement programs and HID client, and the
    microphone clock probe, whose lines are calls into graphics and system libraries; of the
    modelled video probes the set-up of Wayland, EGL, GL and GStreamer, and the pacing gates in
    doubles; of the X11 probe its window.  Scripts and tests.  [PLANKReadAudio] of
    installed-media-validation.h (sums of rounded squares). *)

From stdpp Require Export base numbers list option strings.
From Stdlib Require Export ZArith Lia Bool ZifyBool.
From Stdlib Require Import Btauto.

#[global] Open Scope Z_scope.

(** ** Machine integers

    A w-bit unsigned integer of the source is a [Z]; every operation that can
    leave its range is followed by the wrap of its C type. *)

Definition wrap (w z : Z) : Z := z `mod` 2 ^ w.
Abbreviation u8 := (wrap 8).
Abbreviation u16 := (wrap 16).
Abbreviation u32 := (wrap 32).
Abbreviation u64 := (wrap 64).

Definition UINT16_MAX : Z := 65535.
Definition UINT32_MAX : Z := 4294967295.
Definition UINT64_MAX : Z := 18446744073709551615.
Definition INT64_MAX : Z := 9223372036854775807.

(** The conversion of an unsigned value to a w-bit signed one. *)
Definition swrap (w z : Z) : Z := (z + 2 ^ (w - 1)) `mod` 2 ^ w - 2 ^ (w - 1).
Abbreviation s32 := (swrap 32).
Abbreviation s64 := (swrap 64).

Definition in_range (w z : Z) : Prop := 0 <= z < 2 ^ w.
Abbreviation is_byte := (in_range 8).
Definition bytes (l : list Z) : Prop := Forall is_byte l.

Create HintDb plank.

Lemma wrap_range w z : 0 <= w -> in_range w (wrap w z).
Proof. intros Hw. apply Z.mod_pos_bound. lia. Qed.

Lemma wrap_small w z : in_range w z -> wrap w z = z.
Proof. apply Z.mod_small. Qed.

Lemma wrap_wrap w z : 0 <= w -> wrap w (wrap w z) = wrap w z.
Proof. intros. apply wrap_small. by apply wrap_range. Qed.

Lemma in_range_mono v w z : 0 <= v <= w -> in_range v z -> in_range w z.
Proof.
  intros Hvw [Hz1 Hz2]. split; [done|].
  eapply Z.lt_le_trans; [done|]. apply Z.pow_le_mono_r; lia.
Qed.

Lemma swrap_range w z : 1 <= w -> - 2 ^ (w - 1) <= swrap w z < 2 ^ (w - 1).
Proof.
  intros Hw. unfold swrap.
  replace (2 ^ w) with (2 * 2 ^ (w - 1)).
  2: { rewrite <- Z.pow_succ_r by lia. f_equal. lia. }
  pose proof (Z.pow_pos_nonneg 2 (w - 1)).
  pose proof (Z.mod_pos_bound (z + 2 ^ (w - 1)) (2 * 2 ^ (w - 1))). lia.
Qed.

Lemma swrap_small w z : 1 <= w -> - 2 ^ (w - 1) <= z < 2 ^ (w - 1) -> swrap w z = z.
Proof.
  intros Hw Hz. unfold swrap. rewrite Z.mod_small; [lia|].
  replace (2 ^ w) with (2 * 2 ^ (w - 1)); [lia|].
  rewrite <- Z.pow_succ_r by lia. f_equal. lia.
Qed.

(** Literal widths unfolded for [lia]. *)
Ltac pows :=
  change (2 ^ 8) with 256 in *; change (2 ^ 16) with 65536 in *;
  change (2 ^ 32) with 4294967296 in *; change (2 ^ 64) with 18446744073709551616 in *;
  change (2 ^ 24) with 16777216 in *; change (2 ^ 63) with 9223372036854775808 in *;
  change (2 ^ 31) with 2147483648 in *.
Ltac ranges := unfold in_range, wrap, UINT16_MAX, UINT32_MAX, UINT64_MAX, INT64_MAX in *; pows.

(** Case analysis on the boolean guards of the code. *)
Ltac guards :=
  repeat match goal with
  | H : context [Is_true] |- _ => progress unfold Is_true in H
  | H : _ && _ = true |- _ => apply andb_true_iff in H as [? ?]
  | H : _ || _ = false |- _ => apply orb_false_iff in H as [? ?]
  | H : negb _ = true |- _ => apply negb_true_iff in H
  | H : negb _ = false |- _ => apply negb_false_iff in H
  end.

(** ** Memory

    A buffer is the list of its bytes and a pointer into it an offset.  An
    access outside the buffer is undefined behaviour in C and [None] here, so a
    theorem that an operation returns [Some] states that it stays in bounds. *)

Definition load {A} (buf : list A) (i : Z) : option A :=
  if 0 <=? i then buf !! Z.to_nat i else None.

(** [memcpy] of [src] over the elements of [buf] from index [n] on. *)
Fixpoint overwrite {A} (buf : list A) (n : nat) (src : list A) : option (list A) :=
  match n, src, buf with
  | O, [], _ => Some buf
  | O, s :: ss, _ :: bs => cons s <$> overwrite bs O ss
  | S n', _, b :: bs => cons b <$> overwrite bs n' src
  | _, _, [] => None
  end.

Definition copy_to {A} (buf : list A) (at_ : Z) (src : list A) : option (list A) :=
  if 0 <=? at_ then overwrite buf (Z.to_nat at_) src else None.

Definition store {A} (buf : list A) (i : Z) (v : A) : option (list A) :=
  copy_to buf i [v].

(** [memcpy] of [k] elements of [buf] from index [n] on. *)
Fixpoint extract {A} (buf : list A) (n k : nat) : option (list A) :=
  match n, k, buf with
  | O, O, _ => Some []
  | O, S k', b :: bs => cons b <$> extract bs O k'
  | S n', _, _ :: bs => extract bs n' k
  | O, S _, [] => None
  | S n', _, [] => None
  end.

Definition copy_from {A} (buf : list A) (at_ k : Z) : option (list A) :=
  if (0 <=? at_) && (0 <=? k) then extract buf (Z.to_nat at_) (Z.to_nat k) else None.

(** [memset]. *)
Definition fill {A} (buf : list A) (at_ n : Z) (v : A) : option (list A) :=
  copy_to buf at_ (replicate (Z.to_nat n) v).

Abbreviation len l := (Z.of_nat (length l)).

Section memory.
Context {A : Type}.
Implicit Types (buf src pre old rest : list A) (i n : Z).

Lemma load_Some buf i : 0 <= i < len buf -> exists v, load buf i = Some v.
Proof.
  intros Hi. unfold load. rewrite (proj2 (Z.leb_le 0 i)) by lia.
  apply lookup_lt_is_Some_2. lia.
Qed.

Lemma load_nat buf (k : nat) : load buf (Z.of_nat k) = buf !! k.
Proof. unfold load. rewrite (proj2 (Z.leb_le 0 _)) by lia. by rewrite Nat2Z.id. Qed.

Lemma load_inv buf i v :
  load buf i = Some v -> 0 <= i < len buf /\ buf !! Z.to_nat i = Some v.
Proof.
  unfold load. destruct (0 <=? i) eqn:E; [|done]. intros H.
  apply lookup_lt_Some in H as ?. split; [lia|done].
Qed.

Lemma load_app_r pre rest i :
  0 <= i -> load (pre ++ rest) (len pre + i) = load rest i.
Proof.
  intros Hi. unfold load. rewrite !(proj2 (Z.leb_le 0 _)) by lia.
  rewrite lookup_app_r by lia. f_equal. lia.
Qed.

Lemma load_here pre v rest i : i = len pre -> load (pre ++ v :: rest) i = Some v.
Proof. intros ->. rewrite load_nat. by apply list_lookup_middle. Qed.

Lemma overwrite_nil buf : overwrite buf 0 [] = Some buf.
Proof. by destruct buf. Qed.

Lemma overwrite_app pre old src rest :
  length old = length src ->
  overwrite (pre ++ old ++ rest) (length pre) src = Some (pre ++ src ++ rest).
Proof.
  intros Hl. induction pre as [|p pre IH]; cbn.
  - revert old Hl. induction src as [|s src IH]; intros [|o old] Hl; try done; cbn.
    { by destruct rest. }
    rewrite IH by (cbn in Hl; lia). done.
  - by rewrite IH.
Qed.

Lemma overwrite_length buf k src buf' :
  overwrite buf k src = Some buf' -> length buf' = length buf.
Proof.
  revert k src buf'. induction buf as [|b buf IH]; intros [|k] [|s src] buf'; cbn;
    intros H; simplify_eq; try done;
    apply fmap_Some in H as [t [Ht ->]]; cbn; f_equal; by eapply IH.
Qed.

Lemma copy_to_app pre old src rest i :
  length old = length src -> i = len pre ->
  copy_to (pre ++ old ++ rest) i src = Some (pre ++ src ++ rest).
Proof.
  intros Hl ->. unfold copy_to. rewrite (proj2 (Z.leb_le 0 _)) by lia.
  rewrite Nat2Z.id. by apply overwrite_app.
Qed.

(** A copy that fits always succeeds, and replaces exactly its own range. *)
Lemma copy_to_Some buf i src :
  0 <= i -> i + len src <= len buf ->
  copy_to buf i src =
    Some (take (Z.to_nat i) buf ++ src ++ drop (Z.to_nat i + length src) buf).
Proof.
  intros Hi Hl.
  transitivity (copy_to (take (Z.to_nat i) buf ++ take (length src) (drop (Z.to_nat i) buf)
                           ++ drop (Z.to_nat i + length src) buf) i src).
  - by rewrite <- drop_drop, !take_drop.
  - apply copy_to_app; rewrite !length_take, ?length_drop; lia.
Qed.

Lemma copy_to_length buf i src buf' :
  copy_to buf i src = Some buf' -> length buf' = length buf.
Proof. unfold copy_to. destruct (0 <=? i); [|done]. apply overwrite_length. Qed.

Lemma extract_app pre src rest :
  extract (pre ++ src ++ rest) (length pre) (length src) = Some src.
Proof.
  induction pre as [|p pre IH]; cbn; [|done].
  induction src as [|s src IH]; cbn; [by destruct rest|]. by rewrite IH.
Qed.

Lemma copy_from_app pre src rest i n :
  i = len pre -> n = len src -> copy_from (pre ++ src ++ rest) i n = Some src.
Proof.
  intros -> ->. unfold copy_from. rewrite !(proj2 (Z.leb_le 0 _)) by lia.
  cbn. rewrite !Nat2Z.id. apply extract_app.
Qed.

Lemma copy_from_suffix pre src i n :
  i = len pre -> n = len src -> copy_from (pre ++ src) i n = Some src.
Proof. intros -> ->. rewrite <- (app_nil_r src) at 1. by apply copy_from_app. Qed.

Lemma store_Some buf i v :
  0 <= i < len buf -> store buf i v = Some (<[Z.to_nat i := v]> buf).
Proof.
  intros Hi. unfold store. rewrite copy_to_Some by (cbn; lia). f_equal.
  rewrite insert_take_drop by lia. cbn. do 3 f_equal. lia.
Qed.

Lemma store_length buf i v buf' :
  store buf i v = Some buf' -> length buf' = length buf.
Proof. apply copy_to_length. Qed.

(** A buffer of at least [n] elements is an [n]-element prefix and a rest. *)
Lemma split_prefix buf (k : nat) :
  (k <= length buf)%nat -> exists pre rest, buf = pre ++ rest /\ length pre = k.
Proof.
  intros Hk. exists (take k buf), (drop k buf). rewrite take_drop.
  split; [done|]. rewrite length_take. lia.
Qed.
End memory.

Lemma copy_from_take {A} (l : list A) n :
  0 <= n <= len l -> copy_from l 0 n = Some (take (Z.to_nat n) l).
Proof.
  intros Hn. rewrite <- (take_drop (Z.to_nat n) l) at 1.
  apply (copy_from_app []); [done|]. rewrite length_take. lia.
Qed.

(** [memcmp(a, b, n) == 0] over two buffers; [None] outside either of them. *)
Definition memcmp_eq (a b : list Z) (n : Z) : option bool :=
  a ← copy_from a 0 n; b ← copy_from b 0 n; Some (bool_decide (a = b)).

Lemma memcmp_eq_prefix (a b : list Z) :
  len b <= len a ->
  memcmp_eq a b (len b) = Some (bool_decide (take (length b) a = b)).
Proof.
  intros H. unfold memcmp_eq. rewrite !copy_from_take by lia. cbn [mbind option_bind].
  by rewrite Nat2Z.id, firstn_all.
Qed.

Lemma load_bytes buf i v : bytes buf -> load buf i = Some v -> is_byte v.
Proof. intros Hb [_ H]%load_inv. by eapply Forall_lookup_1 in Hb. Qed.

(** A boolean fact about every byte, by enumeration. *)
Lemma byte_forall (P : Z -> bool) b :
  forallb P (map Z.of_nat (seq 0 256)) = true -> is_byte b -> P b = true.
Proof.
  intros H Hb. rewrite forallb_forall in H. apply H.
  apply in_map_iff. exists (Z.to_nat b). unfold in_range in Hb. change (2 ^ 8) with 256 in Hb.
  split; [lia|]. apply in_seq. lia.
Qed.

(** [explode pre] replaces a list of known length by its elements. *)
Ltac explode pre :=
  repeat match goal with
  | H : length pre = S _ |- _ =>
      let x := fresh "o" in let l := fresh "l" in
      destruct pre as [|x l]; [discriminate H|]; apply (f_equal pred) in H; cbn in H;
      explode l
  | H : length pre = 0%nat |- _ => apply nil_length_inv in H; subst pre
  end.

(** One [is_byte] hypothesis for each byte of an explicit list. *)
Ltac byte_hyps :=
  unfold bytes in *;
  repeat match goal with H : Forall _ (_ :: _) |- _ => apply Forall_cons in H as [? H] end.

(** Closed side conditions at concrete inputs. *)
Ltac concrete :=
  unfold bytes, in_range; repeat (apply Forall_cons; split); try apply Forall_nil;
  repeat match goal with |- _ /\ _ => split end;
  try reflexivity; try (vm_compute; congruence); try (cbn; lia).

(** The branch a closed condition selects. *)
Ltac taken H :=
  match type of H with
  | if ?c then _ else _ => let b := eval vm_compute in c in change c with b in H; cbv iota in H
  end.

(** ** Notations

    [stop_if c with r; k] is the source's [if (c) return r;] followed by the
    rest of the function. *)
Declare Scope plank_scope.
Delimit Scope plank_scope with plank.
Notation "'stop_if' c 'with' r ; k" := (if c then r else k)
  (at level 10, c at level 100, r at level 100, k at level 200, only parsing) : plank_scope.
#[global] Open Scope plank_scope.
