(* ===== verification/Endian.v ===== *)
(** * Endian: the byte orders of the wire formats

    Every header under protocol/plank-transport/include carries its own inline
    copy of the same big-endian accessors ([*_write_u16], [*_write_u32],
    [*_read_u16], [*_read_u32]); the clipboard format is little-endian.  The
    accessors are translated once here, byte access by byte access, and each
    wire component instantiates them under the names of its own header. *)

From S2P Require Import Prelude.

(** ** Big-endian accessors *)

(** [output[0] = (uint8_t)(value >> 8); output[1] = (uint8_t)value;] *)
Definition write_u16 (output : list Z) (at_ value : Z) : option (list Z) :=
  output ← store output at_ (u8 (Z.shiftr value 8));
  store output (at_ + 1) (u8 value).

Definition write_u32 (output : list Z) (at_ value : Z) : option (list Z) :=
  output ← store output at_ (u8 (Z.shiftr value 24));
  output ← store output (at_ + 1) (u8 (Z.shiftr value 16));
  output ← store output (at_ + 2) (u8 (Z.shiftr value 8));
  store output (at_ + 3) (u8 value).

Definition join_u16 (b0 b1 : Z) : Z := u16 (Z.lor (Z.shiftl b0 8) b1).
Definition join_u32 (b0 b1 b2 b3 : Z) : Z :=
  Z.lor (Z.lor (Z.lor (u32 (Z.shiftl b0 24)) (Z.shiftl b1 16)) (Z.shiftl b2 8)) b3.

Definition read_u16 (input : list Z) (at_ : Z) : option Z :=
  b0 ← load input at_; b1 ← load input (at_ + 1);
  Some (join_u16 b0 b1).

Definition read_u32 (input : list Z) (at_ : Z) : option Z :=
  b0 ← load input at_; b1 ← load input (at_ + 1);
  b2 ← load input (at_ + 2); b3 ← load input (at_ + 3);
  Some (join_u32 b0 b1 b2 b3).

(** The bytes the writers leave behind. *)
Definition be16 (v : Z) : list Z := [u8 (Z.shiftr v 8); u8 v].
Definition be32 (v : Z) : list Z :=
  [u8 (Z.shiftr v 24); u8 (Z.shiftr v 16); u8 (Z.shiftr v 8); u8 v].
Definition be64 (v : Z) : list Z := be32 (u32 (Z.shiftr v 32)) ++ be32 (u32 v).

(** 64-bit values as two words, the high one first. *)
Definition write_u64 (output : list Z) (at_ value : Z) : option (list Z) :=
  output ← write_u32 output at_ (u32 (Z.shiftr value 32));
  write_u32 output (at_ + 4) (u32 value).
Definition read_u64 (input : list Z) (at_ : Z) : option Z :=
  high ← read_u32 input at_; low ← read_u32 input (at_ + 4);
  Some (Z.lor (u64 (Z.shiftl high 32)) low).

#[global] Arguments read_u64 : simpl never.
#[global] Arguments write_u64 : simpl never.
#[global] Arguments read_u16 : simpl never.
#[global] Arguments read_u32 : simpl never.
#[global] Arguments write_u16 : simpl never.
#[global] Arguments write_u32 : simpl never.
#[global] Arguments join_u16 : simpl never.
#[global] Arguments join_u32 : simpl never.
#[global] Arguments wrap : simpl never.
#[global] Arguments Z.shiftr : simpl never.
#[global] Arguments Z.shiftl : simpl never.
#[global] Arguments Z.lor : simpl never.
#[global] Arguments Z.land : simpl never.

(** ** Bits and bytes *)

Lemma testbit_high b n i : 0 <= n -> 0 <= b < 2 ^ n -> n <= i -> Z.testbit b i = false.
Proof.
  intros Hn Hb Hi. rewrite <- (Z.mod_small b (2 ^ n)) by done.
  apply Z.mod_pow2_bits_high. lia.
Qed.

Lemma lor_shiftl_add a b n :
  0 <= n -> 0 <= b < 2 ^ n -> Z.lor (Z.shiftl a n) b = a * 2 ^ n + b.
Proof.
  intros Hn Hb.
  assert (Z.land (Z.shiftl a n) b = 0) as Hland.
  { apply Z.bits_inj'; intros i Hi. rewrite Z.land_spec, Z.bits_0.
    destruct (Z.lt_ge_cases i n).
    - by rewrite Z.shiftl_spec_low.
    - by rewrite (testbit_high b n), andb_false_r. }
  by rewrite <- Z.lxor_lor, <- Z.add_nocarry_lxor, Z.shiftl_mul_pow2 by done.
Qed.

Lemma join_u16_eq b0 b1 : is_byte b0 -> is_byte b1 -> join_u16 b0 b1 = b0 * 256 + b1.
Proof.
  intros H0 H1. unfold join_u16. rewrite lor_shiftl_add by (ranges; lia).
  ranges. rewrite Z.mod_small; lia.
Qed.

Lemma join_u32_eq b0 b1 b2 b3 :
  is_byte b0 -> is_byte b1 -> is_byte b2 -> is_byte b3 ->
  join_u32 b0 b1 b2 b3 = b0 * 16777216 + b1 * 65536 + b2 * 256 + b3.
Proof.
  intros H0 H1 H2 H3. unfold join_u32.
  assert (u32 (Z.shiftl b0 24) = Z.shiftl b0 24) as ->.
  { apply wrap_small. rewrite Z.shiftl_mul_pow2 by lia. ranges. lia. }
  rewrite (lor_shiftl_add b0 (Z.shiftl b1 16)) by
    (rewrite ?(Z.shiftl_mul_pow2 b1) by lia; ranges; lia).
  rewrite (Z.shiftl_mul_pow2 b1) by lia.
  replace (b0 * 2 ^ 24 + b1 * 2 ^ 16) with (Z.shiftl (b0 * 256 + b1) 16)
    by (rewrite Z.shiftl_mul_pow2 by lia; ranges; lia).
  rewrite (lor_shiftl_add _ (Z.shiftl b2 8)) by
    (rewrite ?(Z.shiftl_mul_pow2 b2) by lia; ranges; lia).
  rewrite (Z.shiftl_mul_pow2 b2) by lia.
  replace ((b0 * 256 + b1) * 2 ^ 16 + b2 * 2 ^ 8) with
    (Z.shiftl ((b0 * 256 + b1) * 256 + b2) 8)
    by (rewrite Z.shiftl_mul_pow2 by lia; ranges; lia).
  rewrite lor_shiftl_add by (ranges; lia). ranges. lia.
Qed.

Lemma byte_split v : 0 <= v -> v = Z.shiftr v 8 * 256 + u8 v.
Proof.
  intros. rewrite Z.shiftr_div_pow2 by lia. ranges.
  rewrite (Z.div_mod v 256) at 1 by lia. lia.
Qed.

Lemma shiftr_bytes v a b : 0 <= a -> 0 <= b -> Z.shiftr (Z.shiftr v a) b = Z.shiftr v (a + b).
Proof. intros. by rewrite Z.shiftr_shiftr. Qed.

Lemma join_u16_be16 v : in_range 16 v -> join_u16 (u8 (Z.shiftr v 8)) (u8 v) = v.
Proof.
  intros Hv. rewrite join_u16_eq by (apply wrap_range; lia).
  rewrite !Z.shiftr_div_pow2 by lia. ranges. Z.div_mod_to_equations. lia.
Qed.

Lemma join_u32_be32 v :
  in_range 32 v ->
  join_u32 (u8 (Z.shiftr v 24)) (u8 (Z.shiftr v 16)) (u8 (Z.shiftr v 8)) (u8 v) = v.
Proof.
  intros Hv. rewrite join_u32_eq by (apply wrap_range; lia).
  rewrite !Z.shiftr_div_pow2 by lia. ranges. Z.div_mod_to_equations. lia.
Qed.

Lemma join_u16_range b0 b1 :
  is_byte b0 -> is_byte b1 -> in_range 16 (join_u16 b0 b1).
Proof. intros. rewrite join_u16_eq by done. ranges. lia. Qed.

Lemma join_u32_range b0 b1 b2 b3 :
  is_byte b0 -> is_byte b1 -> is_byte b2 -> is_byte b3 ->
  in_range 32 (join_u32 b0 b1 b2 b3).
Proof. intros. rewrite join_u32_eq by done. ranges. lia. Qed.

(** The other direction: a joined value splits into the bytes it came from. *)
Lemma be16_join b0 b1 : is_byte b0 -> is_byte b1 -> be16 (join_u16 b0 b1) = [b0; b1].
Proof.
  intros. rewrite join_u16_eq by done. unfold be16.
  rewrite !Z.shiftr_div_pow2 by lia. ranges.
  repeat f_equal; Z.div_mod_to_equations; lia.
Qed.

Lemma be32_join b0 b1 b2 b3 :
  is_byte b0 -> is_byte b1 -> is_byte b2 -> is_byte b3 ->
  be32 (join_u32 b0 b1 b2 b3) = [b0; b1; b2; b3].
Proof.
  intros. rewrite join_u32_eq by done. unfold be32.
  rewrite !Z.shiftr_div_pow2 by lia. ranges.
  repeat f_equal; Z.div_mod_to_equations; lia.
Qed.

Lemma be32_inj v1 v2 : in_range 32 v1 -> in_range 32 v2 -> be32 v1 = be32 v2 -> v1 = v2.
Proof.
  intros H1 H2 [= E1 E2 E3 E4]. rewrite <- (join_u32_be32 v1), <- (join_u32_be32 v2) by done.
  congruence.
Qed.

Lemma be16_bytes v : bytes (be16 v).
Proof. repeat constructor; apply wrap_range; lia. Qed.
Lemma be32_bytes v : bytes (be32 v).
Proof. repeat constructor; apply wrap_range; lia. Qed.

(** ** The accessors on memory *)

Lemma bind_copy {A} (buf : list A) i v src :
  0 <= i ->
  (copy_to buf i [v] ≫= fun b => copy_to b (i + 1) src) = copy_to buf i (v :: src).
Proof.
  intros Hi. unfold copy_to. rewrite !(proj2 (Z.leb_le 0 _)) by lia.
  replace (Z.to_nat (i + 1)) with (S (Z.to_nat i)) by lia.
  generalize (Z.to_nat i) as k. intros k. revert k.
  induction buf as [|b buf IH]; intros [|k]; cbn; try done.
  - assert (overwrite buf 0 [] = Some buf) as -> by by destruct buf. done.
  - specialize (IH k). rewrite <- IH. by destruct (overwrite buf k [v]).
Qed.

Lemma write_u16_copy output at_ v :
  0 <= at_ -> write_u16 output at_ v = copy_to output at_ (be16 v).
Proof. intros H. unfold write_u16, store, be16. by rewrite bind_copy. Qed.

Lemma write_u32_copy output at_ v :
  0 <= at_ -> write_u32 output at_ v = copy_to output at_ (be32 v).
Proof.
  intros H. unfold write_u32, store, be32.
  replace (at_ + 3) with (at_ + 2 + 1) by lia. replace (at_ + 2) with (at_ + 1 + 1) by lia.
  symmetry. etransitivity; [symmetry; apply bind_copy; lia|].
  destruct (copy_to output at_ [_]) as [o|]; [cbn|done].
  etransitivity; [symmetry; apply bind_copy; lia|].
  destruct (copy_to o _ [_]) as [o'|]; [cbn|done].
  symmetry. apply bind_copy. lia.
Qed.

Lemma read_u16_app pre b0 b1 rest i :
  i = len pre -> read_u16 (pre ++ b0 :: b1 :: rest) i = Some (join_u16 b0 b1).
Proof.
  intros ->. unfold read_u16. rewrite <- (Z.add_0_r (len pre)) at 1.
  rewrite !load_app_r by lia. done.
Qed.

Lemma read_u32_app pre b0 b1 b2 b3 rest i :
  i = len pre ->
  read_u32 (pre ++ b0 :: b1 :: b2 :: b3 :: rest) i = Some (join_u32 b0 b1 b2 b3).
Proof.
  intros ->. unfold read_u32. rewrite <- (Z.add_0_r (len pre)) at 1.
  rewrite !load_app_r by lia. done.
Qed.

Lemma read_u32_be32 pre v rest i :
  in_range 32 v -> i = len pre -> read_u32 (pre ++ be32 v ++ rest) i = Some v.
Proof. intros Hv Hi. cbn. by rewrite read_u32_app, join_u32_be32. Qed.

Lemma read_u16_be16 pre v rest i :
  in_range 16 v -> i = len pre -> read_u16 (pre ++ be16 v ++ rest) i = Some v.
Proof. intros Hv Hi. cbn. by rewrite read_u16_app, join_u16_be16. Qed.

Lemma copy_to_app_src {A} (buf : list A) i src1 src2 :
  0 <= i ->
  (copy_to buf i src1 ≫= fun b => copy_to b (i + len src1) src2) = copy_to buf i (src1 ++ src2).
Proof.
  intros Hi. revert buf i Hi. induction src1 as [|v src1 IH]; intros buf i Hi.
  - cbn [length app]. rewrite Z.add_0_r. destruct (Z.leb_spec (i + 0) (len buf)).
    + rewrite copy_to_Some by (cbn; lia). cbn [mbind option_bind app length].
      by rewrite Nat.add_0_r, take_drop.
    + assert (forall s, copy_to buf i s = None) as E.
      { intros s. unfold copy_to. rewrite (proj2 (Z.leb_le 0 i)) by lia.
        assert (length buf < Z.to_nat i)%nat as Hlt by lia. revert Hlt. generalize (Z.to_nat i).
        clear. induction buf as [|b buf IH]; intros [|n] Hn; cbn in *; try lia; [done|].
        rewrite IH by lia. done. }
      by rewrite !E.
  - cbn [app]. rewrite <- (bind_copy _ _ _ (src1 ++ src2)), <- (bind_copy _ _ _ src1) by done.
    destruct (copy_to buf i [v]) as [b|]; [cbn [mbind option_bind]|done].
    rewrite <- IH by lia. replace (i + len (v :: src1)) with (i + 1 + len src1)
      by (cbn [length]; lia). done.
Qed.

Lemma write_u64_copy output at_ v :
  0 <= at_ -> write_u64 output at_ v = copy_to output at_ (be64 v).
Proof.
  intros H. unfold write_u64, be64. rewrite <- copy_to_app_src by done.
  rewrite write_u32_copy by done. destruct (copy_to _ _ _) as [b|]; [cbn [mbind option_bind]|done].
  by rewrite write_u32_copy by lia.
Qed.

Lemma read_u64_be64 pre v rest i :
  in_range 64 v -> i = len pre -> read_u64 (pre ++ be64 v ++ rest) i = Some v.
Proof.
  intros Hv ->. unfold read_u64, be64. rewrite <- app_assoc.
  rewrite (read_u32_be32 _ _ _ (len pre)); [|apply wrap_range; lia|done]. cbn [mbind option_bind].
  rewrite app_assoc, read_u32_be32; [|apply wrap_range; lia|rewrite length_app; cbn; lia].
  cbn [mbind option_bind]. f_equal.
  assert (u32 (Z.shiftr v 32) = Z.shiftr v 32) as ->.
  { apply wrap_small. rewrite Z.shiftr_div_pow2 by lia. ranges. Z.div_mod_to_equations. lia. }
  assert (0 <= Z.shiftr v 32 < 2 ^ 32) as Hh.
  { rewrite Z.shiftr_div_pow2 by lia. ranges. Z.div_mod_to_equations. lia. }
  assert (in_range 64 (Z.shiftl (Z.shiftr v 32) 32)) as Hs.
  { rewrite Z.shiftl_mul_pow2 by lia. ranges. lia. }
  rewrite wrap_small by done. rewrite lor_shiftl_add by (try apply wrap_range; lia).
  rewrite Z.shiftr_div_pow2 by lia. ranges. Z.div_mod_to_equations. lia.
Qed.

Lemma be64_join hi lo : in_range 32 hi -> in_range 32 lo ->
  be64 (hi * 2 ^ 32 + lo) = be32 hi ++ be32 lo.
Proof.
  intros. unfold be64. rewrite Z.shiftr_div_pow2 by lia.
  f_equal; f_equal; ranges; Z.div_mod_to_equations; lia.
Qed.

(** [mem_eval] runs writes and reads over a buffer whose header is explicit. *)
Ltac literals :=
  repeat match goal with
  | |- context [Z.to_nat ?z] =>
      lazymatch z with
      | Z0 => change (Z.to_nat z) with 0%nat
      | Zpos _ => let n := eval vm_compute in (Z.to_nat z) in change (Z.to_nat z) with n
      end
  end.
Ltac mem_cbn :=
  cbn [copy_to copy_from load store Z.leb Z.compare Pos.compare Pos.compare_cont andb];
  literals;
  cbn [overwrite extract fill replicate lookup list_lookup
       fmap option_fmap option_map mbind option_bind be16 be32 be64 app andb].
Ltac mem_eval :=
  repeat first [ progress mem_cbn
               | rewrite overwrite_nil
               | rewrite write_u64_copy by lia
               | rewrite write_u32_copy by lia
               | rewrite write_u16_copy by lia ].

(** ** Little-endian integers of [n] bytes *)

(** [for (i = 0; i < n; ++i) result |= (uint64_t)p[i] << (8 * i);] *)
Fixpoint read_le_loop (p : list Z) (at_ i : Z) (n : nat) (result : Z) : option Z :=
  match n with
  | O => Some result
  | S n' =>
      b ← load p (at_ + i);
      read_le_loop p at_ (i + 1) n' (Z.lor result (u64 (Z.shiftl b (8 * i))))
  end.
Definition read_le (p : list Z) (at_ : Z) (n : nat) : option Z := read_le_loop p at_ 0 n 0.

(** [for (i = 0; i < n; ++i) p[i] = (uint8_t)(value >> (8 * i));] *)
Fixpoint write_le_loop (p : list Z) (at_ value i : Z) (n : nat) : option (list Z) :=
  match n with
  | O => Some p
  | S n' =>
      p ← store p (at_ + i) (u8 (Z.shiftr value (8 * i)));
      write_le_loop p at_ value (i + 1) n'
  end.
Definition write_le (p : list Z) (at_ value : Z) (n : nat) : option (list Z) :=
  write_le_loop p at_ value 0 n.

#[global] Arguments read_le : simpl never.
#[global] Arguments write_le : simpl never.

Fixpoint le_bytes (n : nat) (v : Z) : list Z :=
  match n with O => [] | S n' => u8 v :: le_bytes n' (Z.shiftr v 8) end.
Fixpoint le_value (l : list Z) : Z :=
  match l with [] => 0 | b :: l' => b + 256 * le_value l' end.

Lemma le_bytes_length n v : length (le_bytes n v) = n.
Proof. revert v. induction n as [|n IH]; intros v; cbn; [done|]. by rewrite IH. Qed.

Lemma le_bytes_bytes n v : bytes (le_bytes n v).
Proof.
  revert v. induction n as [|n IH]; intros v; constructor; [|apply IH].
  apply wrap_range. lia.
Qed.

Lemma le_value_range l : bytes l -> in_range (8 * len l) (le_value l).
Proof.
  induction 1 as [|b l Hb Hl IH]; [done|]. cbn [le_value length].
  rewrite Nat2Z.inj_succ. replace (8 * Z.succ (len l)) with (8 + 8 * len l) by lia.
  unfold in_range in *. rewrite Z.pow_add_r by lia. change (2 ^ 8) with 256 in *. nia.
Qed.

Lemma le_value_bytes n v : in_range (8 * Z.of_nat n) v -> le_value (le_bytes n v) = v.
Proof.
  revert v. induction n as [|n IH]; intros v Hv; cbn [le_bytes le_value].
  { unfold in_range in Hv. cbn in Hv. lia. }
  assert (0 <= v) by apply Hv.
  rewrite IH; [pose proof (byte_split v); lia|].
  unfold in_range in *. rewrite Z.shiftr_div_pow2 by lia.
  rewrite Nat2Z.inj_succ in Hv. replace (8 * Z.succ (Z.of_nat n)) with (8 + 8 * Z.of_nat n) in Hv by lia.
  rewrite Z.pow_add_r in Hv by lia. split; [apply Z.div_pos; lia|].
  apply Z.div_lt_upper_bound; lia.
Qed.

Lemma le_bytes_value l : bytes l -> le_bytes (length l) (le_value l) = l.
Proof.
  induction 1 as [|b l Hb Hl IH]; [done|]. cbn [le_value length le_bytes].
  assert (0 <= le_value l) by apply (le_value_range l Hl).
  rewrite Z.shiftr_div_pow2 by lia.
  replace ((b + 256 * le_value l) / 2 ^ 8) with (le_value l)
    by (ranges; Z.div_mod_to_equations; lia).
  rewrite IH. f_equal. ranges. Z.div_mod_to_equations; lia.
Qed.

Lemma read_le_app pre l rest i n :
  bytes l -> n = length l -> (n <= 8)%nat -> i = len pre ->
  read_le (pre ++ l ++ rest) i n = Some (le_value l).
Proof.
  intros Hb -> Hn ->. unfold read_le.
  enough (forall done_ todo acc, l = done_ ++ todo -> 0 <= acc < 2 ^ (8 * len done_) ->
    read_le_loop (pre ++ l ++ rest) (len pre) (len done_) (length todo) acc
    = Some (acc + 2 ^ (8 * len done_) * le_value todo)) as H.
  { specialize (H [] l 0 eq_refl). cbn [length] in H. change (Z.of_nat 0) with 0 in H.
    rewrite H by (cbn; lia). f_equal. change (2 ^ (8 * 0)) with 1. lia. }
  intros done_ todo. revert done_. induction todo as [|b todo IH]; intros done_ acc -> Hacc.
  { cbn. f_equal. lia. }
  cbn [length read_le_loop]. rewrite load_app_r, load_nat by lia.
  rewrite (lookup_app_l (done_ ++ b :: todo)) by (rewrite length_app; cbn; lia).
  rewrite list_lookup_middle by done. cbn [mbind option_bind].
  rewrite length_app in Hn. cbn [length] in Hn.
  assert (is_byte b) as Hbb.
  { apply Forall_app in Hb as [_ Hb]. by apply Forall_cons in Hb as [? _]. }
  set (k := len done_) in *.
  assert (2 ^ (8 * k + 8) = 2 ^ (8 * k) * 256) as Hp by (rewrite Z.pow_add_r by lia; done).
  assert (0 < 2 ^ (8 * k)) by (apply Z.pow_pos_nonneg; lia).
  assert (2 ^ (8 * k + 8) <= 2 ^ 64) by (apply Z.pow_le_mono_r; lia).
  assert (u64 (Z.shiftl b (8 * k)) = b * 2 ^ (8 * k)) as ->.
  { rewrite Z.shiftl_mul_pow2 by lia. apply wrap_small. unfold in_range in *.
    change (2 ^ 8) with 256 in *. nia. }
  rewrite Z.lor_comm, <- Z.shiftl_mul_pow2, lor_shiftl_add by lia.
  specialize (IH (done_ ++ [b])). rewrite length_app, Nat2Z.inj_add in IH.
  cbn [length] in IH. change (Z.of_nat 1) with 1 in IH. fold k in IH.
  replace (8 * (k + 1)) with (8 * k + 8) in IH by lia.
  rewrite IH; [|by rewrite <- app_assoc|unfold in_range in Hbb; change (2 ^ 8) with 256 in *; nia].
  f_equal. cbn [le_value]. rewrite Hp. ring.
Qed.

Lemma write_le_copy p at_ v n :
  0 <= at_ -> at_ + Z.of_nat n <= len p -> write_le p at_ v n = copy_to p at_ (le_bytes n v).
Proof.
  intros Hat. unfold write_le.
  enough (forall i p, 0 <= i -> at_ + i + Z.of_nat n <= len p ->
    write_le_loop p at_ v i n = copy_to p (at_ + i) (le_bytes n (Z.shiftr v (8 * i)))) as H.
  { intros Hl. rewrite H, Z.add_0_r by lia. by rewrite Z.shiftr_0_r. }
  clear p. induction n as [|n IH]; intros i p Hi Hl; cbn [write_le_loop le_bytes].
  { rewrite copy_to_Some by (cbn; lia). cbn [app length].
    by rewrite Nat.add_0_r, take_drop. }
  unfold store. rewrite <- (bind_copy _ _ _ (le_bytes n _)) by lia.
  destruct (copy_to p (at_ + i) [_]) as [q|] eqn:E; [|done]. cbn [mbind option_bind].
  apply copy_to_length in E. rewrite IH by lia.
  rewrite Z.shiftr_shiftr by lia.
  replace (8 * i + 8) with (8 * (i + 1)) by lia. by rewrite Z.add_assoc.
Qed.

(** ** Headers as sequences of fields

    A fixed header is a list of big-endian fields ([FLE] is little-endian); [field_at] finds the field
    that starts at an offset, so a read at a literal offset is settled by
    computation. *)

Inductive field := F8 (v : Z) | F16 (v : Z) | F32 (v : Z) | F64 (v : Z) | FLE (n : nat) (v : Z).

Definition field_bytes (f : field) : list Z :=
  match f with F8 v => [v] | F16 v => be16 v | F32 v => be32 v | F64 v => be64 v | FLE n v => le_bytes n v end.
Definition field_width (f : field) : Z :=
  match f with F8 _ => 1 | F16 _ => 2 | F32 _ => 4 | F64 _ => 8 | FLE n _ => Z.of_nat n end.

Definition header (fs : list field) : list Z := concat (map field_bytes fs).

Fixpoint field_at (fs : list field) (off : Z) : option field :=
  match fs with
  | [] => None
  | f :: fs' => if off =? 0 then Some f else field_at fs' (off - field_width f)
  end.

Lemma field_bytes_len f : len (field_bytes f) = field_width f.
Proof. destruct f; try done. cbn. by rewrite le_bytes_length. Qed.

Lemma header_length fs : len (header fs) = foldr (fun f n => field_width f + n) 0 fs.
Proof.
  induction fs as [|f fs IH]; [done|]. unfold header in *. cbn [map concat foldr].
  rewrite length_app, Nat2Z.inj_add, IH, field_bytes_len. done.
Qed.

Lemma field_at_split fs off f :
  field_at fs off = Some f ->
  exists pre post, header fs = pre ++ field_bytes f ++ post /\ len pre = off.
Proof.
  revert off. induction fs as [|g fs IH]; intros off; cbn; [done|].
  destruct (off =? 0) eqn:E.
  - intros [= ->]. exists [], (header fs). split; [done|cbn; lia].
  - intros (pre & post & Hh & Hl)%IH. exists (field_bytes g ++ pre), post.
    unfold header in *. cbn. rewrite Hh, <- app_assoc. split; [done|].
    rewrite length_app, Nat2Z.inj_add, field_bytes_len. lia.
Qed.

Lemma read_field32 fs rest off v :
  field_at fs off = Some (F32 v) -> in_range 32 v ->
  read_u32 (header fs ++ rest) off = Some v.
Proof.
  intros (pre & post & -> & Hl)%field_at_split Hv. rewrite <- !app_assoc.
  by apply read_u32_be32.
Qed.

Lemma read_field16 fs rest off v :
  field_at fs off = Some (F16 v) -> in_range 16 v ->
  read_u16 (header fs ++ rest) off = Some v.
Proof.
  intros (pre & post & -> & Hl)%field_at_split Hv. rewrite <- !app_assoc.
  by apply read_u16_be16.
Qed.

Lemma load_field8 fs rest off v :
  field_at fs off = Some (F8 v) -> load (header fs ++ rest) off = Some v.
Proof.
  intros (pre & post & -> & Hl)%field_at_split. rewrite <- !app_assoc. cbn.
  subst off. rewrite <- (Z.add_0_r (len pre)) at 1. by rewrite load_app_r.
Qed.

Lemma read_field64 fs rest off v :
  field_at fs off = Some (F64 v) -> in_range 64 v ->
  read_u64 (header fs ++ rest) off = Some v.
Proof.
  intros (pre & post & -> & Hl)%field_at_split Hv. rewrite <- !app_assoc.
  by apply read_u64_be64.
Qed.

Lemma read_field_le fs rest off n v :
  field_at fs off = Some (FLE n v) -> in_range (8 * Z.of_nat n) v -> (n <= 8)%nat ->
  read_le (header fs ++ rest) off n = Some v.
Proof.
  intros (pre & post & -> & Hl)%field_at_split Hv Hn. rewrite <- !app_assoc. cbn.
  rewrite (read_le_app _ _ _ _ n); [by rewrite le_value_bytes| | | |done].
  - apply le_bytes_bytes.
  - by rewrite le_bytes_length.
  - done.
Qed.

(** A comparison with a four-byte tag at the start of a header. *)
Lemma memcmp_tag m fs rest tag :
  in_range 32 m -> in_range 32 tag ->
  memcmp_eq (header (F32 m :: fs) ++ rest) (be32 tag) 4 = Some (m =? tag).
Proof.
  intros Hm Ht. change 4 with (len (be32 tag)).
  rewrite memcmp_eq_prefix by (unfold header; cbn; lia).
  f_equal. transitivity (bool_decide (be32 m = be32 tag)); [done|].
  case_bool_decide as E; [apply be32_inj in E; [|done..]; lia|].
  symmetry. apply Z.eqb_neq. by intros ->.
Qed.

(** Every byte string of the right length is a header of a given template: the
    list of its fields' kinds, whose values do not matter. *)
Definition field_value (f : field) : Z :=
  match f with F8 v | F16 v | F32 v | F64 v | FLE _ v => v end.
Definition field_ok (f : field) : Prop := in_range (8 * field_width f) (field_value f).
Definition with_value (f : field) (v : Z) : field :=
  match f with F8 _ => F8 v | F16 _ => F16 v | F32 _ => F32 v | F64 _ => F64 v | FLE n _ => FLE n v end.

Lemma field_of_bytes f l :
  bytes l -> len l = field_width f ->
  exists v, field_ok (with_value f v) /\ l = field_bytes (with_value f v).
Proof.
  intros Hb Hl. destruct f; cbn in Hl; unfold field_ok; cbn [with_value field_width field_value field_bytes].
  - assert (length l = 1%nat) as Hn by lia. explode l. byte_hyps. by exists o.
  - assert (length l = 2%nat) as Hn by lia. explode l. byte_hyps. exists (join_u16 o o0).
    rewrite be16_join by done. split; [by apply join_u16_range|done].
  - assert (length l = 4%nat) as Hn by lia. explode l. byte_hyps. exists (join_u32 o o0 o1 o2).
    rewrite be32_join by done. split; [by apply join_u32_range|done].
  - assert (length l = 8%nat) as Hn by lia. explode l. byte_hyps.
    pose proof (join_u32_range o o0 o1 o2). pose proof (join_u32_range o3 o4 o5 o6).
    exists (join_u32 o o0 o1 o2 * 2 ^ 32 + join_u32 o3 o4 o5 o6).
    rewrite be64_join, !be32_join by auto. split; [|done].
    change (8 * 8) with 64. ranges. lia.
  - assert (length l = n) as <- by lia. exists (le_value l). rewrite le_bytes_value by done.
    split; [by apply le_value_range|done].
Qed.

Lemma header_of_template ts l :
  bytes l -> len l = foldr (fun f n => field_width f + n) 0 ts ->
  exists vs, length vs = length ts /\ Forall field_ok (zip_with with_value ts vs) /\
    l = header (zip_with with_value ts vs).
Proof.
  revert l. induction ts as [|t ts IH]; intros l Hb Hl; cbn in Hl.
  { assert (length l = 0%nat) as ->%nil_length_inv by lia. by exists []. }
  assert (0 <= field_width t) by (destruct t; cbn; lia).
  assert (forall ts, 0 <= foldr (fun f n => field_width f + n) 0 ts) as Hpos.
  { intros us. induction us as [|u us IHu]; cbn; [lia|]. destruct u; cbn in *; lia. }
  specialize (Hpos ts).
  destruct (split_prefix l (Z.to_nat (field_width t))) as (pre & rest & -> & Hpre); [lia|].
  apply Forall_app in Hb as [Hb1 Hb2]. rewrite length_app in Hl.
  destruct (field_of_bytes t pre) as (v & Hv & ->); [done|lia|].
  destruct (IH rest) as (vs & Hlen & Hok & ->); [done|lia|].
  exists (v :: vs). cbn. split_and!; [lia|by constructor|done].
Qed.

(** Explicit fields out of [header_of_template]. *)
Ltac by_template ts l :=
  let vs := fresh "vs" in let Hl := fresh "Hl" in let Hok := fresh "Hok" in
  let He := fresh "He" in
  let ts := eval cbv in ts in
  destruct (header_of_template ts l) as (vs & Hl & Hok & He);
    [try done|try done|cbn [length] in Hl; explode vs; cbn [zip_with with_value] in Hok, He;
     repeat (apply Forall_cons in Hok as [? Hok]); clear Hok;
     unfold field_ok in *;
     cbn [field_width field_value Z.mul Pos.mul] in *].

#[global] Arguments header : simpl never.
