(* ===== verification/Wire.v ===== *)
(** * Wire: what every PLANK wire format promises

    A format is a set of valid messages, their byte layout, and the parser the
    source gives for it.  The two laws say that the parser accepts exactly the
    layouts of valid messages.  The components that read or write packets prove
    an instance; clients use the laws and the consequences below. *)

From S2P Require Import Prelude.
From S2P Require Import Endian.

Class WireFormat (M : Type) := {
  wire_valid : M -> Prop;
  wire_layout : M -> list Z;
  wire_parse : list Z -> option M;
  wire_parse_layout : forall m, wire_valid m -> wire_parse (wire_layout m) = Some m;
  wire_layout_parse : forall p m,
    bytes p -> wire_parse p = Some m -> wire_valid m /\ wire_layout m = p
}.

Section wire.
Context {M : Type} `{WireFormat M}.

(** Two valid messages with the same bytes are the same message. *)
Lemma wire_layout_inj m1 m2 :
  wire_valid m1 -> wire_valid m2 -> wire_layout m1 = wire_layout m2 -> m1 = m2.
Proof.
  intros H1 H2 He. apply (inj Some).
  rewrite <- (wire_parse_layout m1) by done. rewrite He. by apply wire_parse_layout.
Qed.

(** Two packets parsed to the same message are the same bytes: no message has
    two encodings. *)
Lemma wire_parse_canonical p1 p2 m :
  bytes p1 -> bytes p2 -> wire_parse p1 = Some m -> wire_parse p2 = Some m -> p1 = p2.
Proof.
  intros Hb1 Hb2 [_ <-]%wire_layout_parse [_ <-]%wire_layout_parse; done.
Qed.

Lemma wire_parse_iff p m :
  bytes p -> wire_parse p = Some m <-> wire_valid m /\ wire_layout m = p.
Proof.
  intros Hb. split; [by apply wire_layout_parse|].
  intros [Hv <-]. by apply wire_parse_layout.
Qed.
End wire.

(** ** Framed packets

    The control and event packets share one frame: a magic number, a type and
    the payload size, all big-endian, then the payload. *)

Definition frame (magic type : Z) (payload : list Z) : list Z :=
  be32 magic ++ be16 type ++ be16 (len payload) ++ payload.

#[global] Arguments frame : simpl never.

Lemma frame_length magic type payload : length (frame magic type payload) = (8 + length payload)%nat.
Proof. reflexivity. Qed.

(** A buffer whose header fields read as a frame's header is that frame. *)
Lemma frame_of_fields p type size :
  bytes p -> 8 <= len p ->
  read_u16 p 4 = Some type -> read_u16 p 6 = Some size -> len p = 8 + size ->
  exists magic payload, read_u32 p 0 = Some magic /\ in_range 32 magic /\ in_range 16 type /\
    size = len payload /\ size < 65536 /\ p = frame magic type payload.
Proof.
  intros Hb Hl Ht Hs Hsz.
  destruct (split_prefix p 8) as (pre & payload & -> & Hpre); [lia|].
  explode pre. rewrite length_app in Hsz, Hl. cbn in Hsz.
  assert (size = len payload) by lia.
  apply Forall_app in Hb as [Hb _].
  byte_hyps.
  cbn in Ht, Hs. injection Ht as <-. injection Hs as Hs.
  eexists _, payload. split; [reflexivity|].
  split; [by apply join_u32_range|]. split; [by apply join_u16_range|]. split; [done|].
  split.
  { rewrite <- Hs. assert (in_range 16 (join_u16 o5 o6)) by by apply join_u16_range.
    ranges. lia. }
  unfold frame. rewrite be32_join, be16_join by done.
  rewrite <- H, <- Hs, be16_join by done. done.
Qed.

Lemma frame_fields magic type payload :
  in_range 32 magic -> in_range 16 type -> len payload < 65536 ->
  read_u32 (frame magic type payload) 0 = Some magic /\
  read_u16 (frame magic type payload) 4 = Some type /\
  read_u16 (frame magic type payload) 6 = Some (len payload).
Proof.
  intros Hm Ht Hl. unfold frame. split_and!.
  - by apply (read_u32_be32 []).
  - by apply (read_u16_be16 (be32 magic)).
  - rewrite (app_assoc (be32 magic)).
    apply (read_u16_be16 (be32 magic ++ be16 type)); [ranges; lia|done].
Qed.

(** The decoder the two framed headers share: [None] is an access outside the
    packet, [Some None] a refused packet, [Some (Some (type, size))] a frame. *)
Definition frame_decode (magic : Z) (p : list Z) (size : Z) : option (option (Z * Z)) :=
  if size <? 8 then Some None
  else
    m ← read_u32 p 0;
    if negb (m =? magic) then Some None
    else
      payload_size ← read_u16 p 6;
      if negb (size =? 8 + payload_size) then Some None
      else type ← read_u16 p 4; Some (Some (type, payload_size)).

Definition is_frame (magic : Z) (p : list Z) (type size : Z) : Prop :=
  exists payload, p = frame magic type payload /\ in_range 16 type /\
    size = len payload /\ len payload < 65536.

Lemma read_u16_total p i : 0 <= i -> i + 2 <= len p -> exists v, read_u16 p i = Some v.
Proof.
  intros Hi Hl. unfold read_u16.
  destruct (load_Some p i) as [b0 ->]; [lia|]. cbn.
  destruct (load_Some p (i + 1)) as [b1 ->]; [lia|]. cbn. eauto.
Qed.

Lemma read_u32_total p i : 0 <= i -> i + 4 <= len p -> exists v, read_u32 p i = Some v.
Proof.
  intros Hi Hl. unfold read_u32.
  destruct (load_Some p i) as [b0 ->]; [lia|]. cbn.
  destruct (load_Some p (i + 1)) as [b1 ->]; [lia|]. cbn.
  destruct (load_Some p (i + 2)) as [b2 ->]; [lia|]. cbn.
  destruct (load_Some p (i + 3)) as [b3 ->]; [lia|]. cbn. eauto.
Qed.

Lemma frame_decode_frame magic type payload :
  in_range 32 magic -> in_range 16 type -> len payload < 65536 ->
  frame_decode magic (frame magic type payload) (len (frame magic type payload))
  = Some (Some (type, len payload)).
Proof.
  intros Hm Ht Hl. destruct (frame_fields magic type payload) as (R0 & R4 & R6); [done..|].
  unfold frame_decode. rewrite frame_length, R0, R4, R6. cbn [mbind option_bind].
  rewrite (proj2 (Z.ltb_ge _ _)), Z.eqb_refl by lia. cbn [negb].
  by rewrite (proj2 (Z.eqb_eq _ _)) by lia.
Qed.

(** The decoder never reads outside the packet, and accepts exactly the frames. *)
Lemma frame_decode_spec magic p :
  bytes p -> in_range 32 magic ->
  exists r, frame_decode magic p (len p) = Some r /\
    forall type size, r = Some (type, size) <-> is_frame magic p type size.
Proof.
  intros Hb Hm.
  assert (forall type size, is_frame magic p type size ->
    frame_decode magic p (len p) = Some (Some (type, size))) as Hcomplete.
  { intros type size (payload & -> & ? & -> & ?). by apply frame_decode_frame. }
  assert (exists r, frame_decode magic p (len p) = Some r /\
    forall type size, r = Some (type, size) -> is_frame magic p type size) as (r & Hr & Hsound).
  { unfold frame_decode. destruct (len p <? 8) eqn:E8; [by exists None|].
    destruct (read_u32_total p 0) as [m Em]; [lia..|]. rewrite Em; cbn.
    destruct (m =? magic) eqn:E; cbn; [|by exists None].
    destruct (read_u16_total p 6) as [s Es]; [lia..|]. rewrite Es; cbn.
    destruct (len p =? 8 + s) eqn:El; cbn; [|by exists None].
    destruct (read_u16_total p 4) as [t Et]; [lia..|]. rewrite Et; cbn.
    eexists. split; [done|]. intros type size [= <- <-].
    destruct (frame_of_fields p t s) as (mg & payload & Hm' & ? & ? & Hs & ? & Hp);
      [done|lia|done|done|lia|].
    assert (mg = magic) as -> by (rewrite Hm' in Em; injection Em as ->; lia).
    exists payload. split_and!; [exact Hp|done|exact Hs|lia]. }
  exists r. split; [done|]. intros type size. split; [apply Hsound|].
  intros H. apply Hcomplete in H. congruence.
Qed.

(** Framed packets form a wire format for every magic number. *)
Definition frame_parse (magic : Z) (p : list Z) : option (Z * list Z) :=
  '(type, size) ← mjoin (frame_decode magic p (len p));
  payload ← copy_from p 8 size;
  Some (type, payload).

Lemma frame_payload magic type payload :
  copy_from (frame magic type payload) 8 (len payload) = Some payload.
Proof.
  rewrite <- (app_nil_r payload) at 1.
  by apply (copy_from_app (be32 magic ++ be16 type ++ be16 _)).
Qed.

Definition framed_valid (m : Z * list Z) : Prop :=
  in_range 16 m.1 /\ len m.2 < 65536 /\ bytes m.2.

Lemma frame_bytes magic type payload :
  bytes (frame magic type payload) <-> bytes payload.
Proof.
  unfold frame, bytes. rewrite !Forall_app.
  pose proof (be32_bytes magic). pose proof (be16_bytes type).
  pose proof (be16_bytes (len payload)). tauto.
Qed.

Lemma frame_parse_iff magic p m :
  bytes p -> in_range 32 magic ->
  frame_parse magic p = Some m <-> framed_valid m /\ frame magic m.1 m.2 = p.
Proof.
  destruct m as [type payload]. unfold framed_valid. cbn.
  intros Hb Hm. destruct (frame_decode_spec magic p) as (r & Hr & Hspec); [done..|].
  unfold frame_parse. rewrite Hr. cbn. split.
  - destruct r as [[t s]|]; cbn; [|done].
    destruct (proj1 (Hspec t s) eq_refl) as (pl & -> & ? & -> & ?).
    rewrite frame_payload. cbn. rewrite frame_bytes in Hb. by intros [= <- <-].
  - intros ((? & ? & ?) & <-). rewrite (proj2 (Hspec type (len payload))).
    + cbn. by rewrite frame_payload.
    + by exists payload.
Qed.

(** No packet is a frame of two protocols: the magic number decides. *)
Lemma frame_parse_disjoint magic1 magic2 p m1 m2 :
  bytes p -> in_range 32 magic1 -> in_range 32 magic2 ->
  frame_parse magic1 p = Some m1 -> frame_parse magic2 p = Some m2 -> magic1 = magic2.
Proof.
  intros Hb H1 H2 [(? & ? & _) Hp]%frame_parse_iff [(? & ? & _) Hp']%frame_parse_iff; try done.
  destruct (frame_fields magic1 m1.1 m1.2) as (R1 & _); [done..|].
  destruct (frame_fields magic2 m2.1 m2.2) as (R2 & _); [done..|]. congruence.
Qed.

(** A magic number gives a wire format. *)
Definition framed_format (magic : Z) (Hm : in_range 32 magic) : WireFormat (Z * list Z).
Proof.
  refine {| wire_valid := framed_valid;
            wire_layout := fun m => frame magic m.1 m.2;
            wire_parse := frame_parse magic |}.
  - intros [t l] Hv. apply frame_parse_iff; [|done..]. rewrite frame_bytes. apply Hv.
  - intros p m Hb H. by apply frame_parse_iff in H.
Defined.
