(* ===== verification/ControlWire.v ===== *)
(** * ControlWire: protocol/plank-transport/include/plank_transport_control.h

    The PLD1 native data/control packets: an eight-byte header (magic, type,
    payload size) followed by at most three 32-bit words. *)

From S2P Require Import Prelude.
From S2P Require Import Endian.
From S2P Require Import Wire.

Definition PLANK_TRANSPORT_CONTROL_MAGIC : Z := 0x504c4431.
Definition PLANK_TRANSPORT_CONTROL_HEADER_SIZE : Z := 8.
Definition PLANK_TRANSPORT_CONTROL_MAX_PACKET_SIZE : Z := 20.

(** [enum PlankTransportControlType] and the camera states. *)
Definition PLANK_TRANSPORT_CONTROL_CLIENT_DISCONNECT : Z := 1.
Definition PLANK_TRANSPORT_CONTROL_HOST_TERMINATE : Z := 2.
Definition PLANK_TRANSPORT_CONTROL_REQUEST_IDR : Z := 3.
Definition PLANK_TRANSPORT_CONTROL_INVALIDATE_REFERENCE_FRAMES : Z := 4.
Definition PLANK_TRANSPORT_CONTROL_SET_VIDEO_BITRATE : Z := 5.
Definition PLANK_TRANSPORT_CONTROL_VIDEO_BITRATE_APPLIED : Z := 6.
Definition PLANK_TRANSPORT_CONTROL_HOST_DESKTOP_HANDOFF : Z := 7.
Definition PLANK_TRANSPORT_CONTROL_SET_MICROPHONE : Z := 8.
Definition PLANK_TRANSPORT_CONTROL_MICROPHONE_APPLIED : Z := 9.
Definition PLANK_TRANSPORT_CONTROL_SET_CAMERA : Z := 10.
Definition PLANK_TRANSPORT_CONTROL_CAMERA_APPLIED : Z := 11.
Definition PLANK_TRANSPORT_CONTROL_CAMERA_KEYFRAME : Z := 12.
Definition PLANK_TRANSPORT_CAMERA_ENABLED : Z := 1.
Definition PLANK_TRANSPORT_CAMERA_UNAVAILABLE : Z := 3.

Definition plank_transport_control_write_u16 := write_u16.
Definition plank_transport_control_write_u32 := write_u32.
Definition plank_transport_control_read_u16 := read_u16.
Definition plank_transport_control_read_u32 := read_u32.

(** [payload] is the pointer of the source, as an offset into the packet. *)
Record PlankTransportControlPacket := mkControlPacket {
  control_type : Z;
  control_payload : Z;
  control_payload_size : Z }.

(** The loop that appends the words: [remaining] iterations from [index]. *)
Fixpoint control_write_values (output : list Z) (values : list Z) (index : Z)
    (remaining : nat) : option (list Z) :=
  match remaining with
  | O => Some output
  | S remaining' =>
      value ← load values index;
      output ← plank_transport_control_write_u32 output
                 (PLANK_TRANSPORT_CONTROL_HEADER_SIZE + index * 4) value;
      control_write_values output values (index + 1) remaining'
  end.

(** A null pointer is [None].  The result is the returned [int] and the two
    objects the call may write through its pointers. *)
Definition plank_transport_control_encode (type : Z) (values : option (list Z))
    (value_count : Z) (output : option (list Z)) (output_capacity : Z)
    (output_size : option Z) : option (Z * option (list Z) * option Z) :=
  let failure := Some (-1, output, output_size) in
  match output, output_size with
  | Some out, Some _ =>
      if (3 <? value_count) || (negb (value_count =? 0) && negb (bool_decide (is_Some values)))
      then failure
      else
        let payload_size := u64 (value_count * 4) in
        let packet_size := u64 (PLANK_TRANSPORT_CONTROL_HEADER_SIZE + payload_size) in
        if output_capacity <? packet_size then failure
        else
          out ← plank_transport_control_write_u32 out 0 PLANK_TRANSPORT_CONTROL_MAGIC;
          out ← plank_transport_control_write_u16 out 4 type;
          out ← plank_transport_control_write_u16 out 6 (u16 payload_size);
          out ← control_write_values out (default [] values) 0 (Z.to_nat value_count);
          Some (0, Some out, Some packet_size)
  | _, _ => failure
  end.

Definition plank_transport_control_decode (packet : option (list Z)) (packet_size : Z)
    (decoded : option PlankTransportControlPacket)
    : option (Z * option PlankTransportControlPacket) :=
  let failure := Some (-1, decoded) in
  match packet, decoded with
  | Some p, Some _ =>
      if packet_size <? PLANK_TRANSPORT_CONTROL_HEADER_SIZE then failure
      else
        magic ← plank_transport_control_read_u32 p 0;
        if negb (magic =? PLANK_TRANSPORT_CONTROL_MAGIC) then failure
        else
          payload_size ← plank_transport_control_read_u16 p 6;
          if negb (packet_size =? PLANK_TRANSPORT_CONTROL_HEADER_SIZE + payload_size)
          then failure
          else
            type ← plank_transport_control_read_u16 p 4;
            Some (0, Some (mkControlPacket type PLANK_TRANSPORT_CONTROL_HEADER_SIZE payload_size))
  | _, _ => failure
  end.

(** ** Layout *)

Definition control_layout (type : Z) (values : list Z) : list Z :=
  be32 PLANK_TRANSPORT_CONTROL_MAGIC ++ be16 type ++ be16 (len values * 4) ++
  concat (map be32 values).

Lemma concat_be32_length vs : length (concat (map be32 vs)) = (4 * length vs)%nat.
Proof. induction vs as [|v vs IH]; cbn -[Nat.mul]; [done|]. rewrite IH. lia. Qed.

Lemma control_write_values_ok values pre (k : nat) old rest done_ :
  length old = (4 * (length values - length done_))%nat ->
  prefix done_ values -> k = (length values - length done_)%nat ->
  length pre = 8%nat ->
  control_write_values (pre ++ concat (map be32 done_) ++ old ++ rest) values (len done_) k
  = Some (pre ++ concat (map be32 values) ++ rest).
Proof.
  intros Hold [todo ->] -> Hpre. rewrite length_app in *.
  replace (length done_ + length todo - length done_)%nat with (length todo) in * by lia.
  revert done_ old Hold. induction todo as [|v todo IH]; intros done_ old Hold.
  - apply nil_length_inv in Hold as ->. by rewrite app_nil_r.
  - cbn [length control_write_values]. rewrite load_nat.
    rewrite list_lookup_middle by done. cbn.
    unfold plank_transport_control_write_u32.
    rewrite write_u32_copy by (unfold PLANK_TRANSPORT_CONTROL_HEADER_SIZE; lia).
    destruct (split_prefix old 4) as (o4 & old' & -> & Ho4); [cbn in Hold; lia|].
    rewrite length_app in Hold. cbn [length] in Hold.
    replace (pre ++ concat (map be32 done_) ++ (o4 ++ old') ++ rest)
      with ((pre ++ concat (map be32 done_)) ++ o4 ++ (old' ++ rest))
      by by rewrite !app_assoc.
    rewrite copy_to_app.
    2: done.
    2: rewrite length_app, concat_be32_length, Hpre;
       unfold PLANK_TRANSPORT_CONTROL_HEADER_SIZE; lia.
    cbn [mbind option_bind].
    specialize (IH (done_ ++ [v]) old'). rewrite length_app in IH. cbn [length] in IH.
    replace (len done_ + 1) with (Z.of_nat (length done_ + 1)) by lia.
    replace ((done_ ++ [v]) ++ todo) with (done_ ++ v :: todo) in IH
      by by rewrite <- app_assoc.
    rewrite <- IH by lia. f_equal.
    rewrite map_app, concat_app. cbn [map concat]. rewrite app_nil_r.
    by rewrite !app_assoc.
Qed.

(** ** Encoding *)

Definition control_accepts (values : option (list Z)) (value_count output_capacity : Z) : bool :=
  (value_count <=? 3) && ((value_count =? 0) || bool_decide (is_Some values)) &&
  (8 + value_count * 4 <=? output_capacity).

(** Every call over non-null [output] and [output_size]: no access outside the
    two arrays, and either nothing is written or exactly the packet is. *)
Lemma control_encode_spec type values value_count out output_capacity size0 :
  in_range 64 value_count -> output_capacity <= len out ->
  (forall vs, values = Some vs -> len vs = value_count) ->
  plank_transport_control_encode type values value_count (Some out) output_capacity (Some size0)
  = if control_accepts values value_count output_capacity
    then Some (0, Some (control_layout type (default [] values) ++
                        drop (8 + 4 * Z.to_nat value_count) out),
               Some (8 + value_count * 4))
    else Some (-1, Some out, Some size0).
Proof.
  intros Hc Hcap Hvs. unfold plank_transport_control_encode, control_accepts.
  destruct (value_count <=? 3) eqn:E3; cbn [andb].
  2: by rewrite (proj2 (Z.ltb_lt 3 value_count)) by lia.
  rewrite (proj2 (Z.ltb_ge 3 value_count)) by lia. cbn [orb].
  rewrite <- negb_orb.
  destruct ((value_count =? 0) || bool_decide (is_Some values)) eqn:En; cbn [negb andb]; [|done].
  assert (u64 (value_count * 4) = value_count * 4) as -> by (apply wrap_small; ranges; lia).
  assert (u64 (PLANK_TRANSPORT_CONTROL_HEADER_SIZE + value_count * 4) = 8 + value_count * 4) as ->
    by (apply wrap_small; unfold PLANK_TRANSPORT_CONTROL_HEADER_SIZE; ranges; lia).
  destruct (8 + value_count * 4 <=? output_capacity) eqn:Eo.
  2: by rewrite (proj2 (Z.ltb_lt _ _)) by lia.
  rewrite (proj2 (Z.ltb_ge _ _)) by lia.
  assert (u16 (value_count * 4) = value_count * 4) as -> by (apply wrap_small; ranges; lia).
  assert (len (default [] values) = value_count) as Hlen.
  { destruct values as [vs|]; cbn; [by apply Hvs|].
    rewrite bool_decide_eq_false_2, orb_false_r in En by (by intros []). lia. }
  destruct (split_prefix out 8) as (pre & tl & -> & Hpre); [lia|].
  rewrite length_app in Hcap.
  destruct (split_prefix tl (4 * Z.to_nat value_count)) as (old & rest & -> & Hold); [lia|].
  replace (drop (8 + 4 * Z.to_nat value_count) (pre ++ old ++ rest)) with rest.
  2: { rewrite app_assoc, drop_app_length'; [done|]. rewrite length_app. lia. }
  unfold plank_transport_control_write_u32, plank_transport_control_write_u16.
  explode pre. mem_eval.
  pose proof (control_write_values_ok (default [] values)
    (be32 PLANK_TRANSPORT_CONTROL_MAGIC ++ be16 type ++ be16 (value_count * 4))
    (Z.to_nat value_count) old rest []) as Hw.
  change (len (@nil Z)) with 0 in Hw. cbn [map concat app length be32 be16] in Hw.
  rewrite Hw; [|lia|apply prefix_nil|lia|done].
  unfold control_layout. by rewrite Hlen.
Qed.

(** ** Decoding *)

Lemma control_decode_frame p size d :
  plank_transport_control_decode (Some p) size (Some d) =
  (r ← frame_decode PLANK_TRANSPORT_CONTROL_MAGIC p size;
   Some match r with
        | Some (type, payload_size) =>
            (0, Some (mkControlPacket type PLANK_TRANSPORT_CONTROL_HEADER_SIZE payload_size))
        | None => (-1, Some d)
        end).
Proof.
  unfold plank_transport_control_decode, frame_decode,
    plank_transport_control_read_u16, plank_transport_control_read_u32,
    PLANK_TRANSPORT_CONTROL_HEADER_SIZE.
  repeat (case_match || destruct (read_u32 _ _) || destruct (read_u16 _ _) || cbn); congruence.
Qed.

(** What a receiver gets out of a packet: its type and payload bytes. *)
Record ControlMessage := mkControl { cm_type : Z; cm_payload : list Z }.

Definition control_parse (p : list Z) : option ControlMessage :=
  match plank_transport_control_decode (Some p) (len p) (Some (mkControlPacket 0 0 0)) with
  | Some (0, Some d) =>
      payload ← copy_from p (control_payload d) (control_payload_size d);
      Some (mkControl (control_type d) payload)
  | _ => None
  end.

Lemma control_parse_frame p :
  control_parse p = (fun m => mkControl m.1 m.2) <$> frame_parse PLANK_TRANSPORT_CONTROL_MAGIC p.
Proof.
  unfold control_parse, frame_parse. rewrite control_decode_frame.
  destruct (frame_decode _ _ _) as [[[t s]|]|]; cbn; try done.
  unfold PLANK_TRANSPORT_CONTROL_HEADER_SIZE. by destruct (copy_from _ _ _).
Qed.

Lemma control_magic_range : in_range 32 PLANK_TRANSPORT_CONTROL_MAGIC.
Proof. by compute. Qed.

#[export] Program Instance control_format : WireFormat ControlMessage := {|
  wire_valid m := framed_valid (cm_type m, cm_payload m);
  wire_layout m := frame PLANK_TRANSPORT_CONTROL_MAGIC (cm_type m) (cm_payload m);
  wire_parse := control_parse |}.
Next Obligation.
  intros [t l] Hv. cbn in *. rewrite control_parse_frame.
  pose proof (@wire_parse_layout _ (framed_format _ control_magic_range) (t, l) Hv) as H.
  cbn in H. by rewrite H.
Qed.
Next Obligation.
  intros p [t l] Hb H. cbn in *. rewrite control_parse_frame in H.
  apply fmap_Some in H as [[t' l'] [H [= -> ->]]].
  by apply (@wire_layout_parse _ (framed_format _ control_magic_range)) in H.
Qed.

(** ** Properties *)

(** C21: over arbitrary received bytes the control decoder never reads outside
    the packet; it returns 0 exactly for a PLD1 frame whose header size field is
    the length of the payload, and then reports that frame's type and the
    payload's position and size; every other packet is refused with -1 and the
    caller's [decoded] object is left as it was. *)
Theorem control_decode_exact p d :
  bytes p ->
  exists result decoded',
    plank_transport_control_decode (Some p) (len p) (Some d) = Some (result, Some decoded') /\
    ((result = 0 /\ exists payload,
        in_range 16 (control_type decoded') /\ len payload < 65536 /\
        p = frame PLANK_TRANSPORT_CONTROL_MAGIC (control_type decoded') payload /\
        decoded' = mkControlPacket (control_type decoded') 8 (len payload)) \/
     (result = -1 /\ decoded' = d /\
      forall type payload, in_range 16 type -> len payload < 65536 ->
        p <> frame PLANK_TRANSPORT_CONTROL_MAGIC type payload)).
Proof.
  intros Hb. rewrite control_decode_frame.
  destruct (frame_decode_spec _ p Hb control_magic_range) as (r & -> & Hr). cbn.
  destruct r as [[t s]|]; eexists _, _; (split; [reflexivity|]).
  - left. split; [done|]. destruct (proj1 (Hr t s) eq_refl) as (pl & -> & ? & -> & ?).
    by exists pl.
  - right. split_and!; [done..|]. intros t pl Ht Hl ->.
    assert (None = Some (t, len pl)); [|done]. apply Hr. by exists pl.
Qed.

Lemma control_decode_exact_witness :
  bytes [0x50; 0x4c; 0x44; 0x31; 0; 3; 0; 0] /\
  exists result decoded',
    plank_transport_control_decode (Some [0x50; 0x4c; 0x44; 0x31; 0; 3; 0; 0]) 8
      (Some (mkControlPacket 9 9 9)) = Some (result, Some decoded').
Proof.
  assert (bytes [0x50; 0x4c; 0x44; 0x31; 0; 3; 0; 0]) as Hb
    by concrete.
  split; [exact Hb|].
  destruct (control_decode_exact _ (mkControlPacket 9 9 9) Hb) as (r & d & H & _).
  exists r, d. exact H.
Defined.

(** the encoder over any arguments of their C types writes a packet exactly
    when there are at most three words, a non-null value pointer when there is
    one, and room for the packet; then it writes the PLD1 frame whose payload is
    the words in big-endian order, keeps every byte after it, reports the size,
    and the decoder accepts the bytes it wrote; in every other case it returns
    -1 and changes nothing. *)
Theorem control_encode_decode type values value_count out output_capacity size0 d :
  in_range 16 type -> in_range 64 value_count -> output_capacity <= len out ->
  (forall vs, values = Some vs -> len vs = value_count) ->
  if control_accepts values value_count output_capacity
  then exists packet,
    packet = frame PLANK_TRANSPORT_CONTROL_MAGIC type (concat (map be32 (default [] values))) /\
    plank_transport_control_encode type values value_count (Some out) output_capacity (Some size0)
      = Some (0, Some (packet ++ drop (length packet) out), Some (len packet)) /\
    plank_transport_control_decode (Some packet) (len packet) (Some d)
      = Some (0, Some (mkControlPacket type 8 (4 * value_count)))
  else plank_transport_control_encode type values value_count (Some out) output_capacity (Some size0)
      = Some (-1, Some out, Some size0).
Proof.
  intros Ht Hc Hcap Hvs. rewrite control_encode_spec by done.
  destruct (control_accepts _ _ _) eqn:Ha; [|done].
  apply andb_true_iff in Ha as [Ha Ho]. apply andb_true_iff in Ha as [Ha Hn].
  assert (len (default [] values) = value_count) as Hlen.
  { destruct values as [vs|]; cbn; [by apply Hvs|].
    rewrite bool_decide_eq_false_2, orb_false_r in Hn by (by intros []). lia. }
  eexists. split; [reflexivity|].
  rewrite frame_length, concat_be32_length. split.
  - unfold control_layout, frame. rewrite concat_be32_length.
    replace (4 * Z.to_nat value_count)%nat with (4 * length (default [] values))%nat by lia.
    do 3 f_equal; [|f_equal; lia]. f_equal. rewrite <- !app_assoc.
    by replace (Z.of_nat (4 * _)) with (len (default [] values) * 4) by lia.
  - rewrite control_decode_frame.
    pose proof (frame_decode_frame PLANK_TRANSPORT_CONTROL_MAGIC type
      (concat (map be32 (default [] values))) control_magic_range Ht) as Hd.
    rewrite frame_length, concat_be32_length in Hd. rewrite Hd by lia. cbn.
    unfold PLANK_TRANSPORT_CONTROL_HEADER_SIZE. do 4 f_equal. lia.
Qed.

Lemma control_encode_decode_witness :
  exists out',
  plank_transport_control_encode 5 (Some [1; 258]) 2 (Some (replicate 20 7)) 20 (Some 0)
    = Some (0, Some out', Some 16).
Proof.
  pose proof (control_encode_decode 5 (Some [1; 258]) 2 (replicate 20 7) 20 0
    (mkControlPacket 0 0 0)) as H.
  assert (in_range 16 5 /\ in_range 64 2 /\ 20 <= len (replicate 20 7)) as (H1 & H2 & H3)
    by concrete.
  specialize (H H1 H2 H3 ltac:(by intros ? [= <-])).
  destruct H as (p & Hp & He & _). subst p.
  eexists. exact He.
Defined.
