(* ===== verification/EventWire.v ===== *)
(** * EventWire: protocol/plank-transport/include/plank_transport_event.h

    The PLE1 Host-to-Client events: the same frame as the control packets under
    another magic number, with an opaque payload of up to 65535 bytes. *)

From S2P Require Import Prelude.
From S2P Require Import Endian.
From S2P Require Import Wire.

Definition PLANK_TRANSPORT_EVENT_MAGIC : Z := 0x504c4531.
Definition PLANK_TRANSPORT_EVENT_HEADER_SIZE : Z := 8.

Definition plank_transport_event_write_u16 := write_u16.
Definition plank_transport_event_write_u32 := write_u32.
Definition plank_transport_event_read_u16 := read_u16.
Definition plank_transport_event_read_u32 := read_u32.

(** [payload] is the pointer of the source, as an offset into the packet. *)
Record PlankTransportEventPacket := mkEventPacket {
  event_type : Z;
  event_payload : Z;
  event_payload_size : Z }.

(** A null pointer is [None].  [payload_size] is the C argument, independent of
    the array behind [payload]; [memcpy] reads that many bytes of it. *)
Definition plank_transport_event_encode (type : Z) (payload : option (list Z))
    (payload_size : Z) (output : option (list Z)) (output_capacity : Z)
    (output_size : option Z) : option (Z * option (list Z) * option Z) :=
  let failure := Some (-1, output, output_size) in
  let packet_size := u64 (PLANK_TRANSPORT_EVENT_HEADER_SIZE + payload_size) in
  match output, output_size with
  | Some out, Some _ =>
      if (negb (payload_size =? 0) && negb (bool_decide (is_Some payload))) ||
         (UINT16_MAX <? payload_size) || (output_capacity <? packet_size)
      then failure
      else
        out ← plank_transport_event_write_u32 out 0 PLANK_TRANSPORT_EVENT_MAGIC;
        out ← plank_transport_event_write_u16 out 4 type;
        out ← plank_transport_event_write_u16 out 6 (u16 payload_size);
        out ← (if negb (payload_size =? 0) then
                 source ← copy_from (default [] payload) 0 payload_size;
                 copy_to out PLANK_TRANSPORT_EVENT_HEADER_SIZE source
               else Some out);
        Some (0, Some out, Some packet_size)
  | _, _ => failure
  end.

Definition plank_transport_event_decode (packet : option (list Z)) (packet_size : Z)
    (decoded : option PlankTransportEventPacket)
    : option (Z * option PlankTransportEventPacket) :=
  let failure := Some (-1, decoded) in
  match packet, decoded with
  | Some p, Some _ =>
      if packet_size <? PLANK_TRANSPORT_EVENT_HEADER_SIZE then failure
      else
        magic ← plank_transport_event_read_u32 p 0;
        if negb (magic =? PLANK_TRANSPORT_EVENT_MAGIC) then failure
        else
          payload_size ← plank_transport_event_read_u16 p 6;
          if negb (packet_size =? PLANK_TRANSPORT_EVENT_HEADER_SIZE + payload_size)
          then failure
          else
            type ← plank_transport_event_read_u16 p 4;
            Some (0, Some (mkEventPacket type PLANK_TRANSPORT_EVENT_HEADER_SIZE payload_size))
  | _, _ => failure
  end.

(** ** Encoding *)

Definition event_accepts (payload : option (list Z)) (payload_size output_capacity : Z) : bool :=
  ((payload_size =? 0) || bool_decide (is_Some payload)) &&
  (payload_size <=? 65535) && (8 + payload_size <=? output_capacity).

Lemma event_encode_spec type payload payload_size out output_capacity size0 :
  in_range 64 payload_size -> output_capacity <= len out ->
  (forall l, payload = Some l -> payload_size <= len l) ->
  plank_transport_event_encode type payload payload_size (Some out) output_capacity (Some size0)
  = if event_accepts payload payload_size output_capacity
    then Some (0, Some (frame PLANK_TRANSPORT_EVENT_MAGIC type
                          (take (Z.to_nat payload_size) (default [] payload)) ++
                        drop (8 + Z.to_nat payload_size) out),
               Some (8 + payload_size))
    else Some (-1, Some out, Some size0).
Proof.
  intros Hn Hcap Hpl. assert (0 <= payload_size) by apply Hn.
  unfold plank_transport_event_encode, event_accepts.
  rewrite <- negb_orb. unfold UINT16_MAX.
  destruct ((payload_size =? 0) || bool_decide (is_Some payload)) eqn:Ep; cbn [negb orb andb]; [|done].
  destruct (payload_size <=? 65535) eqn:E16; cbn [andb].
  2: by rewrite (proj2 (Z.ltb_lt 65535 payload_size)) by lia.
  rewrite (proj2 (Z.ltb_ge 65535 payload_size)) by lia. cbn [orb].
  assert (u64 (PLANK_TRANSPORT_EVENT_HEADER_SIZE + payload_size) = 8 + payload_size) as ->
    by (apply wrap_small; unfold PLANK_TRANSPORT_EVENT_HEADER_SIZE; ranges; lia).
  destruct (8 + payload_size <=? output_capacity) eqn:Eo.
  2: by rewrite (proj2 (Z.ltb_lt _ _)) by lia.
  rewrite (proj2 (Z.ltb_ge _ _)) by lia.
  assert (u16 payload_size = payload_size) as -> by (apply wrap_small; ranges; lia).
  assert (payload_size <= len (default [] payload)) as Hlen.
  { destruct payload as [l|]; cbn; [by apply Hpl|].
    rewrite bool_decide_eq_false_2, orb_false_r in Ep by (by intros []). lia. }
  set (src := take (Z.to_nat payload_size) (default [] payload)).
  assert (len src = payload_size) as Hsrc by (unfold src; rewrite length_take; lia).
  destruct (split_prefix out 8) as (pre & tl & -> & Hpre); [lia|].
  rewrite length_app in Hcap.
  destruct (split_prefix tl (Z.to_nat payload_size)) as (old & rest & -> & Hold); [lia|].
  replace (drop (8 + Z.to_nat payload_size) (pre ++ old ++ rest)) with rest.
  2: { rewrite app_assoc, drop_app_length'; [done|]. rewrite length_app. lia. }
  unfold plank_transport_event_write_u32, plank_transport_event_write_u16.
  explode pre. mem_eval. unfold frame. rewrite Hsrc.
  destruct (payload_size =? 0) eqn:E0; cbn [negb].
  - assert (payload_size = 0) as -> by lia. apply nil_length_inv in Hold as ->.
    assert (src = []) as -> by (apply nil_length_inv; lia). done.
  - rewrite copy_from_take by lia. fold src. cbn [mbind option_bind].
    pose proof (copy_to_app (be32 PLANK_TRANSPORT_EVENT_MAGIC ++ be16 type ++ be16 payload_size)
      old src rest 8) as Hc.
    cbn [app be32 be16] in Hc. unfold PLANK_TRANSPORT_EVENT_HEADER_SIZE.
    rewrite Hc by (done || lia). done.
Qed.

(** ** Decoding *)

Lemma event_decode_frame p size d :
  plank_transport_event_decode (Some p) size (Some d) =
  (r ← frame_decode PLANK_TRANSPORT_EVENT_MAGIC p size;
   Some match r with
        | Some (type, payload_size) =>
            (0, Some (mkEventPacket type PLANK_TRANSPORT_EVENT_HEADER_SIZE payload_size))
        | None => (-1, Some d)
        end).
Proof.
  unfold plank_transport_event_decode, frame_decode,
    plank_transport_event_read_u16, plank_transport_event_read_u32,
    PLANK_TRANSPORT_EVENT_HEADER_SIZE.
  repeat (case_match || destruct (read_u32 _ _) || destruct (read_u16 _ _) || cbn); congruence.
Qed.

Lemma event_magic_range : in_range 32 PLANK_TRANSPORT_EVENT_MAGIC.
Proof. by compute. Qed.

(** What a receiver gets out of an event: its type and payload bytes. *)
Record EventMessage := mkEvent { em_type : Z; em_payload : list Z }.

Definition event_parse (p : list Z) : option EventMessage :=
  match plank_transport_event_decode (Some p) (len p) (Some (mkEventPacket 0 0 0)) with
  | Some (0, Some d) =>
      payload ← copy_from p (event_payload d) (event_payload_size d);
      Some (mkEvent (event_type d) payload)
  | _ => None
  end.

Lemma event_parse_frame p :
  event_parse p = (fun m => mkEvent m.1 m.2) <$> frame_parse PLANK_TRANSPORT_EVENT_MAGIC p.
Proof.
  unfold event_parse, frame_parse. rewrite event_decode_frame.
  destruct (frame_decode _ _ _) as [[[t s]|]|]; cbn; try done.
  unfold PLANK_TRANSPORT_EVENT_HEADER_SIZE. by destruct (copy_from _ _ _).
Qed.

#[export] Program Instance event_format : WireFormat EventMessage := {|
  wire_valid m := framed_valid (em_type m, em_payload m);
  wire_layout m := frame PLANK_TRANSPORT_EVENT_MAGIC (em_type m) (em_payload m);
  wire_parse := event_parse |}.
Next Obligation.
  intros [t l] Hv. cbn in *. rewrite event_parse_frame.
  pose proof (@wire_parse_layout _ (framed_format _ event_magic_range) (t, l) Hv) as H.
  cbn in H. by rewrite H.
Qed.
Next Obligation.
  intros p [t l] Hb H. cbn in *. rewrite event_parse_frame in H.
  apply fmap_Some in H as [[t' l'] [H [= -> ->]]].
  by apply (@wire_layout_parse _ (framed_format _ event_magic_range)) in H.
Qed.

(** ** Properties *)

(** an event is sent and received unchanged: over any arguments of their C
    types the encoder never touches memory outside the two arrays; it writes
    exactly when the payload is present, at most 65535 bytes and fits, otherwise
    it returns -1 and changes nothing; and the bytes it wrote parse back to the
    same type and payload, also when [payload_size] is so large that the size
    computation of the source wraps around. *)
Theorem event_roundtrip type payload payload_size out output_capacity size0 :
  in_range 16 type -> in_range 64 payload_size -> output_capacity <= len out ->
  (forall l, payload = Some l -> payload_size <= len l /\ bytes l) ->
  if event_accepts payload payload_size output_capacity
  then exists packet,
    plank_transport_event_encode type payload payload_size (Some out) output_capacity (Some size0)
      = Some (0, Some (packet ++ drop (length packet) out), Some (len packet)) /\
    event_parse packet =
      Some (mkEvent type (take (Z.to_nat payload_size) (default [] payload)))
  else plank_transport_event_encode type payload payload_size (Some out) output_capacity (Some size0)
      = Some (-1, Some out, Some size0).
Proof.
  intros Ht Hn Hcap Hpl. assert (0 <= payload_size) by apply Hn. rewrite event_encode_spec; [|done..|intros l Hl; by apply Hpl].
  destruct (event_accepts _ _ _) eqn:Ha; [|done].
  apply andb_true_iff in Ha as [Ha Ho]. apply andb_true_iff in Ha as [Ha H16].
  set (src := take (Z.to_nat payload_size) (default [] payload)).
  assert (len src = payload_size /\ bytes src) as [Hsrc Hb].
  { subst src. destruct payload as [l|]; cbn.
    - destruct (Hpl l eq_refl) as [? ?]. rewrite length_take. split; [lia|].
      by apply Forall_take.
    - rewrite bool_decide_eq_false_2, orb_false_r in Ha by (by intros []).
      rewrite take_nil. split; [cbn; lia|constructor]. }
  exists (frame PLANK_TRANSPORT_EVENT_MAGIC type src). split.
  - rewrite frame_length. fold src.
    replace (8 + payload_size) with (Z.of_nat (8 + length src)) by lia.
    by replace (8 + Z.to_nat payload_size)%nat with (8 + length src)%nat by lia.
  - apply (@wire_parse_layout _ event_format (mkEvent type src)).
    split_and!; cbn; [done|lia|done].
Qed.

Lemma event_roundtrip_witness :
  exists packet,
    plank_transport_event_encode 5 (Some [104; 105]) 2 (Some (replicate 12 7)) 12 (Some 0)
      = Some (0, Some (packet ++ drop (length packet) (replicate 12 7)), Some (len packet)) /\
    event_parse packet = Some (mkEvent 5 [104; 105]).
Proof.
  assert (in_range 16 5 /\ in_range 64 2 /\ 12 <= len (replicate 12 7)) as (H1 & H2 & H3)
    by concrete.
  exact (event_roundtrip 5 (Some [104; 105]) 2 (replicate 12 7) 12 0 H1 H2 H3
    ltac:(intros ? [= <-]; split; concrete)).
Defined.
