(* ===== verification/SetupWire.v ===== *)
(** * SetupWire: protocol/plank-transport/include/plank_transport_setup.h

    The PLS1 pre-session packets: a twenty-byte header (magic, version, type,
    flags, status, request id, payload size) and an opaque payload. *)

From S2P Require Import Prelude.
From S2P Require Import Endian.
From S2P Require Import Wire.

Definition PLANK_TRANSPORT_SETUP_MAGIC : Z := 0x504c5331.
Definition PLANK_TRANSPORT_SETUP_VERSION : Z := 1.
Definition PLANK_TRANSPORT_SETUP_HEADER_SIZE : Z := 20.
Definition PLANK_TRANSPORT_SETUP_MAX_PACKET_SIZE : Z := 65536.
Definition PLANK_TRANSPORT_SETUP_MAX_PAYLOAD_SIZE : Z :=
  PLANK_TRANSPORT_SETUP_MAX_PACKET_SIZE - PLANK_TRANSPORT_SETUP_HEADER_SIZE.
Definition PLANK_TRANSPORT_SETUP_FLAG_RESPONSE : Z := 1.
Definition PLANK_TRANSPORT_SETUP_FLAG_SENSITIVE : Z := 2.

Definition plank_transport_setup_write_u16 := write_u16.
Definition plank_transport_setup_write_u32 := write_u32.
Definition plank_transport_setup_read_u16 := read_u16.
Definition plank_transport_setup_read_u32 := read_u32.

(** [payload] is the pointer of the source, as an offset into the packet. *)
Record PlankTransportSetupPacket := mkSetupPacket {
  setup_type : Z;
  setup_flags : Z;
  setup_status : Z;
  setup_request_id : Z;
  setup_payload : Z;
  setup_payload_size : Z }.

(** [(flags & ~(RESPONSE | SENSITIVE)) != 0] *)
Definition setup_unknown_flags (flags : Z) : bool :=
  negb (Z.land flags (Z.lnot (Z.lor PLANK_TRANSPORT_SETUP_FLAG_RESPONSE
                                     PLANK_TRANSPORT_SETUP_FLAG_SENSITIVE)) =? 0).

Definition plank_transport_setup_encode (type flags status request_id : Z)
    (payload : option (list Z)) (payload_size : Z) (output : option (list Z))
    (output_capacity : Z) (output_size : option Z)
    : option (Z * option (list Z) * option Z) :=
  let failure := Some (-1, output, output_size) in
  let packet_size := u64 (PLANK_TRANSPORT_SETUP_HEADER_SIZE + payload_size) in
  stop_if (type =? 0) || (request_id =? 0) with failure ;
  match output, output_size with
  | Some out, Some _ =>
      stop_if setup_unknown_flags flags with failure ;
      stop_if negb (payload_size =? 0) && negb (bool_decide (is_Some payload)) with failure ;
      stop_if PLANK_TRANSPORT_SETUP_MAX_PAYLOAD_SIZE <? payload_size with failure ;
      stop_if output_capacity <? packet_size with failure ;
      out ← plank_transport_setup_write_u32 out 0 PLANK_TRANSPORT_SETUP_MAGIC;
      out ← plank_transport_setup_write_u16 out 4 PLANK_TRANSPORT_SETUP_VERSION;
      out ← plank_transport_setup_write_u16 out 6 type;
      out ← plank_transport_setup_write_u16 out 8 flags;
      out ← plank_transport_setup_write_u16 out 10 status;
      out ← plank_transport_setup_write_u32 out 12 request_id;
      out ← plank_transport_setup_write_u32 out 16 (u32 payload_size);
      out ← (if negb (payload_size =? 0) then
               source ← copy_from (default [] payload) 0 payload_size;
               copy_to out PLANK_TRANSPORT_SETUP_HEADER_SIZE source
             else Some out);
      Some (0, Some out, Some packet_size)
  | _, _ => failure
  end.

Definition plank_transport_setup_decode (packet : option (list Z)) (packet_size : Z)
    (decoded : option PlankTransportSetupPacket)
    : option (Z * option PlankTransportSetupPacket) :=
  let failure := Some (-1, decoded) in
  match packet, decoded with
  | Some p, Some _ =>
      stop_if packet_size <? PLANK_TRANSPORT_SETUP_HEADER_SIZE with failure ;
      stop_if PLANK_TRANSPORT_SETUP_MAX_PACKET_SIZE <? packet_size with failure ;
      magic ← plank_transport_setup_read_u32 p 0;
      stop_if negb (magic =? PLANK_TRANSPORT_SETUP_MAGIC) with failure ;
      version ← plank_transport_setup_read_u16 p 4;
      stop_if negb (version =? PLANK_TRANSPORT_SETUP_VERSION) with failure ;
      type ← plank_transport_setup_read_u16 p 6;
      stop_if type =? 0 with failure ;
      request_id ← plank_transport_setup_read_u32 p 12;
      stop_if request_id =? 0 with failure ;
      flags ← plank_transport_setup_read_u16 p 8;
      stop_if setup_unknown_flags flags with failure ;
      payload_size ← plank_transport_setup_read_u32 p 16;
      stop_if (PLANK_TRANSPORT_SETUP_MAX_PAYLOAD_SIZE <? payload_size) ||
              negb (packet_size =? u32 (PLANK_TRANSPORT_SETUP_HEADER_SIZE + payload_size))
        with failure ;
      type ← plank_transport_setup_read_u16 p 6;
      status ← plank_transport_setup_read_u16 p 10;
      request_id ← plank_transport_setup_read_u32 p 12;
      Some (0, Some (mkSetupPacket type flags status request_id
                       PLANK_TRANSPORT_SETUP_HEADER_SIZE payload_size))
  | _, _ => failure
  end.

(** ** The format *)

Record SetupMessage := mkSetup {
  sm_type : Z; sm_flags : Z; sm_status : Z; sm_request_id : Z; sm_payload : list Z }.

Definition setup_fields (magic version type flags status request_id size : Z) : list field :=
  [F32 magic; F16 version; F16 type; F16 flags; F16 status; F32 request_id; F32 size].
Definition setup_header (m : SetupMessage) : list field :=
  setup_fields PLANK_TRANSPORT_SETUP_MAGIC PLANK_TRANSPORT_SETUP_VERSION (sm_type m)
    (sm_flags m) (sm_status m) (sm_request_id m) (len (sm_payload m)).
Definition setup_layout (m : SetupMessage) : list Z :=
  header (setup_header m) ++ sm_payload m.

Definition setup_valid (m : SetupMessage) : Prop :=
  1 <= sm_type m < 65536 /\ 0 <= sm_flags m <= 3 /\ in_range 16 (sm_status m) /\
  1 <= sm_request_id m < 4294967296 /\ len (sm_payload m) <= 65516 /\ bytes (sm_payload m).

Definition setup_parse (p : list Z) : option SetupMessage :=
  match plank_transport_setup_decode (Some p) (len p) (Some (mkSetupPacket 0 0 0 0 0 0)) with
  | Some (0, Some d) =>
      payload ← copy_from p (setup_payload d) (setup_payload_size d);
      Some (mkSetup (setup_type d) (setup_flags d) (setup_status d) (setup_request_id d) payload)
  | _ => None
  end.

#[global] Arguments setup_layout : simpl never.

Lemma setup_layout_length m : len (setup_layout m) = 20 + len (sm_payload m).
Proof. unfold setup_layout. by rewrite length_app, Nat2Z.inj_add, header_length. Qed.

Lemma land_lnot3 f : in_range 16 f -> (Z.land f (Z.lnot 3) =? 0) = (f <=? 3).
Proof.
  intros [H0 H1]. rewrite <- Z.ldiff_land. change 3 with (Z.ones 2) at 1.
  rewrite Z.ldiff_ones_r by lia. rewrite Z.shiftr_div_pow2, Z.shiftl_mul_pow2 by lia.
  change (2 ^ 2) with 4. apply eq_true_iff_eq. rewrite Z.eqb_eq, Z.leb_le.
  Z.div_mod_to_equations. lia.
Qed.

Lemma setup_unknown_flags_eq f : in_range 16 f -> setup_unknown_flags f = (3 <? f).
Proof.
  intros Hf. unfold setup_unknown_flags. change (Z.lor _ _) with 3.
  rewrite land_lnot3 by done. by rewrite Z.leb_antisym, negb_involutive.
Qed.

(** The decoder over any header whose fields are of their widths. *)
Lemma setup_decode_eval magic version type flags status rid size payload p d :
  in_range 32 magic -> in_range 16 version -> in_range 16 type -> in_range 16 flags ->
  in_range 16 status -> in_range 32 rid -> in_range 32 size ->
  p = header (setup_fields magic version type flags status rid size) ++ payload ->
  plank_transport_setup_decode (Some p) (len p) (Some d) =
  Some (if (len payload <=? 65516) && (magic =? PLANK_TRANSPORT_SETUP_MAGIC) &&
           (version =? PLANK_TRANSPORT_SETUP_VERSION) && negb (type =? 0) && negb (rid =? 0) &&
           (flags <=? 3) && (size =? len payload)
        then (0, Some (mkSetupPacket type flags status rid 20 size)) else (-1, Some d)).
Proof.
  intros Hm Hv Ht Hf Hs Hr Hz Hp.
  assert (len p = 20 + len payload) as Hlp
    by (rewrite Hp, length_app, Nat2Z.inj_add, header_length; done).
  unfold plank_transport_setup_decode, plank_transport_setup_read_u32,
    plank_transport_setup_read_u16, PLANK_TRANSPORT_SETUP_HEADER_SIZE,
    PLANK_TRANSPORT_SETUP_MAX_PACKET_SIZE.
  change PLANK_TRANSPORT_SETUP_MAX_PAYLOAD_SIZE with 65516.
  rewrite Hlp, (proj2 (Z.ltb_ge _ 20)) by lia.
  replace (65536 <? 20 + len payload) with (negb (len payload <=? 65516)) by lia.
  destruct (len payload <=? 65516) eqn:El; cbn [negb andb]; [|done].
  assert (read_u32 p 0 = Some magic) as -> by (subst p; by apply read_field32).
  cbn [mbind option_bind].
  destruct (magic =? _); cbn [negb andb]; [|done].
  assert (read_u16 p 4 = Some version) as -> by (subst p; by apply read_field16).
  cbn [mbind option_bind].
  destruct (version =? _); cbn [negb andb]; [|done].
  assert (read_u16 p 6 = Some type) as -> by (subst p; by apply read_field16).
  cbn [mbind option_bind].
  destruct (type =? _); cbn [negb andb]; [done|].
  assert (read_u32 p 12 = Some rid) as -> by (subst p; by apply read_field32).
  cbn [mbind option_bind].
  destruct (rid =? _); cbn [negb andb]; [done|].
  assert (read_u16 p 8 = Some flags) as -> by (subst p; by apply read_field16).
  cbn [mbind option_bind]. rewrite setup_unknown_flags_eq by done.
  rewrite Z.ltb_antisym. destruct (flags <=? 3); cbn [negb andb]; [|done].
  assert (read_u32 p 16 = Some size) as -> by (subst p; by apply read_field32).
  assert (read_u16 p 10 = Some status) as -> by (subst p; by apply read_field16).
  cbn [mbind option_bind].
  destruct (size =? len payload) eqn:Ez.
  - assert (size = len payload) as -> by lia.
    rewrite (wrap_small 32), Z.eqb_refl by (ranges; lia).
    by rewrite (proj2 (Z.ltb_ge _ _)) by lia.
  - destruct (65516 <? size) eqn:Eb; [done|]. cbn [orb].
    rewrite (wrap_small 32) by (ranges; lia).
    by rewrite (proj2 (Z.eqb_neq _ _)) by lia.
Qed.

(** Twenty bytes are a header of fields of their widths. *)
Lemma setup_header_of_bytes pre :
  bytes pre -> length pre = 20%nat ->
  exists magic version type flags status rid size,
    in_range 32 magic /\ in_range 16 version /\ in_range 16 type /\ in_range 16 flags /\
    in_range 16 status /\ in_range 32 rid /\ in_range 32 size /\
    pre = header (setup_fields magic version type flags status rid size).
Proof.
  intros Hb Hl. explode pre.
  byte_hyps.
  exists (join_u32 o o0 o1 o2), (join_u16 o3 o4), (join_u16 o5 o6), (join_u16 o7 o8),
    (join_u16 o9 o10), (join_u32 o11 o12 o13 o14), (join_u32 o15 o16 o17 o18).
  split_and!; cycle -1.
  { unfold setup_fields, header. cbn [map concat field_bytes].
    by rewrite !be32_join, !be16_join by done. }
  all: first [by apply join_u32_range | by apply join_u16_range].
Qed.

Lemma setup_decode_layout m d :
  setup_valid m ->
  plank_transport_setup_decode (Some (setup_layout m)) (len (setup_layout m)) (Some d)
  = Some (0, Some (mkSetupPacket (sm_type m) (sm_flags m) (sm_status m) (sm_request_id m)
                     20 (len (sm_payload m)))).
Proof.
  intros (Ht & Hf & Hs & Hr & Hl & Hb).
  rewrite (setup_decode_eval PLANK_TRANSPORT_SETUP_MAGIC PLANK_TRANSPORT_SETUP_VERSION
    (sm_type m) (sm_flags m) (sm_status m) (sm_request_id m) (len (sm_payload m))
    (sm_payload m)); try reflexivity; try (ranges; lia); try (by compute).
  by rewrite !Z.eqb_refl, !(proj2 (Z.leb_le _ _)), !(proj2 (Z.eqb_neq _ _)) by lia.
Qed.

Lemma setup_parse_layout m : setup_valid m -> setup_parse (setup_layout m) = Some m.
Proof.
  intros Hv. unfold setup_parse. rewrite setup_decode_layout by done.
  cbn [setup_payload setup_payload_size]. unfold setup_layout.
  rewrite copy_from_suffix by (rewrite ?header_length; done). by destruct m.
Qed.

(** The decoder over arbitrary bytes: in bounds, and either refused without a
    write or the layout of a valid message. *)
Lemma setup_decode_cases p d :
  bytes p ->
  plank_transport_setup_decode (Some p) (len p) (Some d) = Some (-1, Some d) \/
  exists m, setup_valid m /\ p = setup_layout m /\
    plank_transport_setup_decode (Some p) (len p) (Some d) =
    Some (0, Some (mkSetupPacket (sm_type m) (sm_flags m) (sm_status m) (sm_request_id m)
                     20 (len (sm_payload m)))).
Proof.
  intros Hb. destruct (Z.lt_ge_cases (len p) 20) as [Hs|Hs].
  { left. unfold plank_transport_setup_decode, PLANK_TRANSPORT_SETUP_HEADER_SIZE.
    by rewrite (proj2 (Z.ltb_lt _ 20)). }
  destruct (split_prefix p 20) as (pre & payload & Hp & Hpre); [lia|].
  rewrite Hp in Hb. apply Forall_app in Hb as [Hbp Hbl].
  destruct (setup_header_of_bytes pre Hbp Hpre)
    as (magic & version & type & flags & status & rid & size & ? & ? & Ht & Hf & ? & Hr & ? & Eh).
  rewrite Eh in Hp. rewrite (setup_decode_eval magic version type flags status rid size payload) by done.
  destruct (_ && _) eqn:E; [right|by left].
  guards. assert (magic = PLANK_TRANSPORT_SETUP_MAGIC) as -> by lia.
  assert (version = PLANK_TRANSPORT_SETUP_VERSION) as -> by lia.
  assert (size = len payload) as -> by lia.
  exists (mkSetup type flags status rid payload). split_and!; [|exact Hp|done].
  destruct Ht, Hf, Hr. unfold setup_valid. split_and!; cbn; try done; ranges; lia.
Qed.

Lemma setup_layout_parse p m :
  bytes p -> setup_parse p = Some m -> setup_valid m /\ setup_layout m = p.
Proof.
  intros Hb. unfold setup_parse.
  destruct (setup_decode_cases p (mkSetupPacket 0 0 0 0 0 0) Hb)
    as [-> | (m' & Hv & -> & ->)]; [done|].
  cbn [setup_payload setup_payload_size].
  unfold setup_layout at 1. rewrite copy_from_suffix by (rewrite ?header_length; done).
  intros [= <-]. by destruct m'.
Qed.

#[export] Instance setup_format : WireFormat SetupMessage := {|
  wire_parse_layout := setup_parse_layout;
  wire_layout_parse := setup_layout_parse |}.

(** ** Encoding *)

Definition setup_accepts (type flags request_id : Z) (payload : option (list Z))
    (payload_size output_capacity : Z) : bool :=
  negb (type =? 0) && negb (request_id =? 0) && (flags <=? 3) &&
  ((payload_size =? 0) || bool_decide (is_Some payload)) &&
  (payload_size <=? 65516) && (20 + payload_size <=? output_capacity).

Lemma setup_encode_spec type flags status rid payload payload_size out output_capacity size0 :
  in_range 16 flags -> in_range 64 payload_size -> output_capacity <= len out ->
  (forall l, payload = Some l -> payload_size <= len l) ->
  plank_transport_setup_encode type flags status rid payload payload_size (Some out)
    output_capacity (Some size0)
  = if setup_accepts type flags rid payload payload_size output_capacity
    then let m := mkSetup type flags status rid
                    (take (Z.to_nat payload_size) (default [] payload)) in
         Some (0, Some (setup_layout m ++ drop (length (setup_layout m)) out),
               Some (len (setup_layout m)))
    else Some (-1, Some out, Some size0).
Proof.
  intros Hf Hn Hcap Hpl. assert (0 <= payload_size) by apply Hn.
  unfold plank_transport_setup_encode, setup_accepts.
  destruct (type =? 0) eqn:Et; cbn [negb orb andb]; [done|].
  destruct (rid =? 0) eqn:Er; cbn [negb orb andb]; [done|].
  rewrite setup_unknown_flags_eq, Z.ltb_antisym by done.
  destruct (flags <=? 3) eqn:Ef; cbn [negb andb]; [|done].
  rewrite <- negb_orb.
  destruct ((payload_size =? 0) || bool_decide (is_Some payload)) eqn:Ep; cbn [negb andb]; [|done].
  change PLANK_TRANSPORT_SETUP_MAX_PAYLOAD_SIZE with 65516.
  rewrite Z.ltb_antisym. destruct (payload_size <=? 65516) eqn:El; cbn [negb andb]; [|done].
  unfold PLANK_TRANSPORT_SETUP_HEADER_SIZE.
  rewrite (wrap_small 64) by (ranges; lia). rewrite Z.ltb_antisym.
  destruct (20 + payload_size <=? output_capacity) eqn:Eo; cbn [negb]; [|done].
  rewrite (wrap_small 32) by (ranges; lia).
  assert (payload_size <= len (default [] payload)) as Hlen.
  { destruct payload as [l|]; cbn; [by apply Hpl|].
    rewrite bool_decide_eq_false_2, orb_false_r in Ep by (by intros []). lia. }
  set (src := take (Z.to_nat payload_size) (default [] payload)).
  assert (len src = payload_size) as Hsrc by (unfold src; rewrite length_take; lia).
  cbn zeta. set (m := mkSetup type flags status rid src).
  assert (len (setup_layout m) = 20 + payload_size) as Hlm
    by (rewrite setup_layout_length; cbn; lia).
  destruct (split_prefix out 20) as (pre & tl & -> & Hpre); [lia|].
  rewrite length_app in Hcap.
  destruct (split_prefix tl (Z.to_nat payload_size)) as (old & rest & -> & Hold); [lia|].
  replace (drop (length (setup_layout m)) (pre ++ old ++ rest)) with rest.
  2: { rewrite app_assoc, drop_app_length'; [done|]. rewrite length_app. lia. }
  unfold plank_transport_setup_write_u32, plank_transport_setup_write_u16.
  explode pre. mem_eval.
  assert (len (header (setup_header m)) = 20) as Hh by by rewrite header_length.
  transitivity (out' ← copy_to (header (setup_header m) ++ old ++ rest) 20 src;
                Some (0, Some out', Some (20 + payload_size))).
  - f_equal. destruct (payload_size =? 0) eqn:E0; cbn [negb].
    + assert (old = []) as -> by (apply nil_length_inv; lia).
      assert (src = []) as Es by (apply nil_length_inv; lia).
      rewrite (copy_to_app _ [] src) by (rewrite ?Es; done || lia).
      unfold m, header, setup_header, setup_fields. cbn. rewrite Hsrc, Es. done.
    + rewrite copy_from_take by lia. fold src. cbn [mbind option_bind].
      unfold header, setup_header, setup_fields. cbn. by rewrite Hsrc.
  - rewrite copy_to_app by lia. cbn [mbind option_bind]. rewrite Hlm.
    unfold setup_layout. by rewrite <- app_assoc.
Qed.

(** ** Properties *)

(** C22: the pre-session decoder over arbitrary received bytes stays inside the
    packet, and accepts exactly the packets of the PLS1 format: right magic and
    version, a non-zero type and request id, no unknown flag and a size field
    that is the length of the payload.  What it accepts determines the packet
    (no two packets mean the same message), and what it refuses leaves the
    caller's object unchanged. *)
Theorem setup_decode_exact p d :
  bytes p ->
  (exists m, setup_valid m /\ p = setup_layout m /\ setup_parse p = Some m /\
     plank_transport_setup_decode (Some p) (len p) (Some d) =
     Some (0, Some (mkSetupPacket (sm_type m) (sm_flags m) (sm_status m) (sm_request_id m)
                      20 (len (sm_payload m))))) \/
  ((forall m, setup_valid m -> p <> setup_layout m) /\ setup_parse p = None /\
   plank_transport_setup_decode (Some p) (len p) (Some d) = Some (-1, Some d)).
Proof.
  intros Hb. destruct (setup_parse p) as [m|] eqn:E.
  - left. pose proof (setup_layout_parse p m Hb E) as [Hv <-]. exists m.
    split_and!; [done..|by apply setup_decode_layout].
  - right. split_and!; [|done|].
    + intros m Hv ->. by rewrite (setup_parse_layout m Hv) in E.
    + destruct (setup_decode_cases p d Hb) as [|(m & Hv & -> & _)]; [done|].
      by rewrite (setup_parse_layout m Hv) in E.
Qed.

Lemma setup_decode_exact_witness :
  let p := [0x50; 0x4c; 0x53; 0x31; 0; 1; 0; 4; 0; 1; 0; 0; 0; 0; 0; 9; 0; 0; 0; 1; 77] in
  bytes p /\ exists m, setup_valid m /\ p = setup_layout m /\ setup_parse p = Some m.
Proof.
  intros p. assert (bytes p) as Hb by (subst p; concrete). split; [exact Hb|].
  destruct (setup_decode_exact p (mkSetupPacket 0 0 0 0 0 0) Hb) as [(m & H)|(_ & H & _)].
  - exists m. destruct H as (H1 & H2 & H3 & _). auto.
  - exfalso. vm_compute in H. discriminate H.
Defined.

(** a pre-session message is sent and received unchanged: for arguments of
    their C types the encoder writes exactly when the type and the request id
    are non-zero, the flags known, the payload present, within 65516 bytes and
    within the output; it then writes the packet of that message and nothing
    after it, and the receiver parses the same message back.  Otherwise it
    returns -1 and changes nothing. *)
Theorem setup_roundtrip type flags status rid payload payload_size out output_capacity size0 :
  in_range 16 type -> in_range 16 flags -> in_range 16 status -> in_range 32 rid ->
  in_range 64 payload_size -> output_capacity <= len out ->
  (forall l, payload = Some l -> payload_size <= len l /\ bytes l) ->
  if setup_accepts type flags rid payload payload_size output_capacity
  then exists packet,
    plank_transport_setup_encode type flags status rid payload payload_size (Some out)
      output_capacity (Some size0)
      = Some (0, Some (packet ++ drop (length packet) out), Some (len packet)) /\
    len packet = 20 + payload_size /\
    setup_parse packet = Some (mkSetup type flags status rid
      (take (Z.to_nat payload_size) (default [] payload)))
  else plank_transport_setup_encode type flags status rid payload payload_size (Some out)
      output_capacity (Some size0) = Some (-1, Some out, Some size0).
Proof.
  intros Ht Hf Hs Hr Hn Hcap Hpl. assert (0 <= payload_size) by apply Hn.
  rewrite setup_encode_spec; [|done..|intros l Hl; by apply Hpl].
  destruct (setup_accepts _ _ _ _ _ _) eqn:Ha; [|done]. unfold setup_accepts in Ha.
  guards. cbn zeta. set (src := take (Z.to_nat payload_size) (default [] payload)).
  assert (len src = payload_size /\ bytes src) as [Hsrc Hb].
  { subst src. destruct payload as [l|]; cbn.
    - destruct (Hpl l eq_refl) as [? ?]. rewrite length_take. split; [lia|].
      by apply Forall_take.
    - match goal with H : _ || bool_decide _ = true |- _ =>
        rewrite bool_decide_eq_false_2, orb_false_r in H by (by intros []) end.
      rewrite take_nil. split; [cbn; lia|constructor]. }
  eexists. split_and!; [reflexivity| |].
  - rewrite setup_layout_length. cbn. lia.
  - apply setup_parse_layout. destruct Ht, Hf, Hr.
    unfold setup_valid. split_and!; cbn; try done; ranges; lia.
Qed.

Lemma setup_roundtrip_witness :
  exists packet,
    plank_transport_setup_encode 4 1 0 9 (Some [77]) 1 (Some (replicate 24 0)) 24 (Some 0)
      = Some (0, Some (packet ++ drop (length packet) (replicate 24 0)), Some (len packet)) /\
    len packet = 21 /\ setup_parse packet = Some (mkSetup 4 1 0 9 [77]).
Proof.
  assert (in_range 16 4 /\ in_range 16 1 /\ in_range 16 0 /\ in_range 32 9 /\ in_range 64 1
    /\ 24 <= len (replicate 24 0)) as (H1 & H2 & H3 & H4 & H5 & H6) by concrete.
  exact (setup_roundtrip 4 1 0 9 (Some [77]) 1 (replicate 24 0) 24 0 H1 H2 H3 H4 H5 H6
    ltac:(intros ? [= <-]; split; concrete)).
Defined.
