(* ===== verification/InputWire.v ===== *)
(** * InputWire: protocol/plank-transport/include/plank_transport_input.h

    The payloads of the native input messages.  A [float] is represented by its
    32-bit pattern, which is all the source's [memcpy] accessors see of it. *)

From S2P Require Import Prelude.
From S2P Require Import Endian.

Definition PLANK_TRANSPORT_INPUT_ABSOLUTE_MOUSE_SIZE : Z := 8.
Definition PLANK_TRANSPORT_INPUT_PEN_SIZE : Z := 32.

Definition plank_transport_input_write_u16 := write_u16.
Definition plank_transport_input_write_u32 := write_u32.
Definition plank_transport_input_read_u16 := read_u16.
Definition plank_transport_input_read_u32 := read_u32.

Definition plank_transport_input_write_float (output : list Z) (at_ value : Z)
    : option (list Z) :=
  let bits := value in
  plank_transport_input_write_u32 output at_ bits.

Definition plank_transport_input_read_float (input : list Z) (at_ : Z) : option Z :=
  bits ← plank_transport_input_read_u32 input at_;
  Some bits.

Definition plank_transport_input_encode_absolute_mouse (output : list Z)
    (x y maximum_x maximum_y : Z) : option (list Z) :=
  output ← plank_transport_input_write_u16 output 0 x;
  output ← plank_transport_input_write_u16 output 2 y;
  output ← plank_transport_input_write_u16 output 4 maximum_x;
  plank_transport_input_write_u16 output 6 maximum_y.

Definition plank_transport_input_encode_pen (output : list Z)
    (event_type tool_type buttons tilt rotation : Z)
    (x y pressure_or_distance contact_area_major contact_area_minor : Z)
    : option (list Z) :=
  output ← store output 0 event_type;
  output ← store output 1 tool_type;
  output ← store output 2 buttons;
  output ← store output 3 tilt;
  output ← plank_transport_input_write_u16 output 4 rotation;
  output ← store output 6 0;
  output ← store output 7 0;
  output ← plank_transport_input_write_float output 8 x;
  output ← plank_transport_input_write_float output 12 y;
  output ← plank_transport_input_write_float output 16 pressure_or_distance;
  output ← plank_transport_input_write_float output 20 contact_area_major;
  output ← plank_transport_input_write_float output 24 contact_area_minor;
  plank_transport_input_write_u32 output 28 0.

Definition mouse_fields (x y maximum_x maximum_y : Z) : list field :=
  [F16 x; F16 y; F16 maximum_x; F16 maximum_y].
Definition pen_fields (event_type tool_type buttons tilt rotation x y pressure major minor : Z)
    : list field :=
  [F8 event_type; F8 tool_type; F8 buttons; F8 tilt; F16 rotation; F8 0; F8 0;
   F32 x; F32 y; F32 pressure; F32 major; F32 minor; F32 0].

Lemma mouse_layout out x y mx my :
  8 <= len out ->
  plank_transport_input_encode_absolute_mouse out x y mx my
  = Some (header (mouse_fields x y mx my) ++ drop 8 out).
Proof.
  intros Hl. destruct (split_prefix out 8) as (pre & rest & -> & Hpre); [lia|].
  rewrite drop_app_length' by done.
  unfold plank_transport_input_encode_absolute_mouse, plank_transport_input_write_u16.
  explode pre. mem_eval. done.
Qed.

Lemma pen_layout out et tt b ti r x y p ma mi :
  32 <= len out ->
  plank_transport_input_encode_pen out et tt b ti r x y p ma mi
  = Some (header (pen_fields et tt b ti r x y p ma mi) ++ drop 32 out).
Proof.
  intros Hl. destruct (split_prefix out 32) as (pre & rest & -> & Hpre); [lia|].
  rewrite drop_app_length' by done.
  unfold plank_transport_input_encode_pen, plank_transport_input_write_u16,
    plank_transport_input_write_float, plank_transport_input_write_u32.
  explode pre. mem_eval. done.
Qed.

(** ** Properties *)

(** into a buffer of at least the payload's size, the mouse and pen encoders
    stay within that payload, write every one of its bytes (so nothing of the
    buffer's old content is sent) and every field, floats included, reads back
    at its offset with the value that was encoded. *)
Theorem input_payload_fields out et tt b ti r x y p ma mi mx my mmx mmy :
  32 <= len out ->
  in_range 16 r -> in_range 32 x -> in_range 32 y -> in_range 32 p -> in_range 32 ma ->
  in_range 32 mi -> in_range 16 mx -> in_range 16 my -> in_range 16 mmx -> in_range 16 mmy ->
  (exists pen,
     plank_transport_input_encode_pen out et tt b ti r x y p ma mi = Some (pen ++ drop 32 out) /\
     len pen = PLANK_TRANSPORT_INPUT_PEN_SIZE /\
     map (load pen) [0; 1; 2; 3; 6; 7] = map Some [et; tt; b; ti; 0; 0] /\
     plank_transport_input_read_u16 pen 4 = Some r /\
     map (plank_transport_input_read_float pen) [8; 12; 16; 20; 24] = map Some [x; y; p; ma; mi] /\
     plank_transport_input_read_u32 pen 28 = Some 0) /\
  (exists mouse,
     plank_transport_input_encode_absolute_mouse out mx my mmx mmy = Some (mouse ++ drop 8 out) /\
     len mouse = PLANK_TRANSPORT_INPUT_ABSOLUTE_MOUSE_SIZE /\
     map (plank_transport_input_read_u16 mouse) [0; 2; 4; 6] = map Some [mx; my; mmx; mmy]).
Proof.
  intros Hl Hr Hx Hy Hp Hma Hmi Hmx Hmy Hmmx Hmmy. split.
  - rewrite pen_layout by done. set (fs := pen_fields _ _ _ _ _ _ _ _ _ _).
    exists (header fs). split; [done|]. rewrite <- (app_nil_r (header fs)).
    rewrite length_app, Nat2Z.inj_add, header_length. split_and!; [done|..].
    + cbn [map]. rewrite (load_field8 fs [] 0 et), (load_field8 fs [] 1 tt),
        (load_field8 fs [] 2 b), (load_field8 fs [] 3 ti), (load_field8 fs [] 6 0),
        (load_field8 fs [] 7 0) by done. done.
    + by apply read_field16.
    + cbn [map]. unfold plank_transport_input_read_float, plank_transport_input_read_u32.
      rewrite (read_field32 fs [] 8 x), (read_field32 fs [] 12 y), (read_field32 fs [] 16 p),
        (read_field32 fs [] 20 ma), (read_field32 fs [] 24 mi) by done. done.
    + by apply read_field32.
  - rewrite mouse_layout by lia. set (fs := mouse_fields _ _ _ _).
    exists (header fs). split; [done|]. rewrite <- (app_nil_r (header fs)).
    rewrite length_app, Nat2Z.inj_add, header_length. split; [done|]. cbn [map].
    unfold plank_transport_input_read_u16.
    rewrite (read_field16 fs [] 0 mx), (read_field16 fs [] 2 my), (read_field16 fs [] 4 mmx),
      (read_field16 fs [] 6 mmy) by done. done.
Qed.

Lemma input_payload_fields_witness :
  exists mouse,
    plank_transport_input_encode_absolute_mouse (replicate 40 9) 10 20 3840 2160
      = Some (mouse ++ drop 8 (replicate 40 9)) /\
    len mouse = PLANK_TRANSPORT_INPUT_ABSOLUTE_MOUSE_SIZE /\
    map (plank_transport_input_read_u16 mouse) [0; 2; 4; 6] = map Some [10; 20; 3840; 2160].
Proof.
  assert (32 <= len (replicate 40 9) /\ in_range 16 7 /\ in_range 32 7 /\ in_range 16 10 /\
    in_range 16 20 /\ in_range 16 3840 /\ in_range 16 2160)
    as (H1 & H2 & H3 & H4 & H5 & H6 & H7) by concrete.
  exact (proj2 (input_payload_fields (replicate 40 9) 1 2 3 4 7 7 7 7 7 7 10 20 3840 2160
    H1 H2 H3 H3 H3 H3 H3 H4 H5 H6 H7)).
Defined.
