(* ===== verification/ClipboardWire.v ===== *)
(** * ClipboardWire: protocol/plank-transport/include/plank_clipboard_wire.h

    Clipboard v1: a 32-byte little-endian chunk header followed by the chunk's
    bytes, and the check that a text is scalar-valid UTF-8 without NUL. *)

From S2P Require Import Prelude.
From S2P Require Import Endian.
From S2P Require Import Wire.

Definition PLANK_CLIPBOARD_TEXT_LIMIT : Z := 512 * 1024.
Definition PLANK_CLIPBOARD_HEADER_BYTES : Z := 32.
Definition PLANK_CLIPBOARD_INPUT_BYTES : Z := 8160.
Definition PLANK_CLIPBOARD_EVENT_BYTES : Z := 48 * 1024.
Definition PLANK_CLIPBOARD_FIRST : Z := 1.
Definition PLANK_CLIPBOARD_LAST : Z := 2.

(** [bytes] is the pointer of the source, as an offset into the packet. *)
Record PlankClipboardChunk := mkChunk {
  ch_generation : Z;
  ch_total : Z;
  ch_offset : Z;
  ch_size : Z;
  ch_flags : Z;
  ch_bytes : Z }.

Definition plank_clipboard_read_le := read_le.
Definition plank_clipboard_write_le := write_le.

Definition chunk_refused (c : PlankClipboardChunk) (size limit : Z) : bool :=
  (ch_generation c =? 0) || negb (Z.land (ch_flags c) (UINT32_MAX - 3) =? 0) ||
  (ch_total c =? 0) || (PLANK_CLIPBOARD_TEXT_LIMIT <? ch_total c) ||
  (ch_size c =? 0) || (limit <? ch_size c) || (ch_total c <? ch_offset c) ||
  (u32 (ch_total c - ch_offset c) <? ch_size c) ||
  negb (size =? u32 (PLANK_CLIPBOARD_HEADER_BYTES + ch_size c)) ||
  (negb (Z.land (ch_flags c) PLANK_CLIPBOARD_FIRST =? 0) && negb (ch_offset c =? 0)) ||
  negb (eqb (negb (Z.land (ch_flags c) PLANK_CLIPBOARD_LAST =? 0))
            (u32 (ch_offset c + ch_size c) =? ch_total c)).

Definition plank_clipboard_decode (p : option (list Z)) (size limit : Z)
    (out : option PlankClipboardChunk) : option (Z * option PlankClipboardChunk) :=
  let failure := Some (0, out) in
  match p, out with
  | Some p, Some _ =>
      stop_if size <? PLANK_CLIPBOARD_HEADER_BYTES with failure;
      flags ← plank_clipboard_read_le p 8 4;
      generation ← plank_clipboard_read_le p 12 8;
      total ← plank_clipboard_read_le p 20 4;
      offset ← plank_clipboard_read_le p 24 4;
      csize ← plank_clipboard_read_le p 28 4;
      let c := mkChunk generation (u32 total) (u32 offset) (u32 csize) (u32 flags)
                 PLANK_CLIPBOARD_HEADER_BYTES in
      magic ← plank_clipboard_read_le p 0 4;
      version ← plank_clipboard_read_le p 4 2;
      reserved ← plank_clipboard_read_le p 6 2;
      stop_if negb (magic =? 0x504c4342) || negb (version =? 1) || negb (reserved =? 0) ||
              chunk_refused c size limit with failure;
      Some (1, Some c)
  | _, _ => failure
  end.

Definition header_flags (total offset size : Z) : Z :=
  Z.lor (if offset =? 0 then PLANK_CLIPBOARD_FIRST else 0)
        (if u32 (offset + size) =? total then PLANK_CLIPBOARD_LAST else 0).

Definition plank_clipboard_header (p : list Z) (generation total offset size : Z)
    : option (list Z) :=
  p ← plank_clipboard_write_le p 0 0x504c4342 4;
  p ← plank_clipboard_write_le p 4 1 2;
  p ← plank_clipboard_write_le p 6 0 2;
  p ← plank_clipboard_write_le p 8 (header_flags total offset size) 4;
  p ← plank_clipboard_write_le p 12 generation 8;
  p ← plank_clipboard_write_le p 20 total 4;
  p ← plank_clipboard_write_le p 24 offset 4;
  plank_clipboard_write_le p 28 size 4.

(** The continuation bytes of one sequence: [Some None] is the source's
    [return 0], [Some (Some i)] the index after the sequence. *)
Fixpoint continuation_loop (p : list Z) (i : Z) (extra : nat) : option (option Z) :=
  match extra with
  | O => Some (Some i)
  | S extra' =>
      b ← load p i;
      stop_if negb (Z.land b 0xc0 =? 0x80) with Some None;
      continuation_loop p (i + 1) extra'
  end.

Definition utf8_extra (c : Z) : Z :=
  if (0xc2 <=? c) && (c <=? 0xdf) then 1
  else if (0xe0 <=? c) && (c <=? 0xef) then 2
  else if (0xf0 <=? c) && (c <=? 0xf4) then 3 else 0.

Definition second_refused (c b : Z) : bool :=
  ((c =? 0xe0) && (b <? 0xa0)) || ((c =? 0xed) && (0x9f <? b)) ||
  ((c =? 0xf0) && (b <? 0x90)) || ((c =? 0xf4) && (0x8f <? b)).

(** [None] is an access outside the text or a loop that did not end. *)
Fixpoint valid_text_loop (fuel : nat) (p : list Z) (size i : Z) : option Z :=
  stop_if negb (i <? size) with Some 1;
  match fuel with
  | O => None
  | S fuel' =>
      c ← load p i;
      let i := i + 1 in
      stop_if c =? 0 with Some 0;
      stop_if c <? 0x80 with valid_text_loop fuel' p size i;
      let extra := utf8_extra c in
      stop_if (extra =? 0) || (size - i <? extra) with Some 0;
      second ← load p i;
      stop_if second_refused c second with Some 0;
      i ← continuation_loop p i (Z.to_nat extra);
      match i with
      | None => Some 0
      | Some i => valid_text_loop fuel' p size i
      end
  end.

Definition plank_clipboard_valid_text (p : option (list Z)) (size : Z) : option Z :=
  match p with
  | None => Some 0
  | Some p =>
      stop_if (size =? 0) || (PLANK_CLIPBOARD_TEXT_LIMIT <? size) with Some 0;
      valid_text_loop (Z.to_nat size) p size 0
  end.

(** ** Chunks *)

Definition chunk_fields (c : PlankClipboardChunk) : list field :=
  [FLE 4 0x504c4342; FLE 2 1; FLE 2 0; FLE 4 (ch_flags c); FLE 8 (ch_generation c);
   FLE 4 (ch_total c); FLE 4 (ch_offset c); FLE 4 (ch_size c)].

Definition chunk_ranges (c : PlankClipboardChunk) : Prop :=
  in_range 64 (ch_generation c) /\ in_range 32 (ch_total c) /\ in_range 32 (ch_offset c) /\
  in_range 32 (ch_size c) /\ in_range 32 (ch_flags c) /\ ch_bytes c = 32.

(** What a receiver may rely on once a chunk was accepted. *)
Record chunk_ok (limit : Z) (c : PlankClipboardChunk) : Prop := {
  ok_generation : 0 < ch_generation c < 2 ^ 64;
  ok_total : 0 < ch_total c <= PLANK_CLIPBOARD_TEXT_LIMIT;
  ok_size : 0 < ch_size c <= limit;
  ok_inside : 0 <= ch_offset c /\ ch_offset c + ch_size c <= ch_total c;
  ok_flags : 0 <= ch_flags c <= 3;
  ok_first : Z.testbit (ch_flags c) 0 = true -> ch_offset c = 0;
  ok_last : Z.testbit (ch_flags c) 1 = true <-> ch_offset c + ch_size c = ch_total c;
  ok_bytes : ch_bytes c = 32 }.

Lemma chunk_reads c rest :
  chunk_ranges c ->
  read_le (header (chunk_fields c) ++ rest) 0 4 = Some 0x504c4342 /\
  read_le (header (chunk_fields c) ++ rest) 4 2 = Some 1 /\
  read_le (header (chunk_fields c) ++ rest) 6 2 = Some 0 /\
  read_le (header (chunk_fields c) ++ rest) 8 4 = Some (ch_flags c) /\
  read_le (header (chunk_fields c) ++ rest) 12 8 = Some (ch_generation c) /\
  read_le (header (chunk_fields c) ++ rest) 20 4 = Some (ch_total c) /\
  read_le (header (chunk_fields c) ++ rest) 24 4 = Some (ch_offset c) /\
  read_le (header (chunk_fields c) ++ rest) 28 4 = Some (ch_size c).
Proof. intros (? & ? & ? & ? & ? & ?). split_and!; by apply read_field_le; [..|lia]. Qed.

Lemma flags_mask f : in_range 32 f -> (Z.land f (UINT32_MAX - 3) =? 0) = (f <=? 3).
Proof.
  intros Hf.
  replace (Z.land f (UINT32_MAX - 3)) with (Z.shiftl (Z.shiftr f 2) 2).
  - rewrite Z.shiftl_mul_pow2, Z.shiftr_div_pow2 by lia. change (2 ^ 2) with 4.
    ranges. destruct (f <=? 3) eqn:E; Z.div_mod_to_equations; lia.
  - rewrite <- Z.ldiff_ones_r by lia.
    replace f with (Z.land f (Z.ones 32)) at 1.
    2: { rewrite Z.land_ones by lia. by apply Z.mod_small. }
    change (UINT32_MAX - 3) with (Z.ldiff (Z.ones 32) (Z.ones 2)).
    apply Z.bits_inj'. intros i Hi. rewrite !Z.ldiff_spec, !Z.land_spec, Z.ldiff_spec.
    by rewrite andb_assoc.
Qed.

Lemma flag_bits f : 0 <= f <= 3 ->
  negb (Z.land f 1 =? 0) = Z.testbit f 0 /\ negb (Z.land f 2 =? 0) = Z.testbit f 1.
Proof.
  intros Hf. assert (f = 0 \/ f = 1 \/ f = 2 \/ f = 3) as [-> | [-> | [-> | ->]]] by lia; done.
Qed.

Lemma chunk_refused_spec c size limit :
  chunk_ranges c -> in_range 32 limit ->
  chunk_refused c size limit = false <-> chunk_ok limit c /\ size = 32 + ch_size c.
Proof.
  destruct c as [gen total offset csize flags b]. unfold chunk_ranges, chunk_refused. cbn.
  intros (Hg & Ht & Ho & Hs & Hf & ->) Hl. rewrite flags_mask by done.
  unfold PLANK_CLIPBOARD_TEXT_LIMIT, PLANK_CLIPBOARD_HEADER_BYTES,
    PLANK_CLIPBOARD_FIRST, PLANK_CLIPBOARD_LAST.
  split.
  - intros H. guards.
    assert (0 <= flags <= 3) as Hf3 by (ranges; lia).
    destruct (flag_bits flags Hf3) as [F0 F1]. rewrite F0, F1 in *.
    assert (u32 (total - offset) = total - offset) as E1 by (apply wrap_small; ranges; lia).
    assert (u32 (32 + csize) = 32 + csize) as E2 by (apply wrap_small; ranges; lia).
    assert (u32 (offset + csize) = offset + csize) as E3 by (apply wrap_small; ranges; lia).
    rewrite ?E1, ?E2, ?E3 in *. split; [|lia].
    constructor; cbn [ch_generation ch_total ch_offset ch_size ch_flags ch_bytes];
      unfold PLANK_CLIPBOARD_TEXT_LIMIT; ranges; try lia.
    all: destruct (Z.testbit flags 0), (Z.testbit flags 1),
      (Z.eqb_spec (offset + csize) total); cbn in *; intuition (congruence || lia).
  - intros [[Hgen Htot Hsz Hin Hfl Hfirst Hlast _] ->].
    cbn [ch_generation ch_total ch_offset ch_size ch_flags ch_bytes] in *.
    unfold PLANK_CLIPBOARD_TEXT_LIMIT in *.
    destruct (flag_bits flags Hfl) as [F0 F1]. rewrite F0, F1.
    assert (u32 (total - offset) = total - offset) as -> by (apply wrap_small; ranges; lia).
    assert (u32 (32 + csize) = 32 + csize) as -> by (apply wrap_small; ranges; lia).
    assert (u32 (offset + csize) = offset + csize) as -> by (apply wrap_small; ranges; lia).
    repeat (apply orb_false_iff; split); ranges; try lia.
    all: destruct (Z.testbit flags 0), (Z.testbit flags 1),
      (Z.eqb_spec (offset + csize) total); cbn in *; intuition (congruence || lia).
Qed.

Lemma decode_chunk_fields c limit rest d :
  chunk_ranges c ->
  plank_clipboard_decode (Some (header (chunk_fields c) ++ rest)) (32 + len rest) limit (Some d)
  = if chunk_refused c (32 + len rest) limit then Some (0, Some d) else Some (1, Some c).
Proof.
  intros Hc. destruct (chunk_reads c rest Hc) as (R0 & R4 & R6 & R8 & R12 & R20 & R24 & R28).
  unfold plank_clipboard_decode, plank_clipboard_read_le, PLANK_CLIPBOARD_HEADER_BYTES.
  rewrite (proj2 (Z.ltb_ge _ _)) by lia. rewrite R0, R4, R6, R8, R12, R20, R24, R28.
  destruct Hc as (? & ? & ? & ? & ? & Hb). cbn [mbind option_bind].
  rewrite !wrap_small by done. destruct c; cbn in *; subst. done.
Qed.

(** The fields of any 32-byte header. *)
Lemma header_of_bytes pre :
  bytes pre -> length pre = 32%nat ->
  exists magic version reserved c, chunk_ranges c /\
    in_range 32 magic /\ in_range 16 version /\ in_range 16 reserved /\
    pre = header [FLE 4 magic; FLE 2 version; FLE 2 reserved; FLE 4 (ch_flags c);
                  FLE 8 (ch_generation c); FLE 4 (ch_total c); FLE 4 (ch_offset c);
                  FLE 4 (ch_size c)].
Proof.
  intros Hb Hl.
  by_template [FLE 4 0; FLE 2 0; FLE 2 0; FLE 4 0; FLE 8 0; FLE 4 0; FLE 4 0; FLE 4 0] pre;
    [by rewrite Hl|].
  exists o, o0, o1, (mkChunk o3 o4 o5 o6 o2 32). by split_and!.
Qed.

Lemma chunk_ok_ranges limit c : in_range 32 limit -> chunk_ok limit c -> chunk_ranges c.
Proof.
  intros Hl [? ? ? ? ? ? ? ?]. unfold PLANK_CLIPBOARD_TEXT_LIMIT in *.
  unfold chunk_ranges. ranges. lia.
Qed.

Definition chunk_layout (c : PlankClipboardChunk) (payload : list Z) : list Z :=
  header (chunk_fields c) ++ payload.

Lemma chunk_layout_length c payload : len (chunk_layout c payload) = 32 + len payload.
Proof. unfold chunk_layout. rewrite length_app, Nat2Z.inj_add, header_length. cbn. lia. Qed.

Lemma clipboard_decode_complete limit c payload d :
  in_range 32 limit -> chunk_ok limit c -> ch_size c = len payload ->
  plank_clipboard_decode (Some (chunk_layout c payload)) (len (chunk_layout c payload)) limit
    (Some d) = Some (1, Some c).
Proof.
  intros Hl Hc Hs. rewrite chunk_layout_length.
  unfold chunk_layout. rewrite decode_chunk_fields by by eapply chunk_ok_ranges.
  rewrite (proj2 (chunk_refused_spec _ _ _ (chunk_ok_ranges _ _ Hl Hc) Hl)); [done|].
  by rewrite Hs.
Qed.

Lemma clipboard_decode_sound p limit d :
  bytes p -> in_range 32 limit ->
  plank_clipboard_decode (Some p) (len p) limit (Some d) = Some (0, Some d) \/
  exists c payload,
    plank_clipboard_decode (Some p) (len p) limit (Some d) = Some (1, Some c) /\
    chunk_ok limit c /\ ch_size c = len payload /\ p = chunk_layout c payload.
Proof.
  intros Hb Hl.
  destruct (Z.ltb_spec (len p) 32).
  { left. unfold plank_clipboard_decode, PLANK_CLIPBOARD_HEADER_BYTES.
    by rewrite (proj2 (Z.ltb_lt _ _)). }
  destruct (split_prefix p 32) as (pre & payload & -> & Hpre); [lia|].
  apply Forall_app in Hb as [Hb _].
  destruct (header_of_bytes pre Hb Hpre) as (m & v & r & c & Hc & Hm & Hv & Hr & ->).
  set (fs := [FLE 4 m; FLE 2 v; _; _; _; _; _; _]).
  assert (len (header fs ++ payload) = 32 + len payload) as Hlen
    by (rewrite length_app, Nat2Z.inj_add, header_length; cbn; lia).
  destruct (decide (m = 0x504c4342 /\ v = 1 /\ r = 0)) as [(-> & -> & ->)|Hbad].
  - change fs with (chunk_fields c) in *. rewrite Hlen, decode_chunk_fields by done.
    destruct (chunk_refused c (32 + len payload) limit) eqn:E; [by left|right].
    apply chunk_refused_spec in E as [Hok Hs]; [|done..].
    exists c, payload. split_and!; [done..|lia|done].
  - left. unfold plank_clipboard_decode, plank_clipboard_read_le, PLANK_CLIPBOARD_HEADER_BYTES.
    rewrite Hlen, (proj2 (Z.ltb_ge _ _)) by lia.
    destruct Hc as (? & ? & ? & ? & ? & ?).
    rewrite (read_field_le fs payload 0 4 m), (read_field_le fs payload 4 2 v),
      (read_field_le fs payload 6 2 r), (read_field_le fs payload 8 4 (ch_flags c)),
      (read_field_le fs payload 12 8 (ch_generation c)),
      (read_field_le fs payload 20 4 (ch_total c)),
      (read_field_le fs payload 24 4 (ch_offset c)),
      (read_field_le fs payload 28 4 (ch_size c)) by (done || lia).
    cbn [mbind option_bind].
    replace (negb (m =? 0x504c4342) || negb (v =? 1) || negb (r =? 0)) with true by lia.
    done.
Qed.

(** The header the sender writes for a chunk of a text. *)
Definition sent_chunk (generation total offset size : Z) : PlankClipboardChunk :=
  mkChunk generation total offset size (header_flags total offset size) 32.

Lemma header_flags_range total offset size : 0 <= header_flags total offset size <= 3.
Proof.
  unfold header_flags, PLANK_CLIPBOARD_FIRST, PLANK_CLIPBOARD_LAST.
  destruct (offset =? 0), (u32 (offset + size) =? total); by compute.
Qed.

Lemma clipboard_header_layout out generation total offset size :
  (32 <= length out)%nat -> 
  plank_clipboard_header out generation total offset size =
    Some (header (chunk_fields (sent_chunk generation total offset size)) ++ drop 32 out).
Proof.
  intros Hl. destruct (split_prefix out 32) as (pre & rest & -> & Hpre); [lia|].
  rewrite drop_app_length' by done.
  unfold plank_clipboard_header, plank_clipboard_write_le.
  explode pre.
  repeat (rewrite write_le_copy by (cbn; lia); cbn [le_bytes];
          mem_cbn; rewrite ?overwrite_nil; mem_cbn).
  reflexivity.
Qed.

Lemma sent_chunk_ok limit generation total offset size :
  0 < generation < 2 ^ 64 -> 0 < total <= PLANK_CLIPBOARD_TEXT_LIMIT -> 0 < size <= limit ->
  0 <= offset -> offset + size <= total ->
  chunk_ok limit (sent_chunk generation total offset size).
Proof.
  intros Hg Ht Hs Ho Hi. assert (u32 (offset + size) = offset + size) as E.
  { apply wrap_small. unfold PLANK_CLIPBOARD_TEXT_LIMIT in *. ranges. lia. }
  constructor; cbn [sent_chunk ch_generation ch_total ch_offset ch_size ch_flags ch_bytes];
    try done.
  - apply header_flags_range.
  - unfold header_flags. destruct (Z.eqb_spec offset 0); [done|].
    rewrite Z.lor_0_l. by destruct (_ =? _).
  - unfold header_flags. rewrite E, Z.lor_spec.
    destruct (Z.eqb_spec offset 0), (Z.eqb_spec (offset + size) total); cbn;
      split; intros; congruence || lia.
Qed.

(** ** UTF-8 *)

(** A Unicode scalar value other than NUL, and its UTF-8 encoding. *)
Definition scalar (v : Z) : Prop := (1 <= v <= 0xd7ff) \/ (0xe000 <= v <= 0x10ffff).

Definition utf8 (v : Z) : list Z :=
  if v <? 0x80 then [v]
  else if v <? 0x800 then [0xc0 + v / 64; 0x80 + v mod 64]
  else if v <? 0x10000 then [0xe0 + v / 4096; 0x80 + v / 64 mod 64; 0x80 + v mod 64]
  else [0xf0 + v / 262144; 0x80 + v / 4096 mod 64; 0x80 + v / 64 mod 64; 0x80 + v mod 64].

Definition utf8_text (p : list Z) : Prop :=
  exists vs, Forall scalar vs /\ p = concat (map utf8 vs).

(** The first scalar of a byte string and what follows it. *)
Definition cont (b : Z) : bool := (0x80 <=? b) && (b <=? 0xbf).
Definition decode_one (p : list Z) : option (Z * list Z) :=
  match p with
  | [] => None
  | c :: r =>
      if c =? 0 then None else if c <? 0x80 then Some (c, r)
      else match utf8_extra c, r with
      | 1, b :: r => if cont b then Some ((c - 0xc0) * 64 + (b - 0x80), r) else None
      | 2, b :: b' :: r =>
          if negb (second_refused c b) && cont b && cont b'
          then Some ((c - 0xe0) * 4096 + (b - 0x80) * 64 + (b' - 0x80), r) else None
      | 3, b :: b' :: b'' :: r =>
          if negb (second_refused c b) && cont b && cont b' && cont b''
          then Some ((c - 0xf0) * 262144 + (b - 0x80) * 4096 + (b' - 0x80) * 64 + (b'' - 0x80), r)
          else None
      | _, _ => None
      end
  end.

Lemma utf8_extra_1 c : 0xc2 <= c <= 0xdf -> utf8_extra c = 1.
Proof. unfold utf8_extra. repeat case_match; guards; lia. Qed.
Lemma utf8_extra_2 c : 0xe0 <= c <= 0xef -> utf8_extra c = 2.
Proof. unfold utf8_extra. repeat case_match; guards; lia. Qed.
Lemma utf8_extra_3 c : 0xf0 <= c <= 0xf4 -> utf8_extra c = 3.
Proof. unfold utf8_extra. repeat case_match; guards; lia. Qed.
Lemma utf8_extra_cases c :
  (utf8_extra c = 1 /\ 0xc2 <= c <= 0xdf) \/ (utf8_extra c = 2 /\ 0xe0 <= c <= 0xef) \/
  (utf8_extra c = 3 /\ 0xf0 <= c <= 0xf4) \/
  (utf8_extra c = 0 /\ ~ 0xc2 <= c <= 0xf4).
Proof. unfold utf8_extra. repeat case_match; guards; lia. Qed.

Lemma second_allowed c b :
  second_refused c b = false <->
  (c = 0xe0 -> 0xa0 <= b) /\ (c = 0xed -> b <= 0x9f) /\
  (c = 0xf0 -> 0x90 <= b) /\ (c = 0xf4 -> b <= 0x8f).
Proof. unfold second_refused. lia. Qed.

Lemma cont_mask b : is_byte b -> (Z.land b 0xc0 =? 0x80) = cont b.
Proof.
  intros H. apply eqb_prop, (byte_forall (fun b => eqb (Z.land b 0xc0 =? 0x80) (cont b))); [|done].
  by vm_compute.
Qed.

Ltac allowed :=
  match goal with H : second_refused _ _ = false |- _ => apply second_allowed in H end.

Lemma decode_one_utf8 v r : scalar v -> decode_one (utf8 v ++ r) = Some (v, r).
Proof.
  intros Hv. unfold utf8, decode_one, scalar, cont in *.
  destruct (Z.ltb_spec v 0x80); cbn [app].
  { by rewrite (proj2 (Z.eqb_neq _ _)), (proj2 (Z.ltb_lt _ _)) by lia. }
  destruct (Z.ltb_spec v 0x800); [|destruct (Z.ltb_spec v 0x10000)]; cbn [app];
    rewrite (proj2 (Z.eqb_neq _ _)), (proj2 (Z.ltb_ge _ _)) by (Z.div_mod_to_equations; lia).
  - rewrite utf8_extra_1 by (Z.div_mod_to_equations; lia).
    case_match eqn:E; [repeat f_equal|]; Z.div_mod_to_equations; lia.
  - rewrite utf8_extra_2 by (Z.div_mod_to_equations; lia).
    assert (second_refused (0xe0 + v / 4096) (0x80 + v / 64 mod 64) = false) as ->.
    { apply second_allowed. Z.div_mod_to_equations; lia. }
    case_match eqn:E; [repeat f_equal|]; Z.div_mod_to_equations; lia.
  - rewrite utf8_extra_3 by (Z.div_mod_to_equations; lia).
    assert (second_refused (0xf0 + v / 262144) (0x80 + v / 4096 mod 64) = false) as ->.
    { apply second_allowed. Z.div_mod_to_equations; lia. }
    case_match eqn:E; [repeat f_equal|]; Z.div_mod_to_equations; lia.
Qed.

Lemma decode_one_sound p v r :
  bytes p -> decode_one p = Some (v, r) -> scalar v /\ p = utf8 v ++ r.
Proof.
  unfold decode_one, cont. intros Hb. destruct p as [|c p]; [done|].
  apply Forall_cons in Hb as [Hc _]. ranges.
  destruct (Z.eqb_spec c 0); [done|]. destruct (Z.ltb_spec c 0x80).
  { intros [= <- <-]. unfold scalar, utf8. rewrite (proj2 (Z.ltb_lt _ _)) by lia. split; [lia|done]. }
  destruct (utf8_extra_cases c) as [[-> ?]|[[-> ?]|[[-> ?]|[-> ?]]]]; [..|done];
    destruct p as [|b p]; [done| |done| |done|]; [|destruct p as [|b' p]; [done|]..];
    [| |destruct p as [|b'' p]; [done|]]; case_match eqn:E; try done; intros [= <- <-]; guards.
  - unfold scalar, utf8. rewrite (proj2 (Z.ltb_ge _ 0x80)), (proj2 (Z.ltb_lt _ 0x800)) by lia.
    split; [lia|]. cbn [app]. repeat f_equal; Z.div_mod_to_equations; lia.
  - allowed. unfold scalar, utf8.
    rewrite (proj2 (Z.ltb_ge _ 0x80)), (proj2 (Z.ltb_ge _ 0x800)), (proj2 (Z.ltb_lt _ 0x10000)) by lia.
    split; [lia|]. cbn [app]. repeat f_equal; Z.div_mod_to_equations; lia.
  - allowed. unfold scalar, utf8.
    rewrite (proj2 (Z.ltb_ge _ 0x80)), (proj2 (Z.ltb_ge _ 0x800)), (proj2 (Z.ltb_ge _ 0x10000)) by lia.
    split; [lia|]. cbn [app]. repeat f_equal; Z.div_mod_to_equations; lia.
Qed.

(** One iteration of the loop decodes one scalar. *)
Lemma continuation_step pre b rest i n :
  is_byte b -> i = len pre ->
  continuation_loop (pre ++ b :: rest) i (S n) =
  if cont b then continuation_loop ((pre ++ [b]) ++ rest) (len (pre ++ [b])) n else Some None.
Proof.
  intros Hb ->. cbn [continuation_loop]. rewrite load_here by done. cbn [mbind option_bind].
  rewrite cont_mask by done. destruct (cont b); [cbn [negb]|done].
  rewrite length_app, Nat2Z.inj_add. by rewrite <- app_assoc.
Qed.

Ltac second_step :=
  rewrite (proj2 (Z.ltb_ge _ _)) by (cbn [length]; lia);
  rewrite (load_here _ _ _ (len _)) by done; cbn [mbind option_bind negb andb].
Ltac continue_step b :=
  match goal with Hb : Forall _ (b :: _) |- _ => apply Forall_cons in Hb as [? Hb] end;
  rewrite continuation_step by done; destruct (cont b); [cbn [andb]|done].
Ltac sequence_end :=
  cbn [continuation_loop mbind option_bind negb andb];
  match goal with |- valid_text_loop ?f ?p _ ?i = valid_text_loop _ _ _ ?j =>
    replace j with i; [done|rewrite !length_app; cbn [length]; lia] end.

Lemma valid_text_step pre rest fuel :
  bytes rest -> rest <> [] ->
  valid_text_loop (S fuel) (pre ++ rest) (len (pre ++ rest)) (len pre) =
  match decode_one rest with
  | None => Some 0
  | Some (v, r) => valid_text_loop fuel (pre ++ rest) (len (pre ++ rest)) (len (pre ++ rest) - len r)
  end.
Proof.
  intros Hb Hne. destruct rest as [|c r]; [done|]. clear Hne.
  cbn [valid_text_loop decode_one].
  assert (len (pre ++ c :: r) = len pre + 1 + len r) as Hlen by (rewrite length_app; cbn; lia).
  rewrite (proj2 (Z.ltb_lt _ _)) by lia. rewrite (load_here _ _ _ (len pre)) by done. cbn [negb mbind option_bind].
  destruct (c =? 0); [done|]. destruct (c <? 0x80); [f_equal; lia|].
  replace (len (pre ++ c :: r) - (len pre + 1)) with (len r) by lia.
  apply Forall_cons in Hb as [Hc Hb].
  replace (pre ++ c :: r) with ((pre ++ [c]) ++ r) in * by by rewrite <- app_assoc.
  replace (len pre + 1) with (len (pre ++ [c])) in * by (rewrite length_app; cbn; lia).
  generalize dependent (pre ++ [c]). clear pre. intros pre Hlen.
  destruct (utf8_extra_cases c) as [[-> ?]|[[-> ?]|[[-> ?]|[-> ?]]]]; cbn [Z.eqb orb]; [..|done];
    destruct r as [|b r]; try done.
  all: change (Z.to_nat 1) with 1%nat; change (Z.to_nat 2) with 2%nat; change (Z.to_nat 3) with 3%nat.
  - second_step. assert (second_refused c b = false) as -> by (apply second_allowed; lia).
    continue_step b. sequence_end.
  - destruct r as [|b' r]; [done|]. second_step. destruct (second_refused c b); [done|].
    continue_step b. continue_step b'. sequence_end.
  - destruct r as [|b' [|b'' r]]; [done..|]. second_step. destruct (second_refused c b); [done|].
    continue_step b. continue_step b'. continue_step b''. sequence_end.
Qed.

Lemma valid_text_loop_spec fuel pre rest :
  bytes rest -> (length rest <= fuel)%nat ->
  exists r, valid_text_loop fuel (pre ++ rest) (len (pre ++ rest)) (len pre) = Some r /\
    (r = 1 /\ utf8_text rest \/ r = 0 /\ ~ utf8_text rest).
Proof.
  revert pre rest. induction fuel as [|fuel IH]; intros pre rest Hb Hf;
    (destruct (decide (rest = [])) as [->|Hne];
     [exists 1; split; [|left; split; [done|by exists []]];
      unfold valid_text_loop; rewrite app_nil_r, (proj2 (Z.ltb_ge _ _)) by lia; done|]).
  { destruct rest; [done|cbn in Hf; lia]. }
  rewrite valid_text_step by done.
  destruct (decode_one rest) as [[v r]|] eqn:E.
  - apply decode_one_sound in E as [Hv ->]; [|done].
    assert (utf8 v <> []) as Hw by (unfold utf8; by repeat case_match).
    destruct (IH (pre ++ utf8 v) r) as (res & Hres & Hspec).
    { by apply Forall_app in Hb as [_ ?]. }
    { rewrite length_app in Hf. destruct (utf8 v); [done|cbn in Hf; lia]. }
    rewrite app_assoc.
    replace (len ((pre ++ utf8 v) ++ r) - len r) with (len (pre ++ utf8 v))
      by (rewrite !length_app; lia).
    exists res. split; [exact Hres|]. destruct Hspec as [[-> (vs & ? & ->)]|[-> Hno]].
    + left. split; [done|]. exists (v :: vs). by split; [constructor|].
    + right. split; [done|]. intros (vs & Hvs & He). apply Hno.
      destruct vs as [|v' vs]; cbn in He.
      { by apply app_eq_nil in He as [? _]. }
      apply Forall_cons in Hvs as [Hv' Hvs].
      pose proof (decode_one_utf8 v r Hv) as D. rewrite He, decode_one_utf8 in D by done.
      injection D as _ <-. by exists vs.
  - exists 0. split; [done|]. right. split; [done|]. intros (vs & Hvs & ->).
    destruct vs as [|v vs]; [done|]. apply Forall_cons in Hvs as [Hv Hvs].
    cbn in E. by rewrite decode_one_utf8 in E.
Qed.

(** ** Properties *)

(** C23: over arbitrary bytes of at most [size] the text check terminates without
    reading past the text, and answers 1 exactly when the text is non-empty, at
    most 512 KiB, and a sequence of UTF-8 encodings of Unicode scalar values other
    than NUL (no overlong form, surrogate, stray or missing continuation byte). *)
Theorem valid_text_exact p :
  bytes p ->
  exists r, plank_clipboard_valid_text (Some p) (len p) = Some r /\
    (r = 1 /\ 0 < len p <= PLANK_CLIPBOARD_TEXT_LIMIT /\ utf8_text p \/
     r = 0 /\ ~ (0 < len p <= PLANK_CLIPBOARD_TEXT_LIMIT /\ utf8_text p)).
Proof.
  intros Hb. unfold plank_clipboard_valid_text.
  destruct (Z.eqb_spec (len p) 0); cbn [orb].
  { exists 0. split; [done|right]. lia. }
  destruct (Z.ltb_spec PLANK_CLIPBOARD_TEXT_LIMIT (len p)).
  { exists 0. split; [done|right]. lia. }
  destruct (valid_text_loop_spec (Z.to_nat (len p)) [] p) as (r & Hr & Hs); [done|lia|].
  exists r. split; [exact Hr|]. destruct Hs as [[-> ?]|[-> ?]]; [left|right]; [|tauto].
  split_and!; [done|lia|lia|done].
Qed.

Lemma valid_text_exact_witness :
  bytes [0x50; 0xe2; 0x82; 0xac] /\
  plank_clipboard_valid_text (Some [0x50; 0xe2; 0x82; 0xac]) 4 = Some 1 /\
  utf8_text [0x50; 0xe2; 0x82; 0xac].
Proof.
  assert (bytes [0x50; 0xe2; 0x82; 0xac]) as Hb by concrete.
  split; [exact Hb|]. split; [reflexivity|].
  destruct (valid_text_exact _ Hb) as (r & Hr & [(_ & _ & H)|(-> & _)]); [exact H|].
  vm_compute in Hr. discriminate Hr.
Defined.

(** the chunk decoder never reads outside a received packet.  It accepts
    exactly the 32-byte little-endian PLCB header followed by as many bytes as the
    header says, whose generation, total (at most 512 KiB), size (at most the
    caller's limit), offset and flags are consistent; it then reports precisely
    those fields; every other packet returns 0 and leaves [out] alone. *)
Theorem clipboard_decode_exact p limit d :
  bytes p -> in_range 32 limit ->
  exists r c, plank_clipboard_decode (Some p) (len p) limit (Some d) = Some (r, Some c) /\
    ((r = 1 /\ chunk_ok limit c /\
        exists payload, ch_size c = len payload /\ p = chunk_layout c payload) \/
     (r = 0 /\ c = d /\ forall c' payload,
        chunk_ok limit c' -> ch_size c' = len payload -> p <> chunk_layout c' payload)).
Proof.
  intros Hb Hl. destruct (clipboard_decode_sound p limit d Hb Hl) as [H|(c & pl & H & ? & ? & ?)].
  - exists 0, d. split; [done|right]. split_and!; [done..|].
    intros c' pl Hok Hs ->. by rewrite (clipboard_decode_complete _ _ _ _ Hl Hok Hs) in H.
  - exists 1, c. split; [done|left]. eauto.
Qed.

Lemma clipboard_decode_exact_witness :
  bytes (chunk_layout (mkChunk 9 3 0 3 3 32) [1; 2; 3]) /\
  exists r c, plank_clipboard_decode (Some (chunk_layout (mkChunk 9 3 0 3 3 32) [1; 2; 3]))
    35 8160 (Some (mkChunk 0 0 0 0 0 0)) = Some (r, Some c) /\ r = 1.
Proof.
  assert (bytes (chunk_layout (mkChunk 9 3 0 3 3 32) [1; 2; 3])) as Hb by concrete.
  split; [exact Hb|].
  destruct (clipboard_decode_exact _ 8160 (mkChunk 0 0 0 0 0 0) Hb) as (r & c & H & _);
    [concrete|].
  exists r, c. split; [exact H|]. vm_compute in H. by injection H as <- _.
Defined.

(** for every chunk of a text of at most 512 KiB (any generation but 0, any
    non-empty range inside the text within the receiver's limit) the header the
    sender writes followed by the chunk's bytes is accepted by the decoder, which
    returns the generation, total, offset and size that were sent, FIRST set
    exactly on the chunk at offset 0 and LAST exactly on the one that ends the
    text; the header touches its 32 bytes only. *)
Theorem clipboard_header_decode out generation total offset payload limit d :
  (32 <= length out)%nat -> in_range 32 limit ->
  0 < generation < 2 ^ 64 -> 0 < total <= PLANK_CLIPBOARD_TEXT_LIMIT ->
  0 < len payload <= limit -> 0 <= offset -> offset + len payload <= total ->
  exists h flags, length h = 32%nat /\
    plank_clipboard_header out generation total offset (len payload) = Some (h ++ drop 32 out) /\
    plank_clipboard_decode (Some (h ++ payload)) (32 + len payload) limit (Some d)
      = Some (1, Some (mkChunk generation total offset (len payload) flags 32)) /\
    (Z.testbit flags 0 = true <-> offset = 0) /\
    (Z.testbit flags 1 = true <-> offset + len payload = total).
Proof.
  intros Hout Hl Hg Ht Hs Ho Hi.
  pose proof (sent_chunk_ok limit generation total offset (len payload) Hg Ht Hs Ho Hi) as Hok.
  exists (header (chunk_fields (sent_chunk generation total offset (len payload)))),
    (header_flags total offset (len payload)).
  split; [reflexivity|]. split; [by apply clipboard_header_layout|]. split.
  - rewrite <- (chunk_layout_length (sent_chunk generation total offset (len payload))).
    by apply clipboard_decode_complete.
  - split; [|apply Hok].
    split; [apply Hok|]. intros ->. unfold header_flags. cbn [Z.eqb].
    rewrite Z.lor_spec. done.
Qed.

Lemma clipboard_header_decode_witness :
  exists h flags, length h = 32%nat /\
    plank_clipboard_header (replicate 40 7) 5 10 4 3 = Some (h ++ drop 32 (replicate 40 7)) /\
    Z.testbit flags 1 = false.
Proof.
  destruct (clipboard_header_decode (replicate 40 7) 5 10 4 [65; 66; 67] 8160 (mkChunk 0 0 0 0 0 0))
    as (h & flags & Hh & He & _ & _ & Hlast); [concrete..|].
  exists h, flags. split; [exact Hh|]. split; [exact He|].
  apply not_true_iff_false. rewrite Hlast. concrete.
Defined.
