(* ===== verification/Profiles.v ===== *)
(** * Profiles: protocol/plank-transport/include/plank_encoding_profiles.h

    The shared catalogue of encoding profiles: its table, and the lookups by
    bookmark ID, by mode name, by capture source and by explicit dimensions. *)

From S2P Require Import Prelude.

Inductive PlankEncodingBackend := PLANK_ENCODER_X264 | PLANK_ENCODER_NVENC | PLANK_ENCODER_APPLE.
#[export] Instance PlankEncodingBackend_eq_dec : EqDecision PlankEncodingBackend.
Proof. solve_decision. Defined.

(** [enum PlankCapture]: the index of the capture mask's bits. *)
Definition PLANK_SOURCE_NVFBC : Z := 0.
Definition PLANK_SOURCE_X11 : Z := 1.
Definition PLANK_SOURCE_SCK : Z := 2.
Definition PLANK_SOURCE_COUNT : Z := 3.
Definition PLANK_ENCODING_COUNT : Z := 9.

Record PlankEncodingProfile := mkProfile {
  pr_id : Z;
  pr_mode : string; pr_backend : string; pr_codec : string; pr_profile : string;
  pr_chroma : string; pr_matrix : string;
  pr_encoder : PlankEncodingBackend;
  pr_bit_depth : Z; pr_video_format : Z; pr_capture_mask : Z; pr_rgb_identity : Z;
  pr_explicit_width_limit : Z; pr_explicit_height_limit : Z; pr_dimension_alignment : Z;
  pr_default_bitrate_kbps : Z }.

#[export] Instance PlankEncodingProfile_eq_dec : EqDecision PlankEncodingProfile.
Proof. solve_decision. Defined.

Definition plank_encoding_profiles : list PlankEncodingProfile := [
  mkProfile 0 "h264-10-444-software" "software-cuda" "h264" "high444" "4:4:4" "identity" PLANK_ENCODER_X264 10 0x0008 3 1 0 0 1 80000;
  mkProfile 1 "h264-8-422-software" "software-cuda" "h264" "high422" "4:2:2" "bt709" PLANK_ENCODER_X264 8 0x0002 1 0 0 0 1 80000;
  mkProfile 2 "h264-8-444-software" "software-cuda" "h264" "high444" "4:4:4" "identity" PLANK_ENCODER_X264 8 0x0004 1 1 0 0 1 80000;
  mkProfile 3 "h264-10-422-software" "software-cuda" "h264" "high422" "4:2:2" "bt709" PLANK_ENCODER_X264 10 0x0010 1 0 0 0 1 80000;
  mkProfile 4 "h264-8-444-nvenc" "nvenc-direct" "h264" "high444" "4:4:4" "identity" PLANK_ENCODER_NVENC 8 0x0004 1 1 4096 2160 1 80000;
  mkProfile 5 "hevc-8-444-nvenc" "nvenc-direct" "hevc" "rext" "4:4:4" "identity" PLANK_ENCODER_NVENC 8 0x0400 1 1 0 0 1 50000;
  mkProfile 6 "hevc-10-444-nvenc" "nvenc-direct" "hevc" "rext" "4:4:4" "identity" PLANK_ENCODER_NVENC 10 0x0800 3 1 0 0 1 50000;
  mkProfile 7 "hevc-10-420-videotoolbox" "videotoolbox" "hevc" "main10" "4:2:0" "bt709" PLANK_ENCODER_APPLE 10 0x0200 4 0 5120 2160 2 50000;
  mkProfile 8 "hevc-10-444-videotoolbox" "videotoolbox" "hevc" "rext" "4:4:4" "bt709" PLANK_ENCODER_APPLE 10 0x0800 4 0 5120 2160 2 50000 ].

Definition plank_encoding_profile (id : Z) : option PlankEncodingProfile :=
  if (0 <=? id) && (id <? PLANK_ENCODING_COUNT) then load plank_encoding_profiles id else None.

(** The bytes of a C string, without its terminator. *)
Fixpoint c_bytes (s : string) : list Z :=
  match s with
  | EmptyString => []
  | String a s' => Z.of_N (Ascii.N_of_ascii a) :: c_bytes s'
  end.

(** The loop over the table from index [i], [todo] entries left; the result is
    the index of the entry whose address the source returns. *)
Fixpoint named_loop (mode : list Z) (length : Z) (i : Z) (todo : nat) : option (option Z) :=
  match todo with
  | O => Some None
  | S todo' =>
      p ← load plank_encoding_profiles i;
      let name := c_bytes (pr_mode p) in
      same ← (if len name =? length then memcmp_eq mode name length else Some false);
      if (same : bool) then Some (Some i) else named_loop mode length (i + 1) todo'
  end.

Definition plank_encoding_profile_named (mode : option (list Z)) (length : Z)
    : option (option Z) :=
  match mode with
  | None => Some None
  | Some mode => named_loop mode length 0 (Z.to_nat PLANK_ENCODING_COUNT)
  end.

Definition plank_capture_name (capture : Z) : option string :=
  if (0 <=? capture) && (capture <? PLANK_SOURCE_COUNT)
  then load ["nvfbc"; "x11-native10"; "screencapturekit"]%string capture else None.

Definition plank_encoding_supports_capture (profile : option PlankEncodingProfile) (capture : Z)
    : bool :=
  match profile with
  | None => false
  | Some p => (0 <=? capture) && (capture <? PLANK_SOURCE_COUNT) &&
              negb (Z.land (pr_capture_mask p) (Z.shiftl 1 capture) =? 0)
  end.

(** [%] of the source is on positive dimensions. *)
Definition plank_encoding_explicit_dimensions (profile : option PlankEncodingProfile)
    (width height : Z) : bool :=
  match profile with
  | None => false
  | Some p => (0 <? width) && (0 <? height) &&
      ((pr_explicit_width_limit p =? 0) || (width <=? pr_explicit_width_limit p)) &&
      ((pr_explicit_height_limit p =? 0) || (height <=? pr_explicit_height_limit p)) &&
      (Z.rem width (pr_dimension_alignment p) =? 0) &&
      (Z.rem height (pr_dimension_alignment p) =? 0)
  end.

(** ** The lookup by name *)

(** Table entries from index [i] on, by their name's bytes. *)
Definition named_from (mode : list Z) (length : Z) (i k : nat) : Prop :=
  exists p, (i <= k)%nat /\ plank_encoding_profiles !! k = Some p /\
    c_bytes (pr_mode p) = take (Z.to_nat length) mode.

Lemma named_loop_spec mode n todo i :
  0 <= n <= len mode -> (i + todo = length plank_encoding_profiles)%nat ->
  exists r, named_loop mode n (Z.of_nat i) todo = Some r /\
    match r with
    | Some k => exists k', k = Z.of_nat k' /\ named_from mode n i k'
    | None => forall k, ~ named_from mode n i k
    end.
Proof.
  intros Hn. revert i. induction todo as [|todo IH]; intros i Hi.
  { exists None. split; [done|]. intros k (p & ? & Hp%lookup_lt_Some & _). lia. }
  destruct (lookup_lt_is_Some_2 plank_encoding_profiles i) as [p Hp]; [lia|].
  cbn [named_loop]. rewrite load_nat, Hp. cbn [mbind option_bind].
  assert ((if len (c_bytes (pr_mode p)) =? n then memcmp_eq mode (c_bytes (pr_mode p)) n else Some false)
    = Some (bool_decide (c_bytes (pr_mode p) = take (Z.to_nat n) mode))) as ->.
  { destruct (Z.eqb_spec (len (c_bytes (pr_mode p))) n) as [<-|Hne].
    - rewrite memcmp_eq_prefix by lia. rewrite Nat2Z.id.
      f_equal. apply bool_decide_ext. split; congruence.
    - rewrite bool_decide_eq_false_2; [done|]. intros E. apply Hne. rewrite E, length_take. lia. }
  cbn [mbind option_bind]. case_bool_decide as E.
  - exists (Some (Z.of_nat i)). split; [done|]. exists i. split; [done|]. exists p. by split_and!.
  - destruct (IH (S i)) as (r & Hr & Hs); [lia|]. exists r.
    replace (Z.of_nat i + 1) with (Z.of_nat (S i)) by lia. split; [exact Hr|].
    destruct r as [k|].
    + destruct Hs as (k' & -> & p' & ? & ? & ?). exists k'. split; [done|]. exists p'.
      by split_and!; [lia|..].
    + intros k (p' & Hk & Hp' & E'). destruct (decide (k = i)) as [->|]; [congruence|].
      apply (Hs k). exists p'. by split_and!; [lia|..].
Qed.

(** The catalogue as a whole, checked entry by entry. *)
Lemma mode_inj k1 k2 p1 p2 :
  plank_encoding_profiles !! k1 = Some p1 -> plank_encoding_profiles !! k2 = Some p2 ->
  c_bytes (pr_mode p1) = c_bytes (pr_mode p2) -> k1 = k2.
Proof.
  assert (NoDup (map (fun p => c_bytes (pr_mode p)) plank_encoding_profiles)) as Hnd.
  { apply (bool_decide_unpack _). by vm_compute. }
  intros H1 H2 He. eapply NoDup_lookup; [exact Hnd|..]; rewrite list_lookup_fmap.
  - rewrite H1. reflexivity.
  - rewrite H2. cbn. by rewrite He.
Qed.

(** A closed fact about an entry, checked for each of the nine. *)
Ltac by_table H :=
  unfold plank_encoding_profiles in H;
  repeat (apply elem_of_cons in H as [->|H]; [vm_compute; intuition congruence|]);
  by apply elem_of_nil in H.

(** ** Properties *)

(** A lookup by mode name over any buffer of at least [length] bytes stays
    inside the buffer and the table, and returns entry [k] exactly when the first
    [length] bytes are the name of profile [k] (no prefix, suffix or embedded-NUL
    match; at most one such [k]); the ID of that entry is [k] and the lookup by ID
    returns the same entry. *)
Theorem profile_named_exact mode length :
  0 <= length <= len mode ->
  exists r, plank_encoding_profile_named (Some mode) length = Some r /\
    forall k, r = Some k <->
      exists p, plank_encoding_profile k = Some p /\ pr_id p = k /\
        c_bytes (pr_mode p) = take (Z.to_nat length) mode.
Proof.
  intros Hn. destruct (named_loop_spec mode length 9 0 Hn eq_refl) as (r & Hr & Hs).
  exists r. split; [exact Hr|]. intros k.
  assert (forall k p, plank_encoding_profiles !! k = Some p ->
    plank_encoding_profile (Z.of_nat k) = Some p /\ pr_id p = Z.of_nat k) as Hid.
  { intros j p Hp. do 9 (destruct j as [|j]; [by injection Hp as <-|]). done. }
  split.
  - intros ->. destruct Hs as (k' & -> & p & _ & Hp & He). exists p.
    destruct (Hid k' p Hp). by split_and!.
  - intros (p & Hp & _ & He). unfold plank_encoding_profile in Hp. case_match; [|done].
    apply load_inv in Hp as [Hk Hp]. destruct r as [j|].
    + destruct Hs as (j' & -> & p' & _ & Hp' & He'). f_equal.
      assert (j' = Z.to_nat k) as -> by (eapply mode_inj; [done..|congruence]). lia.
    + exfalso. apply (Hs (Z.to_nat k)). exists p. by split_and!; [lia|..].
Qed.

Lemma profile_named_exact_witness :
  exists r, plank_encoding_profile_named (Some (c_bytes "h264-8-444-nvencXX")) 16 = Some r /\
    r = Some 4.
Proof.
  destruct (profile_named_exact (c_bytes "h264-8-444-nvencXX") 16) as (r & Hr & Hk); [concrete|].
  exists r. split; [exact Hr|]. apply Hk. eexists. split; [reflexivity|]. done.
Defined.

(** The catalogue keeps the product policy its comments and
    protocol/encoding-profiles.md state: a backend token and a wire format name at
    most one profile; every profile has a capture source; native X11 capture never
    offers an 8-bit profile; identity GBR is used exactly by the 4:4:4 profiles
    that are not VideoToolbox's; only H.264 NVENC refuses 5120x2160 among explicit
    dimensions, and every accepted dimension respects the profile's alignment. *)
Theorem catalogue_policy i j p q :
  plank_encoding_profile i = Some p -> plank_encoding_profile j = Some q ->
  (pr_backend p = pr_backend q -> pr_video_format p = pr_video_format q -> i = j) /\
  (exists capture, plank_encoding_supports_capture (Some p) capture = true) /\
  (plank_encoding_supports_capture (Some p) PLANK_SOURCE_X11 = true -> pr_bit_depth p = 10) /\
  (pr_rgb_identity p = 1 <-> pr_chroma p = "4:4:4"%string /\ pr_encoder p <> PLANK_ENCODER_APPLE) /\
  (plank_encoding_explicit_dimensions (Some p) 5120 2160 = false <->
     pr_codec p = "h264"%string /\ pr_encoder p = PLANK_ENCODER_NVENC) /\
  (forall w h, plank_encoding_explicit_dimensions (Some p) w h = true ->
     (pr_dimension_alignment p | w) /\ (pr_dimension_alignment p | h)).
Proof.
  intros Hp Hq.
  assert (forall i p, plank_encoding_profile i = Some p -> 0 <= i < 9 /\
    plank_encoding_profiles !! Z.to_nat i = Some p) as Hentry.
  { intros k r Hr. unfold plank_encoding_profile in Hr. case_match; [|done].
    by apply load_inv in Hr as [? ?]. }
  destruct (Hentry i p Hp) as [Hi Hp']. destruct (Hentry j q Hq) as [Hj Hq'].
  split.
  { assert (NoDup (map (fun p => (pr_backend p, pr_video_format p)) plank_encoding_profiles)) as Hnd.
    { apply (bool_decide_unpack _). by vm_compute. }
    intros Hb Hf. assert (Z.to_nat i = Z.to_nat j); [|lia].
    eapply NoDup_lookup; [exact Hnd|..]; rewrite list_lookup_fmap; [by rewrite Hp'|].
    rewrite Hq'. cbn. by rewrite Hb, Hf. }
  apply list_elem_of_lookup_2 in Hp'. clear - Hp'. split_and!.
  - assert (existsb (plank_encoding_supports_capture (Some p)) [0; 1; 2] = true) as H
      by by_table Hp'.
    apply existsb_exists in H as (c & _ & Hc). by exists c.
  - by_table Hp'.
  - by_table Hp'.
  - by_table Hp'.
  - intros w h H. unfold plank_encoding_explicit_dimensions in H. guards.
    assert (pr_dimension_alignment p <> 0) by by_table Hp'.
    rewrite <- !Z.rem_divide by done. lia.
Qed.

Lemma catalogue_policy_witness :
  exists p, plank_encoding_profile 8 = Some p /\
    (plank_encoding_explicit_dimensions (Some p) 3840 2160 = true -> (2 | 3840)).
Proof.
  eexists. split; [reflexivity|].
  destruct (catalogue_policy 8 8 _ _ eq_refl eq_refl) as (_ & _ & _ & _ & _ & H).
  intros Hd. destruct (H _ _ Hd) as [Hw _]. exact Hw.
Defined.
