(* ===== verification/CameraWire.v ===== *)
(** * CameraWire: protocol/plank-transport/include/plank_transport_camera.h and
    plank_transport_camera_encoded.h

    The 64-byte PCAM headers of a camera frame, version 1 (device buffers) and
    version 2 (VideoToolbox H.264), and the camera control packets. *)

From S2P Require Import Prelude.
From S2P Require Import Endian.
From S2P Require Import ControlWire.
From S2P Require Import Wire.

Definition PLANK_CAMERA_HEADER_BYTES : Z := 64.
Definition PLANK_CAMERA_MAX_FRAME_BYTES : Z := 4 * 1024 * 1024.
Definition PLANK_CAMERA_H264 : Z := 0x48323634.
Definition PLANK_CAMERA_MJPEG : Z := 0x4d4a5047.
Definition PLANK_CAMERA_KEY_FRAME : Z := 1.
Definition PLANK_CAMERA_DISCONTINUITY : Z := 2.

(** "PCAM". *)
Definition pcam : list Z := [0x50; 0x43; 0x41; 0x4d].

Definition plank_camera_read_u64 := read_u64.
Definition plank_camera_write_u64 := write_u64.

(** [flags & ~(KEY_FRAME | DISCONTINUITY)] *)
Definition other_flags (flags : Z) : Z :=
  Z.land flags (UINT32_MAX - Z.lor PLANK_CAMERA_KEY_FRAME PLANK_CAMERA_DISCONTINUITY).

Module V1.

Record PlankCameraHeader := mk {
  generation : Z; sequence : Z; capture_time_us : Z;
  codec : Z; colorspace : Z; transfer : Z; ycbcr : Z; quantization : Z; driver_sequence : Z;
  width : Z; height : Z;
  flags : Z }.

Definition zero : PlankCameraHeader := mk 0 0 0 0 0 0 0 0 0 0 0 0.

Definition plank_camera_header_valid (header : option PlankCameraHeader) (payload_size : Z) : bool :=
  match header with
  | None => false
  | Some h =>
      negb (payload_size =? 0) && (payload_size <=? PLANK_CAMERA_MAX_FRAME_BYTES) &&
      negb (generation h =? 0) && negb (sequence h =? UINT64_MAX) &&
      negb (capture_time_us h =? 0) && (capture_time_us h <=? INT64_MAX / 1000) &&
      ((codec h =? PLANK_CAMERA_H264) || (codec h =? PLANK_CAMERA_MJPEG)) &&
      (((width h =? 1280) && (height h =? 720)) || ((width h =? 1920) && (height h =? 1080))) &&
      (other_flags (flags h) =? 0) &&
      (negb (codec h =? PLANK_CAMERA_MJPEG) ||
       negb (Z.land (flags h) PLANK_CAMERA_KEY_FRAME =? 0)) &&
      (colorspace h <=? 12) && (transfer h <=? 7) && (ycbcr h <=? 8) && (quantization h <=? 2)
  end.

Definition plank_camera_header_encode (header : option PlankCameraHeader) (payload_size : Z)
    (output : option (list Z)) (capacity : Z) : option (Z * option (list Z)) :=
  let failure := Some (-1, output) in
  match output, header with
  | Some out, Some h =>
      stop_if (capacity <? PLANK_CAMERA_HEADER_BYTES) ||
              negb (plank_camera_header_valid header payload_size) with failure;
      out ← fill out 0 PLANK_CAMERA_HEADER_BYTES 0;
      out ← copy_to out 0 pcam;
      out ← store out 4 1; out ← store out 5 (flags h);
      out ← store out 7 PLANK_CAMERA_HEADER_BYTES;
      out ← plank_camera_write_u64 out 8 (generation h);
      out ← plank_camera_write_u64 out 16 (sequence h);
      out ← plank_camera_write_u64 out 24 (capture_time_us h);
      out ← plank_transport_control_write_u32 out 32 (codec h);
      out ← plank_transport_control_write_u16 out 36 (width h);
      out ← plank_transport_control_write_u16 out 38 (height h);
      out ← plank_transport_control_write_u32 out 40 (colorspace h);
      out ← plank_transport_control_write_u32 out 44 (transfer h);
      out ← plank_transport_control_write_u32 out 48 (ycbcr h);
      out ← plank_transport_control_write_u32 out 52 (quantization h);
      out ← plank_transport_control_write_u32 out 56 (driver_sequence h);
      Some (0, Some out)
  | _, _ => failure
  end.

(** A null [header] writes nothing ([None]); any other is first zeroed. *)
Definition plank_camera_header_decode (record : option (list Z)) (size : Z)
    (header : option PlankCameraHeader) : option (Z * option PlankCameraHeader) :=
  match header with
  | None => Some (-1, None)
  | Some _ =>
      let failure := Some (-1, Some zero) in
      match record with
      | None => failure
      | Some r =>
          stop_if (size <=? PLANK_CAMERA_HEADER_BYTES) ||
                  (PLANK_CAMERA_HEADER_BYTES + PLANK_CAMERA_MAX_FRAME_BYTES <? size) with failure;
          same ← memcmp_eq r pcam 4;
          b4 ← load r 4; b6 ← load r 6; b7 ← load r 7;
          reserved ← plank_transport_control_read_u32 r 60;
          stop_if negb same || negb (b4 =? 1) || negb (b6 =? 0) ||
                  negb (b7 =? PLANK_CAMERA_HEADER_BYTES) || negb (reserved =? 0) with failure;
          flags ← load r 5;
          generation ← plank_camera_read_u64 r 8;
          sequence ← plank_camera_read_u64 r 16;
          capture_time_us ← plank_camera_read_u64 r 24;
          codec ← plank_transport_control_read_u32 r 32;
          width ← plank_transport_control_read_u16 r 36;
          height ← plank_transport_control_read_u16 r 38;
          colorspace ← plank_transport_control_read_u32 r 40;
          transfer ← plank_transport_control_read_u32 r 44;
          ycbcr ← plank_transport_control_read_u32 r 48;
          quantization ← plank_transport_control_read_u32 r 52;
          driver_sequence ← plank_transport_control_read_u32 r 56;
          let value := mk generation sequence capture_time_us codec colorspace transfer ycbcr
                         quantization driver_sequence width height flags in
          stop_if negb (plank_camera_header_valid (Some value) (size - PLANK_CAMERA_HEADER_BYTES))
          with failure;
          Some (0, Some value)
      end
  end.

(** *** Layout *)

(** The fields of any 64-byte header: [magic], version, size and reserved fields
    are arbitrary, the others are those of [h]. *)
Definition fields (magic version b6 b7 reserved : Z) (h : PlankCameraHeader) : list field :=
  [F32 magic; F8 version; F8 (flags h); F8 b6; F8 b7;
   F64 (generation h); F64 (sequence h); F64 (capture_time_us h);
   F32 (codec h); F16 (width h); F16 (height h); F32 (colorspace h); F32 (transfer h);
   F32 (ycbcr h); F32 (quantization h); F32 (driver_sequence h); F32 reserved].

Definition layout (h : PlankCameraHeader) : list Z := header (fields 0x5043414d 1 0 64 0 h).

Definition ranges_ok (h : PlankCameraHeader) : Prop :=
  in_range 64 (generation h) /\ in_range 64 (sequence h) /\ in_range 64 (capture_time_us h) /\
  in_range 32 (codec h) /\ in_range 32 (colorspace h) /\ in_range 32 (transfer h) /\
  in_range 32 (ycbcr h) /\ in_range 32 (quantization h) /\ in_range 32 (driver_sequence h) /\
  in_range 16 (width h) /\ in_range 16 (height h) /\ is_byte (flags h).

Lemma v1_encode_layout h n out capacity :
  ranges_ok h -> plank_camera_header_valid (Some h) n = true ->
  64 <= capacity -> (64 <= length out)%nat ->
  plank_camera_header_encode (Some h) n (Some out) capacity
  = Some (0, Some (layout h ++ drop 64 out)).
Proof.
  intros Hr Hv Hc Hl. destruct (split_prefix out 64) as (pre & rest & -> & Hpre); [lia|].
  rewrite drop_app_length' by done. unfold plank_camera_header_encode.
  rewrite Hv. unfold PLANK_CAMERA_HEADER_BYTES. rewrite (proj2 (Z.ltb_ge _ _)) by lia.
  cbn [orb negb].
  unfold plank_camera_write_u64, plank_transport_control_write_u32,
    plank_transport_control_write_u16, store, fill, pcam.
  explode pre. clear. mem_eval. reflexivity.
Qed.

(** What the decoder does to a record with any header fields. *)
Lemma v1_decode_fields magic version b6 b7 reserved h payload d :
  in_range 32 magic -> in_range 32 reserved -> ranges_ok h ->
  plank_camera_header_decode (Some (header (fields magic version b6 b7 reserved h) ++ payload))
    (64 + len payload) (Some d)
  = if (magic =? 0x5043414d) && (version =? 1) && (b6 =? 0) && (b7 =? 64) && (reserved =? 0) &&
       plank_camera_header_valid (Some h) (len payload)
    then Some (0, Some h) else Some (-1, Some zero).
Proof.
  intros Hm Hr (? & ? & ? & ? & ? & ? & ? & ? & ? & ? & ? & ?).
  unfold plank_camera_header_decode, plank_camera_read_u64, plank_transport_control_read_u32,
    plank_transport_control_read_u16.
  set (fs := fields magic version b6 b7 reserved h).
  unfold PLANK_CAMERA_HEADER_BYTES.
  destruct (Z.leb_spec (64 + len payload) 64) as [E|E]; cbn [orb].
  { assert (plank_camera_header_valid (Some h) (len payload) = false) as ->
      by (unfold plank_camera_header_valid; by rewrite (proj2 (Z.eqb_eq (len payload) 0)) by lia).
    by rewrite andb_false_r. }
  destruct (Z.ltb_spec (64 + PLANK_CAMERA_MAX_FRAME_BYTES) (64 + len payload)).
  { assert (plank_camera_header_valid (Some h) (len payload) = false) as ->
      by (unfold plank_camera_header_valid;
          by rewrite (proj2 (Z.leb_gt (len payload) _)), andb_false_r by lia).
    by rewrite andb_false_r. }
  assert (memcmp_eq (header fs ++ payload) pcam 4 = Some (magic =? 0x5043414d)) as ->
    by exact (memcmp_tag magic _ payload 0x5043414d Hm ltac:(done)).
  rewrite (load_field8 fs _ 4 version), (load_field8 fs _ 6 b6), (load_field8 fs _ 7 b7),
    (load_field8 fs _ 5 (flags h)), (read_field32 fs _ 60 reserved),
    (read_field64 fs _ 8 (generation h)), (read_field64 fs _ 16 (sequence h)),
    (read_field64 fs _ 24 (capture_time_us h)), (read_field32 fs _ 32 (codec h)),
    (read_field16 fs _ 36 (width h)), (read_field16 fs _ 38 (height h)),
    (read_field32 fs _ 40 (colorspace h)), (read_field32 fs _ 44 (transfer h)),
    (read_field32 fs _ 48 (ycbcr h)), (read_field32 fs _ 52 (quantization h)),
    (read_field32 fs _ 56 (driver_sequence h)) by done.
  cbn [mbind option_bind].
  replace (64 + len payload - 64) with (len payload) by lia.
  destruct h. cbn [flags generation sequence capture_time_us codec width height colorspace transfer
    ycbcr quantization driver_sequence].
  destruct (magic =? _), (version =? 1), (b6 =? 0), (b7 =? 64), (reserved =? 0); cbn [negb orb andb];
    try done.
  by destruct (plank_camera_header_valid _ _).
Qed.

(** Every record of at least 64 bytes has such fields. *)
Lemma v1_fields_of_bytes pre :
  bytes pre -> length pre = 64%nat ->
  exists magic version b6 b7 reserved h, in_range 32 magic /\ in_range 32 reserved /\
    ranges_ok h /\ pre = header (fields magic version b6 b7 reserved h).
Proof.
  intros Hb Hl. by_template (fields 0 0 0 0 0 zero) pre; [by rewrite Hl|].
  exists o, o0, o2, o3, o15, (mk o4 o5 o6 o7 o10 o11 o12 o13 o14 o8 o9 o1).
  by split_and!.
Qed.

Lemma v1_decode_sound r d :
  bytes r ->
  plank_camera_header_decode (Some r) (len r) (Some d) = Some (-1, Some zero) \/
  exists h payload, plank_camera_header_decode (Some r) (len r) (Some d) = Some (0, Some h) /\
    ranges_ok h /\ plank_camera_header_valid (Some h) (len payload) = true /\
    r = layout h ++ payload.
Proof.
  intros Hb. destruct (Z.leb_spec (len r) 64).
  { left. unfold plank_camera_header_decode, PLANK_CAMERA_HEADER_BYTES.
    by rewrite (proj2 (Z.leb_le (len r) 64)). }
  destruct (split_prefix r 64) as (pre & payload & -> & Hpre); [lia|].
  apply Forall_app in Hb as [Hb _].
  destruct (v1_fields_of_bytes pre Hb Hpre) as (m & v & b6 & b7 & rs & h & ? & ? & ? & ->).
  replace (len (header _ ++ payload)) with (64 + len payload) by (rewrite length_app, Hpre; lia).
  rewrite v1_decode_fields by done.
  destruct (_ && plank_camera_header_valid _ _) eqn:E; [right|by left].
  guards. exists h, payload. split_and!; [done..|].
  unfold layout. repeat f_equal; lia.
Qed.

Lemma v1_layout_length h : length (layout h) = 64%nat.
Proof. apply Nat2Z.inj. unfold layout. rewrite header_length. done. Qed.

Lemma v1_decode_complete h payload d :
  ranges_ok h -> plank_camera_header_valid (Some h) (len payload) = true ->
  plank_camera_header_decode (Some (layout h ++ payload)) (len (layout h ++ payload)) (Some d)
  = Some (0, Some h).
Proof.
  intros Hr Hv. rewrite length_app, v1_layout_length, Nat2Z.inj_add.
  unfold layout. change (Z.of_nat 64) with 64. rewrite v1_decode_fields by done.
  by rewrite Hv.
Qed.
End V1.

Module V2.

Definition PLANK_CAMERA_MACOS : Z := 1.
Definition PLANK_CAMERA_VIDEOTOOLBOX_HARDWARE : Z := 1.
Definition PLANK_CAMERA_NV12 : Z := 1.
Definition PLANK_CAMERA_BT709 : Z := 1.
Definition PLANK_CAMERA_LIMITED_RANGE : Z := 1.

Record PlankEncodedCameraHeader := mk {
  generation : Z; sequence : Z; capture_time_us : Z;
  codec : Z; platform : Z; encoder : Z; source_pixel_format : Z;
  width : Z; height : Z; nominal_fps : Z;
  flags : Z; primaries : Z; transfer : Z; matrix : Z; range : Z }.

Definition zero : PlankEncodedCameraHeader := mk 0 0 0 0 0 0 0 0 0 0 0 0 0 0 0.

Definition plank_encoded_camera_header_valid (header : option PlankEncodedCameraHeader)
    (payload : Z) : bool :=
  match header with
  | None => false
  | Some h =>
      negb (payload =? 0) && (payload <=? PLANK_CAMERA_MAX_FRAME_BYTES) &&
      negb (generation h =? 0) && negb (sequence h =? UINT64_MAX) &&
      negb (capture_time_us h =? 0) && (capture_time_us h <=? INT64_MAX / 1000) &&
      (codec h =? PLANK_CAMERA_H264) && (width h =? 1280) && (height h =? 720) &&
      (other_flags (flags h) =? 0) &&
      (platform h =? PLANK_CAMERA_MACOS) &&
      (encoder h =? PLANK_CAMERA_VIDEOTOOLBOX_HARDWARE) &&
      (source_pixel_format h =? PLANK_CAMERA_NV12) && (primaries h =? PLANK_CAMERA_BT709) &&
      (transfer h =? PLANK_CAMERA_BT709) && (matrix h =? PLANK_CAMERA_BT709) &&
      (range h =? PLANK_CAMERA_LIMITED_RANGE) && (nominal_fps h =? 30)
  end.

Definition plank_encoded_camera_header_encode (header : option PlankEncodedCameraHeader)
    (payload : Z) (out : option (list Z)) (capacity : Z) : option (Z * option (list Z)) :=
  let failure := Some (-1, out) in
  match out, header with
  | Some out, Some h =>
      stop_if (capacity <? PLANK_CAMERA_HEADER_BYTES) ||
              negb (plank_encoded_camera_header_valid header payload) with failure;
      out ← fill out 0 PLANK_CAMERA_HEADER_BYTES 0;
      out ← copy_to out 0 pcam;
      out ← store out 4 2; out ← store out 5 (flags h);
      out ← store out 7 PLANK_CAMERA_HEADER_BYTES;
      out ← plank_camera_write_u64 out 8 (generation h);
      out ← plank_camera_write_u64 out 16 (sequence h);
      out ← plank_camera_write_u64 out 24 (capture_time_us h);
      out ← plank_transport_control_write_u32 out 32 (codec h);
      out ← plank_transport_control_write_u16 out 36 (width h);
      out ← plank_transport_control_write_u16 out 38 (height h);
      out ← plank_transport_control_write_u32 out 40 (platform h);
      out ← plank_transport_control_write_u32 out 44 (encoder h);
      out ← plank_transport_control_write_u32 out 48 (source_pixel_format h);
      out ← store out 52 (primaries h); out ← store out 53 (transfer h);
      out ← store out 54 (matrix h); out ← store out 55 (range h);
      out ← plank_transport_control_write_u16 out 56 (nominal_fps h);
      Some (0, Some out)
  | _, _ => failure
  end.

Definition plank_encoded_camera_header_decode (record : option (list Z)) (size : Z)
    (header : option PlankEncodedCameraHeader) : option (Z * option PlankEncodedCameraHeader) :=
  match header with
  | None => Some (-1, None)
  | Some _ =>
      let failure := Some (-1, Some zero) in
      match record with
      | None => failure
      | Some r =>
          stop_if (size <=? PLANK_CAMERA_HEADER_BYTES) ||
                  (PLANK_CAMERA_HEADER_BYTES + PLANK_CAMERA_MAX_FRAME_BYTES <? size) with failure;
          same ← memcmp_eq r pcam 4;
          b4 ← load r 4; b6 ← load r 6; b7 ← load r 7;
          r58 ← plank_transport_control_read_u16 r 58;
          r60 ← plank_transport_control_read_u32 r 60;
          stop_if negb same || negb (b4 =? 2) || negb (b6 =? 0) ||
                  negb (b7 =? PLANK_CAMERA_HEADER_BYTES) || negb (r58 =? 0) || negb (r60 =? 0)
          with failure;
          flags ← load r 5;
          generation ← plank_camera_read_u64 r 8;
          sequence ← plank_camera_read_u64 r 16;
          capture_time_us ← plank_camera_read_u64 r 24;
          codec ← plank_transport_control_read_u32 r 32;
          width ← plank_transport_control_read_u16 r 36;
          height ← plank_transport_control_read_u16 r 38;
          platform ← plank_transport_control_read_u32 r 40;
          encoder ← plank_transport_control_read_u32 r 44;
          source_pixel_format ← plank_transport_control_read_u32 r 48;
          primaries ← load r 52; transfer ← load r 53; matrix ← load r 54; range ← load r 55;
          nominal_fps ← plank_transport_control_read_u16 r 56;
          let h := mk generation sequence capture_time_us codec platform encoder
                      source_pixel_format width height nominal_fps flags primaries transfer
                      matrix range in
          stop_if negb (plank_encoded_camera_header_valid (Some h) (size - PLANK_CAMERA_HEADER_BYTES))
          with failure;
          Some (0, Some h)
      end
  end.

(** *** Layout *)

Definition fields (magic version b6 b7 r58 r60 : Z) (h : PlankEncodedCameraHeader) : list field :=
  [F32 magic; F8 version; F8 (flags h); F8 b6; F8 b7;
   F64 (generation h); F64 (sequence h); F64 (capture_time_us h);
   F32 (codec h); F16 (width h); F16 (height h); F32 (platform h); F32 (encoder h);
   F32 (source_pixel_format h); F8 (primaries h); F8 (transfer h); F8 (matrix h); F8 (range h);
   F16 (nominal_fps h); F16 r58; F32 r60].

Definition layout (h : PlankEncodedCameraHeader) : list Z :=
  header (fields 0x5043414d 2 0 64 0 0 h).

Definition ranges_ok (h : PlankEncodedCameraHeader) : Prop :=
  in_range 64 (generation h) /\ in_range 64 (sequence h) /\ in_range 64 (capture_time_us h) /\
  in_range 32 (codec h) /\ in_range 32 (platform h) /\ in_range 32 (encoder h) /\
  in_range 32 (source_pixel_format h) /\ in_range 16 (width h) /\ in_range 16 (height h) /\
  in_range 16 (nominal_fps h) /\ is_byte (flags h) /\ is_byte (primaries h) /\
  is_byte (transfer h) /\ is_byte (matrix h) /\ is_byte (range h).

Lemma v2_encode_layout h n out capacity :
  ranges_ok h -> plank_encoded_camera_header_valid (Some h) n = true ->
  64 <= capacity -> (64 <= length out)%nat ->
  plank_encoded_camera_header_encode (Some h) n (Some out) capacity
  = Some (0, Some (layout h ++ drop 64 out)).
Proof.
  intros Hr Hv Hc Hl. destruct (split_prefix out 64) as (pre & rest & -> & Hpre); [lia|].
  rewrite drop_app_length' by done. unfold plank_encoded_camera_header_encode.
  rewrite Hv. unfold PLANK_CAMERA_HEADER_BYTES. rewrite (proj2 (Z.ltb_ge _ _)) by lia.
  cbn [orb negb].
  unfold plank_camera_write_u64, plank_transport_control_write_u32,
    plank_transport_control_write_u16, store, fill, pcam.
  explode pre. clear. mem_eval. reflexivity.
Qed.

(** What the decoder does to a record with any header fields. *)
Lemma v2_decode_fields magic version b6 b7 r58 r60 h payload d :
  in_range 32 magic -> in_range 16 r58 -> in_range 32 r60 -> ranges_ok h ->
  plank_encoded_camera_header_decode (Some (header (fields magic version b6 b7 r58 r60 h) ++ payload))
    (64 + len payload) (Some d)
  = if (magic =? 0x5043414d) && (version =? 2) && (b6 =? 0) && (b7 =? 64) && (r58 =? 0) && (r60 =? 0) &&
       plank_encoded_camera_header_valid (Some h) (len payload)
    then Some (0, Some h) else Some (-1, Some zero).
Proof.
  intros Hm Hr58 Hr60 (? & ? & ? & ? & ? & ? & ? & ? & ? & ? & ? & ? & ? & ? & ?).
  unfold plank_encoded_camera_header_decode, plank_camera_read_u64, plank_transport_control_read_u32,
    plank_transport_control_read_u16.
  set (fs := fields magic version b6 b7 r58 r60 h).
  unfold PLANK_CAMERA_HEADER_BYTES.
  destruct (Z.leb_spec (64 + len payload) 64) as [E|E]; cbn [orb].
  { assert (plank_encoded_camera_header_valid (Some h) (len payload) = false) as ->
      by (unfold plank_encoded_camera_header_valid; by rewrite (proj2 (Z.eqb_eq (len payload) 0)) by lia).
    by rewrite andb_false_r. }
  destruct (Z.ltb_spec (64 + PLANK_CAMERA_MAX_FRAME_BYTES) (64 + len payload)).
  { assert (plank_encoded_camera_header_valid (Some h) (len payload) = false) as ->
      by (unfold plank_encoded_camera_header_valid;
          by rewrite (proj2 (Z.leb_gt (len payload) _)), andb_false_r by lia).
    by rewrite andb_false_r. }
  assert (memcmp_eq (header fs ++ payload) pcam 4 = Some (magic =? 0x5043414d)) as ->
    by exact (memcmp_tag magic _ payload 0x5043414d Hm ltac:(done)).
  rewrite (load_field8 fs _ 4 version), (load_field8 fs _ 6 b6), (load_field8 fs _ 7 b7),
    (load_field8 fs _ 5 (flags h)), (read_field16 fs _ 58 r58), (read_field32 fs _ 60 r60),
    (read_field64 fs _ 8 (generation h)), (read_field64 fs _ 16 (sequence h)),
    (read_field64 fs _ 24 (capture_time_us h)), (read_field32 fs _ 32 (codec h)),
    (read_field16 fs _ 36 (width h)), (read_field16 fs _ 38 (height h)),
    (read_field32 fs _ 40 (platform h)), (read_field32 fs _ 44 (encoder h)),
    (read_field32 fs _ 48 (source_pixel_format h)), (load_field8 fs _ 52 (primaries h)),
    (load_field8 fs _ 53 (transfer h)), (load_field8 fs _ 54 (matrix h)),
    (load_field8 fs _ 55 (range h)), (read_field16 fs _ 56 (nominal_fps h)) by done.
  cbn [mbind option_bind].
  replace (64 + len payload - 64) with (len payload) by lia.
  destruct h. cbn [flags generation sequence capture_time_us codec width height platform encoder
    source_pixel_format primaries transfer matrix range nominal_fps].
  destruct (magic =? _), (version =? 2), (b6 =? 0), (b7 =? 64), (r58 =? 0), (r60 =? 0); cbn [negb orb andb];
    try done.
  by destruct (plank_encoded_camera_header_valid _ _).
Qed.

(** Every record of at least 64 bytes has such fields. *)
Lemma v2_fields_of_bytes pre :
  bytes pre -> length pre = 64%nat ->
  exists magic version b6 b7 r58 r60 h, in_range 32 magic /\ in_range 16 r58 /\ in_range 32 r60 /\
    ranges_ok h /\ pre = header (fields magic version b6 b7 r58 r60 h).
Proof.
  intros Hb Hl. by_template (fields 0 0 0 0 0 0 zero) pre; [by rewrite Hl|].
  exists o, o0, o2, o3, o18, o19, (mk o4 o5 o6 o7 o10 o11 o12 o8 o9 o17 o1 o13 o14 o15 o16).
  by split_and!.
Qed.

Lemma v2_decode_sound r d :
  bytes r ->
  plank_encoded_camera_header_decode (Some r) (len r) (Some d) = Some (-1, Some zero) \/
  exists h payload, plank_encoded_camera_header_decode (Some r) (len r) (Some d) = Some (0, Some h) /\
    ranges_ok h /\ plank_encoded_camera_header_valid (Some h) (len payload) = true /\
    r = layout h ++ payload.
Proof.
  intros Hb. destruct (Z.leb_spec (len r) 64).
  { left. unfold plank_encoded_camera_header_decode, PLANK_CAMERA_HEADER_BYTES.
    by rewrite (proj2 (Z.leb_le (len r) 64)). }
  destruct (split_prefix r 64) as (pre & payload & -> & Hpre); [lia|].
  apply Forall_app in Hb as [Hb _].
  destruct (v2_fields_of_bytes pre Hb Hpre) as (m & v & b6 & b7 & r58 & r60 & h & ? & ? & ? & ? & ->).
  replace (len (header _ ++ payload)) with (64 + len payload) by (rewrite length_app, Hpre; lia).
  rewrite v2_decode_fields by done.
  destruct (_ && plank_encoded_camera_header_valid _ _) eqn:E; [right|by left].
  guards. exists h, payload. split_and!; [done..|].
  unfold layout. repeat f_equal; lia.
Qed.

Lemma v2_layout_length h : length (layout h) = 64%nat.
Proof. apply Nat2Z.inj. unfold layout. rewrite header_length. done. Qed.

Lemma v2_decode_complete h payload d :
  ranges_ok h -> plank_encoded_camera_header_valid (Some h) (len payload) = true ->
  plank_encoded_camera_header_decode (Some (layout h ++ payload)) (len (layout h ++ payload)) (Some d)
  = Some (0, Some h).
Proof.
  intros Hr Hv. rewrite length_app, v2_layout_length, Nat2Z.inj_add.
  unfold layout. change (Z.of_nat 64) with 64. rewrite v2_decode_fields by done.
  by rewrite Hv.
Qed.
End V2.

(** ** Camera control packets *)

(** [payload] is what [packet->payload] points at; the result is the returned
    [int] and the objects behind [generation] and [value]. *)
Definition plank_camera_control_decode (packet : option PlankTransportControlPacket)
    (payload : option (list Z)) (generation value : option Z) : option (Z * option Z * option Z) :=
  match packet, payload, generation, value with
  | Some p, Some b, Some _, Some _ =>
      let failure := Some (-1, Some 0, Some 0) in
      let type := control_type p in
      stop_if (negb (type =? PLANK_TRANSPORT_CONTROL_SET_CAMERA) &&
               negb (type =? PLANK_TRANSPORT_CONTROL_CAMERA_APPLIED) &&
               negb (type =? PLANK_TRANSPORT_CONTROL_CAMERA_KEYFRAME)) ||
              negb (control_payload_size p =?
                    (if type =? PLANK_TRANSPORT_CONTROL_CAMERA_KEYFRAME then 8 else 12))
      with failure;
      command ← plank_camera_read_u64 b 0;
      state ← (if control_payload_size p =? 12 then plank_transport_control_read_u32 b 8 else Some 0);
      stop_if (command =? 0) || (command =? UINT64_MAX) ||
              ((type =? PLANK_TRANSPORT_CONTROL_SET_CAMERA) &&
               (PLANK_TRANSPORT_CAMERA_ENABLED <? state)) ||
              ((type =? PLANK_TRANSPORT_CONTROL_CAMERA_APPLIED) &&
               (PLANK_TRANSPORT_CAMERA_UNAVAILABLE <? state))
      with failure;
      Some (0, Some command, Some state)
  | _, _, _, _ => Some (-1, generation, value)
  end.

(** A camera command as the protocol means it, and its payload. *)
Definition camera_command (type generation value : Z) : Prop :=
  0 < generation < UINT64_MAX /\
  (type = PLANK_TRANSPORT_CONTROL_SET_CAMERA /\ 0 <= value <= 1 \/
   type = PLANK_TRANSPORT_CONTROL_CAMERA_APPLIED /\ 0 <= value <= 3 \/
   type = PLANK_TRANSPORT_CONTROL_CAMERA_KEYFRAME /\ value = 0).

Definition command_payload (type generation value : Z) : list Z :=
  be64 generation ++
  (if type =? PLANK_TRANSPORT_CONTROL_CAMERA_KEYFRAME then [] else be32 value).

Lemma command_complete type g v at_ :
  camera_command type g v ->
  plank_camera_control_decode
    (Some (mkControlPacket type at_ (len (command_payload type g v))))
    (Some (command_payload type g v)) (Some 0) (Some 0) = Some (0, Some g, Some v).
Proof.
  intros [Hg Hc]. assert (in_range 64 g) as Hg' by (ranges; lia).
  assert (in_range 32 v) as Hv by (destruct Hc as [[_ ?]|[[_ ?]|[_ ?]]]; ranges; lia).
  assert (forall rest, read_u64 (be64 g ++ rest) 0 = Some g) as R0
    by (intros; by apply (read_u64_be64 [])).
  assert (read_u32 (be64 g ++ be32 v) 8 = Some v) as R8
    by (rewrite <- (app_nil_r (be32 v)); by apply (read_u32_be32 (be64 g))).
  assert (len (command_payload type g v) =
    if type =? PLANK_TRANSPORT_CONTROL_CAMERA_KEYFRAME then 8 else 12) as Hlen
    by (unfold command_payload; by destruct (type =? _)).
  unfold plank_camera_control_decode, plank_camera_read_u64, plank_transport_control_read_u32.
  cbn [control_type control_payload_size]. rewrite Hlen. unfold command_payload. rewrite R0.
  assert ((g =? 0) = false /\ (g =? UINT64_MAX) = false) as [Eg0 Eg1] by lia.
  destruct Hc as [[-> Hs]|[[-> Hs]|[-> ->]]];
    cbn [Z.eqb Pos.eqb negb andb orb mbind option_bind
         PLANK_TRANSPORT_CONTROL_SET_CAMERA PLANK_TRANSPORT_CONTROL_CAMERA_APPLIED
         PLANK_TRANSPORT_CONTROL_CAMERA_KEYFRAME]; rewrite ?R8; cbn [mbind option_bind];
    rewrite Eg0, Eg1; cbn [orb andb]; [..|done];
    rewrite (proj2 (Z.ltb_ge _ _)) by apply Hs; done.
Qed.

Lemma command_sound type at_ b :
  bytes b -> 
  plank_camera_control_decode (Some (mkControlPacket type at_ (len b))) (Some b) (Some 0) (Some 0)
    = Some (-1, Some 0, Some 0) \/
  exists g v, plank_camera_control_decode (Some (mkControlPacket type at_ (len b))) (Some b)
      (Some 0) (Some 0) = Some (0, Some g, Some v) /\
    camera_command type g v /\ b = command_payload type g v.
Proof.
  intros Hb.
  assert (type = 12 /\ len b = 8 \/ (type = 10 \/ type = 11) /\ len b = 12 \/
    (negb (type =? 10) && negb (type =? 11) && negb (type =? 12)) ||
      negb (len b =? (if type =? 12 then 8 else 12)) = true) as [[-> Hl]|[[Ht Hl]|Hbad]].
  { destruct (Z.eqb_spec type 12), (Z.eqb_spec type 10), (Z.eqb_spec type 11); lia. }
  - by_template [F64 0] b. subst b. rename o into g.
    destruct (decide (0 < g < UINT64_MAX)) as [Hg|Hg].
    + right. exists g, 0. change (header [F64 g]) with (command_payload 12 g 0).
      assert (camera_command 12 g 0) by (split; [done|tauto]).
      split_and!; [by apply command_complete|done..].
    + left. unfold plank_camera_control_decode, plank_camera_read_u64.
      rewrite <- (app_nil_r (header [F64 g])), (read_field64 [F64 g] [] 0 g) by done.
      cbn. ranges. by replace ((g =? 0) || (g =? 18446744073709551615)) with true by lia.
  - by_template [F64 0; F32 0] b. subst b. rename o into g, o0 into v.
    destruct (decide (0 < g < UINT64_MAX /\ v <= (if type =? 10 then 1 else 3))) as [[Hg Hv]|Hbad].
    + right. exists g, v.
      assert (header [F64 g; F32 v] = command_payload type g v) as ->
        by (destruct Ht as [-> | ->]; done).
      assert (camera_command type g v).
      { split; [done|]. assert (0 <= v) by (ranges; lia).
        destruct Ht as [-> | ->]; cbn in Hv; [left|right; left]; (split; [done|lia]). }
      split_and!; [by apply command_complete|done..].
    + left. unfold plank_camera_control_decode, plank_camera_read_u64, plank_transport_control_read_u32.
      cbn [control_type control_payload_size]. rewrite Hl.
      rewrite <- (app_nil_r (header [F64 g; F32 v])),
        (read_field64 [F64 g; F32 v] [] 0 g), (read_field32 [F64 g; F32 v] [] 8 v) by done.
      destruct Ht as [-> | ->];
        cbn [Z.eqb Pos.eqb negb andb orb mbind option_bind
          PLANK_TRANSPORT_CONTROL_SET_CAMERA PLANK_TRANSPORT_CONTROL_CAMERA_APPLIED
          PLANK_TRANSPORT_CONTROL_CAMERA_KEYFRAME] in Hbad |- *;
        unfold PLANK_TRANSPORT_CAMERA_ENABLED, PLANK_TRANSPORT_CAMERA_UNAVAILABLE; ranges;
        (case_match eqn:E; [done|]); exfalso; apply Hbad; lia.
  - left. unfold plank_camera_control_decode, PLANK_TRANSPORT_CONTROL_SET_CAMERA,
      PLANK_TRANSPORT_CONTROL_CAMERA_APPLIED, PLANK_TRANSPORT_CONTROL_CAMERA_KEYFRAME.
    cbn [control_type control_payload_size]. by rewrite Hbad.
Qed.

(** ** Properties *)

(** C24: over one arbitrary received record both camera header decoders stay inside
    the record; version 1 accepts exactly the 64-byte PCAM v1 layout of a valid
    header followed by its payload, version 2 exactly the v2 layout, no record is
    accepted by both, and a refused record leaves a zeroed header. *)
Theorem camera_decode_exact r d1 d2 :
  bytes r ->
  exists r1 h1 r2 h2,
    V1.plank_camera_header_decode (Some r) (len r) (Some d1) = Some (r1, Some h1) /\
    V2.plank_encoded_camera_header_decode (Some r) (len r) (Some d2) = Some (r2, Some h2) /\
    (r1 = 0 \/ r1 = -1 /\ h1 = V1.zero) /\ (r2 = 0 \/ r2 = -1 /\ h2 = V2.zero) /\
    (forall h, V1.ranges_ok h -> (r1 = 0 /\ h1 = h <-> exists payload,
       V1.plank_camera_header_valid (Some h) (len payload) = true /\ r = V1.layout h ++ payload)) /\
    (forall h, V2.ranges_ok h -> (r2 = 0 /\ h2 = h <-> exists payload,
       V2.plank_encoded_camera_header_valid (Some h) (len payload) = true /\
       r = V2.layout h ++ payload)) /\
    ~ (r1 = 0 /\ r2 = 0).
Proof.
  intros Hb.
  assert (forall h1 p1 h2 p2, V1.layout h1 ++ p1 = V2.layout h2 ++ p2 -> False) as Hdis.
  { intros h1 p1 h2 p2 E. apply (f_equal (fun l => l !! 4%nat)) in E. discriminate E. }
  assert (exists r1 h1, V1.plank_camera_header_decode (Some r) (len r) (Some d1) = Some (r1, Some h1) /\
    (r1 = 0 /\ (exists p, r = V1.layout h1 ++ p) \/ r1 = -1 /\ h1 = V1.zero) /\
    (forall h, V1.ranges_ok h -> (r1 = 0 /\ h1 = h <-> exists payload,
       V1.plank_camera_header_valid (Some h) (len payload) = true /\ r = V1.layout h ++ payload)))
    as (r1 & h1 & E1 & C1 & S1).
  { destruct (V1.v1_decode_sound r d1 Hb) as [E|(h & p & E & Hr & Hv & Hp)]; rewrite E; eexists _, _;
      (split; [done|]).
    - split; [by right|]. intros h Hr. split; [lia|]. intros (p & Hv & ->).
      by rewrite V1.v1_decode_complete in E.
    - split; [left; eauto|]. intros h' Hr'. split; [intros [_ <-]; eauto|].
      intros (p' & Hv' & ->). rewrite V1.v1_decode_complete in E by done. by injection E. }
  assert (exists r2 h2, V2.plank_encoded_camera_header_decode (Some r) (len r) (Some d2) = Some (r2, Some h2) /\
    (r2 = 0 /\ (exists p, r = V2.layout h2 ++ p) \/ r2 = -1 /\ h2 = V2.zero) /\
    (forall h, V2.ranges_ok h -> (r2 = 0 /\ h2 = h <-> exists payload,
       V2.plank_encoded_camera_header_valid (Some h) (len payload) = true /\ r = V2.layout h ++ payload)))
    as (r2 & h2 & E2 & C2 & S2).
  { destruct (V2.v2_decode_sound r d2 Hb) as [E|(h & p & E & Hr & Hv & Hp)]; rewrite E; eexists _, _;
      (split; [done|]).
    - split; [by right|]. intros h Hr. split; [lia|]. intros (p & Hv & ->).
      by rewrite V2.v2_decode_complete in E.
    - split; [left; eauto|]. intros h' Hr'. split; [intros [_ <-]; eauto|].
      intros (p' & Hv' & ->). rewrite V2.v2_decode_complete in E by done. by injection E. }
  exists r1, h1, r2, h2. split_and!; [done|done|tauto|tauto|done|done|].
  intros [-> ->]. destruct C1 as [[_ [p1 ->]]|[? _]]; [|done].
  destruct C2 as [[_ [p2 E]]|[? _]]; [|done]. by eapply Hdis.
Qed.

Lemma camera_decode_exact_witness :
  bytes (V2.layout (V2.mk 1 0 1 PLANK_CAMERA_H264 1 1 1 1280 720 30 1 1 1 1 1) ++ [7]) /\
  exists r1 h1, V1.plank_camera_header_decode
    (Some (V2.layout (V2.mk 1 0 1 PLANK_CAMERA_H264 1 1 1 1280 720 30 1 1 1 1 1) ++ [7])) 65
    (Some V1.zero) = Some (r1, Some h1) /\ r1 = -1.
Proof.
  assert (bytes (V2.layout (V2.mk 1 0 1 PLANK_CAMERA_H264 1 1 1 1280 720 30 1 1 1 1 1) ++ [7])) as Hb
    by concrete.
  split; [exact Hb|].
  destruct (camera_decode_exact _ V1.zero V2.zero Hb) as (r1 & h1 & r2 & h2 & E1 & _).
  exists r1, h1. split; [exact E1|]. vm_compute in E1. by injection E1 as <- _.
Defined.

(** for every valid header and payload size both encoders write exactly their
    64-byte layout at the start of a large enough buffer, and the matching decoder
    gives the header back from it and the payload; an invalid header or a buffer
    below 64 bytes returns -1 with the buffer unchanged. *)
Theorem camera_encode_decode h1 h2 payload out capacity d1 d2 :
  V1.ranges_ok h1 -> V2.ranges_ok h2 -> capacity <= len out ->
  (if V1.plank_camera_header_valid (Some h1) (len payload) && (64 <=? capacity)
   then exists h, length h = 64%nat /\
     V1.plank_camera_header_encode (Some h1) (len payload) (Some out) capacity
       = Some (0, Some (h ++ drop 64 out)) /\
     V1.plank_camera_header_decode (Some (h ++ payload)) (64 + len payload) (Some d1)
       = Some (0, Some h1)
   else V1.plank_camera_header_encode (Some h1) (len payload) (Some out) capacity
       = Some (-1, Some out)) /\
  (if V2.plank_encoded_camera_header_valid (Some h2) (len payload) && (64 <=? capacity)
   then exists h, length h = 64%nat /\
     V2.plank_encoded_camera_header_encode (Some h2) (len payload) (Some out) capacity
       = Some (0, Some (h ++ drop 64 out)) /\
     V2.plank_encoded_camera_header_decode (Some (h ++ payload)) (64 + len payload) (Some d2)
       = Some (0, Some h2)
   else V2.plank_encoded_camera_header_encode (Some h2) (len payload) (Some out) capacity
       = Some (-1, Some out)).
Proof.
  intros Hr1 Hr2 Hc. split.
  - destruct (V1.plank_camera_header_valid _ _) eqn:Hv, (Z.leb_spec 64 capacity); cbn [andb].
    2-4: unfold V1.plank_camera_header_encode, PLANK_CAMERA_HEADER_BYTES; rewrite Hv.
    2, 4: rewrite (proj2 (Z.ltb_lt _ _)) by lia; done.
    2: rewrite orb_true_r; done.
    exists (V1.layout h1). split_and!; [apply V1.v1_layout_length|apply V1.v1_encode_layout; [done..|lia|lia]|].
    pose proof (V1.v1_decode_complete h1 payload d1 Hr1 Hv) as E.
    by rewrite length_app, V1.v1_layout_length, Nat2Z.inj_add in E.
  - destruct (V2.plank_encoded_camera_header_valid _ _) eqn:Hv, (Z.leb_spec 64 capacity); cbn [andb].
    2-4: unfold V2.plank_encoded_camera_header_encode, PLANK_CAMERA_HEADER_BYTES; rewrite Hv.
    2, 4: rewrite (proj2 (Z.ltb_lt _ _)) by lia; done.
    2: rewrite orb_true_r; done.
    exists (V2.layout h2). split_and!; [apply V2.v2_layout_length|apply V2.v2_encode_layout; [done..|lia|lia]|].
    pose proof (V2.v2_decode_complete h2 payload d2 Hr2 Hv) as E.
    by rewrite length_app, V2.v2_layout_length, Nat2Z.inj_add in E.
Qed.

Lemma camera_encode_decode_witness :
  exists out', V1.plank_camera_header_encode
    (Some (V1.mk 1 0 1 PLANK_CAMERA_MJPEG 0 0 0 0 0 1280 720 1)) 1 (Some (replicate 70 9)) 70
    = Some (0, Some out') /\ length out' = 70%nat.
Proof.
  destruct (camera_encode_decode (V1.mk 1 0 1 PLANK_CAMERA_MJPEG 0 0 0 0 0 1280 720 1) V2.zero [5]
    (replicate 70 9) 70 V1.zero V2.zero) as [H _];
    [unfold V1.ranges_ok; concrete|unfold V2.ranges_ok; concrete|concrete|].
  taken H. destruct H as (h & Hl & E & _).
  eexists. split; [exact E|]. by rewrite length_app, Hl.
Defined.

(** a received control packet is a camera command exactly when the two decoders
    say so: for arbitrary bytes the control decoder followed by the camera decoder
    yields a type, generation and value iff the packet is the PLD1 frame of a legal
    command (SET with an on/off flag, APPLIED with one of the four states, KEYFRAME
    with the bare generation; generation neither 0 nor 2^64-1). *)
Theorem camera_control_exact p g v type :
  bytes p ->
  (exists packet payload,
     plank_transport_control_decode (Some p) (len p) (Some (mkControlPacket 0 0 0))
       = Some (0, Some packet) /\
     copy_from p (control_payload packet) (control_payload_size packet) = Some payload /\
     control_type packet = type /\
     plank_camera_control_decode (Some packet) (Some payload) (Some 0) (Some 0)
       = Some (0, Some g, Some v)) <->
  camera_command type g v /\
  p = frame PLANK_TRANSPORT_CONTROL_MAGIC type (command_payload type g v).
Proof.
  intros Hb. split.
  - intros (packet & payload & Hd & Hc & <- & Hcmd).
    rewrite control_decode_frame in Hd.
    destruct (frame_decode_spec _ p Hb control_magic_range) as (r & Hr & Hspec).
    rewrite Hr in Hd. cbn in Hd. destruct r as [[t s]|]; [|done]. injection Hd as <-.
    destruct (proj1 (Hspec t s) eq_refl) as (pl & -> & Ht & -> & Hl).
    cbn in Hc |- *. unfold PLANK_TRANSPORT_CONTROL_HEADER_SIZE in *.
    rewrite frame_payload in Hc. injection Hc as <-.
    apply frame_bytes in Hb.
    destruct (command_sound t 8 pl Hb) as [E|(g' & v' & E & Hok & Hp)]; rewrite Hcmd in E; [done|].
    injection E as -> ->. rewrite Hp at 1. done.
  - intros [Hcmd ->].
    set (pl := command_payload type g v) in *.
    exists (mkControlPacket type 8 (len pl)), pl.
    assert (len pl < 65536) by (unfold pl, command_payload; by case_match).
    rewrite control_decode_frame, frame_decode_frame; [|done| |done].
    2: { destruct Hcmd as [_ [[-> _]|[[-> _]|[-> _]]]]; by compute. }
    cbn. split_and!; [done|apply frame_payload|done|by apply (command_complete _ _ _ 8)].
Qed.

Lemma camera_control_exact_witness :
  bytes (frame PLANK_TRANSPORT_CONTROL_MAGIC 10 (command_payload 10 7 1)) /\
  exists packet payload,
     plank_transport_control_decode
       (Some (frame PLANK_TRANSPORT_CONTROL_MAGIC 10 (command_payload 10 7 1))) 20
       (Some (mkControlPacket 0 0 0)) = Some (0, Some packet) /\
     plank_camera_control_decode (Some packet) (Some payload) (Some 0) (Some 0)
       = Some (0, Some 7, Some 1).
Proof.
  assert (bytes (frame PLANK_TRANSPORT_CONTROL_MAGIC 10 (command_payload 10 7 1))) as Hb
    by concrete.
  split; [exact Hb|].
  destruct (proj2 (camera_control_exact _ 7 1 10 Hb)) as (packet & payload & E1 & _ & _ & E2).
  { split; [|done]. split; [concrete|]. left. concrete. }
  exists packet, payload. split; [exact E1|exact E2].
Defined.
