(* ===== verification/Float32.v ===== *)
(** * Float32: IEEE 754 values as their bit patterns

    Audio samples cross the shared buffers as 32-bit patterns.  Most of the code only
    classifies, compares and clamps them, so a stored [float] is its pattern (a [Z]
    below 2^32), a stored [double] a 64-bit one.  The arithmetic on doubles is the
    Standard Library's [SpecFloat] (binary64, round to nearest even, every operation
    rounded: no contraction into fused multiply-adds). *)

From Stdlib Require Import SpecFloat.
From S2P Require Import Prelude.

Definition isfinite (f : Z) : bool := negb (Z.land (Z.shiftr f 23) 255 =? 255).
Definition isnan (f : Z) : bool :=
  (Z.land (Z.shiftr f 23) 255 =? 255) && negb (Z.land f 8388607 =? 0).

Definition F32_ONE : Z := 1065353216.
Definition F32_MINUS_ONE : Z := 3212836864.

(** The order of the values: sign and magnitude, both zeros alike. *)
Definition key (f : Z) : Z := if f <? 2 ^ 31 then f else 2 ^ 31 - f.

(** [fmaxf] and [fminf] of the C library: a NaN operand is ignored. *)
Definition fmaxf (a b : Z) : Z :=
  if isnan a then b else if isnan b then a else if key a <? key b then b else a.
Definition fminf (a b : Z) : Z :=
  if isnan a then b else if isnan b then a else if key b <? key a then b else a.

(** The idiom [fminf(1.0f, fmaxf(-1.0f, value))] of the audio buffers. *)
Definition clamp_sample (f : Z) : Z := fminf F32_ONE (fmaxf F32_MINUS_ONE f).

Lemma finite_not_nan f : isfinite f = true -> isnan f = false.
Proof. unfold isfinite, isnan. intros H. guards. by rewrite H. Qed.

Lemma finite_exponent f :
  in_range 32 f -> isfinite f = true -> Z.abs (key f) < 255 * 2 ^ 23.
Proof.
  intros Hr Hf. unfold isfinite in Hf. guards.
  change 255 with (Z.ones 8) in Hf at 1. rewrite Z.land_ones, Z.shiftr_div_pow2 in Hf by lia.
  unfold key. ranges. change (2 ^ 23) with 8388608 in *.
  apply Z.eqb_neq in Hf. destruct (Z.ltb_spec f 2147483648); Z.div_mod_to_equations; lia.
Qed.

(** A finite sample is clamped to [-1, 1] and kept when it is already there. *)
Lemma clamp_range f :
  in_range 32 f -> isfinite f = true ->
  in_range 32 (clamp_sample f) /\ isfinite (clamp_sample f) = true /\
  key F32_MINUS_ONE <= key (clamp_sample f) <= key F32_ONE.
Proof.
  intros Hr Hf. pose proof (finite_not_nan _ Hf) as Hn. unfold clamp_sample, fmaxf.
  change (isnan F32_MINUS_ONE) with false. rewrite Hn. cbv iota.
  destruct (Z.ltb_spec (key F32_MINUS_ONE) (key f)); cycle 1.
  { vm_compute. split_and!; try done; congruence. }
  unfold fminf. change (isnan F32_ONE) with false. rewrite Hn. cbv iota.
  destruct (Z.ltb_spec (key f) (key F32_ONE)).
  - split_and!; [apply Hr..|done|lia|lia].
  - vm_compute. split_and!; try done; congruence.
Qed.

Lemma clamp_id f :
  isfinite f = true -> key F32_MINUS_ONE < key f < key F32_ONE -> clamp_sample f = f.
Proof.
  intros Hf Hk. pose proof (finite_not_nan _ Hf) as Hn. unfold clamp_sample, fmaxf, fminf.
  change (isnan F32_MINUS_ONE) with false. rewrite Hn. cbv iota.
  rewrite (proj2 (Z.ltb_lt _ _)) by lia. change (isnan F32_ONE) with false. rewrite Hn. cbv iota.
  by rewrite (proj2 (Z.ltb_lt _ _)) by lia.
Qed.

(** ** Arithmetic on doubles *)

Definition double_of_int (z : Z) : spec_float := binary_normalize 53 1024 z 0 false.
Definition double_mul : spec_float -> spec_float -> spec_float := SFmul 53 1024.
Definition double_div : spec_float -> spec_float -> spec_float := SFdiv 53 1024.
Definition double_add : spec_float -> spec_float -> spec_float := SFadd 53 1024.
Definition double_sub : spec_float -> spec_float -> spec_float := SFsub 53 1024.

(** The conversion of a [float] pattern to [double], which is exact. *)
Definition double_of_float (f : Z) : spec_float :=
  let negative := 2 ^ 31 <=? f in
  let exponent := Z.land (Z.shiftr f 23) 255 in
  let fraction := Z.land f 8388607 in
  let signed z := if negative then - z else z in
  if exponent =? 255 then (if fraction =? 0 then S754_infinity negative else S754_nan)
  else if exponent =? 0 then binary_normalize 53 1024 (signed fraction) (-149) negative
  else binary_normalize 53 1024 (signed (fraction + 2 ^ 23)) (exponent - 150) negative.

(** The conversion back, rounding to nearest even; NaN becomes the default one. *)
Definition float_bits (x : spec_float) : Z :=
  match x with
  | S754_zero s => if s then 2 ^ 31 else 0
  | S754_infinity s => (if s then 2 ^ 31 else 0) + 2139095040
  | S754_nan => 2143289344
  | S754_finite s m e =>
      (if s then 2 ^ 31 else 0) +
      (if Z.pos m <? 2 ^ 23 then Z.pos m else Z.shiftl (e + 150) 23 + (Z.pos m - 2 ^ 23))
  end.
Definition float_of_double (x : spec_float) : Z :=
  match x with
  | S754_finite s m e => float_bits (binary_round 24 128 s m e)
  | _ => float_bits x
  end.

(** The conversion of a non-negative double to [unsigned], towards zero. *)
Definition unsigned_of_double (x : spec_float) : Z :=
  match x with
  | S754_finite false m e => Z.shiftl (Z.pos m) e
  | _ => 0
  end.

(** The bit pattern of a double, and the comparison [==] of two patterns. *)
Definition double_bits (x : spec_float) : Z :=
  match x with
  | S754_zero s => if s then 2 ^ 63 else 0
  | S754_infinity s => (if s then 2 ^ 63 else 0) + 2047 * 2 ^ 52
  | S754_nan => 4095 * 2 ^ 51
  | S754_finite s m e =>
      (if s then 2 ^ 63 else 0) +
      (if Z.pos m <? 2 ^ 52 then Z.pos m else Z.shiftl (e + 1075) 52 + (Z.pos m - 2 ^ 52))
  end.
Definition double_isnan (b : Z) : bool := (b mod 2 ^ 63) >? 2047 * 2 ^ 52.
Definition double_equal (a b : Z) : bool :=
  negb (double_isnan a) && negb (double_isnan b) &&
  ((a =? b) || ((a mod 2 ^ 63 =? 0) && (b mod 2 ^ 63 =? 0))).

(** Single-precision multiplication and division on the patterns. *)
Definition float_spec (f : Z) : spec_float :=
  let negative := 2 ^ 31 <=? f in
  let exponent := Z.land (Z.shiftr f 23) 255 in
  let fraction := Z.land f 8388607 in
  if exponent =? 255 then (if fraction =? 0 then S754_infinity negative else S754_nan)
  else if exponent =? 0 then
    match fraction with Z.pos m => S754_finite negative m (-149) | _ => S754_zero negative end
  else match fraction + 2 ^ 23 with Z.pos m => S754_finite negative m (exponent - 150) | _ => S754_zero negative end.
Definition float_mul (a b : Z) : Z := float_bits (SFmul 24 128 (float_spec a) (float_spec b)).
Definition float_div (a b : Z) : Z := float_bits (SFdiv 24 128 (float_spec a) (float_spec b)).
Definition float_of_int (z : Z) : Z := float_bits (binary_normalize 24 128 z 0 false).
(** The comparisons [a < b] and [a > b]: false when an operand is NaN. *)
Definition float_lt (a b : Z) : bool := negb (isnan a) && negb (isnan b) && (key a <? key b).

Example float_arithmetic :
  (float_of_int 1, float_of_int 20, float_div (float_of_int 1) (float_of_int 20),
   float_mul (float_of_int 20) (float_of_int (-3)), float_lt (float_of_int (-96)) 0, double_bits (double_of_int 48000))
  = (F32_ONE, 1101004800, 1028443341, float_of_int (-60), true, 4676829883349860352).
Proof. vm_compute. reflexivity. Qed.

Example float_round_trip :
  map (fun f => float_of_double (double_of_float f)) [0; 1; 2147483649; 1065353216; 8388607; 3212836864; 2139095039]
  = [0; 1; 2147483649; 1065353216; 8388607; 3212836864; 2139095039].
Proof. vm_compute. reflexivity. Qed.
