(* ===== verification/Atomic.v ===== *)
(** * Atomic: shared memory of sequentially consistent atomics

    The macOS host shares rings and histories between processes and with the
    audio server's real-time threads.  A call on such a structure is a [prog]: its
    atomic accesses in program order.  [run] executes a call alone; the components'
    step relations interleave several calls at single accesses; [wp] says what a
    reading call may return whatever the others do between its accesses. *)

From S2P Require Import Prelude.

(** A location that is none of the listed ones. *)
Ltac not_listed :=
  let H := fresh in cbn; intros H;
  repeat (apply elem_of_cons in H as [H|H]; [discriminate H|]); by apply elem_of_nil in H.

(** The fields of a shared structure, and which of them exist (array bounds). *)
Class Location (L : Type) := {
  location_eq_dec :: EqDecision L;
  valid_loc : L -> bool
}.

(** [Rmw l f k] is an atomic read-modify-write (fetch-add, exchange) that passes
    the old value on.  [Undefined] is an access outside a private buffer or a loop out of fuel. *)
Inductive prog (L A : Type) :=
  | Ret (a : A)
  | Load (l : L) (k : Z -> prog L A)
  | Store (l : L) (v : Z) (k : prog L A)
  | Rmw (l : L) (f : Z -> Z) (k : Z -> prog L A)
  | Undefined.
Arguments Ret {L A} a.
Arguments Load {L A} l k.
Arguments Store {L A} l v k.
Arguments Rmw {L A} l f k.
Arguments Undefined {L A}.

Section atomic.
Context {L : Type} `{Location L}.

Definition mem := L -> Z.
Definition upd (m : mem) (l : L) (v : Z) : mem := fun l' => if decide (l = l') then v else m l'.

Fixpoint run {A} (p : prog L A) (m : mem) : option (A * mem) :=
  match p with
  | Ret a => Some (a, m)
  | Load l k => if valid_loc l then run (k (m l)) m else None
  | Store l v k => if valid_loc l then run k (upd m l v) else None
  | Rmw l f k => if valid_loc l then run (k (m l)) (upd m l (f (m l))) else None
  | Undefined => None
  end.

Lemma run_load {A} l (k : Z -> prog L A) m : valid_loc l = true -> run (Load l k) m = run (k (m l)) m.
Proof. intros E. cbn. by rewrite E. Qed.

Lemma run_store {A} l v (k : prog L A) m :
  valid_loc l = true -> run (Store l v k) m = run k (upd m l v).
Proof. intros E. cbn. by rewrite E. Qed.

Lemma upd_same m l v : upd m l v l = v.
Proof. unfold upd. by rewrite decide_True. Qed.
Lemma upd_other m l l' v : l <> l' -> upd m l v l' = m l'.
Proof. intros. unfold upd. by rewrite decide_False. Qed.

(** A call followed by the rest of its caller. *)
Fixpoint bind {A B} (p : prog L A) (f : A -> prog L B) : prog L B :=
  match p with
  | Ret a => f a
  | Load l k => Load l (fun v => bind (k v) f)
  | Store l v k => Store l v (bind k f)
  | Rmw l g k => Rmw l g (fun v => bind (k v) f)
  | Undefined => Undefined
  end.

Lemma run_bind {A B} (p : prog L A) (f : A -> prog L B) m :
  run (bind p f) m = match run p m with Some (a, m') => run (f a) m' | None => None end.
Proof.
  revert m. induction p as [a|l k IH|l v k IH|l g k IH|]; intros m; cbn; try done;
    by destruct (valid_loc l).
Qed.

(** A call on memory that others change: a load from [l] yields any value that is [known]
    of [l].  [always p Q]: the call stays in bounds and ends, with a result in [Q];
    [possible p a]: it may return [a]. *)
Section always.
Context (known : L -> Z -> Prop).

Fixpoint always {A} (p : prog L A) (Q : A -> Prop) : Prop :=
  match p with
  | Ret a => Q a
  | Load l k => valid_loc l = true /\ forall v, known l v -> always (k v) Q
  | Store l v k => valid_loc l = true /\ always k Q
  | Rmw l f k => valid_loc l = true /\ forall v, known l v -> always (k v) Q
  | Undefined => False
  end.

Fixpoint possible {A} (p : prog L A) (a : A) : Prop :=
  match p with
  | Ret b => b = a
  | Load l k => exists v, known l v /\ possible (k v) a
  | Store l v k => possible k a
  | Rmw l f k => exists v, known l v /\ possible (k v) a
  | Undefined => False
  end.

Lemma always_possible {A} (p : prog L A) (Q : A -> Prop) a : always p Q -> possible p a -> Q a.
Proof.
  induction p as [b|l k IH|l v k IH|l f k IH|]; cbn; [by intros ? <-| |intros [_ Hk]; by apply IH| |done];
    intros [_ Hk] (v & Hv & Hp); by apply (IH v (Hk v Hv)).
Qed.

Lemma always_mono {A} (p : prog L A) (P Q : A -> Prop) : (forall a, P a -> Q a) -> always p P -> always p Q.
Proof.
  intros HPQ. induction p as [b|l k IH|l v k IH|l f k IH|]; cbn; [apply HPQ| |intros [? Hk]; split; [done|by apply IH]| |done];
    (intros [? Hk]; split; [done|]; intros v Hv; apply IH, Hk, Hv).
Qed.

Lemma always_bind {A B} (p : prog L A) (f : A -> prog L B) (Q : B -> Prop) :
  always p (fun a => always (f a) Q) -> always (bind p f) Q.
Proof.
  induction p as [b|l k IH|l v k IH|l g k IH|]; cbn; [done| |intros [? Hk]; split; [done|by apply IH]| |done];
    (intros [? Hk]; split; [done|]; intros v Hv; apply IH, Hk, Hv).
Qed.
End always.

(** ** Straight-line stores *)

Fixpoint stores_prog {A} (l : list (L * Z)) (k : prog L A) : prog L A :=
  match l with [] => k | (a, v) :: l' => Store a v (stores_prog l' k) end.
Definition apply_stores (l : list (L * Z)) (m : mem) : mem :=
  foldl (fun m s => upd m s.1 s.2) m l.

Lemma stores_prog_app {A} l1 l2 (k : prog L A) :
  stores_prog (l1 ++ l2) k = stores_prog l1 (stores_prog l2 k).
Proof. induction l1 as [|[a v] l1 IH]; cbn; [done|by rewrite IH]. Qed.

Lemma apply_stores_app l1 l2 m : apply_stores (l1 ++ l2) m = apply_stores l2 (apply_stores l1 m).
Proof. unfold apply_stores. apply foldl_app. Qed.

Lemma apply_stores_other l m a :
  Forall (fun st => st.1 <> a) l -> apply_stores l m a = m a.
Proof.
  revert m. induction l as [|[b v] l IH]; intros m Hf; [done|].
  apply Forall_cons in Hf as [Hb Hf]. cbn. unfold apply_stores in IH. rewrite IH by done.
  by apply upd_other.
Qed.

Lemma apply_stores_in l m a v :
  NoDup (map fst l) -> (a, v) ∈ l -> apply_stores l m a = v.
Proof.
  revert m. induction l as [|[b u] l IH]; intros m Hnd Hin; cbn [map] in Hnd.
  { by apply elem_of_nil in Hin. }
  apply NoDup_cons in Hnd as [Hb Hnd]. apply elem_of_cons in Hin as [[= -> ->]|Hin].
  - change (apply_stores l (upd m b u) b = u). rewrite apply_stores_other; [apply upd_same|].
    apply Forall_forall. intros [b' v'] Hin E. cbn in E. subst. apply Hb.
    apply list_elem_of_fmap. by exists (b, v').
  - by apply IH.
Qed.

Lemma run_stores {A} l (k : prog L A) m :
  Forall (fun st => valid_loc st.1 = true) l ->
  run (stores_prog l k) m = run k (apply_stores l m).
Proof.
  revert m. induction l as [|[b v] l IH]; intros m Hf; [done|].
  apply Forall_cons in Hf as [Hb Hf]. cbn in *. rewrite Hb. by apply IH.
Qed.

(** ** Reading under interference

    [G] is the ghost state of the structure (for instance the log of its writer),
    [good] its invariant and [future] how memory and ghost state may evolve. *)
Section wp.
Context {G : Type} (good : mem -> G -> Prop) (future : mem -> G -> mem -> G -> Prop).
Context (future_refl : forall m g, future m g m g).
Context (future_trans : forall m1 g1 m2 g2 m3 g3,
  future m1 g1 m2 g2 -> future m2 g2 m3 g3 -> future m1 g1 m3 g3).

Fixpoint wp {A} (p : prog L A) (Q : A -> G -> Prop) (m : mem) (g : G) : Prop :=
  match p with
  | Ret a => Q a g
  | Load l k => valid_loc l = true /\ forall m' g', good m' g' -> future m g m' g' -> wp (k (m' l)) Q m' g'
  | _ => False
  end.

Lemma wp_future {A} (p : prog L A) (Q : A -> G -> Prop) m g m' g' :
  (forall a, Q a g -> Q a g') -> future m g m' g' -> wp p Q m g -> wp p Q m' g'.
Proof using future_trans.
  destruct p; cbn; [|intros _|done..].
  - intros HQ _. apply HQ.
  - intros Hf [Hv Hwp]. split; [done|]. intros m2 g2 Hc Hf2.
    apply Hwp; [done|]. by eapply future_trans.
Qed.

Lemma wp_load {A} l (k : Z -> prog L A) (Q : A -> G -> Prop) m g :
  good m g -> wp (Load l k) Q m g -> wp (k (m l)) Q m g.
Proof using future_refl. intros Hg [_ Hwp]. by apply Hwp. Qed.

(** A call that no one interferes with. *)
Lemma wp_run {A} (p : prog L A) (Q : A -> G -> Prop) m g :
  good m g -> wp p Q m g -> exists a, run p m = Some (a, m) /\ Q a g.
Proof using future_refl.
  intros Hg. induction p as [a|l k IH|l v k IH|l f k IH|]; cbn; [eauto| |done..].
  intros [-> Hwp]. apply IH. by apply Hwp.
Qed.
End wp.

(** ** Rely-guarantee

    Two threads share the memory.  A thread is in a client state of type [T]
    between calls, and [calls t p ret] says that in state [t] it may call [p] and
    continue in state [ret a] when the call returns [a].  [rely] is what the other
    thread may do to memory and ghost state, [guar l] what this one promises of its
    writes to [l], and [reads l] what it knows when it reads [l]. *)

Definition ghost_update G := L -> Z -> mem -> G -> G.

Section rg.
Context {G : Type} (rely : mem -> G -> mem -> G -> Prop).
Context (guar : L -> mem -> G -> mem -> G -> Prop) (reads : L -> mem -> G -> Prop) (ghost : ghost_update G).

Fixpoint rg {A} (p : prog L A) (Q : A -> mem -> G -> Prop) (m : mem) (g : G) : Prop :=
  match p with
  | Ret a => Q a m g
  | Load l k => valid_loc l = true /\
      forall m' g', rely m g m' g' -> reads l m' g' /\ rg (k (m' l)) Q m' g'
  | Store l v k => valid_loc l = true /\
      forall m' g', rely m g m' g' ->
        guar l m' g' (upd m' l v) (ghost l v m' g') /\ rg k Q (upd m' l v) (ghost l v m' g')
  | Rmw l f k => valid_loc l = true /\
      forall m' g', rely m g m' g' ->
        guar l m' g' (upd m' l (f (m' l))) (ghost l (f (m' l)) m' g') /\
        rg (k (m' l)) Q (upd m' l (f (m' l))) (ghost l (f (m' l)) m' g')
  | Undefined => False
  end.

Lemma rg_rely {A} (p : prog L A) (Q : A -> mem -> G -> Prop) m g m' g' :
  (forall m1 g1 m2 g2 m3 g3, rely m1 g1 m2 g2 -> rely m2 g2 m3 g3 -> rely m1 g1 m3 g3) ->
  (forall a, Q a m g -> Q a m' g') -> rely m g m' g' -> rg p Q m g -> rg p Q m' g'.
Proof.
  intros Htrans HQ Hr. destruct p; cbn; [apply HQ| | | |done];
    (intros [Hv Hrg]; split; [done|]; intros m2 g2 Hr2; apply Hrg; by eapply Htrans).
Qed.
(** A call that no one interferes with. *)
Lemma rg_run {A} (p : prog L A) (Q : A -> mem -> G -> Prop) m g :
  (forall m g, rely m g m g) -> rg p Q m g ->
  exists a m' g', run p m = Some (a, m') /\ Q a m' g'.
Proof.
  intros Hrefl. revert m g. induction p as [a|l k IH|l v k IH|l f k IH|]; intros m g; cbn; [eauto| | | |done];
    intros [-> Hrg]; destruct (Hrg m g (Hrefl _ _)) as [_ H']; by eapply IH.
Qed.
End rg.
End atomic.
#[global] Arguments mem : clear implicits.

(** A call on a part of a larger structure. *)
Fixpoint within {L1 L2 A} (f : L1 -> L2) (p : prog L1 A) : prog L2 A :=
  match p with
  | Ret a => Ret a
  | Load l k => Load (f l) (fun v => within f (k v))
  | Store l v k => Store (f l) v (within f k)
  | Rmw l g k => Rmw (f l) g (fun v => within f (k v))
  | Undefined => Undefined
  end.

Lemma always_within {L1 L2} `{Location L1, Location L2} {A} (f : L1 -> L2) known1 known2 (p : prog L1 A) (Q : A -> Prop) :
  (forall l, valid_loc l = true -> valid_loc (f l) = true) -> (forall l v, known2 (f l) v -> known1 l v) ->
  always known1 p Q -> always known2 (within f p) Q.
Proof.
  intros Hf Hn. induction p as [b|l k IH|l v k IH|l g k IH|]; cbn; [done|
    intros [? Hk]; split; [by apply Hf|]; intros v Hv; apply IH, Hk, Hn, Hv|
    intros [? Hk]; split; [by apply Hf|by apply IH]|
    intros [? Hk]; split; [by apply Hf|]; intros v Hv; apply IH, Hk, Hn, Hv|done].
Qed.

(** The two threads, their programs and the machine. *)
Inductive thread (L T : Type) :=
  | Idle (t : T)
  | Busy {A : Type} (p : prog L A) (ret : A -> T).
Arguments Idle {L T} t.
Arguments Busy {L T A} p ret.

Definition client L T := T -> forall A : Type, prog L A -> (A -> T) -> Prop.

Section machine.
Context {L : Type} `{Location L} {G T1 T2 : Type}.
Context (calls1 : client L T1) (calls2 : client L T2) (ghost1 ghost2 : ghost_update (L:=L) G).

Inductive thread_step {T} (calls : client L T) (ghost : ghost_update G) :
    mem L -> G -> thread L T -> mem L -> G -> thread L T -> Prop :=
  | ts_call m g t A (p : prog L A) ret : calls t A p ret ->
      thread_step calls ghost m g (Idle t) m g (Busy p ret)
  | ts_load m g A l (k : Z -> prog L A) ret : valid_loc l = true ->
      thread_step calls ghost m g (Busy (Load l k) ret) m g (Busy (k (m l)) ret)
  | ts_store m g A l v (k : prog L A) ret : valid_loc l = true ->
      thread_step calls ghost m g (Busy (Store l v k) ret)
        (upd m l v) (ghost l v m g) (Busy k ret)
  | ts_rmw m g A l f (k : Z -> prog L A) ret : valid_loc l = true ->
      thread_step calls ghost m g (Busy (Rmw l f k) ret)
        (upd m l (f (m l))) (ghost l (f (m l)) m g) (Busy (k (m l)) ret)
  | ts_return m g A (a : A) ret :
      thread_step calls ghost m g (Busy (Ret a) ret) m g (Idle (ret a)).

Record machine := mkMachine { mc_mem : mem L; mc_ghost : G; mc_1 : thread L T1; mc_2 : thread L T2 }.

Inductive machine_step : machine -> machine -> Prop :=
  | ms_1 m g t1 t2 m' g' t1' : thread_step calls1 ghost1 m g t1 m' g' t1' ->
      machine_step (mkMachine m g t1 t2) (mkMachine m' g' t1' t2)
  | ms_2 m g t1 t2 m' g' t2' : thread_step calls2 ghost2 m g t2 m' g' t2' ->
      machine_step (mkMachine m g t1 t2) (mkMachine m' g' t1 t2').

Inductive machine_reachable (c0 : machine) : machine -> Prop :=
  | mr_refl : machine_reachable c0 c0
  | mr_step c c' : machine_reachable c0 c -> machine_step c c' -> machine_reachable c0 c'.

(** A thread's next access exists, or it has returned. *)
Definition not_stuck {T} (t : thread L T) : Prop :=
  match t with
  | Idle _ => True
  | Busy (Ret _) _ => True
  | Busy (Load l _) _ | Busy (Store l _ _) _ | Busy (Rmw l _ _) _ => valid_loc l = true
  | Busy Undefined _ => False
  end.

(** *** Soundness of the method *)
Definition rg_rel := mem L -> G -> mem L -> G -> Prop.
Context (rely1 rely2 : rg_rel) (guar1 guar2 : L -> rg_rel).
Context (reads1 reads2 : L -> mem L -> G -> Prop).
Context (Inv1 : T1 -> mem L -> G -> Prop) (Inv2 : T2 -> mem L -> G -> Prop).

Record rg_thread {T} (calls : client L T) (ghost : ghost_update G) (rely : rg_rel) (guar : L -> rg_rel) (reads : L -> mem L -> G -> Prop) (Inv : T -> mem L -> G -> Prop) : Prop := {
  rg_refl : forall m g, rely m g m g;
  rg_trans : forall m1 g1 m2 g2 m3 g3, rely m1 g1 m2 g2 -> rely m2 g2 m3 g3 -> rely m1 g1 m3 g3;
  rg_stable : forall t m g m' g', Inv t m g -> rely m g m' g' -> Inv t m' g';
  rg_calls : forall t A (p : prog L A) ret m g, Inv t m g -> calls t A p ret ->
    rg rely guar reads ghost p (fun a => Inv (ret a)) m g
}.

Definition thread_inv {T} ghost (rely : rg_rel) (guar : L -> rg_rel) (reads : L -> mem L -> G -> Prop) (Inv : T -> mem L -> G -> Prop)
    (t : thread L T) (m : mem L) (g : G) : Prop :=
  match t with
  | Idle t => Inv t m g
  | Busy p ret => rg rely guar reads ghost p (fun a => Inv (ret a)) m g
  end.

Lemma thread_inv_stuck {T} ghost rely guar reads Inv (t : thread L T) m g :
  thread_inv ghost rely guar reads Inv t m g -> not_stuck t.
Proof using Type. destruct t as [t|A [a|l k|l v k|l f k|] ret]; cbn; try done; by intros [? _]. Qed.

Lemma thread_inv_store {T} calls ghost rely guar reads Inv m g A l v (k : prog L A) (ret : A -> T) :
  rg_thread calls ghost rely guar reads Inv ->
  thread_inv ghost rely guar reads Inv (Busy (Store l v k) ret) m g ->
  guar l m g (upd m l v) (ghost l v m g).
Proof using Type. intros Hrg [_ Hi]. apply Hi, Hrg. Qed.

Lemma thread_inv_load {T} calls ghost rely guar reads Inv m g A l (k : Z -> prog L A) (ret : A -> T) :
  rg_thread calls ghost rely guar reads Inv ->
  thread_inv ghost rely guar reads Inv (Busy (Load l k) ret) m g -> reads l m g.
Proof using Type. intros Hrg [_ Hi]. apply Hi, Hrg. Qed.

Lemma thread_inv_rely {T} calls ghost rely guar reads Inv (t : thread L T) m g m' g' :
  rg_thread calls ghost rely guar reads Inv -> rely m g m' g' ->
  thread_inv ghost rely guar reads Inv t m g -> thread_inv ghost rely guar reads Inv t m' g'.
Proof using Type.
  intros Hrg Hr. destruct t as [t|A p ret]; cbn.
  - intros. by eapply (rg_stable _ _ _ _ _ _ Hrg).
  - apply rg_rely; [apply Hrg| |done]. intros a Ha. by eapply (rg_stable _ _ _ _ _ _ Hrg).
Qed.

Lemma thread_inv_step {T} calls ghost rely guar reads Inv (t t' : thread L T) m g m' g' :
  rg_thread calls ghost rely guar reads Inv ->
  thread_inv ghost rely guar reads Inv t m g -> thread_step calls ghost m g t m' g' t' ->
  thread_inv ghost rely guar reads Inv t' m' g' /\ ((m' = m /\ g' = g) \/ exists l, guar l m g m' g').
Proof using Type.
  intros Hrg Hi. inversion 1; subst; cbn in *.
  - split; [|by left]. by eapply (rg_calls _ _ _ _ _ _ Hrg).
  - split; [|by left]. apply Hi, Hrg.
  - destruct Hi as [_ Hi]. destruct (Hi m g) as [Hg Hk]; [apply Hrg|]. split; [done|right; by eexists].
  - destruct Hi as [_ Hi]. destruct (Hi m g) as [Hg Hk]; [apply Hrg|]. split; [done|right; by eexists].
  - split; [done|by left].
Qed.

Context (Hrg1 : rg_thread calls1 ghost1 rely1 guar1 reads1 Inv1).
Context (Hrg2 : rg_thread calls2 ghost2 rely2 guar2 reads2 Inv2).
Context (Hguar1 : forall l m g m' g', guar1 l m g m' g' -> rely2 m g m' g').
Context (Hguar2 : forall l m g m' g', guar2 l m g m' g' -> rely1 m g m' g').

Definition machine_inv (c : machine) : Prop :=
  thread_inv ghost1 rely1 guar1 reads1 Inv1 (mc_1 c) (mc_mem c) (mc_ghost c) /\
  thread_inv ghost2 rely2 guar2 reads2 Inv2 (mc_2 c) (mc_mem c) (mc_ghost c).

Lemma machine_invariant c0 c :
  machine_inv c0 -> machine_reachable c0 c -> machine_inv c.
Proof using Hrg1 Hrg2 Hguar1 Hguar2.
  intros H0. induction 1 as [|c c' Hr [I1 I2] Hstep]; [done|].
  inversion Hstep; subst; cbn in *.
  - match goal with Ht : thread_step _ _ _ _ _ _ _ _ |- _ =>
      destruct (thread_inv_step _ _ _ _ _ _ _ _ _ _ _ _ Hrg1 I1 Ht) as [I1' [[-> ->]|[l Hg]]] end;
      (split; [done|cbn]); [done|]. eapply thread_inv_rely; [exact Hrg2|by eapply Hguar1|done].
  - match goal with Ht : thread_step _ _ _ _ _ _ _ _ |- _ =>
      destruct (thread_inv_step _ _ _ _ _ _ _ _ _ _ _ _ Hrg2 I2 Ht) as [I2' [[-> ->]|[l Hg]]] end;
      (split; [|done]); cbn; [done|]. eapply thread_inv_rely; [exact Hrg1|by eapply Hguar2|done].
Qed.
End machine.
