(* ===== verification/Calls.v ===== *)
(** * Calls: programs that ask their environment

    A probe is a sequence of calls to drivers, sessions and files, each answered by the outside
    and each answer steering what is called next.  [proc] is such a program as data: a result,
    or a call with what is done on each answer.  [runs] relates it to the traces of its calls
    and answers, over every environment; [run] executes it in one.  [wp] watches a program with
    a monitor, and [Handles] is the monitor of what the program acquires and must give back. *)

From stdpp Require Import gmap.
From S2P Require Import Prelude.
#[local] Open Scope Z_scope.

Section calls.
Context {C : Type} {ans : C -> Type}.

Inductive proc (A : Type) : Type :=
  | Ret (a : A)
  | Call (c : C) (k : ans c -> proc A).
#[global] Arguments Ret {A} a.
#[global] Arguments Call {A} c k.

#[global] Instance proc_ret : MRet proc := @Ret.
#[global] Instance proc_bind : MBind proc := fun A B f =>
  fix bind (p : proc A) : proc B := match p with Ret a => f a | Call c k => Call c (fun a => bind (k a)) end.
Definition call (c : C) : proc (ans c) := Call c Ret.

(** ** Traces *)

Definition event : Type := sigT ans.

(** The program makes these calls, gets these answers and ends with this result. *)
Fixpoint runs {A} (p : proc A) (tr : list event) (r : A) : Prop :=
  match p with
  | Ret a => tr = [] /\ r = a
  | Call c k => exists a tr', tr = existT c a :: tr' /\ runs (k a) tr' r
  end.

(** An environment with a state of its own. *)
Fixpoint run {S A} (world : S -> forall c, ans c * S) (p : proc A) (s : S) : list event * A :=
  match p with
  | Ret a => ([], a)
  | Call c k => let '(a, s') := world s c in let '(tr, r) := run world (k a) s' in (existT c a :: tr, r)
  end.

Lemma run_runs {S A} world (p : proc A) (s : S) : runs p (run world p s).1 (run world p s).2.
Proof.
  revert s. induction p as [a|c k IH]; intros s; [done|]. cbn [run]. destruct (world s c) as [a s'].
  specialize (IH a s'). destruct (run world (k a) s') as [tr r]. cbn in *. eauto.
Qed.

(** What an environment always answers holds along its runs. *)
Lemma run_Forall {S A} (P : event -> Prop) world (p : proc A) (s : S) :
  (forall s c, P (existT c (world s c).1)) -> Forall P (run world p s).1.
Proof.
  intros HP. revert s. induction p as [a|c k IH]; intros s; [constructor|]. cbn [run]. pose proof (HP s c) as Hc.
  destruct (world s c) as [a s']. specialize (IH a s'). destruct (run world (k a) s') as [tr r]. by constructor.
Qed.

(** An environment without a state: calls are answered by a table. *)
Definition exec {A} (table : forall c, ans c) (p : proc A) : list event * A := run (fun (_ : unit) c => (table c, tt)) p tt.
Lemma exec_ret {A} table (a : A) : exec table (mret a) = ([], a).
Proof. done. Qed.
Lemma exec_call table c : exec table (call c) = ([existT c (table c)], table c).
Proof. done. Qed.
Lemma exec_bind {A B} table (p : proc A) (f : A -> proc B) :
  exec table (p ≫= f) = ((exec table p).1 ++ (exec table (f (exec table p).2)).1, (exec table (f (exec table p).2)).2).
Proof.
  unfold exec. induction p as [a|c k IH]; [exact (surjective_pairing _)|].
  cbn [mbind proc_bind run]. specialize (IH (table c)). cbn [mbind proc_bind] in IH. rewrite IH.
  by destruct (run (fun (_ : unit) c => (table c, tt)) (k (table c)) tt).
Qed.

(** Every environment brings the program to an end. *)
Lemma proc_ends {A} (p : proc A) : (forall c, inhabited (ans c)) -> exists tr r, runs p tr r.
Proof.
  intros Hans. induction p as [a|c k IH]; [by exists [], a|]. destruct (Hans c) as [a].
  destruct (IH a) as (tr & r & Hr). exists (existT c a :: tr), r. cbn. eauto.
Qed.

Lemma runs_bind {A B} (f : A -> proc B) p tr r :
  runs (p ≫= f) tr r <-> exists tr1 a tr2, tr = tr1 ++ tr2 /\ runs p tr1 a /\ runs (f a) tr2 r.
Proof.
  revert tr. induction p as [a|c k IH]; intros tr; cbn.
  - split; [intros H; by exists [], a, tr | intros (tr1 & a' & tr2 & -> & [-> ->] & H); done].
  - change (proc_bind A B f) with (mbind (M := proc) f). split.
    + intros (a & tr' & -> & H). apply IH in H as (tr1 & b & tr2 & -> & H1 & H2).
      exists (existT c a :: tr1), b, tr2. split_and!; [done| |done]. eauto.
    + intros (tr1 & b & tr2 & -> & (a & tr' & -> & H1) & H2). exists a, (tr' ++ tr2). split; [done|]. apply IH. eauto 6.
Qed.

Lemma runs_call c tr (r : ans c) : runs (call c) tr r <-> tr = [existT c r].
Proof.
  cbn. split; [intros (a & tr' & -> & -> & ->); done | intros ->; eauto].
Qed.

(** ** Monitors *)

Section monitor.
Context {M : Type} (watch : M -> forall c, ans c -> option M).

Fixpoint observe (m : M) (tr : list event) : option M :=
  match tr with
  | [] => Some m
  | existT c a :: tr => m' ← watch m c a; observe m' tr
  end.

Lemma observe_app m tr1 tr2 : observe m (tr1 ++ tr2) = m' ← observe m tr1; observe m' tr2.
Proof. revert m. induction tr1 as [|[c a] tr1 IH]; intros m; [done|]. cbn. destruct (watch m c a); [apply IH|done]. Qed.

(** From [m], whatever is answered, the monitor never objects and the end is as [Q] says. *)
Fixpoint wp {A} (p : proc A) (Q : A -> M -> Prop) (m : M) : Prop :=
  match p with
  | Ret a => Q a m
  | Call c k => forall a, match watch m c a with Some m' => wp (k a) Q m' | None => False end
  end.

Lemma wp_sound {A} (p : proc A) Q m tr r : wp p Q m -> runs p tr r -> exists m', observe m tr = Some m' /\ Q r m'.
Proof.
  revert m tr. induction p as [a|c k IH]; intros m tr Hwp; cbn in *.
  - intros [-> ->]. by exists m.
  - intros (a & tr' & -> & Hr). specialize (Hwp a). cbn. destruct (watch m c a) as [m'|]; [|done]. cbn. by eapply IH.
Qed.

Lemma wp_mono {A} (p : proc A) (Q Q' : A -> M -> Prop) m : wp p Q m -> (forall a m, Q a m -> Q' a m) -> wp p Q' m.
Proof.
  intros H HQ. revert m H. induction p as [a|c k IH]; intros m H; cbn in *; [by apply HQ|].
  intros a. specialize (H a). destruct (watch m c a); [|done]. by apply IH.
Qed.

Lemma wp_bind {A B} (f : A -> proc B) p Q m : wp p (fun a m => wp (f a) Q m) m -> wp (p ≫= f) Q m.
Proof.
  revert m. induction p as [a|c k IH]; intros m H; [done|]. cbn in *. intros a. specialize (H a).
  destruct (watch m c a); [|done]. by apply (IH a).
Qed.

(** The rule for a program whose contract is known. *)
Lemma wp_then {A B} (f : A -> proc B) p P Q m : wp p P m -> (forall a m, P a m -> wp (f a) Q m) -> wp (p ≫= f) Q m.
Proof. intros Hp Hf. apply wp_bind. by eapply wp_mono. Qed.

Lemma wp_Call {A} c (k : ans c -> proc A) Q m :
  (forall a, match watch m c a with Some m' => wp (k a) Q m' | None => False end) -> wp (Call c k) Q m.
Proof. done. Qed.
Lemma wp_Ret {A} (a : A) (Q : A -> M -> Prop) m : Q a m -> wp (Ret a) Q m.
Proof. done. Qed.
End monitor.
End calls.
#[global] Arguments proc {C} ans A.
#[global] Arguments event {C} ans.

(** ** Handles *)

(** What a call makes (given its answer), gives back and needs. *)
Class Handling {C : Type} (ans : C -> Type) (H : Type) := {
  handle_eq_dec :: EqDecision H;
  made : forall c : C, ans c -> list H;
  freed : C -> list H;
  needed : C -> list H;
  parents : H -> list H;           (* live when it is made *)
  dies_with : H -> list H }.       (* goes when one of these goes *)

Section handles.
Context {C : Type} {ans : C -> Type} {H : Type} `{!Handling ans H}.

Definition live_all (live hs : list H) : bool := forallb (fun h => bool_decide (h ∈ live)) hs.
Definition without (live hs : list H) : list H := filter (fun h => h ∉ hs /\ Forall (fun d => d ∉ hs) (dies_with h)) live.

(** The discipline: only live handles are used or freed, a handle is not made twice, its parents
    are live when it is made, and nothing is left whose parent has gone. *)
Definition handling (live : list H) (c : C) (a : ans c) : option (list H) :=
  if negb (live_all live (needed c)) || negb (live_all live (freed c)) then None
  else
    let rest := without live (freed c) in
    if existsb (fun h => existsb (fun p => bool_decide (p ∈ freed c)) (parents h)) rest then None
    else
      let new := made c a in
      if existsb (fun h => bool_decide (h ∈ rest)) new || negb (forallb (fun h => live_all rest (parents h)) new) then None
      else Some (new ++ rest).

Lemma without_nil live : without live [] = live.
Proof.
  unfold without. induction live as [|h l IH]; [done|]. rewrite filter_cons_True; [by rewrite IH|].
  split; [apply not_elem_of_nil|]. apply Forall_forall. intros d _. apply not_elem_of_nil.
Qed.

(** A call that neither makes nor frees. *)
Lemma handling_same live c a : live_all live (needed c) = true -> freed c = [] -> made c a = [] -> handling live c a = Some live.
Proof.
  intros Hn Hf Hm. unfold handling. rewrite Hn, Hf, Hm, without_nil. cbn [negb orb live_all forallb existsb app].
  destruct (existsb _ live) eqn:E; [|done]. apply existsb_exists in E as (h & _ & E). apply existsb_exists in E as (p & _ & E).
  apply bool_decide_eq_true_1 in E. by apply not_elem_of_nil in E.
Qed.

(** Everything that was made is given back, in an order that respects what it was made from. *)
Definition balanced (tr : list (event ans)) : Prop := observe handling [] tr = Some [].

Lemma balanced_intro {A} (p : proc ans A) tr r : wp handling p (fun _ live => live = []) [] -> runs p tr r -> balanced tr.
Proof. intros Hwp Hr. destruct (wp_sound _ _ _ _ _ _ Hwp Hr) as (m & Ho & ->). done. Qed.
End handles.

(** Symbolic execution: a call is watched after its answer is split, so that the monitor computes. *)
Ltac split_answer a :=
  let T := type of a in let T := eval hnf in T in change T in a;
  lazymatch T with
  | bool => destruct a
  | unit => destruct a
  | Z => destruct a
  | option _ => let x := fresh "x" in destruct a as [x|]
  | prod bool bool => let x := fresh "x" in let y := fresh "y" in destruct a as [x y]; destruct x, y
  | _ => idtac
  end.
Ltac reduce_proc := cbv beta delta [call mret proc_ret]; cbn [mbind proc_bind negb andb orb fst snd Z.ltb Z.leb Z.compare].
(** [open_] splits an answer, [judge_] evaluates the monitor. *)
Ltac watch_step open_ judge_ :=
  refine (wp_Call _ _ _ _ _ _);
  let a := fresh "a" in intros a; open_ a;
  lazymatch goal with |- match ?x with Some _ => _ | None => False end => judge_ x end;
  cbv beta iota.
Ltac branch_in p :=
  lazymatch p with
  | mbind _ ?q => branch_in q
  | proc_bind _ _ _ ?q => branch_in q
  | match ?b with _ => _ end => first [destruct b eqn:? | destruct b]
  end.
Ltac branch := lazymatch goal with |- wp _ ?p _ _ => branch_in p end.
Ltac ask_with open_ judge_ :=
  repeat (reduce_proc;
    lazymatch goal with
    | |- wp _ (Call _ _) _ _ => watch_step open_ judge_
    | |- wp _ (Ret _) _ _ => refine (wp_Ret _ _ _ _ _); cbv beta
    | |- wp _ ?p _ _ => branch_in p
    end);
  reduce_proc.
Ltac ask_all := ask_with split_answer ltac:(fun x => let y := eval vm_compute in x in change x with y).

(** Following a run call by call. *)
Ltac follow H ans_ :=
  cbn [mbind proc_bind call mret proc_ret runs] in H;
  lazymatch type of H with
  | ex _ => let tr' := fresh "tr" in destruct H as (ans_ & tr' & -> & H); cbv beta iota in H
  | _ = [] /\ _ => let Hr := fresh "Hr" in destruct H as [-> Hr]
  end.
