(* ===== verification/Plist.v ===== *)
(** * Plist: the Foundation values the host inspects

    Dictionaries, arrays, strings and numbers as the property-list and JSON readers
    of the platform produce them.  A number knows whether it is the Boolean
    singleton ([CFBooleanGetTypeID]); a real is its exact value, [None] for NaN and
    the infinities.  A missing key and a nil object are [None]. *)

From stdpp Require Export strings.
From Stdlib Require Import QArith.
From S2P Require Import Prelude.

#[warnings="-register-all"] Inductive value :=
  | VNull
  | VBool (b : bool)
  | VInt (z : Z)
  | VReal (q : option Q)
  | VString (s : string)
  | VArray (l : list value)
  | VDict (d : list (string * value)).

(** [objectForKey:] on a dictionary; keys are unique. *)
Definition dict := list (string * value).

Fixpoint at_key (d : dict) (k : string) : option value :=
  match d with
  | [] => None
  | (k', v) :: d' => if String.eqb k' k then Some v else at_key d' k
  end.

(** [isKindOfClass:] (false on nil). *)
Definition as_dict (v : option value) : option dict := match v with Some (VDict d) => Some d | _ => None end.
Definition as_array (v : option value) : option (list value) := match v with Some (VArray l) => Some l | _ => None end.
Definition as_string (v : option value) : option string := match v with Some (VString s) => Some s | _ => None end.
Definition is_string_value (v : option value) : bool := match as_string v with Some _ => true | None => false end.

(** The exact value of a number; Booleans are the numbers 0 and 1. *)
Definition number (v : value) : option Q :=
  match v with
  | VBool b => Some (if b then 1 else 0)%Q
  | VInt z => Some (inject_Z z)
  | VReal q => q
  | _ => None
  end.
Definition is_number (v : value) : bool :=
  match v with VBool _ | VInt _ | VReal _ => true | _ => false end.
Definition is_boolean (v : value) : bool := match v with VBool _ => true | _ => false end.

(** [isEqual:]: numbers by value, arrays and dictionaries element by element. *)
Fixpoint value_eq (a b : value) : bool :=
  match a, b with
  | VNull, VNull => true
  | VString s, VString t => String.eqb s t
  | VArray l, VArray m =>
      (fix go (l m : list value) : bool :=
         match l, m with
         | [], [] => true
         | x :: l, y :: m => value_eq x y && go l m
         | _, _ => false
         end) l m
  | VDict d, VDict e =>
      Nat.eqb (length d) (length e) &&
      (fix go (d : dict) : bool :=
         match d with
         | [] => true
         | (k, x) :: d => match at_key e k with Some y => value_eq x y && go d | None => false end
         end) d
  | _, _ =>
      is_number a && is_number b &&
      match number a, number b with Some p, Some q => Qeq_bool p q | _, _ => false end
  end.

Definition is_equal (a : option value) (b : value) : bool :=
  match a with Some a => value_eq a b | None => false end.

(** The whole number a value stands for, if it is one. *)
Definition whole (q : Q) : option Z :=
  if Qnum q mod Z.pos (Qden q) =? 0 then Some (Qnum q / Z.pos (Qden q)) else None.

Lemma at_key_in d k v : at_key d k = Some v -> (k, v) ∈ d.
Proof.
  induction d as [|[k' v'] d IH]; [done|]. cbn. destruct (String.eqb_spec k' k) as [->|].
  - intros [= ->]. by left.
  - intros H. right. by apply IH.
Qed.

Lemma whole_inject z : whole (inject_Z z) = Some z.
Proof. unfold whole, inject_Z. cbn [Qnum Qden]. by rewrite Z.mod_1_r, Z.div_1_r. Qed.
