(* ===== verification/SessionPolicy.v ===== *)
(** * SessionPolicy: who may use a session

    The pure decisions of the macOS host's session and permission handling:
    auth/account-policy.h (Module [Account]), auth/boot-sign-in.h (Module [BootSignIn]),
    and the small policies of session/host-network-policy.h,
    session/permission-status.h, media/audio-tap-policy.h and
    media/audio-tap-system-alerts.h (Module [HostPolicy]). *)

From S2P Require Import Plist.
From S2P Require Import Prelude.

(** ** auth/account-policy.h *)

Module Account.

(** [uuid] is the array of 16 bytes. *)
Record PLANKMacAccountIdentity := mkAccount { uid : Z; uuid : list Z }.

Inductive PLANKMacGraphicalPhase :=
  PLANKMacScopeUnavailable | PLANKMacScopeSignIn | PLANKMacScopeDesktop.
#[export] Instance phase_eq_dec : EqDecision PLANKMacGraphicalPhase.
Proof. solve_decision. Defined.

Record PLANKMacGraphicalIdentity := mkScope {
  active : bool; generation : Z; account : PLANKMacAccountIdentity; phase : PLANKMacGraphicalPhase }.

Definition empty : list Z := replicate 16 0.

(** [memcmp] over the arrays, whose size is their type's. *)
Definition uuid_eq (a b : list Z) : bool := bool_decide (a = b).

Definition plank_macos_account_identity_valid (a : PLANKMacAccountIdentity) : bool :=
  negb (uid a =? 0) && negb (uid a =? UINT32_MAX) && negb (uuid_eq (uuid a) empty).

Definition plank_macos_graphical_identity_valid (scope : PLANKMacGraphicalIdentity) : bool :=
  if negb (active scope) || (generation scope =? 0) then false
  else match phase scope with
  | PLANKMacScopeDesktop => plank_macos_account_identity_valid (account scope)
  | PLANKMacScopeSignIn => (uid (account scope) =? 0) && uuid_eq (uuid (account scope)) empty
  | PLANKMacScopeUnavailable => false
  end.

Definition plank_macos_same_graphical_scope (before after : PLANKMacGraphicalIdentity) : bool :=
  plank_macos_graphical_identity_valid before && plank_macos_graphical_identity_valid after &&
  (generation before =? generation after) && bool_decide (phase before = phase after) &&
  (uid (account before) =? uid (account after)) &&
  uuid_eq (uuid (account before)) (uuid (account after)).

Definition plank_macos_account_may_attach (verified : PLANKMacAccountIdentity)
    (before after : PLANKMacGraphicalIdentity) : bool :=
  plank_macos_account_identity_valid verified && plank_macos_same_graphical_scope before after &&
  (bool_decide (phase after = PLANKMacScopeSignIn) ||
   ((uid verified =? uid (account after)) && uuid_eq (uuid verified) (uuid (account after)))).

Definition anonymous : PLANKMacAccountIdentity := mkAccount 0 empty.
Definition regular (a : PLANKMacAccountIdentity) : Prop :=
  uid a <> 0 /\ uid a <> UINT32_MAX /\ uuid a <> empty.

Lemma account_valid_spec a : plank_macos_account_identity_valid a = true <-> regular a.
Proof.
  unfold plank_macos_account_identity_valid, regular, uuid_eq.
  rewrite !andb_true_iff, !negb_true_iff, bool_decide_eq_false, !Z.eqb_neq. tauto.
Qed.

Lemma account_eq a b : uid a = uid b -> uuid a = uuid b -> a = b.
Proof. destruct a, b; cbn; congruence. Qed.

Lemma graphical_valid_spec scope :
  plank_macos_graphical_identity_valid scope = true <->
  active scope = true /\ generation scope <> 0 /\
  (phase scope = PLANKMacScopeSignIn /\ account scope = anonymous \/
   phase scope = PLANKMacScopeDesktop /\ regular (account scope)).
Proof.
  unfold plank_macos_graphical_identity_valid. destruct (negb _ || _) eqn:E.
  { split; [done|]. intros (Ha & Hg & _). rewrite Ha in E. lia. }
  guards. destruct (phase scope); cbn.
  - split; [done|]. by intros (_ & _ & [[? _]|[? _]]).
  - unfold uuid_eq. rewrite andb_true_iff, bool_decide_eq_true, Z.eqb_eq. split.
    + intros [Hu Hi]. split_and!; [done|lia|]. left. split; [done|]. by apply account_eq.
    + intros (_ & _ & [[_ ->]|[? _]]); done.
  - rewrite account_valid_spec. split.
    + intros Hr. split_and!; [done|lia|by right].
    + intros (_ & _ & [[? _]|[_ ?]]); done.
Qed.
End Account.
Import Account.

(** A verified account may attach exactly when it is a regular account (neither
    root nor nobody, with a UUID), the graphical scope observed before and after the
    verification is one and the same active scope of a non-zero generation, and that
    scope is either the sign-in screen with no account or the desktop of this very
    account - never another user's desktop, an unavailable scope or a changed one. *)
Theorem account_attach_exact verified before after :
  plank_macos_account_may_attach verified before after = true <->
  regular verified /\ before = after /\ active after = true /\ generation after <> 0 /\
  (phase after = PLANKMacScopeSignIn /\ account after = anonymous \/
   phase after = PLANKMacScopeDesktop /\ account after = verified).
Proof.
  unfold plank_macos_account_may_attach, plank_macos_same_graphical_scope, uuid_eq.
  rewrite !andb_true_iff, orb_true_iff, andb_true_iff, account_valid_spec, !graphical_valid_spec,
    !bool_decide_eq_true, !Z.eqb_eq. split.
  - intros [[Hr [[[[[(Ha & Hg & Hp) (Ha' & Hg' & Hp')] Egen] Eph] Euid] Euuid]] Hwho].
    split_and!; [done| |done|done|].
    + destruct before as [ab gb cb pb], after as [aa ga ca pa]. cbn in *. subst.
      f_equal. by apply account_eq.
    + destruct Hp' as [[Hs Hacc]|[Hd Hacc]]; [by left|right]. split; [done|].
      destruct Hwho as [?|[Hu Hi]]; [congruence|]. symmetry. by apply account_eq.
  - intros (Hr & -> & Ha & Hg & Hp).
    assert (phase after = PLANKMacScopeSignIn /\ account after = anonymous \/
            phase after = PLANKMacScopeDesktop /\ regular (account after)) as Hp'.
    { destruct Hp as [?|[? ->]]; [by left|by right]. }
    split_and!; try done. destruct Hp as [[? _]|[_ ->]]; [by left|by right].
Qed.

(** ** Small host policies *)

Module HostPolicy.

(** session/host-network-policy.h *)
Definition PLANKMacDefaultPingTimeoutMs : Z := 10000.
Definition PLANKMacMinimumPingTimeoutMs : Z := 200.
Definition PLANKMacMaximumPingTimeoutMs : Z := 120000.

Definition plank_macos_valid_ping_timeout (milliseconds : Z) : bool :=
  (PLANKMacMinimumPingTimeoutMs <=? milliseconds) && (milliseconds <=? PLANKMacMaximumPingTimeoutMs).

Definition plank_macos_keep_alive_interval (timeout_ms : Z) : Z :=
  if timeout_ms <? 2000 then timeout_ms / 2 else 1000.

(** A keepalive leaves before the idle deadline, in time for a second one. *)
Lemma keep_alive_before_deadline t :
  plank_macos_valid_ping_timeout t = true ->
  100 <= plank_macos_keep_alive_interval t <= 1000 /\ 2 * plank_macos_keep_alive_interval t <= t.
Proof.
  unfold plank_macos_valid_ping_timeout, plank_macos_keep_alive_interval, PLANKMacMinimumPingTimeoutMs,
    PLANKMacMaximumPingTimeoutMs. intros Ht. guards.
  destruct (Z.ltb_spec t 2000); [|lia]. pose proof (Z.mul_div_le t 2). pose proof (Z.div_le_lower_bound t 2 100). 
  pose proof (Z.div_le_upper_bound t 2 1000). lia.
Qed.

Lemma default_keep_alive : plank_macos_keep_alive_interval PLANKMacDefaultPingTimeoutMs = 1000.
Proof. reflexivity. Qed.

(** session/permission-status.h *)
Definition plank_macos_screen_input_ready (graphical screen post_event accessibility : bool) : bool :=
  graphical && screen && post_event && accessibility.

(** media/audio-tap-policy.h; process identifiers are signed. *)
Definition PLANKTapProcessOwned (owner caller candidate effective real : Z) : bool :=
  negb (owner =? 0) && (0 <? candidate) && negb (candidate =? caller) && (effective =? owner) && (real =? owner).

(** media/audio-tap-system-alerts.h: [uid], [euid] and [self] are the process's own, [console]
    the owner of /dev/console ([None]: [stat] failed), [created] whether the number and the
    dictionary could be made, and the last three the statuses of the Security calls. *)
Definition PLANKTapSystemAlertProcess (owner pid uid euid self : Z) (console : option Z) (number attributes : bool)
    (requirement code validity : bool) : bool :=
  if (owner =? 0) || negb (owner =? uid) || negb (euid =? owner) || (pid <=? 0) || (pid =? self) ||
     match console with None => true | Some c => negb (c =? owner) end then false
  else if negb number then false
  else attributes && requirement && code && validity.

(** No process is both taken as the user's own and as the system's alert service unless it
    is a foreign one of the very user on the console, and never a root owner's. *)
Lemma tap_never_root caller candidate effective real :
  PLANKTapProcessOwned 0 caller candidate effective real = false.
Proof. reflexivity. Qed.

Lemma system_alert_console owner pid uid euid self console number attributes requirement code validity :
  PLANKTapSystemAlertProcess owner pid uid euid self console number attributes requirement code validity = true ->
  owner <> 0 /\ console = Some owner /\ uid = owner /\ euid = owner /\ 0 < pid /\ pid <> self /\
  requirement = true /\ code = true /\ validity = true.
Proof.
  unfold PLANKTapSystemAlertProcess. destruct (_ || _) eqn:E; [done|]. destruct number; [|done]. cbn [negb].
  intros Hv. guards. destruct console as [c|]; [|done]. guards. split_and!; try lia; f_equal; lia.
Qed.
End HostPolicy.

(** ** auth/boot-sign-in.h *)

Module BootSignIn.

(** A [CFNumber] other than a Boolean whose value is a whole number of 32 bits. *)
Definition PLANKMacScopeNumber (v : option value) : option Z :=
  match v with
  | Some (VInt z) => if (0 <=? z) && (z <=? UINT32_MAX) then Some z else None
  | Some (VReal (Some q)) =>
      match whole q with
      | Some z => if (0 <=? z) && (z <=? UINT32_MAX) then Some z else None
      | None => None
      end
  | _ => None
  end.

Definition is_true (v : option value) : bool := match v with Some (VBool true) => true | _ => false end.
Definition is_false (v : option value) : bool := match v with Some (VBool false) => true | _ => false end.

(** [PLANKMacScopeNumber(value, &number) && number == expected]. *)
Definition scope_is (v : option value) (expected : Z) : bool :=
  match PLANKMacScopeNumber v with Some z => z =? expected | None => false end.

Definition PLANKMacBootSignInRecord (record : option value) (audit windowServerUID : Z) : bool :=
  match as_dict record with
  | None => false
  | Some d =>
      negb (audit =? 0) && negb (audit =? UINT32_MAX) &&
      negb (windowServerUID =? 0) && negb (windowServerUID =? UINT32_MAX) &&
      is_true (at_key d "kCGSSessionOnConsoleKey") &&
      is_false (at_key d "kCGSessionLoginDoneKey") &&
      is_equal (at_key d "kCGSSessionUserNameKey") (VString "unknown") &&
      scope_is (at_key d "kCGSSessionUserIDKey") windowServerUID &&
      scope_is (at_key d "kCGSSessionAuditIDKey") audit &&
      scope_is (at_key d "kSCSecuritySessionID") audit
  end.

(** The loop over the sessions: [None] is its [return NO]. *)
Fixpoint active_session (sessions : list value) (active : option value) : option (option value) :=
  match sessions with
  | [] => Some active
  | VDict d :: sessions' =>
      if is_true (at_key d "kCGSSessionOnConsoleKey")
      then match active with
           | Some _ => None
           | None => active_session sessions' (Some (VDict d))
           end
      else active_session sessions' active
  | _ :: _ => None
  end.

Definition PLANKMacBootSignInConsole (console : option value) (audit windowServerUID : Z) : bool :=
  match as_dict console with
  | None => false
  | Some d =>
      match at_key d "Name", at_key d "UID", as_array (at_key d "SessionInfo") with
      | None, None, Some sessions =>
          if (length sessions =? 0)%nat || (32 <? length sessions)%nat then false
          else match active_session sessions None with
          | Some active => PLANKMacBootSignInRecord active audit windowServerUID
          | None => false
          end
      | _, _, _ => false
      end
  end.

(** [dispatch_once] on [getpwnam_r("_windowserver")]: [found] is the account's uid if the
    lookup succeeds, [once] the value of an earlier lookup. *)
Definition PLANKMacWindowServerUID (once found : option Z) : Z :=
  default (default UINT32_MAX found) once.

(** [console] is the dynamic store's value for the console user. *)
Definition PLANKMacBootSignInSession (console : option value) (once found : option Z) (audit : Z) : bool :=
  PLANKMacBootSignInConsole console audit (PLANKMacWindowServerUID once found).

Definition on_console (v : value) : bool :=
  match v with VDict d => is_true (at_key d "kCGSSessionOnConsoleKey") | _ => false end.
Definition is_dict (v : value) : bool := match v with VDict _ => true | _ => false end.

Lemma active_session_spec sessions active :
  active_session sessions active =
  if forallb is_dict sessions then
    match filter (fun v => on_console v = true) sessions, active with
    | [], _ => Some active
    | [v], None => Some (Some v)
    | _, _ => None
    end
  else active_session sessions active.
Proof.
  revert active. induction sessions as [|v sessions IH]; intros active; [done|].
  destruct v; try done. cbn [forallb is_dict andb active_session].
  rewrite filter_cons. cbn [on_console]. destruct (is_true _) eqn:E;
    [rewrite decide_True by done|rewrite decide_False by done; apply IH].
  destruct active; [destruct (forallb _ _); [by destruct (filter _ _) as [|? []]|done]|]. rewrite IH.
  destruct (forallb _ _); [by destruct (filter _ _) as [|? []]|done].
Qed.

Lemma active_session_dicts sessions active r :
  active_session sessions active = Some r -> forallb is_dict sessions = true.
Proof.
  revert active. induction sessions as [|v sessions IH]; intros active; [done|].
  destruct v; try done. cbn. destruct (is_true _); [destruct active; [done|]|]; apply IH.
Qed.
End BootSignIn.
Import BootSignIn.

(** [v] is a number, not a Boolean, of the whole value [z]. *)
Definition whole_number (v : option value) (z : Z) : Prop :=
  v = Some (VInt z) \/ exists q, v = Some (VReal (Some q)) /\ whole q = Some z.

(** The anonymous session of a machine that nobody has signed in to since boot. *)
Record boot_session (d : dict) (audit windowServerUID : Z) : Prop := {
  bs_login : at_key d "kCGSessionLoginDoneKey" = Some (VBool false);
  bs_name : at_key d "kCGSSessionUserNameKey" = Some (VString "unknown");
  bs_user : whole_number (at_key d "kCGSSessionUserIDKey") windowServerUID;
  bs_audit : whole_number (at_key d "kCGSSessionAuditIDKey") audit;
  bs_security : whole_number (at_key d "kSCSecuritySessionID") audit }.

Lemma scope_is_spec v z : 0 <= z <= UINT32_MAX -> scope_is v z = true <-> whole_number v z.
Proof.
  intros Hz. unfold scope_is, PLANKMacScopeNumber, whole_number.
  destruct v as [v|]; [|split; [done|]; by intros [?|(? & ? & _)]].
  destruct v as [|b|n|[q|]|s|l|d]; try (split; [done|]; by intros [?|(? & ? & _)]).
  - destruct ((0 <=? n) && _) eqn:E; split.
    + intros H. left. do 2 f_equal. lia.
    + intros [[= ->]|(? & ? & _)]; [lia|done].
    + done.
    + intros [[= ->]|(? & ? & _)]; [lia|done].
  - destruct (whole q) as [n|] eqn:Eq.
    + destruct ((0 <=? n) && _) eqn:E; split.
      * intros H. right. exists q. split; [done|]. rewrite Eq. f_equal. lia.
      * intros [?|(q' & [= <-] & Hq)]; [done|]. assert (n = z) by congruence. lia.
      * done.
      * intros [?|(q' & [= <-] & Hq)]; [done|]. assert (n = z) by congruence. lia.
    + split; [done|]. intros [?|(q' & [= <-] & Hq)]; [done|]. congruence.
Qed.

Lemma is_equal_string v s : is_equal v (VString s) = true <-> v = Some (VString s).
Proof.
  split; [|intros ->; apply String.eqb_refl].
  destruct v as [v|]; [|done]. destruct v; cbn; rewrite ?andb_false_r; try done.
  by intros ->%String.eqb_eq.
Qed.

Lemma boot_record_spec record audit windowServerUID :
  in_range 32 audit -> in_range 32 windowServerUID ->
  PLANKMacBootSignInRecord record audit windowServerUID = true <->
  exists d, record = Some (VDict d) /\ on_console (VDict d) = true /\
    audit <> 0 /\ audit <> UINT32_MAX /\ windowServerUID <> 0 /\ windowServerUID <> UINT32_MAX /\
    boot_session d audit windowServerUID.
Proof.
  intros Ha Hw. unfold PLANKMacBootSignInRecord. split.
  - destruct record as [[]|]; try done. cbn [as_dict]. intros H. guards.
    exists d. split_and!; try lia; try done. constructor.
    + unfold is_false in *. by repeat case_match.
    + by apply is_equal_string.
    + apply scope_is_spec; [ranges; lia|done].
    + apply scope_is_spec; [ranges; lia|done].
    + apply scope_is_spec; [ranges; lia|done].
  - intros (d & -> & Hc & ? & ? & ? & ? & [Hl Hn Hu Hau Hs]). cbn [as_dict].
    apply is_equal_string in Hn. cbn [on_console] in Hc. rewrite Hl, Hn, Hc.
    assert (0 <= audit <= UINT32_MAX) as Ra by (ranges; lia).
    assert (0 <= windowServerUID <= UINT32_MAX) as Rw by (ranges; lia).
    rewrite (proj2 (scope_is_spec _ _ Rw) Hu), (proj2 (scope_is_spec _ _ Ra) Hau), (proj2 (scope_is_spec _ _ Ra) Hs).
    cbn [is_false andb]. lia.
Qed.

(** the console grants the boot-time sign-in scope exactly when it names no user
    at all, lists between 1 and 32 sessions, all of them dictionaries, of which exactly
    one is on the console, and that one is the WindowServer's own anonymous session of
    the caller's audit session - a Boolean where a number is expected, a second console
    session or a missing entry never grants anything. *)
Theorem boot_console_exact console audit windowServerUID :
  in_range 32 audit -> in_range 32 windowServerUID ->
  PLANKMacBootSignInConsole console audit windowServerUID = true <->
  exists d sessions s, console = Some (VDict d) /\
    at_key d "Name" = None /\ at_key d "UID" = None /\ at_key d "SessionInfo" = Some (VArray sessions) /\
    (1 <= length sessions <= 32)%nat /\ Forall (fun v => is_dict v = true) sessions /\
    filter (fun v => on_console v = true) sessions = [VDict s] /\
    audit <> 0 /\ audit <> UINT32_MAX /\ windowServerUID <> 0 /\ windowServerUID <> UINT32_MAX /\
    boot_session s audit windowServerUID.
Proof.
  intros Ha Hw. unfold PLANKMacBootSignInConsole. split.
  - destruct console as [[]|]; try done. cbn [as_dict].
    destruct (at_key d "Name") eqn:En; [done|]. destruct (at_key d "UID") eqn:Eu; [done|].
    destruct (at_key d "SessionInfo") as [v|] eqn:Es; [|done]. destruct v as [| | | | |sessions|]; try done.
    cbn [as_array]. destruct (_ || _) eqn:El; [done|].
    destruct (active_session _ _) as [act|] eqn:Eact; [|done]. intros H.
    apply boot_record_spec in H as (s & -> & Hc & Hrest); [|done..].
    pose proof (active_session_dicts _ _ _ Eact) as Hd. rewrite active_session_spec, Hd in Eact.
    exists d, sessions, s. split_and!; try done; [|lia| | |tauto..].
    + guards. lia.
    + apply Forall_forall. intros v Hv%list_elem_of_In. by eapply forallb_forall in Hd.
    + destruct (filter _ _) as [|v [|]]; [done| |done]. by injection Eact as ->.
  - intros (d & sessions & s & -> & En & Eu & Es & Hl & Hd & Hf & Hrest). cbn [as_dict].
    rewrite En, Eu, Es. cbn [as_array].
    replace ((length sessions =? 0)%nat || (32 <? length sessions)%nat) with false by lia.
    rewrite active_session_spec.
    rewrite (proj2 (forallb_forall _ _)) by (intros v Hv%list_elem_of_In; by eapply Forall_forall in Hd).
    rewrite Hf. apply boot_record_spec; [done..|]. exists s. split; [done|]. split; [|exact Hrest].
    assert (VDict s ∈ filter (fun v => on_console v = true) sessions) as Hin by (rewrite Hf; by left).
    by apply list_elem_of_filter in Hin as [? _].
Qed.

Lemma boot_console_exact_witness :
  let s := [("kCGSSessionOnConsoleKey", VBool true); ("kCGSessionLoginDoneKey", VBool false);
            ("kCGSSessionUserNameKey", VString "unknown"); ("kCGSSessionUserIDKey", VInt 88);
            ("kCGSSessionAuditIDKey", VInt 100); ("kSCSecuritySessionID", VInt 100)] in
  PLANKMacBootSignInConsole (Some (VDict [("SessionInfo", VArray [VDict s])])) 100 88 = true /\
  PLANKMacBootSignInConsole (Some (VDict [("SessionInfo", VArray [VDict s; VDict s])])) 100 88 = false.
Proof.
  intros s. split; [|reflexivity]. apply boot_console_exact; [concrete..|].
  exists [("SessionInfo", VArray [VDict s])], [VDict s], s.
  split_and!; try reflexivity; try (cbn; lia); try concrete.
  constructor; try reflexivity; by left.
Defined.
