(* ===== verification/VideoRecovery.v ===== *)
(** * VideoRecovery: apps/host/macos/media/video-recovery.h, media/native-video.m

    The Mac's video sender: which encoded samples go to the transport, under which frame
    number, and when a key frame is needed.  The transport's answer to each frame, the
    session's permission and the conversion of a sample are parameters of each step. *)

From S2P Require Import Prelude.

(** plank_transport.h *)
Definition PLANK_TRANSPORT_OK : Z := 0.
Definition PLANK_TRANSPORT_DROPPED : Z := 2.
Definition PLANK_TRANSPORT_ERROR_INVALID_ARGUMENT : Z := -1.
Definition PLANK_TRANSPORT_ERROR_INVALID_STATE : Z := -2.

Record PLANKMacVideoRecovery := mkRecovery { requested : bool; encoding : bool }.

Definition PLANKMacVideoRecoveryBegin (s : PLANKMacVideoRecovery) : bool * PLANKMacVideoRecovery :=
  if negb (requested s) || encoding s then (false, s) else (true, mkRecovery (requested s) true).

Definition PLANKMacVideoRecoverySent (s : PLANKMacVideoRecovery) (key accepted evicted : bool) : PLANKMacVideoRecovery :=
  if key && accepted then mkRecovery false (encoding s)
  else if negb accepted || evicted then mkRecovery true (encoding s)
  else s.

(** The instance variables of [PLANKMacNativeVideo] that change. *)
Record video := mkVideo { recovery : PLANKMacVideoRecovery; hasTimestamp : bool; lastPTS : Z; frameNumber : Z }.

(** [initWithEndpoint:]; [present] is whether no argument is nil. *)
Definition initWithEndpoint (present : bool) (width height : Z) : option video :=
  if negb present || (width <=? 0) || (height <=? 0) || (8192 <? width) || (8192 <? height) ||
     negb (Z.land width 1 =? 0) || negb (Z.land height 1 =? 0) then None
  else Some (mkVideo (mkRecovery true false) false 0 0).

Definition needsKeyFrame (s : video) : bool := requested (recovery s).
Definition requestKeyFrame (s : video) : video :=
  mkVideo (mkRecovery true (encoding (recovery s))) (hasTimestamp s) (lastPTS s) (frameNumber s).
Definition beginKeyFrameRequest (s : video) : bool * video :=
  let '(begun, r) := PLANKMacVideoRecoveryBegin (recovery s) in
  (begun, mkVideo r (hasTimestamp s) (lastPTS s) (frameNumber s)).
Definition completeKeyFrameRequest (s : video) : video :=
  mkVideo (mkRecovery (requested (recovery s)) false) (hasTimestamp s) (lastPTS s) (frameNumber s).

(** A frame handed to the transport. *)
Record frame := mkFrame { number : Z; pts : Z; key : bool }.

(** One sample: [allowed] is the first check (lease, validity, endpoint ready), [payload]
    the converted sample's key flag and time, [performed] whether the lease let the action
    run, [valid] the check inside the action, [sent] the transport's result.
    The result, the new state, and the frame handed over. *)
Definition sendSample (allowed : bool) (payload : option (bool * Z)) (performed valid : bool) (sent : Z) (s : video)
    : Z * video * option frame :=
  if negb allowed then (PLANK_TRANSPORT_ERROR_INVALID_STATE, s, None)
  else match payload with
  | None => (PLANK_TRANSPORT_ERROR_INVALID_ARGUMENT, s, None)
  | Some (key, pts) =>
      if (hasTimestamp s && (pts <=? lastPTS s)) || (frameNumber s =? UINT64_MAX)
      then (PLANK_TRANSPORT_ERROR_INVALID_ARGUMENT, s, None)
      else
        let next := u64 (frameNumber s + 1) in
        if requested (recovery s) && negb key then
          (PLANK_TRANSPORT_DROPPED, mkVideo (recovery s) true pts next, None)
        else if negb performed then (PLANK_TRANSPORT_ERROR_INVALID_STATE, s, None)
        else
          let result := if valid then sent else PLANK_TRANSPORT_ERROR_INVALID_STATE in
          let accepted := (result =? PLANK_TRANSPORT_OK) || (result =? PLANK_TRANSPORT_DROPPED) in
          (result,
           mkVideo (PLANKMacVideoRecoverySent (recovery s) key accepted (result =? PLANK_TRANSPORT_DROPPED)) true pts next,
           if valid then Some (mkFrame next pts key) else None)
  end.

(** ** Runs *)

Inductive event :=
  | Sample (allowed : bool) (payload : option (bool * Z)) (performed valid : bool) (sent : Z)
  | RequestKey | BeginKey | CompleteKey.

(** What the receiver may notice: a frame with the transport's answer, or a request of its own. *)
Inductive note := Handed (f : frame) (result : Z) | Requested.

Definition step (s : video) (e : event) : video * list note :=
  match e with
  | Sample allowed payload performed valid sent =>
      match sendSample allowed payload performed valid sent s with
      | (result, s, Some f) => (s, [Handed f result])
      | (_, s, None) => (s, [])
      end
  | RequestKey => (requestKeyFrame s, [Requested])
  | BeginKey => ((beginKeyFrameRequest s).2, [])
  | CompleteKey => (completeKeyFrameRequest s, [])
  end.

Fixpoint run_events (s : video) (events : list event) : video * list note :=
  match events with
  | [] => (s, [])
  | e :: events => let '(s, n) := step s e in let '(s, notes) := run_events s events in (s, n ++ notes)
  end.

(** ** The chain behind a delta frame *)

Definition accepted_result (r : Z) : Prop := r = PLANK_TRANSPORT_OK \/ r = PLANK_TRANSPORT_DROPPED.

(** [mid] are delta frames that were all queued, none at the cost of an older one, with the
    numbers after [k]. *)
Fixpoint deltas_after (k : Z) (mid : list note) : Prop :=
  match mid with
  | [] => True
  | Handed f r :: mid => key f = false /\ number f = k + 1 /\ r = PLANK_TRANSPORT_OK /\ deltas_after (k + 1) mid
  | Requested :: _ => False
  end.

(** The notes end in an accepted key frame and such deltas, the last one numbered [n]. *)
Definition chained (notes : list note) (n : Z) : Prop :=
  exists before f r mid, notes = before ++ Handed f r :: mid /\ key f = true /\ accepted_result r /\
    deltas_after (number f) mid /\ n = number f + len mid.

Definition times_below (notes : list note) (p n : Z) : Prop :=
  forall f r, Handed f r ∈ notes -> pts f <= p /\ number f <= n.

(** Every delta handed over is decodable; times and numbers increase. *)
Definition decodable (notes : list note) : Prop :=
  forall before f r after, notes = before ++ Handed f r :: after ->
    (key f = false -> chained before (number f - 1)) /\
    (forall g r', Handed g r' ∈ before -> pts g < pts f /\ number g < number f).

Record good (s : video) (notes : list note) : Prop := {
  gd_chain : requested (recovery s) = false -> chained notes (frameNumber s);
  gd_decodable : decodable notes;
  gd_times : times_below notes (lastPTS s) (frameNumber s);
  gd_first : hasTimestamp s = false -> frameNumber s = 0 /\ forall f r, Handed f r ∉ notes;
  gd_number : 0 <= frameNumber s <= UINT64_MAX }.

Lemma deltas_snoc k mid f r :
  deltas_after k mid -> key f = false -> number f = k + len mid + 1 -> r = PLANK_TRANSPORT_OK ->
  deltas_after k (mid ++ [Handed f r]).
Proof.
  revert k. induction mid as [|[g r'|] mid IH]; intros k Hm Hk Hn Hr; cbn [app deltas_after] in *.
  - cbn in Hn. split_and!; [done|lia|done|done].
  - destruct Hm as (? & ? & ? & Hm). split_and!; [done..|]. apply IH; [done..| |done]. cbn [length] in Hn. lia.
  - done.
Qed.

Lemma chained_snoc notes n f r :
  chained notes n -> key f = false -> number f = n + 1 -> r = PLANK_TRANSPORT_OK -> chained (notes ++ [Handed f r]) (n + 1).
Proof.
  intros (before & g & r' & mid & -> & Hg & Hr' & Hm & ->) Hk Hn Hr. exists before, g, r', (mid ++ [Handed f r]).
  split_and!; [by rewrite <- app_assoc|done|done|by apply deltas_snoc; [..|lia|]|]. rewrite length_app. cbn [length]. lia.
Qed.

Lemma decodable_snoc notes f r :
  decodable notes -> (key f = false -> chained notes (number f - 1)) ->
  (forall g r', Handed g r' ∈ notes -> pts g < pts f /\ number g < number f) -> decodable (notes ++ [Handed f r]).
Proof.
  intros Hd Hk Ht before g r' after E. destruct after as [|a after] using rev_ind.
  - apply app_inj_tail in E as [-> [= <- <-]]. by split.
  - change (before ++ Handed g r' :: after ++ [a]) with (before ++ (Handed g r' :: after) ++ [a]) in E. rewrite app_assoc in E.
    apply app_inj_tail in E as [-> _]. by apply (Hd before g r' after).
Qed.

Lemma decodable_requested notes : decodable notes -> decodable (notes ++ [Requested]).
Proof.
  intros Hd before g r' after E. destruct after as [|a after] using rev_ind.
  - by apply app_inj_tail in E as [-> ?].
  - change (before ++ Handed g r' :: after ++ [a]) with (before ++ (Handed g r' :: after) ++ [a]) in E. rewrite app_assoc in E.
    apply app_inj_tail in E as [-> _]. by apply (Hd before g r' after).
Qed.

(** A sample that is handed over. *)
Lemma handed_good s notes key pts result :
  good s notes -> (hasTimestamp s && (pts <=? lastPTS s)) || (frameNumber s =? UINT64_MAX) = false ->
  requested (recovery s) && negb key = false ->
  let accepted := (result =? PLANK_TRANSPORT_OK) || (result =? PLANK_TRANSPORT_DROPPED) in
  let next := u64 (frameNumber s + 1) in
  good (mkVideo (PLANKMacVideoRecoverySent (recovery s) key accepted (result =? PLANK_TRANSPORT_DROPPED)) true pts next)
    (notes ++ [Handed (mkFrame next pts key) result]).
Proof.
  intros Hg Hfresh Hneed accepted next. guards. pose proof (gd_number _ _ Hg) as Hn.
  assert (next = frameNumber s + 1) as En by (unfold next; apply wrap_small; ranges; lia).
  assert (forall g r, Handed g r ∈ notes -> VideoRecovery.pts g < pts /\ number g < next) as Hlt.
  { intros g r Hin. destruct (hasTimestamp s) eqn:Hh; [|by destruct (proj2 (gd_first _ _ Hg Hh) g r)].
    destruct (gd_times _ _ Hg g r Hin). cbn [andb] in *. lia. }
  assert (key = false -> chained notes (frameNumber s)) as Hch.
  { intros ->. apply (gd_chain _ _ Hg). by destruct (requested (recovery s)). }
  split; cbn [recovery frameNumber lastPTS hasTimestamp].
  - unfold PLANKMacVideoRecoverySent. destruct (key && accepted) eqn:Eka.
    + intros _. apply andb_true_iff in Eka as [-> Ha]. exists notes, (mkFrame next pts true), result, [].
      split_and!; [done|done| |done|cbn; lia].
      unfold accepted in Ha. apply orb_true_iff in Ha as [?%Z.eqb_eq|?%Z.eqb_eq]; [by left|by right].
    + destruct (negb accepted || _) eqn:Eacc; cbn [requested]; [done|]. intros Hreq.
      apply orb_false_iff in Eacc as [Ha Hd]. apply negb_false_iff in Ha.
      assert (key = false) as -> by (by destruct key; [rewrite Ha in Eka|]).
      rewrite En. apply chained_snoc; [by apply Hch|done|done|]. unfold accepted in Ha. lia.
  - apply decodable_snoc; [apply Hg| |done]. cbn [VideoRecovery.key number]. intros E. rewrite En.
    replace (frameNumber s + 1 - 1) with (frameNumber s) by lia. by apply Hch.
  - intros g r [Hin|Hin%list_elem_of_singleton]%elem_of_app; [destruct (Hlt g r Hin); lia|].
    injection Hin as -> ->. cbn. lia.
  - done.
  - unfold next. pose proof (wrap_range 64 (frameNumber s + 1) ltac:(lia)). ranges. lia.
Qed.

(** A state that differs only in how a key frame is asked for. *)
Lemma good_recovery s notes r :
  good s notes -> (requested r = false -> requested (recovery s) = false) ->
  good (mkVideo r (hasTimestamp s) (lastPTS s) (frameNumber s)) notes.
Proof. intros [Hc Hd Ht Hf Hn] Hr. split; cbn; try done. intros E. by apply Hc, Hr. Qed.

(** A sample that only takes a number: a delta skipped or a frame refused. *)
Lemma skipped_good s notes r pts :
  good s notes -> (hasTimestamp s && (pts <=? lastPTS s)) || (frameNumber s =? UINT64_MAX) = false -> requested r = true ->
  good (mkVideo r true pts (u64 (frameNumber s + 1))) notes.
Proof.
  intros Hg Hfresh Hr. guards. pose proof (gd_number _ _ Hg) as Hn.
  assert (u64 (frameNumber s + 1) = frameNumber s + 1) as En by (apply wrap_small; ranges; lia).
  split; cbn [recovery frameNumber lastPTS hasTimestamp]; try done; [congruence|apply Hg| |lia].
  intros f q Hin. destruct (hasTimestamp s) eqn:Hh; [|by destruct (proj2 (gd_first _ _ Hg Hh) f q)].
  destruct (gd_times _ _ Hg f q Hin). cbn [andb] in *. lia.
Qed.

Lemma step_good s notes e : good s notes -> good (step s e).1 (notes ++ (step s e).2).
Proof.
  intros Hg. destruct e as [allowed payload performed valid sent| | |]; cbn [step].
  - assert (good s (notes ++ [])) as Hsame by (by rewrite app_nil_r).
    unfold sendSample. destruct allowed; [|exact Hsame]. cbn [negb].
    destruct payload as [[key pts]|]; [|exact Hsame].
    destruct (_ || (frameNumber s =? UINT64_MAX)) eqn:Hf; [exact Hsame|].
    destruct (requested (recovery s) && negb key) eqn:Hneed.
    { cbn [fst snd]. rewrite app_nil_r. apply (skipped_good s); [done..|]. by destruct (requested (recovery s)). }
    destruct performed; [|exact Hsame]. cbn [negb]. destruct valid.
    + cbn [fst snd]. by apply handed_good.
    + cbn [fst snd]. rewrite app_nil_r. apply (skipped_good s); [done..|].
      unfold PLANKMacVideoRecoverySent. by destruct key.
  - cbn [fst snd]. split; cbn [requestKeyFrame recovery requested frameNumber lastPTS hasTimestamp]; try done.
    + apply decodable_requested, Hg.
    + intros f r [Hin|Hin%list_elem_of_singleton]%elem_of_app; [by apply (gd_times _ _ Hg f r)|done].
    + intros E. destruct (gd_first _ _ Hg E) as [? Hno]. split; [done|].
      intros f r [Hin|Hin%list_elem_of_singleton]%elem_of_app; [by apply (Hno f r)|done].
    + apply Hg.
  - cbn [fst snd]. rewrite app_nil_r. unfold beginKeyFrameRequest.
    destruct (PLANKMacVideoRecoveryBegin (recovery s)) as [begun r] eqn:E. cbn [snd]. apply good_recovery; [done|].
    unfold PLANKMacVideoRecoveryBegin in E. destruct (_ || _); by injection E as <- <-.
  - cbn [fst snd]. rewrite app_nil_r. by apply good_recovery.
Qed.

Lemma run_good s events notes : good s notes -> good (run_events s events).1 (notes ++ (run_events s events).2).
Proof.
  revert s notes. induction events as [|e events IH]; intros s notes Hg; cbn [run_events]; [by rewrite app_nil_r|].
  apply (step_good _ _ e) in Hg. destruct (step s e) as [s1 n]. cbn [fst snd] in Hg.
  specialize (IH s1 (notes ++ n) Hg). destruct (run_events s1 events) as [s2 ns]. cbn [fst snd] in *. by rewrite app_assoc.
Qed.

Lemma initial_good present width height s : initWithEndpoint present width height = Some s -> good s [].
Proof.
  unfold initWithEndpoint. destruct (_ || _); [done|]. intros [= <-]. split; cbn; try done.
  - intros before f r after E. by destruct before.
  - intros f r Hin%elem_of_nil. done.
  - intros _. split; [done|]. intros f r Hin%elem_of_nil. done.
Qed.

(** C17: The video the receiver gets.  Over every sequence of samples (with any answer of
    the session, the encoder and the transport), requests and completions: a delta frame is
    handed to the transport only when the frames before it, back to a key frame the
    transport accepted, were all queued under consecutive numbers, none evicted an older
    one and no key frame was requested in between; times and numbers strictly increase and
    never overflow; a key frame is begun exactly when one is needed and none is being
    encoded, so never twice before its completion. *)
Theorem video_stream_decodable present width height s0 events :
  initWithEndpoint present width height = Some s0 ->
  let '(s, notes) := run_events s0 events in
  decodable notes /\ (needsKeyFrame s = false -> chained notes (frameNumber s)) /\
  0 <= frameNumber s <= UINT64_MAX /\
  (forall begun s', beginKeyFrameRequest s = (begun, s') ->
     (begun = true <-> needsKeyFrame s = true /\ encoding (recovery s) = false) /\
     (needsKeyFrame s = true -> (beginKeyFrameRequest s').1 = false)).
Proof.
  intros H0. pose proof (run_good s0 events [] (initial_good _ _ _ _ H0)) as Hg.
  destruct (run_events s0 events) as [s notes]. cbn [fst snd app] in Hg.
  split; [apply Hg|]. split; [apply Hg|]. split; [apply Hg|].
  intros begun s'. unfold beginKeyFrameRequest, PLANKMacVideoRecoveryBegin, needsKeyFrame.
  destruct (requested (recovery s)) eqn:Er, (encoding (recovery s)) eqn:Ee; cbn [negb orb]; intros [= <- <-];
    cbn [recovery requested encoding]; rewrite ?Er, ?Ee; (split; [intuition congruence|done]).
Qed.

Lemma video_stream_decodable_witness :
  let events := [Sample true (Some (false, 10)) true true 0; Sample true (Some (true, 20)) true true 0;
                 Sample true (Some (false, 30)) true true 2; Sample true (Some (false, 40)) true true 0] in
  exists s0, initWithEndpoint true 1920 1080 = Some s0 /\
    let '(s, notes) := run_events s0 events in
    notes = [Handed (mkFrame 2 20 true) 0; Handed (mkFrame 3 30 false) 2] /\ decodable notes /\ needsKeyFrame s = true.
Proof.
  intros events. eexists. split; [reflexivity|].
  destruct (video_stream_decodable true 1920 1080 _ events eq_refl) as [Hd _].
  split; [reflexivity|]. split; [exact Hd|reflexivity].
Defined.
