(* ===== verification/Diagnostics.v ===== *)
(** * Diagnostics: apps/host/macos/media/stream-diagnostics.h, media/frame-timing.h

    What the host says about a stream: the fixed label of a transport failure, the bounded
    input timings, and the bounded trace of frame times.  Text is [string]; a C string ends
    where the [string] does. *)

From S2P Require Import Prelude.

Local Open Scope string_scope.

(** ** Failure labels *)

Definition lanes : list (string * string) :=
  [("native input receiver failed:", "input-receiver-failed");
   ("native data receiver failed:", "data-receiver-failed");
   ("native data sender failed:", "data-sender-failed");
   ("native video sender failed:", "video-sender-failed");
   ("native audio sender failed:", "audio-sender-failed");
   ("native stats sampler failed:", "stats-sampler-failed");
   ("native input receiver ended while the native endpoint was active", "input-receiver-ended");
   ("native data receiver ended while the native endpoint was active", "data-receiver-ended")].

(** The loop over [lanes]. *)
Fixpoint lane_label (error : string) (l : list (string * string)) : string :=
  match l with
  | [] => "other"
  | (prefix, label) :: l => if String.prefix prefix error then label else lane_label error l
  end.

Definition PLANKMacTransportFailureClass (error : option string) : string :=
  match error with
  | None | Some EmptyString => "none"
  | Some error =>
      if String.eqb error "native input receiver failed: native input receive queue exhausted"
      then "input-receive-queue-exhausted"
      else if String.eqb error "native data receiver failed: native reliable data receive queue exhausted"
      then "data-receive-queue-exhausted"
      else lane_label error lanes
  end.

Definition labels : list string :=
  ["none"; "input-receive-queue-exhausted"; "data-receive-queue-exhausted"; "other"] ++ lanes.*2.

Lemma lane_label_in error l : lane_label error l ∈ "other" :: l.*2.
Proof.
  induction l as [|[p s] l IH]; cbn [lane_label]; [by left|]. destruct (String.prefix p error); [by right; left|].
  apply elem_of_cons in IH as [->|IH]; [by left|by right; right].
Qed.

(** Whatever the peer supplied, only one of the fixed labels is ever reported. *)
Lemma failure_class_fixed error : PLANKMacTransportFailureClass error ∈ labels.
Proof.
  unfold PLANKMacTransportFailureClass, labels. destruct error as [[|c e]|]; [by left| |by left].
  destruct (String.eqb _ _); [by right; left|]. destruct (String.eqb _ _); [by right; right; left|].
  pose proof (lane_label_in (String c e) lanes). do 3 right. done.
Qed.

Lemma prefix_of_both a b e : String.prefix a e = true -> String.prefix b e = true -> String.prefix a b = true \/ String.prefix b a = true.
Proof.
  revert b e. induction a as [|x a IH]; intros b e Ha Hb; [left; by destruct b|].
  destruct b as [|y b]; [by right|]. destruct e as [|z e]; [done|]. cbn [String.prefix] in *.
  destruct (Ascii.ascii_dec x z) as [->|]; [|done]. destruct (Ascii.ascii_dec y z) as [->|]; [|done].
  destruct (Ascii.ascii_dec z z); [|done]. by apply (IH b e).
Qed.

Definition incomparable (a b : string) : bool := negb (String.prefix a b) && negb (String.prefix b a).

(** The lanes are told apart by their prefixes: their order does not matter. *)
Lemma lanes_incomparable i j p q :
  lanes.*1 !! i = Some p -> lanes.*1 !! j = Some q -> i <> j -> incomparable p q = true.
Proof.
  intros Hp Hq Hij.
  assert (forallb (fun i => forallb (fun j => (i =? j)%nat ||
            match lanes.*1 !! i, lanes.*1 !! j with Some p, Some q => incomparable p q | _, _ => true end)
            (seq 0 8)) (seq 0 8) = true) as Hall by reflexivity.
  pose proof (lookup_lt_Some _ _ _ Hp) as Hi. pose proof (lookup_lt_Some _ _ _ Hq) as Hj. cbn in Hi, Hj.
  rewrite forallb_forall in Hall. specialize (Hall i ltac:(apply in_seq; lia)). cbn beta in Hall.
  rewrite forallb_forall in Hall. specialize (Hall j ltac:(apply in_seq; lia)). cbn beta in Hall.
  rewrite Hp, Hq in Hall. apply orb_true_iff in Hall as [?%Nat.eqb_eq|?]; done.
Qed.

Lemma lane_exclusive error i j p q :
  lanes.*1 !! i = Some p -> lanes.*1 !! j = Some q -> String.prefix p error = true -> String.prefix q error = true -> i = j.
Proof.
  intros Hp Hq Ep Eq. destruct (decide (i = j)) as [|Hij]; [done|].
  pose proof (lanes_incomparable i j p q Hp Hq Hij) as Hc. unfold incomparable in Hc.
  destruct (prefix_of_both p q error Ep Eq) as [E|E]; rewrite E in Hc; by rewrite ?andb_false_r in Hc.
Qed.

Local Close Scope string_scope.

(** ** Input timings *)

Record PLANKMacInputTiming := mkTiming { count : Z; slow : Z; maximum : Z }.
Definition timing_zero : PLANKMacInputTiming := mkTiming 0 0 0.

Definition PLANKMacInputTimingNote (t : PLANKMacInputTiming) (start finish : Z) : PLANKMacInputTiming :=
  if finish <? start then t
  else
    let elapsed := u64 (finish - start) in
    mkTiming (u64 (count t + 1)) (if 20000000 <=? elapsed then u64 (slow t + 1) else slow t)
      (if maximum t <? elapsed then elapsed else maximum t).

(** The elapsed times of the events in order. *)
Definition elapsed_times (l : list (Z * Z)) : list Z := (fun p => p.2 - p.1) <$> filter (fun p => p.1 <= p.2) l.

(** ** Frame times *)

Definition PLANK_FRAME_TIMING_CAPACITY : Z := 8192.
Definition PLANK_FRAME_TIMING_DURATION_NS : Z := 120000000000.

Record PLANKFrameTimingRecord := mkFrameRecord {
  capture_ns : Z; submitted_ns : Z; completed_ns : Z; handled_ns : Z; sent_ns : Z; pts_ns : Z; number : Z; bytes_ : Z;
  in_flight : Z; forced : Z; key : Z; stage : Z; result : Z }.
Definition frame_record_zero : PLANKFrameTimingRecord := mkFrameRecord 0 0 0 0 0 0 0 0 0 0 0 0 0.

(** [records] is the array up to [count]; the rest of it is zero. *)
Record PLANKFrameTiming := mkTrace { origin_ns : Z; wall_ns : Z; records : list PLANKFrameTimingRecord }.

(** [enabled] is the environment variable, [allocated] whether memory was available. *)
Definition PLANKFrameTimingCreate (enabled : option string) (allocated : bool) : option PLANKFrameTiming :=
  match enabled with
  | Some e => if String.eqb e "1" && allocated then Some (mkTrace 0 0 []) else None
  | None => None
  end.

(** The index of the new record, if there is one, and the trace. *)
Definition PLANKFrameTimingAppend (trace : option PLANKFrameTiming) (now : Z) : option nat * option PLANKFrameTiming :=
  match trace with
  | None => (None, None)
  | Some t =>
      if (now <? origin_ns t) || (PLANK_FRAME_TIMING_DURATION_NS <=? u64 (now - origin_ns t)) ||
         (len (records t) =? PLANK_FRAME_TIMING_CAPACITY) then (None, trace)
      else (Some (length (records t)), Some (mkTrace (origin_ns t) (wall_ns t)
             (records t ++ [mkFrameRecord now 0 0 0 0 0 0 0 0 0 0 0 0])))
  end.

(** The numbers of the lines that are printed: first, columns, rows, last. *)
Inductive trace_line := BeginLine (wall origin n : Z) | ColumnsLine | RowLine (i : nat) (r : PLANKFrameTimingRecord) | EndLine.
Definition PLANKFrameTimingDump (trace : option PLANKFrameTiming) (output : bool) : list trace_line :=
  match trace with
  | Some t =>
      if output then
        BeginLine (wall_ns t) (origin_ns t) (len (records t)) :: ColumnsLine :: imap RowLine (records t) ++ [EndLine]
      else []
  | None => []
  end.

(** The trace holds at most its capacity, of captures within two minutes of its origin. *)
Definition trace_ok (t : PLANKFrameTiming) : Prop :=
  len (records t) <= PLANK_FRAME_TIMING_CAPACITY /\
  Forall (fun r => origin_ns t <= capture_ns r < origin_ns t + PLANK_FRAME_TIMING_DURATION_NS) (records t).

Lemma trace_append_ok t now i t' :
  in_range 64 (origin_ns t) -> in_range 64 now -> trace_ok t -> PLANKFrameTimingAppend (Some t) now = (i, Some t') ->
  trace_ok t' /\ origin_ns t' = origin_ns t /\ records t `prefix_of` records t' /\
  (forall k, i = Some k -> exists r, records t' !! k = Some r /\ capture_ns r = now).
Proof.
  intros Ho Hn [Hl Hr]. unfold PLANKFrameTimingAppend. destruct (_ || (_ =? PLANK_FRAME_TIMING_CAPACITY)) eqn:E.
  { intros [= <- <-]. split_and!; try done. }
  intros [= <- <-]. guards. assert (u64 (now - origin_ns t) = now - origin_ns t) as Eu by (apply wrap_small; ranges; lia).
  rewrite Eu in *. split_and!; cbn [origin_ns records].
  - split; cbn [records origin_ns].
    + rewrite length_app. cbn [length]. unfold PLANK_FRAME_TIMING_CAPACITY in *. lia.
    + apply Forall_app. split; [done|]. apply Forall_singleton. cbn [capture_ns]. lia.
  - done.
  - by apply prefix_app_r.
  - intros k [= <-]. eexists. split; [by rewrite list_lookup_middle|done].
Qed.

Lemma note_later t a b :
  in_range 64 a -> in_range 64 b -> a <= b -> 0 <= count t < 2 ^ 64 - 1 -> 0 <= slow t < 2 ^ 64 - 1 ->
  PLANKMacInputTimingNote t a b =
    mkTiming (count t + 1) (slow t + if 20000000 <=? b - a then 1 else 0) (Z.max (maximum t) (b - a)).
Proof.
  intros Ha Hb Hab Hc Hs. unfold PLANKMacInputTimingNote. rewrite (proj2 (Z.ltb_ge _ _)) by done.
  rewrite (wrap_small 64 (b - a)) by (ranges; lia). rewrite !wrap_small by (ranges; lia).
  f_equal; [destruct (20000000 <=? b - a); lia|]. destruct (Z.ltb_spec (maximum t) (b - a)); lia.
Qed.

(** The aggregates are the number of well-ordered events, of those of 20 ms or more, and the longest. *)
Lemma note_spec l t :
  Forall (fun p => in_range 64 p.1 /\ in_range 64 p.2) l ->
  0 <= count t -> 0 <= slow t -> count t + len l < 2 ^ 64 -> slow t + len l < 2 ^ 64 ->
  foldl (fun t p => PLANKMacInputTimingNote t p.1 p.2) t l =
    mkTiming (count t + len (elapsed_times l)) (slow t + len (filter (fun e => 20000000 <= e) (elapsed_times l)))
      (foldl Z.max (maximum t) (elapsed_times l)).
Proof.
  revert t. induction l as [|[a b] l IH]; intros t Hl Hc Hs Hcl Hsl.
  { destruct t. cbn. by rewrite !Z.add_0_r. }
  apply Forall_cons in Hl as [[Ha Hb] Hl]. cbn [fst snd length] in *. cbn [foldl fst snd].
  unfold elapsed_times in *. rewrite filter_cons. cbn [fst snd].
  destruct (Z.lt_ge_cases b a) as [Hlt|Hge].
  - rewrite decide_False by lia. replace (PLANKMacInputTimingNote t a b) with t; [apply IH; [done|lia..]|].
    unfold PLANKMacInputTimingNote. by rewrite (proj2 (Z.ltb_lt _ _)) by done.
  - rewrite decide_True by lia. cbn [fmap list_fmap fst snd length foldl]. rewrite note_later by (done || lia).
    rewrite filter_cons. destruct (Z.leb_spec 20000000 (b - a)).
    + rewrite decide_True by done. rewrite IH; cbn [count slow maximum length]; [|done|lia..]. f_equal; lia.
    + rewrite decide_False by lia. rewrite IH; cbn [count slow maximum]; [|done|lia..]. f_equal; lia.
Qed.
