(* ===== verification/WacomBridge.v ===== *)
(** * WacomBridge: probes/wacom/plank-wacom-raw-bridge.cpp

    The bridge that carries a tablet's raw HID reports over a TCP connection: its framing,
    the client that owns the hidraw devices, and the host that recreates them through UHID.
    Parameters: the Linux headers' constants ([UAPI]), the tablet behind the hidraw ioctls,
    and what each system call transfers ([turn]); structures are copied in little-endian
    byte order with the packing the source asks for. *)

From S2P Require Import Prelude.
From S2P Require Import Endian.

(** ** What the Linux headers define *)

Class UAPI := {
  UHID_DATA_MAX : Z; HID_MAX_DESCRIPTOR_SIZE : Z; EINVAL : Z;
  UHID_FEATURE_REPORT : Z; UHID_OUTPUT_REPORT : Z; UHID_INPUT_REPORT : Z;
  data_max_range : 1024 <= UHID_DATA_MAX <= 32768;
  descriptor_range : 0 < HID_MAX_DESCRIPTOR_SIZE <= UHID_DATA_MAX;
  report_types_differ : NoDup [UHID_FEATURE_REPORT; UHID_OUTPUT_REPORT; UHID_INPUT_REPORT];
  einval_range : 0 < EINVAL < 32768 }.

(** The values of linux/uhid.h, linux/hid.h and errno.h. *)
#[refine, export] Instance linux : UAPI := {|
  UHID_DATA_MAX := 4096; HID_MAX_DESCRIPTOR_SIZE := 4096; EINVAL := 22;
  UHID_FEATURE_REPORT := 0; UHID_OUTPUT_REPORT := 1; UHID_INPUT_REPORT := 2 |}.
Proof. all: try lia. by apply (bool_decide_unpack _). Defined.

(** ** The connection *)

(** One call of [send] or [recv]: interrupted, failed, or moving up to [n + 1] bytes. *)
Inductive turn := Interrupted | Broken | Upto (n : nat).

(** The turns are those of the calls to come; [None] when they run out (the call blocks). *)
Fixpoint write_all (data out : list Z) (turns : list turn) : option (bool * list Z * list turn) :=
  match data with
  | [] => Some (true, out, turns)
  | _ :: _ =>
      match turns with
      | [] => None
      | Interrupted :: turns => write_all data out turns
      | Broken :: turns => Some (false, out, turns)
      | Upto n :: turns => write_all (drop (S n) data) (out ++ take (S n) data) turns
      end
  end.

(** [pending] is what the peer has sent before it closed; a [recv] at its end returns 0. *)
Fixpoint read_all (size : nat) (got pending : list Z) (turns : list turn)
    : option (option (list Z) * list Z * list turn) :=
  match size with
  | O => Some (Some got, pending, turns)
  | S _ =>
      match turns with
      | [] => None
      | Interrupted :: turns => read_all size got pending turns
      | Broken :: turns => Some (None, pending, turns)
      | Upto n :: turns =>
          match take (Nat.min (S n) size) pending with
          | [] => Some (None, pending, turns)
          | received => read_all (size - length received) (got ++ received) (drop (length received) pending) turns
          end
      end
  end.

(** ** Frames *)

Section bridge.
Context `{UAPI}.

Definition kMagic : Z := 0x504c5748.
Definition kVersion : Z := 1.
Definition kMaximumPayload : Z := UHID_DATA_MAX + 64.

(** [MessageType]; a received type can be any 16-bit value. *)
Definition type_device : Z := 1.
Definition type_descriptor : Z := 2.
Definition type_input : Z := 3.
Definition type_get_report : Z := 4.
Definition type_get_report_reply : Z := 5.
Definition type_set_report : Z := 6.
Definition type_set_report_reply : Z := 7.
Definition type_output : Z := 8.
Definition type_detach : Z := 9.

Record frame := mkFrame { type : Z; interface : Z; transaction : Z; payload : list Z }.

Definition sizeof_WireHeader : nat := 20.
Definition WireHeader (f : frame) : list Z :=
  header [FLE 4 kMagic; FLE 2 kVersion; FLE 2 (type f); FLE 2 (interface f); FLE 2 0;
          FLE 4 (transaction f); FLE 4 (len (payload f))].

Definition send_frame (f : frame) (out : list Z) (turns : list turn) : option (bool * list Z * list turn) :=
  if kMaximumPayload <? len (payload f) then Some (false, out, turns)
  else
    '(ok, out, turns) ← write_all (WireHeader f) out turns;
    if negb ok then Some (false, out, turns)
    else if len (payload f) =? 0 then Some (true, out, turns)
    else write_all (payload f) out turns.

(** Magic, version, type, interface, transaction and size of a received header. *)
Definition read_WireHeader (h : list Z) : option (Z * Z * Z * Z * Z * Z) :=
  magic ← read_le h 0 4; version ← read_le h 4 2; type ← read_le h 6 2; interface ← read_le h 8 2;
  transaction ← read_le h 12 4; size ← read_le h 16 4;
  Some (magic, version, type, interface, transaction, size).

(** The payload after an admissible header. *)
Definition receive_payload (type interface transaction size : Z) (pending : list Z) (turns : list turn)
    : option (option frame * list Z * list turn) :=
  if size =? 0 then Some (Some (mkFrame type interface transaction []), pending, turns)
  else
    '(p, pending, turns) ← read_all (Z.to_nat size) [] pending turns;
    Some (option_map (mkFrame type interface transaction) p, pending, turns).

Definition receive_frame (pending : list Z) (turns : list turn) : option (option frame * list Z * list turn) :=
  '(h, pending, turns) ← read_all sizeof_WireHeader [] pending turns;
  match h return option (option frame * list Z * list turn) with
  | None => Some (None, pending, turns)
  | Some h =>
      '(magic, version, type, interface, transaction, size) ← read_WireHeader h;
      if negb (magic =? kMagic) || negb (version =? kVersion) || (kMaximumPayload <? size)
      then Some (None, pending, turns)
      else receive_payload type interface transaction size pending turns
  end.

(** A message without a payload, or with the bytes of a value. *)
Definition message (type interface transaction : Z) (payload : list Z) : frame := mkFrame type interface transaction payload.

(** ** Connecting *)

(** Each address: whether [socket] succeeds and, with one, whether connecting (binding and
    listening) does.  The chosen address, and those whose socket was closed again. *)
Fixpoint connect_tcp (i : nat) (addresses : list (bool * bool)) : option nat * list nat :=
  match addresses with
  | [] => (None, [])
  | (opened, connected) :: addresses =>
      if opened && connected then (Some i, [])
      else let '(r, closed) := connect_tcp (S i) addresses in (r, if opened then i :: closed else closed)
  end.
Definition listen_tcp (i : nat) (addresses : list (bool * bool)) : option nat * list nat := connect_tcp i addresses.

(** ** The client's devices *)

Record DeviceMessage := mkDevice {
  interface_count : Z; bus : Z; vendor : Z; product : Z; version : Z; country : Z;
  name : list Z; physical : list Z; unique : list Z }.

Definition zeros (n : nat) : list Z := replicate n 0.
Definition device_bytes (d : DeviceMessage) : list Z :=
  header [FLE 2 (interface_count d); FLE 2 (bus d); FLE 4 (vendor d); FLE 4 (product d); FLE 4 (version d);
          FLE 4 (country d)] ++ name d ++ physical d ++ unique d.

(** What a hidraw device answers: [None] for a failed ioctl; the strings fill their buffers. *)
Record hidraw := mkHidraw {
  rawinfo : option (Z * Z * Z); rawname : option (list Z); rawphys : option (list Z); rawuniq : option (list Z);
  input_version : option Z; desc_size : option Z; desc : option (list Z) }.

(** [destination] after [copy_ioctl_string], which was zero before. *)
Definition copy_ioctl_string (size : nat) (value : option (list Z)) : list Z :=
  match value with Some v => <[(size - 1)%nat := 0]> v | None => zeros size end.

(** A C string: the bytes up to the first NUL. *)
Fixpoint c_string (l : list Z) : list Z :=
  match l with [] => [] | b :: l => if b =? 0 then [] else b :: c_string l end.

(** ["/input"] *)
Definition input_suffix : list Z := [47; 105; 110; 112; 117; 116].
(** [rfind]: the position of the last occurrence. *)
Fixpoint rfind (pattern l : list Z) : option nat :=
  match l with
  | [] => if bool_decide (pattern = []) then Some 0%nat else None
  | b :: rest =>
      match rfind pattern rest with
      | Some i => Some (S i)
      | None => if bool_decide (take (length pattern) l = pattern) then Some 0%nat else None
      end
  end.
Definition physical_group (physical : list Z) : list Z :=
  match rfind input_suffix physical with Some i => take i physical | None => physical end.

(** One interface's identity: the first one's is kept, the others must agree with it.
    [first] is the device with its physical group and unique string; [None] is return 3. *)
Definition check_interface (count : Z) (first : option (DeviceMessage * list Z * list Z)) (h : hidraw) (info : Z * Z * Z)
    : option (DeviceMessage * list Z * list Z) :=
  let '(bustype, vend, prod) := info in
  let group := physical_group (c_string (copy_ioctl_string 64 (rawphys h))) in
  let uniq := c_string (copy_ioctl_string 64 (rawuniq h)) in
  match first with
  | None =>
      Some (mkDevice count (u16 bustype) (u16 vend) (u16 prod) (default 0 (input_version h)) 0
              (copy_ioctl_string 128 (rawname h)) (copy_ioctl_string 64 (rawphys h))
              (copy_ioctl_string 64 (rawuniq h)), group, uniq)
  | Some (d, expected_group, expected_unique) =>
      if negb (bus d =? bustype) || negb (vendor d =? u16 vend) || negb (product d =? u16 prod) ||
         negb (bool_decide (group = expected_group)) ||
         (negb (bool_decide (expected_unique = [])) && negb (bool_decide (uniq = expected_unique)))
      then None else first
  end.

(** The loop over the hidraw paths ([None]: one that cannot be opened): the device and the descriptors. *)
Fixpoint open_interfaces (count : Z) (first : option (DeviceMessage * list Z * list Z)) (descriptors : list (list Z))
    (paths : list (option hidraw)) : option (option DeviceMessage * list (list Z)) :=
  match paths with
  | [] => Some (option_map (fun f => f.1.1) first, descriptors)
  | None :: _ => None
  | Some h :: paths =>
      info ← rawinfo h;
      first ← check_interface count first h info;
      size ← desc_size h;
      if (size <=? 0) || (HID_MAX_DESCRIPTOR_SIZE <? size) then None
      else d ← desc h; open_interfaces count (Some first) (descriptors ++ [take (Z.to_nat size) d]) paths
  end.

(** [if (!send_frame(...)) return 5;] for each frame. *)
Fixpoint send_all (fs : list frame) (out : list Z) (turns : list turn) : option (bool * list Z * list turn) :=
  match fs with
  | [] => Some (true, out, turns)
  | f :: fs =>
      '(ok, out, turns) ← send_frame f out turns;
      if negb ok then Some (false, out, turns) else send_all fs out turns
  end.

Fixpoint descriptor_frames (index : nat) (descriptors : list (list Z)) : list frame :=
  match descriptors with
  | [] => []
  | d :: descriptors => message type_descriptor (u16 (Z.of_nat index)) 0 d :: descriptor_frames (S index) descriptors
  end.
Definition hello (d : DeviceMessage) (descriptors : list (list Z)) : list frame :=
  message type_device 0 0 (device_bytes d) :: descriptor_frames 0 descriptors.

(** [run_client] up to its loop: the exit code, or attached. *)
Definition client_attach (paths : list (option hidraw)) (grabbed connected : bool) (out : list Z) (turns : list turn)
    : option ((Z + DeviceMessage * list (list Z)) * list Z * list turn) :=
  match open_interfaces (u16 (len paths)) None [] paths with
  | Some (Some d, descriptors) =>
      if negb grabbed then Some (inl 3, out, turns)
      else if negb connected then Some (inl 4, out, turns)
      else
        '(ok, out, turns) ← send_all (hello d descriptors) out turns;
        Some (if negb ok then inl 5 else inr (d, descriptors), out, turns)
  | _ => Some (inl 3, out, turns)
  end.

(** ** The host's devices *)

(** What is written to /dev/uhid, and read from it. *)
Inductive uhid_request :=
  | Create2 (name phys uniq : list Z) (rd_size bus vendor product version country : Z) (rd_data : list Z)
  | Input2 (size : Z) (data : list Z)
  | GetReportReply (id err size : Z) (data : list Z)
  | SetReportReply (id err : Z)
  | Destroy.
Inductive uhid_event :=
  | Start
  | GetReport (id rnum rtype : Z)
  | SetReport (id rnum rtype : Z) (data : list Z)
  | Output (data : list Z) (rtype : Z)
  | OtherEvent.

(** The device message of a payload of its size, its strings terminated. *)
Definition read_device (p : list Z) : option DeviceMessage :=
  interfaces ← read_le p 0 2; bus ← read_le p 2 2; vendor ← read_le p 4 4; product ← read_le p 8 4;
  version ← read_le p 12 4; country ← read_le p 16 4;
  name ← copy_from p 20 128; physical ← copy_from p 148 64; unique ← copy_from p 212 64;
  Some (mkDevice interfaces bus vendor product version country (<[127%nat := 0]> name) (<[63%nat := 0]> physical)
          (<[63%nat := 0]> unique)).
Definition sizeof_DeviceMessage : Z := 276.

(** The loop that receives [count] descriptors; [None] inside is return 5. *)
Fixpoint receive_descriptors (count : nat) (descriptors : list (list Z)) (pending : list Z) (turns : list turn)
    : option (option (list (list Z)) * list Z * list turn) :=
  match count with
  | O => Some (Some descriptors, pending, turns)
  | S count =>
      '(f, pending, turns) ← receive_frame pending turns;
      match f with
      | None => Some (None, pending, turns)
      | Some f =>
          if negb (type f =? type_descriptor) || (len descriptors <=? interface f) ||
             (len (payload f) =? 0) || (HID_MAX_DESCRIPTOR_SIZE <? len (payload f))
          then Some (None, pending, turns)
          else receive_descriptors count (<[Z.to_nat (interface f) := payload f]> descriptors) pending turns
      end
  end.

(** "plank/raw-wacom" *)
Definition phys_text : list Z := [112; 108; 97; 110; 107; 47; 114; 97; 119; 45; 119; 97; 99; 111; 109].
Definition create_event (d : DeviceMessage) (descriptor : list Z) : uhid_request :=
  Create2 (name d) (phys_text ++ zeros (64 - length phys_text)) (unique d) (u16 (len descriptor)) (bus d) (vendor d)
    (product d) (version d) (country d) descriptor.

(** The loop that creates the UHID devices; [opened] tells whether /dev/uhid can be opened and
    written, device by device.  The exit code, or none. *)
Fixpoint create_devices (d : DeviceMessage) (descriptors : list (list Z)) (opened : list bool) : option Z * list uhid_request :=
  match descriptors, opened with
  | [], _ => (None, [])
  | [] :: _, _ => (Some 5, [])
  | descriptor :: descriptors, true :: opened =>
      let '(code, created) := create_devices d descriptors opened in (code, create_event d descriptor :: created)
  | _ :: _, _ => (Some 6, [])
  end.

(** [run_host] from the accepted connection up to its loop. *)
Definition host_attach (pending : list Z) (turns : list turn) (opened : list bool)
    : option ((Z + list uhid_request) * list Z * list turn) :=
  '(f, pending, turns) ← receive_frame pending turns;
  match f with
  | None => Some (inl 5, pending, turns)
  | Some f =>
      if negb (type f =? type_device) || negb (len (payload f) =? sizeof_DeviceMessage) then Some (inl 5, pending, turns)
      else
        d ← read_device (payload f);
        if (interface_count d =? 0) || (16 <? interface_count d) then Some (inl 5, pending, turns)
        else
          '(ds, pending, turns) ← receive_descriptors (Z.to_nat (interface_count d))
                                    (replicate (Z.to_nat (interface_count d)) []) pending turns;
          match ds with
          | None => Some (inl 5, pending, turns)
          | Some ds =>
              match create_devices d ds opened with
              | (Some code, _) => Some (inl code, pending, turns)
              | (None, created) => Some (inr created, pending, turns)
              end
          end
  end.
(** ** The client's loop *)

(** The hidraw ioctls by name, with the size they encode. *)
Inductive request :=
  | HIDIOCGFEATURE (size : Z) | HIDIOCGOUTPUT (size : Z) | HIDIOCGINPUT (size : Z)
  | HIDIOCSFEATURE (size : Z) | HIDIOCSOUTPUT (size : Z) | HIDIOCSINPUT (size : Z).

(** [None] is the request 0. *)
Definition get_report_ioctl (type size : Z) : option request :=
  if type =? UHID_FEATURE_REPORT then Some (HIDIOCGFEATURE size)
  else if type =? UHID_OUTPUT_REPORT then Some (HIDIOCGOUTPUT size)
  else if type =? UHID_INPUT_REPORT then Some (HIDIOCGINPUT size)
  else None.
Definition set_report_ioctl (type size : Z) : option request :=
  if type =? UHID_FEATURE_REPORT then Some (HIDIOCSFEATURE size)
  else if type =? UHID_OUTPUT_REPORT then Some (HIDIOCSOUTPUT size)
  else if type =? UHID_INPUT_REPORT then Some (HIDIOCSINPUT size)
  else None.

Section loops.
(** The tablet: an ioctl on interface [i] with a buffer; the new state, the result, [errno],
    and the buffer afterwards. *)
Context {D : Type} (ioctl : D -> nat -> request -> list Z -> D * (Z * Z * list Z)).

(** With the request 0 nothing is called and the result is -1. *)
Definition call (d : D) (i : nat) (r : option request) (buffer : list Z) : D * (Z * Z * list Z) :=
  match r with Some r => ioctl d i r buffer | None => (d, (-1, 0, buffer)) end.
Definition error_of (r : option request) (result errno : Z) : Z :=
  if result <? 0 then match r with None => EINVAL | Some _ => errno end else 0.

(** What a received frame leads to: the loop ends, or goes on after a reply. *)
Inductive reaction := Break | Continue (reply : option frame).

(** [None]: a read outside the report or the payload. *)
Definition client_frame (d : D) (n : nat) (f : frame) : option (D * reaction) :=
  if Z.of_nat n <=? interface f then Some (d, Break)
  else
    let i := Z.to_nat (interface f) in
    if (type f =? type_get_report) && (len (payload f) =? 2) then
      rnum ← load (payload f) 0; rtype ← load (payload f) 1;
      report ← store (zeros (Z.to_nat UHID_DATA_MAX)) 0 rnum;
      let r := get_report_ioctl rtype UHID_DATA_MAX in
      let '(d, (result, errno, report)) := call d i r report in
      data ← copy_from report 0 (Z.max result 0);
      Some (d, Continue (Some (message type_get_report_reply (interface f) (transaction f)
                                 (le_bytes 4 (error_of r result errno) ++ data))))
    else if ((type f =? type_set_report) || (type f =? type_output)) && (2 <=? len (payload f)) then
      rtype ← load (payload f) 0;
      let r := set_report_ioctl rtype (len (payload f) - 1) in
      let '(d, (result, errno, _)) := call d i r (drop 1 (payload f)) in
      Some (d, Continue (if type f =? type_set_report
                         then Some (message type_set_report_reply (interface f) (transaction f)
                                      (le_bytes 4 (error_of r result errno)))
                         else None))
    else Some (d, Continue None).

(** What [poll] says of the socket. *)
Inductive readiness := Hangup | Readable | Quiet.

Record client := mkClient {
  tablet : D; c_pending : list Z; c_reads : list turn; c_out : list Z; c_writes : list turn }.

(** The loop over the interfaces: a report that was read is sent; a failed send ends the
    loop over the interfaces (and not the one around it). *)
Fixpoint client_reports (i : Z) (reports : list (option (list Z))) (c : client) : option client :=
  match reports with
  | [] => Some c
  | None :: reports => client_reports (i + 1) reports c
  | Some [] :: reports => client_reports (i + 1) reports c
  | Some report :: reports =>
      '(ok, out, turns) ← send_frame (message type_input (u16 i) 0 report) (c_out c) (c_writes c);
      let c := mkClient (tablet c) (c_pending c) (c_reads c) out turns in
      if negb ok then Some c else client_reports (i + 1) reports c
  end.

(** One iteration with [n] interfaces: whether the loop goes on. *)
Definition client_poll (n : nat) (status : readiness) (reports : list (option (list Z))) (c : client) : option (bool * client) :=
  match status with
  | Hangup => Some (false, c)
  | Quiet => c ← client_reports 0 reports c; Some (true, c)
  | Readable =>
      '(f, pending, turns) ← receive_frame (c_pending c) (c_reads c);
      let c := mkClient (tablet c) pending turns (c_out c) (c_writes c) in
      match f return option (bool * client) with
      | None => Some (false, c)
      | Some f =>
          '(d, reaction) ← client_frame (tablet c) n f;
          let c := mkClient d (c_pending c) (c_reads c) (c_out c) (c_writes c) in
          match reaction return option (bool * client) with
          | Break => Some (false, c)
          | Continue None => c ← client_reports 0 reports c; Some (true, c)
          | Continue (Some reply) =>
              '(ok, out, turns) ← send_frame reply (c_out c) (c_writes c);
              let c := mkClient (tablet c) (c_pending c) (c_reads c) out turns in
              if negb ok then Some (false, c) else c ← client_reports 0 reports c; Some (true, c)
          end
      end
  end.

(** The loop over successive polls, then the farewell. *)
Fixpoint client_loop (n : nat) (polls : list (readiness * list (option (list Z)))) (c : client) : option client :=
  match polls with
  | [] => Some c
  | (status, reports) :: polls =>
      '(on, c) ← client_poll n status reports c;
      if negb on then Some c else client_loop n polls c
  end.
Definition client_run (n : nat) (polls : list (readiness * list (option (list Z)))) (c : client) : option client :=
  c ← client_loop n polls c;
  '(_, out, turns) ← send_frame (message type_detach 0 0 []) (c_out c) (c_writes c);
  Some (mkClient (tablet c) (c_pending c) (c_reads c) out turns).
End loops.

(** ** The host's loop *)

(** A received frame: [None] ends the loop, otherwise what is written to which device. *)
Definition host_frame (n : nat) (f : frame) : option (list (Z * uhid_request)) :=
  if type f =? type_detach then None
  else if Z.of_nat n <=? interface f then None
  else if type f =? type_input then Some [(interface f, Input2 (u16 (len (payload f))) (payload f))]
  else if (type f =? type_get_report_reply) && (4 <=? len (payload f)) then
    Some [(interface f, GetReportReply (transaction f) (u16 (le_value (take 4 (payload f)))) (u16 (len (payload f) - 4))
             (drop 4 (payload f)))]
  else if (type f =? type_set_report_reply) && (len (payload f) =? 4) then
    Some [(interface f, SetReportReply (transaction f) (u16 (le_value (take 4 (payload f)))))]
  else Some [].

(** An event of a UHID device: the frame it is forwarded as. *)
Definition host_event (i : Z) (e : uhid_event) : option frame :=
  match e with
  | GetReport id rnum rtype => Some (message type_get_report (u16 i) id [rnum; rtype])
  | SetReport id _ rtype data => Some (message type_set_report (u16 i) id (rtype :: data))
  | Output data rtype => Some (message type_output (u16 i) 0 (rtype :: data))
  | Start | OtherEvent => None
  end.

Record host := mkHost {
  h_pending : list Z; h_reads : list turn; h_out : list Z; h_writes : list turn; uhid : list (Z * uhid_request) }.

(** The loop over the UHID devices; the result of sending is ignored. *)
Fixpoint host_events (i : Z) (events : list (option uhid_event)) (h : host) : option host :=
  match events with
  | [] => Some h
  | None :: events => host_events (i + 1) events h
  | Some e :: events =>
      match host_event i e with
      | None => host_events (i + 1) events h
      | Some f =>
          '(_, out, turns) ← send_frame f (h_out h) (h_writes h);
          host_events (i + 1) events (mkHost (h_pending h) (h_reads h) out turns (uhid h))
      end
  end.

Definition host_poll (n : nat) (status : readiness) (events : list (option uhid_event)) (h : host) : option (bool * host) :=
  match status with
  | Hangup => Some (false, h)
  | Quiet => h ← host_events 0 events h; Some (true, h)
  | Readable =>
      '(f, pending, turns) ← receive_frame (h_pending h) (h_reads h);
      let h := mkHost pending turns (h_out h) (h_writes h) (uhid h) in
      match f return option (bool * host) with
      | None => Some (false, h)
      | Some f =>
          if type f =? type_detach then h ← host_events 0 events h; Some (false, h)
          else
            match host_frame n f return option (bool * host) with
            | None => Some (false, h)
            | Some written =>
                h ← host_events 0 events (mkHost (h_pending h) (h_reads h) (h_out h) (h_writes h) (uhid h ++ written));
                Some (true, h)
            end
      end
  end.

Fixpoint host_loop (n : nat) (polls : list (readiness * list (option uhid_event))) (h : host) : option host :=
  match polls with
  | [] => Some h
  | (status, events) :: polls =>
      '(on, h) ← host_poll n status events h;
      if negb on then Some h else host_loop n polls h
  end.

(** [run_host] after attaching: at the end every device is destroyed. *)
Definition host_run (n : nat) (polls : list (readiness * list (option uhid_event))) (h : host) : option host :=
  h ← host_loop n polls h;
  Some (mkHost (h_pending h) (h_reads h) (h_out h) (h_writes h)
          (uhid h ++ map (fun i => (Z.of_nat i, Destroy)) (seq 0 n))).
End bridge.

(** ** Arguments *)

Inductive command :=
  | RunHost (address service : string)
  | RunClient (address service : string) (hidraw_paths grab_paths : list string)
  | Usage.

(** The options after the service. *)
Fixpoint client_options (arguments hidraw_paths grab_paths : list string) : option (list string * list string) :=
  match arguments with
  | [] => Some (hidraw_paths, grab_paths)
  | option :: value :: arguments =>
      if String.eqb option "--hidraw" then client_options arguments (hidraw_paths ++ [value]) grab_paths
      else if String.eqb option "--grab" then client_options arguments hidraw_paths (grab_paths ++ [value])
      else None
  | [_] => None
  end.

(** [main], from [argv + 1]; [Usage] exits with 2. *)
Definition main (arguments : list string) : command :=
  match arguments with
  | [a1; a2; a3; a4] =>
      if String.eqb a1 "--listen" && String.eqb a4 "--allow-insecure-qualification" then RunHost a2 a3 else Usage
  | a1 :: a2 :: a3 :: rest =>
      if String.eqb a1 "--connect" && (3 <=? length rest)%nat then
        match client_options rest [] [] with
        | Some ([], _) | None => Usage
        | Some (hidraw_paths, grab_paths) => RunClient a2 a3 hidraw_paths grab_paths
        end
      else Usage
  | _ => Usage
  end.

(** ** The connection carries frames *)

(** Enough calls that transfer, and none that fails. *)
Fixpoint moves (turns : list turn) : nat :=
  match turns with [] => 0 | Upto _ :: turns => S (moves turns) | _ :: turns => moves turns end.
Definition lasting (n : nat) (turns : list turn) : Prop := (Broken ∉ turns) /\ (n <= moves turns)%nat.

Lemma lasting_interrupted n turns : lasting n (Interrupted :: turns) -> lasting n turns.
Proof. intros [Hb Hn]. split; [by apply not_elem_of_cons in Hb as [_ ?]|exact Hn]. Qed.
Lemma lasting_upto n m turns : lasting (S n) (Upto m :: turns) -> lasting n turns.
Proof. intros [Hb Hn]. split; [by apply not_elem_of_cons in Hb as [_ ?]|]. cbn in Hn. lia. Qed.
Lemma lasting_mono n m turns : lasting n turns -> (m <= n)%nat -> lasting m turns.
Proof. intros [Hb Hn] ?. split; [done|lia]. Qed.

Lemma write_all_lasting data out turns k :
  lasting (length data + k) turns ->
  exists turns', write_all data out turns = Some (true, out ++ data, turns') /\ lasting k turns'.
Proof.
  revert data out. induction turns as [|t turns IH]; intros data out Hl.
  { destruct data as [|b data]; [by exists []; rewrite app_nil_r|]. destruct Hl as [_ Hl]. cbn in Hl. lia. }
  destruct data as [|b data].
  { exists (t :: turns). split; [by cbn; rewrite app_nil_r|exact Hl]. }
  cbn [write_all]. destruct t as [| |n].
  - apply IH. by apply lasting_interrupted.
  - by destruct Hl as [[? _]%not_elem_of_cons _].
  - destruct (IH (drop (S n) (b :: data)) (out ++ take (S n) (b :: data))) as (turns' & -> & Hl').
    + apply (lasting_mono (length data + k)); [by eapply lasting_upto|]. rewrite length_drop. cbn [length]. lia.
    + exists turns'. split; [|done]. by rewrite <- app_assoc, take_drop.
Qed.

Lemma read_all_lasting data got more turns k :
  lasting (length data + k) turns ->
  exists turns', read_all (length data) got (data ++ more) turns = Some (Some (got ++ data), more, turns') /\ lasting k turns'.
Proof.
  revert data got. induction turns as [|t turns IH]; intros data got Hl.
  { destruct data as [|b data]; [by exists []; rewrite app_nil_r|]. destruct Hl as [_ Hl]. cbn in Hl. lia. }
  destruct data as [|b data].
  { exists (t :: turns). split; [by cbn; rewrite app_nil_r|exact Hl]. }
  cbn [read_all length]. destruct t as [| |n].
  - apply (IH (b :: data)). by apply lasting_interrupted.
  - by destruct Hl as [[? _]%not_elem_of_cons _].
  - set (r := Nat.min (S n) (S (length data))). assert (1 <= r <= S (length data))%nat as Hr by (unfold r; lia).
    assert (take r ((b :: data) ++ more) = take r (b :: data)) as -> by (apply take_app_le; cbn [length]; lia).
    assert (length (take r (b :: data)) = r) as Hlen by (rewrite length_take; cbn [length]; lia).
    destruct (take r (b :: data)) as [|x xs] eqn:Ex; [cbn in Hlen; lia|]. cbn [length] in Hlen. rewrite Hlen, <- Ex.
    rewrite drop_app_le by (cbn [length]; lia).
    replace (S (length data) - r)%nat with (length (drop r (b :: data))) by (rewrite length_drop; cbn [length]; lia).
    destruct (IH (drop r (b :: data)) (got ++ take r (b :: data))) as (turns' & -> & Hl').
    + apply (lasting_mono (length data + k)); [by eapply lasting_upto|]. rewrite length_drop. cbn [length]. lia.
    + exists turns'. split; [|done]. by rewrite <- app_assoc, take_drop.
Qed.

Lemma lasting_upto_all n m : lasting n (replicate n (Upto m)).
Proof.
  split; [by intros [? _]%elem_of_replicate|]. induction n as [|n IH]; cbn; [done|]. lia.
Qed.

Section proofs.
Context `{UAPI}.

(** A frame as the two ends exchange it. *)
Record sound_frame (f : frame) : Prop := {
  sf_type : in_range 16 (type f); sf_interface : in_range 16 (interface f); sf_transaction : in_range 32 (transaction f);
  sf_size : len (payload f) <= kMaximumPayload }.

Definition frame_bytes (f : frame) : list Z := WireHeader f ++ payload f.

Lemma WireHeader_length f : length (WireHeader f) = sizeof_WireHeader.
Proof. apply Nat2Z.inj. unfold WireHeader. by rewrite header_length. Qed.

Lemma read_WireHeader_sound f :
  sound_frame f ->
  read_WireHeader (WireHeader f) = Some (kMagic, kVersion, type f, interface f, transaction f, len (payload f)).
Proof.
  intros [Ht Hi Htr Hs]. unfold read_WireHeader. rewrite <- (app_nil_r (WireHeader f)). unfold WireHeader.
  pose proof data_max_range. unfold kMaximumPayload in Hs.
  rewrite (read_field_le _ _ 0 4 kMagic) by (done || lia). cbn [mbind option_bind].
  rewrite (read_field_le _ _ 4 2 kVersion) by (done || lia). cbn [mbind option_bind].
  rewrite (read_field_le _ _ 6 2 (type f)) by (done || lia). cbn [mbind option_bind].
  rewrite (read_field_le _ _ 8 2 (interface f)) by (done || lia). cbn [mbind option_bind].
  rewrite (read_field_le _ _ 12 4 (transaction f)) by (done || lia). cbn [mbind option_bind].
  rewrite (read_field_le _ _ 16 4 (len (payload f))); [done|done| |lia]. ranges. change (2 ^ (8 * Z.of_nat 4)) with 4294967296. lia.
Qed.

Lemma send_frame_sound f out turns k :
  sound_frame f -> lasting (length (frame_bytes f) + k) turns ->
  exists turns', send_frame f out turns = Some (true, out ++ frame_bytes f, turns') /\ lasting k turns'.
Proof.
  intros Hf Hl. unfold send_frame. rewrite (proj2 (Z.ltb_ge _ _)) by apply Hf.
  unfold frame_bytes in *. rewrite length_app in Hl.
  destruct (write_all_lasting (WireHeader f) out turns (length (payload f) + k)) as (t1 & -> & Hl1).
  { by rewrite Nat.add_assoc. }
  cbn [mbind option_bind negb]. rewrite app_assoc. destruct (Z.eqb_spec (len (payload f)) 0) as [E|E].
  - destruct (payload f); [|cbn in E; lia]. exists t1. by rewrite app_nil_r.
  - by apply write_all_lasting.
Qed.

Lemma receive_frame_sound f more turns k :
  sound_frame f -> lasting (length (frame_bytes f) + k) turns ->
  exists turns', receive_frame (frame_bytes f ++ more) turns = Some (Some f, more, turns') /\ lasting k turns'.
Proof.
  intros Hf Hl. unfold receive_frame, frame_bytes in *. rewrite <- app_assoc. rewrite length_app in Hl.
  replace sizeof_WireHeader with (length (WireHeader f)) by apply WireHeader_length.
  destruct (read_all_lasting (WireHeader f) [] (payload f ++ more) turns (length (payload f) + k)) as (t1 & -> & Hl1).
  { by rewrite Nat.add_assoc. }
  cbn [mbind option_bind app]. rewrite read_WireHeader_sound by done. cbn [mbind option_bind].
  rewrite !Z.eqb_refl, (proj2 (Z.ltb_ge _ _)) by apply Hf. cbn [negb orb]. unfold receive_payload.
  destruct (Z.eqb_spec (len (payload f)) 0) as [E|E].
  - exists t1. destruct f as [ty i tr p]. cbn [type interface transaction payload] in *. by destruct p; [|cbn in E; lia].
  - rewrite Nat2Z.id. destruct (read_all_lasting (payload f) [] more t1 k Hl1) as (t2 & -> & Hl2).
    exists t2. split; [|done]. cbn. by destruct f.
Qed.

Lemma send_all_sound fs out turns k :
  Forall sound_frame fs -> lasting (length (concat (map frame_bytes fs)) + k) turns ->
  exists turns', send_all fs out turns = Some (true, out ++ concat (map frame_bytes fs), turns') /\ lasting k turns'.
Proof.
  intros Hf. revert out turns. induction Hf as [|f fs Hf _ IH]; intros out turns Hl; cbn [send_all map concat] in *.
  { exists turns. by rewrite app_nil_r. }
  rewrite length_app, <- Nat.add_assoc in Hl.
  destruct (send_frame_sound f out turns _ Hf Hl) as (t1 & -> & Hl1). cbn [mbind option_bind negb].
  destruct (IH (out ++ frame_bytes f) t1 Hl1) as (t2 & -> & Hl2). exists t2. by rewrite <- app_assoc.
Qed.

(** ** Attaching *)

Definition ok_descriptor (d : list Z) : Prop := 0 < len d <= HID_MAX_DESCRIPTOR_SIZE.

Record sound_device (d : DeviceMessage) : Prop := {
  sd_count : in_range 16 (interface_count d); sd_bus : in_range 16 (bus d); sd_vendor : in_range 32 (vendor d);
  sd_product : in_range 32 (product d); sd_version : in_range 32 (version d); sd_country : in_range 32 (country d);
  sd_name : length (name d) = 128%nat /\ name d !! 127%nat = Some 0;
  sd_physical : length (physical d) = 64%nat /\ physical d !! 63%nat = Some 0;
  sd_unique : length (unique d) = 64%nat /\ unique d !! 63%nat = Some 0 }.

(** The hidraw driver fills the buffers it is given. *)
Record sound_hidraw (h : hidraw) : Prop := {
  sh_name : forall v, rawname h = Some v -> length v = 128%nat;
  sh_phys : forall v, rawphys h = Some v -> length v = 64%nat;
  sh_uniq : forall v, rawuniq h = Some v -> length v = 64%nat;
  sh_version : forall v, input_version h = Some v -> in_range 32 v;
  sh_desc : forall n v, desc_size h = Some n -> desc h = Some v -> n <= len v }.

Lemma copy_ioctl_string_spec n value :
  (forall v, value = Some v -> length v = S n) ->
  length (copy_ioctl_string (S n) value) = S n /\ copy_ioctl_string (S n) value !! n = Some 0.
Proof.
  intros Hv. unfold copy_ioctl_string. rewrite Nat.sub_succ, Nat.sub_0_r. destruct value as [v|].
  - specialize (Hv v eq_refl). rewrite length_insert. split; [done|]. apply list_lookup_insert_eq. lia.
  - unfold zeros. rewrite length_replicate. split; [done|]. apply lookup_replicate_2. lia.
Qed.

Lemma device_bytes_length d : sound_device d -> len (device_bytes d) = sizeof_DeviceMessage.
Proof.
  intros Hd. unfold device_bytes. rewrite !length_app, !Nat2Z.inj_add, header_length.
  rewrite (proj1 (sd_name d Hd)), (proj1 (sd_physical d Hd)), (proj1 (sd_unique d Hd)). reflexivity.
Qed.

Lemma read_device_bytes d : sound_device d -> read_device (device_bytes d) = Some d.
Proof.
  intros [Hc Hb Hv Hp Hver Hco [Hn Hn0] [Hph Hph0] [Hu Hu0]]. unfold read_device, device_bytes.
  rewrite (read_field_le _ _ 0 2 (interface_count d)) by (done || lia). cbn [mbind option_bind].
  rewrite (read_field_le _ _ 2 2 (bus d)) by (done || lia). cbn [mbind option_bind].
  rewrite (read_field_le _ _ 4 4 (vendor d)) by (done || lia). cbn [mbind option_bind].
  rewrite (read_field_le _ _ 8 4 (product d)) by (done || lia). cbn [mbind option_bind].
  rewrite (read_field_le _ _ 12 4 (version d)) by (done || lia). cbn [mbind option_bind].
  rewrite (read_field_le _ _ 16 4 (country d)) by (done || lia). cbn [mbind option_bind].
  set (h := header _). assert (len h = 20) as Hh by (unfold h; by rewrite header_length).
  rewrite (copy_from_app h (name d) _ 20 128) by lia. cbn [mbind option_bind]. rewrite app_assoc.
  rewrite (copy_from_app (h ++ name d) (physical d) _ 148 64) by (rewrite ?length_app; lia). cbn [mbind option_bind].
  rewrite app_assoc, (copy_from_suffix ((h ++ name d) ++ physical d) (unique d) 212 64) by (rewrite ?length_app; lia).
  cbn [mbind option_bind]. rewrite !list_insert_id by done. by destruct d.
Qed.

Lemma check_interface_sound count first h info f :
  in_range 16 count -> sound_hidraw h -> (forall f, first = Some f -> sound_device f.1.1 /\ interface_count f.1.1 = count) ->
  check_interface count first h info = Some f -> sound_device f.1.1 /\ interface_count f.1.1 = count.
Proof.
  intros Hc Hh Hf. unfold check_interface. destruct info as [[bustype vend] prod].
  destruct first as [[[d g] u]|].
  - destruct (_ || _); [done|]. intros [= <-]. by apply (Hf (d, g, u)).
  - intros [= <-]. split; [|done]. assert (forall z, in_range 32 (u16 z)) as H16.
    { intros z. apply (in_range_mono 16); [lia|]. apply wrap_range. lia. }
    split; cbn [fst interface_count bus vendor product version country]; try (by apply wrap_range); try apply H16; try done.
    + destruct (input_version h) as [v|] eqn:E; [by apply (sh_version h Hh)|by split].
    + apply copy_ioctl_string_spec, (sh_name h Hh).
    + apply copy_ioctl_string_spec, (sh_phys h Hh).
    + apply copy_ioctl_string_spec, (sh_uniq h Hh).
Qed.

Lemma open_interfaces_spec count first ds paths d ds' :
  in_range 16 count -> Forall (fun p => forall h, p = Some h -> sound_hidraw h) paths ->
  (forall f, first = Some f -> sound_device f.1.1 /\ interface_count f.1.1 = count) -> Forall ok_descriptor ds ->
  open_interfaces count first ds paths = Some (Some d, ds') ->
  sound_device d /\ interface_count d = count /\ Forall ok_descriptor ds' /\ length ds' = (length ds + length paths)%nat.
Proof.
  intros Hc Hp. revert first ds. induction Hp as [|p paths Hp _ IH]; intros first ds Hf Hds; cbn [open_interfaces].
  { destruct first as [f|]; [|done]. intros [= <- <-]. cbn [length]. rewrite Nat.add_0_r. split_and!; try done; by apply Hf. }
  destruct p as [h|]; [|done]. specialize (Hp h eq_refl).
  destruct (rawinfo h) as [info|]; [|done]. cbn [mbind option_bind].
  destruct (check_interface count first h info) as [f|] eqn:Ef; [|done]. cbn [mbind option_bind].
  apply check_interface_sound in Ef; [|done..].
  destruct (desc_size h) as [n|] eqn:En; [|done]. cbn [mbind option_bind].
  destruct (_ || (_ <? n)) eqn:Eb; [done|]. destruct (desc h) as [v|] eqn:Ev; [|done]. cbn [mbind option_bind].
  intros Ho. apply IH in Ho; [| |].
  - destruct Ho as (? & ? & ? & ->). split_and!; [done..|]. rewrite length_app. cbn [length]. lia.
  - by intros g [= <-].
  - apply Forall_app. split; [done|]. apply Forall_singleton. unfold ok_descriptor.
    pose proof (sh_desc h Hp n v En Ev). guards. rewrite length_take. lia.
Qed.

Lemma descriptor_frame_sound i d : ok_descriptor d -> sound_frame (message type_descriptor (u16 (Z.of_nat i)) 0 d).
Proof.
  intros Hd. pose proof descriptor_range. unfold ok_descriptor in Hd.
  split; cbn [type interface transaction payload message]; [done|by apply wrap_range|done|]. unfold kMaximumPayload. lia.
Qed.

Lemma descriptor_frames_sound i ds : Forall ok_descriptor ds -> Forall sound_frame (descriptor_frames i ds).
Proof.
  intros Hds. revert i. induction Hds as [|d ds Hd _ IH]; intros i; constructor; [by apply descriptor_frame_sound|apply IH].
Qed.

Lemma hello_sound d ds : sound_device d -> Forall ok_descriptor ds -> Forall sound_frame (hello d ds).
Proof.
  intros Hd Hds. constructor; [|by apply descriptor_frames_sound]. pose proof data_max_range.
  split; cbn [type interface transaction payload message]; try done. rewrite device_bytes_length by done.
  unfold kMaximumPayload, sizeof_DeviceMessage. lia.
Qed.

Lemma receive_descriptors_sound ds before more turns k :
  Forall ok_descriptor ds -> len before + len ds <= 65536 ->
  lasting (length (concat (map frame_bytes (descriptor_frames (length before) ds))) + k) turns ->
  exists turns', receive_descriptors (length ds) (before ++ replicate (length ds) [])
      (concat (map frame_bytes (descriptor_frames (length before) ds)) ++ more) turns = Some (Some (before ++ ds), more, turns') /\
    lasting k turns'.
Proof.
  intros Hds. revert before turns. induction Hds as [|d ds Hd _ IH]; intros before turns Hn Hl.
  { exists turns. cbn in *. by rewrite app_nil_r. }
  cbn [descriptor_frames map concat length receive_descriptors replicate] in *.
  rewrite length_app, <- Nat.add_assoc in Hl. rewrite <- app_assoc.
  destruct (receive_frame_sound (message type_descriptor (u16 (Z.of_nat (length before))) 0 d)
              (concat (map frame_bytes (descriptor_frames (S (length before)) ds)) ++ more) turns _
              (descriptor_frame_sound _ _ Hd) Hl) as (t1 & -> & Hl1).
  cbn [mbind option_bind type interface payload message].
  assert (u16 (Z.of_nat (length before)) = len before) as -> by (apply wrap_small; ranges; lia).
  rewrite Z.eqb_refl. unfold ok_descriptor in Hd. rewrite !length_app. cbn [length].
  rewrite (proj2 (Z.leb_gt _ _)) by lia. rewrite (proj2 (Z.eqb_neq (len d) 0)) by lia. rewrite (proj2 (Z.ltb_ge _ (len d))) by lia.
  cbn [negb orb]. rewrite Nat2Z.id. rewrite insert_app_r_alt by lia. rewrite Nat.sub_diag. cbn [insert list_insert].
  change (d :: replicate (length ds) []) with ([d] ++ replicate (length ds) []). rewrite app_assoc.
  destruct (IH (before ++ [d]) t1) as (t2 & E & Hl2); rewrite ?length_app; cbn [length].
  - lia.
  - by rewrite Nat.add_1_r.
  - rewrite length_app, Nat.add_1_r in E. rewrite E. exists t2. by rewrite <- app_assoc.
Qed.

Lemma create_devices_all d ds :
  Forall ok_descriptor ds -> create_devices d ds (replicate (length ds) true) = (None, map (create_event d) ds).
Proof.
  induction 1 as [|p ds Hp _ IH]; [done|]. cbn [length replicate create_devices map]. rewrite IH.
  destruct p; [unfold ok_descriptor in Hp; cbn in Hp; lia|done].
Qed.

(** ** Any peer *)

Lemma read_le_nonneg p i n v : read_le p i n = Some v -> 0 <= v.
Proof.
  unfold read_le. enough (forall i0 acc, 0 <= acc -> read_le_loop p i i0 n acc = Some v -> 0 <= v) as Hn.
  { intros E. eapply Hn; [|exact E]. lia. }
  induction n as [|n IH]; intros i0 acc Ha; cbn [read_le_loop]; [by intros [= <-]|].
  destruct (load p (i + i0)) as [b|]; [|done]. cbn [mbind option_bind]. apply IH, Z.lor_nonneg. split; [done|].
  apply wrap_range. lia.
Qed.

Lemma read_device_count p d : read_device p = Some d -> read_le p 0 2 = Some (interface_count d).
Proof.
  unfold read_device. intros Ed.
  repeat match type of Ed with
  | (?x ≫= _) = _ => let E := fresh "E" in destruct x eqn:E; [cbn [mbind option_bind] in Ed|done]
  end. by injection Ed as <-.
Qed.

Lemma receive_descriptors_length n ds pending turns ds' p t :
  receive_descriptors n ds pending turns = Some (Some ds', p, t) -> Forall (fun d => len d <= HID_MAX_DESCRIPTOR_SIZE) ds ->
  length ds' = length ds /\ Forall (fun d => len d <= HID_MAX_DESCRIPTOR_SIZE) ds'.
Proof.
  revert ds pending turns. induction n as [|n IH]; intros ds pending turns; cbn [receive_descriptors].
  { by intros [= -> -> ->]. }
  destruct (receive_frame pending turns) as [[[[f|] p1] t1]|]; [|done..]. cbn [mbind option_bind].
  destruct (_ || (_ <? len (payload f))) eqn:E; [done|]. intros Hr Hds. guards.
  apply IH in Hr; [by rewrite length_insert in Hr|]. apply Forall_insert; [done|lia].
Qed.

Definition created_ok (u : uhid_request) : Prop :=
  match u with
  | Create2 _ _ _ size _ _ _ _ _ data => 0 < len data <= HID_MAX_DESCRIPTOR_SIZE /\ size = len data
  | _ => False
  end.

Lemma create_devices_ok d ds opened created :
  Forall (fun d => len d <= HID_MAX_DESCRIPTOR_SIZE) ds -> create_devices d ds opened = (None, created) ->
  length created = length ds /\ Forall created_ok created.
Proof.
  intros Hds. revert opened created. induction Hds as [|p ds Hp _ IH]; intros opened created; cbn [create_devices].
  { intros [= <-]. by split. }
  destruct p as [|b p]; [done|]. destruct opened as [|[|] opened]; try done.
  destruct (create_devices d ds opened) as [code cs] eqn:E. intros [= -> <-].
  destruct (IH _ _ E) as [? ?]. split; [cbn [length]; lia|]. constructor; [|done].
  pose proof descriptor_range. pose proof data_max_range. split; [cbn [length] in *; lia|]. apply wrap_small. ranges.
  cbn [length] in *. lia.
Qed.

Lemma host_attach_safe pending turns opened created p t :
  host_attach pending turns opened = Some (inr created, p, t) -> (1 <= length created <= 16)%nat /\ Forall created_ok created.
Proof.
  unfold host_attach. destruct (receive_frame pending turns) as [[[[f|] p1] t1]|]; [|done..]. cbn [mbind option_bind].
  destruct (_ || _); [done|]. destruct (read_device (payload f)) as [d|] eqn:Ed; [|done]. cbn [mbind option_bind].
  destruct (_ || (16 <? _)) eqn:Ec; [done|].
  destruct (receive_descriptors _ _ p1 t1) as [[[[ds|] p2] t2]|] eqn:Er; [|done..]. cbn [mbind option_bind].
  apply receive_descriptors_length in Er; [|apply Forall_replicate; cbn; pose proof descriptor_range; lia].
  destruct Er as [Hlen Hds]. rewrite length_replicate in Hlen.
  destruct (create_devices d ds opened) as [[code|] cs] eqn:E; [done|]. intros [= -> <- <-].
  apply create_devices_ok in E; [|done]. destruct E as [Hl Hok]. split; [|done].
  assert (0 <= interface_count d) as Hnn.
  { by apply read_device_count, read_le_nonneg in Ed. }
  guards. lia.
Qed.


(** ** Reports *)

(** Only the interface or device [i] is ready. *)
Definition only {A} (i : nat) (x : A) : list (option A) := replicate i None ++ [Some x].

Lemma host_forwards n i e f reads writes :
  host_event (Z.of_nat i) e = Some f -> sound_frame f -> lasting (length (frame_bytes f)) writes ->
  exists writes', host_poll n Quiet (only i e) (mkHost [] reads [] writes []) =
    Some (true, mkHost [] reads (frame_bytes f) writes' []).
Proof.
  intros He Hf Hl. destruct (send_frame_sound f [] writes 0 Hf) as (t & Ht & _); [by rewrite Nat.add_0_r|].
  exists t. cbn [host_poll]. enough (forall j k, Z.of_nat i = j + Z.of_nat k ->
    host_events j (only k e) (mkHost [] reads [] writes []) = Some (mkHost [] reads (frame_bytes f) t [])) as ->; [done|lia|].
  intros j k. revert j. unfold only. induction k as [|k IH]; intros j Hj; cbn [replicate app host_events].
  - replace j with (Z.of_nat i) by lia. rewrite He. cbn [h_out h_writes]. by rewrite Ht.
  - apply IH. lia.
Qed.

Lemma client_sends {D} (ioctl : D -> nat -> request -> list Z -> D * (Z * Z * list Z)) n i report d reads writes :
  let f := message type_input (u16 (Z.of_nat i)) 0 report in
  report <> [] -> sound_frame f -> lasting (length (frame_bytes f)) writes ->
  exists writes', client_poll ioctl n Quiet (only i report) (mkClient d [] reads [] writes) =
    Some (true, mkClient d [] reads (frame_bytes f) writes').
Proof.
  intros f Hr Hf Hl. destruct (send_frame_sound f [] writes 0 Hf) as (t & Ht & _); [by rewrite Nat.add_0_r|].
  exists t. cbn [client_poll]. enough (forall j k, Z.of_nat i = j + Z.of_nat k ->
    client_reports j (only k report) (mkClient d [] reads [] writes) = Some (mkClient d [] reads (frame_bytes f) t)) as ->; [done|lia|].
  intros j k. revert j. unfold only. induction k as [|k IH]; intros j Hj; cbn [replicate app client_reports].
  - replace j with (Z.of_nat i) by lia. destruct report; [done|]. cbn [c_out c_writes]. fold f. by rewrite Ht.
  - apply IH. lia.
Qed.

Lemma client_hears {D} (ioctl : D -> nat -> request -> list Z -> D * (Z * Z * list Z)) n f d d' reply reads writes :
  sound_frame f -> lasting (length (frame_bytes f)) reads -> client_frame ioctl d n f = Some (d', Continue reply) ->
  match reply with Some r => sound_frame r /\ lasting (length (frame_bytes r)) writes | None => True end ->
  exists reads' writes', client_poll ioctl n Readable [] (mkClient d (frame_bytes f) reads [] writes) =
    Some (true, mkClient d' [] reads' (match reply with Some r => frame_bytes r | None => [] end) writes').
Proof.
  intros Hf Hl Hc Hr. cbn [client_poll c_pending c_reads].
  destruct (receive_frame_sound f [] reads 0 Hf) as (t & Ht & _); [by rewrite Nat.add_0_r|]. rewrite app_nil_r in Ht.
  rewrite Ht. cbn [mbind option_bind tablet]. rewrite Hc. cbn [mbind option_bind c_out c_writes]. destruct reply as [r|].
  - destruct Hr as [Hr Hlr]. destruct (send_frame_sound r [] writes 0 Hr) as (t' & -> & _); [by rewrite Nat.add_0_r|].
    by exists t, t'.
  - by exists t, writes.
Qed.

Lemma host_hears n f written reads writes :
  sound_frame f -> lasting (length (frame_bytes f)) reads -> type f <> type_detach -> host_frame n f = Some written ->
  exists reads', host_poll n Readable [] (mkHost (frame_bytes f) reads [] writes []) =
    Some (true, mkHost [] reads' [] writes written).
Proof.
  intros Hf Hl Ht Hh. cbn [host_poll h_pending h_reads].
  destruct (receive_frame_sound f [] reads 0 Hf) as (t & E & _); [by rewrite Nat.add_0_r|]. rewrite app_nil_r in E.
  rewrite E. cbn [mbind option_bind]. rewrite (proj2 (Z.eqb_neq _ _)) by done. rewrite Hh. by exists t.
Qed.

Definition longest : nat := Z.to_nat (20 + kMaximumPayload).

Lemma sound_message t i id p :
  in_range 16 t -> in_range 32 id -> len p <= kMaximumPayload -> sound_frame (message t (u16 i) id p).
Proof. intros. split; cbn; [done|by apply wrap_range|done|done]. Qed.

Lemma sound_lasting f turns : sound_frame f -> lasting longest turns -> lasting (length (frame_bytes f)) turns.
Proof.
  intros Hf Hl. apply (lasting_mono _ _ _ Hl). unfold frame_bytes, longest. rewrite length_app, WireHeader_length.
  pose proof (sf_size f Hf). unfold sizeof_WireHeader. lia.
Qed.
End proofs.

(** What the kernel promises of the hidraw ioctls: they fill at most their buffer. *)
Definition fits {D} (ioctl : D -> nat -> request -> list Z -> D * (Z * Z * list Z)) : Prop :=
  forall d i r buffer, let '(_, (result, errno, buffer')) := ioctl d i r buffer in
    length buffer' = length buffer /\ result <= len buffer /\ 0 <= errno < 2 ^ 31.

Section transparent.
Context `{UAPI} {D : Type} (ioctl : D -> nat -> request -> list Z -> D * (Z * Z * list Z)) (Hfits : fits ioctl).

Lemma call_fits d i r buffer :
  let '(_, (result, errno, buffer')) := call ioctl d i r buffer in
  length buffer' = length buffer /\ result <= len buffer /\ in_range 32 (error_of r result errno).
Proof.
  unfold call, error_of. pose proof einval_range. destruct r as [r|].
  - specialize (Hfits d i r buffer). destruct (ioctl d i r buffer) as [d' [[result errno] buffer']].
    destruct Hfits as (? & ? & ?). split_and!; [done|done|]. destruct (result <? 0); ranges; lia.
  - split_and!; [done|lia|]. cbn. ranges. lia.
Qed.

Lemma client_get_report d n i id rnum rtype :
  (i < n <= 16)%nat -> in_range 32 id ->
  let r := get_report_ioctl rtype UHID_DATA_MAX in
  let '(d', (result, errno, report)) := call ioctl d i r (<[0%nat := rnum]> (zeros (Z.to_nat UHID_DATA_MAX))) in
  let answer := message type_get_report_reply (u16 (Z.of_nat i)) id
    (le_bytes 4 (error_of r result errno) ++ take (Z.to_nat (Z.max result 0)) report) in
  client_frame ioctl d n (message type_get_report (u16 (Z.of_nat i)) id [rnum; rtype]) = Some (d', Continue (Some answer)) /\
  sound_frame answer /\
  host_frame n answer = Some [(Z.of_nat i, GetReportReply id (u16 (error_of r result errno)) (Z.max result 0)
                                (take (Z.to_nat (Z.max result 0)) report))].
Proof.
  intros Hi Hid r. pose proof data_max_range as Hdm.
  set (buffer := <[0%nat := rnum]> (zeros (Z.to_nat UHID_DATA_MAX))).
  assert (len buffer = UHID_DATA_MAX) as Hb by (unfold buffer, zeros; rewrite length_insert, length_replicate; lia).
  pose proof (call_fits d i r buffer) as Hc. destruct (call ioctl d i r buffer) as [d' [[result errno] report]] eqn:Ec.
  destruct Hc as (Hlen & Hres & Herr). intros answer.
  assert (length (take (Z.to_nat (Z.max result 0)) report) = Z.to_nat (Z.max result 0)) as Ht by (rewrite length_take; lia).
  assert (u16 (Z.of_nat i) = Z.of_nat i) as Hu by (apply wrap_small; ranges; lia).
  split; [|split].
  - unfold client_frame, message. cbn [type interface transaction payload]. rewrite Hu, Nat2Z.id.
    rewrite (proj2 (Z.leb_gt _ _)) by lia. change (type_get_report =? type_get_report) with true.
    change (len [rnum; rtype] =? 2) with true. cbn [andb]. change (load [rnum; rtype] 0) with (Some rnum).
    change (load [rnum; rtype] 1) with (Some rtype). cbn [mbind option_bind].
    rewrite store_Some by (unfold zeros; rewrite length_replicate; lia). cbn [mbind option_bind].
    change (Z.to_nat 0) with 0%nat. fold buffer. fold r. rewrite Ec. rewrite copy_from_take by lia. cbn [mbind option_bind].
    unfold answer. by rewrite Hu.
  - apply sound_message; [done|done|]. rewrite length_app, le_bytes_length, Ht. unfold kMaximumPayload. lia.
  - unfold host_frame, answer, message. cbn [type interface transaction payload]. rewrite Hu.
    change (type_get_report_reply =? type_detach) with false. change (type_get_report_reply =? type_input) with false.
    change (type_get_report_reply =? type_get_report_reply) with true.
    rewrite (proj2 (Z.leb_gt _ (Z.of_nat i))) by lia. rewrite length_app, le_bytes_length, Ht.
    rewrite (proj2 (Z.leb_le _ _)) by lia. cbn [andb].
    rewrite take_app_length', drop_app_length' by (by rewrite le_bytes_length).
    rewrite le_value_bytes by done. rewrite (wrap_small 16 (Z.of_nat (4 + _) - 4)) by (ranges; lia). do 4 f_equal. lia.
Qed.

Lemma client_set_report d n i id rtype data (t : Z) :
  (i < n <= 16)%nat -> t = type_set_report \/ t = type_output -> 0 < len data <= UHID_DATA_MAX ->
  let r := set_report_ioctl rtype (len data) in
  let '(d', (result, errno, _)) := call ioctl d i r data in
  let answer := message type_set_report_reply (u16 (Z.of_nat i)) id (le_bytes 4 (error_of r result errno)) in
  client_frame ioctl d n (message t (u16 (Z.of_nat i)) id (rtype :: data)) =
    Some (d', Continue (if t =? type_set_report then Some answer else None)) /\
  host_frame n answer = Some [(Z.of_nat i, SetReportReply id (u16 (error_of r result errno)))].
Proof.
  intros Hi Ht Hd r. pose proof (call_fits d i r data) as Hc.
  destruct (call ioctl d i r data) as [d' [[result errno] report]] eqn:Ec.
  destruct Hc as (_ & _ & Herr). intros answer.
  assert (u16 (Z.of_nat i) = Z.of_nat i) as Hu by (apply wrap_small; ranges; lia). split.
  - unfold client_frame, message. cbn [type interface transaction payload]. rewrite Hu, Nat2Z.id.
    rewrite (proj2 (Z.leb_gt _ _)) by lia.
    assert ((t =? type_get_report) = false) as -> by (by destruct Ht as [->| ->]). cbn [andb].
    assert ((t =? type_set_report) || (t =? type_output) = true) as -> by (by destruct Ht as [->| ->]).
    cbn [length]. rewrite (proj2 (Z.leb_le _ _)) by lia. cbn [andb]. change (load (rtype :: data) 0) with (Some rtype).
    cbn [mbind option_bind]. change (drop 1 (rtype :: data)) with data. replace (Z.of_nat (S (length data)) - 1) with (len data) by lia. fold r. rewrite Ec.
    unfold answer. by rewrite Hu.
  - unfold host_frame, answer, message. cbn [type interface transaction payload]. rewrite Hu.
    change (type_set_report_reply =? type_detach) with false. change (type_set_report_reply =? type_input) with false.
    change (type_set_report_reply =? type_get_report_reply) with false. cbn [andb].
    change (type_set_report_reply =? type_set_report_reply) with true.
    rewrite (proj2 (Z.leb_gt _ (Z.of_nat i))) by lia. rewrite le_bytes_length. change (Z.of_nat 4 =? 4) with true. cbn [andb].
    rewrite take_ge by (rewrite le_bytes_length; lia). by rewrite le_value_bytes by done.
Qed.
End transparent.


(** A tablet of two interfaces, and a kernel that moves all bytes at once. *)
Definition example_tablet (v : Z) : hidraw :=
  mkHidraw (Some (3, 1386, 837)) (Some (zeros 128)) (Some ([117; 115; 98] ++ input_suffix ++ [48 + v] ++ zeros 54)) (Some (zeros 64))
    (Some 272) (Some 3) (Some [5; 13; v]).
Definition example_turns : list turn := replicate 700 (Upto 4095).


