(* ===== verification/MacProbes.v ===== *)
(** * MacProbes: probes/macos/session-boundary.h, annexb-sample.h, installed-media-validation.h

    The judgements of the macOS qualification probes: which graphical session a probe runs
    in (Module [SessionBoundary]), the Annex B rewriting of an encoded sample (Module
    [AnnexB]), and the running statistics over delivered video (Module [ReadVideo]).
    The operating system's answers are parameters. *)

From S2P Require Import Plist.
From S2P Require Import Prelude.
From S2P Require Import Endian.
From S2P Require Import SessionPolicy.

(** ** session-boundary.h *)

Module SessionBoundary.
Import BootSignIn.

Inductive PLANKSessionPhase := PLANKSessionUnavailable | PLANKSessionLoginWindow | PLANKSessionDesktop.
#[export] Instance phase_eq_dec : EqDecision PLANKSessionPhase.
Proof. solve_decision. Defined.

Record PLANKGraphicalSession := mkSession { phase : PLANKSessionPhase; user : Z; securitySession : Z }.

(** A lossy conversion of a number fails; a Boolean is none. *)
Definition PLANKSessionNumber (d : dict) (key : string) : option Z :=
  match at_key d key with
  | Some (VInt z) => if (z <? 0) || (UINT32_MAX <? z) then None else Some z
  | Some (VReal (Some q)) =>
      match whole q with
      | Some z => if (z <? 0) || (UINT32_MAX <? z) then None else Some z
      | None => None
      end
  | _ => None
  end.

(** [info]: the security session's identity and whether it has graphic access ([None]: the
    call failed); [session]: the window server's dictionary; [console]: the console user's
    name and identifier ([None]: no name).  [noSecuritySession] is 0. *)
Definition PLANKReadGraphicalSession (info : option (Z * bool)) (session : option dict) (console : option (string * Z))
    (euid : Z) : PLANKGraphicalSession :=
  match info with
  | None => mkSession PLANKSessionUnavailable 0 0
  | Some (identity, graphic) =>
      if (identity =? 0) || negb graphic then mkSession PLANKSessionUnavailable 0 0
      else match session with
      | None => mkSession PLANKSessionUnavailable 0 identity
      | Some d =>
          if negb (is_true (at_key d "kCGSSessionOnConsoleKey")) then mkSession PLANKSessionUnavailable 0 identity
          else match PLANKSessionNumber d "kCGSSessionUserIDKey" with
          | None => mkSession PLANKSessionUnavailable 0 identity
          | Some user =>
              match console with
              | None => mkSession PLANKSessionUnavailable user identity
              | Some (name, consoleUser) =>
                  let done_ := at_key d "kCGSessionLoginDoneKey" in
                  if is_true done_ && (user =? euid) && negb (user =? 0) && (consoleUser =? user)
                  then mkSession PLANKSessionDesktop user identity
                  else if is_false done_ && (euid =? 0) && (user =? 0) && (consoleUser =? 0) && String.eqb name "loginwindow"
                  then mkSession PLANKSessionLoginWindow user identity
                  else mkSession PLANKSessionUnavailable user identity
              end
          end
      end
  end.

Definition PLANKSessionMatches (initial current : PLANKGraphicalSession) : bool :=
  negb (bool_decide (phase initial = PLANKSessionUnavailable)) && bool_decide (phase initial = phase current) &&
  (user initial =? user current) && (securitySession initial =? securitySession current).

Definition PLANKSessionName (p : PLANKSessionPhase) : string :=
  match p with PLANKSessionLoginWindow => "sign-in" | PLANKSessionDesktop => "desktop" | PLANKSessionUnavailable => "unavailable" end.

(** A positive judgement names the caller's own console session; nothing is inferred from a
    missing console user. *)
Lemma session_judged info session console euid s :
  PLANKReadGraphicalSession info session console euid = s -> phase s <> PLANKSessionUnavailable ->
  exists identity d name, info = Some (identity, true) /\ identity <> 0 /\ securitySession s = identity /\
    session = Some d /\ is_true (at_key d "kCGSSessionOnConsoleKey") = true /\ console = Some (name, user s) /\ user s = euid /\
    (phase s = PLANKSessionDesktop /\ euid <> 0 \/ phase s = PLANKSessionLoginWindow /\ euid = 0 /\ name = "loginwindow"%string).
Proof.
  intros <-. unfold PLANKReadGraphicalSession. destruct info as [[identity graphic]|]; [|done].
  destruct (_ || negb graphic) eqn:E1; [done|]. destruct session as [d|]; [|done].
  destruct (is_true (at_key d "kCGSSessionOnConsoleKey")) eqn:E2; [|done]. cbn [negb].
  destruct (PLANKSessionNumber d "kCGSSessionUserIDKey") as [u|]; [|done]. destruct console as [[name c]|]; [|done].
  assert (identity <> 0 /\ graphic = true) as [Hi ->] by (destruct graphic; guards; split; congruence || lia).
  destruct (_ && (c =? u)) eqn:Ed; cbn [phase user securitySession].
  - intros _. guards. exists identity, d, name.
    split_and!; try done; [do 2 f_equal; lia|lia|left; split; [done|lia]].
  - destruct (_ && String.eqb name "loginwindow") eqn:El; [|done]. intros _. guards.
    exists identity, d, name. split_and!; try done; [do 2 f_equal; cbn; lia|cbn; lia|].
    right. split_and!; [done|lia|]. by apply String.eqb_eq.
Qed.
End SessionBoundary.

(** ** annexb-sample.h *)

Module AnnexB.

(** The output file: what is written, and how many more bytes it takes. *)
Record file := mkFile { written : list Z; room : nat }.
(** [fwrite(l, 1, n, f) == n] for the [n] bytes of [l], and the file after it. *)
Definition fwrite (l : list Z) (f : file) : bool * file :=
  (bool_decide (length l <= room f)%nat, mkFile (written f ++ take (room f) l) (room f - length l)).

Definition start : list Z := [0; 0; 0; 1].

(** The loop over the length-prefixed units; [None] is an access outside the data or no end. *)
Fixpoint unit_loop (fuel : nat) (p : list Z) (offset : Z) (f : file) : option (bool * file) :=
  match fuel with
  | O => None
  | S fuel =>
      if offset <? len p then
        if len p - offset <? 4 then Some (false, f)
        else
          nalLength ← read_u32 p offset;
          let offset := offset + 4 in
          if (nalLength =? 0) || (len p - offset <? nalLength) then Some (false, f)
          else
            let '(ok, f) := fwrite start f in
            if negb ok then Some (false, f)
            else
              nal ← copy_from p offset nalLength;
              let '(ok, f) := fwrite nal f in
              if negb ok then Some (false, f) else unit_loop fuel p (offset + nalLength) f
      else Some (true, f)
  end.

(** The parameter sets of the first sample; [None] is a failing query. *)
Fixpoint set_loop (sets : list (option (list Z))) (f : file) : bool * file :=
  match sets with
  | [] => (true, f)
  | None :: _ => (false, f)
  | Some s :: sets =>
      let '(ok, f) := fwrite start f in
      if negb ok then (false, f)
      else let '(ok, f) := fwrite s f in if negb ok then (false, f) else set_loop sets f
  end.

(** [header]: the first query's count of sets and length of the unit header ([None]: it
    failed); [sets]: the queries of the sets; [block]: the sample's bytes ([None]: no buffer),
    [copied] whether they could be copied out. *)
Definition PLANKWriteAnnexBSample (header : option (Z * Z)) (sets : list (option (list Z))) (block : option (list Z))
    (copied first : bool) (f : file) : option (bool * file) :=
  match header with
  | None => Some (false, f)
  | Some (count, headerLength) =>
      if negb (headerLength =? 4) || (8 <? count) then Some (false, f)
      else
        let '(ok, f) := if first then set_loop (take (Z.to_nat count) sets) f else (true, f) in
        if negb ok then Some (false, f)
        else match block with
        | None => Some (false, f)
        | Some p =>
            if (len p =? 0) || (64 * 1024 * 1024 <? len p) then Some (false, f)
            else if negb copied then Some (false, f)
            else unit_loop (S (length p)) p 0 f
        end
  end.

(** Units with their lengths in front, and with start codes. *)
Definition prefixed (nals : list (list Z)) : list Z := concat (map (fun n => be32 (len n) ++ n) nals).
Definition coded (nals : list (list Z)) : list Z := concat (map (fun n => start ++ n) nals).

Definition unit_ok (n : list Z) : Prop := 0 < len n < 2 ^ 32.

Lemma fwrite_room l f : (length l <= room f)%nat -> fwrite l f = (true, mkFile (written f ++ l) (room f - length l)).
Proof. intros Hl. unfold fwrite. by rewrite bool_decide_true, take_ge by lia. Qed.

Lemma prefixed_length nals : length (prefixed nals) = length (coded nals).
Proof.
  induction nals as [|n nals IH]; [done|]. unfold prefixed, coded in *. cbn [map concat].
  rewrite !length_app. change (length (be32 (len n))) with 4%nat. change (length start) with 4%nat. lia.
Qed.

Lemma unit_loop_spec nals pre f fuel :
  Forall unit_ok nals -> (length (coded nals) <= room f)%nat -> (length (prefixed nals) < fuel)%nat ->
  unit_loop fuel (pre ++ prefixed nals) (len pre) f =
    Some (true, mkFile (written f ++ coded nals) (room f - length (coded nals))).
Proof.
  intros Hn. revert pre f fuel. induction Hn as [|n nals Hn _ IH]; intros pre f fuel Hroom Hfuel.
  { destruct fuel; [lia|]. cbn [unit_loop]. unfold prefixed, coded. cbn. rewrite app_nil_r, Z.ltb_irrefl.
    rewrite app_nil_r, Nat.sub_0_r. by destruct f. }
  destruct fuel as [|fuel]; [lia|]. unfold prefixed, coded in Hroom, Hfuel |- *. cbn [map concat unit_loop] in *.
  fold (prefixed nals) in *. fold (coded nals) in *. unfold unit_ok in Hn. rewrite <- app_assoc in *.
  rewrite !length_app in Hroom, Hfuel. cbn [length be32 start] in Hroom, Hfuel.
  set (p := pre ++ be32 (len n) ++ n ++ prefixed nals).
  assert (len p = len pre + 4 + len n + len (prefixed nals)) as Hp.
  { unfold p. rewrite !length_app. change (length (be32 (len n))) with 4%nat. lia. }
  rewrite (proj2 (Z.ltb_lt _ _)) by lia. rewrite (proj2 (Z.ltb_ge _ _)) by lia.
  rewrite (read_u32_be32 pre (len n) (n ++ prefixed nals)) by (ranges; lia). cbn [mbind option_bind].
  rewrite (proj2 (Z.eqb_neq _ _)) by lia. rewrite (proj2 (Z.ltb_ge _ _)) by lia. cbn [orb].
  rewrite fwrite_room by (cbn [length start]; lia). cbn [negb].
  assert (copy_from p (len pre + 4) (len n) = Some n) as ->.
  { unfold p. rewrite app_assoc. apply copy_from_app; [|done]. rewrite length_app. change (length (be32 (len n))) with 4%nat. lia. }
  cbn [mbind option_bind]. rewrite fwrite_room by (cbn [room]; change (length start) with 4%nat; lia). cbn [negb].
  replace (len pre + 4 + len n) with (len (pre ++ be32 (len n) ++ n)).
  2: { rewrite !length_app. change (length (be32 (len n))) with 4%nat. lia. }
  assert (p = (pre ++ be32 (len n) ++ n) ++ prefixed nals) as -> by (unfold p; by rewrite <- !app_assoc).
  rewrite IH; cbn [written room]; change (length start) with 4%nat; [|lia|lia].
  do 2 f_equal. rewrite !length_app. change (length start) with 4%nat. rewrite <- !app_assoc. f_equal. lia.
Qed.

(** A success means the data was a sequence of units. *)
Lemma unit_loop_sound fuel p offset f f' :
  unit_loop fuel p offset f = Some (true, f') -> 0 <= offset <= len p -> bytes p ->
  exists nals, Forall unit_ok nals /\ drop (Z.to_nat offset) p = prefixed nals /\ written f' = written f ++ coded nals.
Proof.
  revert offset f. induction fuel as [|fuel IH]; intros offset f; cbn [unit_loop]; [done|]. intros H Ho Hb.
  destruct (Z.ltb_spec offset (len p)) as [Hlt|Hge].
  2: { injection H as <-. exists []. split_and!; [constructor|by rewrite drop_ge by lia|by rewrite app_nil_r]. }
  destruct (Z.ltb_spec (len p - offset) 4); [done|].
  assert (exists b0 b1 b2 b3 rest, drop (Z.to_nat offset) p = [b0; b1; b2; b3] ++ rest) as (b0 & b1 & b2 & b3 & rest & Hd).
  { destruct (drop (Z.to_nat offset) p) as [|b0 [|b1 [|b2 [|b3 rest]]]] eqn:E;
      try (apply (f_equal length) in E; rewrite length_drop in E; cbn in E; lia). by exists b0, b1, b2, b3, rest. }
  assert (p = take (Z.to_nat offset) p ++ [b0; b1; b2; b3] ++ rest) as Hp by (by rewrite <- Hd, take_drop).
  assert (len (take (Z.to_nat offset) p) = offset) as Ht by (rewrite length_take; lia).
  assert (bytes ([b0; b1; b2; b3] ++ rest)) as Hbd by (rewrite <- Hd; by apply Forall_drop).
  assert (is_byte b0 /\ is_byte b1 /\ is_byte b2 /\ is_byte b3) as (B0 & B1 & B2 & B3).
  { apply Forall_app in Hbd as [Hbd _]. by byte_hyps. }
  rewrite Hp in H at 1. rewrite (read_u32_app _ b0 b1 b2 b3 rest offset) in H by done. cbn [mbind option_bind] in H.
  assert (in_range 32 (join_u32 b0 b1 b2 b3)) as Hn by (by apply join_u32_range).
  remember (join_u32 b0 b1 b2 b3) as n eqn:Ejoin.
  destruct ((n =? 0) || (len p - (offset + 4) <? n)) eqn:En; [done|].
  apply orb_false_iff in En as [Hn0%Z.eqb_neq Hfit%Z.ltb_ge].
  destruct (fwrite start f) as [ok1 f1] eqn:E1. destruct ok1; [|done]. cbn [negb] in H.
  assert (length rest = Z.to_nat (len p - offset - 4)) as Hrest.
  { apply (f_equal length) in Hd. rewrite length_drop, length_app in Hd. cbn in Hd. lia. }
  assert (copy_from p (offset + 4) n = Some (take (Z.to_nat n) rest)) as Ec.
  { rewrite Hp, <- (take_drop (Z.to_nat n) rest) at 1. rewrite app_assoc. apply copy_from_app.
    - rewrite length_app. cbn [length]. lia.
    - rewrite length_take, Hrest. clear -Hn Hfit. ranges. lia. }
  rewrite Ec in H. cbn [mbind option_bind] in H. destruct (fwrite _ f1) as [ok2 f2] eqn:E2. destruct ok2; [|done]. cbn [negb] in H.
  apply IH in H; [|ranges; lia|done]. destruct H as (nals & Hok & Hdrop & Hw).
  assert (written f2 = written f ++ start ++ take (Z.to_nat n) rest) as Hw2.
  { unfold fwrite in E1, E2. injection E1 as E1 <-. injection E2 as E2 <-. cbn [written room] in *.
    apply bool_decide_eq_true in E1, E2. rewrite (take_ge start) by done. rewrite (take_ge (take (Z.to_nat n) rest)) by done.
    by rewrite <- app_assoc. }
  assert (length (take (Z.to_nat n) rest) = Z.to_nat n) as Hln by (rewrite length_take, Hrest; clear -Hn Hfit; ranges; lia).
  exists (take (Z.to_nat n) rest :: nals). split_and!.
  - constructor; [|done]. unfold unit_ok. rewrite Hln. ranges. lia.
  - unfold prefixed. cbn [map concat]. fold (prefixed nals). rewrite <- Hdrop, Hd. rewrite Hln.
    replace (Z.of_nat (Z.to_nat n)) with n by (ranges; lia). rewrite Ejoin, be32_join by done. rewrite <- Ejoin. rewrite <- app_assoc. f_equal.
    replace (Z.to_nat (offset + 4 + n)) with (Z.to_nat offset + (4 + Z.to_nat n))%nat by (ranges; lia).
    rewrite <- drop_drop, Hd. cbn [app drop Nat.add]. by rewrite take_drop.
  - rewrite Hw, Hw2. unfold coded. cbn [map concat]. by rewrite <- !app_assoc.
Qed.
End AnnexB.

(** ** installed-media-validation.h: delivered video *)

Module ReadVideo.
Section stats.
(** Times, with their comparison; codes of the formats the SDK names. *)
Context {time : Type} (compare : time -> time -> comparison) (biplanar h264 jpeg : Z).

Record PLANKReadVideoStats := mkStats {
  frames : Z; invalid : Z; bytes : Z; width : Z; height : Z; subtype : Z; firstPTS : option time; lastPTS : option time }.
Definition stats_zero : PLANKReadVideoStats := mkStats 0 0 0 0 0 0 None None.

(** A picture buffer: its format, planes and size; a sample: whether its data is ready, the
    number of samples, whether its media type is video, its subtype and dimensions, its
    time (if numeric), and its buffers. *)
Record picture := mkPicture { pixelFormat : Z; planes : Z; picture_width : Z; picture_height : Z }.
Record sample := mkSample {
  ready : bool; count : Z; is_video : bool; sample_subtype : Z; sample_width : Z; sample_height : Z;
  pts : option time; image : option picture; block : option Z }.

Definition refuse (s : PLANKReadVideoStats) : PLANKReadVideoStats :=
  mkStats (frames s) (u64 (invalid s + 1)) (bytes s) (width s) (height s) (subtype s) (firstPTS s) (lastPTS s).

Definition later_than_last (s : PLANKReadVideoStats) (t : time) : bool :=
  (frames s =? 0) || match lastPTS s with Some l => match compare t l with Gt => true | _ => false end | None => false end.

(** [None]: no sample, or one without a format description. *)
Definition PLANKReadVideo (s : PLANKReadVideoStats) (x : option sample) (pixels : bool) : bool * PLANKReadVideoStats :=
  match x with
  | None => (false, refuse s)
  | Some x =>
      if negb (ready x) || negb (count x =? 1) || negb (is_video x) then (false, refuse s)
      else match pts x with
      | None => (false, refuse s)
      | Some t =>
          let valid := (0 <? sample_width x) && (sample_width x <=? 1920) && (0 <? sample_height x) &&
            (sample_height x <=? 1080) && later_than_last s t &&
            ((frames s =? 0) || ((sample_width x =? width s) && (sample_height x =? height s) && (sample_subtype x =? subtype s))) in
          let valid' :=
            if pixels then
              valid && match image x, block x with
              | Some i, None => (sample_subtype x =? biplanar) && (pixelFormat i =? sample_subtype x) && (planes i =? 2) &&
                  (picture_width i =? sample_width x) && (picture_height i =? sample_height x)
              | _, _ => false
              end
            else
              valid && match image x with None => true | Some _ => false end &&
              ((sample_subtype x =? h264) || (sample_subtype x =? jpeg)) &&
              (0 <? default 0 (block x)) && (default 0 (block x) <=? 4 * 1024 * 1024) in
          if negb valid' then (false, refuse s)
          else
            (true, mkStats (u64 (frames s + 1)) (invalid s) (u64 (bytes s + if pixels then 0 else default 0 (block x)))
                     (sample_width x) (sample_height x) (sample_subtype x)
                     (if frames s =? 0 then Some t else firstPTS s) (Some t))
      end
  end.

(** Every delivery is counted once, as a frame or as invalid. *)
Lemma read_counts s x pixels ok s' :
  PLANKReadVideo s x pixels = (ok, s') -> 0 <= frames s -> 0 <= invalid s -> frames s + invalid s + 1 < 2 ^ 64 ->
  frames s' = frames s + (if ok then 1 else 0) /\ invalid s' = invalid s + (if ok then 0 else 1).
Proof.
  intros H Hf Hi Hb.
  assert ((ok, s') = (false, refuse s) -> frames s' = frames s + (if ok then 1 else 0) /\ invalid s' = invalid s + (if ok then 0 else 1))
    as Hrefuse.
  { intros [= -> ->]. cbn [refuse frames invalid]. rewrite wrap_small by (ranges; lia). lia. }
  unfold PLANKReadVideo in H. destruct x as [x|]; [|by apply Hrefuse]. destruct (_ || negb (is_video x)); [by apply Hrefuse|].
  destruct (pts x) as [t|]; [|by apply Hrefuse]. destruct (negb _); [by apply Hrefuse|].
  injection H as <- <-. cbn [frames invalid]. rewrite wrap_small by (ranges; lia). lia.
Qed.

(** Accepted frames keep one size and format and strictly later times. *)
Lemma read_accepted s x pixels s' :
  PLANKReadVideo s (Some x) pixels = (true, s') ->
  (frames s <> 0 -> width s' = width s /\ height s' = height s /\ subtype s' = subtype s /\
     exists l t, lastPTS s = Some l /\ lastPTS s' = Some t /\ compare t l = Gt) /\
  0 < width s' <= 1920 /\ 0 < height s' <= 1080 /\ (pixels = true -> bytes s' = u64 (bytes s)).
Proof.
  unfold PLANKReadVideo. destruct (_ || negb (is_video x)); [done|]. destruct (pts x) as [t|]; [|done].
  set (valid := _ && (_ || (_ && (sample_subtype x =? subtype s)))).
  destruct (negb _) eqn:Hv; [done|]. apply negb_false_iff in Hv.
  assert (valid = true) as Hvalid by (destruct pixels; guards; done). unfold valid, later_than_last in Hvalid.
  intros [= <-]. cbn [frames width height subtype lastPTS bytes]. guards. split.
  - intros Hf. rewrite (proj2 (Z.eqb_neq _ _) Hf) in *. cbn [orb] in *. guards.
    destruct (lastPTS s) as [l|]; [|done]. destruct (compare t l) eqn:Ec; try done.
    split_and!; try lia. by exists l, t.
  - split_and!; try lia. intros ->. by rewrite Z.add_0_r.
Qed.
End stats.
End ReadVideo.
