(* ===== verification/ConfigFiles.v ===== *)
(** * ConfigFiles: apps/host/macos/session/configuration-files.h

    Reading and publishing configuration without following symbolic links: the walk down
    to a directory with its ownership checks, the read of a whole bounded file, and the
    creation of a new file.  The kernel is a parameter: what each call returns.  A read or
    write sequence is the list of the kernel's answers, so that interrupted and short
    transfers are all covered. *)

From S2P Require Import Prelude.

(** The fields of [struct stat] that are used. *)
Record stat := mkStat { st_uid : Z; st_mode : Z; st_nlink : Z; st_size : Z; st_regular : bool }.

(** [mkdirat]: made, there already, failed; [openat] followed by [fstat]. *)
Inductive made := Made | Exists_ | MakeFailed.
Inductive opened := NotOpened | Opened (st : option stat).

Definition S_ISVTX : Z := 512.

(** A component's mode: not writable by group or others, but for a sticky directory of root. *)
Definition mode_refused (st : stat) : bool :=
  negb (Z.land (st_mode st) 18 =? 0) && negb ((st_uid st =? 0) && negb (Z.land (st_mode st) S_ISVTX =? 0)).
Definition component_refused (st : stat) (owner mode : Z) (last : bool) : bool :=
  (negb (st_uid st =? 0) && negb (st_uid st =? owner)) || mode_refused st ||
  (last && (negb (st_uid st =? owner) || negb (Z.land (st_mode st) 4095 =? mode))).

Definition name_refused (part : string) : bool :=
  String.eqb part EmptyString || String.eqb part "." || String.eqb part "..".

Section walk.
Context (mkdirat : list string -> made) (openat : list string -> opened) (owner mode : Z) (create : bool).

(** The loop: [prefix] is the path of the open directory; the result tells whether the
    last component is open at the end. *)
Fixpoint walk (prefix parts : list string) : bool :=
  match parts with
  | [] => true
  | part :: parts =>
      let last := match parts with [] => true | _ => false end in
      let path := prefix ++ [part] in
      if name_refused part then false
      else if create && last && match mkdirat path with MakeFailed => true | _ => false end then false
      else match openat path with
      | Opened (Some st) => if component_refused st owner mode last then false else walk path parts
      | _ => false
      end
  end.

(** [absolute] and the components after the root ([pathComponents] counts it); [root] is
    whether the root could be opened.  The result is the directory, [None] for -1. *)
Definition plank_config_directory (absolute root : bool) (parts : list string) : option (list string) :=
  if negb absolute || (length parts =? 0)%nat || negb root then None
  else if walk [] parts then Some parts else None.
End walk.

(** ** Transfers *)

(** An answer of [read] or [write]: -1 with [EINTR], -1 otherwise, or the bytes moved. *)
Inductive transfer (A : Type) := Interrupted | Failed | Moved (x : A).
Arguments Interrupted {A}.
Arguments Failed {A}.
Arguments Moved {A} x.

(** The loop of [plank_config_read]: what was read and the answers left; [None] when the
    list of answers ends first. *)
Fixpoint read_loop (size : Z) (data : list Z) (answers : list (transfer (list Z)))
    : option (list Z * list (transfer (list Z))) :=
  if len data <? size then
    match answers with
    | [] => None
    | Interrupted :: answers => read_loop size data answers
    | Moved (b :: bytes) :: answers => read_loop size (data ++ b :: bytes) answers
    | _ :: answers => Some (data, answers)
    end
  else Some (data, answers).

Definition file_refused (st : stat) (owner mode : Z) : bool :=
  negb (st_regular st) || negb (st_uid st =? owner) || negb (st_nlink st =? 1) ||
  negb (Z.land (st_mode st) 4095 =? mode) || (st_size st <? 0) || (32768 <? st_size st).

Definition plank_config_read (file : opened) (owner mode : Z) (answers : list (transfer (list Z))) : option (option (list Z)) :=
  match file with
  | Opened (Some st) =>
      if file_refused st owner mode then Some None
      else
        '(data, answers) ← read_loop (st_size st) [] answers;
        if len data =? st_size st then
          match answers with
          | [] => None
          | Moved [] :: _ => Some (Some data)
          | _ :: _ => Some None
          end
        else Some None
  | _ => Some None
  end.

(** [found]: whether [fstatat] succeeds; [absent]: whether it failed with [ENOENT]. *)
Definition plank_config_exists (found absent : bool) : bool := found || negb absent.

(** The loop of [plank_config_create]: the bytes written. *)
Fixpoint write_loop (size offset : Z) (answers : list (transfer Z)) : option Z :=
  if offset <? size then
    match answers with
    | [] => None
    | Interrupted :: answers => write_loop size offset answers
    | Moved n :: answers => if n <=? 0 then Some offset else write_loop size (offset + n) answers
    | Failed :: answers => Some offset
    end
  else Some offset.

(** The directory entries: the temporary file with how much of the data it holds, and the
    published file under its final name. *)
Record entries := mkEntries { temporary : option (list Z); published : option (list Z) }.

(** [plank_config_create] in a directory where [name] is [old]: the temporary file is
    created, written, given its mode and synchronised, renamed without replacing anything,
    and the directory synchronised. *)
Definition plank_config_create (data : list Z) (old : option (list Z)) (created : bool) (answers : list (transfer Z))
    (fchmod fsync rename directory_sync : bool) : option (bool * entries) :=
  if negb created then Some (false, mkEntries None old)
  else
    offset ← write_loop (len data) 0 answers;
    let contents := take (Z.to_nat offset) data in
    let ok := (offset =? len data) && fchmod && fsync in
    (* RENAME_EXCL fails when the name exists *)
    let ok := ok && rename && match old with None => true | Some _ => false end in
    if ok then Some (directory_sync, mkEntries None (Some contents))
    else Some (false, mkEntries None old).

(** ** What is read and published *)

(** The bytes of a run of transfers, and the answers that let the read loop go on. *)
Definition moved (l : list (transfer (list Z))) : list Z :=
  concat (map (fun a => match a with Moved x => x | _ => [] end) l).
Definition progress (a : transfer (list Z)) : Prop := a = Interrupted \/ exists b l, a = Moved (b :: l).

Lemma read_loop_sound size data answers data' rest :
  read_loop size data answers = Some (data', rest) ->
  len data' < size \/ exists pre, answers = pre ++ rest /\ Forall progress pre /\ data' = data ++ moved pre.
Proof.
  revert data. induction answers as [|a answers IH]; intros data; cbn [read_loop];
    destruct (Z.ltb_spec (len data) size) as [Hlt|Hge]; try (intros [= <- <-]; right; exists []; split_and!; [done|constructor|by rewrite app_nil_r]); try done.
  destruct a as [| |[|b bytes]]; intros H1; try (injection H1 as <- <-; by left);
    (destruct (IH _ H1) as [?|(pre & -> & Hp & ->)]; [by left|right]).
  - exists (Interrupted :: pre). split_and!; [done| |done]. apply Forall_cons. split; [by left|done].
  - exists (Moved (b :: bytes) :: pre). split_and!; [done| |].
    + apply Forall_cons. split; [right; by eexists _, _|done].
    + unfold moved. cbn [map concat]. by rewrite <- app_assoc.
Qed.

(** A file delivered in non-empty pieces, each after any number of interruptions. *)
Definition deliveries (l : list (nat * list Z)) : list (transfer (list Z)) :=
  flat_map (fun p => replicate p.1 Interrupted ++ [Moved p.2]) l.

Lemma read_interrupted size data n answers :
  len data < size -> read_loop size data (replicate n Interrupted ++ answers) = read_loop size data answers.
Proof.
  intros Hlt. induction n as [|n IH]; [done|]. cbn [replicate app read_loop]. by rewrite (proj2 (Z.ltb_lt _ _)) by done.
Qed.

Lemma read_loop_complete l size data rest :
  Forall (fun p => p.2 <> []) l -> len (data ++ concat l.*2) = size ->
  read_loop size data (deliveries l ++ rest) = Some (data ++ concat l.*2, rest).
Proof.
  revert data. induction l as [|[n c] l IH]; intros data Hl Hs.
  { cbn in *. rewrite app_nil_r in *. destruct rest; cbn [read_loop]; by rewrite (proj2 (Z.ltb_ge _ _)) by lia. }
  apply Forall_cons in Hl as [Hc Hl]. cbn [fst snd] in Hc. cbn [fmap list_fmap concat fst snd] in Hs |- *.
  unfold deliveries. cbn [flat_map fst snd]. fold (deliveries l). rewrite <- !app_assoc.
  destruct c as [|b c]; [done|]. rewrite !length_app in Hs. cbn [length] in Hs.
  rewrite read_interrupted by lia. cbn [app read_loop]. rewrite (proj2 (Z.ltb_lt _ _)) by lia.
  rewrite (IH (data ++ b :: c)) by (done || (rewrite !length_app; cbn [length]; lia)). by rewrite <- !app_assoc.
Qed.

(** A component that may be descended into, and a file that may be read. *)
Definition plain_name (part : string) : Prop := part <> EmptyString /\ part <> "."%string /\ part <> ".."%string.
Definition admissible_component (st : stat) (owner mode : Z) (last : bool) : Prop :=
  (st_uid st = 0 \/ st_uid st = owner) /\
  (Z.land (st_mode st) 18 = 0 \/ (st_uid st = 0 /\ Z.land (st_mode st) S_ISVTX <> 0)) /\
  (last = true -> st_uid st = owner /\ Z.land (st_mode st) 4095 = mode).
Definition admissible_file (st : stat) (owner mode : Z) : Prop :=
  st_regular st = true /\ st_uid st = owner /\ st_nlink st = 1 /\ Z.land (st_mode st) 4095 = mode /\ 0 <= st_size st <= 32768.

Lemma name_refused_spec part : name_refused part = false <-> plain_name part.
Proof.
  unfold name_refused, plain_name. rewrite !orb_false_iff, !String.eqb_neq. tauto.
Qed.

Lemma component_refused_spec st owner mode last :
  component_refused st owner mode last = false <-> admissible_component st owner mode last.
Proof.
  unfold component_refused, mode_refused, admissible_component. destruct last; cbn [andb];
    rewrite ?orb_false_iff, ?andb_false_iff, ?negb_false_iff, ?andb_true_iff, ?negb_true_iff, ?Z.eqb_eq, ?Z.eqb_neq; intuition congruence.
Qed.

Lemma file_refused_spec st owner mode : file_refused st owner mode = false <-> admissible_file st owner mode.
Proof.
  unfold file_refused, admissible_file. rewrite !orb_false_iff, !negb_false_iff, !Z.eqb_eq, !Z.ltb_ge. tauto.
Qed.

(** The walk opens the directory exactly when every component is admissible. *)
Definition component_ok (mkdirat : list string -> made) (openat : list string -> opened) owner mode create
    (path : list string) (part : string) (last : bool) : Prop :=
  plain_name part /\ (create && last = true -> mkdirat path <> MakeFailed) /\
  exists st, openat path = Opened (Some st) /\ admissible_component st owner mode last.

Lemma walk_spec mkdirat openat owner mode create parts prefix :
  walk mkdirat openat owner mode create prefix parts = true <->
  forall i part, parts !! i = Some part ->
    component_ok mkdirat openat owner mode create (prefix ++ take (S i) parts) part (bool_decide (S i = length parts)).
Proof.
  unfold component_ok. setoid_rewrite <- name_refused_spec. setoid_rewrite <- component_refused_spec.
  revert prefix. induction parts as [|part parts IH]; intros prefix; [by split|]. cbn [walk].
  set (last := match parts with [] => true | _ => false end).
  assert (last = bool_decide (1%nat = length (part :: parts))) as Hlast by (by destruct parts).
  split.
  - intros H [|i] part' Hi; cbn in Hi.
    + injection Hi as <-. rewrite firstn_cons, take_0, <- Hlast.
      destruct (name_refused part); [done|]. destruct (create && last) eqn:Ec; cbn [andb] in H.
      * destruct (mkdirat (prefix ++ [part])) eqn:Em; try done; destruct (openat (prefix ++ [part])) as [|[st|]]; try done;
          (split; [done|]; split; [done|]; exists st; split; [done|]; by destruct (component_refused st owner mode last)).
      * destruct (openat (prefix ++ [part])) as [|[st|]]; try done.
        split; [done|]. split; [done|]. exists st. split; [done|]. by destruct (component_refused st owner mode last).
    + replace (bool_decide (S (S i) = length (part :: parts))) with (bool_decide (S i = length parts))
        by (apply bool_decide_ext; cbn; lia).
      rewrite firstn_cons. change (part :: take (S i) parts) with ([part] ++ take (S i) parts). rewrite app_assoc.
      apply IH; [|done]. destruct (name_refused part); [done|].
      destruct (create && last && _); [done|]. destruct (openat (prefix ++ [part])) as [|[st|]]; try done.
      by destruct (component_refused st owner mode last).
  - intros H. destruct (H 0%nat part eq_refl) as (-> & Hm & st & Ho & Hc). rewrite firstn_cons, take_0 in *.
    rewrite <- Hlast in *. rewrite Ho, Hc.
    assert (create && last && match mkdirat (prefix ++ [part]) with MakeFailed => true | _ => false end = false) as ->.
    { destruct (create && last); [|done]. specialize (Hm eq_refl). by destruct (mkdirat (prefix ++ [part])). }
    apply IH. intros i part' Hi. specialize (H (S i) part' Hi).
    replace (bool_decide (S (S i) = length (part :: parts))) with (bool_decide (S i = length parts)) in H
      by (apply bool_decide_ext; cbn; lia).
    rewrite firstn_cons in H. change (part :: take (S i) parts) with ([part] ++ take (S i) parts) in H. by rewrite app_assoc in H.
Qed.

Lemma directory_spec mkdirat openat owner mode create absolute root parts :
  is_Some (plank_config_directory mkdirat openat owner mode create absolute root parts) <->
  absolute = true /\ root = true /\ parts <> [] /\
  forall i part, parts !! i = Some part ->
    component_ok mkdirat openat owner mode create (take (S i) parts) part (bool_decide (S i = length parts)).
Proof.
  unfold plank_config_directory. pose proof (walk_spec mkdirat openat owner mode create parts []) as Hw.
  destruct absolute; cbn [negb orb]; [|by split; [intros [? ?]|intros [? _]]].
  destruct parts as [|part parts]; [by split; [intros [? ?]|intros (_ & _ & ? & _)]|].
  change (length (part :: parts) =? 0)%nat with false. cbn [orb].
  destruct root; cbn [negb]; [|by split; [intros [? ?]|intros (_ & ? & _)]].
  destruct (walk _ _ _ _ _ [] _) eqn:E.
  - split; [|by eexists]. intros _. split_and!; try done. by apply (proj1 Hw).
  - split; [by intros [? ?]|]. intros (_ & _ & _ & Hp). by specialize (proj2 Hw Hp).
Qed.

Lemma config_read_sound file owner mode answers data :
  plank_config_read file owner mode answers = Some (Some data) ->
  exists st pre rest, file = Opened (Some st) /\ admissible_file st owner mode /\
    answers = pre ++ Moved [] :: rest /\ Forall progress pre /\ data = moved pre /\ len data = st_size st /\ len data <= 32768.
Proof.
  unfold plank_config_read. destruct file as [|[st|]]; try done.
  destruct (file_refused st owner mode) eqn:Hf; [done|].
  destruct (read_loop (st_size st) [] answers) as [[data' rest]|] eqn:E; [|done]. cbn [mbind option_bind].
  destruct (Z.eqb_spec (len data') (st_size st)) as [Hl|]; [|done].
  destruct rest as [|[| |[|]] rest]; try done. intros [= <-].
  destruct (read_loop_sound _ _ _ _ _ E) as [?|(pre & -> & Hp & ->)]; [lia|]. exists st, pre, rest.
  apply file_refused_spec in Hf. pose proof Hf as (_ & _ & _ & _ & _ & ?). split_and!; done || lia.
Qed.

(** A write that takes the data in pieces of at least a byte, each after interruptions. *)
Definition acceptances (l : list (nat * Z)) : list (transfer Z) :=
  flat_map (fun p => replicate p.1 Interrupted ++ [Moved p.2]) l.

Lemma write_interrupted size offset n answers :
  offset < size -> write_loop size offset (replicate n Interrupted ++ answers) = write_loop size offset answers.
Proof.
  intros Hlt. induction n as [|n IH]; [done|]. cbn [replicate app write_loop]. by rewrite (proj2 (Z.ltb_lt _ _)) by done.
Qed.

Lemma write_loop_complete l size offset :
  Forall (fun p => 0 < p.2) l -> offset + foldr Z.add 0 l.*2 = size -> write_loop size offset (acceptances l) = Some size.
Proof.
  revert offset. induction l as [|[n c] l IH]; intros offset Hl Hs.
  { cbn in *. rewrite (proj2 (Z.ltb_ge _ _)) by lia. f_equal. lia. }
  apply Forall_cons in Hl as [Hc Hl]. cbn [fst snd fmap list_fmap foldr] in Hc, Hs.
  assert (0 <= foldr Z.add 0 l.*2) by (clear -Hl; induction Hl; cbn in *; lia).
  unfold acceptances. cbn [flat_map fst snd]. fold (acceptances l). rewrite <- app_assoc.
  rewrite write_interrupted by lia. cbn [app write_loop]. rewrite (proj2 (Z.ltb_lt _ _)) by lia.
  rewrite (proj2 (Z.leb_gt _ _)) by done. apply IH; [done|lia].
Qed.

Lemma config_create_safe data old created answers fchmod fsync rename directory_sync ok e :
  plank_config_create data old created answers fchmod fsync rename directory_sync = Some (ok, e) ->
  temporary e = None /\ (published e = old \/ (old = None /\ published e = Some data)) /\
  (ok = true -> old = None /\ published e = Some data).
Proof.
  unfold plank_config_create.
  destruct (negb created); [by intros [= <- <-]; split_and!; [done|left|]|].
  destruct (write_loop (len data) 0 answers) as [offset|]; [|done]. cbn [mbind option_bind].
  destruct ((offset =? len data) && fchmod && fsync && rename && _) eqn:Hok; [|by intros [= <- <-]; split_and!; [done|left|]].
  guards. destruct old; [done|]. intros [= <- <-]. cbn [temporary published].
  rewrite firstn_all2 by lia. split_and!; [done|by right|done].
Qed.

Lemma config_create_complete data l :
  Forall (fun p => 0 < p.2) l -> foldr Z.add 0 l.*2 = len data ->
  plank_config_create data None true (acceptances l) true true true true = Some (true, mkEntries None (Some data)).
Proof.
  intros Hl Hs. unfold plank_config_create. cbn [negb]. rewrite write_loop_complete by (done || lia). cbn [mbind option_bind].
  rewrite Z.eqb_refl. cbn [andb]. by rewrite firstn_all2 by lia.
Qed.


