(* ===== verification/BenchX264.v ===== *)
(** * BenchX264: probes/video/plank-benchmark-x264.cpp

    The encoder benchmark: its options, the geometry of its raw frames, and its input
    pipeline - a reader thread that fills three slots and an encoding loop that empties
    them, synchronised by one mutex and one condition variable.  Critical sections are
    single steps; a thread that waits sleeps until a [notify_all], so that a lost wakeup
    would be a deadlock of the model.  The encoder and the input file are parameters: what
    each encode and each read answers. *)

From S2P Require Import Prelude.
From S2P Require Import ConfigFiles.
From Stdlib Require Import Ascii.

(** ** Options *)

Inductive PixelFormat := kBgr0 | kIdentity8 | kIdentity10.
Record Options := mkOptions {
  input : string; format : PixelFormat; width : Z; height : Z; frames : Z; fps : Z; bitrate_kbps : Z; vbv_kbits : Z;
  preload : bool }.
Definition default_options : Options := mkOptions "-" kBgr0 3840 2160 600 60 100000 2000 false.

Definition is_space (c : Ascii.ascii) : bool :=
  let n := Z.of_nat (Ascii.nat_of_ascii c) in (n =? 32) || ((9 <=? n) && (n <=? 13)).
Definition digit (c : Ascii.ascii) : option Z :=
  let n := Z.of_nat (Ascii.nat_of_ascii c) in if (48 <=? n) && (n <=? 57) then Some (n - 48) else None.

(** The digits of [stoul]: the value and whether there was one. *)
Fixpoint digits (s : string) (value : Z) (any : bool) : option Z :=
  match s with
  | EmptyString => if any then Some value else None
  | String c s =>
      match digit c with
      | Some d => digits s (value * 10 + d) true
      | None => if any then Some value else None
      end
  end.
(** A sign and digits; a negative value is negated modulo 2^64, a value out of range throws. *)
Definition in_ulong (v : option Z) : option Z := v ← v; if UINT64_MAX <? v then None else Some v.
Definition signed_digits (s : string) : option Z :=
  match s with
  | EmptyString => None
  | String c rest =>
      if Ascii.eqb c "-"%char then v ← in_ulong (digits rest 0 false); Some (u64 (- v))
      else if Ascii.eqb c "+"%char then in_ulong (digits rest 0 false)
      else in_ulong (digits s 0 false)
  end.
Fixpoint stoul (s : string) : option Z :=
  match s with
  | String c s' => if is_space c then stoul s' else signed_digits s
  | EmptyString => None
  end.

(** [None]: it throws. *)
Definition parse_unsigned (value : string) (maximum : Z) : option Z :=
  parsed ← stoul value;
  if (parsed =? 0) || (maximum <? parsed) then None else Some parsed.

Definition format_name (f : PixelFormat) : string :=
  match f with kBgr0 => "bgr0-native-rgb8" | kIdentity8 => "gbr-identity8" | kIdentity10 => "gbr-identity10" end.
Definition parse_format (s : string) : option PixelFormat :=
  if String.eqb s "bgr0" then Some kBgr0
  else if String.eqb s "identity8" then Some kIdentity8
  else if String.eqb s "identity10" then Some kIdentity10
  else None.

(** Running, or the help text and exit 0. *)
Inductive parsed := Run (o : Options) | Help.

Fixpoint option_loop (arguments : list string) (o : Options) : option parsed :=
  match arguments with
  | [] => Some (Run o)
  | argument :: rest =>
      if String.eqb argument "--preload" then
        option_loop rest (mkOptions (input o) (format o) (width o) (height o) (frames o) (fps o) (bitrate_kbps o) (vbv_kbits o) true)
      else if String.eqb argument "--help" then Some Help
      else match rest with
      | [] => None
      | value :: rest =>
          if String.eqb argument "--input" then
            option_loop rest (mkOptions value (format o) (width o) (height o) (frames o) (fps o) (bitrate_kbps o) (vbv_kbits o) (preload o))
          else if String.eqb argument "--format" then
            f ← parse_format value;
            option_loop rest (mkOptions (input o) f (width o) (height o) (frames o) (fps o) (bitrate_kbps o) (vbv_kbits o) (preload o))
          else if String.eqb argument "--width" then
            v ← parse_unsigned value 16384;
            option_loop rest (mkOptions (input o) (format o) v (height o) (frames o) (fps o) (bitrate_kbps o) (vbv_kbits o) (preload o))
          else if String.eqb argument "--height" then
            v ← parse_unsigned value 16384;
            option_loop rest (mkOptions (input o) (format o) (width o) v (frames o) (fps o) (bitrate_kbps o) (vbv_kbits o) (preload o))
          else if String.eqb argument "--frames" then
            v ← parse_unsigned value 36000;
            option_loop rest (mkOptions (input o) (format o) (width o) (height o) v (fps o) (bitrate_kbps o) (vbv_kbits o) (preload o))
          else if String.eqb argument "--fps" then
            v ← parse_unsigned value 240;
            option_loop rest (mkOptions (input o) (format o) (width o) (height o) (frames o) v (bitrate_kbps o) (vbv_kbits o) (preload o))
          else if String.eqb argument "--bitrate-kbps" then
            v ← parse_unsigned value 1000000;
            option_loop rest (mkOptions (input o) (format o) (width o) (height o) (frames o) (fps o) v (vbv_kbits o) (preload o))
          else if String.eqb argument "--vbv-kbits" then
            v ← parse_unsigned value 1000000;
            option_loop rest (mkOptions (input o) (format o) (width o) (height o) (frames o) (fps o) (bitrate_kbps o) v (preload o))
          else None
      end
  end.

Definition parse_options (arguments : list string) : option parsed :=
  match option_loop arguments default_options with
  | Some (Run o) => if preload o && String.eqb (input o) "-" then None else Some (Run o)
  | r => r
  end.

(** ** Raw frames *)

Definition SIZE_MAX : Z := UINT64_MAX.
Definition checked_multiply (left_ right_ : Z) : option Z :=
  if negb (left_ =? 0) && (SIZE_MAX / left_ <? right_) then None else Some (u64 (left_ * right_)).

Definition bytes_per_frame (o : Options) : option Z :=
  pixels ← checked_multiply (width o) (height o);
  checked_multiply pixels (match format o with kBgr0 => 4 | kIdentity8 => 3 | kIdentity10 => 6 end).

(** The planes of a picture: offset into the frame and stride. *)
Definition configure_picture (o : Options) : option (list (Z * Z)) :=
  match format o with
  | kBgr0 => Some [(0, s32 (u32 (width o * 4)))]
  | _ =>
      let sample := match format o with kIdentity10 => 2 | _ => 1 end in
      pixels ← checked_multiply (width o) (height o);
      plane_bytes ← checked_multiply pixels sample;
      Some (map (fun plane => (u64 (plane_bytes * plane), s32 (u32 (width o * sample)))) [0; 1; 2])
  end.

(** [read_exact]: [Some None] throws. *)
Definition read_exact (bytes : Z) (answers : list (transfer (list Z))) : option (option (list Z) * list (transfer (list Z))) :=
  '(data, rest) ← read_loop bytes [] answers;
  Some (if len data =? bytes then Some data else None, rest).

(** ** The pipeline *)

Definition kInputSlots : nat := 3.
Definition slot (i : nat) : nat := i mod kInputSlots.

(** Where the reader is with frame [i]; [ReaderEnd i] has filled [i] slots. *)
Inductive reader_at :=
  | RCheck (i : nat) | RSleep (i : nat) | RRead (i : nat) | RSet (i : nat) | RNotify (i : nat) | RCatch (i : nat)
  | ReaderEnd (i : nat).
(** Where the encoding loop is: the waits, the encode, releasing the slot; or the failure path. *)
Inductive main_at :=
  | MCheck (i : nat) | MSleep (i : nat) | MEncode (i : nat) | MRelease (i : nat) | MNotify (i : nat) | MJoin
  | MStop (i : nat) | MStopNotify (i : nat) | MJoinStopped (i : nat) | MDone | MThrown (i : nat).

(** [slots]: the frame whose bytes a slot holds ([None] while they are written). *)
Record state := mkState {
  rd : reader_at; mn : main_at; slot_ready : nat -> bool; stop_reader : bool; reader_error : bool;
  slots : nat -> option nat; encoded : list (option nat); output_frames : nat; delayed_calls : nat }.

Definition set_slot {A} (f : nat -> A) (s : nat) (v : A) : nat -> A := fun x => if Nat.eqb x s then v else f x.

Definition initial : state := mkState (RCheck 0) (MCheck 0) (fun _ => false) false false (fun _ => None) [] 0 0.

Definition wake_main (m : main_at) : main_at := match m with MSleep i => MCheck i | m => m end.
Definition wake_reader (r : reader_at) : reader_at := match r with RSleep i => RCheck i | r => r end.

Definition set_rd (s : state) (r : reader_at) : state :=
  mkState r (mn s) (slot_ready s) (stop_reader s) (reader_error s) (slots s) (encoded s) (output_frames s) (delayed_calls s).
Definition set_mn (s : state) (m : main_at) : state :=
  mkState (rd s) m (slot_ready s) (stop_reader s) (reader_error s) (slots s) (encoded s) (output_frames s) (delayed_calls s).

Section pipeline.
Context (n : nat).  (* options.frames *)

(** A step of the reader; [ok] is whether [read_exact] returns. *)
Definition reader_step (ok : bool) (s : state) : option state :=
  match rd s with
  | RCheck i =>
      if stop_reader s then Some (set_rd s (ReaderEnd i))
      else if slot_ready s (slot i) then Some (set_rd s (RSleep i))
      else Some (mkState (RRead i) (mn s) (slot_ready s) false (reader_error s) (set_slot (slots s) (slot i) None)
                   (encoded s) (output_frames s) (delayed_calls s))
  | RSleep _ => None
  | RRead i =>
      if ok then
        Some (mkState (RSet i) (mn s) (slot_ready s) (stop_reader s) (reader_error s) (set_slot (slots s) (slot i) (Some i))
                (encoded s) (output_frames s) (delayed_calls s))
      else Some (set_rd s (RCatch i))
  | RSet i =>
      Some (mkState (RNotify i) (mn s) (set_slot (slot_ready s) (slot i) true) (stop_reader s) (reader_error s) (slots s)
              (encoded s) (output_frames s) (delayed_calls s))
  | RNotify i =>
      Some (mkState (if (S i <? n)%nat then RCheck (S i) else ReaderEnd (S i)) (wake_main (mn s)) (slot_ready s) (stop_reader s)
              (reader_error s) (slots s) (encoded s) (output_frames s) (delayed_calls s))
  | RCatch i =>
      Some (mkState (ReaderEnd i) (wake_main (mn s)) (slot_ready s) (stop_reader s) true (slots s) (encoded s)
              (output_frames s) (delayed_calls s))
  | ReaderEnd _ => None
  end.

(** What the encoder answers: a negative size, no output, or output for a time stamp. *)
Inductive answer := Negative | Empty | Output (pts : nat).

(** A step of the encoding loop. *)
Definition main_step (a : answer) (s : state) : option state :=
  match mn s with
  | MCheck i =>
      if reader_error s then Some (set_mn s (MStop i))
      else if slot_ready s (slot i) then Some (set_mn s (MEncode i))
      else Some (set_mn s (MSleep i))
  | MSleep _ => None
  | MEncode i =>
      match a with
      | Negative => Some (set_mn s (MStop i))
      | Empty =>
          Some (mkState (rd s) (MRelease i) (slot_ready s) (stop_reader s) (reader_error s) (slots s)
                  (encoded s ++ [slots s (slot i)]) (output_frames s) (S (delayed_calls s)))
      | Output pts =>
          if Nat.eqb pts i then
            Some (mkState (rd s) (MRelease i) (slot_ready s) (stop_reader s) (reader_error s) (slots s)
                    (encoded s ++ [slots s (slot i)]) (S (output_frames s)) (delayed_calls s))
          else Some (set_mn s (MStop i))
      end
  | MRelease i =>
      Some (mkState (rd s) (MNotify i) (set_slot (slot_ready s) (slot i) false) (stop_reader s) (reader_error s) (slots s)
              (encoded s) (output_frames s) (delayed_calls s))
  | MNotify i =>
      Some (mkState (wake_reader (rd s)) (if (S i <? n)%nat then MCheck (S i) else MJoin) (slot_ready s) (stop_reader s)
              (reader_error s) (slots s) (encoded s) (output_frames s) (delayed_calls s))
  | MStop i =>
      Some (mkState (rd s) (MStopNotify i) (slot_ready s) true (reader_error s) (slots s) (encoded s) (output_frames s)
              (delayed_calls s))
  | MStopNotify i => Some (set_mn (set_rd s (wake_reader (rd s))) (MJoinStopped i))
  | MJoin => match rd s with ReaderEnd _ => Some (set_mn s MDone) | _ => None end
  | MJoinStopped i => match rd s with ReaderEnd _ => Some (set_mn s (MThrown i)) | _ => None end
  | MDone | MThrown _ => None
  end.

(** Either thread may move; [good] restricts to reads and encodes that succeed. *)
Inductive step : state -> state -> Prop :=
  | step_reader ok s s' : reader_step ok s = Some s' -> step s s'
  | step_main a s s' : main_step a s = Some s' -> step s s'.
Inductive good_step : state -> state -> Prop :=
  | good_reader s s' : reader_step true s = Some s' -> good_step s s'
  | good_main s s' i : (forall j, mn s = MEncode j -> i = j) -> main_step (Output i) s = Some s' -> good_step s s'.

Inductive steps (R : state -> state -> Prop) : nat -> state -> state -> Prop :=
  | steps_nil s : steps R 0 s s
  | steps_snoc k s s' s'' : steps R k s s' -> R s' s'' -> steps R (S k) s s''.
End pipeline.

(** The flush after the loop: each answer is the size of one more encode. *)
Fixpoint flush (answers : list (bool * Z)) (outputs bytes : Z) : option (option (Z * Z)) :=
  match answers with
  | [] => None
  | (delayed, size) :: answers =>
      if negb delayed then Some (Some (outputs, bytes))
      else if size <? 0 then Some None
      else flush answers (if 0 <? size then u32 (outputs + 1) else outputs) (u64 (bytes + size))
  end.

(** The exit code of a run that does not throw. *)
Definition exit_code (o : Options) (outputs delayed : Z) : Z :=
  if (outputs =? frames o) && (delayed =? 0) then 0 else 2.


(** ** Geometry *)

Definition options_ok (o : Options) : Prop :=
  1 <= width o <= 16384 /\ 1 <= height o <= 16384 /\ 1 <= frames o <= 36000 /\ 1 <= fps o <= 240 /\
  1 <= bitrate_kbps o <= 1000000 /\ 1 <= vbv_kbits o <= 1000000.

Lemma digits_nonneg s v any r : 0 <= v -> digits s v any = Some r -> 0 <= r.
Proof.
  revert v any. induction s as [|c s IH]; intros v any Hv; cbn [digits]; [destruct any; by intros [= <-]|].
  unfold digit. destruct (_ && _) eqn:E; [|destruct any; by intros [= <-]]. guards. apply IH. lia.
Qed.

Lemma in_ulong_nonneg s v any r : 0 <= v -> in_ulong (digits s v any) = Some r -> 0 <= r.
Proof.
  intros Hv. unfold in_ulong. destruct (digits s v any) as [x|] eqn:E; [|done]. cbn [mbind option_bind].
  destruct (_ <? x); [done|]. intros [= <-]. by eapply digits_nonneg.
Qed.

Lemma stoul_nonneg s r : stoul s = Some r -> 0 <= r.
Proof.
  induction s as [|c s IH]; [done|]. cbn [stoul]. destruct (is_space c); [done|]. cbn [signed_digits].
  destruct (Ascii.eqb c "-"%char).
  { destruct (in_ulong _); [|done]. cbn [mbind option_bind]. intros [= <-]. apply wrap_range. lia. }
  destruct (Ascii.eqb c "+"%char); by apply in_ulong_nonneg.
Qed.

Lemma parse_unsigned_range s m r : parse_unsigned s m = Some r -> 1 <= r <= m.
Proof.
  unfold parse_unsigned. destruct (stoul s) as [x|] eqn:E; [|done]. cbn [mbind option_bind].
  apply stoul_nonneg in E. destruct (_ || _) eqn:Eb; [done|]. intros [= <-]. guards. lia.
Qed.

Lemma option_loop_ok n arguments o o' :
  (length arguments <= n)%nat -> options_ok o -> option_loop arguments o = Some (Run o') -> options_ok o'.
Proof.
  revert arguments o. induction n as [|n IH]; intros arguments o Hn Ho.
  { destruct arguments; [|cbn in Hn; lia]. by intros [= <-]. }
  destruct arguments as [|a [|v rest]]; [by intros [= <-]| |]; cbn [option_loop length] in *.
  - destruct (String.eqb a "--preload"); [by intros [= <-]|]. by destruct (String.eqb a "--help").
  - destruct (String.eqb a "--preload"); [by apply (IH (v :: rest)); [cbn; lia|]|].
    destruct (String.eqb a "--help"); [done|]. destruct Ho as (?&?&?&?&?&?).
    destruct (String.eqb a "--input"); [by apply IH; [lia|]|].
    destruct (String.eqb a "--format").
    { destruct (parse_format v); [|done]. by apply IH; [lia|]. }
    repeat (destruct (String.eqb a _);
      [destruct (parse_unsigned v _) as [x|] eqn:E; [apply parse_unsigned_range in E|done]; by apply IH; [lia|]|]). done.
Qed.

Lemma checked_multiply_exact a b : 0 <= a -> 0 <= b -> a * b <= SIZE_MAX -> checked_multiply a b = Some (a * b).
Proof.
  intros Ha Hb Hab. unfold checked_multiply. destruct (Z.eqb_spec a 0) as [->|Hne]; cbn [negb andb].
  - by rewrite Z.mul_0_l.
  - rewrite (proj2 (Z.ltb_ge _ _)); [|apply Z.div_le_lower_bound; lia]. f_equal. apply wrap_small.
    unfold SIZE_MAX in Hab. ranges. lia.
Qed.

(** With accepted options no size computation overflows, all frames fit an address, and
    the planes lie one after the other inside the frame. *)
Lemma geometry_in_bounds arguments o :
  parse_options arguments = Some (Run o) ->
  exists size planes, bytes_per_frame o = Some size /\ 0 < size /\
    checked_multiply size (frames o) = Some (size * frames o) /\ configure_picture o = Some planes /\
    Forall (fun p => 0 <= p.1 /\ 0 < p.2 /\ p.1 + p.2 * height o <= size) planes.
Proof.
  unfold parse_options. destruct (option_loop arguments default_options) as [[o'|]|] eqn:E; [|done..].
  destruct (_ && _); [done|]. intros [= ->].
  apply (option_loop_ok (length arguments)) in E; [|done|unfold options_ok; cbn; lia].
  destruct E as (Hw & Hh & Hf & _). unfold bytes_per_frame, configure_picture.
  assert (0 < width o * height o <= 268435456) as Hp by nia.
  assert (forall k, 1 <= k <= 6 -> checked_multiply (width o * height o) k = Some (width o * height o * k)) as Hk.
  { intros k Hk. apply checked_multiply_exact; unfold SIZE_MAX; ranges; nia. }
  assert (forall size, 0 < size <= 1610612736 -> checked_multiply size (frames o) = Some (size * frames o)) as Hall.
  { intros size Hs. apply checked_multiply_exact; unfold SIZE_MAX; ranges; nia. }
  assert (forall k, 1 <= k <= 4 -> s32 (u32 (width o * k)) = width o * k) as Hs.
  { intros k Hk'. rewrite (wrap_small 32) by (ranges; nia). apply swrap_small; [lia|]. change (2 ^ (32 - 1)) with 2147483648. nia. }
  assert (forall plane k, 0 <= plane <= 2 -> 1 <= k <= 2 -> u64 (width o * height o * k * plane) = width o * height o * k * plane) as Hu.
  { intros plane k Hpl Hk'. apply wrap_small. ranges. remember (width o * height o) as wh eqn:Ewh. clear -Hp Hpl Hk'.
    assert (plane = 0 \/ plane = 1 \/ plane = 2) as [->|[->| ->]] by lia; assert (k = 1 \/ k = 2) as [->| ->] by lia; lia. }
  rewrite (checked_multiply_exact (width o) (height o)) by (unfold SIZE_MAX; ranges; nia). cbn [mbind option_bind].
  destruct (format o); rewrite !Hk by lia; cbn [mbind option_bind]; eexists _, _; split_and!; try reflexivity; try nia;
    try (apply Hall; nia); cbn [map]; rewrite ?Hs, ?Hu by lia; repeat constructor; cbn [fst snd]; nia.
Qed.

(** ** The pipeline's invariant *)

(** Slots filled by the reader, emptied by the loop, and frames encoded. *)
Definition produced (r : reader_at) : nat :=
  match r with RCheck i | RSleep i | RRead i | RSet i | RCatch i | ReaderEnd i => i | RNotify i => S i end.
Definition consumed (n : nat) (m : main_at) : nat :=
  match m with
  | MCheck i | MSleep i | MEncode i | MRelease i | MStop i | MStopNotify i | MJoinStopped i | MThrown i => i
  | MNotify i => S i
  | MJoin | MDone => n
  end.
Definition encodes (n : nat) (m : main_at) : nat :=
  match m with MRelease i => S i | _ => consumed n m end.

(** The failure path after the flag is set, and a wakeup of the reader that is still to come. *)
Definition stopped (m : main_at) : bool := match m with MStopNotify _ | MJoinStopped _ | MThrown _ => true | _ => false end.
Definition waking_reader (m : main_at) : bool := match m with MNotify _ | MStopNotify _ => true | _ => false end.
Definition waking_main (r : reader_at) : bool := match r with RNotify _ => true | _ => false end.

Definition reader_ok (n : nat) (s : state) : Prop :=
  match rd s with
  | RCheck i | RSleep i | RNotify i | RCatch i => (i < n)%nat
  | RRead i => (i < n)%nat /\ (i < consumed n (mn s) + 3)%nat
  | RSet i => (i < n)%nat /\ (i < consumed n (mn s) + 3)%nat /\ slots s (slot i) = Some i
  | ReaderEnd i => i = n \/ stop_reader s = true \/ reader_error s = true
  end.
Definition main_ok (n : nat) (s : state) : Prop :=
  match mn s with
  | MCheck i | MSleep i | MNotify i => (i < n)%nat
  | MEncode i | MRelease i => (i < n)%nat /\ (i < produced (rd s))%nat
  | _ => True
  end.

Record inv (n : nat) (s : state) : Prop := {
  iv_count : (consumed n (mn s) <= produced (rd s) <= n)%nat /\ (produced (rd s) <= consumed n (mn s) + 3)%nat;
  iv_ready : forall k, (consumed n (mn s) <= k < consumed n (mn s) + 3)%nat -> slot_ready s (slot k) = (k <? produced (rd s))%nat;
  iv_slots : forall k, (consumed n (mn s) <= k < produced (rd s))%nat -> slots s (slot k) = Some k;
  iv_reader : reader_ok n s;
  iv_main : main_ok n s;
  iv_stop : stop_reader s = stopped (mn s);
  iv_error : reader_error s = true -> exists i, rd s = ReaderEnd i;
  iv_rsleep : forall i, rd s = RSleep i -> waking_reader (mn s) = true \/ stop_reader s = false /\ slot_ready s (slot i) = true;
  iv_msleep : forall i, mn s = MSleep i -> waking_main (rd s) = true \/ reader_error s = false /\ slot_ready s (slot i) = false;
  iv_encoded : encoded s = map Some (seq 0 (encodes n (mn s)));
  iv_frames : (output_frames s + delayed_calls s)%nat = encodes n (mn s) }.

Lemma slot_inj c a b : (c <= a < c + 3)%nat -> (c <= b < c + 3)%nat -> slot a = slot b -> a = b.
Proof.
  unfold slot, kInputSlots. intros Ha Hb E. pose proof (Nat.div_mod a 3 ltac:(done)). pose proof (Nat.div_mod b 3 ltac:(done)).
  lia.
Qed.

Lemma slot_next c : slot (c + 3) = slot c.
Proof. unfold slot, kInputSlots. replace (c + 3)%nat with (c + 1 * 3)%nat by lia. apply Nat.Div0.mod_add. Qed.

Lemma set_slot_same {A} (f : nat -> A) s v : set_slot f s v s = v.
Proof. unfold set_slot. by rewrite Nat.eqb_refl. Qed.
Lemma set_slot_other {A} (f : nat -> A) s t v : t <> s -> set_slot f s v t = f t.
Proof. intros Hn. unfold set_slot. by rewrite (proj2 (Nat.eqb_neq _ _)). Qed.

(** The frame after a full window is not in it. *)
Lemma full_window n s : inv n s -> produced (rd s) = (consumed n (mn s) + 3)%nat -> slot_ready s (slot (produced (rd s))) = true.
Proof.
  intros Hi E. rewrite E, slot_next, (iv_ready n s Hi) by lia. apply Nat.ltb_lt. lia.
Qed.

Lemma free_slot n s : inv n s -> slot_ready s (slot (produced (rd s))) = false -> (produced (rd s) < consumed n (mn s) + 3)%nat.
Proof.
  intros Hi E. destruct (iv_count n s Hi) as [_ Hle].
  destruct (decide (produced (rd s) = consumed n (mn s) + 3)%nat) as [Hf|]; [|lia].
  apply (full_window n s Hi) in Hf. congruence.
Qed.

Lemma inv_initial n : (0 < n)%nat -> inv n initial.
Proof.
  intros Hn. split; cbn; try done; lia.
Qed.

Lemma snoc_frames i : map Some (seq 0 i) ++ [Some i] = map Some (seq 0 (S i)).
Proof. by rewrite seq_S, map_app. Qed.

(** A move of the reader that fills or empties nothing. *)
Lemma reader_moves n s r :
  inv n s -> produced r = produced (rd s) -> reader_ok n (set_rd s r) -> main_ok n (set_rd s r) ->
  (reader_error s = true -> exists i, r = ReaderEnd i) ->
  (forall i, r = RSleep i -> waking_reader (mn s) = true \/ stop_reader s = false /\ slot_ready s (slot i) = true) ->
  (forall i, mn s = MSleep i -> waking_main (rd s) = true -> waking_main r = true) ->
  inv n (set_rd s r).
Proof.
  intros Hi Hp Hr Hm He Hrs Hms. destruct Hi. split; cbn [set_rd rd mn slot_ready stop_reader reader_error slots encoded output_frames delayed_calls];
    rewrite ?Hp; try done. intros i Ei. destruct (iv_msleep0 i Ei) as [Hw|Hw]; [left; by eapply Hms|by right].
Qed.

Lemma reader_inv n ok s s' : inv n s -> reader_step n ok s = Some s' -> inv n s'.
Proof.
  intros Hi Hs. unfold reader_step in Hs. pose proof (iv_reader n s Hi) as Hr. unfold reader_ok in Hr.
  pose proof (iv_count n s Hi) as Hc. pose proof (iv_main n s Hi) as Hm. unfold main_ok in Hm.
  destruct (rd s) as [i|i|i|i|i|i|i] eqn:Er; try done; cbn [produced] in Hc, Hm.
  - (* the wait *)
    destruct (stop_reader s) eqn:Est.
    { injection Hs as <-. apply reader_moves; rewrite ?Er; try done; unfold reader_ok, main_ok; cbn; rewrite ?Est; first [done|tauto|eauto]. }
    destruct (slot_ready s (slot i)) eqn:Erd.
    { injection Hs as <-. apply reader_moves; rewrite ?Er; try done; unfold reader_ok, main_ok; cbn; try done.
      - intros He. destruct (iv_error n s Hi He) as [? ?]; congruence.
      - intros j [= <-]. by right. }
    injection Hs as <-. pose proof (free_slot n s Hi) as Hf. rewrite Er in Hf. cbn [produced] in Hf. specialize (Hf Erd).
    destruct Hi as [_ Hready Hslots _ _ Hstop Herr Hrs Hms Henc Hfr]. rewrite Er in *. cbn [produced waking_main] in *.
    split; unfold reader_ok, main_ok; cbn [rd mn slot_ready stop_reader reader_error slots encoded output_frames delayed_calls produced waking_main];
      try done; try congruence.
    + intros k Hk. rewrite set_slot_other; [by apply Hslots|]. intros E. apply (slot_inj (consumed n (mn s))) in E; lia.
    + intros He. destruct (Herr He) as [? ?]; congruence.
  - (* reading into the slot *)
    destruct ok.
    2: { injection Hs as <-. apply reader_moves; rewrite ?Er; try done; unfold reader_ok, main_ok; cbn; try done; [tauto|].
         intros He. destruct (iv_error n s Hi He) as [? ?]; congruence. }
    injection Hs as <-. destruct Hi as [_ Hready Hslots _ _ Hstop Herr Hrs Hms Henc Hfr]. rewrite Er in *. cbn [produced waking_main] in *.
    split; unfold reader_ok, main_ok; cbn [rd mn slot_ready stop_reader reader_error slots encoded output_frames delayed_calls produced waking_main];
      try done; try congruence.
    + intros k Hk. rewrite set_slot_other; [by apply Hslots|]. intros E. apply (slot_inj (consumed n (mn s))) in E; lia.
    + split_and!; [tauto..|]. apply set_slot_same.
    + intros He. destruct (Herr He) as [? ?]; congruence.
  - (* marking it ready *)
    injection Hs as <-. destruct Hr as (Hin & Hwin & Hsl). destruct Hi as [_ Hready Hslots _ _ Hstop Herr Hrs Hms Henc Hfr].
    rewrite Er in *. cbn [produced waking_main] in *.
    split; unfold reader_ok, main_ok; cbn [rd mn slot_ready stop_reader reader_error slots encoded output_frames delayed_calls produced waking_main];
      try done; try congruence; try lia.
    + intros k Hk. destruct (decide (k = i)) as [->|Hne].
      * rewrite set_slot_same. symmetry. apply Nat.ltb_lt. lia.
      * rewrite set_slot_other by (intros E; apply (slot_inj (consumed n (mn s))) in E; lia). rewrite Hready by lia.
        destruct (Nat.ltb_spec k i), (Nat.ltb_spec k (S i)); lia || done.
    + intros k Hk. destruct (decide (k = i)) as [->|Hne]; [done|]. apply Hslots. lia.
    + destruct (mn s); lia || tauto.
    + intros He. destruct (Herr He) as [? ?]; congruence.
  - (* notifying *)
    injection Hs as <-. destruct Hi as [_ Hready Hslots _ _ Hstop Herr Hrs Hms Henc Hfr].
    rewrite Er in *. cbn [produced waking_main] in *.
    assert (produced (if (S i <? n)%nat then RCheck (S i) else ReaderEnd (S i)) = S i) as Hp by (by destruct (S i <? n)%nat).
    assert (consumed n (wake_main (mn s)) = consumed n (mn s)) as Hcw by (by destruct (mn s)).
    assert (encodes n (wake_main (mn s)) = encodes n (mn s)) as Hew by (by destruct (mn s)).
    split; unfold reader_ok, main_ok; cbn [rd mn slot_ready stop_reader reader_error slots encoded output_frames delayed_calls];
      rewrite ?Hp, ?Hcw, ?Hew; try done.
    + destruct (Nat.ltb_spec (S i) n); [done|]. left. lia.
    + destruct (mn s); cbn [wake_main]; done.
    + rewrite Hstop. by destruct (mn s).
    + intros He. destruct (Herr He) as [? ?]; congruence.
    + intros j. by destruct (S i <? n)%nat.
    + intros j Hj. exfalso. by destruct (mn s).
  - (* the exception is stored and the loop woken *)
    injection Hs as <-. destruct Hi as [_ Hready Hslots _ _ Hstop Herr Hrs Hms Henc Hfr].
    rewrite Er in *. cbn [produced waking_main] in *.
    assert (consumed n (wake_main (mn s)) = consumed n (mn s)) as Hcw by (by destruct (mn s)).
    assert (encodes n (wake_main (mn s)) = encodes n (mn s)) as Hew by (by destruct (mn s)).
    split; unfold reader_ok, main_ok; cbn [rd mn slot_ready stop_reader reader_error slots encoded output_frames delayed_calls produced];
      rewrite ?Hcw, ?Hew; try done.
    + tauto.
    + destruct (mn s); cbn [wake_main]; done.
    + rewrite Hstop. by destruct (mn s).
    + eauto.
    + intros j Hj. exfalso. by destruct (mn s).
Qed.

(** A move of the loop that encodes and empties nothing. *)
Lemma main_moves n s m :
  inv n s -> consumed n m = consumed n (mn s) -> encodes n m = encodes n (mn s) -> stopped m = stopped (mn s) ->
  main_ok n (set_mn s m) -> (waking_reader (mn s) = true -> waking_reader m = true) ->
  (forall i, m = MSleep i -> waking_main (rd s) = true \/ reader_error s = false /\ slot_ready s (slot i) = false) ->
  inv n (set_mn s m).
Proof.
  intros Hi Hc He Hst Hm Hw Hms. destruct Hi.
  split; cbn [set_mn rd mn slot_ready stop_reader reader_error slots encoded output_frames delayed_calls];
    rewrite ?Hc, ?He, ?Hst; try done.
  - unfold reader_ok in *. cbn [set_mn rd mn stop_reader reader_error slots]. by rewrite Hc.
  - intros i Ei. destruct (iv_rsleep0 i Ei) as [?|?]; [left; by apply Hw|by right].
Qed.

(** A frame is encoded: what its slot holds is that very frame. *)
Lemma main_encodes n s i outputs delayed :
  inv n s -> mn s = MEncode i -> (outputs + delayed = S (output_frames s + delayed_calls s))%nat ->
  inv n (mkState (rd s) (MRelease i) (slot_ready s) (stop_reader s) (reader_error s) (slots s)
           (encoded s ++ [slots s (slot i)]) outputs delayed).
Proof.
  intros Hi Em Hn. pose proof (iv_main n s Hi) as Hm. unfold main_ok in Hm. rewrite Em in Hm.
  pose proof (iv_slots n s Hi i) as Hs. pose proof (iv_count n s Hi) as Hc. rewrite Em in Hs, Hc. cbn [consumed] in Hs, Hc.
  rewrite Hs by lia. destruct Hi as [_ Hready Hslots Hr _ Hstop Herr Hrs Hms Henc Hfr]. rewrite Em in *. cbn [consumed encodes stopped waking_reader] in *.
  split; unfold main_ok; cbn [rd mn slot_ready stop_reader reader_error slots encoded output_frames delayed_calls consumed encodes stopped waking_reader];
    try done.
  - unfold reader_ok in *. cbn [rd mn stop_reader reader_error slots consumed]. by rewrite Em in Hr.
  - by rewrite Henc, snoc_frames.
  - lia.
Qed.

Lemma main_inv n a s s' : (0 < n)%nat -> inv n s -> main_step n a s = Some s' -> inv n s'.
Proof.
  intros Hn0 Hi Hs. unfold main_step in Hs. pose proof (iv_main n s Hi) as Hm. unfold main_ok in Hm.
  pose proof (iv_count n s Hi) as Hc. destruct (mn s) as [i|i|i|i|i| |i|i|i| |i] eqn:Em; try done; cbn [consumed] in Hc.
  - (* the wait *)
    destruct (reader_error s) eqn:Ee.
    { injection Hs as <-. apply main_moves; rewrite ?Em; try done; unfold main_ok; by cbn. }
    destruct (slot_ready s (slot i)) eqn:Er.
    { injection Hs as <-. apply main_moves; rewrite ?Em; try done. unfold main_ok; cbn. split; [done|].
      rewrite (iv_ready n s Hi) in Er by (rewrite Em; cbn; lia). by apply Nat.ltb_lt. }
    injection Hs as <-. apply main_moves; rewrite ?Em; try done. intros j [= <-]. by right.
  - (* encoding *)
    assert (inv n (set_mn s (MStop i))) as Hfail by (apply main_moves; rewrite ?Em; done).
    destruct a as [| |pts].
    + by injection Hs as <-.
    + injection Hs as <-. apply (main_encodes n s i); [done|done|lia].
    + destruct (Nat.eqb_spec pts i) as [->|]; injection Hs as <-; [|done]. apply (main_encodes n s i); [done|done|lia].
  - (* releasing the slot *)
    injection Hs as <-. destruct Hi as [_ Hready Hslots Hr _ Hstop Herr Hrs Hms Henc Hfr]. rewrite Em in *. cbn [consumed encodes stopped waking_reader] in *.
    split; unfold main_ok; cbn [rd mn slot_ready stop_reader reader_error slots encoded output_frames delayed_calls consumed encodes stopped waking_reader];
      try done; try lia.
    + intros k Hk. destruct (decide (k = i + 3)%nat) as [->|Hne].
      * rewrite slot_next, set_slot_same. symmetry. apply Nat.ltb_ge. lia.
      * rewrite set_slot_other by (intros E; apply (slot_inj i) in E; lia). apply Hready. lia.
    + intros k Hk. apply Hslots. lia.
    + unfold reader_ok in *. rewrite Em in Hr. cbn [rd mn stop_reader reader_error slots consumed] in *.
      destruct (rd s); try done; [|]; intuition lia.
  - (* notifying *)
    injection Hs as <-. destruct Hi as [_ Hready Hslots Hr _ Hstop Herr Hrs Hms Henc Hfr]. rewrite Em in *. cbn [consumed encodes stopped waking_reader] in *.
    assert (produced (wake_reader (rd s)) = produced (rd s)) as Hp by (by destruct (rd s)).
    assert (consumed n (if (S i <? n)%nat then MCheck (S i) else MJoin) = S i) as Hcn by (destruct (Nat.ltb_spec (S i) n); cbn; lia).
    assert (encodes n (if (S i <? n)%nat then MCheck (S i) else MJoin) = S i) as Hen by (destruct (Nat.ltb_spec (S i) n); cbn; lia).
    split; cbn [rd mn slot_ready stop_reader reader_error slots encoded output_frames delayed_calls]; rewrite ?Hp, ?Hcn, ?Hen; try done.
    + unfold reader_ok in *. rewrite Em in Hr. cbn [rd mn stop_reader reader_error slots consumed] in *. rewrite Hcn.
      by destruct (rd s).
    + unfold main_ok. cbn [mn]. destruct (Nat.ltb_spec (S i) n); done.
    + rewrite Hstop. by destruct (S i <? n)%nat.
    + intros He. destruct (Herr He) as [j ->]. by exists j.
    + intros j Hj. exfalso. by destruct (rd s).
    + intros j Hj. exfalso. by destruct (S i <? n)%nat.
  - (* waiting for the reader's end *)
    destruct (rd s) eqn:Er; try done. injection Hs as <-. by apply main_moves; rewrite ?Em.
  - (* the stop flag *)
    injection Hs as <-. destruct Hi as [_ Hready Hslots Hr _ Hstop Herr Hrs Hms Henc Hfr]. rewrite Em in *. cbn [consumed encodes stopped waking_reader] in *.
    split; unfold main_ok; cbn [rd mn slot_ready stop_reader reader_error slots encoded output_frames delayed_calls consumed encodes stopped waking_reader];
      try done.
    + unfold reader_ok in *. rewrite Em in Hr. cbn [rd mn stop_reader reader_error slots consumed] in *.
      destruct (rd s); try done. tauto.
    + by left.
  - (* waking the reader *)
    injection Hs as <-. destruct Hi as [_ Hready Hslots Hr _ Hstop Herr Hrs Hms Henc Hfr]. rewrite Em in *. cbn [consumed encodes stopped waking_reader] in *.
    assert (produced (wake_reader (rd s)) = produced (rd s)) as Hp by (by destruct (rd s)).
    split; unfold main_ok; cbn [set_mn set_rd rd mn slot_ready stop_reader reader_error slots encoded output_frames delayed_calls consumed encodes stopped];
      rewrite ?Hp; try done.
    + unfold reader_ok in *. rewrite Em in Hr. cbn [set_mn set_rd rd mn stop_reader reader_error slots consumed] in *. by destruct (rd s).
    + intros He. destruct (Herr He) as [j ->]. by exists j.
    + intros j Hj. exfalso. by destruct (rd s).
  - (* waiting for the stopped reader *)
    destruct (rd s) eqn:Er; try done. injection Hs as <-. by apply main_moves; rewrite ?Em.
Qed.

Lemma steps_inv n k s : (0 < n)%nat -> steps (step n) k initial s -> inv n s.
Proof.
  intros Hn Hs. remember initial as s0 eqn:E. induction Hs as [|k s s' s'' _ IH Hstep]; [subst; by apply inv_initial|].
  specialize (IH E). destruct Hstep; [by eapply reader_inv|by eapply main_inv].
Qed.

(** ** Progress *)

Definition final (s : state) : Prop := mn s = MDone \/ exists i, mn s = MThrown i.

(** Some thread can move in every state that is not final: a lost wakeup would be a state
    in which both sleep, or in which one sleeps and the other has ended. *)
Lemma main_awake n i s :
  (forall j, mn s <> MSleep j) -> mn s <> MJoin -> (forall j, mn s <> MJoinStopped j) -> final s \/ exists s', main_step n (Output i) s = Some s'.
Proof.
  intros H1 H2 H3. unfold final, main_step. destruct (mn s) as [j|j|j|j|j| |j|j|j| |j] eqn:Em; try (by eauto); try congruence.
  all: try (exfalso; first [by apply (H1 j)|by apply (H3 j)]); right; repeat case_match; eauto.
Qed.

Lemma reader_awake n s : (forall j, rd s <> RSleep j) -> (forall j, rd s <> ReaderEnd j) -> exists s', reader_step n true s = Some s'.
Proof.
  intros H1 H2. unfold reader_step. destruct (rd s) as [i|i|i|i|i|i|i] eqn:Er;
    try (exfalso; first [by apply (H1 i)|by apply (H2 i)]); repeat case_match; eauto.
Qed.

(** A reader asleep with nobody about to wake it waits for a slot of the current window,
    which is full. *)
Lemma reader_asleep n s i : inv n s -> rd s = RSleep i -> waking_reader (mn s) = false -> i = (consumed n (mn s) + 3)%nat /\ stop_reader s = false /\ (i < n)%nat.
Proof.
  intros Hi Er Hw. destruct (iv_rsleep n s Hi i Er) as [?|[Hst Hrd]]; [congruence|].
  pose proof (iv_count n s Hi) as Hc. pose proof (iv_reader n s Hi) as Hr. unfold reader_ok in Hr. rewrite Er in Hc, Hr. cbn [produced] in Hc.
  destruct (decide (i = consumed n (mn s) + 3)%nat) as [->|Hne]; [done|].
  rewrite (iv_ready n s Hi), Er in Hrd by lia. cbn [produced] in Hrd. apply Nat.ltb_lt in Hrd. lia.
Qed.

(** A loop asleep with nobody about to wake it waits for the frame the reader is at. *)
Lemma main_asleep n s i : inv n s -> mn s = MSleep i -> waking_main (rd s) = false -> produced (rd s) = i /\ reader_error s = false /\ (i < n)%nat.
Proof.
  intros Hi Em Hw. destruct (iv_msleep n s Hi i Em) as [?|[Her Hrd]]; [congruence|].
  pose proof (iv_count n s Hi) as Hc. pose proof (iv_main n s Hi) as Hm. unfold main_ok in Hm. rewrite Em in Hc, Hm. cbn [consumed] in Hc.
  rewrite (iv_ready n s Hi) in Hrd by (rewrite Em; cbn [consumed]; lia). apply Nat.ltb_ge in Hrd. split_and!; [lia|done|done].
Qed.

Lemma progress n i s : inv n s -> final s \/ (exists s', reader_step n true s = Some s') \/ exists s', main_step n (Output i) s = Some s'.
Proof.
  intros Hi. destruct (rd s) as [j|j|j|j|j|j|j] eqn:Er;
    try (right; left; apply reader_awake; congruence).
  - (* the reader sleeps *)
    destruct (waking_reader (mn s)) eqn:Ew.
    { destruct (main_awake n i s) as [?|?]; [intros ? E|intros E|intros ? E| |]; try (by rewrite E in Ew); eauto. }
    destruct (reader_asleep n s j Hi Er Ew) as (Hj & Hst & Hn). destruct (mn s) as [k|k|k|k|k| |k|k|k| |k] eqn:Em;
      try (destruct (main_awake n i s) as [?|?]; [congruence..| |]; by eauto); cbn [consumed] in Hj.
    + destruct (main_asleep n s k Hi Em) as (Hk & _); [by rewrite Er|]. rewrite Er in Hk. cbn in Hk. lia.
    + lia.
    + rewrite (iv_stop n s Hi), Em in Hst. done.
  - (* the reader has ended *)
    destruct (mn s) as [k|k|k|k|k| |k|k|k| |k] eqn:Em;
      try (destruct (main_awake n i s) as [?|?]; [congruence..| |]; by eauto).
    + destruct (main_asleep n s k Hi Em) as (Hk & Hre & Hn); [by rewrite Er|]. rewrite Er in Hk. cbn in Hk.
      pose proof (iv_reader n s Hi) as Hr. unfold reader_ok in Hr. rewrite Er in Hr.
      pose proof (iv_stop n s Hi) as Hst. rewrite Em in Hst. cbn in Hst. destruct Hr as [?|[?|?]]; [lia|congruence..].
    + right; right. unfold main_step. rewrite Em, Er. eauto.
    + right; right. unfold main_step. rewrite Em, Er. eauto.
Qed.

(** ** Termination *)

Definition reader_left (n : nat) (r : reader_at) : nat :=
  match r with
  | RCheck i | RSleep i => 4 * (n - i) + 1 | RRead i => 4 * (n - i) | RSet i => 4 * (n - i) - 1 | RNotify i => 4 * (n - i) - 2
  | RCatch _ => 1 | ReaderEnd _ => 0
  end.
Definition main_left (n : nat) (m : main_at) : nat :=
  match m with
  | MCheck i | MSleep i => 4 * (n - i) + 4 | MEncode i => 4 * (n - i) + 3 | MRelease i => 4 * (n - i) + 2 | MNotify i => 4 * (n - i) + 1
  | MJoin => 1 | MStop _ => 3 | MStopNotify _ => 2 | MJoinStopped _ => 1 | MDone | MThrown _ => 0
  end.
Definition reader_up (r : reader_at) : nat := match r with RSleep _ => 0 | _ => 1 end.
Definition main_up (m : main_at) : nat := match m with MSleep _ => 0 | _ => 1 end.
(** The steps that are left: every sleep is paid for by the move that ends it. *)
Definition measure (n : nat) (s : state) : nat :=
  5 * (reader_left n (rd s) + main_left n (mn s)) + reader_up (rd s) + main_up (mn s).

Lemma reader_measure n ok s s' : inv n s -> reader_step n ok s = Some s' -> (measure n s' < measure n s)%nat.
Proof.
  intros Hi. pose proof (iv_reader n s Hi) as Hr. unfold reader_ok in Hr. unfold reader_step, measure.
  destruct (rd s) as [i|i|i|i|i|i|i] eqn:Er; try done; repeat case_match; intros [= <-];
    cbn [set_rd rd mn reader_left reader_up]; try lia;
    try (destruct (mn s); cbn [wake_main main_left main_up]; lia).
Qed.

Lemma main_measure n a s s' : inv n s -> main_step n a s = Some s' -> (measure n s' < measure n s)%nat.
Proof.
  intros Hi. pose proof (iv_main n s Hi) as Hm. unfold main_ok in Hm. unfold main_step, measure.
  destruct (mn s) as [i|i|i|i|i| |i|i|i| |i] eqn:Em; try done; repeat case_match; intros [= <-];
    cbn [set_rd set_mn rd mn main_left main_up]; guards;
    repeat match goal with H : (_ <? _)%nat = true |- _ => apply Nat.ltb_lt in H | H : (_ <? _)%nat = false |- _ => apply Nat.ltb_ge in H end;
    try lia; destruct (rd s); try done; cbn [wake_reader reader_left reader_up] in *; lia.
Qed.

Lemma steps_bound n k s : (0 < n)%nat -> steps (step n) k initial s -> (k + measure n s <= 40 * n + 27)%nat.
Proof.
  intros Hn Hs. remember initial as s0 eqn:E. induction Hs as [s|k s s' s'' Hs IH Hstep].
  - subst. unfold measure. cbn [initial rd mn reader_left main_left reader_up main_up]. lia.
  - specialize (IH E). subst. pose proof (steps_inv n k s' Hn Hs) as Hi.
    assert (measure n s'' < measure n s')%nat by (destruct Hstep; [by eapply reader_measure|by eapply main_measure]). lia.
Qed.

(** ** Runs without failures *)

(** Where a run is in which every read and every encode succeeds. *)
Definition unbroken (s : state) : Prop :=
  reader_error s = false /\ delayed_calls s = 0%nat /\ (forall i, rd s <> RCatch i) /\
  match mn s with MStop _ | MStopNotify _ | MJoinStopped _ | MThrown _ => False | _ => True end.

Lemma good_is_step n s s' : good_step n s s' -> step n s s'.
Proof. intros []; [by eapply step_reader|by eapply step_main]. Qed.

Lemma unbroken_wakes s m : unbroken s -> mn s = m -> match wake_main m with MStop _ | MStopNotify _ | MJoinStopped _ | MThrown _ => False | _ => True end.
Proof. intros (_ & _ & _ & Hm) E. rewrite E in Hm. by destruct m. Qed.

Lemma good_unbroken n s s' : unbroken s -> good_step n s s' -> unbroken s'.
Proof.
  intros Hu Hg. destruct Hg as [s s' Hs|s s' i Hp Hs]; pose proof Hu as (He & Hd & Hc & Hm).
  - pose proof (unbroken_wakes s _ Hu eq_refl) as Hw. unfold reader_step in Hs. destruct (rd s) as [i|i|i|i|i|i|i] eqn:Er; try done; [..|by edestruct Hc].
    1: destruct (stop_reader s); [by injection Hs as <-|]; destruct (slot_ready s (slot i)).
    all: injection Hs as <-; unfold unbroken; cbn [set_rd rd mn reader_error delayed_calls]; split_and!; try done.
    intros j. by destruct (S i <? n)%nat.
  - unfold main_step in Hs. destruct (mn s) as [j|j|j|j|j| |j|j|j| |j] eqn:Em; try done.
    + rewrite He in Hs. by destruct (slot_ready s (slot j)); injection Hs as <-.
    + rewrite (Hp j eq_refl), Nat.eqb_refl in Hs. by injection Hs as <-.
    + by injection Hs as <-.
    + injection Hs as <-. unfold unbroken. cbn [rd mn reader_error delayed_calls]. split_and!; try done.
      * intros k. by destruct (rd s).
      * by destruct (S j <? n)%nat.
    + assert (Some (set_mn s MDone) = Some s') as [= <-] by (by destruct (rd s)). by split_and!.
Qed.

Lemma steps_mono {R R' : state -> state -> Prop} k s0 s : (forall s s', R s s' -> R' s s') -> steps R k s0 s -> steps R' k s0 s.
Proof. intros HR Hs. induction Hs; econstructor; eauto. Qed.

Lemma good_runs n k s : (0 < n)%nat -> steps (good_step n) k initial s -> unbroken s.
Proof.
  intros Hn Hs. remember initial as s0 eqn:E. induction Hs as [s|k s s' s'' Hs IH Hstep]; [by subst|].
  subst. by eapply good_unbroken; [apply IH|].
Qed.

(** Running a schedule: [true] moves the reader. *)
Fixpoint drive (n : nat) (schedule : list bool) (s : state) : option state :=
  match schedule with
  | [] => Some s
  | who :: schedule =>
      s' ← (if who then reader_step n true s else main_step n (Output (match mn s with MEncode i => i | _ => 0 end)) s);
      drive n schedule s'
  end.

Lemma steps_cons (R : state -> state -> Prop) k s0 s1 s : R s0 s1 -> steps R k s1 s -> steps R (S k) s0 s.
Proof.
  intros H0 Hs. revert s0 H0. induction Hs as [s|k s s' s'' _ IH Hstep]; intros s0 H0; econstructor; eauto. constructor.
Qed.

Lemma drive_steps n schedule s s' : drive n schedule s = Some s' -> steps (good_step n) (length schedule) s s'.
Proof.
  revert s. induction schedule as [|[] schedule IH]; intros s; cbn [drive length]; [intros [= <-]; constructor|..].
  - destruct (reader_step n true s) eqn:E; [|done]. intros H. eapply steps_cons; [by apply good_reader|by apply IH].
  - destruct (main_step _ _ s) eqn:E; [|done]. intros H. eapply steps_cons; [eapply good_main; [|exact E]|by apply IH].
    intros j Em. by rewrite Em.
Qed.

(** What the loop has encoded: every frame once, in order, each with its own bytes. *)
Definition in_order (s : state) (m : nat) : Prop :=
  encoded s = map Some (seq 0 m) /\ (output_frames s + delayed_calls s = m)%nat.

(** C10: The pipeline.  For any number of frames, under every interleaving of the reader
    thread with the encoding loop and every outcome of reads and encodes: while frame [i] is
    encoded its slot holds all of frame [i] and the reader is not writing that slot; what
    has been encoded are the first frames, each once, in order, with its own bytes; no
    wakeup is lost (until the loop has joined the reader some thread can move); every run
    ends within [40 n + 27] steps; and a run that cannot go on although reads and encodes
    succeed has joined the reader and encoded all [n] frames, with no delayed call. *)
Theorem pipeline_exact n k s :
  (0 < n)%nat -> steps (step n) k initial s ->
  (k <= 40 * n + 27)%nat /\
  (forall i, mn s = MEncode i -> slots s (slot i) = Some i /\ forall j, rd s = RRead j -> slot j <> slot i) /\
  in_order s (encodes n (mn s)) /\
  (final s \/ exists s', step n s s') /\
  (steps (good_step n) k initial s -> ~ (exists s', good_step n s s') -> mn s = MDone /\ in_order s n /\ delayed_calls s = 0%nat).
Proof.
  intros Hn Hs. pose proof (steps_inv n k s Hn Hs) as Hi. pose proof (steps_bound n k s Hn Hs) as Hb.
  assert (in_order s (encodes n (mn s))) as Ho by (split; [exact (iv_encoded n s Hi)|exact (iv_frames n s Hi)]).
  split_and!; [lia| |done| |].
  - intros i Em. pose proof (iv_count n s Hi) as Hc. pose proof (iv_main n s Hi) as Hm. unfold main_ok in Hm. rewrite Em in Hc, Hm. cbn [consumed] in Hc.
    split; [apply (iv_slots n s Hi); rewrite Em; cbn [consumed]; lia|]. intros j Er E.
    pose proof (iv_reader n s Hi) as Hr. unfold reader_ok in Hr. rewrite Er, Em in Hr. cbn [consumed] in Hr.
    rewrite Er in Hc, Hm. cbn [produced] in Hc, Hm. apply (slot_inj i) in E; lia.
  - destruct (progress n 0 s Hi) as [Hf|[[s' H]|[s' H]]]; [by left|right; exists s'..]; [by eapply step_reader|by eapply step_main].
  - intros Hg Hstuck. pose proof (good_runs n k s Hn Hg) as (_ & Hd & _ & Hm).
    set (i := match mn s with MEncode i => i | _ => 0%nat end).
    destruct (progress n i s Hi) as [[Hf|[j Hf]]|[[s' H]|[s' H]]].
    + rewrite Hf in Ho. done.
    + by rewrite Hf in Hm.
    + destruct Hstuck. exists s'. by apply good_reader.
    + destruct Hstuck. exists s'. eapply (good_main _ _ _ i); [|done]. intros j Em. unfold i. by rewrite Em.
Qed.

Lemma pipeline_exact_witness :
  exists s, steps (good_step 2) 19 initial s /\ (19 <= 40 * 2 + 27)%nat /\ in_order s (encodes 2 (mn s)).
Proof.
  assert (exists s, steps (good_step 2) 19 initial s) as [s H].
  { eexists. apply (drive_steps 2 [true; false; true; true; true; false; false; true; false; false; true; false; true; true;
      false; false; false; false; false]). vm_compute. reflexivity. }
  exists s. destruct (pipeline_exact 2 19 s ltac:(lia) (steps_mono 19 initial s (good_is_step 2) H)) as (Hk & _ & Ho & _). by split_and!.
Defined.
