(* ===== verification/Recording.v ===== *)
(** * Recording: probes/video/plank-probe-video-record.c, plank-probe-vaapi-decode.cpp

    A recorder that is preloaded into the client and writes the HEVC packets it submits to
    its decoder (Module [Recorder]), and the probe that opens such a recording, or a plain
    Annex B clip (Module [Replay]; what it then does with the packets is [Playback]).  The kernel and the decoder
    are parameters: what each call answers.  Files are byte lists. *)

From S2P Require Import Prelude.
From S2P Require Import Endian.
From S2P Require Import BenchX264.
From S2P Require Import ConfigFiles.
From S2P Require Import WacomBridge.
From Stdlib Require Import Ascii.

(** ** The recorder *)

Module Recorder.

Definition MAX_RECORDS : nat := 8.
Definition MAX_PACKET : Z := 16 * 1024 * 1024.
Definition MAX_BYTES : Z := 4 * 1024 * 1024 * 1024.
Definition MAX_SECONDS : Z := 600.

(** A slot: the decoder's address (0 is NULL) and the file it is recorded to ([None] is -1). *)
Record recording := mkRecording { context : Z; fd : option nat }.

(** The static variables, and the files created so far with their contents: a file is named
    after [serial], the process being one and the same. *)
Record state := mkState {
  recordings : list recording; directory : bool; stopped : bool; written : Z; serial : Z;
  files : list (Z * list Z) }.

Definition no_recordings : list recording := replicate MAX_RECORDS (mkRecording 0 None).

(** A file's own answers, as in [ConfigFiles], decide whether the directory is used:
    [path] is the environment variable. *)
Definition initialize (path : option string) (directory : opened) (euid : Z) : state :=
  let off := mkState no_recordings false false 0 0 [] in
  match path with
  | Some (String c _) =>
      if negb (Ascii.eqb c "/"%char) then off
      else match directory with
      | Opened (Some st) =>
          if negb (st_uid st =? euid) || negb (Z.land (st_mode st) 63 =? 0) then off
          else mkState no_recordings true false 0 0 []
      | _ => off
      end
  | _ => off
  end.

Definition stop_recording (s : state) : state :=
  mkState (map (fun r => mkRecording (context r) None) (recordings s)) false true (written s) (serial s) (files s).

(** Appending [data] to file [i]: [write_all] of the source is the one of the bridge with
    [write] for [send]. *)
Definition write_to (i : nat) (data : list Z) (turns : list turn) (s : state) : option (bool * list turn * state) :=
  '(name, contents) ← files s !! i;
  '(ok, contents, turns) ← write_all data contents turns;
  Some (ok, turns, mkState (recordings s) (directory s) (stopped s) (written s) (serial s) (<[i := (name, contents)]> (files s))).

Record packet := mkPacket { data : option (list Z); size : Z; flags : Z }.

(** What the kernel answers during one submission: seconds since the start, whether a new
    file can be created, and how the writes go. *)
Record kernel := mkKernel { elapsed : Z; created : bool; turns : list turn }.

(** The first slot whose context is [c]. *)
Fixpoint find_context (c : Z) (l : list recording) : option nat :=
  match l with
  | [] => None
  | r :: l => if context r =? c then Some 0%nat else option_map S (find_context c l)
  end.

Definition magic : list Z := [80; 76; 65; 78; 75; 86; 49; 10].

Definition set_recording (i : nat) (r : recording) (s : state) : state :=
  mkState (<[i := r]> (recordings s)) (directory s) (stopped s) (written s) (serial s) (files s).

(** A new slot for [c]: [inl] has stopped, [inr] is the slot's file. *)
Definition new_record (c : Z) (k : kernel) (s : state) : option ((nat * list turn) * state + state) :=
  match find_context 0 (recordings s) with
  | None => Some (inr (stop_recording s))
  | Some slot =>
      let name := serial s in
      let s := mkState (recordings s) (directory s) (stopped s) (written s) (u32 (serial s + 1)) (files s) in
      if negb (created k) then Some (inr (stop_recording (set_recording slot (mkRecording 0 None) s)))
      else
        let i := length (files s) in
        let s := set_recording slot (mkRecording 0 (Some i))
                   (mkState (recordings s) (directory s) (stopped s) (written s) (serial s) (files s ++ [(name, [])])) in
        '(ok, turns, s) ← write_to i magic (turns k) s;
        if negb ok then Some (inr (stop_recording s))
        else
          Some (inl ((i, turns),
                     mkState (<[slot := mkRecording c (Some i)]> (recordings s)) (directory s) (stopped s)
                       (u64 (written s + 8)) (serial s) (files s)))
  end.

(** Length and flags, little-endian. *)
Definition packet_header (size flags : Z) : list Z :=
  map (fun i => u8 (Z.shiftr (u32 size) (i * 8))) [0; 1; 2; 3] ++ map (fun i => u8 (Z.shiftr (u32 flags) (i * 8))) [0; 1; 2; 3].

(** The header and the bytes of a packet; a slot without a file would be a write to -1. *)
Definition write_packet (i : nat) (p : list Z) (flags : Z) (turns : list turn) (s : state) : option state :=
  '(ok, turns, s) ← write_to i (packet_header (len p) flags) turns s;
  if negb ok then Some (stop_recording s)
  else
    '(ok, turns, s) ← write_to i p turns s;
    if negb ok then Some (stop_recording s)
    else Some (mkState (recordings s) (directory s) (stopped s) (u64 (written s + u64 (8 + len p))) (serial s) (files s)).

Definition record_packet (c : Z) (p : list Z) (flags : Z) (k : kernel) (s : state) : option state :=
  if stopped s || negb (directory s) then Some s
  else if (MAX_SECONDS <=? elapsed k) || (MAX_BYTES <? u64 (u64 (written s + len p) + 16)) then Some (stop_recording s)
  else
    match find_context c (recordings s) with
    | Some slot =>
        r ← recordings s !! slot;
        i ← fd r;
        write_packet i p flags (turns k) s
    | None =>
        r ← new_record c k s;
        match r with
        | inr s => Some s
        | inl ((i, turns), s) => write_packet i p flags turns s
        end
    end.

(** A decoder: its address, and whether it decodes video, and HEVC. *)
Record decoder := mkDecoder { address : Z; is_video : bool; is_hevc : bool }.

Definition ENOSYS_result : Z := -38.

(** [send]: the library's own answer, [None] when the function was not found.  What is
    submitted is recorded only after it was accepted. *)
Definition avcodec_send_packet (send : option Z) (d : option decoder) (p : option packet) (k : kernel) (s : state)
    : option (Z * state) :=
  match send with
  | None => Some (ENOSYS_result, s)
  | Some result =>
      match d, p with
      | Some d, Some (mkPacket (Some bytes) size flags) =>
          if (result =? 0) && is_video d && is_hevc d && (0 <? size) && (u32 size <=? MAX_PACKET) then
            bytes ← copy_from bytes 0 size;
            s ← record_packet (address d) bytes flags k s;
            Some (result, s)
          else Some (result, s)
      | _, _ => Some (result, s)
      end
  end.

Definition avcodec_free_context (c : option Z) (s : state) : state :=
  match c with
  | None => s
  | Some c =>
      if c =? 0 then s
      else mkState (map (fun r => if context r =? c then mkRecording 0 None else r) (recordings s)) (directory s) (stopped s)
        (written s) (serial s) (files s)
  end.

Definition finish (s : state) : state := stop_recording s.

(** The calls of a process; the mutex makes each one step. *)
Inductive call :=
  | Send (send : option Z) (d : option decoder) (p : option packet) (k : kernel)
  | Free (c : option Z)
  | Finish.
Definition apply (c : call) (s : state) : option state :=
  match c with
  | Send send d p k => option_map snd (avcodec_send_packet send d p k s)
  | Free c => Some (avcodec_free_context c s)
  | Finish => Some (finish s)
  end.
Fixpoint run (calls : list call) (s : state) : option state :=
  match calls with
  | [] => Some s
  | c :: calls => s ← apply c s; run calls s
  end.
End Recorder.

(** ** The replay *)

Module Replay.

Definition MaxClip : Z := 256 * 1024 * 1024.
Definition MaxRecording : Z := 4 * 1024 * 1024 * 1024.
Definition MaxPacket : Z := 16 * 1024 * 1024.
Definition MaxUnits : Z := 1000000.

(** In this module a result [Some None] is an exception, [None] an access outside an object
    or fuel that runs out. *)
Abbreviation throws := (Some None).

(** The length of a start code at [i], 0 when there is none. *)
Definition start_prefix (bytes : list Z) (i : Z) : option Z :=
  b0 ← load bytes i; b1 ← load bytes (i + 1);
  if (b0 =? 0) && (b1 =? 0) then
    b2 ← load bytes (i + 2);
    if b2 =? 1 then Some 3
    else if b2 =? 0 then b3 ← load bytes (i + 3); Some (if b3 =? 1 then 4 else 0)
    else Some 0
  else Some 0.

(** The positions of the access-unit delimiters (NAL type 35). *)
Fixpoint delimiter_loop (fuel : nat) (bytes : list Z) (i : Z) (starts : list Z) : option (option (list Z)) :=
  match fuel with
  | O => None
  | S fuel =>
      if i + 4 <? len bytes then
        prefix ← start_prefix bytes i;
        if negb (prefix =? 0) && (i + prefix + 1 <? len bytes) then
          h ← load bytes (i + prefix);
          if Z.land (Z.shiftr h 1) 63 =? 35 then
            if MaxUnits <=? len starts then throws
            else delimiter_loop fuel bytes (i + prefix + 2) (starts ++ [i])
          else delimiter_loop fuel bytes (i + prefix + 2) starts
        else delimiter_loop fuel bytes (i + 1) starts
      else Some (Some starts)
  end.

(** Offset and length of the unit between neighbouring starts. *)
Fixpoint between (starts : list Z) : list (Z * Z) :=
  match starts with
  | a :: (b :: _) as rest => (a, b - a) :: between rest
  | _ => []
  end.

Definition accessUnits (bytes : list Z) : option (option (list (Z * Z))) :=
  starts ← delimiter_loop (S (length bytes)) bytes 0 [];
  match starts return option (option (list (Z * Z))) with
  | None | Some [] => throws
  | Some (_ :: starts) => Some (Some (between (0 :: starts ++ [len bytes])))
  end.

Definition littleEndian (data : list Z) (at_ : Z) : option Z :=
  b0 ← load data at_; b1 ← load data (at_ + 1); b2 ← load data (at_ + 2); b3 ← load data (at_ + 3);
  Some (Z.lor (Z.lor (Z.lor b0 (u32 (Z.shiftl b1 8))) (u32 (Z.shiftl b2 16))) (u32 (Z.shiftl b3 24))).

(** [file]: the file's contents, [bytes] the copy in memory of a plain clip. *)
Record Clip := mkClip { file : list Z; recording : bool; bytes : list Z; units : list (Z * Z); unit_flags : list Z }.

(** The headers of a recording, from [offset] on. *)
Fixpoint index_loop (fuel : nat) (file : list Z) (offset : Z) (units : list (Z * Z)) (flags : list Z)
    : option (option (list (Z * Z) * list Z)) :=
  match fuel with
  | O => None
  | S fuel =>
      if offset <? len file then
        if len file - offset <? 8 then throws
        else
          header ← copy_from file offset 8;
          length ← littleEndian header 0;
          let offset := offset + 8 in
          if (length =? 0) || (MaxPacket <? length) || (len file - offset <? length) then throws
          else if MaxUnits <=? len units then throws
          else
            f ← littleEndian header 4;
            index_loop fuel file (offset + length) (units ++ [(offset, length)]) (flags ++ [f])
      else Some (Some (units, flags))
  end.

(** The constructor; [contents] is [None] for a file that cannot be opened. *)
Definition open_clip (contents : option (list Z)) : option (option Clip) :=
  match contents with
  | None => throws
  | Some file =>
      if (len file <? 8) || (MaxRecording <? len file) then throws
      else
        header ← copy_from file 0 8;
        if negb (bool_decide (header = Recorder.magic)) then
          if MaxClip <? len file then throws
          else
            units ← accessUnits file;
            Some (option_map (fun units => mkClip file false file units (map (fun _ => 0) units)) units)
        else
          r ← index_loop (S (length file)) file 8 [] [];
          match r return option (option Clip) with
          | None | Some ([], _) => throws
          | Some (units, flags) => Some (Some (mkClip file true [] units flags))
          end
  end.

Definition count (c : Clip) : Z := len (units c).

(** The packet of a unit and its flags; [allocated] is whether [av_new_packet] succeeds. *)
Definition clip_packet (c : Clip) (index : Z) (allocated : bool) : option (option (list Z * Z)) :=
  if count c =? 0 then None
  else
    let index := index mod count c in
    '(offset, size) ← load (units c) index;
    if negb allocated then throws
    else
      f ← load (unit_flags c) index;
      data ← copy_from (if recording c then file c else bytes c) offset size;
      Some (Some (data, s32 f)).
End Replay.

(** ** What a recording holds *)

Import Recorder.

(** The reference: the packets of each decoder, from its first submission to its release. *)
Record session := mkSession { owner : Z; packets : list (list Z * Z) }.

Definition note (c : Z) (p : list Z * Z) (l : list session) : list session :=
  if existsb (fun s => owner s =? c) l
  then map (fun s => if owner s =? c then mkSession c (packets s ++ [p]) else s) l
  else l ++ [mkSession c [p]].
Definition release (c : Z) (l : list session) : list session :=
  map (fun s => if owner s =? c then mkSession 0 (packets s) else s) l.

(** What of a call the reference takes note of: accepted HEVC packets within the limits. *)
Definition recordable (c : call) : option (Z * (list Z * Z)) :=
  match c with
  | Send (Some 0) (Some (mkDecoder a true true)) (Some (mkPacket (Some b) n f)) _ =>
      if (0 <? n) && (n <=? MAX_PACKET) then Some (a, (take (Z.to_nat n) b, f)) else None
  | _ => None
  end.
Definition noted (c : call) (l : list session) : list session :=
  match c with
  | Free (Some c) => if c =? 0 then l else release c l
  | _ => match recordable c with Some (a, p) => note a p l | None => l end
  end.
Definition sessions (calls : list call) : list session := foldl (fun l c => noted c l) [] calls.

(** A session's file. *)
Definition framed (p : list Z * Z) : list Z := le_bytes 4 (len p.1) ++ le_bytes 4 (u32 p.2) ++ p.1.
Definition encode (ps : list (list Z * Z)) : list Z := magic ++ concat (map framed ps).

Definition packet_ok (p : list Z * Z) : Prop := 0 < len p.1 <= MAX_PACKET /\ - 2 ^ 31 <= p.2 < 2 ^ 31.

(** Calls as the language allows them: decoders have addresses, packets their bytes. *)
Definition call_ok (c : call) : Prop :=
  match c with
  | Send _ d p _ =>
      (forall d', d = Some d' -> address d' <> 0) /\
      (forall b n f, p = Some (mkPacket (Some b) n f) -> - 2 ^ 31 <= n < 2 ^ 31 /\ n <= len b /\ - 2 ^ 31 <= f < 2 ^ 31)
  | _ => True
  end.

(** ** Writing *)

Lemma write_all_sound data out turns ok out' rest :
  write_all data out turns = Some (ok, out', rest) ->
  exists k, out' = out ++ take k data /\ (ok = true -> out' = out ++ data).
Proof.
  revert data out. induction turns as [|t turns IH]; intros [|b data] out; cbn [write_all]; try done;
    try (intros [= <- <- <-]; exists 0%nat; rewrite take_0; by rewrite app_nil_r).
  destruct t as [| |n]; [by apply IH|intros [= <- <- <-]; exists 0%nat; rewrite take_0; by rewrite app_nil_r|].
  intros (k & -> & Hok)%IH. rewrite <- !app_assoc in *. exists (S n + k)%nat. split.
  - f_equal. rewrite <- (take_drop (S n) (b :: data)) at 3. rewrite take_app.
    destruct (decide (S n <= length (b :: data))%nat).
    + rewrite (take_ge (take _ _)) by (rewrite length_take; lia). f_equal. f_equal. rewrite length_take. lia.
    + rewrite (drop_ge (b :: data)) by lia. rewrite !take_nil, !app_nil_r. rewrite take_take. f_equal. lia.
  - intros Ht. rewrite (Hok Ht). f_equal. by rewrite take_drop.
Qed.

Lemma packet_header_le size flags : packet_header size flags = le_bytes 4 (u32 size) ++ le_bytes 4 (u32 flags).
Proof.
  unfold packet_header. cbn [map le_bytes app]. rewrite !shiftr_bytes by lia. by rewrite !Z.shiftr_0_r.
Qed.

Definition contents (s : state) : list (list Z) := map snd (files s).
Definition total (l : list (list Z)) : Z := foldr (fun f n => len f + n) 0 l.

Lemma total_app l1 l2 : total (l1 ++ l2) = total l1 + total l2.
Proof. unfold total. induction l1 as [|f l1 IH]; cbn; lia. Qed.

Lemma total_nonneg l : 0 <= total l.
Proof. unfold total. induction l; cbn; lia. Qed.

Lemma total_insert i f g l : l !! i = Some f -> total (<[i := g]> l) = total l - len f + len g.
Proof.
  intros H. rewrite insert_take_drop by (by eapply lookup_lt_Some).
  rewrite <- (take_drop_middle l i f H) at 3. rewrite !total_app. unfold total. cbn. lia.
Qed.

Lemma total_le l i f : l !! i = Some f -> len f <= total l.
Proof.
  unfold total in *. revert i. induction l as [|h l IH]; intros [|i]; cbn; try done; [intros [= ->]|intros H%IH; lia].
  pose proof (total_nonneg l) as Ht. unfold total in Ht. lia.
Qed.

(** Everything but the files stays as it is. *)
Definition same_but_files (s s' : state) : Prop :=
  recordings s' = recordings s /\ directory s' = directory s /\ stopped s' = stopped s /\ written s' = written s /\ serial s' = serial s.

Lemma write_to_sound i data turns s ok rest s' :
  write_to i data turns s = Some (ok, rest, s') ->
  exists f k, contents s !! i = Some f /\ contents s' = <[i := f ++ take k data]> (contents s) /\ same_but_files s s' /\
    (ok = true -> contents s' = <[i := f ++ data]> (contents s)).
Proof.
  unfold write_to. destruct (files s !! i) as [[n f]|] eqn:Ef; [|done]. cbn [mbind option_bind].
  destruct (write_all data f turns) as [[[ok' out] rest']|] eqn:Ew; [|done]. cbn [mbind option_bind]. intros [= -> -> <-].
  apply write_all_sound in Ew as (k & -> & Hok). exists f, k. unfold contents. cbn [files].
  rewrite list_lookup_fmap, Ef. split_and!; try done.
  - rewrite list_fmap_insert. done.
  - intros Ht. rewrite list_fmap_insert. cbn [snd]. by rewrite Hok.
Qed.

(** A packet is appended whole, or the recorder stops within it. *)
Lemma write_packet_sound i p fl turns s s' f :
  write_packet i p fl turns s = Some s' -> contents s !! i = Some f -> 0 <= len p <= MAX_PACKET ->
  (exists k, stopped s' = true /\ contents s' = <[i := f ++ take k (framed (p, fl))]> (contents s)) \/
  (contents s' = <[i := f ++ framed (p, fl)]> (contents s) /\ recordings s' = recordings s /\ directory s' = directory s /\
   stopped s' = stopped s /\ written s' = u64 (written s + (8 + len p))).
Proof.
  intros H Hf Hp. unfold write_packet in H.
  assert (packet_header (len p) fl = le_bytes 4 (len p) ++ le_bytes 4 (u32 fl)) as Eh.
  { rewrite packet_header_le. unfold MAX_PACKET in Hp. by rewrite (wrap_small 32 (len p)) by (ranges; lia). }
  rewrite Eh in H. set (h := le_bytes 4 (len p) ++ le_bytes 4 (u32 fl)) in *.
  assert (framed (p, fl) = h ++ p) as Efr by (unfold framed, h; cbn [fst snd]; by rewrite <- app_assoc).
  destruct (write_to i h turns s) as [[[ok rest] s1]|] eqn:E1; [|done]. cbn [mbind option_bind] in H.
  apply write_to_sound in E1 as (f1 & k1 & Hf1 & Hc1 & (Hr1 & Hd1 & Hs1 & Hw1 & _) & Hok1). rewrite Hf in Hf1. injection Hf1 as <-.
  destruct ok; cbn [negb] in H.
  2: { injection H as <-. left. exists (Nat.min k1 (length h)). split; [done|]. change (contents (stop_recording s1)) with (contents s1).
       rewrite Hc1, Efr, take_app_le by lia. f_equal. f_equal. destruct (decide (k1 <= length h)%nat); [f_equal; lia|].
       rewrite !take_ge by lia. done. }
  specialize (Hok1 eq_refl). destruct (write_to i p rest s1) as [[[ok2 rest2] s2]|] eqn:E2; [|done]. cbn [mbind option_bind] in H.
  apply write_to_sound in E2 as (f2 & k2 & Hf2 & Hc2 & (Hr2 & Hd2 & Hs2 & Hw2 & _) & Hok2).
  rewrite Hok1, list_lookup_insert_eq in Hf2 by (by eapply lookup_lt_Some). injection Hf2 as <-.
  destruct ok2; cbn [negb] in H; injection H as <-.
  - right. unfold contents in *. cbn [files recordings directory stopped written].
    rewrite (Hok2 eq_refl), Hok1, list_insert_insert_eq, Efr, <- app_assoc. split_and!; try congruence.
    rewrite Hw2, Hw1. f_equal. f_equal. apply wrap_small. unfold MAX_PACKET in Hp. ranges. lia.
  - left. exists (length h + k2)%nat. split; [done|]. change (contents (stop_recording s2)) with (contents s2).
    rewrite Hc2, Hok1, list_insert_insert_eq, Efr, take_app_add, <- app_assoc. done.
Qed.

(** A new file holds the magic, or the recorder stops within it. *)
Lemma new_record_sound c k s r :
  new_record c k s = Some r ->
  match r with
  | inr s' => stopped s' = true /\ (contents s' = contents s \/ exists k, contents s' = contents s ++ [take k magic])
  | inl (i, _, s') =>
      i = length (contents s) /\ contents s' = contents s ++ [magic] /\
      (exists slot, find_context 0 (recordings s) = Some slot /\ recordings s' = <[slot := mkRecording c (Some i)]> (recordings s)) /\
      directory s' = directory s /\ stopped s' = stopped s /\ written s' = u64 (written s + 8)
  end.
Proof.
  unfold new_record. destruct (find_context 0 (recordings s)) as [slot|] eqn:Es; [|intros [= <-]; split; [done|by left]].
  destruct (created k); [|intros [= <-]; split; [done|by left]]. cbn [negb].
  cbn [recordings directory stopped written serial files set_recording].
  destruct (write_to _ _ _ _) as [[[ok rest] s1]|] eqn:E1; [|done]. cbn [mbind option_bind].
  apply write_to_sound in E1 as (f1 & k1 & Hf1 & Hc1 & (Hr1 & Hd1 & Hs1 & Hw1 & _) & Hok1).
  unfold set_recording, contents in *. cbn [recordings directory stopped written serial files] in *.
  rewrite map_app in Hf1, Hc1, Hok1. cbn [map snd] in Hf1, Hc1, Hok1. rewrite <- (length_map snd (files s)) in Hf1, Hc1, Hok1.
  rewrite list_lookup_middle in Hf1 by done. injection Hf1 as <-.
  assert (forall x : list Z, <[length (map snd (files s)) := x]> (map snd (files s) ++ [[]]) = map snd (files s) ++ [x]) as Hins.
  { intros x. rewrite insert_app_r_alt by lia. by rewrite Nat.sub_diag. }
  cbn [app] in Hc1, Hok1. rewrite Hins in Hc1, Hok1. destruct ok; cbn [negb]; intros [= <-].
  - split_and!; cbn [recordings directory stopped written files]; try done.
    + by rewrite length_map.
    + by apply Hok1.
    + exists slot. split; [done|]. by rewrite Hr1, list_insert_insert_eq.
    + by rewrite Hw1.
  - split; [done|]. right. exists k1. cbn [stop_recording files]. done.
Qed.

(** ** The recorder follows the reference *)

Record inv (s : state) (l : list session) : Prop := {
  iv_on : directory s = true /\ stopped s = false;
  iv_contents : contents s = map (fun ss => encode (packets ss)) l;
  iv_written : written s = total (contents s) /\ written s <= MAX_BYTES;
  iv_slot : forall a r, recordings s !! a = Some r ->
    (context r = 0 -> fd r = None) /\
    (context r <> 0 -> exists i ss, fd r = Some i /\ l !! i = Some ss /\ owner ss = context r);
  iv_open : forall i ss, l !! i = Some ss -> owner ss <> 0 -> exists a, recordings s !! a = Some (mkRecording (owner ss) (Some i));
  iv_owner : forall i j ss tt, l !! i = Some ss -> l !! j = Some tt -> owner ss = owner tt -> owner ss <> 0 -> i = j;
  iv_slots : length (recordings s) = MAX_RECORDS /\
    forall a b r q, recordings s !! a = Some r -> recordings s !! b = Some q -> context r = context q -> context r <> 0 -> a = b }.

(** Files between two stages of the reference. *)
Definition partial (l l' : list session) (fs : list (list Z)) : Prop :=
  (forall i ss, l !! i = Some ss -> exists f, fs !! i = Some f /\ encode (packets ss) `prefix_of` f) /\
  (forall i f, fs !! i = Some f -> exists ss, l' !! i = Some ss /\ f `prefix_of` encode (packets ss)).

Lemma encode_snoc ps p : encode (ps ++ [p]) = encode ps ++ framed p.
Proof. unfold encode. rewrite map_app, concat_app. cbn [map concat]. by rewrite app_nil_r, <- app_assoc. Qed.

Lemma find_context_Some c l a : find_context c l = Some a -> exists r, l !! a = Some r /\ context r = c.
Proof.
  revert a. induction l as [|r l IH]; intros a; cbn [find_context]; [done|].
  destruct (Z.eqb_spec (context r) c) as [E|]; [intros [= <-]; by exists r|].
  destruct (find_context c l) as [b|]; [|done]. intros [= <-]. by apply IH.
Qed.

Lemma find_context_None c l a r : find_context c l = None -> l !! a = Some r -> context r <> c.
Proof.
  revert a. induction l as [|r' l IH]; intros a; cbn [find_context]; [done|].
  destruct (Z.eqb_spec (context r') c) as [E|]; [done|]. destruct (find_context c l); [done|]. intros _.
  destruct a as [|a]; [by intros [= <-]|by apply IH].
Qed.

(** The two cases of the reference's note. *)
Lemma note_open c p l i ss :
  l !! i = Some ss -> owner ss = c -> (forall j tt, l !! j = Some tt -> owner tt = c -> i = j) ->
  note c p l = <[i := mkSession c (packets ss ++ [p])]> l.
Proof.
  intros Hi Ho Hu. unfold note. rewrite (proj2 (existsb_exists _ _)).
  2: { exists ss. split; [|lia]. apply list_elem_of_In. by eapply list_elem_of_lookup_2. }
  apply list_eq. intros j. rewrite list_lookup_fmap. destruct (decide (i = j)) as [<-|Hne].
  - rewrite list_lookup_insert_eq, Hi by (by eapply lookup_lt_Some). cbn [fmap option_fmap option_map]. by rewrite (proj2 (Z.eqb_eq _ _) Ho).
  - rewrite list_lookup_insert_ne by done. destruct (l !! j) as [tt|] eqn:Ej; [|done]. cbn [fmap option_fmap option_map].
    destruct (Z.eqb_spec (owner tt) c) as [E|]; [|done]. by apply Hu in Ej.
Qed.

Lemma note_new c p l : (forall j tt, l !! j = Some tt -> owner tt <> c) -> note c p l = l ++ [mkSession c [p]].
Proof.
  intros Hu. unfold note. destruct (existsb _ l) eqn:E; [|done]. apply existsb_exists in E as (tt & Hin & Ht%Z.eqb_eq).
  apply list_elem_of_In, list_elem_of_lookup_1 in Hin as [j Hj]. by apply Hu in Hj.
Qed.

Lemma partial_refl l : partial l l (map (fun ss => encode (packets ss)) l).
Proof.
  split; intros i x; rewrite list_lookup_fmap; [intros ->; by eexists|].
  destruct (l !! i) as [ss|]; [|done]. intros [= <-]. by exists ss.
Qed.

Lemma partial_note_open l c p i ss f :
  l !! i = Some ss -> encode (packets ss) `prefix_of` f -> f `prefix_of` encode (packets ss ++ [p]) ->
  partial l (<[i := mkSession c (packets ss ++ [p])]> l) (<[i := f]> (map (fun ss => encode (packets ss)) l)).
Proof.
  intros Hi Hf Hf'. assert (i < length l)%nat by (by eapply lookup_lt_Some). split; intros j x.
  - intros Hj. destruct (decide (i = j)) as [<-|Hne].
    + rewrite Hi in Hj. injection Hj as <-. exists f. split; [|done]. apply list_lookup_insert_eq. by rewrite length_map.
    + rewrite list_lookup_insert_ne, list_lookup_fmap, Hj by done. by eexists.
  - destruct (decide (i = j)) as [<-|Hne].
    + rewrite list_lookup_insert_eq by (by rewrite length_map). intros [= <-]. rewrite list_lookup_insert_eq by done. by eexists.
    + rewrite !list_lookup_insert_ne by done. apply partial_refl.
Qed.

Lemma partial_note_new l c p fs :
  (fs = [] \/ exists f, fs = [f] /\ f `prefix_of` encode [p]) ->
  partial l (l ++ [mkSession c [p]]) (map (fun ss => encode (packets ss)) l ++ fs).
Proof.
  intros Hfs. split; intros j x.
  - intros Hj. exists (encode (packets x)). split; [|done]. apply lookup_app_l_Some. by rewrite list_lookup_fmap, Hj.
  - intros [Hj|[Hlen Hj]]%lookup_app_Some.
    + rewrite list_lookup_fmap in Hj. destruct (l !! j) as [ss|] eqn:E; [|done]. injection Hj as <-. exists ss. split; [|done].
      by apply lookup_app_l_Some.
    + rewrite length_map in Hlen, Hj. destruct Hfs as [->|(f & -> & Hf)]; [done|].
      apply list_lookup_singleton_Some in Hj as [Hj <-]. exists (mkSession c [p]). split; [|done].
      rewrite lookup_app_r by lia. by replace (j - length l)%nat with 0%nat by lia.
Qed.

Lemma framed_len p : len (framed p) = 8 + len p.1.
Proof. unfold framed. rewrite !length_app, !le_bytes_length. lia. Qed.

Lemma inv_append s s' l i ss p :
  inv s l -> l !! i = Some ss -> contents s' = <[i := encode (packets ss) ++ framed p]> (contents s) ->
  recordings s' = recordings s -> directory s' = directory s -> stopped s' = stopped s ->
  written s' = written s + (8 + len p.1) -> written s' <= MAX_BYTES ->
  inv s' (<[i := mkSession (owner ss) (packets ss ++ [p])]> l).
Proof.
  intros [Hon Hc Hw Hslot Hopen Hown Hslots] Hi Hc' Hr Hd Hs Hw' Hle. assert (i < length l)%nat as Hlt by (by eapply lookup_lt_Some).
  assert (forall j tt, <[i := mkSession (owner ss) (packets ss ++ [p])]> l !! j = Some tt -> exists tt', l !! j = Some tt' /\ owner tt' = owner tt) as Hsame.
  { intros j tt [(<- & <- & _)|[Hne Hj]]%list_lookup_insert_Some; [by exists ss|by exists tt]. }
  split.
  - by rewrite Hd, Hs.
  - rewrite Hc', Hc, <- encode_snoc. symmetry. apply (list_fmap_insert (fun ss => encode (packets ss))).
  - split; [|done]. rewrite Hc', (total_insert i (encode (packets ss))) by (by rewrite Hc, list_lookup_fmap, Hi).
    rewrite length_app, Nat2Z.inj_add, framed_len. destruct Hw as [Hw _]. lia.
  - intros a r. rewrite Hr. intros Ha. destruct (Hslot a r Ha) as [H0 H1]. split; [done|]. intros Hn.
    destruct (H1 Hn) as (j & tt & Hf & Hj & Ho). destruct (decide (i = j)) as [<-|Hne].
    + exists i. eexists. split; [done|]. rewrite list_lookup_insert_eq by done. split; [done|]. cbn [owner]. congruence.
    + exists j, tt. by rewrite list_lookup_insert_ne.
  - intros j tt Hj Hn. rewrite Hr. destruct (Hsame j tt Hj) as (tt' & Hj' & E). rewrite <- E in *. by apply Hopen.
  - intros j1 j2 t1 t2 H1 H2 Ho Hn. destruct (Hsame _ _ H1) as (t1' & H1' & E1). destruct (Hsame _ _ H2) as (t2' & H2' & E2).
    apply (Hown j1 j2 t1' t2'); congruence.
  - by rewrite Hr.
Qed.

Lemma inv_new s s' l c p slot :
  inv s l -> c <> 0 -> (forall j tt, l !! j = Some tt -> owner tt <> c) -> find_context c (recordings s) = None ->
  find_context 0 (recordings s) = Some slot ->
  contents s' = contents s ++ [encode [p]] -> recordings s' = <[slot := mkRecording c (Some (length l))]> (recordings s) ->
  directory s' = directory s -> stopped s' = stopped s ->
  written s' = written s + (16 + len p.1) -> written s' <= MAX_BYTES -> inv s' (l ++ [mkSession c [p]]).
Proof.
  intros [Hon Hc Hw Hslot Hopen Hown [Hlen8 Hslots]] Hc0 Hnew Hnone Hfree Hc' Hr Hd Hs Hw' Hle.
  apply find_context_Some in Hfree as (r0 & Hr0 & Hz).
  assert (slot < length (recordings s))%nat as Hlt by (by eapply lookup_lt_Some).
  split.
  - by rewrite Hd, Hs.
  - by rewrite Hc', Hc, map_app.
  - split; [|done]. rewrite Hc', total_app. unfold total at 2. cbn [foldr]. unfold encode. cbn [map concat].
    rewrite app_nil_r, length_app, Nat2Z.inj_add, framed_len. change (length magic) with 8%nat. destruct Hw as [Hw _]. lia.
  - intros a r. rewrite Hr. intros [(<- & <- & _)|[Hne Ha]]%list_lookup_insert_Some.
    + split; [done|]. intros _. exists (length l), (mkSession c [p]). split_and!; [done| |done]. by rewrite lookup_app_r, Nat.sub_diag by lia.
    + destruct (Hslot a r Ha) as [H0 H1]. split; [done|]. intros Hn. destruct (H1 Hn) as (j & tt & Hf & Hj & Ho).
      exists j, tt. split_and!; [done| |done]. by apply lookup_app_l_Some.
  - intros j tt Hj Hn. rewrite Hr. apply lookup_app_Some in Hj as [Hj|[Hlen Hj]].
    + destruct (Hopen j tt Hj Hn) as (a & Ha). exists a. rewrite list_lookup_insert_ne; [done|]. intros <-. rewrite Ha in Hr0.
      injection Hr0 as <-. done.
    + apply list_lookup_singleton_Some in Hj as [Hj <-]. exists slot. rewrite list_lookup_insert_eq by done. cbn [owner].
      do 3 f_equal. lia.
  - assert (forall j1 j2 t1 t2, l !! j1 = Some t1 -> (l ++ [mkSession c [p]]) !! j2 = Some t2 -> owner t1 = owner t2 -> owner t1 <> 0 -> j1 = j2) as Hmix.
    { intros j1 j2 t1 t2 H1 [H2|[_ H2]]%lookup_app_Some Ho Hn; [by eapply Hown|].
      apply list_lookup_singleton_Some in H2 as [_ <-]. by apply Hnew in H1. }
    intros j1 j2 t1 t2 [H1|[Hl1 H1]]%lookup_app_Some H2 Ho Hn; [by eapply Hmix|].
    apply lookup_app_Some in H2 as [H2|[Hl2 H2]].
    + symmetry. eapply Hmix; [exact H2| |done|congruence]. apply lookup_app_Some. by right.
    + apply list_lookup_singleton_Some in H1 as [H1 _], H2 as [H2 _]. lia.
  - rewrite Hr, length_insert. split; [done|]. intros a b r q [(<- & <- & _)|[Hne Ha]]%list_lookup_insert_Some
      [(<- & <- & _)|[Hne' Hb]]%list_lookup_insert_Some; cbn [context]; intros E Hn.
    + done.
    + by apply (find_context_None c _ b q Hnone) in Hb.
    + by apply (find_context_None c _ a r Hnone) in Ha.
    + by eapply Hslots.
Qed.

Lemma note_at s l c p i ss :
  inv s l -> c <> 0 -> l !! i = Some ss -> owner ss = c -> note c p l = <[i := mkSession c (packets ss ++ [p])]> l.
Proof.
  intros Hi Hc0 Hl Ho. apply note_open; [done..|]. intros j tt Hj Hoj.
  eapply (iv_owner s l Hi); [exact Hl|exact Hj|congruence|congruence].
Qed.

(** Stopping before anything is written. *)
Lemma partial_none s l c p : inv s l -> c <> 0 -> partial l (note c p l) (contents s).
Proof.
  intros Hi Hc0. rewrite (iv_contents s l Hi). destruct (existsb (fun ss => owner ss =? c) l) eqn:Eo.
  - apply existsb_exists in Eo as (tt & Hin & Ht%Z.eqb_eq). apply list_elem_of_In, list_elem_of_lookup_1 in Hin as [i Hl].
    rewrite (note_at s l c p i tt) by done.
    rewrite <- (list_insert_id (map (fun ss => encode (packets ss)) l) i (encode (packets tt))) by (by rewrite list_lookup_fmap, Hl).
    apply partial_note_open; [done..|]. rewrite encode_snoc. by apply prefix_app_r.
  - unfold note. rewrite Eo. rewrite <- (app_nil_r (map _ l)). apply partial_note_new. by left.
Qed.

Lemma record_step c p k s s' l :
  inv s l -> c <> 0 -> packet_ok p -> record_packet c p.1 p.2 k s = Some s' ->
  (stopped s' = false -> inv s' (note c p l)) /\ (stopped s' = true -> partial l (note c p l) (contents s')).
Proof.
  intros Hi Hc0 [Hp _] H. pose proof Hi as [[Hdir Hst] Hc [Hw Hwle] Hslot Hopen Hown _].
  assert (0 <= written s) as Hw0 by (rewrite Hw; apply total_nonneg).
  unfold record_packet in H. rewrite Hst, Hdir in H. cbn [orb negb] in H.
  assert (u64 (u64 (written s + len p.1) + 16) = written s + len p.1 + 16) as Eu.
  { unfold MAX_PACKET, MAX_BYTES in *. rewrite (wrap_small 64 (written s + len p.1)) by (ranges; lia). apply wrap_small. ranges. lia. }
  rewrite Eu in H. destruct (_ || _) eqn:Elim.
  { injection H as <-. split; [done|]. intros _. exact (partial_none s l c p Hi Hc0). }
  guards. destruct (find_context c (recordings s)) as [slot|] eqn:Ef.
  - (* the decoder has a file *)
    apply find_context_Some in Ef as (r & Hr & Hrc). rewrite Hr in H. cbn [mbind option_bind] in H.
    destruct (Hslot slot r Hr) as [_ Hfd]. destruct Hfd as (i & ss & Hfd & Hl & Ho); [congruence|]. rewrite Hfd in H. cbn [mbind option_bind] in H.
    rewrite (note_at s l c p i ss) by (done || congruence).
    apply (write_packet_sound i p.1 p.2 _ s s' (encode (packets ss))) in H; [|by rewrite Hc, list_lookup_fmap, Hl|lia].
    rewrite <- surjective_pairing in H. destruct H as [(n & Hs' & Hc')|(Hc' & Hr' & Hd' & Hs' & Hw')].
    + split; [congruence|]. intros _. rewrite Hc', Hc. apply partial_note_open; [done|by apply prefix_app_r|].
      rewrite encode_snoc. apply prefix_app. apply prefix_take.
    + split; [|congruence]. intros _. assert (c = owner ss) as -> by congruence.
      rewrite wrap_small in Hw' by (unfold MAX_PACKET, MAX_BYTES in *; ranges; lia). eapply inv_append; eauto. lia.
  - (* a new file *)
    assert (forall j tt, l !! j = Some tt -> owner tt <> c) as Hnew.
    { intros j tt Hj Ho. destruct (Hopen j tt Hj ltac:(congruence)) as (a & Ha). by apply (find_context_None c _ a _ Ef) in Ha. }
    rewrite (note_new c p l Hnew). destruct (new_record c k s) as [r|] eqn:En; [|done]. cbn [mbind option_bind] in H.
    apply new_record_sound in En. assert (encode [p] = magic ++ framed p) as Ee by (unfold encode; cbn [map concat]; by rewrite app_nil_r).
    destruct r as [[[i turns] s1]|s1].
    2: { injection H as <-. destruct En as [Hs1 Hc1]. split; [congruence|]. intros _. destruct Hc1 as [->|[n ->]]; rewrite Hc.
         - rewrite <- (app_nil_r (map _ l)). apply partial_note_new. by left.
         - apply partial_note_new. right. eexists. split; [done|]. rewrite Ee. apply prefix_app_r. apply prefix_take. }
    destruct En as (-> & Hc1 & (slot & Hfree & Hr1) & Hd1 & Hs1 & Hw1).
    assert (length (contents s) = length l) as Hlen by (by rewrite Hc, length_map). rewrite Hlen in *.
    apply (write_packet_sound _ p.1 p.2 _ s1 s' magic) in H; [|rewrite Hc1, lookup_app_r by lia; by rewrite Hlen, Nat.sub_diag|lia].
    rewrite <- surjective_pairing in H.
    assert (forall x, <[length l := x]> (contents s1) = contents s ++ [x]) as Hins.
    { intros x. rewrite Hc1, insert_app_r_alt by lia. by rewrite Hlen, Nat.sub_diag. }
    destruct H as [(n & Hs' & Hc')|(Hc' & Hr' & Hd' & Hs' & Hw')].
    + split; [congruence|]. intros _. rewrite Hc', Hins, Hc. apply partial_note_new. right. eexists. split; [done|].
      rewrite Ee. apply prefix_app. apply prefix_take.
    + split; [|congruence]. intros _. rewrite Hins, <- Ee in Hc'. rewrite Hw1 in Hw'. unfold MAX_PACKET, MAX_BYTES in *.
      rewrite (wrap_small 64 (written s + 8)) in Hw' by (ranges; lia). rewrite wrap_small in Hw' by (ranges; lia).
      eapply (inv_new s s' l c p slot); try done; try congruence; unfold MAX_BYTES; lia.
Qed.

Lemma inv_release s l c : inv s l -> c <> 0 -> inv (avcodec_free_context (Some c) s) (release c l).
Proof.
  intros [Hon Hc Hw Hslot Hopen Hown [Hlen Hslots]] Hc0. unfold avcodec_free_context. rewrite (proj2 (Z.eqb_neq _ _) Hc0).
  assert (forall i ss, release c l !! i = Some ss ->
    exists tt, l !! i = Some tt /\ packets ss = packets tt /\ (owner ss <> 0 -> owner tt = owner ss /\ owner ss <> c)) as Hrel.
  { intros i ss. unfold release. rewrite list_lookup_fmap. destruct (l !! i) as [tt|]; [|done]. cbn. intros [= <-]. exists tt.
    destruct (Z.eqb_spec (owner tt) c); cbn [owner packets]; split_and!; done || lia. }
  split; cbn [recordings directory stopped written files].
  - done.
  - unfold contents. cbn [files]. fold (contents s). rewrite Hc. unfold release. rewrite map_map. apply map_ext.
    intros ss. by destruct (owner ss =? c).
  - done.
  - intros a r. rewrite list_lookup_fmap. destruct (recordings s !! a) as [r0|] eqn:Ea; [|done]. cbn. intros [= <-].
    destruct (Hslot a r0 Ea) as [H0 H1]. destruct (Z.eqb_spec (context r0) c) as [E|E]; [done|]. split; [done|]. intros Hn.
    destruct (H1 Hn) as (i & ss & Hf & Hl & Ho). exists i, ss. split_and!; [done| |done]. unfold release.
    rewrite list_lookup_fmap, Hl. cbn. by rewrite (proj2 (Z.eqb_neq _ _)) by congruence.
  - intros i ss Hl Hn. destruct (Hrel i ss Hl) as (tt & Ht & _ & Ho). destruct (Ho Hn) as [Ho1 Ho2].
    destruct (Hopen i tt Ht ltac:(congruence)) as (a & Ha). exists a. rewrite list_lookup_fmap, Ha. cbn.
    rewrite Ho1, (proj2 (Z.eqb_neq _ _)) by done. done.
  - intros i j ss tt Hi Hj E Hn. destruct (Hrel i ss Hi) as (s1 & H1 & _ & O1). destruct (Hrel j tt Hj) as (s2 & H2 & _ & O2).
    destruct (O1 Hn), (O2 ltac:(congruence)). eapply Hown; [exact H1|exact H2|congruence|congruence].
  - rewrite length_map. split; [done|]. intros a b r q. rewrite !list_lookup_fmap.
    destruct (recordings s !! a) as [r0|] eqn:Ea, (recordings s !! b) as [q0|] eqn:Eb; try done. cbn. intros [= <-] [= <-].
    destruct (Z.eqb_spec (context r0) c), (Z.eqb_spec (context q0) c); cbn [context]; try done; [congruence..|].
    by apply (Hslots a b r0 q0).
Qed.

(** What is recorded of a submission. *)
Lemma send_step send d p k s s' :
  call_ok (Send send d p k) -> apply (Send send d p k) s = Some s' ->
  match recordable (Send send d p k) with
  | Some (a, q) => a <> 0 /\ packet_ok q /\ record_packet a q.1 q.2 k s = Some s'
  | None => s' = s
  end.
Proof.
  intros [Hd Hp] H. unfold apply, option_map, avcodec_send_packet in H. cbn [recordable].
  destruct send as [[|r|r]|]; [|by repeat case_match; simplify_eq..].
  destruct d as [[a [] []]|]; [|by repeat case_match; simplify_eq..].
  destruct p as [[[b|] n f]|]; [|by repeat case_match; simplify_eq..].
  cbn [Z.eqb is_video is_hevc andb address] in H. destruct (Hp b n f eq_refl) as (Hn & Hlen & Hf).
  destruct (Z.ltb_spec 0 n) as [H0|]; cbn [andb] in H |- *; [|by simplify_eq].
  rewrite (wrap_small 32 n) in H by (ranges; lia). destruct (Z.leb_spec n MAX_PACKET); [|by simplify_eq].
  rewrite copy_from_take in H by lia. cbn [mbind option_bind] in H.
  destruct (record_packet a _ f k s) as [s1|] eqn:Er; [|done]. cbn in H. injection H as <-.
  split; [by apply (Hd _ eq_refl)|]. split; [|done]. unfold packet_ok. cbn [fst snd]. rewrite length_take. lia.
Qed.

Lemma send_recordable d p k a q :
  call_ok (Send (Some 0) d p k) -> recordable (Send (Some 0) d p k) = Some (a, q) -> a <> 0 /\ packet_ok q.
Proof.
  intros [Hd Hp] Hrec. destruct d as [[x [] []]|]; try done. destruct p as [[[b|] n f]|]; try done. cbn [recordable] in Hrec.
  destruct (Z.ltb_spec 0 n), (Z.leb_spec n MAX_PACKET); try done. injection Hrec as <- <-.
  destruct (Hp b n f eq_refl) as (Hn & Hlen & Hf). split; [by apply (Hd _ eq_refl)|]. unfold packet_ok. cbn [fst snd]. rewrite length_take. lia.
Qed.

Lemma send_applies d p k a q s s' :
  call_ok (Send (Some 0) d p k) -> recordable (Send (Some 0) d p k) = Some (a, q) -> record_packet a q.1 q.2 k s = Some s' ->
  apply (Send (Some 0) d p k) s = Some s'.
Proof.
  intros [_ Hp] Hrec H. destruct d as [[x [] []]|]; try done. destruct p as [[[b|] n f]|]; try done. cbn [recordable] in Hrec.
  destruct (Z.ltb_spec 0 n), (Z.leb_spec n MAX_PACKET) as [Hmax|]; try done. injection Hrec as <- <-.
  destruct (Hp b n f eq_refl) as (Hn & Hlen & _). unfold apply, avcodec_send_packet. cbn [Z.eqb is_video is_hevc andb address].
  rewrite (proj2 (Z.ltb_lt _ _)) by done. rewrite (wrap_small 32 n) by (ranges; lia). rewrite (proj2 (Z.leb_le _ _)) by done. cbn [andb].
  rewrite copy_from_take by lia. cbn [mbind option_bind fst snd] in *. by rewrite H.
Qed.

Lemma apply_step c s s' l :
  inv s l -> call_ok c -> apply c s = Some s' ->
  (stopped s' = false -> inv s' (noted c l)) /\ (stopped s' = true -> partial l (noted c l) (contents s')).
Proof.
  intros Hi Hok H. destruct c as [send d p k|[c|]|]; cbn [noted].
  - apply send_step in H; [|done]. destruct (recordable _) as [[a q]|].
    + destruct H as (Ha & Hq & H). by eapply record_step.
    + subst. split; [done|]. intros Hs. destruct (iv_on s l Hi). congruence.
  - assert (s' = avcodec_free_context (Some c) s) as -> by (by injection H as <-). destruct (Z.eqb_spec c 0) as [->|Hc].
    + cbn. split; [done|]. intros Hs. destruct (iv_on s l Hi). congruence.
    + split; [intros _; by apply inv_release|]. intros Hs. unfold avcodec_free_context in Hs. rewrite (proj2 (Z.eqb_neq _ _) Hc) in Hs.
      cbn in Hs. destruct (iv_on s l Hi). congruence.
  - injection H as <-. cbn. split; [done|]. intros Hs. destruct (iv_on s l Hi). congruence.
  - assert (s' = finish s) as -> by (by injection H as <-). split; [done|]. intros _.
    change (contents (finish s)) with (contents s). rewrite (iv_contents s l Hi). apply partial_refl.
Qed.

(** A stopped recorder writes nothing more. *)
Lemma stopped_step c s s' : stopped s = true -> apply c s = Some s' -> stopped s' = true /\ contents s' = contents s.
Proof.
  intros Hs H. destruct c as [send d p k|[c|]|]; [|injection H as <-; unfold avcodec_free_context; by destruct (c =? 0)|by injection H as <-..].
  unfold apply, option_map, avcodec_send_packet in H. unfold record_packet in H. rewrite Hs in H. cbn [orb] in H.
  destruct send as [r|]; [|by simplify_eq]. destruct d as [d|]; [|by destruct p as [[[] ? ?]|]; simplify_eq].
  destruct p as [[[b|] n f]|]; [|by simplify_eq..]. destruct (_ && _); [|by simplify_eq].
  destruct (copy_from b 0 n); by simplify_eq/=.
Qed.

Lemma stopped_run calls s s' : stopped s = true -> run calls s = Some s' -> stopped s' = true /\ contents s' = contents s.
Proof.
  revert s. induction calls as [|c calls IH]; intros s Hs; cbn [run]; [by intros [= <-]|].
  destruct (apply c s) as [s1|] eqn:E; [|done]. cbn [mbind option_bind]. apply stopped_step in E as [Hs1 Hc1]; [|done].
  intros [Hs' Hc']%IH; [|done]. split; congruence.
Qed.

Lemma run_step calls s s' l :
  inv s l -> Forall call_ok calls -> run calls s = Some s' ->
  if stopped s'
  then exists before c rest, calls = before ++ c :: rest /\
         partial (foldl (fun l c => noted c l) l before) (noted c (foldl (fun l c => noted c l) l before)) (contents s')
  else inv s' (foldl (fun l c => noted c l) l calls).
Proof.
  revert s l. induction calls as [|c calls IH]; intros s l Hi Hok; cbn [run].
  { intros [= <-]. destruct (iv_on s l Hi) as [_ ->]. done. }
  apply Forall_cons in Hok as [Hc Hok]. destruct (apply c s) as [s1|] eqn:E; [|done]. cbn [mbind option_bind]. intros H.
  destruct (apply_step c s s1 l Hi Hc E) as [Hgo Hstop]. destruct (stopped s1) eqn:Es.
  - apply stopped_run in H as [-> Hc']; [|done]. exists [], c, calls. split; [done|]. cbn [foldl]. rewrite Hc'. by apply Hstop.
  - pose proof (IH s1 _ (Hgo eq_refl) Hok H) as Hr. destruct (stopped s'); [|done].
    destruct Hr as (before & c' & rest & -> & Hp). by exists (c :: before), c', rest.
Qed.

(** ** The replay of a recording *)

Import Replay.

Lemma littleEndian_bytes pre v rest i : in_range 32 v -> i = len pre -> littleEndian (pre ++ le_bytes 4 v ++ rest) i = Some v.
Proof.
  intros Hv ->. unfold littleEndian. cbn [le_bytes app]. rewrite !shiftr_bytes by lia. cbn [Z.add Pos.add Pos.succ Pos.add_carry].
  rewrite (load_here pre _ _ (len pre) eq_refl), !(load_app_r pre) by lia. cbn [mbind option_bind].
  set (b1 := u8 (Z.shiftr v 8)). set (b2 := u8 (Z.shiftr v 16)). set (b3 := u8 (Z.shiftr v 24)). set (b0 := u8 v).
  change (Some (Z.lor (Z.lor (Z.lor b0 (u32 (Z.shiftl b1 8))) (u32 (Z.shiftl b2 16))) (u32 (Z.shiftl b3 24))) = Some v).
  unfold b0, b1, b2, b3.
  assert (forall a n, 0 <= n <= 24 -> u32 (Z.shiftl (u8 a) n) = Z.shiftl (u8 a) n) as Hsh.
  { intros a n Hn. apply wrap_small. pose proof (wrap_range 8 a ltac:(lia)) as Hb. unfold in_range in *. rewrite Z.shiftl_mul_pow2 by lia.
    pose proof (Z.pow_le_mono_r 2 n 24 ltac:(lia) ltac:(lia)). assert (0 < 2 ^ n) by (apply Z.pow_pos_nonneg; lia).
    change (2 ^ 8) with 256 in *. change (2 ^ 24) with 16777216 in *. change (2 ^ 32) with 4294967296. nia. }
  rewrite !Hsh by lia. f_equal. rewrite <- (join_u32_be32 v Hv) at 5. unfold join_u32. rewrite Hsh by lia.
  rewrite (Z.lor_comm _ (Z.shiftl (u8 (Z.shiftr v 24)) 24)), (Z.lor_comm _ (Z.shiftl (u8 (Z.shiftr v 16)) 16)), (Z.lor_comm (u8 v)).
  by rewrite !Z.lor_assoc.
Qed.

Fixpoint units_at (offset : Z) (ps : list (list Z * Z)) : list (Z * Z) :=
  match ps with [] => [] | p :: ps => (offset + 8, len p.1) :: units_at (offset + 8 + len p.1) ps end.

Lemma index_loop_spec ps pre us fl fuel :
  Forall packet_ok ps -> len us + len ps <= MaxUnits -> (length (concat (map framed ps)) < fuel)%nat ->
  index_loop fuel (pre ++ concat (map framed ps)) (len pre) us fl =
    Some (Some (us ++ units_at (len pre) ps, fl ++ map (fun p => u32 p.2) ps)).
Proof.
  intros Hps. revert pre us fl fuel. induction Hps as [|p ps [Hp Hf] Hps IH]; intros pre us fl fuel Hu Hfuel.
  { destruct fuel; [cbn in Hfuel; lia|]. cbn [index_loop map concat units_at]. rewrite !app_nil_r, Z.ltb_irrefl. done. }
  destruct fuel as [|fuel]; [lia|]. cbn [map concat length] in *. rewrite length_app in Hfuel. pose proof (framed_len p) as Hfl.
  cbn [index_loop units_at map]. set (rest := concat (map framed ps)) in *. set (file := pre ++ framed p ++ rest).
  assert (len file = len pre + 8 + len p.1 + len rest) as Hfile by (unfold file; rewrite !length_app; lia).
  rewrite (proj2 (Z.ltb_lt _ _)) by lia. rewrite (proj2 (Z.ltb_ge _ _)) by lia.
  assert (copy_from file (len pre) 8 = Some (le_bytes 4 (len p.1) ++ le_bytes 4 (u32 p.2))) as ->.
  { unfold file, framed. rewrite <- !app_assoc, (app_assoc (le_bytes 4 _)). by apply copy_from_app. }
  cbn [mbind option_bind]. unfold MAX_PACKET, MaxPacket in *.
  assert (littleEndian (le_bytes 4 (len p.1) ++ le_bytes 4 (u32 p.2)) 0 = Some (len p.1)) as ->.
  { apply (littleEndian_bytes []); [ranges; lia|done]. }
  cbn [mbind option_bind].
  rewrite (proj2 (Z.eqb_neq _ _)) by lia. rewrite !(proj2 (Z.ltb_ge _ _)) by lia. cbn [orb].
  rewrite (proj2 (Z.leb_gt _ _)) by lia.
  assert (littleEndian (le_bytes 4 (len p.1) ++ le_bytes 4 (u32 p.2)) 4 = Some (u32 p.2)) as ->.
  { rewrite <- (app_nil_r (le_bytes 4 (u32 p.2))). apply littleEndian_bytes; [by apply wrap_range|]. by rewrite le_bytes_length. }
  cbn [mbind option_bind].
  replace (len pre + 8 + len p.1) with (len (pre ++ framed p)) by (rewrite length_app; lia).
  assert (file = (pre ++ framed p) ++ rest) as -> by (unfold file; by rewrite app_assoc).
  rewrite IH by (rewrite ?length_app; cbn [length]; lia). by rewrite <- !app_assoc.
Qed.

Lemma units_at_length off ps : length (units_at off ps) = length ps.
Proof. revert off. induction ps as [|p ps IH]; intros off; cbn; [done|]. by rewrite IH. Qed.

Lemma units_at_lookup ps pre k p :
  ps !! k = Some p ->
  exists o, units_at (len pre) ps !! k = Some (o, len p.1) /\ copy_from (pre ++ concat (map framed ps)) o (len p.1) = Some p.1.
Proof.
  revert pre k. induction ps as [|q ps IH]; intros pre [|k]; try done; cbn [units_at map concat lookup list_lookup].
  - intros [= ->]. eexists. split; [done|]. unfold framed. rewrite <- !app_assoc. rewrite (app_assoc (le_bytes 4 _)), (app_assoc pre).
    apply copy_from_app; [|done]. rewrite !length_app, !le_bytes_length. lia.
  - intros Hk. destruct (IH (pre ++ framed q) k Hk) as (o & Ho & Hc). exists o.
    rewrite length_app, Nat2Z.inj_add, framed_len in Ho. replace (len pre + 8 + len q.1) with (len pre + (8 + len q.1)) by lia.
    split; [done|]. by rewrite app_assoc.
Qed.

(** Opening a session's file gives back its packets. *)
Lemma open_encoded ps :
  Forall packet_ok ps -> 0 < len ps <= MaxUnits -> len (encode ps) <= MaxRecording ->
  exists c, open_clip (Some (encode ps)) = Some (Some c) /\ count c = len ps /\
    forall k, clip_packet c k true = Some (ps !! Z.to_nat (k mod len ps)).
Proof.
  intros Hps Hn Hlen. unfold open_clip.
  assert (len (encode ps) = 8 + len (concat (map framed ps))) as Hl by (unfold encode; rewrite length_app; change (length magic) with 8%nat; lia).
  rewrite !(proj2 (Z.ltb_ge _ _)) by lia. cbn [orb].
  assert (copy_from (encode ps) 0 8 = Some magic) as -> by (by apply (copy_from_app [])).
  cbn [mbind option_bind]. rewrite bool_decide_true by done. cbn [negb].
  rewrite (index_loop_spec ps magic [] []) by (done || (unfold encode; rewrite ?length_app; cbn [length]; lia)). cbn [mbind option_bind app].
  destruct (units_at (len magic) ps) as [|u us] eqn:Eu.
  { apply (f_equal length) in Eu. rewrite units_at_length in Eu. cbn in Eu. lia. }
  rewrite <- Eu. set (c := mkClip _ _ _ _ _). exists c. split; [done|].
  assert (count c = len ps) as Hcount by (unfold count, c; cbn [units]; by rewrite units_at_length).
  split; [done|]. intros k. unfold clip_packet. rewrite Hcount. unfold c. cbn [units unit_flags recording file bytes]. rewrite (proj2 (Z.eqb_neq _ _)) by lia.
  pose proof (Z.mod_pos_bound k (len ps) ltac:(lia)) as Hk. set (i := Z.to_nat (k mod len ps)).
  assert (k mod len ps = Z.of_nat i) as -> by (unfold i; lia). rewrite !load_nat.
  destruct (lookup_lt_is_Some_2 ps i) as [p Hp]; [unfold i; lia|].
  destruct (units_at_lookup ps magic i p Hp) as (o & -> & Hc). cbn [mbind option_bind negb].
  rewrite list_lookup_fmap, Hp. cbn [fmap option_fmap option_map mbind option_bind]. fold (encode ps) in Hc. rewrite Hc. cbn [mbind option_bind].
  f_equal. f_equal. apply (surjective_pairing p) || (rewrite (surjective_pairing p) at 3).
  f_equal. assert (packet_ok p) as [_ Hf] by (by eapply Forall_lookup_1).
  unfold wrap, swrap. change (2 ^ (32 - 1)) with 2147483648. change (2 ^ 31) with 2147483648 in Hf. change (2 ^ 32) with 4294967296.
  Z.div_mod_to_equations. lia.
Qed.

Lemma partial_complete l fs : partial l l fs -> fs = map (fun ss => encode (packets ss)) l.
Proof.
  intros [H1 H2]. apply list_eq. intros i. rewrite list_lookup_fmap. destruct (l !! i) as [ss|] eqn:Ei.
  - destruct (H1 i ss Ei) as (f & Hf & Hp). rewrite Hf. destruct (H2 i f Hf) as (tt & Ht & Hp'). rewrite Ei in Ht. injection Ht as <-.
    cbn. f_equal. apply (anti_symm prefix); done.
  - destruct (fs !! i) as [f|] eqn:Ef; [|done]. destruct (H2 i f Ef) as (tt & Ht & _). congruence.
Qed.

(** ** When the recorder goes on *)

Definition live (l : list session) : list session := filter (fun ss => owner ss <> 0) l.

Lemma slot_available s l : inv s l -> (length (live l) < MAX_RECORDS)%nat -> exists slot, find_context 0 (recordings s) = Some slot.
Proof.
  intros [_ _ _ Hslot _ _ [Hlen Hslots]] Hlive. destruct (find_context 0 (recordings s)) as [slot|] eqn:E; [by exists slot|exfalso].
  assert (context <$> recordings s ⊆+ owner <$> live l) as Hsub.
  { apply NoDup_submseteq.
    - apply NoDup_alt. intros a b c Ha Hb. rewrite list_lookup_fmap in Ha, Hb.
      destruct (recordings s !! a) as [r|] eqn:Er, (recordings s !! b) as [q|] eqn:Eq; try done. cbn in Ha, Hb. simplify_eq.
      apply (Hslots a b r q Er Eq); [congruence|]. by eapply find_context_None.
    - intros c (r & -> & [a Ha]%list_elem_of_lookup_1)%list_elem_of_fmap.
      pose proof (find_context_None _ _ _ _ E Ha) as Hn. destruct (Hslot a r Ha) as [_ H1]. destruct (H1 Hn) as (i & ss & _ & Hl & Ho).
      apply list_elem_of_fmap. exists ss. split; [done|]. unfold live. apply list_elem_of_filter. split; [congruence|].
      by eapply list_elem_of_lookup_2. }
  apply submseteq_length in Hsub. rewrite !length_fmap, Hlen in Hsub. lia.
Qed.

Lemma write_to_lasting i data turns k s :
  (i < length (files s))%nat -> lasting (length data + k) turns ->
  exists rest s', write_to i data turns s = Some (true, rest, s') /\ lasting k rest /\ same_but_files s s' /\ length (files s') = length (files s).
Proof.
  intros Hi Hl. unfold write_to. destruct (lookup_lt_is_Some_2 (files s) i Hi) as [[n f] ->]. cbn [mbind option_bind].
  destruct (write_all_lasting data f turns k Hl) as (rest & -> & Hrest). cbn [mbind option_bind]. eexists rest, _.
  split_and!; try done. cbn [files]. by rewrite length_insert.
Qed.

Lemma write_packet_lasting i p fl turns s :
  (i < length (files s))%nat -> lasting (8 + length p) turns -> stopped s = false ->
  exists s', write_packet i p fl turns s = Some s' /\ stopped s' = false.
Proof.
  intros Hi Hl Hs. unfold write_packet.
  destruct (write_to_lasting i (packet_header (len p) fl) turns (length p) s) as (rest & s1 & -> & Hl1 & (_ & _ & Hs1 & _) & Hf1); [done|done|].
  cbn [mbind option_bind negb].
  destruct (write_to_lasting i p rest 0 s1) as (rest2 & s2 & -> & _ & (_ & _ & Hs2 & _) & _); [lia|by rewrite Nat.add_0_r|].
  cbn [mbind option_bind negb]. eexists. split; [done|]. cbn [stopped]. congruence.
Qed.

Lemma record_goes_on s l c p k :
  inv s l -> packet_ok p -> elapsed k < MAX_SECONDS -> total (contents s) + len p.1 + 16 <= MAX_BYTES ->
  c <> 0 -> (exists ss, ss ∈ l /\ owner ss = c) \/ (length (live l) < MAX_RECORDS)%nat -> created k = true ->
  lasting (16 + length p.1) (turns k) ->
  exists s', record_packet c p.1 p.2 k s = Some s' /\ stopped s' = false.
Proof.
  intros Hi [Hp _] He Hroom Hc0 Hslots Hk Hl. pose proof Hi as [[Hdir Hst] Hc [Hw _] Hslot Hopen _ _].
  pose proof (total_nonneg (contents s)) as Hn. assert (length (files s) = length l) as Hfl.
  { rewrite <- (length_map snd (files s)). change (map snd (files s)) with (contents s). by rewrite Hc, length_map. }
  unfold record_packet. rewrite Hst, Hdir. cbn [orb negb]. unfold MAX_PACKET, MAX_BYTES in *.
  rewrite (wrap_small 64 (written s + len p.1)) by (ranges; lia). rewrite (wrap_small 64 (_ + 16)) by (ranges; lia).
  rewrite (proj2 (Z.leb_gt _ _)), (proj2 (Z.ltb_ge _ _)) by lia. cbn [orb].
  destruct (find_context c (recordings s)) as [slot|] eqn:Ef.
  - apply find_context_Some in Ef as (r & Hr & Hrc). rewrite Hr. cbn [mbind option_bind]. destruct (Hslot slot r Hr) as [H0 H1].
    destruct H1 as (i & ss & -> & Hli & _); [congruence|]. cbn [mbind option_bind]. apply write_packet_lasting; [|by eapply lasting_mono; [done|lia]|done].
    rewrite Hfl. by eapply lookup_lt_Some.
  - assert (exists slot, find_context 0 (recordings s) = Some slot) as [slot Hfree].
    { destruct Hslots as [(ss & Hin & Ho)|Hlive]; [exfalso|by eapply slot_available].
      apply list_elem_of_lookup_1 in Hin as [i Hi']. destruct (Hopen i ss Hi' ltac:(congruence)) as (a & Ha).
      by apply (find_context_None c _ a _ Ef) in Ha. }
    unfold new_record. rewrite Hfree, Hk. cbn [negb mbind option_bind].
    match goal with |- context [write_to ?j magic ?t ?s0] => destruct (write_to_lasting j magic t (8 + length p.1) s0)
      as (rest & s1 & -> & Hl1 & (_ & _ & Hs1 & _) & Hf1) end.
    { cbn [set_recording files]. rewrite length_app. cbn [length]. lia. } { done. }
    cbn [mbind option_bind negb]. apply write_packet_lasting; [|done|by rewrite Hs1].
    cbn [files]. rewrite Hf1. cbn [set_recording files]. rewrite length_app. cbn [length]. lia.
Qed.

(** ** Recording and replaying *)

(** The reference's sessions are not empty, and their packets are within the limits. *)
Lemma sessions_ok calls :
  Forall call_ok calls -> Forall (fun ss => packets ss <> [] /\ Forall packet_ok (packets ss)) (sessions calls).
Proof.
  induction calls as [|c calls IH] using rev_ind; [constructor|]. intros [Hok Hc]%Forall_app. apply Forall_cons in Hc as [Hc _].
  specialize (IH Hok). unfold sessions in *. rewrite foldl_app. cbn [foldl]. set (l := foldl _ _ calls) in *.
  assert (forall a q, packet_ok q -> Forall (fun ss => packets ss <> [] /\ Forall packet_ok (packets ss)) (note a q l)) as Hnote.
  { intros a q Hq. unfold note. destruct (existsb _ l).
    - apply Forall_fmap. eapply Forall_impl; [exact IH|]. intros ss [Hn Hss]. cbn. destruct (owner ss =? a); [|done].
      cbn [packets]. split; [by destruct (packets ss)|]. apply Forall_app. by split; [|constructor].
    - apply Forall_app. split; [done|]. constructor; [|done]. cbn [packets]. split; [done|]. by constructor. }
  destruct c as [send d p k|[c|]|]; cbn [noted]; try done.
  - destruct send as [[|r|r]|]; try done. destruct d as [[a [] []]|]; try done. destruct p as [[[b|] n f]|]; try done.
    cbn [recordable]. destruct (Z.ltb_spec 0 n), (Z.leb_spec n MAX_PACKET); try done. apply Hnote.
    destruct Hc as [_ Hp]. destruct (Hp b n f eq_refl) as (Hn & Hlen & Hf). unfold packet_ok. cbn [fst snd]. rewrite length_take. lia.
  - destruct (c =? 0); [done|]. unfold release. apply Forall_fmap. eapply Forall_impl; [exact IH|]. intros ss Hss. cbn. by destruct (owner ss =? c).
Qed.

Lemma inv_initialize path dir euid : directory (initialize path dir euid) = true -> inv (initialize path dir euid) [].
Proof.
  intros H. assert (initialize path dir euid = mkState no_recordings true false 0 0 []) as ->.
  { unfold initialize in *. repeat case_match; by simplify_eq/=. }
  assert (forall a r, no_recordings !! a = Some r -> r = mkRecording 0 None) as Hnone.
  { intros a r Ha. unfold no_recordings in Ha. by apply lookup_replicate_1 in Ha as [-> _]. }
  split; cbn; try done.
  - intros a r ->%Hnone. done.
  - split; [done|]. intros a b r q ->%Hnone ->%Hnone. done.
Qed.

(** The files of a running recorder, opened by the replay, are the sessions. *)
Definition replays (l : list session) (fs : list (list Z)) : Prop :=
  fs = map (fun ss => encode (packets ss)) l /\ total fs <= MAX_BYTES /\
  forall i ss, l !! i = Some ss -> len (packets ss) <= MaxUnits ->
    exists f c, fs !! i = Some f /\ open_clip (Some f) = Some (Some c) /\ count c = len (packets ss) /\
      forall k, clip_packet c k true = Some (packets ss !! Z.to_nat (k mod len (packets ss))).

Lemma running_replays calls s : Forall call_ok calls -> inv s (sessions calls) -> replays (sessions calls) (contents s).
Proof.
  intros Hok [_ Hc [Hw Hle] _ _ _ _]. split_and!; [done|by rewrite <- Hw|]. intros i ss Hl Hmax.
  pose proof (Forall_lookup_1 _ _ _ _ (sessions_ok calls Hok) Hl) as [Hne Hps].
  assert (contents s !! i = Some (encode (packets ss))) as Hf by (by rewrite Hc, list_lookup_fmap, Hl).
  pose proof (total_le _ _ _ Hf) as Htot. assert (0 < len (packets ss)) by (destruct (packets ss); [done|cbn [length]; lia]).
  destruct (open_encoded (packets ss) Hps) as (c & Hopen & Hcount & Hread); [lia|unfold MaxRecording, MAX_BYTES in *; lia|].
  by exists (encode (packets ss)), c.
Qed.

(** C33: The recorder and the replay.  For every sequence of decoder calls and all answers of
    the kernel, from an accepted directory: while the recorder runs, its files are exactly
    the packets of each decoder from its first submission to its release, they hold at most
    4 GiB together, and the replay opens each of them (up to its own limit of a million
    packets) and yields exactly those packets with their flags, in order and cyclically.
    Once it has stopped, its files are those of the calls before the one that stopped it,
    with at most a part of that call's packet; when that call is the end of the process
    they are complete.  It does not stop at a submission while time, size, slots and the
    kernel allow it. *)
Theorem recording_replayed path dir euid calls s :
  directory (initialize path dir euid) = true -> Forall call_ok calls -> run calls (initialize path dir euid) = Some s ->
  (stopped s = false ->
    replays (sessions calls) (contents s) /\
    forall d p k a q, let c := Send (Some 0) d p k in
      call_ok c -> recordable c = Some (a, q) -> elapsed k < MAX_SECONDS -> total (contents s) + len q.1 + 16 <= MAX_BYTES ->
      a ∈ map owner (sessions calls) \/ (length (live (sessions calls)) < MAX_RECORDS)%nat -> created k = true ->
      lasting (16 + length q.1) (turns k) -> exists s', apply c s = Some s' /\ stopped s' = false) /\
  (stopped s = true ->
    exists before c rest, calls = before ++ c :: rest /\ partial (sessions before) (sessions (before ++ [c])) (contents s) /\
      (c = Finish -> contents s = map (fun ss => encode (packets ss)) (sessions before))).
Proof.
  intros Hd Hok Hrun. pose proof (run_step calls _ s [] (inv_initialize _ _ _ Hd) Hok Hrun) as Hr. split; intros Hs; rewrite Hs in Hr.
  - split; [by apply running_replays|]. intros d p k a q c Hc Hrec He Hroom Hslot Hk Hl.
    destruct (send_recordable d p k a q Hc Hrec) as [Ha Hq].
    destruct (record_goes_on s (sessions calls) a q k Hr Hq He Hroom Ha) as (s' & Hs' & Hgo); [|done|done|].
    { destruct Hslot as [(ss & -> & Hin)%list_elem_of_fmap|]; [left; by exists ss|by right]. }
    exists s'. split; [|done]. by apply (send_applies d p k a q).
  - destruct Hr as (before & c & rest & -> & Hp). exists before, c, rest. unfold sessions in *. rewrite foldl_app. cbn [foldl].
    split_and!; [done|done|]. intros ->. cbn [noted recordable] in Hp. by apply partial_complete.
Qed.

Definition sample_call (f : Z) (l : list Z) : call :=
  Send (Some 0) (Some (mkDecoder 4096 true true)) (Some (mkPacket (Some l) (len l) f)) (mkKernel 1 true (replicate 40 (Upto 0))).

Lemma sample_ok f l : 0 <= f < 100 -> len l < 100 -> call_ok (sample_call f l).
Proof. intros Hf Hl. split; [by intros d' [= <-]|]. intros b n f' [= <- <- <-]. change (2 ^ 31) with 2147483648. lia. Qed.

Lemma recording_replayed_witness :
  exists s, run [sample_call 1 [7; 8]; sample_call 0 [9]] (initialize (Some "/r") (Opened (Some (mkStat 0 448 1 0 false))) 0) = Some s /\
    stopped s = false /\ replays [mkSession 4096 [([7; 8], 1); ([9], 0)]] (contents s).
Proof.
  destruct (run [sample_call 1 [7; 8]; sample_call 0 [9]] (initialize (Some "/r") (Opened (Some (mkStat 0 448 1 0 false))) 0)) as [s|] eqn:E;
    [|exfalso; vm_compute in E; discriminate].
  exists s. split; [reflexivity|]. assert (stopped s = false) as Hs by (vm_compute in E; injection E as <-; reflexivity). split; [exact Hs|].
  assert (Forall call_ok [sample_call 1 [7; 8]; sample_call 0 [9]]) as Hok.
  { apply Forall_cons; split; [apply sample_ok; cbn; lia|]. apply Forall_cons; split; [apply sample_ok; cbn; lia|constructor]. }
  destruct (recording_replayed (Some "/r") (Opened (Some (mkStat 0 448 1 0 false))) 0 _ s eq_refl Hok E) as [H _]. exact (proj1 (H Hs)).
Defined.
