(* ===== verification/Playback.v ===== *)
(** * Playback: probes/video/plank-probe-vaapi-decode.cpp, vaapi-sampling.h

    What the decoding probe does with a clip ([Recording.Replay] opens it): how a plain Annex B
    clip is cut into access units, the options (Module [Decode]), and the loop that submits
    the packets and holds, exports or samples the decoded surfaces.  The decoder, the
    surfaces and the graphics driver are parameters: what each call answers. *)

From S2P Require Import Prelude.
From S2P Require Import BenchX264.
From S2P Require Import Recording.
From Stdlib Require Import Ascii.
Import Replay.

(** ** Decoding a clip *)

Module Decode.

(** ** Options *)

(** [std::stoi]: the value and what follows it; [None] throws. *)
Fixpoint int_digits (s : string) (value : Z) (any : bool) : option (Z * string) :=
  match s with
  | String c rest =>
      match BenchX264.digit c with
      | Some d => int_digits rest (value * 10 + d) true
      | None => if any then Some (value, s) else None
      end
  | EmptyString => if any then Some (value, s) else None
  end.
Definition in_int (v : option (Z * string)) : option (Z * string) :=
  '(v, rest) ← v; if (v <? - 2 ^ 31) || (2 ^ 31 <=? v) then None else Some (v, rest).
Fixpoint stoi (s : string) : option (Z * string) :=
  match s with
  | EmptyString => None
  | String c rest =>
      if BenchX264.is_space c then stoi rest
      else if Ascii.eqb c "-"%char then in_int (option_map (fun r => (- r.1, r.2)) (int_digits rest 0 false))
      else if Ascii.eqb c "+"%char then in_int (int_digits rest 0 false)
      else in_int (int_digits s 0 false)
  end.

Definition number (text : string) (maximum : Z) : option Z :=
  '(value, rest) ← stoi text;
  if String.eqb rest EmptyString && (0 <? value) && (value <=? maximum) then Some value else None.

Inductive run_mode := Decode | Export | Sample.
Record Options := mkOptions { input : string; device : string; mode : string; seconds : Z; fps : Z; width : Z; height : Z }.
Definition default_options : Options := mkOptions "" "/dev/dri/renderD128" "decode" 600 60 5120 2160.

Fixpoint option_loop (arguments : list string) (o : Options) : option Options :=
  match arguments with
  | [] => Some o
  | [_] => None
  | key :: value :: rest =>
      if String.eqb key "--input" then option_loop rest (mkOptions value (device o) (mode o) (seconds o) (fps o) (width o) (height o))
      else if String.eqb key "--device" then option_loop rest (mkOptions (input o) value (mode o) (seconds o) (fps o) (width o) (height o))
      else if String.eqb key "--mode" then option_loop rest (mkOptions (input o) (device o) value (seconds o) (fps o) (width o) (height o))
      else if String.eqb key "--seconds" then
        n ← number value 3600; option_loop rest (mkOptions (input o) (device o) (mode o) n (fps o) (width o) (height o))
      else if String.eqb key "--fps" then
        n ← number value 240; option_loop rest (mkOptions (input o) (device o) (mode o) (seconds o) n (width o) (height o))
      else if String.eqb key "--width" then
        n ← number value 16384; option_loop rest (mkOptions (input o) (device o) (mode o) (seconds o) (fps o) n (height o))
      else if String.eqb key "--height" then
        n ← number value 16384; option_loop rest (mkOptions (input o) (device o) (mode o) (seconds o) (fps o) (width o) n)
      else None
  end.

Definition mode_of (s : string) : option run_mode :=
  if String.eqb s "decode" then Some Decode else if String.eqb s "export" then Some Export
  else if String.eqb s "sample" then Some Sample else None.
Definition parse_options (arguments : list string) : option (Options * run_mode) :=
  o ← option_loop arguments default_options;
  m ← mode_of (mode o);
  if String.eqb (input o) EmptyString then None else Some (o, m).

(** ** Decoding *)

(** A frame of the decoder: whether its format, size and colours are the requested ones, its
    storage is, the surface synchronises, its export succeeds and is Y410 with at most four
    objects; and for sampling: the fences of the frames that are being sampled, oldest
    first, whether the surface has one plane, and whether import and draw succeed. *)
Inductive fence := WaitFailed | Signaled | Pending.
Record frame := mkFrame {
  layout : bool; storage : bool; synced : bool; exported : bool; y410 : bool;
  fences : list fence; single_plane : bool; drawn : bool }.
(** An answer of [avcodec_receive_frame]: no frame now, an error, or a frame. *)
Inductive received := Again | ReceiveFailed | Frame (f : frame).

(** [exports] and [slots]: the numbers of the frames that are held. *)
Record state := mkState { exports : list Z; slots : list Z; sampled : Z; skipped : Z; decoded : Z }.

(** [remove_if] over the slots; a fence for every slot. *)
Fixpoint waiting (slots : list Z) (fences : list fence) : option (option (list Z)) :=
  match slots, fences with
  | [], _ => Some (Some [])
  | _ :: _, [] => None
  | _ :: _, WaitFailed :: _ => throws
  | s :: slots, f :: fences =>
      r ← waiting slots fences;
      Some (option_map (fun r => match f with Pending => s :: r | _ => r end) r)
  end.

Definition submit (f : frame) (s : state) : option (option state) :=
  slots ← waiting (slots s) (fences f);
  match slots return option (option state) with
  | None => throws
  | Some slots =>
      if (length slots =? 3)%nat then Some (Some (mkState (exports s) slots (sampled s) (u64 (skipped s + 1)) (decoded s)))
      else if negb (single_plane f && drawn f) then throws
      else Some (Some (mkState (exports s) (slots ++ [decoded s]) (u64 (sampled s + 1)) (skipped s) (decoded s)))
  end.

Definition hold (f : frame) (s : state) : state :=
  let exports := exports s ++ [decoded s] in
  mkState (if (4 <? len exports) then tail exports else exports) (slots s) (sampled s) (skipped s) (decoded s).

Definition take_frame (m : run_mode) (f : frame) (s : state) : option (option state) :=
  if negb (layout f && storage f && synced f) then throws
  else
    s ← match m with
        | Decode => Some (Some s)
        | _ => if negb (exported f && y410 f) then throws else match m with Sample => submit f s | _ => Some (Some (hold f s)) end
        end;
    Some (option_map (fun s => mkState (exports s) (slots s) (sampled s) (skipped s) (u64 (decoded s + 1))) s).

(** The loop that takes what the decoder has. *)
Fixpoint receive (m : run_mode) (answers : list received) (s : state) : option (option state) :=
  match answers with
  | [] => None
  | Again :: _ => Some (Some s)
  | ReceiveFailed :: _ => throws
  | Frame f :: answers =>
      s ← take_frame m f s;
      match s with Some s => receive m answers s | None => throws end
  end.

(** One packet: whether it could be allocated and sent, and what the decoder then had. *)
Record turn := mkTurn { allocated : bool; sent : bool; answers : list received }.

(** The pacing loop, with the packets it submits. *)
Fixpoint decode_loop (m : run_mode) (c : Clip) (remaining : nat) (index : Z) (turns : list turn) (submitted : list (list Z * Z)) (s : state)
    : option (option (state * list (list Z * Z))) :=
  match remaining with
  | O => Some (Some (s, submitted))
  | S remaining =>
      match turns with
      | [] => None
      | t :: turns =>
          p ← clip_packet c index (allocated t);
          match p return option (option (state * list (list Z * Z))) with
          | None => throws
          | Some p =>
              if negb (sent t) then throws
              else
                s ← receive m (answers t) s;
                match s with
                | Some s => decode_loop m c remaining (index + 1) turns (submitted ++ [p]) s
                | None => throws
                end
          end
      end
  end.

(** [main] after the decoder was opened; [turns] are those of the [seconds * fps] packets.
    The result is what was submitted when it passes. *)
Definition replay (o : Options) (m : run_mode) (c : Clip) (turns : list turn) (flushed : bool) (answers : list received)
    : option (option (state * list (list Z * Z))) :=
  r ← decode_loop m c (Z.to_nat (seconds o * fps o)) 0 turns [] (mkState [] [] 0 0 0);
  match r return option (option (state * list (list Z * Z))) with
  | None => throws
  | Some (s, submitted) =>
      if negb flushed then throws
      else
        s ← receive m answers s;
        match s return option (option (state * list (list Z * Z))) with
        | None => throws
        | Some s =>
            if negb (decoded s =? seconds o * fps o) then throws
            else if match m with Sample => negb ((sampled s =? decoded s) && (skipped s =? 0)) | _ => false end then throws
            else Some (Some (s, submitted))
        end
  end.
End Decode.


(** ** Access units *)

Lemma copy_from_slice (l : list Z) a n :
  0 <= a -> 0 <= n -> a + n <= len l -> copy_from l a n = Some (take (Z.to_nat n) (drop (Z.to_nat a) l)).
Proof.
  intros Ha Hn Hl. rewrite <- (take_drop (Z.to_nat a) l) at 1. rewrite <- (take_drop (Z.to_nat n) (drop (Z.to_nat a) l)) at 1.
  apply copy_from_app; rewrite ?length_take, ?length_drop; lia.
Qed.

(** Strictly increasing from [a] over [l] to below [top]. *)
Fixpoint climbs (a : Z) (l : list Z) (top : Z) : Prop :=
  match l with [] => a < top | b :: l => a < b /\ climbs b l top end.

Lemma climbs_mono a l t t' : climbs a l t -> t <= t' -> climbs a l t'.
Proof. revert a. induction l as [|b l IH]; cbn; intros a H Ht; [lia|]. split; [tauto|]. apply IH; [tauto|done]. Qed.
Lemma climbs_snoc a l i t : climbs a l i -> i < t -> climbs a (l ++ [i]) t.
Proof. revert a. induction l as [|b l IH]; cbn; intros a H Ht; [lia|]. split; [tauto|]. apply IH; [tauto|done]. Qed.
Lemma climbs_front a b l t : b <= a -> climbs a l t -> climbs b l t.
Proof. destruct l as [|c l]; cbn; intros Hb H; [lia|]. split; [lia|tauto]. Qed.

(** The pieces that a list of units cuts out of a clip. *)
Definition cut (clip : list Z) (units : list (Z * Z)) : list (option (list Z)) := map (fun u => copy_from clip u.1 u.2) units.

Lemma between_cut clip l a :
  0 <= a -> climbs a l (len clip) ->
  exists pieces, cut clip (between ((a :: l) ++ [len clip])) = map Some pieces /\ concat pieces = drop (Z.to_nat a) clip /\
    Forall (fun p => p <> []) pieces /\ length pieces = S (length l).
Proof.
  revert a. induction l as [|b l IH]; intros a Ha Hc; cbn [climbs] in Hc.
  - cbn [app between]. exists [drop (Z.to_nat a) clip]. unfold cut. cbn [map fst snd concat]. rewrite app_nil_r.
    rewrite copy_from_slice by lia. rewrite take_ge by (rewrite length_drop; lia). split_and!; try done.
    constructor; [|constructor]. intros E. apply (f_equal length) in E. rewrite length_drop in E. cbn in E. lia.
  - destruct Hc as [Hab Hc]. destruct (IH b ltac:(lia) Hc) as (pieces & Hcut & Hcat & Hne & Hlen).
    assert (b < len clip) by (clear -Hc; revert b Hc; induction l as [|c l IHl]; intros b Hc; cbn in Hc; [done|];
      destruct Hc as [? Hc]; apply IHl in Hc; lia).
    exists (take (Z.to_nat (b - a)) (drop (Z.to_nat a) clip) :: pieces).
    unfold cut in *. change (between ((a :: b :: l) ++ [len clip])) with ((a, b - a) :: between ((b :: l) ++ [len clip])).
    cbn [map fst snd concat length]. rewrite copy_from_slice by lia. rewrite Hcut, Hcat. split_and!; [done| | |lia].
    + replace (Z.to_nat b) with (Z.to_nat a + Z.to_nat (b - a))%nat by lia. rewrite <- drop_drop. apply take_drop.
    + constructor; [|done]. intros E. apply (f_equal length) in E. rewrite length_take, length_drop in E. cbn in E. lia.
Qed.

Lemma start_prefix_total clip i :
  0 <= i -> i + 4 < len clip -> exists p, start_prefix clip i = Some p /\ (p = 0 \/ p = 3 \/ p = 4).
Proof.
  intros Hi Hl. unfold start_prefix.
  destruct (load_Some clip i ltac:(lia)) as [b0 ->], (load_Some clip (i + 1) ltac:(lia)) as [b1 ->],
    (load_Some clip (i + 2) ltac:(lia)) as [b2 ->], (load_Some clip (i + 3) ltac:(lia)) as [b3 ->]. cbn [mbind option_bind].
  repeat case_match; eauto.
Qed.

(** The starts found so far. *)
Definition starts_ok (starts : list Z) (i : Z) : Prop :=
  len starts <= MaxUnits /\ match starts with [] => True | a :: l => 0 <= a /\ climbs a l i end.

Lemma starts_ok_mono starts i i' : starts_ok starts i -> i <= i' -> starts_ok starts i'.
Proof. intros [Hn Hc] Hi. split; [done|]. destruct starts; [done|]. split; [tauto|]. eapply climbs_mono; [apply Hc|done]. Qed.

Lemma starts_ok_push starts i i' : starts_ok starts i -> 0 <= i < i' -> len starts < MaxUnits -> starts_ok (starts ++ [i]) i'.
Proof.
  intros [Hn Hc] Hi Hlt. split; [rewrite length_app; cbn [length]; lia|]. destruct starts as [|a l]; cbn [app].
  - cbn. lia.
  - split; [tauto|]. apply climbs_snoc; [apply Hc|lia].
Qed.

Lemma delimiter_loop_total fuel clip i starts :
  0 <= i -> i <= len clip -> (Z.to_nat (len clip - i) < fuel)%nat -> starts_ok starts i ->
  exists r, delimiter_loop fuel clip i starts = Some r /\ match r with Some st => starts_ok st (len clip) | None => True end.
Proof.
  revert i starts. induction fuel as [|fuel IH]; intros i starts Hi Hle Hf Hs; [lia|]. cbn [delimiter_loop].
  destruct (Z.ltb_spec (i + 4) (len clip)) as [Hlt|]; [|exists (Some starts); split; [done|]; by eapply starts_ok_mono].
  destruct (start_prefix_total clip i Hi Hlt) as (p & -> & Hp). cbn [mbind option_bind].
  destruct (negb (p =? 0) && (i + p + 1 <? len clip)) eqn:Ep.
  - apply andb_true_iff in Ep as [Hp0 Hin%Z.ltb_lt]. assert (p = 3 \/ p = 4) as Hp' by (guards; lia).
    destruct (load_Some clip (i + p) ltac:(lia)) as [h ->]. cbn [mbind option_bind].
    destruct (_ =? 35).
    + destruct (Z.leb_spec MaxUnits (len starts)); [by exists None|]. apply IH; try lia. apply starts_ok_push; [done|lia..].
    + apply IH; try lia. eapply starts_ok_mono; [done|lia].
  - apply IH; try lia. eapply starts_ok_mono; [done|lia].
Qed.

(** *** Clips of whole NAL units *)

(** A NAL unit with a long or short start code; its body has two header bytes. *)
Record nal := mkNal { long : bool; body : list Z }.
Definition code (n : nal) : list Z := if long n then [0; 0; 0; 1] else [0; 0; 1].
Definition coded (n : nal) : list Z := code n ++ body n.
Definition stream (nals : list nal) : list Z := concat (map coded nals).

(** An access-unit delimiter. *)
Definition aud (n : nal) : bool := Z.land (Z.shiftr (hd 0 (body n)) 1) 63 =? 35.

(** No start code inside the payload, and no trailing zero. *)
Definition clean (payload : list Z) : Prop := forall j, take 3 (drop j payload) <> [0; 0; 1].
Definition nal_ok (n : nal) : Prop :=
  exists h0 h1 payload, body n = h0 :: h1 :: payload /\ clean payload /\ last (body n) <> Some 0.

(** The access units: the delimiters start them, but what comes before the first delimiter
    belongs to the first unit. *)
Fixpoint split_auds (nals : list nal) : list nal * list (list nal) :=
  match nals with
  | [] => ([], [])
  | n :: nals => let '(p, gs) := split_auds nals in if aud n then ([], (n :: p) :: gs) else (n :: p, gs)
  end.
Definition access_groups (nals : list nal) : list (list nal) :=
  match split_auds nals with (p, g :: gs) => (p ++ g) :: gs | (_, []) => [] end.

Lemma clean_tail b p : clean (b :: p) -> clean p.
Proof. intros H j. apply (H (S j)). Qed.

Lemma last_tail b c p : last (b :: c :: p) <> Some 0 -> last (c :: p) <> Some 0.
Proof. done. Qed.

(** No start code begins in a payload. *)
Lemma payload_prefix pre p rest :
  clean p -> p <> [] -> last p <> Some 0 -> len pre + 4 < len (pre ++ p ++ rest) ->
  start_prefix (pre ++ p ++ rest) (len pre) = Some 0.
Proof.
  intros Hc Hne Hl Hlen. unfold start_prefix. destruct p as [|b p]; [done|]. cbn [app] in *.
  rewrite (load_here pre _ _ (len pre) eq_refl), !(load_app_r pre) by lia. cbn [mbind option_bind].
  destruct (load_Some (pre ++ b :: p ++ rest) (len pre + 1)) as [c1 Hc1]; [lia|]. rewrite (load_app_r pre) in Hc1 by lia. rewrite Hc1.
  cbn [mbind option_bind]. destruct (Z.eqb_spec b 0) as [->|]; [|done]. destruct (Z.eqb_spec c1 0) as [->|]; [|done]. cbn [andb].
  destruct p as [|c p]; [done|]. injection Hc1 as ->. destruct p as [|d p]; [done|].
  cbn [app]. change (load (0 :: 0 :: d :: p ++ rest) 2) with (Some d). cbn [mbind option_bind].
  destruct (Z.eqb_spec d 1) as [->|]; [by destruct (Hc 0%nat)|]. destruct (Z.eqb_spec d 0) as [->|]; [|done].
  destruct p as [|e p]; [done|]. cbn [app]. change (load (0 :: 0 :: 0 :: e :: p ++ rest) 3) with (Some e). cbn [mbind option_bind].
  destruct (Z.eqb_spec e 1) as [->|]; [by destruct (Hc 1%nat)|]. done.
Qed.

Lemma payload_loop p pre rest fuel starts :
  clean p -> last p <> Some 0 -> (1 <= fuel)%nat ->
  delimiter_loop (length p + fuel) (pre ++ p ++ rest) (len pre) starts = delimiter_loop fuel (pre ++ p ++ rest) (len pre + len p) starts.
Proof.
  revert pre. induction p as [|b p IH]; intros pre Hc Hl Hf; [cbn [length]; by rewrite Z.add_0_r|].
  destruct (Z.ltb_spec (len pre + 4) (len (pre ++ (b :: p) ++ rest))) as [Hlt|Hge].
  - cbn [length Nat.add delimiter_loop]. rewrite (proj2 (Z.ltb_lt _ _) Hlt). assert (start_prefix (pre ++ (b :: p) ++ rest) (len pre) = Some 0) as -> by (by apply payload_prefix).
    cbn [mbind option_bind Z.eqb negb andb].
    assert (pre ++ (b :: p) ++ rest = (pre ++ [b]) ++ p ++ rest) as -> by (by rewrite <- app_assoc).
    replace (len pre + 1) with (len (pre ++ [b])) by (rewrite length_app; cbn [length]; lia).
    rewrite IH; [|by eapply clean_tail| |done].
    + f_equal. rewrite length_app. cbn [length]. lia.
    + destruct p; [done|]. by eapply last_tail.
  - destruct fuel as [|fuel]; [lia|]. cbn [length Nat.add delimiter_loop].
    rewrite !(proj2 (Z.ltb_ge _ _)) by (cbn [length] in *; lia). done.
Qed.

Fixpoint positions (off : Z) (nals : list nal) : list Z :=
  match nals with
  | [] => []
  | n :: nals => (if aud n then [off] else []) ++ positions (off + len (coded n)) nals
  end.

Lemma code_prefix pre n rest : start_prefix (pre ++ code n ++ rest) (len pre) = Some (len (code n)).
Proof.
  unfold start_prefix. destruct n as [[] b]; cbn [code long app];
    rewrite (load_here pre _ _ (len pre) eq_refl), !(load_app_r pre) by lia; reflexivity.
Qed.

Lemma coded_loop n pre rest fuel starts :
  nal_ok n -> (length (coded n) <= fuel)%nat -> (if aud n then len starts < MaxUnits else True) ->
  exists fuel', (fuel - length (coded n) < fuel')%nat /\
    delimiter_loop (S fuel) (pre ++ coded n ++ rest) (len pre) starts =
    delimiter_loop fuel' (pre ++ coded n ++ rest) (len pre + len (coded n)) (starts ++ if aud n then [len pre] else []).
Proof.
  intros (h0 & h1 & payload & Hb & Hclean & Hlast) Hf Hmax. unfold coded in *. rewrite Hb in *. unfold aud in *. rewrite Hb in *. cbn [hd] in *.
  set (clip := pre ++ (code n ++ h0 :: h1 :: payload) ++ rest). rewrite length_app in Hf. cbn [length] in Hf.
  assert (3 <= length (code n))%nat as H3 by (destruct n as [[] ?]; cbn; lia).
  assert (len clip = len pre + len (code n) + 2 + len payload + len rest) as Hlen by (unfold clip; rewrite !length_app; cbn [length]; lia).
  cbn [delimiter_loop]. rewrite (proj2 (Z.ltb_lt _ _)) by lia.
  assert (start_prefix clip (len pre) = Some (len (code n))) as -> by (unfold clip; rewrite <- app_assoc; apply code_prefix).
  cbn [mbind option_bind]. rewrite (proj2 (Z.eqb_neq _ _)), (proj2 (Z.ltb_lt _ _)) by lia. cbn [negb andb].
  assert (load clip (len pre + len (code n)) = Some h0) as ->.
  { unfold clip. rewrite <- app_assoc, app_assoc. cbn [app]. apply load_here. rewrite length_app. lia. }
  cbn [mbind option_bind].
  assert (clip = (pre ++ code n ++ [h0; h1]) ++ payload ++ rest) as Hclip by (unfold clip; rewrite <- !app_assoc; done).
  assert (len pre + len (code n) + 2 = len (pre ++ code n ++ [h0; h1])) as -> by (rewrite !length_app; cbn [length]; lia).
  exists (fuel - length payload)%nat. split; [rewrite length_app; cbn [length]; lia|].
  assert (forall st, delimiter_loop fuel clip (len (pre ++ code n ++ [h0; h1])) st =
    delimiter_loop (fuel - length payload) clip (len pre + len (code n ++ h0 :: h1 :: payload)) st) as Hstep.
  { intros st. replace fuel with (length payload + (fuel - length payload))%nat at 1 by lia. rewrite Hclip, payload_loop; [|done| |lia].
    - f_equal. rewrite !length_app. cbn [length]. lia.
    - destruct payload; [done|]. done. }
  destruct (_ =? 35).
  - rewrite (proj2 (Z.leb_gt _ _)) by done. apply Hstep.
  - rewrite app_nil_r. apply Hstep.
Qed.

Lemma stream_loop nals pre fuel starts :
  Forall nal_ok nals -> (length (stream nals) < fuel)%nat -> len starts + len (filter (fun n => aud n = true) nals) <= MaxUnits ->
  delimiter_loop fuel (pre ++ stream nals) (len pre) starts = Some (Some (starts ++ positions (len pre) nals)).
Proof.
  intros Hn. revert pre fuel starts. induction Hn as [|n nals Hn _ IH]; intros pre fuel starts Hf Hmax.
  { destruct fuel; [lia|]. cbn [stream map concat positions delimiter_loop]. rewrite !app_nil_r, (proj2 (Z.ltb_ge _ _)) by lia. done. }
  unfold stream in *. cbn [map concat positions] in *. fold (stream nals) in *. rewrite length_app in Hf. destruct fuel as [|fuel]; [lia|].
  rewrite filter_cons in Hmax. destruct (coded_loop n pre (stream nals) fuel starts Hn) as (fuel' & Hf' & ->); [lia| |].
  { destruct (aud n); [|done]. rewrite decide_True in Hmax by done. cbn [length] in Hmax. lia. }
  rewrite app_assoc. replace (len pre + len (coded n)) with (len (pre ++ coded n)) by (rewrite length_app; lia).
  rewrite IH; [by rewrite <- app_assoc|lia|]. rewrite length_app. destruct (aud n); cbn [length].
  - rewrite decide_True in Hmax by done. cbn [length] in Hmax. lia.
  - rewrite decide_False in Hmax by done. lia.
Qed.

Fixpoint offsets (off : Z) (gs : list (list nal)) : list Z :=
  match gs with [] => [] | g :: gs => off :: offsets (off + len (stream g)) gs end.

Lemma stream_cons n nals : stream (n :: nals) = coded n ++ stream nals.
Proof. done. Qed.
Lemma stream_app l1 l2 : stream (l1 ++ l2) = stream l1 ++ stream l2.
Proof. unfold stream. by rewrite map_app, concat_app. Qed.

Lemma positions_split off nals :
  positions off nals = offsets (off + len (stream (split_auds nals).1)) (split_auds nals).2 /\
  stream nals = stream (split_auds nals).1 ++ concat (map stream (split_auds nals).2).
Proof.
  revert off. induction nals as [|n nals IH]; intros off; [by cbn|]. cbn [positions split_auds].
  destruct (IH (off + len (coded n))) as [Hp Hs]. destruct (split_auds nals) as [p gs]. cbn [fst snd] in *. rewrite Hp.
  destruct (aud n); cbn [fst snd app].
  - unfold stream at 2. cbn [map concat offsets length]. rewrite Z.add_0_r, !stream_cons, Hs. cbn [app]. rewrite <- app_assoc. split; [|done].
    f_equal. f_equal. rewrite length_app. lia.
  - rewrite !stream_cons, Hs, <- app_assoc. split; [|done]. f_equal. rewrite length_app. lia.
Qed.

Lemma cut_offsets gs g pre clip :
  clip = pre ++ stream g ++ concat (map stream gs) ->
  cut clip (between ((len pre :: offsets (len pre + len (stream g)) gs) ++ [len clip])) = map Some (map stream (g :: gs)).
Proof.
  revert g pre. induction gs as [|h gs IH]; intros g pre Hclip; cbn [offsets].
  - unfold cut. cbn [app between map fst snd]. do 2 f_equal. rewrite Hclip. apply copy_from_app; [done|].
    cbn [map concat]. rewrite !length_app. cbn [length]. lia.
  - set (o := len pre + len (stream g)). unfold cut in *.
    change (between ((len pre :: o :: offsets (o + len (stream h)) gs) ++ [len clip])) with
      ((len pre, o - len pre) :: between ((o :: offsets (o + len (stream h)) gs) ++ [len clip])).
    cbn [map fst snd]. f_equal.
    + rewrite Hclip. apply copy_from_app; [done|]. unfold o. lia.
    + assert (o = len (pre ++ stream g)) as -> by (unfold o; rewrite length_app; lia). apply IH. rewrite Hclip. cbn [map concat].
      by rewrite <- app_assoc.
Qed.

Lemma split_auds_count nals : length (split_auds nals).2 = length (filter (fun n => aud n = true) nals).
Proof.
  induction nals as [|n nals IH]; [done|]. cbn [split_auds]. rewrite filter_cons. destruct (split_auds nals) as [p gs].
  destruct (aud n); cbn [snd length] in *; [rewrite decide_True by done|rewrite decide_False by done]; cbn [length]; lia.
Qed.

(** C34: The access units of a plain clip.  For every file the splitting terminates within
    the file; the units it returns cut the whole file into non-empty pieces, in order and
    without gaps, at most a million of them.  For every clip that is a sequence of NAL units
    (long or short start codes, no start code inside a payload, no trailing zeros) with at
    least one access-unit delimiter, and at most a million, the pieces are exactly the
    sequences of NAL units that the delimiters start, the units before the first delimiter
    going to the first piece; a clip without a delimiter is refused. *)
Theorem access_units_exact :
  (forall clip, exists r, accessUnits clip = Some r /\
    forall units, r = Some units -> len units <= MaxUnits /\
      exists pieces, cut clip units = map Some pieces /\ concat pieces = clip /\ Forall (fun p => p <> []) pieces) /\
  (forall nals, Forall nal_ok nals -> len (filter (fun n => aud n = true) nals) <= MaxUnits ->
    match access_groups nals with
    | [] => accessUnits (stream nals) = Some None
    | gs => exists units, accessUnits (stream nals) = Some (Some units) /\ cut (stream nals) units = map Some (map stream gs)
    end).
Proof.
  split.
  - intros clip. unfold accessUnits. destruct (delimiter_loop_total (S (length clip)) clip 0 []) as (r & -> & Hr);
      [lia|lia|lia|by split|]. cbn [mbind option_bind]. destruct r as [[|a l]|]; [by exists None|..|by exists None].
    destruct Hr as [Hn [Ha Hc]]. eexists. split; [done|]. intros units Hu. assert (units = between ((0 :: l) ++ [len clip])) as -> by (by injection Hu).
    destruct (between_cut clip l 0 ltac:(lia) (climbs_front a 0 l _ Ha Hc)) as (pieces & Hcut & Hcat & Hne & Hlen). split.
    + apply (f_equal length) in Hcut. unfold cut in Hcut. rewrite !length_map, Hlen in Hcut. cbn [length] in Hn.
      change (Z.of_nat (length (between ((0 :: l) ++ [len clip]))) <= MaxUnits). lia.
    + by exists pieces.
  - intros nals Hok Hmax. unfold accessUnits, access_groups.
    pose proof (stream_loop nals [] (S (length (stream nals))) [] Hok ltac:(lia) Hmax) as Hloop. cbn [app length] in Hloop. change (Z.of_nat 0) with 0 in Hloop. rewrite Hloop.
    cbn [mbind option_bind]. destruct (positions_split 0 nals) as [-> Hs]. destruct (split_auds nals) as [p [|g gs]]; cbn [fst snd offsets] in *; [done|].
    eexists. split; [done|]. assert (0 + len (stream p) + len (stream g) = len (@nil Z) + len (stream (p ++ g))) as ->
      by (rewrite stream_app, length_app; cbn [length]; lia).
    apply (cut_offsets gs (p ++ g) []). rewrite Hs, stream_app. cbn [app map concat]. by rewrite app_assoc.
Qed.

Lemma access_units_exact_witness :
  (exists r, accessUnits [0; 0; 1; 64; 1; 0; 0; 0; 1; 70; 1; 32; 0; 0; 3; 1; 70; 1; 0; 0; 1; 70; 1; 48; 0; 0; 1] = Some r /\
     r = Some [(0, 18); (18, 9)]) /\
  exists units, accessUnits (stream [mkNal false [64; 1]; mkNal true [70; 1; 32]; mkNal false [2; 1; 0; 5]; mkNal false [70; 1]]) = Some (Some units) /\
    cut (stream [mkNal false [64; 1]; mkNal true [70; 1; 32]; mkNal false [2; 1; 0; 5]; mkNal false [70; 1]]) units =
      map Some [[0; 0; 1; 64; 1; 0; 0; 0; 1; 70; 1; 32; 0; 0; 1; 2; 1; 0; 5]; [0; 0; 1; 70; 1]].
Proof.
  destruct access_units_exact as [Hall Hstream]. split.
  - destruct (Hall [0; 0; 1; 64; 1; 0; 0; 0; 1; 70; 1; 32; 0; 0; 3; 1; 70; 1; 0; 0; 1; 70; 1; 48; 0; 0; 1]) as (r & Hr & _).
    exists r. split; [exact Hr|]. vm_compute in Hr. injection Hr as <-. reflexivity.
  - apply (Hstream [mkNal false [64; 1]; mkNal true [70; 1; 32]; mkNal false [2; 1; 0; 5]; mkNal false [70; 1]]); [|by vm_compute].
    repeat constructor; eexists _, _, _; (split_and!; [reflexivity| |done]); intros [|[|[|[|j]]]]; try done; cbn; by rewrite drop_nil.
Defined.

(** ** The decoding loop *)

Import Decode.

(** The surfaces that are held: at most four exports, the latest ones, and three samples. *)
Definition held (s : state) : Prop :=
  (length (exports s) <= 4)%nat /\ (length (slots s) <= 3)%nat /\ 0 <= sampled s /\ 0 <= skipped s.

Lemma waiting_length slots fences r : waiting slots fences = Some (Some r) -> (length r <= length slots)%nat.
Proof.
  revert fences r. induction slots as [|x slots IH]; intros fences r; cbn [waiting]; [by intros [= <-]|].
  destruct fences as [|[] fences]; [done..| |]; destruct (waiting slots fences) as [[r'|]|] eqn:E; try done;
    cbn [mbind option_bind option_map]; intros [= <-]; apply IH in E; cbn [length]; lia.
Qed.

Lemma submit_held f s s' : held s -> submit f s = Some (Some s') -> held s' /\ decoded s' = decoded s.
Proof.
  intros (He & Hs & Ha & Hk) H. unfold submit in H. destruct (waiting (slots s) (fences f)) as [[w|]|] eqn:E; [|done..].
  cbn [mbind option_bind] in H. apply waiting_length in E. destruct (Nat.eqb_spec (length w) 3); [|destruct (negb _); [done|]];
    injection H as <-; split; try done; split_and!; cbn [exports slots sampled skipped]; rewrite ?length_app; cbn [length];
    try lia; try (apply wrap_range; lia).
Qed.

Lemma take_frame_held m f s s' : held s -> take_frame m f s = Some (Some s') -> held s' /\ decoded s' = u64 (decoded s + 1).
Proof.
  intros Hh H. unfold take_frame in H. destruct (negb _); [done|].
  match type of H with mbind _ ?x = _ => destruct x as [[s1|]|] eqn:E; [|done..] end. cbn [mbind option_bind option_map] in H. injection H as <-.
  assert (held s1 /\ decoded s1 = decoded s) as [Hh1 Hd1].
  { destruct m; [by injection E as <-|destruct (negb _); [done|]; injection E as <-|destruct (negb _); [done|]; by eapply submit_held].
    destruct Hh as (He & Hs & Ha & Hk). split; [|done]. unfold hold. split_and!; cbn [exports slots sampled skipped]; try done.
    destruct (Z.ltb_spec 4 (len (exports s ++ [decoded s]))) as [Hlt|]; rewrite length_app in *; cbn [length] in *; [|lia].
    destruct (exports s); cbn [app tail length] in *; rewrite ?length_app; cbn [length]; lia. }
  split; [exact Hh1|]. cbn [decoded]. by rewrite Hd1.
Qed.

Lemma receive_held m answers s s' : held s -> receive m answers s = Some (Some s') -> held s'.
Proof.
  revert s. induction answers as [|a answers IH]; intros s Hh; cbn [receive]; [done|]. destruct a as [| |f]; [by intros [= <-]|done|].
  destruct (take_frame m f s) as [[s1|]|] eqn:E; [|done..]. cbn [mbind option_bind]. apply take_frame_held in E as [Hh1 _]; [|done]. by apply IH.
Qed.

Lemma decode_loop_submits m c remaining index turns submitted s s' out :
  held s -> decode_loop m c remaining index turns submitted s = Some (Some (s', out)) ->
  held s' /\ exists ps, out = submitted ++ ps /\
    map (fun p => Some (Some p)) ps = map (fun i => clip_packet c (index + Z.of_nat i) true) (seq 0 remaining).
Proof.
  revert index turns submitted s. induction remaining as [|remaining IH]; intros index turns submitted s Hh; cbn [decode_loop].
  { intros [= <- <-]. split; [done|]. exists []. by rewrite app_nil_r. }
  destruct turns as [|t turns]; [done|]. destruct (clip_packet c index (allocated t)) as [[p|]|] eqn:Ep; [|done..]. cbn [mbind option_bind].
  destruct (negb (sent t)); [done|]. destruct (receive m (answers t) s) as [[s1|]|] eqn:Er; [|done..]. cbn [mbind option_bind].
  apply receive_held in Er; [|done]. intros (Hh' & ps & -> & Hps)%IH; [|done]. split; [done|]. exists (p :: ps). rewrite <- app_assoc.
  split; [done|]. cbn [map seq]. rewrite Z.add_0_r. f_equal.
  - rewrite <- Ep. unfold clip_packet in *. destruct (count c =? 0); [done|].
    destruct (load (Recording.Replay.units c) _) as [u|]; [|done]. cbn [mbind option_bind] in *. destruct u. by destruct (allocated t).
  - rewrite Hps, <- seq_shift, map_map. apply map_ext. intros i. f_equal. lia.
Qed.

(** A run that passes has submitted the clip's packets in order and cyclically, decoded as
    many frames, held at most four exports or three samples, and in the sampling mode
    sampled every frame. *)
Lemma replay_passes o m c turns flushed answers s out :
  replay o m c turns flushed answers = Some (Some (s, out)) ->
  map (fun p => Some (Some p)) out = map (fun i => clip_packet c (Z.of_nat i) true) (seq 0 (Z.to_nat (seconds o * fps o))) /\
  decoded s = seconds o * fps o /\ held s /\ (m = Sample -> sampled s = decoded s /\ skipped s = 0).
Proof.
  unfold replay. destruct (decode_loop _ _ _ _ _ _ _) as [[[s1 out1]|]|] eqn:E; [|done..]. cbn [mbind option_bind].
  apply decode_loop_submits in E as (Hh & ps & -> & Hps); [|split_and!; cbn; lia]. destruct (negb flushed); [done|].
  destruct (receive m answers s1) as [[s2|]|] eqn:Er; [|done..]. cbn [mbind option_bind]. apply receive_held in Er; [|done].
  destruct (negb (decoded s2 =? _)) eqn:Ed; [done|]. destruct (match m with Sample => _ | _ => false end) eqn:Em; [done|]. intros [= <- <-].
  split_and!; [exact Hps|guards; lia|done|]. intros ->. guards. lia.
Qed.
