(* ===== verification/UhidProbe.v ===== *)
(** * UhidProbe: probes/wacom/plank-probe-uhid.cpp

    The scripted tablet: it creates UHID devices from report descriptors and answers the
    kernel's report requests from a table given on the command line.  Requests and events
    are those of [WacomBridge]; the kernel is a parameter: what opening, writing and polling
    answer. *)

From stdpp Require Import gmap.
From S2P Require Import Prelude.
From S2P Require Import BenchX264.
From S2P Require Import WacomBridge.
From Stdlib Require Import Ascii.
#[local] Open Scope Z_scope.

(** ** [strtoul] *)

Definition digit_value (c : Ascii.ascii) : Z :=
  let n := Z.of_nat (Ascii.nat_of_ascii c) in
  if (48 <=? n) && (n <=? 57) then n - 48
  else if (97 <=? n) && (n <=? 122) then n - 87
  else if (65 <=? n) && (n <=? 90) then n - 55
  else 99.

(** The digits of a base: the value, how many there were, and the rest. *)
Fixpoint base_digits (base : Z) (s : string) (value : Z) (n : nat) : Z * nat * string :=
  match s with
  | String c rest => if digit_value c <? base then base_digits base rest (value * base + digit_value c) (S n) else (value, n, s)
  | EmptyString => (value, n, s)
  end.

(** A prefix 0x of base 16 counts when a digit follows. *)
Definition after_prefix (base : Z) (s : string) : string :=
  match s with
  | String c0 (String c1 (String c2 rest as rest2)) =>
      if (base =? 16) && Ascii.eqb c0 "0"%char && (Ascii.eqb c1 "x"%char || Ascii.eqb c1 "X"%char) && (digit_value c2 <? 16)
      then rest2 else s
  | _ => s
  end.
Definition unsigned_digits (negative : bool) (base : Z) (s : string) : option (Z * string) :=
  let '(value, n, rest) := base_digits base (after_prefix base s) 0 0 in
  if (n =? 0)%nat then None
  else Some (if UINT64_MAX <? value then UINT64_MAX else if negative then u64 (- value) else value, rest).

(** The value and the text at [end]; [None]: [end] is the beginning. *)
Fixpoint strtoul (s : string) (base : Z) : option (Z * string) :=
  match s with
  | EmptyString => None
  | String c rest =>
      if is_space c then strtoul rest base
      else if Ascii.eqb c "-"%char then unsigned_digits true base rest
      else if Ascii.eqb c "+"%char then unsigned_digits false base rest
      else unsigned_digits false base s
  end.

(** The whole text as a number: [end] is past the beginning and at the end. *)
Definition whole_number (s : string) (base : Z) : option Z :=
  '(value, rest) ← strtoul s base; if String.eqb rest EmptyString then Some value else None.

(** ** Options *)

(** What is before the first colon, and after it. *)
Fixpoint find_colon (s : string) : option (string * string) :=
  match s with
  | EmptyString => None
  | String c rest =>
      if Ascii.eqb c ":"%char then Some (EmptyString, rest)
      else option_map (fun r => (String c r.1, r.2)) (find_colon rest)
  end.

(** Two characters at a time. *)
Fixpoint hex_bytes (s : string) : option (list Z) :=
  match s with
  | EmptyString => Some []
  | String a (String b rest) =>
      v ← whole_number (String a (String b EmptyString)) 16;
      if 255 <? v then None else l ← hex_bytes rest; Some (v :: l)
  | String _ EmptyString => None
  end.

Abbreviation feature_replies := (gmap (Z * Z) (list Z)).

Section probe.
Context `{UAPI}.

Definition parse_feature_reply (value : string) (replies : feature_replies) : option feature_replies :=
  '(interface_text, rest) ← find_colon value;
  '(report_text, data_text) ← find_colon rest;
  interface ← whole_number interface_text 10;
  report ← whole_number report_text 16;
  if (255 <? report) || (Z.of_nat (String.length data_text) =? 0) || negb (Z.of_nat (String.length data_text) mod 2 =? 0) ||
     (UHID_DATA_MAX <? Z.of_nat (String.length data_text) / 2)
  then None
  else
    data ← hex_bytes data_text;
    match data with
    | first :: _ => if first =? report then Some (<[(interface, report) := data]> replies) else None
    | [] => None
    end.

Record Options := mkOptions {
  generic_descriptor : bool; accept_set_report : bool; descriptor_paths : list string; replies : feature_replies;
  requested_product : Z }.
Definition default_options : Options := mkOptions false false [] ∅ 0x0317.

Definition is_option (s : string) : bool := String.prefix "--" s.

(** The loop over the arguments; [None] is return 2. *)
Fixpoint option_loop (arguments : list string) (o : Options) : option Options :=
  match arguments with
  | [] => Some o
  | argument :: rest =>
      if String.eqb argument "--generic" then
        option_loop rest (mkOptions true (accept_set_report o) (descriptor_paths o) (replies o) (requested_product o))
      else if String.eqb argument "--accept-set-report" then
        option_loop rest (mkOptions (generic_descriptor o) true (descriptor_paths o) (replies o) (requested_product o))
      else
        let path := option_loop rest (mkOptions (generic_descriptor o) (accept_set_report o) (descriptor_paths o ++ [argument])
                                        (replies o) (requested_product o)) in
        let other := if String.eqb argument "--self-test-mouse" || negb (is_option argument) then path else None in
        match rest with
        | value :: rest =>
            if String.eqb argument "--feature" then
              r ← parse_feature_reply value (replies o);
              option_loop rest (mkOptions (generic_descriptor o) (accept_set_report o) (descriptor_paths o) r (requested_product o))
            else if String.eqb argument "--product" then
              v ← whole_number value 16;
              if 65535 <? v then None
              else option_loop rest (mkOptions (generic_descriptor o) (accept_set_report o) (descriptor_paths o) (replies o) (u32 v))
            else other
        | [] => other
        end
  end.

Definition parse_options (arguments : list string) : option Options :=
  o ← option_loop arguments default_options;
  match descriptor_paths o with
  | [] => None
  | first :: rest => if String.eqb first "--self-test-mouse" && negb (length rest =? 0)%nat then None else Some o
  end.

(** ** The devices *)

Definition text_bytes (s : string) : list Z := map (fun c => Z.of_nat (Ascii.nat_of_ascii c)) (String.list_ascii_of_string s).

Definition mouse_descriptor : list Z :=
  [0x05; 0x01; 0x09; 0x02; 0xa1; 0x01; 0x09; 0x01; 0xa1; 0x00; 0x05; 0x09; 0x19; 0x01; 0x29; 0x03; 0x15; 0x00;
   0x25; 0x01; 0x95; 0x03; 0x75; 0x01; 0x81; 0x02; 0x95; 0x01; 0x75; 0x05; 0x81; 0x01; 0x05; 0x01; 0x09; 0x30;
   0x09; 0x31; 0x15; 0x81; 0x25; 0x7f; 0x75; 0x08; 0x95; 0x02; 0x81; 0x06; 0xc0; 0xc0].

(** The files' contents ([None]: the stream went bad; a file that cannot be opened is empty). *)
Fixpoint read_descriptors (files : list (option (list Z))) : option (list (list Z)) :=
  match files with
  | [] => Some []
  | None :: _ => None
  | Some d :: files =>
      if (len d =? 0) || (HID_MAX_DESCRIPTOR_SIZE <? len d) then None
      else ds ← read_descriptors files; Some (d :: ds)
  end.

(** Name, vendor, product and descriptors; [None] is return 3. *)
Definition devices_of (o : Options) (files : list (option (list Z))) : option (string * Z * Z * list (list Z)) :=
  match descriptor_paths o with
  | first :: _ =>
      if String.eqb first "--self-test-mouse" then Some ("PLANK UHID Self-Test Mouse"%string, 0x15d9, 0x0a37, [mouse_descriptor])
      else
        ds ← read_descriptors files;
        Some (if generic_descriptor o then ("PLANK Generic HID Tablet"%string, 0x1209, 0x5343, ds)
              else ("PLANK Virtual Wacom Tablet"%string, 0x056a, requested_product o, ds))
  | [] => None
  end.

Context (BUS_USB EIO : Z).

Definition padded (s : string) (n : nat) : list Z := text_bytes s ++ zeros (n - String.length s).
Definition create (name : string) (vendor product : Z) (descriptor : list Z) : uhid_request :=
  Create2 (padded name 128) (padded "plank/uhid0" 64) (zeros 64) (u16 (len descriptor)) BUS_USB vendor product 0x0110 0 descriptor.

(** [/dev/uhid] opens, and takes the event; the exit code, or none, and what was written. *)
Fixpoint create_all (name : string) (vendor product : Z) (descriptors : list (list Z)) (kernel : list (bool * bool))
    : option Z * list uhid_request :=
  match descriptors, kernel with
  | [], _ => (None, [])
  | d :: descriptors, (true, true) :: kernel =>
      let '(code, out) := create_all name vendor product descriptors kernel in (code, create name vendor product d :: out)
  | _ :: _, (true, false) :: _ => (Some 5, [])
  | _ :: _, _ => (Some 4, [])
  end.

(** ** The loop *)

(** The answer to an event of device [index]. *)
Definition answer (o : Options) (index : Z) (e : uhid_event) : option uhid_request :=
  match e with
  | GetReport id rnum rtype =>
      Some match replies o !! (index, rnum) with
           | Some data => if rtype =? UHID_FEATURE_REPORT then GetReportReply id 0 (u16 (len data)) data
                          else GetReportReply id (u16 EIO) 0 []
           | None => GetReportReply id (u16 EIO) 0 []
           end
  | SetReport id _ _ _ => Some (SetReportReply id (if accept_set_report o then 0 else u16 EIO))
  | _ => None
  end.

Record counters := mkCounters { start_events : Z; report_requests : Z; sent : list (Z * uhid_request) }.

Definition count_event (o : Options) (index : Z) (e : uhid_event) (c : counters) : counters :=
  mkCounters (start_events c + match e with Start => 1 | _ => 0 end)
    (report_requests c + match e with GetReport _ _ _ | SetReport _ _ _ _ => 1 | _ => 0 end)
    (sent c ++ match answer o index e with Some r => [(index, r)] | None => [] end).

(** One successful poll: the event of each device that was readable. *)
Fixpoint poll_events (o : Options) (index : Z) (events : list (option uhid_event)) (c : counters) : counters :=
  match events with
  | [] => c
  | None :: events => poll_events o (index + 1) events c
  | Some e :: events => poll_events o (index + 1) events (count_event o index e c)
  end.

(** The polls before the deadline; [None] is a timeout or an error. *)
Fixpoint poll_loop (o : Options) (polls : list (option (list (option uhid_event)))) (c : counters) : counters :=
  match polls with
  | [] => c
  | None :: polls => poll_loop o polls c
  | Some events :: polls => poll_loop o polls (poll_events o 0 events c)
  end.

(** [main]: the exit code and the devices' requests; [destroyed]: whether each final write
    succeeds. *)
Definition main (arguments : list string) (files : list (option (list Z))) (kernel : list (bool * bool))
    (polls : list (option (list (option uhid_event)))) (destroyed : list bool) : Z * list uhid_request * counters :=
  let c0 := mkCounters 0 0 [] in
  match parse_options arguments with
  | None => (2, [], c0)
  | Some o =>
      match devices_of o files with
      | None => (3, [], c0)
      | Some (name, vendor, product, descriptors) =>
          let '(code, created) := create_all name vendor product descriptors kernel in
          match code with
          | Some code => (code, created, c0)
          | None =>
              let c := poll_loop o polls c0 in
              (if forallb id destroyed && (start_events c =? len descriptors) then 0 else 6, created,
               mkCounters (start_events c) (report_requests c)
                 (sent c ++ map (fun i => (Z.of_nat i, Destroy)) (seq 0 (length descriptors))))
          end
      end
  end.
End probe.

(** ** The table of replies *)

Lemma base_digits_range base s v n : 0 <= base -> 0 <= v -> 0 <= (base_digits base s v n).1.1.
Proof.
  intros Hb. revert v n. induction s as [|c s IH]; intros v n Hv; cbn [base_digits]; [done|].
  destruct (digit_value c <? base); [|done]. apply IH. unfold digit_value. repeat case_match; guards; lia.
Qed.

Lemma whole_number_range s base v : 0 <= base -> whole_number s base = Some v -> 0 <= v <= UINT64_MAX.
Proof.
  intros Hb H. unfold whole_number in H. destruct (strtoul s base) as [[x rest]|] eqn:E; [|done]. cbn [mbind option_bind] in H.
  destruct (String.eqb rest ""); [|done]. injection H as ->. clear -E Hb.
  assert (forall neg t r, unsigned_digits neg base t = Some (v, r) -> 0 <= v <= UINT64_MAX) as Hu.
  { intros neg t r. unfold unsigned_digits. pose proof (base_digits_range base (after_prefix base t) 0 0 Hb ltac:(lia)) as Hr.
    destruct (base_digits base (after_prefix base t) 0 0) as [[x n] r']. cbn [fst] in Hr. destruct (n =? 0)%nat; [done|]. intros [= <- <-].
    destruct (Z.ltb_spec UINT64_MAX x); [unfold UINT64_MAX; lia|]. destruct neg; [|lia].
    pose proof (wrap_range 64 (- x) ltac:(lia)) as Hw. ranges. lia. }
  induction s as [|c s IH]; cbn [strtoul] in E; [done|]. destruct (is_space c); [by apply IH|].
  destruct (Ascii.eqb c "-"%char); [by eapply Hu|]. destruct (Ascii.eqb c "+"%char); by eapply Hu.
Qed.

Lemma hex_bytes_inv s l :
  hex_bytes s = Some l -> Forall is_byte l /\ Z.of_nat (String.length s) = 2 * len l.
Proof.
  revert l. induction s as [s IH] using (induction_ltof1 _ String.length). unfold ltof in IH. intros l.
  destruct s as [|a [|b s]]; cbn [hex_bytes]; [by intros [= <-]|done|].
  destruct (whole_number _ 16) as [v|] eqn:Ev; [|done]. cbn [mbind option_bind]. apply whole_number_range in Ev; [|lia].
  destruct (Z.ltb_spec 255 v); [done|]. destruct (hex_bytes s) as [l'|] eqn:El; [|done]. cbn [mbind option_bind]. intros [= <-].
  apply IH in El as [Hb Hlen]; [|cbn; lia]. split; [constructor; [ranges; lia|done]|]. cbn [String.length length]. lia.
Qed.

Section replies.
Context `{UAPI}.

(** Every entry starts with its own report number and fits a UHID reply. *)
Definition replies_ok (m : feature_replies) : Prop :=
  forall i r d, m !! (i, r) = Some d -> is_byte r /\ 1 <= len d <= UHID_DATA_MAX /\ Forall is_byte d /\ hd 0 d = r.

Lemma parse_feature_reply_ok value m m' : replies_ok m -> parse_feature_reply value m = Some m' -> replies_ok m'.
Proof.
  intros Hm Hp. unfold parse_feature_reply in Hp. destruct (find_colon value) as [[t1 rest]|]; [|done]. cbn [mbind option_bind] in Hp.
  destruct (find_colon rest) as [[t2 data_text]|]; [|done]. cbn [mbind option_bind] in Hp.
  destruct (whole_number t1 10) as [i|]; [|done]. cbn [mbind option_bind] in Hp.
  destruct (whole_number t2 16) as [r|] eqn:Er; [|done]. cbn [mbind option_bind] in Hp. apply whole_number_range in Er; [|lia].
  destruct (_ || (UHID_DATA_MAX <? _)) eqn:Eg; [done|]. destruct (hex_bytes data_text) as [[|b d]|] eqn:Eh; [done| |done]. cbn [mbind option_bind] in Hp.
  destruct (Z.eqb_spec b r) as [->|]; [|done]. injection Hp as <-. apply hex_bytes_inv in Eh as [Hb Hlen]. rewrite Hlen in Eg. guards.
  intros i' r' d'. destruct (decide ((i, r) = (i', r'))) as [[= <- <-]|Hne].
  - rewrite lookup_insert_eq. intros [= <-]. split_and!; [ranges; lia|cbn [length]; lia| |done|done].
    rewrite (Z.mul_comm 2), Z.div_mul in * by lia. lia.
  - rewrite lookup_insert_ne by done. apply Hm.
Qed.

Lemma option_loop_replies n arguments o o' :
  (length arguments <= n)%nat -> replies_ok (replies o) -> option_loop arguments o = Some o' -> replies_ok (replies o').
Proof.
  revert arguments o. induction n as [|n IH]; intros arguments o Hn Ho.
  { destruct arguments; [|cbn in Hn; lia]. by intros [= <-]. }
  destruct arguments as [|a rest]; [by intros [= <-]|]. cbn [option_loop length] in *.
  destruct (String.eqb a "--generic"); [by apply IH; [lia|]|]. destruct (String.eqb a "--accept-set-report"); [by apply IH; [lia|]|].
  destruct rest as [|v rest].
  { destruct (_ || _); [|done]. by apply IH; [cbn; lia|]. }
  destruct (String.eqb a "--feature").
  { destruct (parse_feature_reply v (replies o)) as [m|] eqn:E; [|done]. cbn [mbind option_bind]. apply IH; [cbn in Hn; lia|].
    by eapply parse_feature_reply_ok. }
  destruct (String.eqb a "--product").
  { destruct (whole_number v 16) as [x|]; [|done]. cbn [mbind option_bind]. destruct (65535 <? x); [done|]. by apply IH; [cbn in Hn; lia|]. }
  destruct (_ || _); [|done]. by apply IH; [cbn in *; lia|].
Qed.

(** The table of accepted arguments. *)
Lemma parse_options_replies arguments o : parse_options arguments = Some o -> replies_ok (replies o) /\ descriptor_paths o <> [].
Proof.
  unfold parse_options. destruct (option_loop arguments default_options) as [o'|] eqn:E; [|done]. cbn [mbind option_bind].
  apply (option_loop_replies (length arguments)) in E; [|done|intros i r d; change (replies default_options) with (∅ : feature_replies); by rewrite lookup_empty].
  destruct (descriptor_paths o') as [|p ps] eqn:Ep; [done|]. destruct (_ && _); [done|]. intros [= <-]. split; [done|]. by rewrite Ep.
Qed.

(** ** Requests and answers *)

Context (EIO : Z).

Definition is_request (e : uhid_event) : Prop := match e with GetReport _ _ _ | SetReport _ _ _ _ => True | _ => False end.

(** Exactly the requests are answered, each under its own identifier; a positive reply to
    GET_REPORT is for a feature report, starts with the report's number and has its size. *)
Lemma answer_exact o i e :
  replies_ok (replies o) ->
  match answer EIO o i e with
  | None => ~ is_request e
  | Some (GetReportReply id err size data) =>
      exists rnum rtype, e = GetReport id rnum rtype /\
        (err = 0 /\ rtype = UHID_FEATURE_REPORT /\ replies o !! (i, rnum) = Some data /\ size = len data /\ hd 0 data = rnum \/
         err = u16 EIO /\ size = 0 /\ data = [])
  | Some (SetReportReply id err) =>
      (exists rnum rtype data, e = SetReport id rnum rtype data) /\ err = (if accept_set_report o then 0 else u16 EIO)
  | Some _ => False
  end.
Proof.
  intros Hr. destruct e as [|id rnum rtype|id rnum rtype data|data rtype|]; cbn [answer]; try (by intros []).
  - destruct (replies o !! (i, rnum)) as [d|] eqn:E; [|exists rnum, rtype; split; [done|by right]].
    destruct (Hr i rnum d E) as (_ & Hlen & _ & Hhd). pose proof data_max_range as Hmax.
    destruct (Z.eqb_spec rtype UHID_FEATURE_REPORT); exists rnum, rtype; (split; [done|]); [left|by right].
    split_and!; try done. apply wrap_small. ranges. lia.
  - split; [by exists rnum, rtype, data|done].
Qed.

(** Over a run the number of requests is the number of answers, and the starts are counted. *)
Definition is_start (e : option uhid_event) : bool := match e with Some Start => true | _ => false end.
Definition starts_of (events : list (option uhid_event)) : nat := length (List.filter is_start events).

Lemma poll_events_counts o i events c :
  let c' := poll_events EIO o i events c in
  start_events c' = start_events c + Z.of_nat (starts_of events) /\
  report_requests c' - len (sent c') = report_requests c - len (sent c) /\
  exists more, sent c' = sent c ++ more /\ Forall (fun x => i <= x.1 < i + len events) more.
Proof.
  revert i c. induction events as [|e events IH]; intros i c; cbn [poll_events].
  { split_and!; [cbn; lia|lia|]. exists []. by rewrite app_nil_r. }
  unfold starts_of in *. cbn [List.filter]. destruct e as [e|].
  2: { destruct (IH (i + 1) c) as (H1 & H2 & more & H3 & H4). cbn [is_start]. split_and!; [done|done|].
       exists more. split; [done|]. eapply Forall_impl; [exact H4|]. cbn [length]. intros x Hx. lia. }
  destruct (IH (i + 1) (count_event EIO o i e c)) as (H1 & H2 & more & H3 & H4). rewrite H1, H2, H3.
  unfold count_event. cbn [start_events report_requests sent]. split_and!.
  - destruct e; cbn [is_start length]; lia.
  - destruct e; cbn [answer]; rewrite ?length_app; cbn [length]; lia.
  - eexists. rewrite <- app_assoc. split; [done|]. apply Forall_app. split.
    + destruct (answer EIO o i e); [|done]. constructor; [|done]. cbn [fst length]. lia.
    + eapply Forall_impl; [exact H4|]. cbn [length]. intros x Hx. lia.
Qed.

Fixpoint starts_in (polls : list (option (list (option uhid_event)))) : Z :=
  match polls with [] => 0 | None :: polls => starts_in polls | Some es :: polls => Z.of_nat (starts_of es) + starts_in polls end.

Lemma poll_loop_counts o polls c :
  let c' := poll_loop EIO o polls c in
  start_events c' = start_events c + starts_in polls /\ report_requests c' - len (sent c') = report_requests c - len (sent c).
Proof.
  revert c. induction polls as [|[es|] polls IH]; intros c; cbn [poll_loop starts_in]; [lia| |apply IH].
  destruct (poll_events_counts o 0 es c) as (H1 & H2 & _). destruct (IH (poll_events EIO o 0 es c)) as (H3 & H4). lia.
Qed.

(** The probe passes exactly when arguments and descriptors are accepted, every device is
    created, started as many times as there are devices in all, and destroyed. *)
Lemma main_passes BUS_USB arguments files kernel polls destroyed :
  (main BUS_USB EIO arguments files kernel polls destroyed).1.1 = 0 <->
  exists o name vendor product ds, parse_options arguments = Some o /\ devices_of o files = Some (name, vendor, product, ds) /\
    create_all BUS_USB name vendor product ds kernel = (None, map (create BUS_USB name vendor product) ds) /\
    starts_in polls = len ds /\ Forall (fun b => b = true) destroyed.
Proof.
  assert (forall name vendor product ds kernel, match create_all BUS_USB name vendor product ds kernel with
    | (None, out) => out = map (create BUS_USB name vendor product) ds | (Some c, _) => c = 4 \/ c = 5 end) as Hcreate.
  { intros name vendor product ds. induction ds as [|d ds IH]; intros [|[[] []] k]; cbn; auto. specialize (IH k).
    destruct (create_all BUS_USB name vendor product ds k) as [[c|] out]; [done|]. by rewrite IH. }
  unfold main. destruct (parse_options arguments) as [o|]; [|split; [done|by intros (? & ? & ? & ? & ? & ? & _)]].
  destruct (devices_of o files) as [[[[name vendor] product] ds]|] eqn:Ed;
    [|split; [done|intros (? & ? & ? & ? & ? & [= <-] & ? & _); congruence]].
  specialize (Hcreate name vendor product ds kernel). destruct (create_all BUS_USB name vendor product ds kernel) as [[code|] out] eqn:Ec.
  - cbn [fst]. split; [lia|]. intros (o' & n' & v' & p' & ds' & [= <-] & Ed' & E & _). congruence.
  - subst out. destruct (poll_loop_counts o polls (mkCounters 0 0 [])) as [Hs _]. cbn [start_events] in Hs. rewrite Hs. cbn [fst].
    split.
    + intros Hz. exists o, name, vendor, product, ds. split_and!; try done.
      * destruct (forallb id destroyed); cbn [andb] in Hz; [|done]. destruct (Z.eqb_spec (0 + starts_in polls) (len ds)); [lia|done].
      * destruct (forallb id destroyed) eqn:Ef; [|done]. apply Forall_forall. intros b Hb.
        rewrite forallb_forall in Ef. by apply Ef, list_elem_of_In.
    + intros (o' & n' & v' & p' & ds' & [= <-] & Ed' & _ & Hst & Hd).
      rewrite Ed in Ed'. injection Ed' as <- <- <- <-.
      assert (forallb id destroyed = true) as ->.
      { apply forallb_forall. intros b Hb%list_elem_of_In. by apply (proj1 (Forall_forall _ _) Hd). }
      cbn [andb]. by rewrite (proj2 (Z.eqb_eq _ _)) by lia.
Qed.
End replies.
