(* ===== verification/VideoPipeline.v ===== *)
(** * VideoPipeline: probes/video/plank-probe-video-pipeline.cpp

    The capture-to-bitstream probe of the Linux host: its options, the CUDA kernels that turn
    captured BGRA pixels into the encoder's planes, and the two-slot pipeline of the capture
    loop and the thread that drains the encoder, with the injected loss of a frame and the
    recovery from it.  Capture, encoder and files are parameters: what each call answers. *)

From stdpp Require Import gmap.
From S2P Require Import Prelude.
From S2P Require Import Endian.
From S2P Require Import BenchX264.
From S2P Require Import Playback.
From Stdlib Require Import Ascii.
#[local] Open Scope Z_scope.

(** ** Options *)

Module Arguments.

Definition kDefaultBitrate : Z := 100000000.
Definition kDefaultVbvBits : Z := 2000000.

Inductive Codec := kHevc10 | kH264EightBit.
Inductive split := SplitAuto | SplitForced | SplitDisabled.
Inductive tuning_info := LowLatency | UltraLowLatency.

Record Options := mkOptions {
  frame_count : Z;
  frame_rate : Z;
  queue_depth : Z;
  simulate_loss_frame : Z;
  invalidate_delay_frames : Z;
  force_idr_frame : Z;
  reference_frames : Z;
  reference_invalidation_enabled : bool;
  intra_refresh_period : Z;
  intra_refresh_count : Z;
  single_slice_intra_refresh : bool;
  require_changing_source : bool;
  require_robustness : bool;
  unpaced : bool;
  codec : Codec;
  bitrate : Z;
  vbv_bits : Z;
  output_name : string;
  bitstream_path : string;
  reference_bitstream_path : string;
  split_mode : split;
  tuning : tuning_info }.
Definition default_options : Options :=
  mkOptions 600 60 1 0 2 0 0 true (-1) (-1) true false false false kHevc10 kDefaultBitrate kDefaultVbvBits "DP-2" "plank-identity-gbr.hevc" "" SplitAuto LowLatency.
Definition set_frame_count (v : Z) (o : Options) : Options :=
  mkOptions v (frame_rate o) (queue_depth o) (simulate_loss_frame o) (invalidate_delay_frames o) (force_idr_frame o) (reference_frames o) (reference_invalidation_enabled o) (intra_refresh_period o) (intra_refresh_count o) (single_slice_intra_refresh o) (require_changing_source o) (require_robustness o) (unpaced o) (codec o) (bitrate o) (vbv_bits o) (output_name o) (bitstream_path o) (reference_bitstream_path o) (split_mode o) (tuning o).
Definition set_frame_rate (v : Z) (o : Options) : Options :=
  mkOptions (frame_count o) v (queue_depth o) (simulate_loss_frame o) (invalidate_delay_frames o) (force_idr_frame o) (reference_frames o) (reference_invalidation_enabled o) (intra_refresh_period o) (intra_refresh_count o) (single_slice_intra_refresh o) (require_changing_source o) (require_robustness o) (unpaced o) (codec o) (bitrate o) (vbv_bits o) (output_name o) (bitstream_path o) (reference_bitstream_path o) (split_mode o) (tuning o).
Definition set_queue_depth (v : Z) (o : Options) : Options :=
  mkOptions (frame_count o) (frame_rate o) v (simulate_loss_frame o) (invalidate_delay_frames o) (force_idr_frame o) (reference_frames o) (reference_invalidation_enabled o) (intra_refresh_period o) (intra_refresh_count o) (single_slice_intra_refresh o) (require_changing_source o) (require_robustness o) (unpaced o) (codec o) (bitrate o) (vbv_bits o) (output_name o) (bitstream_path o) (reference_bitstream_path o) (split_mode o) (tuning o).
Definition set_simulate_loss_frame (v : Z) (o : Options) : Options :=
  mkOptions (frame_count o) (frame_rate o) (queue_depth o) v (invalidate_delay_frames o) (force_idr_frame o) (reference_frames o) (reference_invalidation_enabled o) (intra_refresh_period o) (intra_refresh_count o) (single_slice_intra_refresh o) (require_changing_source o) (require_robustness o) (unpaced o) (codec o) (bitrate o) (vbv_bits o) (output_name o) (bitstream_path o) (reference_bitstream_path o) (split_mode o) (tuning o).
Definition set_invalidate_delay_frames (v : Z) (o : Options) : Options :=
  mkOptions (frame_count o) (frame_rate o) (queue_depth o) (simulate_loss_frame o) v (force_idr_frame o) (reference_frames o) (reference_invalidation_enabled o) (intra_refresh_period o) (intra_refresh_count o) (single_slice_intra_refresh o) (require_changing_source o) (require_robustness o) (unpaced o) (codec o) (bitrate o) (vbv_bits o) (output_name o) (bitstream_path o) (reference_bitstream_path o) (split_mode o) (tuning o).
Definition set_force_idr_frame (v : Z) (o : Options) : Options :=
  mkOptions (frame_count o) (frame_rate o) (queue_depth o) (simulate_loss_frame o) (invalidate_delay_frames o) v (reference_frames o) (reference_invalidation_enabled o) (intra_refresh_period o) (intra_refresh_count o) (single_slice_intra_refresh o) (require_changing_source o) (require_robustness o) (unpaced o) (codec o) (bitrate o) (vbv_bits o) (output_name o) (bitstream_path o) (reference_bitstream_path o) (split_mode o) (tuning o).
Definition set_reference_frames (v : Z) (o : Options) : Options :=
  mkOptions (frame_count o) (frame_rate o) (queue_depth o) (simulate_loss_frame o) (invalidate_delay_frames o) (force_idr_frame o) v (reference_invalidation_enabled o) (intra_refresh_period o) (intra_refresh_count o) (single_slice_intra_refresh o) (require_changing_source o) (require_robustness o) (unpaced o) (codec o) (bitrate o) (vbv_bits o) (output_name o) (bitstream_path o) (reference_bitstream_path o) (split_mode o) (tuning o).
Definition set_reference_invalidation_enabled (v : bool) (o : Options) : Options :=
  mkOptions (frame_count o) (frame_rate o) (queue_depth o) (simulate_loss_frame o) (invalidate_delay_frames o) (force_idr_frame o) (reference_frames o) v (intra_refresh_period o) (intra_refresh_count o) (single_slice_intra_refresh o) (require_changing_source o) (require_robustness o) (unpaced o) (codec o) (bitrate o) (vbv_bits o) (output_name o) (bitstream_path o) (reference_bitstream_path o) (split_mode o) (tuning o).
Definition set_intra_refresh_period (v : Z) (o : Options) : Options :=
  mkOptions (frame_count o) (frame_rate o) (queue_depth o) (simulate_loss_frame o) (invalidate_delay_frames o) (force_idr_frame o) (reference_frames o) (reference_invalidation_enabled o) v (intra_refresh_count o) (single_slice_intra_refresh o) (require_changing_source o) (require_robustness o) (unpaced o) (codec o) (bitrate o) (vbv_bits o) (output_name o) (bitstream_path o) (reference_bitstream_path o) (split_mode o) (tuning o).
Definition set_intra_refresh_count (v : Z) (o : Options) : Options :=
  mkOptions (frame_count o) (frame_rate o) (queue_depth o) (simulate_loss_frame o) (invalidate_delay_frames o) (force_idr_frame o) (reference_frames o) (reference_invalidation_enabled o) (intra_refresh_period o) v (single_slice_intra_refresh o) (require_changing_source o) (require_robustness o) (unpaced o) (codec o) (bitrate o) (vbv_bits o) (output_name o) (bitstream_path o) (reference_bitstream_path o) (split_mode o) (tuning o).
Definition set_single_slice_intra_refresh (v : bool) (o : Options) : Options :=
  mkOptions (frame_count o) (frame_rate o) (queue_depth o) (simulate_loss_frame o) (invalidate_delay_frames o) (force_idr_frame o) (reference_frames o) (reference_invalidation_enabled o) (intra_refresh_period o) (intra_refresh_count o) v (require_changing_source o) (require_robustness o) (unpaced o) (codec o) (bitrate o) (vbv_bits o) (output_name o) (bitstream_path o) (reference_bitstream_path o) (split_mode o) (tuning o).
Definition set_require_changing_source (v : bool) (o : Options) : Options :=
  mkOptions (frame_count o) (frame_rate o) (queue_depth o) (simulate_loss_frame o) (invalidate_delay_frames o) (force_idr_frame o) (reference_frames o) (reference_invalidation_enabled o) (intra_refresh_period o) (intra_refresh_count o) (single_slice_intra_refresh o) v (require_robustness o) (unpaced o) (codec o) (bitrate o) (vbv_bits o) (output_name o) (bitstream_path o) (reference_bitstream_path o) (split_mode o) (tuning o).
Definition set_require_robustness (v : bool) (o : Options) : Options :=
  mkOptions (frame_count o) (frame_rate o) (queue_depth o) (simulate_loss_frame o) (invalidate_delay_frames o) (force_idr_frame o) (reference_frames o) (reference_invalidation_enabled o) (intra_refresh_period o) (intra_refresh_count o) (single_slice_intra_refresh o) (require_changing_source o) v (unpaced o) (codec o) (bitrate o) (vbv_bits o) (output_name o) (bitstream_path o) (reference_bitstream_path o) (split_mode o) (tuning o).
Definition set_unpaced (v : bool) (o : Options) : Options :=
  mkOptions (frame_count o) (frame_rate o) (queue_depth o) (simulate_loss_frame o) (invalidate_delay_frames o) (force_idr_frame o) (reference_frames o) (reference_invalidation_enabled o) (intra_refresh_period o) (intra_refresh_count o) (single_slice_intra_refresh o) (require_changing_source o) (require_robustness o) v (codec o) (bitrate o) (vbv_bits o) (output_name o) (bitstream_path o) (reference_bitstream_path o) (split_mode o) (tuning o).
Definition set_codec (v : Codec) (o : Options) : Options :=
  mkOptions (frame_count o) (frame_rate o) (queue_depth o) (simulate_loss_frame o) (invalidate_delay_frames o) (force_idr_frame o) (reference_frames o) (reference_invalidation_enabled o) (intra_refresh_period o) (intra_refresh_count o) (single_slice_intra_refresh o) (require_changing_source o) (require_robustness o) (unpaced o) v (bitrate o) (vbv_bits o) (output_name o) (bitstream_path o) (reference_bitstream_path o) (split_mode o) (tuning o).
Definition set_bitrate (v : Z) (o : Options) : Options :=
  mkOptions (frame_count o) (frame_rate o) (queue_depth o) (simulate_loss_frame o) (invalidate_delay_frames o) (force_idr_frame o) (reference_frames o) (reference_invalidation_enabled o) (intra_refresh_period o) (intra_refresh_count o) (single_slice_intra_refresh o) (require_changing_source o) (require_robustness o) (unpaced o) (codec o) v (vbv_bits o) (output_name o) (bitstream_path o) (reference_bitstream_path o) (split_mode o) (tuning o).
Definition set_vbv_bits (v : Z) (o : Options) : Options :=
  mkOptions (frame_count o) (frame_rate o) (queue_depth o) (simulate_loss_frame o) (invalidate_delay_frames o) (force_idr_frame o) (reference_frames o) (reference_invalidation_enabled o) (intra_refresh_period o) (intra_refresh_count o) (single_slice_intra_refresh o) (require_changing_source o) (require_robustness o) (unpaced o) (codec o) (bitrate o) v (output_name o) (bitstream_path o) (reference_bitstream_path o) (split_mode o) (tuning o).
Definition set_output_name (v : string) (o : Options) : Options :=
  mkOptions (frame_count o) (frame_rate o) (queue_depth o) (simulate_loss_frame o) (invalidate_delay_frames o) (force_idr_frame o) (reference_frames o) (reference_invalidation_enabled o) (intra_refresh_period o) (intra_refresh_count o) (single_slice_intra_refresh o) (require_changing_source o) (require_robustness o) (unpaced o) (codec o) (bitrate o) (vbv_bits o) v (bitstream_path o) (reference_bitstream_path o) (split_mode o) (tuning o).
Definition set_bitstream_path (v : string) (o : Options) : Options :=
  mkOptions (frame_count o) (frame_rate o) (queue_depth o) (simulate_loss_frame o) (invalidate_delay_frames o) (force_idr_frame o) (reference_frames o) (reference_invalidation_enabled o) (intra_refresh_period o) (intra_refresh_count o) (single_slice_intra_refresh o) (require_changing_source o) (require_robustness o) (unpaced o) (codec o) (bitrate o) (vbv_bits o) (output_name o) v (reference_bitstream_path o) (split_mode o) (tuning o).
Definition set_reference_bitstream_path (v : string) (o : Options) : Options :=
  mkOptions (frame_count o) (frame_rate o) (queue_depth o) (simulate_loss_frame o) (invalidate_delay_frames o) (force_idr_frame o) (reference_frames o) (reference_invalidation_enabled o) (intra_refresh_period o) (intra_refresh_count o) (single_slice_intra_refresh o) (require_changing_source o) (require_robustness o) (unpaced o) (codec o) (bitrate o) (vbv_bits o) (output_name o) (bitstream_path o) v (split_mode o) (tuning o).
Definition set_split_mode (v : split) (o : Options) : Options :=
  mkOptions (frame_count o) (frame_rate o) (queue_depth o) (simulate_loss_frame o) (invalidate_delay_frames o) (force_idr_frame o) (reference_frames o) (reference_invalidation_enabled o) (intra_refresh_period o) (intra_refresh_count o) (single_slice_intra_refresh o) (require_changing_source o) (require_robustness o) (unpaced o) (codec o) (bitrate o) (vbv_bits o) (output_name o) (bitstream_path o) (reference_bitstream_path o) v (tuning o).
Definition set_tuning (v : tuning_info) (o : Options) : Options :=
  mkOptions (frame_count o) (frame_rate o) (queue_depth o) (simulate_loss_frame o) (invalidate_delay_frames o) (force_idr_frame o) (reference_frames o) (reference_invalidation_enabled o) (intra_refresh_period o) (intra_refresh_count o) (single_slice_intra_refresh o) (require_changing_source o) (require_robustness o) (unpaced o) (codec o) (bitrate o) (vbv_bits o) (output_name o) (bitstream_path o) (reference_bitstream_path o) (split_mode o) v.

Definition parse_codec (s : string) : option Codec :=
  if String.eqb s "hevc-10bit-444" then Some kHevc10 else if String.eqb s "h264-8bit-444" then Some kH264EightBit else None.
Definition parse_split (s : string) : option split :=
  if String.eqb s "auto" then Some SplitAuto else if String.eqb s "forced" then Some SplitForced
  else if String.eqb s "disabled" then Some SplitDisabled else None.
Definition parse_tuning (s : string) : option tuning_info :=
  if String.eqb s "low-latency" then Some LowLatency else if String.eqb s "ultra-low-latency" then Some UltraLowLatency else None.
Definition parse_flag (s : string) : option Z :=
  if String.eqb s "0" then Some 0 else if String.eqb s "1" then Some 1 else None.

(** The rate-control arguments, and the other numbers. *)
Definition parse_rate (value : string) (maximum scale : Z) : option Z :=
  v ← stoul value; if (v =? 0) || (maximum <? v) then None else Some (u32 (u64 (v * scale))).
Definition parse_count (value : string) (zero_allowed : bool) : option Z :=
  v ← stoul value; if (negb zero_allowed && (v =? 0)) || (36000 <? v) then None else Some (u32 v).
(** The intra-refresh numbers, from [low] on. *)
Definition parse_intra (value : string) (low : Z) : option Z :=
  '(v, _) ← Decode.stoi value; if (v <? low) || (36000 <? v) then None else Some v.

(** One option with its value: the change it makes; the outer [None] is an unknown option. *)
Definition valued (key value : string) (o : Options) : option (option Options) :=
  if String.eqb key "--codec" then Some (v ← parse_codec value; Some (set_codec v o))
  else if String.eqb key "--bitrate-mbps" then Some (v ← parse_rate value 4000 1000000; Some (set_bitrate v o))
  else if String.eqb key "--vbv-kbits" then Some (v ← parse_rate value 1000000 1000; Some (set_vbv_bits v o))
  else if String.eqb key "--queue-depth" then Some (v ← parse_flag value; Some (set_queue_depth v o))
  else if String.eqb key "--intra-refresh-count" then Some (v ← parse_intra value 0; Some (set_intra_refresh_count v o))
  else if String.eqb key "--intra-refresh-period" then Some (v ← parse_intra value 1; Some (set_intra_refresh_period v o))
  else if String.eqb key "--single-slice-intra-refresh" then Some (v ← parse_flag value; Some (set_single_slice_intra_refresh (v =? 1) o))
  else if String.eqb key "--frames" then Some (v ← parse_count value false; Some (set_frame_count v o))
  else if String.eqb key "--fps" then Some (v ← parse_count value false; Some (set_frame_rate v o))
  else if String.eqb key "--simulate-loss-frame" then Some (v ← parse_count value false; Some (set_simulate_loss_frame v o))
  else if String.eqb key "--invalidate-delay-frames" then Some (v ← parse_count value false; Some (set_invalidate_delay_frames v o))
  else if String.eqb key "--force-idr-frame" then Some (v ← parse_count value false; Some (set_force_idr_frame v o))
  else if String.eqb key "--reference-frames" then Some (v ← parse_count value true; Some (set_reference_frames v o))
  else if String.eqb key "--output" then Some (Some (set_output_name value o))
  else if String.eqb key "--bitstream" then Some (Some (set_bitstream_path value o))
  else if String.eqb key "--reference-bitstream" then Some (Some (set_reference_bitstream_path value o))
  else if String.eqb key "--split" then Some (v ← parse_split value; Some (set_split_mode v o))
  else if String.eqb key "--tuning" then Some (v ← parse_tuning value; Some (set_tuning v o))
  else None.

(** A run, the self-test, or return 2. *)
Inductive parsed := Run (o : Options) | SelfTest | Refused.

Fixpoint option_loop (arguments : list string) (o : Options) : parsed :=
  match arguments with
  | [] => Run o
  | argument :: rest =>
      if String.eqb argument "--self-test" then SelfTest
      else if String.eqb argument "--require-changing" then option_loop rest (set_require_changing_source true o)
      else if String.eqb argument "--require-robustness" then option_loop rest (set_require_robustness true o)
      else if String.eqb argument "--unpaced" then option_loop rest (set_unpaced true o)
      else if String.eqb argument "--no-reference-invalidation" then option_loop rest (set_reference_invalidation_enabled false o)
      else match rest with
      | value :: rest => match valued argument value o with Some (Some o) => option_loop rest o | _ => Refused end
      | [] => Refused
      end
  end.

(** Loss of a frame with the invalidation of the references to it. *)
Definition recovery (o : Options) : bool := negb (simulate_loss_frame o =? 0) && reference_invalidation_enabled o.

(** The defaults that depend on other options, and the consistency of all of them. *)
Definition settle (o : Options) : option Options :=
  if 240 <? frame_rate o then None
  else
    let o := if intra_refresh_period o <? 0 then set_intra_refresh_period (frame_rate o) o else o in
    let o := if intra_refresh_count o <? 0 then set_intra_refresh_count (Z.quot (intra_refresh_period o) 2) o else o in
    if (0 <? intra_refresh_count o) && (intra_refresh_period o <=? intra_refresh_count o) then None
    else if (frame_count o <? simulate_loss_frame o) || (frame_count o <? force_idr_frame o) ||
            (recovery o && (frame_count o <? u32 (simulate_loss_frame o + invalidate_delay_frames o))) then None
    else if 8 <? reference_frames o then None
    else
      let o := if recovery o && (reference_frames o =? 0) then set_reference_frames 4 o else o in
      if recovery o && (queue_depth o =? 1) && (invalidate_delay_frames o <? 2) then None
      else if negb (String.eqb (reference_bitstream_path o) EmptyString) && String.eqb (reference_bitstream_path o) (bitstream_path o)
      then None
      else Some o.

Definition parse_options (arguments : list string) : parsed :=
  match option_loop arguments default_options with
  | Run o => match settle o with Some o => Run o | None => Refused end
  | r => r
  end.
End Arguments.

(** ** The conversion *)

Module Conversion.

(** The reference: eight bits to ten, rounded, in the high bits of a 16-bit sample. *)
Definition expand_to_msb_aligned_10_bit (value : Z) : Z :=
  let expanded := u32 (value * 1023 + 127) / 255 in u16 (Z.shiftl expanded 6).

(** The kernel's way to it. *)
Definition sample10 (v : Z) : Z :=
  let ge (limit : Z) := if limit <=? v then 1 else 0 in
  let r := u32 (Z.shiftl v 2) in
  let r := u32 (r + ge 43) in
  let r := u32 (r + ge 128) in
  let r := u32 (r + ge 213) in
  u32 (Z.shiftl r 6).

(** [st.global] of [n] bytes. *)
Definition st_global (n : nat) (memory : list Z) (address value : Z) : option (list Z) :=
  copy_to memory address (le_bytes n value).

(** A thread of the two kernels; addresses are offsets into the source and the destination. *)
Definition bgra8_to_gbr8 (source : list Z) (width height pitch ctaid ntid tid : Z) (destination : list Z) : option (list Z) :=
  let index := u32 (ctaid * ntid + tid) in
  if u32 (width * height) <=? index then Some destination
  else
    let address := index * 4 in
    r8 ← load source address; r9 ← load source (address + 1); r10 ← load source (address + 2);
    let plane := u64 (pitch * height) in
    d ← st_global 1 destination index r9;
    d ← st_global 1 d (u64 (index + plane)) r8;
    st_global 1 d (u64 (u64 (index + plane) + plane)) r10.
Definition bgra8_to_gbr10 (source : list Z) (width height pitch ctaid ntid tid : Z) (destination : list Z) : option (list Z) :=
  let index := u32 (ctaid * ntid + tid) in
  if u32 (width * height) <=? index then Some destination
  else
    let address := index * 4 in
    r8 ← load source address; r9 ← load source (address + 1); r10 ← load source (address + 2);
    let plane := u64 (pitch * height) in
    d ← st_global 2 destination (index * 2) (sample10 r9);
    d ← st_global 2 d (u64 (index * 2 + plane)) (sample10 r8);
    st_global 2 d (u64 (u64 (index * 2 + plane) + plane)) (sample10 r10).

(** The threads of a launch, in the order in which the device runs them. *)
Fixpoint threads_loop (thread : Z -> Z -> list Z -> option (list Z)) (order : list Z) (destination : list Z) : option (list Z) :=
  match order with
  | [] => Some destination
  | t :: order => d ← thread (t / 256) (t mod 256) destination; threads_loop thread order d
  end.

(** [order n] is the order of the [n] threads of a launch. *)
Definition launch_conversion (order : Z -> list Z) (source : list Z) (width height pitch : Z) (ten_bit : bool)
    (destination : list Z) : option (list Z) :=
  let pixels := u64 (width * height) in
  let threads := 256 in
  let blocks := u32 (u64 (pixels + (threads - 1)) / threads) in
  threads_loop (fun block thread => (if ten_bit then bgra8_to_gbr10 else bgra8_to_gbr8) source width height pitch block threads thread)
    (order (blocks * threads)) destination.
End Conversion.

(** ** Samples in memory *)

Import Conversion.

Definition sample (n : nat) (memory : list Z) (address : Z) : option Z :=
  l ← copy_from memory address (Z.of_nat n); Some (le_value l).

Lemma sample_written n d a v : 0 <= a -> a + Z.of_nat n <= len d -> in_range (8 * Z.of_nat n) v ->
  exists d', st_global n d a v = Some d' /\ length d' = length d /\ sample n d' a = Some v /\
    forall b, 0 <= b -> b + Z.of_nat n <= len d -> b + Z.of_nat n <= a \/ a + Z.of_nat n <= b -> sample n d' b = sample n d b.
Proof.
  intros Ha Hl Hv. unfold st_global. pose proof (le_bytes_length n v) as Hn. rewrite copy_to_Some by lia. eexists. split; [done|].
  set (d' := take _ d ++ _). assert (length d' = length d) as Hd' by (unfold d'; rewrite !length_app, length_take, length_drop, Hn; lia).
  split_and!; [done| |].
  - unfold sample. unfold d'. rewrite (copy_from_app (take (Z.to_nat a) d) (le_bytes n v)); [|rewrite length_take; lia|by rewrite Hn].
    cbn [mbind option_bind]. by rewrite le_value_bytes.
  - intros b Hb Hlb Hdis. unfold sample. rewrite !copy_from_slice by (rewrite ?Hd'; lia). rewrite !Nat2Z.id.
    assert (take n (drop (Z.to_nat b) d') = take n (drop (Z.to_nat b) d)) as ->; [|done]. unfold d'. destruct Hdis as [Hlt|Hge].
    + rewrite drop_app_le by (rewrite length_take; lia). rewrite take_app_le by (rewrite length_drop, length_take; lia).
      rewrite skipn_firstn_comm, take_take. f_equal. lia.
    + rewrite drop_app_ge by (rewrite length_take; lia). rewrite drop_app_ge by (rewrite length_take, Hn; lia). rewrite drop_drop.
      do 2 f_equal. rewrite length_take, Hn. lia.
Qed.

(** Three planes of [plane] bytes with [count] samples each at their beginning. *)
Section planes.
Context (n : nat) (count plane : Z).
Hypothesis (Hcount : 0 < count).
Hypothesis (Hplane : Z.of_nat n * count <= plane).
Hypothesis (Hn : (0 < n)%nat).

Definition at_plane (p i : Z) : Z := Z.of_nat n * i + p * plane.

(** What a thread does: the samples of pixel [i] in the three planes, and nothing else. *)
Definition writes_pixel (i : Z) (v : Z -> Z) (d d' : list Z) : Prop :=
  length d' = length d /\
  forall k p, 0 <= k < count -> 0 <= p <= 2 -> sample n d' (at_plane p k) = if k =? i then Some (v p) else sample n d (at_plane p k).

Lemma three_stores i v d :
  0 <= i < count -> 3 * plane <= len d -> (forall p, 0 <= p <= 2 -> in_range (8 * Z.of_nat n) (v p)) ->
  exists d', (d1 ← st_global n d (at_plane 0 i) (v 0); d2 ← st_global n d1 (at_plane 1 i) (v 1); st_global n d2 (at_plane 2 i) (v 2)) = Some d' /\
    writes_pixel i v d d'.
Proof.
  intros Hi Hd Hv. unfold writes_pixel, at_plane in *.
  assert (forall p k, 0 <= k < count -> 0 <= p <= 2 -> 0 <= Z.of_nat n * k + p * plane /\ Z.of_nat n * k + p * plane + Z.of_nat n <= 3 * plane) as Hin.
  { intros p k Hk Hp. assert (0 <= p * plane) by nia. assert (p = 0 \/ p = 1 \/ p = 2) as [->|[->| ->]] by lia; nia. }
  assert (forall p q k, 0 <= k < count -> 0 <= p <= 2 -> 0 <= q <= 2 -> (p <> q \/ k <> i) ->
    Z.of_nat n * k + q * plane + Z.of_nat n <= Z.of_nat n * i + p * plane \/ Z.of_nat n * i + p * plane + Z.of_nat n <= Z.of_nat n * k + q * plane) as Hdis.
  { intros p q k Hk Hp Hq Hne. destruct (decide (p = q)) as [->|Hpq].
    - destruct (decide (k < i)); [left; nia|right; nia].
    - destruct (decide (p < q)); [right|left].
      + assert (plane + p * plane <= q * plane) by nia. nia.
      + assert (plane + q * plane <= p * plane) by nia. nia. }
  destruct (sample_written n d (Z.of_nat n * i + 0 * plane) (v 0)) as (d1 & -> & Hl1 & Hs1 & Ho1); [apply Hin; lia|pose proof (Hin 0 i); lia|by apply Hv|].
  cbn [mbind option_bind].
  destruct (sample_written n d1 (Z.of_nat n * i + 1 * plane) (v 1)) as (d2 & -> & Hl2 & Hs2 & Ho2); [apply Hin; lia|pose proof (Hin 1 i); lia|by apply Hv|].
  cbn [mbind option_bind].
  destruct (sample_written n d2 (Z.of_nat n * i + 2 * plane) (v 2)) as (d3 & -> & Hl3 & Hs3 & Ho3); [apply Hin; lia|pose proof (Hin 2 i); lia|by apply Hv|].
  exists d3. split; [done|]. split; [congruence|]. intros k p Hk Hp. pose proof (Hin p k Hk Hp) as Hkp.
  destruct (Z.eqb_spec k i) as [->|Hne].
  - assert (p = 0 \/ p = 1 \/ p = 2) as [->|[->| ->]] by lia.
    + rewrite Ho3, Ho2 by (try apply Hdis; lia). done.
    + rewrite Ho3 by (try apply Hdis; lia). done.
    + done.
  - rewrite Ho3, Ho2, Ho1 by (try apply Hdis; lia). done.
Qed.
End planes.

(** ** What a launch writes *)

(** Threads of which each writes its own pixel and those beyond the picture nothing, in any order. *)
Lemma planes_written (run_thread : Z -> Z -> list Z -> option (list Z)) n count plane (value : Z -> Z -> Z) order d :
  (forall t d, count <= t < 2 ^ 32 -> 3 * plane <= len d -> run_thread (t / 256) (t mod 256) d = Some d) ->
  (forall t d, 0 <= t < count -> 3 * plane <= len d -> exists d', run_thread (t / 256) (t mod 256) d = Some d' /\ writes_pixel n count plane t (value t) d d') ->
  NoDup order -> (forall t, t ∈ order -> 0 <= t < 2 ^ 32) -> 3 * plane <= len d ->
  exists d', threads_loop run_thread order d = Some d' /\ length d' = length d /\
    forall k p, 0 <= k < count -> 0 <= p <= 2 ->
      sample n d' (at_plane n plane p k) = if decide (k ∈ order) then Some (value k p) else sample n d (at_plane n plane p k).
Proof.
  intros Hbeyond Hwrites Hnd. revert d. induction Hnd as [|t order Hnew _ IH]; intros d Hr Hd; [by exists d|].
  assert (exists d1, run_thread (t / 256) (t mod 256) d = Some d1 /\ length d1 = length d /\ forall k p, 0 <= k < count -> 0 <= p <= 2 ->
    sample n d1 (at_plane n plane p k) = if k =? t then Some (value k p) else sample n d (at_plane n plane p k)) as (d1 & H1 & Hl1 & Hs1).
  { pose proof (Hr t ltac:(by left)) as Ht. destruct (decide (t < count)).
    - destruct (Hwrites t d ltac:(lia) Hd) as (d1 & H1 & Hl & Hw1). exists d1. split_and!; [done..|]. intros k p Hk Hp.
      rewrite Hw1 by done. destruct (Z.eqb_spec k t) as [->|]; done.
    - exists d. split_and!; [apply Hbeyond; lia|done|]. intros k p Hk Hp. destruct (Z.eqb_spec k t); [lia|done]. }
  destruct (IH d1) as (d' & H' & Hl' & Hs'); [intros; apply Hr; by right|by rewrite Hl1|]. exists d'. split_and!; [|congruence|].
  - cbn [threads_loop]. rewrite H1. exact H'.
  - intros k p Hk Hp. rewrite Hs' by done. rewrite Hs1 by done. destruct (Z.eqb_spec k t) as [->|Hne].
    + rewrite (decide_True (P := t ∈ t :: order)) by (by left). by destruct (decide (t ∈ order)).
    + destruct (decide (k ∈ order)); [by rewrite decide_True by (by right)|]. rewrite decide_False; [done|]. by intros [?|?]%elem_of_cons.
Qed.


(** The channel of BGRA that goes to plane [p]: green, blue, red. *)
Definition channel (p : Z) : Z := if p =? 0 then 1 else if p =? 1 then 0 else 2.

(** The sample the encoder expects for a byte, and its bytes. *)
Definition reference (ten_bit : bool) (v : Z) : Z := if ten_bit then expand_to_msb_aligned_10_bit v else v.
Definition sample_bytes (ten_bit : bool) : nat := if ten_bit then 2 else 1.

Lemma sample10_exact v : is_byte v -> sample10 v = expand_to_msb_aligned_10_bit v.
Proof.
  intros Hv. apply Z.eqb_eq. revert Hv. apply (byte_forall (fun v => sample10 v =? expand_to_msb_aligned_10_bit v)). by vm_compute.
Qed.

Lemma reference_range ten_bit v : is_byte v -> in_range (8 * Z.of_nat (sample_bytes ten_bit)) (reference ten_bit v).
Proof. intros Hv. destruct ten_bit; [|done]. cbn [reference sample_bytes]. unfold expand_to_msb_aligned_10_bit. by apply wrap_range. Qed.

Section launch.
Context (source : list Z) (width height pitch : Z) (ten_bit : bool).
Let n : nat := sample_bytes ten_bit.
Hypothesis (Hw : 0 < width) (Hh : 0 < height) (Hpixels : width * height < 2 ^ 31) (Hpitch : Z.of_nat n * width <= pitch < 2 ^ 31).
Hypothesis (Hplane : pitch * height < 2 ^ 60).
Hypothesis (Hbytes : bytes source) (Hsource : 4 * (width * height) <= len source).

(** The sample of plane [p] that pixel [i] becomes. *)
Definition becomes (i p : Z) : Z := reference ten_bit (nth (Z.to_nat (4 * i + channel p)) source 0).

Lemma source_byte a : 0 <= a < len source -> load source a = Some (nth (Z.to_nat a) source 0) /\ is_byte (nth (Z.to_nat a) source 0).
Proof.
  intros Ha. destruct (load_Some source a Ha) as [v Hv]. pose proof (load_bytes _ _ _ Hbytes Hv) as Hb.
  destruct (load_inv _ _ _ Hv) as [_ Hl]. apply (nth_lookup_Some _ _ 0) in Hl. by rewrite Hl.
Qed.

Lemma becomes_range i p : 0 <= i < width * height -> 0 <= p <= 2 -> in_range (8 * Z.of_nat n) (becomes i p).
Proof.
  intros Hi Hp. apply reference_range, source_byte. unfold channel. assert (p = 0 \/ p = 1 \/ p = 2) as [->|[->| ->]] by lia; cbn; lia.
Qed.

(** A thread of the launch, by its number. *)
Definition thread (t : Z) (d : list Z) : option (list Z) :=
  (if ten_bit then bgra8_to_gbr10 else bgra8_to_gbr8) source width height pitch (t / 256) 256 (t mod 256) d.

(** Its stores, in bytes of the planes. *)
Lemma thread_stores t d :
  0 <= t < 2 ^ 32 -> 3 * (pitch * height) <= len d ->
  thread t d =
    if width * height <=? t then Some d
    else d1 ← st_global n d (at_plane n (pitch * height) 0 t) (becomes t 0);
      d2 ← st_global n d1 (at_plane n (pitch * height) 1 t) (becomes t 1);
      st_global n d2 (at_plane n (pitch * height) 2 t) (becomes t 2).
Proof using Hw Hh Hpixels Hpitch Hplane Hbytes Hsource.
  intros Ht Hd. assert (t / 256 * 256 + t mod 256 = t) as Ht' by (rewrite Z.mul_comm; symmetry; apply Z.div_mod; lia).
  assert (width * height <= t \/ forall c, 0 <= c <= 2 -> load source (t * 4 + c) = Some (nth (Z.to_nat (4 * t + c)) source 0) /\ is_byte (nth (Z.to_nat (4 * t + c)) source 0)) as Hl.
  { destruct (decide (width * height <= t)); [by left|right]. intros c Hc. rewrite (Z.mul_comm t 4). apply source_byte. lia. }
  pose proof Hpitch as Hp. clear Hpitch. unfold thread, becomes, at_plane. destruct ten_bit; unfold bgra8_to_gbr10, bgra8_to_gbr8, n in *; clear n;
    rewrite Ht', (wrap_small 32 t), (wrap_small 32 (width * height)), (wrap_small 64 (pitch * height)) by (unfold in_range; nia).
  all: destruct (Z.leb_spec (width * height) t); [done|]; destruct Hl as [|Hl]; [lia|].
  all: pose proof (Hl 0 ltac:(lia)) as [H0 B0]; pose proof (Hl 1 ltac:(lia)) as [H1 B1]; pose proof (Hl 2 ltac:(lia)) as [H2 B2]; rewrite Z.add_0_r in H0.
  all: rewrite H0, H1, H2; cbn [mbind option_bind reference channel Z.eqb sample_bytes]; rewrite ?sample10_exact by done.
  all: assert (forall k, 0 <= k <= 2 * t -> u64 (k + pitch * height) = k + 1 * (pitch * height) /\ u64 (k + 1 * (pitch * height) + pitch * height) = k + 2 * (pitch * height)) as Ha
    by (intros k Hk; rewrite !wrap_small by (unfold in_range; nia); split; lia).
  - destruct (Ha (t * 2) ltac:(lia)) as [-> ->]. rewrite (Z.mul_comm t 2). by replace (Z.of_nat 2 * t + 0 * (pitch * height)) with (2 * t) by lia.
  - destruct (Ha t ltac:(lia)) as [-> ->]. replace (Z.of_nat 1 * t) with t by lia. by replace (t + 0 * (pitch * height)) with t by lia.
Qed.

Lemma thread_beyond t d : width * height <= t < 2 ^ 32 -> 3 * (pitch * height) <= len d -> thread t d = Some d.
Proof using Hw Hh Hpixels Hpitch Hplane Hbytes Hsource.
  intros Ht Hd. rewrite thread_stores by nia. by rewrite (proj2 (Z.leb_le _ _) (proj1 Ht)).
Qed.

Lemma thread_writes t d :
  0 <= t < width * height -> 3 * (pitch * height) <= len d ->
  exists d', thread t d = Some d' /\ writes_pixel n (width * height) (pitch * height) t (becomes t) d d'.
Proof using Hw Hh Hpixels Hpitch Hplane Hbytes Hsource.
  intros Ht Hd. rewrite thread_stores by lia. rewrite (proj2 (Z.leb_gt _ _) (proj2 Ht)).
  apply three_stores; [nia|nia|unfold n; destruct ten_bit; cbn; lia|done|done|]. intros p Hp. by apply becomes_range.
Qed.

(** The threads in any order: those of a pixel write it, once, and the others nothing. *)
Lemma threads_write order d :
  NoDup order -> (forall t, t ∈ order -> 0 <= t < 2 ^ 32) -> 3 * (pitch * height) <= len d ->
  exists d', threads_loop (fun block tid => (if ten_bit then bgra8_to_gbr10 else bgra8_to_gbr8) source width height pitch block 256 tid) order d = Some d' /\
    length d' = length d /\
    forall k p, 0 <= k < width * height -> 0 <= p <= 2 ->
      sample n d' (at_plane n (pitch * height) p k) =
      if decide (k ∈ order) then Some (becomes k p) else sample n d (at_plane n (pitch * height) p k).
Proof using Hw Hh Hpixels Hpitch Hplane Hbytes Hsource.
  apply planes_written; [intros; by apply thread_beyond|intros; by apply thread_writes].
Qed.
End launch.

(** The sample of plane [p] for the pixel in column [x] of row [y], in a surface of that pitch. *)
Definition surface_at (ten_bit : bool) (height pitch p x y : Z) : Z :=
  p * (pitch * height) + y * pitch + Z.of_nat (sample_bytes ten_bit) * x.

(** C35: The conversion.  For every picture whose pixels fit 31 bits, every pitch of at least
    a row and every order in which the device runs the threads, a launch stays within source
    and destination and ends; the sample number [y * width + x] of plane [p] is then the
    encoder's sample for the green, blue or red byte of the pixel at [(x, y)] ([p = 0, 1, 2]):
    the byte itself, or its reference expansion to ten bits; in a surface whose pitch is
    exactly a row, that sample is the one the encoder reads at [(x, y)]. *)
Theorem identity_conversion (order : Z -> list Z) source width height pitch ten_bit destination :
  (forall n, order n ≡ₚ seqZ 0 n) -> bytes source ->
  0 < width -> 0 < height -> width * height < 2 ^ 31 -> Z.of_nat (sample_bytes ten_bit) * width <= pitch < 2 ^ 31 -> pitch * height < 2 ^ 60 ->
  4 * (width * height) <= len source -> 3 * (pitch * height) <= len destination ->
  exists d, launch_conversion order source width height pitch ten_bit destination = Some d /\ length d = length destination /\
    forall x y p, 0 <= x < width -> 0 <= y < height -> 0 <= p <= 2 ->
      exists v, load source (4 * (y * width + x) + channel p) = Some v /\
        sample (sample_bytes ten_bit) d (Z.of_nat (sample_bytes ten_bit) * (y * width + x) + p * (pitch * height)) = Some (reference ten_bit v) /\
        (pitch = Z.of_nat (sample_bytes ten_bit) * width ->
         sample (sample_bytes ten_bit) d (surface_at ten_bit height pitch p x y) = Some (reference ten_bit v)).
Proof.
  intros Ho Hb Hw Hh Hp Hpi Hpl Hs Hd. unfold launch_conversion.
  assert (0 < width * height) by nia. rewrite (wrap_small 64 (width * height)), (wrap_small 64 (width * height + (256 - 1))) by (unfold in_range; lia).
  set (blocks := (width * height + (256 - 1)) / 256). assert (width * height <= blocks * 256 < width * height + 256) as Hbl
    by (subst blocks; pose proof (Z.div_mod (width * height + (256 - 1)) 256); pose proof (Z.mod_pos_bound (width * height + (256 - 1)) 256); lia).
  rewrite (wrap_small 32 blocks) by (unfold in_range; lia).
  assert (forall t, t ∈ order (blocks * 256) <-> 0 <= t < blocks * 256) as Hin by (intros t; rewrite Ho, elem_of_seqZ; lia).
  destruct (threads_write source width height pitch ten_bit Hw Hh Hp Hpi Hpl Hb Hs (order (blocks * 256)) destination) as (d & Hl & Hlen & Hsam).
  { rewrite Ho. apply NoDup_seqZ. } { intros t Ht%Hin. lia. } { done. }
  exists d. split_and!; [done..|]. intros x y p Hx Hy Hpr.
  assert (0 <= y * width + x < width * height) as Hk by nia.
  exists (nth (Z.to_nat (4 * (y * width + x) + channel p)) source 0).
  assert (sample (sample_bytes ten_bit) d (Z.of_nat (sample_bytes ten_bit) * (y * width + x) + p * (pitch * height)) =
    Some (becomes source ten_bit (y * width + x) p)) as Hv.
  { etransitivity; [apply (Hsam (y * width + x) p Hk Hpr)|]. rewrite decide_True; [done|]. apply Hin. lia. }
  split_and!; [|exact Hv|].
  - apply source_byte; [done|]. unfold channel. assert (p = 0 \/ p = 1 \/ p = 2) as [->|[->| ->]] by lia; cbn; lia.
  - intros ->. rewrite <- Hv at 1. f_equal. unfold surface_at. nia.
Qed.

Lemma identity_conversion_witness :
  let order n := rev (seqZ 0 n) in
  exists d, launch_conversion order [0; 128; 255; 255; 1; 2; 3; 255] 1 2 2 true (repeat 0 12) = Some d /\
    exists v, load [0; 128; 255; 255; 1; 2; 3; 255] (4 * (1 * 1 + 0) + channel 2) = Some v /\ v = 3 /\
      sample 2 d (surface_at true 2 2 2 0 1) = Some (reference true v).
Proof.
  intros order.
  destruct (identity_conversion order [0; 128; 255; 255; 1; 2; 3; 255] 1 2 2 true (repeat 0 12)) as (d & Hd & _ & Hs);
    [intros n; unfold order; rewrite <- (Permutation_rev (seqZ 0 n)); reflexivity
    |repeat constructor; lia|lia|lia|cbn; lia|cbn; lia|cbn; lia|cbn; lia|cbn; lia|].
  exists d. split; [exact Hd|]. destruct (Hs 0 1 2) as (v & Hv & _ & Hr); [lia..|]. exists v. split_and!; [exact Hv| |].
  - injection Hv as <-. reflexivity.
  - apply Hr. reflexivity.
Defined.

(** Where the pitch is more than a row, rows are not where the encoder reads them: the
    kernels never step by the pitch from row to row. *)
Lemma padded_rows_skewed :
  exists d, launch_conversion (seqZ 0) [0; 128; 255; 255; 1; 2; 3; 255] 1 2 16 false (repeat 7 96) = Some d /\
    sample 1 d (surface_at false 2 16 2 0 0) = Some 255 /\ sample 1 d (surface_at false 2 16 2 0 1) = Some 7.
Proof. eexists. split; [vm_compute; reflexivity|by vm_compute]. Qed.
