(* ===== verification/VideoThreads.v ===== *)
(** * VideoThreads: the two-slot pipeline of probes/video/plank-probe-video-pipeline.cpp

    The capture loop of [main], the thread that drains the encoder and [drain_slot], as a
    step relation over what they share: the queue of submitted slots, the flags of the slots,
    the end and error flags, the two files.  One step is one critical section, one
    notification, one wait that goes on or falls asleep, or one call of the capture library,
    the encoder or a file, which succeeds or fails as the step's answer says. *)

From stdpp Require Import gmap.
From S2P Require Import Prelude.
From S2P Require Import BenchX264.
From S2P Require Import VideoPipeline.
#[local] Open Scope Z_scope.

Import Arguments.

(** ** The program *)

Module Threads.

(** [encode_slots.size()], and the slot of a frame. *)
Definition kSlots : nat := 2.
Definition slot (frame : nat) : nat := frame mod kSlots.
Definition frame_id (frame : nat) : Z := Z.of_nat frame + 1.

(** Where [drain_slot] is; the number is the time stamp of the locked output. *)
Inductive drain_at := DLock | DReference (f : Z) | DWrite (f : Z) | DUnlock (f : Z) | DUnmap (f : Z).

(** Where the draining thread is: its wait, the drain of a slot, the release of the slot,
    the notification; or the handler of an exception. *)
Inductive worker_at := WCheck | WSleep | WDrain (slot : nat) (at_ : drain_at) | WRelease (slot : nat) | WNotify | WCatch | WEnd.

(** Where the capture loop is with frame [i]; after it, the end of the input and the join;
    and the handler of an exception, with the number of frames handed over. *)
Inductive main_at :=
  | MWait (i : nat) | MSleep (i : nat) | MRecover (i : nat) | MCapture (i : nat) | MConvert (i : nat) | MMap (i : nat) | MEncode (i : nat)
  | MDrain (i : nat) (at_ : drain_at) | MPush (i : nat) | MNotify (i : nat)
  | MFinish | MFinishNotify | MJoin | MEos | MEnd
  | MCatch (i : nat) | MCatchNotify (i : nat) | MCatchJoin (i : nat) | MThrown (i : nat).

(** The files, as the time stamps of the pictures in them, and their counters. *)
Record files := mkFiles { reference_file : list Z; bitstream_file : list Z; frames_written : Z; frames_dropped : Z; encoded_bytes : Z }.

(** The two encoder slots: the picture submitted last, and what the destructor looks at. *)
Record slots := mkSlots { submitted : nat -> option Z; mapped : nat -> bool; locked : nat -> bool }.

(** What both threads share; [popped] counts the slots taken from the queue. *)
Record shared := mkShared { pending : list nat; popped : nat; in_use : nat -> bool; input_done : bool; worker_error : bool }.

(** The capture loop's own counters. *)
Record counters := mkCounters { new_frames : Z; invalidation_called : bool; forced_idr : bool }.

Record state := mkState { wk : worker_at; mn : main_at; sh : shared; sl : slots; fl : files; ct : counters }.

(** A call's outcome: whether it succeeds, whether the geometry is unchanged and the frame
    new (a capture), the size of the output (a lock). *)
Record answer := mkAnswer { ok : bool; same_geometry : bool; is_new : bool; size : Z }.

Definition set_wk (w : worker_at) (s : state) : state := mkState w (mn s) (sh s) (sl s) (fl s) (ct s).
Definition set_mn (m : main_at) (s : state) : state := mkState (wk s) m (sh s) (sl s) (fl s) (ct s).
Definition set_sh (h : shared) (s : state) : state := mkState (wk s) (mn s) h (sl s) (fl s) (ct s).
Definition set_sl (x : slots) (s : state) : state := mkState (wk s) (mn s) (sh s) x (fl s) (ct s).
Definition set_fl (x : files) (s : state) : state := mkState (wk s) (mn s) (sh s) (sl s) x (ct s).
Definition set_ct (x : counters) (s : state) : state := mkState (wk s) (mn s) (sh s) (sl s) (fl s) x.

Definition wake_worker (w : worker_at) : worker_at := match w with WSleep => WCheck | w => w end.
Definition wake_main (m : main_at) : main_at := match m with MSleep i => MWait i | m => m end.

Section program.
Context (o : Options).

(** [simulate_loss_frame != 0 && lock.outputTimeStamp == simulate_loss_frame]. *)
Definition lost (f : Z) : bool := negb (simulate_loss_frame o =? 0) && (f =? simulate_loss_frame o).
Definition keeps_reference : bool := negb (String.eqb (reference_bitstream_path o) "").

(** How a call of [drain_slot] goes on. *)
Inductive drained := Next (at_ : drain_at) | Returned | Thrown.

Definition drain_step (slot : nat) (at_ : drain_at) (a : answer) (s : state) : drained * state :=
  match at_ with
  | DLock =>
      match submitted (sl s) slot with
      | Some f =>
          if ok a then (Next (DReference f), set_sl (mkSlots (submitted (sl s)) (mapped (sl s)) (set_slot (locked (sl s)) slot true)) s)
          else (Thrown, s)
      | None => (Thrown, s)
      end
  | DReference f =>
      if keeps_reference then
        if ok a then
          (Next (DWrite f), set_fl (mkFiles (reference_file (fl s) ++ [f]) (bitstream_file (fl s)) (frames_written (fl s)) (frames_dropped (fl s)) (encoded_bytes (fl s))) s)
        else (Thrown, s)
      else (Next (DWrite f), s)
  | DWrite f =>
      if lost f then
        (Next (DUnlock f), set_fl (mkFiles (reference_file (fl s)) (bitstream_file (fl s)) (frames_written (fl s)) (u32 (frames_dropped (fl s) + 1)) (encoded_bytes (fl s))) s)
      else if ok a then
        (Next (DUnlock f), set_fl (mkFiles (reference_file (fl s)) (bitstream_file (fl s) ++ [f]) (u32 (frames_written (fl s) + 1)) (frames_dropped (fl s)) (u64 (encoded_bytes (fl s) + size a))) s)
      else (Thrown, s)
  | DUnlock f =>
      if ok a then (Next (DUnmap f), set_sl (mkSlots (submitted (sl s)) (mapped (sl s)) (set_slot (locked (sl s)) slot false)) s)
      else (Thrown, s)
  | DUnmap f =>
      if ok a then (Returned, set_sl (mkSlots (submitted (sl s)) (set_slot (mapped (sl s)) slot false) (locked (sl s))) s)
      else (Thrown, s)
  end.

(** The draining thread. *)
Definition worker_step (a : answer) (s : state) : option state :=
  match wk s with
  | WCheck =>
      match pending (sh s) with
      | slot :: pending =>
          Some (set_wk (WDrain slot DLock)
                 (set_sh (mkShared pending (S (popped (sh s))) (in_use (sh s)) (input_done (sh s)) (worker_error (sh s))) s))
      | [] => if input_done (sh s) then Some (set_wk WEnd s) else Some (set_wk WSleep s)
      end
  | WSleep => None
  | WDrain slot at_ =>
      match drain_step slot at_ a s with
      | (Next at_, s) => Some (set_wk (WDrain slot at_) s)
      | (Returned, s) => Some (set_wk (WRelease slot) s)
      | (Thrown, s) => Some (set_wk WCatch s)
      end
  | WRelease slot =>
      Some (set_wk WNotify
             (set_sh (mkShared (pending (sh s)) (popped (sh s)) (set_slot (in_use (sh s)) slot false) (input_done (sh s)) (worker_error (sh s))) s))
  | WNotify => Some (set_wk WCheck (set_mn (wake_main (mn s)) s))
  | WCatch =>
      Some (set_wk WEnd (set_mn (wake_main (mn s))
             (set_sh (mkShared (pending (sh s)) (popped (sh s)) (in_use (sh s)) true true) s)))
  | WEnd => None
  end.

Definition threaded : bool := queue_depth o =? 1.

(** [frame_id == simulate_loss_frame + invalidate_delay_frames], when that is asked for. *)
Definition invalidates (i : nat) : bool :=
  recovery o && (frame_id i =? u32 (simulate_loss_frame o + invalidate_delay_frames o)).

(** An exception: the handler ends the input and joins the thread when there is one. *)
Definition throw (i : nat) (s : state) : state := set_mn (if threaded then MCatch i else MThrown i) s.

(** The next turn of the loop, or its end. *)
Definition next (i : nat) : main_at :=
  if Z.of_nat (S i) <? frame_count o then MWait (S i) else if threaded then MFinish else MEos.

Definition finish_input (s : state) : state :=
  set_sh (mkShared (pending (sh s)) (popped (sh s)) (in_use (sh s)) true (worker_error (sh s))) s.

(** The capture loop. *)
Definition main_step (a : answer) (s : state) : option state :=
  match mn s with
  | MWait i =>
      if negb threaded then Some (set_mn (MRecover i) s)
      else if worker_error (sh s) then Some (throw i s)
      else if in_use (sh s) (slot i) then Some (set_mn (MSleep i) s)
      else Some (set_mn (MRecover i) s)
  | MSleep _ => None
  | MRecover i =>
      if invalidates i then
        if ok a then Some (set_mn (MCapture i) (set_ct (mkCounters (new_frames (ct s)) true (forced_idr (ct s))) s))
        else Some (throw i s)
      else Some (set_mn (MCapture i) s)
  | MCapture i =>
      if ok a && same_geometry a then
        Some (set_mn (MConvert i)
               (set_ct (mkCounters (u32 (new_frames (ct s) + (if is_new a then 1 else 0))) (invalidation_called (ct s)) (forced_idr (ct s))) s))
      else Some (throw i s)
  | MConvert i => if ok a then Some (set_mn (MMap i) s) else Some (throw i s)
  | MMap i =>
      if ok a then Some (set_mn (MEncode i) (set_sl (mkSlots (submitted (sl s)) (set_slot (mapped (sl s)) (slot i) true) (locked (sl s))) s))
      else Some (throw i s)
  | MEncode i =>
      let s := if frame_id i =? force_idr_frame o then set_ct (mkCounters (new_frames (ct s)) (invalidation_called (ct s)) true) s else s in
      if ok a then
        Some (set_mn (if threaded then MPush i else MDrain i DLock)
               (set_sl (mkSlots (set_slot (submitted (sl s)) (slot i) (Some (frame_id i))) (mapped (sl s)) (locked (sl s))) s))
      else Some (throw i s)
  | MDrain i at_ =>
      match drain_step (slot i) at_ a s with
      | (Next at_, s) => Some (set_mn (MDrain i at_) s)
      | (Returned, s) => Some (set_mn (next i) s)
      | (Thrown, s) => Some (throw i s)
      end
  | MPush i =>
      Some (set_mn (MNotify i)
             (set_sh (mkShared (pending (sh s) ++ [slot i]) (popped (sh s)) (set_slot (in_use (sh s)) (slot i) true) (input_done (sh s)) (worker_error (sh s))) s))
  | MNotify i => Some (set_mn (next i) (set_wk (wake_worker (wk s)) s))
  | MFinish => Some (set_mn MFinishNotify (finish_input s))
  | MFinishNotify => Some (set_mn MJoin (set_wk (wake_worker (wk s)) s))
  | MJoin =>
      match wk s with
      | WEnd => Some (set_mn (if worker_error (sh s) then MThrown (Z.to_nat (frame_count o)) else MEos) s)
      | _ => None
      end
  | MEos => Some (set_mn (if ok a then MEnd else MThrown (Z.to_nat (frame_count o))) s)
  | MCatch i => Some (set_mn (MCatchNotify i) (finish_input s))
  | MCatchNotify i => Some (set_mn (MCatchJoin i) (set_wk (wake_worker (wk s)) s))
  | MCatchJoin i => match wk s with WEnd => Some (set_mn (MThrown i) s) | _ => None end
  | MEnd | MThrown _ => None
  end.

(** The thread only exists in the threaded mode. *)
Definition initial : state :=
  mkState (if threaded then WCheck else WEnd) (MWait 0) (mkShared [] 0 (fun _ => false) false false)
    (mkSlots (fun _ => None) (fun _ => false) (fun _ => false)) (mkFiles [] [] 0 0 0) (mkCounters 0 false false).

Inductive step : state -> state -> Prop :=
  | step_worker a s s' : worker_step a s = Some s' -> step s s'
  | step_main a s s' : main_step a s = Some s' -> step s s'.

(** Steps whose calls succeed. *)
Inductive good_step : state -> state -> Prop :=
  | good_worker a s s' : ok a = true -> worker_step a s = Some s' -> good_step s s'
  | good_main a s s' : ok a = true -> same_geometry a = true -> main_step a s = Some s' -> good_step s s'.

(** The gates on the injected loss, the invalidation and the forced IDR. *)
Definition bitstream_loss_passed (s : state) : bool := (simulate_loss_frame o =? 0) || (frames_dropped (fl s) =? 1).
Definition reference_invalidation_passed (s : state) : bool := negb (recovery o) || invalidation_called (ct s).
Definition forced_idr_passed (s : state) : bool := (force_idr_frame o =? 0) || forced_idr (ct s).
Definition requested_gates_passed (s : state) : bool :=
  bitstream_loss_passed s && reference_invalidation_passed s && forced_idr_passed s.
End program.

(** The releases of the destructor, slot by slot: what is still locked or mapped. *)
Inductive release := Unlock (slot : nat) | Unmap (slot : nat).
Definition destroy_slots (s : state) : list release :=
  concat (map (fun i => (if locked (sl s) i then [Unlock i] else []) ++ (if mapped (sl s) i then [Unmap i] else [])) (seq 0 kSlots)).
End Threads.

Import Threads.

(** ** Runs of a step relation *)

Section runs.
Context {A : Type} (R : A -> A -> Prop) (I : A -> Prop) (HI : forall x y, I x -> R x y -> I y).

Lemma nsteps_invariant k x y : I x -> nsteps R k x y -> I y.
Proof using HI. intros Hx Hs. revert Hx. induction Hs; eauto. Qed.

Lemma nsteps_measure (m : A -> nat) k x y :
  (forall x y, I x -> R x y -> (m y < m x)%nat) -> I x -> nsteps R k x y -> (k + m y <= m x)%nat.
Proof using HI.
  intros Hm Hx Hs. revert Hx. induction Hs as [|k x y z Hxy _ IH]; intros Hx; [lia|].
  specialize (Hm x y Hx Hxy). specialize (IH (HI _ _ Hx Hxy)). lia.
Qed.
End runs.

Lemma nsteps_mono {A} (R R' : A -> A -> Prop) k x y : (forall x y, R x y -> R' x y) -> nsteps R k x y -> nsteps R' k x y.
Proof. intros HR Hs. induction Hs; econstructor; eauto. Qed.

(** ** What the options promise *)

Record ready (o : Options) : Prop := {
  rd_frames : 1 <= frame_count o <= 36000;
  rd_depth : queue_depth o = 0 \/ queue_depth o = 1;
  rd_loss : 0 <= simulate_loss_frame o <= frame_count o;
  rd_idr : 0 <= force_idr_frame o <= frame_count o;
  rd_delay : 1 <= invalidate_delay_frames o <= 36000;
  rd_recovery : recovery o = true -> simulate_loss_frame o + invalidate_delay_frames o <= frame_count o;
  rd_threaded : recovery o = true -> queue_depth o = 1 -> 2 <= invalidate_delay_frames o }.

(** What every option keeps. *)
Definition bounded (o : Options) : Prop :=
  1 <= frame_count o <= 36000 /\ (queue_depth o = 0 \/ queue_depth o = 1) /\ 0 <= simulate_loss_frame o /\
  0 <= force_idr_frame o /\ 1 <= invalidate_delay_frames o <= 36000.

Lemma parse_count_range value z v : parse_count value z = Some v -> 0 <= v <= 36000 /\ (z = false -> 1 <= v).
Proof.
  unfold parse_count. destruct (stoul value) as [u|] eqn:E; [|done]. cbn [mbind option_bind]. apply stoul_nonneg in E.
  destruct (_ || _) eqn:Eb; [done|]. apply orb_false_iff in Eb as [E1 E2]. apply Z.ltb_ge in E2. intros [= <-].
  rewrite wrap_small by (unfold in_range; lia). split; [lia|]. intros ->. cbn in E1. apply Z.eqb_neq in E1. lia.
Qed.

Lemma parse_flag_range value v : parse_flag value = Some v -> v = 0 \/ v = 1.
Proof. unfold parse_flag. destruct (String.eqb value "0"); [intros [= <-]; by left|]. destruct (String.eqb value "1"); [intros [= <-]; by right|done]. Qed.

Lemma valued_bounded key value o o' : bounded o -> valued key value o = Some (Some o') -> bounded o'.
Proof.
  intros (H1 & H2 & H3 & H4 & H5) Hv. unfold valued in Hv.
  repeat match type of Hv with (if ?b then _ else _) = _ => destruct b end; try done.
  all: match type of Hv with
    | Some (?p ≫= _) = _ => destruct p as [v|] eqn:Ep; cbn [mbind option_bind] in Hv; [|done]
    | _ => idtac
    end; injection Hv as <-.
  all: try apply parse_count_range in Ep as [? Hz]; try apply parse_flag_range in Ep; try specialize (Hz eq_refl).
  all: unfold bounded; cbn [frame_count queue_depth simulate_loss_frame force_idr_frame invalidate_delay_frames
    set_codec set_bitrate set_vbv_bits set_queue_depth set_intra_refresh_count set_intra_refresh_period set_single_slice_intra_refresh
    set_frame_count set_frame_rate set_simulate_loss_frame set_invalidate_delay_frames set_force_idr_frame set_reference_frames set_output_name
    set_bitstream_path set_reference_bitstream_path set_split_mode set_tuning]; split_and!; done || lia.
Qed.

(** A property of the options that every argument keeps. *)
Lemma option_loop_keeps (P : Options -> Prop) arguments o o' :
  (forall key value o o', P o -> valued key value o = Some (Some o') -> P o') ->
  (forall o, P o -> P (set_require_changing_source true o) /\ P (set_require_robustness true o) /\ P (set_unpaced true o) /\
    P (set_reference_invalidation_enabled false o)) ->
  P o -> option_loop arguments o = Run o' -> P o'.
Proof.
  intros Hv Hf. remember (length arguments) as m eqn:Em. revert arguments o Em. induction m as [m IH] using lt_wf_ind.
  intros [|argument rest] o Em Hb; [by intros [= <-]|].
  cbn [option_loop length] in *. destruct (String.eqb argument "--self-test"); [done|].
  do 4 (match goal with |- (if ?b then _ else _) = _ -> _ => destruct b end; [apply (IH (length rest) ltac:(lia) rest); [done|by apply Hf]|]).
  destruct rest as [|value rest]; [done|]. destruct (valued argument value o) as [[o1|]|] eqn:E; [|done..]. cbn [length] in Em.
  apply (IH (length rest) ltac:(lia) rest); [done|by eapply Hv].
Qed.

Definition same_run (a b : Options) : Prop :=
  frame_count a = frame_count b /\ queue_depth a = queue_depth b /\ simulate_loss_frame a = simulate_loss_frame b /\
  force_idr_frame a = force_idr_frame b /\ invalidate_delay_frames a = invalidate_delay_frames b /\
  reference_invalidation_enabled a = reference_invalidation_enabled b.

Lemma parse_options_ready arguments o : parse_options arguments = Run o -> ready o.
Proof.
  unfold parse_options. destruct (option_loop arguments default_options) as [o0| |] eqn:E; [|done..].
  apply (option_loop_keeps bounded) in E; [|exact valued_bounded|done|unfold bounded; cbn; lia].
  destruct (settle o0) as [o1|] eqn:Es; [|done]. intros [= <-]. unfold settle in Es. destruct (240 <? frame_rate o0); [done|].
  set (oa := if intra_refresh_period o0 <? 0 then _ else o0) in Es. assert (same_run oa o0) as Ha by (subst oa; unfold same_run; destruct (intra_refresh_period o0 <? 0); by split_and!). clearbody oa.
  set (ob := if intra_refresh_count oa <? 0 then _ else oa) in Es. assert (same_run ob o0) as Hb by (subst ob; destruct (intra_refresh_count oa <? 0); exact Ha). clearbody ob. clear Ha oa.
  destruct ((0 <? intra_refresh_count ob) && _); [done|].
  destruct ((frame_count ob <? simulate_loss_frame ob) || _ || _) eqn:Er; [done|]. destruct (8 <? reference_frames ob); [done|].
  set (oc := if recovery ob && (reference_frames ob =? 0) then _ else ob) in Es.
  assert (same_run oc ob) as Hc by (subst oc; unfold same_run; destruct (recovery ob && (reference_frames ob =? 0)); by split_and!). clearbody oc.
  destruct (recovery oc && (queue_depth oc =? 1) && (invalidate_delay_frames oc <? 2)) eqn:Ed; [done|].
  destruct (negb _ && _); [done|]. injection Es as <-.
  apply orb_false_iff in Er as [[R1%Z.ltb_ge R2%Z.ltb_ge]%orb_false_iff R3].
  destruct Hc as (C1 & C2 & C3 & C4 & C5 & C6). destruct Hb as (B1 & B2 & B3 & B4 & B5 & B6). destruct E as (H1 & H2 & H3 & H4 & H5).
  assert (recovery oc = recovery ob) as Hrc by (unfold recovery; congruence).
  rewrite Hrc in Ed. split; rewrite ?C1, ?C2, ?C3, ?C4, ?C5, ?Hrc in *; try lia.
  intros Hr. rewrite Hr in R3. cbn in R3. apply Z.ltb_ge in R3. rewrite wrap_small in R3 by (unfold in_range; lia). lia.
Qed.

(** ** Files and drains *)

Section files.
Context (o : Options).

(** The reference file holds the first [r] pictures, the other the first [d] but the lost one. *)
Definition files_at (r d : nat) (F : files) : Prop :=
  reference_file F = (if keeps_reference o then seqZ 1 (Z.of_nat r) else []) /\
  bitstream_file F = filter (fun f => lost o f = false) (seqZ 1 (Z.of_nat d)) /\
  frames_written F = len (bitstream_file F) /\ frames_dropped F = Z.of_nat d - len (bitstream_file F).

(** A drain of picture [p]. *)
Definition drain_ok (p : nat) (at_ : drain_at) (F : files) : Prop :=
  match at_ with
  | DLock => files_at (p - 1) (p - 1) F
  | DReference f => f = Z.of_nat p /\ files_at (p - 1) (p - 1) F
  | DWrite f => f = Z.of_nat p /\ files_at p (p - 1) F
  | DUnlock f | DUnmap f => f = Z.of_nat p /\ files_at p p F
  end.
Definition some_files (p : nat) (F : files) : Prop := exists r d, (p - 1 <= d <= r)%nat /\ (r <= p)%nat /\ files_at r d F.

Definition holding (at_ : drain_at) : bool := match at_ with DReference _ | DWrite _ | DUnlock _ => true | _ => false end.

Lemma files_some p F r d : files_at r d F -> (p - 1 <= d <= r)%nat -> (r <= p)%nat -> some_files p F.
Proof. by exists r, d. Qed.

Lemma drain_some p at_ F : drain_ok p at_ F -> some_files p F.
Proof. destruct at_; cbn; [intros H|intros [_ H]..]; eapply files_some; eauto; lia. Qed.

Lemma files_initial : files_at 0 0 (mkFiles [] [] 0 0 0).
Proof. unfold files_at. cbn. by destruct (keeps_reference o). Qed.

Lemma seqZ_snoc p : (0 < p)%nat -> seqZ 1 (Z.of_nat p) = seqZ 1 (Z.of_nat (p - 1)) ++ [Z.of_nat p].
Proof. intros Hp. destruct p as [|p]; [lia|]. rewrite seqZ_S. replace (S p - 1)%nat with p by lia. do 2 f_equal. lia. Qed.

Lemma kept_length d : 0 <= len (filter (fun f => lost o f = false) (seqZ 1 (Z.of_nat d))) <= Z.of_nat d.
Proof. pose proof (length_filter (fun f => lost o f = false) (seqZ 1 (Z.of_nat d))) as H. rewrite length_seqZ in H. lia. Qed.

Lemma files_step_reference p F : (0 < p)%nat -> files_at (p - 1) (p - 1) F ->
  files_at p (p - 1) (if keeps_reference o then mkFiles (reference_file F ++ [Z.of_nat p]) (bitstream_file F) (frames_written F) (frames_dropped F) (encoded_bytes F) else F).
Proof. intros Hp (Hr & Hb & Hw & Hd). unfold files_at. destruct (keeps_reference o) eqn:E; cbn; split_and!; try done. by rewrite Hr, <- seqZ_snoc. Qed.

Lemma files_step_write p F b : (0 < p)%nat -> Z.of_nat p <= 36000 -> files_at p (p - 1) F ->
  files_at p p (if lost o (Z.of_nat p)
    then mkFiles (reference_file F) (bitstream_file F) (frames_written F) (u32 (frames_dropped F + 1)) (encoded_bytes F)
    else mkFiles (reference_file F) (bitstream_file F ++ [Z.of_nat p]) (u32 (frames_written F + 1)) (frames_dropped F) b).
Proof.
  destruct F as [rf bf fw fd eb]. intros Hp Hmax (Hr & Hb & Hw & Hd). cbn in Hr, Hb, Hw, Hd. subst rf bf fw fd.
  pose proof (kept_length (p - 1)) as Hk. unfold files_at. rewrite (seqZ_snoc p), filter_app, filter_cons, filter_nil by done.
  destruct (lost o (Z.of_nat p)) eqn:E; cbn [reference_file bitstream_file frames_written frames_dropped].
  - rewrite decide_False by done. rewrite app_nil_r, wrap_small by (unfold in_range; lia). split_and!; try done. lia.
  - rewrite decide_True by done. rewrite length_app, wrap_small by (unfold in_range; lia). cbn [length]. split_and!; try done; lia.
Qed.

(** The lost picture is dropped once, when its turn has come. *)
Lemma kept_below d : Z.of_nat d < simulate_loss_frame o \/ simulate_loss_frame o = 0 ->
  len (filter (fun f => lost o f = false) (seqZ 1 (Z.of_nat d))) = Z.of_nat d.
Proof.
  intros H. induction d as [|d IH]; [done|]. rewrite seqZ_S, filter_app, filter_cons, filter_nil, length_app.
  assert (lost o (1 + Z.of_nat d) = false) as E by (unfold lost; destruct (Z.eqb_spec (simulate_loss_frame o) 0); [done|]; cbn; apply Z.eqb_neq; lia).
  rewrite decide_True by done. rewrite Nat2Z.inj_add, IH by lia. cbn [length]. lia.
Qed.

Lemma kept_beyond d : 1 <= simulate_loss_frame o <= Z.of_nat d -> len (filter (fun f => lost o f = false) (seqZ 1 (Z.of_nat d))) = Z.of_nat d - 1.
Proof.
  induction d as [|d IH]; intros H; [lia|]. rewrite seqZ_S, filter_app, filter_cons, filter_nil, length_app.
  assert (lost o (1 + Z.of_nat d) = (1 + Z.of_nat d =? simulate_loss_frame o)) as El.
  { unfold lost. destruct (Z.eqb_spec (simulate_loss_frame o) 0); [lia|done]. }
  destruct (Z.eqb_spec (1 + Z.of_nat d) (simulate_loss_frame o)) as [E|E].
  - rewrite decide_False by (by rewrite El). rewrite Nat2Z.inj_add, kept_below by lia. cbn [length]. lia.
  - rewrite decide_True by done. rewrite Nat2Z.inj_add, IH by lia. cbn [length]. lia.
Qed.

Lemma dropped_once r d F : files_at r d F -> 1 <= simulate_loss_frame o <= Z.of_nat d -> frames_dropped F = 1.
Proof. intros (_ & Hb & _ & Hd) Hl. rewrite Hd, Hb, kept_beyond by done. lia. Qed.

(** A drain changes the files and the flags of its slot, and nothing else. *)
Lemma drain_step_spec j at_ a s p r s' :
  (0 < p)%nat -> Z.of_nat p <= 36000 -> submitted (sl s) j = Some (Z.of_nat p) -> drain_ok p at_ (fl s) -> drain_step o j at_ a s = (r, s') ->
  s' = set_fl (fl s') (set_sl (sl s') s) /\ submitted (sl s') = submitted (sl s) /\
  match r with
  | Next at' => drain_ok p at' (fl s') /\ mapped (sl s') = mapped (sl s) /\
      ((forall i, locked (sl s) i = (Nat.eqb i j && holding at_)%bool) -> forall i, locked (sl s') i = (Nat.eqb i j && holding at')%bool)
  | Returned => files_at p p (fl s') /\ mapped (sl s') = set_slot (mapped (sl s)) j false /\
      ((forall i, locked (sl s) i = (Nat.eqb i j && holding at_)%bool) -> forall i, locked (sl s') i = false)
  | Thrown => s' = s
  end.
Proof.
  intros Hp Hm Hs Hd Hst. destruct s as [w m h [su ma lo] F c]. cbn [sl fl submitted mapped locked] in *.
  destruct at_ as [|f|f|f|f]; cbn [drain_step drain_ok fl sl submitted mapped locked] in Hst, Hd; [|destruct Hd as [-> Hd]..].
  - rewrite Hs in Hst. destruct (ok a); injection Hst as <- <-; [|done]. cbn. split_and!; try done.
    intros Hl i. unfold set_slot. destruct (Nat.eqb i j) eqn:E; [done|]. by rewrite Hl, E.
  - pose proof (files_step_reference p F Hp Hd) as H. destruct (keeps_reference o); [destruct (ok a)|]; injection Hst as <- <-; done.
  - pose proof (fun b => files_step_write p F b Hp Hm Hd) as H. destruct (lost o (Z.of_nat p)); [|destruct (ok a)]; injection Hst as <- <-; cbn; split_and?; try done; first [exact (H 0)|apply H].
  - destruct (ok a); injection Hst as <- <-; [|done]. cbn. split_and!; try done.
    intros Hl i. unfold set_slot. destruct (Nat.eqb i j) eqn:E; [done|]. by rewrite Hl, E.
  - destruct (ok a); injection Hst as <- <-; [|done]. cbn. split_and!; try done. intros Hl i. by rewrite Hl, andb_false_r.
Qed.
End files.

(** ** The threaded pipeline's invariant *)

(** Pictures handed to the draining thread, and those whose slot it has released. *)
Definition pushed (n : nat) (m : main_at) : nat :=
  match m with
  | MWait i | MSleep i | MRecover i | MCapture i | MConvert i | MMap i | MEncode i | MDrain i _ | MPush i
  | MCatch i | MCatchNotify i | MCatchJoin i | MThrown i => i
  | MNotify i => S i
  | MFinish | MFinishNotify | MJoin | MEos | MEnd => n
  end.
Definition busy (s : state) : bool :=
  match wk s with WDrain _ _ | WRelease _ | WCatch => true | WEnd => worker_error (sh s) | _ => false end.
Definition released (s : state) : nat := popped (sh s) - (if busy s then 1 else 0).

(** The frame the loop is preparing, past its wait. *)
Definition preparing (m : main_at) : option nat :=
  match m with MRecover i | MCapture i | MConvert i | MMap i | MEncode i | MPush i => Some i | _ => None end.
(** The input has ended; a notification is still to come. *)
Definition ended (m : main_at) : bool :=
  match m with MFinishNotify | MJoin | MEos | MEnd | MCatchNotify _ | MCatchJoin _ | MThrown _ => true | _ => false end.
Definition waking_worker (m : main_at) : bool := match m with MNotify _ | MFinishNotify | MCatchNotify _ => true | _ => false end.
Definition waking_main (w : worker_at) : bool := match w with WNotify => true | _ => false end.
(** The handler of an exception, and everything after it. *)
Definition broken (m : main_at) : bool := match m with MCatch _ | MCatchNotify _ | MCatchJoin _ | MThrown _ => true | _ => false end.
Definition held (w : worker_at) (j : nat) : bool := match w with WDrain k at_ => Nat.eqb j k && holding at_ | _ => false end.

Definition worker_ok (o : Options) (s : state) : Prop :=
  let p := popped (sh s) in
  match wk s with
  | WCheck | WSleep | WNotify => files_at o p p (fl s)
  | WDrain j at_ => (0 < p)%nat /\ j = slot (p - 1) /\ drain_ok o p at_ (fl s)
  | WRelease j => (0 < p)%nat /\ j = slot (p - 1) /\ files_at o p p (fl s)
  | WCatch => (0 < p)%nat /\ some_files o p (fl s)
  | WEnd =>
      if worker_error (sh s) then (0 < p)%nat /\ some_files o p (fl s)
      else pending (sh s) = [] /\ ended (mn s) = true /\ files_at o p p (fl s)
  end.
Definition main_ok (n : nat) (s : state) : Prop :=
  match mn s with
  | MWait i | MSleep i | MNotify i => (i < n)%nat
  | MRecover i | MCapture i | MConvert i | MMap i | MEncode i => (i < n)%nat /\ (i < released s + 2)%nat
  | MPush i => (i < n)%nat /\ (i < released s + 2)%nat /\ submitted (sl s) (slot i) = Some (frame_id i)
  | MDrain _ _ => False
  | MEos | MEnd => wk s = WEnd /\ worker_error (sh s) = false
  | MThrown _ => wk s = WEnd
  | _ => True
  end.

(** What the loop has asked of the encoder. *)
Definition passed_recover (n : nat) (m : main_at) : nat :=
  match m with MCapture i | MConvert i | MMap i | MEncode i | MDrain i _ | MPush i => S i | m => pushed n m end.
Definition passed_encode (n : nat) (m : main_at) : nat := match m with MPush i | MDrain i _ => S i | m => pushed n m end.
Definition asked (o : Options) (n : nat) (s : state) : Prop :=
  broken (mn s) = false ->
  invalidation_called (ct s) = (recovery o && (simulate_loss_frame o + invalidate_delay_frames o <=? Z.of_nat (passed_recover n (mn s))))%bool /\
  forced_idr (ct s) = (negb (force_idr_frame o =? 0) && (force_idr_frame o <=? Z.of_nat (passed_encode n (mn s))))%bool.

(** While nothing has failed: the slots mapped are those of the pictures on their way. *)
Definition mapping (m : main_at) : option nat := match m with MEncode i | MPush i => Some i | _ => None end.
Definition unmapping (w : worker_at) : nat := match w with WRelease _ => 1 | _ => 0 end.
Definition on_its_way (n : nat) (s : state) (k : nat) : bool :=
  ((released s + unmapping (wk s) <=? k) && (k <? pushed n (mn s)))%nat || bool_decide (mapping (mn s) = Some k).
Definition healthy (s : state) : Prop := worker_error (sh s) = false /\ wk s <> WCatch /\ broken (mn s) = false.

(** ** What is left to do *)

(** Stages of a drain, and of the two threads; every sleep is paid for by the move that ends it. *)
Definition drain_left (at_ : drain_at) : nat :=
  match at_ with DLock => 4 | DReference _ => 3 | DWrite _ => 2 | DUnlock _ => 1 | DUnmap _ => 0 end.
Definition worker_left (n : nat) (s : state) : nat :=
  10 * (n - popped (sh s)) +
  match wk s with WCheck | WSleep => 3 | WDrain _ at_ => 8 + drain_left at_ | WRelease _ => 7 | WNotify => 6 | WCatch => 2 | WEnd => 0 end.
Definition main_left (n : nat) (m : main_at) : nat :=
  match m with
  | MWait i | MSleep i => 16 * (n - i) + 10 | MRecover i => 16 * (n - i) + 9 | MCapture i => 16 * (n - i) + 8
  | MConvert i => 16 * (n - i) + 7 | MMap i => 16 * (n - i) + 6 | MEncode i => 16 * (n - i) + 5
  | MDrain i at_ => 16 * (n - i) + drain_left at_ | MPush i => 16 * (n - i) + 4 | MNotify i => 16 * (n - i) + 3
  | MFinish | MCatch _ => 6 | MFinishNotify | MCatchNotify _ => 5 | MJoin | MCatchJoin _ => 4 | MEos => 3 | MEnd | MThrown _ => 0
  end.
Definition main_up (m : main_at) : nat := match m with MSleep _ => 0 | _ => 1 end.
Definition worker_up (w : worker_at) : nat := match w with WSleep => 0 | _ => 1 end.
Definition measure (n : nat) (s : state) : nat :=
  5 * (main_left n (mn s) + worker_left n s) + main_up (mn s) + worker_up (wk s).

(** The frame the loop is at is one of the [n]. *)
Definition frame_ok (n : nat) (m : main_at) : Prop :=
  match m with
  | MWait i | MSleep i | MRecover i | MCapture i | MConvert i | MMap i | MEncode i | MDrain i _ | MPush i | MNotify i => (i < n)%nat
  | _ => True
  end.

(** The state's fields after its setters. *)
Ltac fields := cbn [set_wk set_mn set_sh set_sl set_fl set_ct finish_input wk mn sh sl fl ct pending popped in_use input_done worker_error
  submitted mapped locked new_frames invalidation_called forced_idr] in *.

Lemma drain_step_moves o j at_ a s r s' : drain_step o j at_ a s = (r, s') ->
  wk s' = wk s /\ mn s' = mn s /\ sh s' = sh s /\ ct s' = ct s /\ match r with Next at' => (drain_left at' < drain_left at_)%nat | _ => True end.
Proof. intros H. destruct at_; cbn [drain_step] in H;
  repeat match type of H with context [match ?x with _ => _ end] => destruct x end; injection H as <- <-; cbn; split_and!; done || lia. Qed.

Lemma measure_initial o n : (measure n (initial o) <= 130 * n + 67)%nat.
Proof. unfold measure, worker_left, initial. fields. destruct (threaded o); cbn [main_left main_up worker_up]; lia. Qed.

Lemma main_left_wake n m : (main_left n (wake_main m) = main_left n m /\ main_up (wake_main m) <= 1)%nat.
Proof. by destruct m; cbn; split; try lia. Qed.

Lemma worker_measure o a n s s' : (pending (sh s) = [] \/ popped (sh s) < n)%nat -> worker_step o a s = Some s' -> (measure n s' < measure n s)%nat.
Proof.
  intros Hp Hs. unfold worker_step in Hs. pose proof (main_left_wake n (mn s)) as [Hl Hu]. unfold measure, worker_left.
  destruct (wk s) as [| |j at_|j| | |] eqn:Ew; try done.
  - destruct (pending (sh s)); [destruct (input_done (sh s))|]; injection Hs as <-; fields; cbn [worker_up drain_left]; destruct Hp; try done; lia.
  - destruct (drain_step o j at_ a s) as [r s1] eqn:Ed. destruct (drain_step_moves _ _ _ _ _ _ _ Ed) as (_ & E1 & E2 & _ & Hr).
    destruct r; injection Hs as <-; fields; rewrite E1, E2; cbn [worker_up]; lia.
  - injection Hs as <-. fields. cbn [worker_up]. lia.
  - injection Hs as <-. fields. cbn [worker_up]. destruct (mn s); cbn in *; lia.
  - injection Hs as <-. fields. cbn [worker_up]. destruct (mn s); cbn in *; lia.
Qed.

Lemma next_left o n i : (i < n)%nat -> (main_left n (next o i) < 16 * (n - i) /\ main_up (next o i) <= 1)%nat.
Proof. intros Hi. unfold next. destruct (_ <? _); [|destruct (threaded o)]; cbn [main_left main_up]; lia. Qed.

Lemma throw_left o n i s : (measure n (throw o i s) <= 5 * (6 + worker_left n s) + 1 + worker_up (wk s))%nat.
Proof. unfold throw, measure, worker_left. fields. destruct (threaded o); cbn [main_left main_up]; lia. Qed.

Lemma wake_left n m s : (measure n (set_mn m (set_wk (wake_worker (wk s)) s)) <= 5 * (main_left n m + worker_left n s) + main_up m + 1)%nat.
Proof. unfold measure, worker_left. fields. destruct (wk s); cbn [wake_worker worker_up]; lia. Qed.

Lemma loop_measure o a n s s' : frame_ok n (mn s) -> main_step o a s = Some s' -> (measure n s' < measure n s)%nat.
Proof.
  intros Hf Hs. unfold main_step in Hs.
  assert (forall m, measure n (set_mn m s) = (5 * (main_left n m + worker_left n s) + main_up m + worker_up (wk s))%nat) as Hset by done.
  assert (forall i, throw o i s = s' -> main_left n (mn s) > 6 -> main_up (mn s) = 1 -> measure n s' < measure n s)%nat as Hthrow.
  { intros i <- ? Hup. pose proof (throw_left o n i s). unfold measure in *. rewrite Hup. lia. }
  unfold measure at 2. destruct (mn s) as [i|i|i|i|i|i|i|i at_|i|i| | | | | |i|i|i|i] eqn:Em; try done; cbn [frame_ok main_left main_up] in *.
  - repeat case_match; injection Hs as <-; try (rewrite Hset; cbn [main_left main_up]; lia). pose proof (throw_left o n i s). lia.
  - repeat case_match; injection Hs as <-; try (rewrite Hset; cbn [main_left main_up]; lia). all: try (pose proof (throw_left o n i s); lia).
    unfold measure, worker_left. fields. cbn [main_left main_up]. lia.
  - case_match; injection Hs as <-; [|pose proof (throw_left o n i s); lia]. unfold measure, worker_left. fields. cbn [main_left main_up]. lia.
  - case_match; injection Hs as <-; [|pose proof (throw_left o n i s); lia]. rewrite Hset. cbn [main_left main_up]. lia.
  - case_match; injection Hs as <-; [|pose proof (throw_left o n i s); lia]. unfold measure, worker_left. fields. cbn [main_left main_up]. lia.
  - set (s0 := if frame_id i =? force_idr_frame o then _ else s) in Hs.
    assert (exists c, s0 = set_ct c s) as [c ->] by (subst s0; destruct (frame_id i =? force_idr_frame o); [by eexists|exists (ct s); by destruct s]).
    destruct (ok a); injection Hs as <-; [|pose proof (throw_left o n i (set_ct c s)); unfold worker_left in *; fields; lia].
    unfold measure, worker_left. fields. destruct (threaded o); cbn [main_left main_up drain_left]; lia.
  - destruct (drain_step o (slot i) at_ a s) as [r s1] eqn:Ed. destruct (drain_step_moves _ _ _ _ _ _ _ Ed) as (E0 & _ & E2 & _ & Hr).
    pose proof (next_left o n i Hf). destruct r; injection Hs as <-.
    1,2: unfold measure, worker_left; fields; rewrite E0, E2; cbn [main_left main_up]; lia.
    pose proof (throw_left o n i s1) as H1. unfold worker_left in *. rewrite E0, E2 in H1. lia.
  - injection Hs as <-. unfold measure, worker_left. fields. cbn [main_left main_up]. lia.
  - injection Hs as <-. pose proof (next_left o n i Hf). pose proof (wake_left n (next o i) s). lia.
  - injection Hs as <-. unfold measure, worker_left. fields. cbn [main_left main_up]. lia.
  - injection Hs as <-. pose proof (wake_left n MJoin s) as H. cbn [main_left main_up] in H. lia.
  - destruct (wk s); try done. injection Hs as <-. destruct (worker_error (sh s)); rewrite Hset; cbn [main_left main_up worker_up]; lia.
  - injection Hs as <-. destruct (ok a); rewrite Hset; cbn [main_left main_up]; lia.
  - injection Hs as <-. unfold measure, worker_left. fields. cbn [main_left main_up]. lia.
  - injection Hs as <-. pose proof (wake_left n (MCatchJoin i) s) as H. cbn [main_left main_up] in H. lia.
  - destruct (wk s); try done. injection Hs as <-. rewrite Hset; cbn [main_left main_up worker_up]; lia.
Qed.

(** ** Progress *)

Definition good_answer : answer := mkAnswer true true true 0.
Definition final (s : state) : Prop := mn s = MEnd \/ exists i, mn s = MThrown i.

Section awake.
Context (o : Options).

Definition can_move (s : state) : Prop := exists s', good_step o s s'.

Lemma worker_awake s : wk s <> WSleep -> wk s <> WEnd -> can_move s.
Proof.
  intros H1 H2. assert (exists s', worker_step o good_answer s = Some s') as [s' H]; [|exists s'; by apply (good_worker o good_answer)].
  unfold worker_step. destruct (wk s) as [| |j at_|j| | |]; try done; repeat case_match; eauto.
Qed.

Definition joining (m : main_at) : bool := match m with MJoin | MCatchJoin _ => true | _ => false end.

Lemma loop_awake s : (forall i, mn s <> MSleep i) -> (joining (mn s) = true -> wk s = WEnd) -> final s \/ can_move s.
Proof.
  intros H1 H2. assert (final s \/ exists s', main_step o good_answer s = Some s') as [?|[s' H]]; [|by left|right; exists s'; by apply (good_main o good_answer)].
  unfold final, main_step. destruct (mn s) as [i|i|i|i|i|i|i|i at_|i|i| | | | | |i|i|i|i] eqn:Em; try (by eauto); try (by destruct (H1 i)).
  all: try (rewrite (H2 eq_refl); eauto; fail).
  all: right; repeat case_match; eauto.
Qed.

End awake.

(** ** What the pipeline promises *)

(** Of a state reached in [k] steps: [n] is the number of frames asked for. *)
Record promises (o : Options) (n k : nat) (s : state) : Prop := {
  (* every run ends, and no wakeup is lost *)
  pr_bound : (k <= 130 * n + 67)%nat;
  pr_progress : final s \/ can_move o s;
  (* a slot being drained holds a submitted picture, and the loop is not preparing that slot *)
  pr_slots : forall i j at_, preparing (mn s) = Some i -> wk s = WDrain j at_ -> j <> slot i;
  pr_drains : forall j at_, wk s = WDrain j at_ -> submitted (sl s) j = Some (Z.of_nat (popped (sh s)));
  (* the files hold the first pictures, in order, the bitstream without the lost one *)
  pr_files : exists r d, (d <= r <= n)%nat /\ files_at o r d (fl s);
  (* references are invalidated after the lost picture has been dropped *)
  pr_recovery : forall i, mn s = MRecover i -> invalidates o i = true -> frames_dropped (fl s) = 1;
  (* the end: everything written, asked for and released; or a failure, the thread joined *)
  pr_end : mn s = MEnd -> files_at o n n (fl s) /\ requested_gates_passed o s = true /\ destroy_slots s = [];
  pr_joined : final s -> wk s = WEnd }.

(** ** Runs without failures *)

Lemma drain_good o j at_ a s r s' : ok a = true -> submitted (sl s) j <> None -> drain_step o j at_ a s = (r, s') -> r <> Thrown.
Proof. intros Ha Hs H. destruct at_; cbn [drain_step] in H; rewrite ?Ha in H; repeat case_match; congruence. Qed.

Lemma good_healthy o s s' :
  (forall j at_, wk s = WDrain j at_ -> submitted (sl s) j <> None) -> (forall i at_, mn s = MDrain i at_ -> submitted (sl s) (slot i) <> None) ->
  healthy s -> good_step o s s' -> healthy s'.
Proof.
  intros Hw Hm (H1 & H2 & H3) Hs. unfold healthy. destruct Hs as [a s s' Ha Hs|a s s' Ha Hg Hs].
  - unfold worker_step in Hs. destruct (wk s) as [| |j at_|j| | |] eqn:Ew; try done.
    + destruct (pending (sh s)); [destruct (input_done (sh s))|]; injection Hs as <-; done.
    + destruct (drain_step o j at_ a s) as [r s1] eqn:Ed. pose proof (drain_good _ _ _ _ _ _ _ Ha (Hw _ _ eq_refl) Ed) as Hr.
      destruct (drain_step_moves _ _ _ _ _ _ _ Ed) as (_ & E1 & E2 & _). destruct r; injection Hs as <-; fields; rewrite ?E1, ?E2; done.
    + by injection Hs as <-.
    + injection Hs as <-. fields. split_and!; [done..|by destruct (mn s)].
  - unfold main_step in Hs. destruct (mn s) as [i|i|i|i|i|i|i|i at_|i|i| | | | | |i|i|i|i] eqn:Em; try done; rewrite ?Ha, ?Hg, ?H1 in Hs; cbn [andb] in Hs.
    + repeat case_match; injection Hs as <-; done.
    + case_match; injection Hs as <-; done.
    + by injection Hs as <-.
    + by injection Hs as <-.
    + by injection Hs as <-.
    + injection Hs as <-. destruct (frame_id i =? force_idr_frame o); fields; destruct (threaded o); done.
    + destruct (drain_step o (slot i) at_ a s) as [r s1] eqn:Ed. pose proof (drain_good _ _ _ _ _ _ _ Ha (Hm _ _ eq_refl) Ed) as Hr.
      destruct (drain_step_moves _ _ _ _ _ _ _ Ed) as (E0 & _ & E2 & _). destruct r; injection Hs as <-; fields; rewrite ?E0, ?E2; [done| |done].
      unfold next. by destruct (_ <? _), (threaded o).
    + by injection Hs as <-.
    + injection Hs as <-. fields. split_and!; [done|by destruct (wk s)|]. unfold next. by destruct (_ <? _), (threaded o).
    + by injection Hs as <-.
    + injection Hs as <-. fields. split_and!; [done|by destruct (wk s)|done].
    + destruct (wk s) eqn:Ew; try done. injection Hs as <-. fields. split_and!; [done|by rewrite Ew|done].
    + by injection Hs as <-.
Qed.

Lemma good_call_step o s s' : good_step o s s' -> step o s s'.
Proof. intros H. destruct H as [a s s' _ H|a s s' _ _ H]; [exact (step_worker o a s s' H)|exact (step_main o a s s' H)]. Qed.

Lemma healthy_initial o : healthy (initial o).
Proof. unfold initial. split_and!; try done. cbn. by destruct (threaded o). Qed.

(** A run without failures that cannot go on is at the end. *)
Lemma completes o (I : state -> Prop) k s :
  I (initial o) -> (forall s s', I s -> step o s s' -> I s') ->
  (forall s, I s -> (forall j at_, wk s = WDrain j at_ -> submitted (sl s) j <> None) /\ (forall i at_, mn s = MDrain i at_ -> submitted (sl s) (slot i) <> None) /\
    (final s \/ can_move o s)) ->
  nsteps (good_step o) k (initial o) s -> ~ can_move o s -> mn s = MEnd.
Proof.
  intros H0 HI Hd Hs Hstuck.
  assert (I s /\ healthy s) as [Hi (_ & _ & Hb)].
  { apply (nsteps_invariant (good_step o) (fun s => I s /\ healthy s)) with (k := k) (x := initial o); [|by split; [|apply healthy_initial]|done].
    intros x y [Hx Hh] Hxy. destruct (Hd x Hx) as (D1 & D2 & _). split; [by eapply HI, good_call_step|by eapply good_healthy]. }
  destruct (Hd s Hi) as (_ & _ & [[?|[i E]]|?]); [done|by rewrite E in Hb|done].
Qed.

(** ** What both modes share *)

Lemma slot_cover c x : (x < 2)%nat -> exists k, (c <= k < c + 2)%nat /\ slot k = x.
Proof.
  unfold slot, kSlots. intros Hx. destruct (decide ((c mod 2)%nat = x)) as [E|E]; [exists c; split; [lia|done]|exists (c + 1)%nat; split; [lia|]].
  pose proof (Nat.div_mod c 2 ltac:(done)). pose proof (Nat.div_mod (c + 1) 2 ltac:(done)). pose proof (Nat.mod_upper_bound c 2 ltac:(done)).
  pose proof (Nat.mod_upper_bound (c + 1) 2 ltac:(done)). lia.
Qed.

(** One frame more in a count compared with its number. *)
Lemma reached b f i : (b && (f <=? Z.of_nat i) || b && (frame_id i =? f))%bool = (b && (f <=? Z.of_nat (S i)))%bool.
Proof. destruct b; [|done]. cbn [andb]. unfold frame_id. destruct (Z.leb_spec f (Z.of_nat i)), (Z.eqb_spec (Z.of_nat i + 1) f), (Z.leb_spec f (Z.of_nat (S i))); done || lia. Qed.

Lemma set_no_ct m s : set_mn m s = set_mn m (set_ct (ct s) s).
Proof. by destruct s. Qed.

Lemma destroy_nothing s : locked (sl s) 0 = false -> locked (sl s) 1 = false -> mapped (sl s) 0 = false -> mapped (sl s) 1 = false -> destroy_slots s = [].
Proof. intros H1 H2 H3 H4. unfold destroy_slots, kSlots. cbn [seq map concat]. by rewrite H1, H2, H3, H4. Qed.

Section modes.
Context (o : Options).
Hypothesis (Hready : ready o).
#[local] Abbreviation n := (Z.to_nat (frame_count o)).

Lemma frames_nat : Z.of_nat n = frame_count o /\ (0 < n)%nat /\ Z.of_nat n <= 36000.
Proof. pose proof (rd_frames o Hready). lia. Qed.

Lemma asked_initial : asked o n (initial o).
Proof.
  intros _. pose proof (rd_loss o Hready). pose proof (rd_idr o Hready). pose proof (rd_delay o Hready). cbn. split; symmetry.
  - destruct (recovery o); [|done]. apply Z.leb_gt. lia.
  - destruct (Z.eqb_spec (force_idr_frame o) 0); [done|]. apply Z.leb_gt. lia.
Qed.

(** The two requests of a turn of the loop. *)
Lemma asked_recover i c c' : invalidation_called c = (recovery o && (simulate_loss_frame o + invalidate_delay_frames o <=? Z.of_nat i))%bool ->
  invalidation_called c' = (invalidation_called c || invalidates o i)%bool ->
  invalidation_called c' = (recovery o && (simulate_loss_frame o + invalidate_delay_frames o <=? Z.of_nat (S i)))%bool.
Proof.
  intros Hc ->. rewrite Hc. unfold invalidates. pose proof (rd_loss o Hready). pose proof (rd_delay o Hready). pose proof (rd_frames o Hready).
  rewrite wrap_small by (unfold in_range; lia). apply reached.
Qed.

Lemma asked_encode i c c' : forced_idr c = (negb (force_idr_frame o =? 0) && (force_idr_frame o <=? Z.of_nat i))%bool ->
  forced_idr c' = (forced_idr c || (frame_id i =? force_idr_frame o))%bool ->
  forced_idr c' = (negb (force_idr_frame o =? 0) && (force_idr_frame o <=? Z.of_nat (S i)))%bool.
Proof.
  intros Hc ->. rewrite Hc, <- reached. pose proof (rd_idr o Hready). destruct (Z.eqb_spec (force_idr_frame o) 0) as [E|E]; [|done].
  cbn. apply Z.eqb_neq. unfold frame_id. lia.
Qed.

(** The pictures a call of the encoder comes after. *)
Lemma recovers_late i r d F : invalidates o i = true -> Z.of_nat i + 1 - invalidate_delay_frames o <= Z.of_nat d -> files_at o r d F -> frames_dropped F = 1.
Proof.
  unfold invalidates. intros [Hr Hid]%andb_true_iff Hd Hf. apply Z.eqb_eq in Hid. pose proof (rd_loss o Hready). pose proof (rd_delay o Hready). pose proof (rd_frames o Hready).
  rewrite wrap_small in Hid by (unfold in_range; lia). unfold frame_id in Hid. apply (dropped_once o r d); [done|].
  unfold recovery in Hr. apply andb_true_iff in Hr as [Hl _]. apply negb_true_iff, Z.eqb_neq in Hl. lia.
Qed.

Lemma asked_gates s d F : asked o n s -> broken (mn s) = false -> passed_recover n (mn s) = n -> passed_encode n (mn s) = n -> fl s = F -> files_at o d n F ->
  requested_gates_passed o s = true.
Proof.
  intros Ha Hb H1 H2 <- Hf. destruct (Ha Hb) as [A1 A2]. rewrite H1 in A1. rewrite H2 in A2. pose proof frames_nat as Hn.
  pose proof (rd_loss o Hready). pose proof (rd_idr o Hready). pose proof (rd_recovery o Hready).
  unfold requested_gates_passed, bitstream_loss_passed, reference_invalidation_passed, forced_idr_passed. rewrite A1, A2.
  apply andb_true_iff. split; [apply andb_true_iff; split|].
  - destruct (Z.eqb_spec (simulate_loss_frame o) 0); [done|]. rewrite (dropped_once o _ _ _ Hf) by lia. done.
  - destruct (recovery o); [|done]. cbn. apply Z.leb_le. lia.
  - destruct (Z.eqb_spec (force_idr_frame o) 0); [done|]. cbn. apply Z.leb_le. lia.
Qed.

End modes.

Section threaded.
Context (o : Options).
Hypothesis (Hready : ready o) (Hthreaded : threaded o = true).
#[local] Abbreviation n := (Z.to_nat (frame_count o)).

Record inv (s : state) : Prop := {
  iv_count : (popped (sh s) <= pushed n (mn s) <= n)%nat /\ (pushed n (mn s) <= released s + 2)%nat;
  iv_pending : pending (sh s) = map slot (seq (popped (sh s)) (pushed n (mn s) - popped (sh s)));
  iv_use : forall k, (released s <= k < released s + 2)%nat -> in_use (sh s) (slot k) = (k <? pushed n (mn s))%nat;
  iv_submitted : forall k, (released s <= k < pushed n (mn s))%nat -> submitted (sl s) (slot k) = Some (frame_id k);
  iv_worker : worker_ok o s;
  iv_main : main_ok n s;
  iv_asked : asked o n s;
  iv_done : input_done (sh s) = (ended (mn s) || worker_error (sh s))%bool;
  iv_error : worker_error (sh s) = true -> wk s = WEnd;
  iv_wsleep : wk s = WSleep -> waking_worker (mn s) = true \/ input_done (sh s) = false /\ pending (sh s) = [];
  iv_msleep : forall i, mn s = MSleep i -> waking_main (wk s) = true \/ worker_error (sh s) = false /\ in_use (sh s) (slot i) = true;
  iv_locked : healthy s -> forall j, locked (sl s) j = held (wk s) j;
  iv_mapped : healthy s -> forall k, (released s <= k < released s + 2)%nat -> mapped (sl s) (slot k) = on_its_way n s k }.

Lemma encode_slot_inj c a b : (c <= a < c + 2)%nat -> (c <= b < c + 2)%nat -> slot a = slot b -> a = b.
Proof.
  unfold slot, kSlots. intros Ha Hb E. pose proof (Nat.div_mod a 2 ltac:(done)). pose proof (Nat.div_mod b 2 ltac:(done)). lia.
Qed.

Lemma encode_slot_next c : slot (c + 2) = slot c.
Proof. unfold slot, kSlots. replace (c + 2)%nat with (c + 1 * 2)%nat by lia. apply Nat.Div0.mod_add. Qed.

Lemma threaded_initial : inv (initial o).
Proof.
  pose proof (frames_nat o Hready) as Hn. unfold initial. rewrite Hthreaded.
  split; cbn; unfold released, busy; cbn; try done; try lia.
  - apply files_initial.
  - pose proof (asked_initial o Hready) as Ha. unfold initial in Ha. by rewrite Hthreaded in Ha.
Qed.

(** A wakeup changes where the loop is, and nothing the invariant looks at. *)
Lemma wake_main_same m : pushed n (wake_main m) = pushed n m /\ ended (wake_main m) = ended m /\ waking_worker (wake_main m) = waking_worker m /\
  broken (wake_main m) = broken m /\ mapping (wake_main m) = mapping m /\ passed_recover n (wake_main m) = passed_recover n m /\
  passed_encode n (wake_main m) = passed_encode n m /\ forall i, wake_main m <> MSleep i.
Proof. by destruct m. Qed.

(** The healthy states before a step. *)
Lemma healthy_back s s' :
  worker_error (sh s') = worker_error (sh s) -> (wk s = WCatch -> wk s' = WCatch \/ worker_error (sh s') = true) ->
  (broken (mn s) = true -> broken (mn s') = true) -> healthy s' -> healthy s.
Proof.
  intros He Hw Hb (H1 & H2 & H3). split_and!; [congruence|intros E; destruct (Hw E); congruence|].
  destruct (broken (mn s)); [by rewrite Hb in H3|done].
Qed.

(** The frame the loop prepares is not one of those it has handed over. *)
Lemma mapping_pushed m i : mapping m = Some i -> pushed n m = i.
Proof. by destruct m; intros [= ->]. Qed.

(** A move of the worker that takes nothing from the queue and releases nothing. *)
Lemma worker_moves s w x F :
  inv s -> busy (set_wk w s) = busy s -> submitted x = submitted (sl s) -> worker_ok o (set_wk w (set_sl x (set_fl F s))) ->
  wk s <> WEnd -> (w = WSleep -> input_done (sh s) = false /\ pending (sh s) = []) -> waking_main (wk s) = false ->
  (healthy (set_wk w s) -> healthy s -> forall j, locked x j = held w j) ->
  (healthy (set_wk w s) -> healthy s -> forall k, (released s <= k < released s + 2)%nat -> mapped x (slot k) = on_its_way n (set_wk w s) k) ->
  (healthy (set_wk w s) -> healthy s) ->
  inv (set_wk w (set_sl x (set_fl F s))).
Proof.
  intros Hi Hb Hx Hw Hne Hsl Hwm Hl Hm Hh. destruct Hi.
  assert (released (set_wk w (set_sl x (set_fl F s))) = released s) as Hr by (unfold released; fields; f_equal; by rewrite <- Hb).
  split; unfold main_ok in *; rewrite ?Hr; fields; try done.
  - by rewrite Hx.
  - rewrite Hx. destruct (mn s); try done; by destruct iv_main0.
  - intros He. by apply iv_error0 in He.
  - intros E. right. by apply Hsl.
  - intros i E. destruct (iv_msleep0 i E) as [?|?]; [congruence|by right].
  - intros H. apply Hl; [exact H|by apply Hh].
  - intros H. apply Hm; [exact H|by apply Hh].
Qed.

Lemma set_nothing w s : set_wk w s = set_wk w (set_sl (sl s) (set_fl (fl s) s)).
Proof. done. Qed.

Lemma worker_inv a s s' : inv s -> worker_step o a s = Some s' -> inv s'.
Proof.
  intros Hi Hs. unfold worker_step in Hs. pose proof (frames_nat o Hready) as Hn.
  pose proof (iv_worker s Hi) as Hw. unfold worker_ok in Hw. pose proof (iv_count s Hi) as Hc. unfold released, busy in Hc.
  destruct (wk s) as [| |j at_|j| | |] eqn:Ew; try done.
  all: assert (worker_error (sh s) = false) as He by (destruct (worker_error (sh s)) eqn:E; [|done]; by apply (iv_error s Hi) in E; congruence).
  - (* the wait *)
    destruct (pending (sh s)) as [|j rest] eqn:Ep; [destruct (input_done (sh s)) eqn:Ed|]; injection Hs as <-.
    + rewrite set_nothing. apply worker_moves; unfold busy; fields; rewrite ?Ew, ?He; try done.
      * unfold worker_ok. fields. rewrite He. split_and!; try done. pose proof (iv_done s Hi) as H. rewrite Ed, He, orb_false_r in H. done.
      * intros _ Hh. pose proof (iv_locked s Hi Hh) as H. by rewrite Ew in H.
      * intros _ Hh k Hk. rewrite (iv_mapped s Hi Hh) by done. unfold on_its_way, released, busy. fields. by rewrite Ew, ?He.
      * intros (H1 & _ & H3). split_and!; try done. by rewrite Ew.
    + rewrite set_nothing. apply worker_moves; unfold busy; fields; rewrite ?Ew, ?He; try done.
      * intros _ Hh. pose proof (iv_locked s Hi Hh) as H. by rewrite Ew in H.
      * intros _ Hh k Hk. rewrite (iv_mapped s Hi Hh) by done. unfold on_its_way, released, busy. fields. by rewrite Ew, ?He.
      * intros (H1 & _ & H3). split_and!; try done. by rewrite Ew.
    + (* pop_front *)
      pose proof (iv_pending s Hi) as Hp. rewrite Ep in Hp.
      destruct (pushed n (mn s) - popped (sh s))%nat as [|left_] eqn:El; [done|]. cbn [seq map] in Hp. injection Hp as -> ->.
      match goal with |- inv ?x => set (s1 := x) end.
      assert (released s1 = released s) as Hr by (unfold released, busy, s1; fields; rewrite Ew; lia).
      assert (on_its_way n s1 = on_its_way n s) as Hway by (unfold on_its_way; rewrite Hr; unfold s1; fields; by rewrite Ew).
      destruct Hi. subst s1. split; unfold main_ok, worker_ok in *; rewrite ?Hr; fields; try done.
      * lia.
      * f_equal. f_equal. lia.
      * split_and!; [lia|f_equal; lia|]. cbn [drain_ok]. by replace (S (popped (sh s)) - 1)%nat with (popped (sh s)) by lia.
      * destruct (mn s); try done; first [congruence|destruct iv_main0; congruence].
      * congruence.
      * intros i E. destruct (iv_msleep0 i E) as [H|?]; [by rewrite Ew in H|by right].
      * intros (H1 & _ & H3) i. rewrite iv_locked0 by (split_and!; [done|by rewrite Ew|done]). rewrite Ew. cbn. by rewrite andb_false_r.
      * intros (H1 & _ & H3) k Hk. rewrite Hway. apply iv_mapped0; [|done]. split_and!; [done|by rewrite Ew|done].
  - (* the drain *)
    destruct Hw as (Hpos & -> & Hd).
    assert (submitted (sl s) (slot (popped (sh s) - 1)) = Some (Z.of_nat (popped (sh s)))) as Hsub.
    { rewrite (iv_submitted s Hi) by (unfold released, busy; rewrite Ew; lia). unfold frame_id. f_equal. lia. }
    destruct (drain_step o (slot (popped (sh s) - 1)) at_ a s) as [r s1] eqn:Ed.
    destruct (drain_step_spec o _ _ _ _ (popped (sh s)) _ _ Hpos ltac:(lia) Hsub Hd Ed) as (Hs1 & Hsu & Hr).
    assert (forall w, set_wk w s1 = set_wk w (set_sl (sl s1) (set_fl (fl s1) s))) as Hset by (intros w; by rewrite Hs1).
    destruct r as [at'| |]; injection Hs as <-; rewrite Hset; apply worker_moves; unfold busy; fields; rewrite ?Ew; try done.
    + unfold worker_ok. fields. by destruct Hr.
    + intros _ Hh j. destruct Hr as (_ & _ & Hl). rewrite Hl; [done|]. intros i. by rewrite (iv_locked s Hi Hh), Ew.
    + intros _ Hh k Hk. destruct Hr as (_ & -> & _). rewrite (iv_mapped s Hi Hh) by done. unfold on_its_way, released, busy. fields. by rewrite Ew.
    + intros (H1 & _ & H3). split_and!; try done. by rewrite Ew.
    + unfold worker_ok. fields. by destruct Hr.
    + intros _ Hh. destruct Hr as (_ & _ & Hl).
      intros j. apply Hl. intros i. by rewrite (iv_locked s Hi Hh), Ew.
    + intros _ Hh k Hk. destruct Hr as (_ & -> & _). unfold released, busy in Hk. rewrite Ew in Hk.
      unfold on_its_way, released, busy. fields. rewrite ?Ew. cbn [unmapping]. destruct (decide (k = popped (sh s) - 1)%nat) as [->|Hne].
      * rewrite set_slot_same. symmetry. apply orb_false_iff. split; [apply andb_false_iff; left; apply Nat.leb_gt; lia|].
        apply bool_decide_eq_false. intros H%mapping_pushed. lia.
      * rewrite set_slot_other by (intros E; apply (encode_slot_inj (popped (sh s) - 1)) in E; lia).
        rewrite (iv_mapped s Hi Hh) by (unfold released, busy; rewrite Ew; lia). unfold on_its_way, released, busy. rewrite Ew. cbn [unmapping].
        f_equal. f_equal.
        destruct (Nat.leb_spec (popped (sh s) - 1 + 0) k), (Nat.leb_spec (popped (sh s) - 1 + 1) k); done || lia.
    + intros (H1 & _ & H3). split_and!; try done. by rewrite Ew.
    + unfold worker_ok. fields. split; [done|]. rewrite Hr. by eapply drain_some.
    + by intros (_ & H & _).
    + by intros (_ & H & _).
    + by intros (_ & H & _).
  - (* the release *)
    injection Hs as <-. destruct Hw as (Hpos & -> & Hf).
    match goal with |- inv ?x => set (s1 := x) end.
    assert (released s1 = S (released s)) as Hr by (unfold released, busy, s1; fields; rewrite Ew; lia).
    assert (released s = popped (sh s) - 1)%nat as Hr0 by (unfold released, busy; by rewrite Ew).
    destruct Hi. subst s1. split; unfold main_ok, worker_ok, on_its_way in *; rewrite ?Hr; fields; try done; try lia.
    + intros k Hk. destruct (decide (k = released s + 2)%nat) as [->|Hne].
      * replace (slot (released s + 2)) with (slot (popped (sh s) - 1)) by (rewrite encode_slot_next; f_equal; lia). rewrite set_slot_same.
        symmetry. apply Nat.ltb_ge. lia.
      * rewrite set_slot_other by (intros E; apply (encode_slot_inj (released s)) in E; lia). apply iv_use0. lia.
    + intros k Hk. apply iv_submitted0. lia.
    + destruct (mn s); try done; first [congruence|destruct iv_main0; first [congruence|split_and?; try done; try lia; try tauto]].
    + intros i E. by left.
    + intros (H1 & _ & H3) j. rewrite iv_locked0; [by rewrite Ew|]. split_and!; [done|by rewrite Ew|done].
    + intros (H1 & _ & H3) k Hk. destruct (decide (k = released s + 2)%nat) as [->|Hne].
      * rewrite encode_slot_next. rewrite iv_mapped0; [|split_and!; [done|by rewrite Ew|done]|lia]. rewrite Ew. cbn [unmapping].
        assert (forall i, mapping (mn s) = Some i -> i = pushed n (mn s) /\ (i < released s + 2)%nat) as Hmap by (destruct (mn s); intros ? [= <-]; cbn in *; tauto).
        rewrite (bool_decide_eq_false_2 (mapping (mn s) = Some (released s))) by (intros [? ?]%Hmap; lia).
        rewrite (bool_decide_eq_false_2 (mapping (mn s) = Some (released s + 2)%nat)) by (intros [? ?]%Hmap; lia).
        rewrite (proj2 (Nat.leb_gt _ _)), (proj2 (Nat.ltb_ge (released s + 2) _)) by lia. by rewrite andb_false_r.
      * rewrite iv_mapped0; [|split_and!; [done|by rewrite Ew|done]|lia]. rewrite Ew. cbn [unmapping]. f_equal. f_equal. f_equal. lia.
  - (* notifying *)
    injection Hs as <-. destruct (wake_main_same (mn s)) as (W1 & W2 & W3 & W4 & W5 & W6 & W7 & W8).
    match goal with |- inv ?x => set (s1 := x) end.
    assert (released s1 = released s) as Hr by (unfold released, busy, s1; fields; by rewrite Ew).
    destruct Hi. subst s1. split; unfold main_ok, worker_ok, on_its_way, asked in *; rewrite ?Hr; fields; rewrite ?W1, ?W2, ?W3, ?W4, ?W5, ?W6, ?W7; try done.
    + destruct (mn s); try done; first [congruence|destruct iv_main0; congruence].
    + congruence.
    + intros i E. by apply W8 in E.
    + intros (H1 & _ & H3). fields. rewrite W4 in H3. intros j. rewrite iv_locked0; [by rewrite Ew|]. split_and!; [done|by rewrite Ew|done].
    + intros (H1 & _ & H3) k Hk. fields. rewrite W4 in H3. rewrite iv_mapped0; [by rewrite Ew|split_and!; [done|by rewrite Ew|done]|done].
  - (* the exception *)
    injection Hs as <-. destruct (wake_main_same (mn s)) as (W1 & W2 & W3 & W4 & W5 & W6 & W7 & W8).
    match goal with |- inv ?x => set (s1 := x) end.
    assert (released s1 = released s) as Hr by (unfold released, busy, s1; fields; by rewrite Ew).
    destruct Hi. subst s1. split; unfold main_ok, worker_ok, on_its_way, asked in *; rewrite ?Hr; fields; rewrite ?W1, ?W2, ?W3, ?W4, ?W5, ?W6, ?W7; try done.
    + destruct (mn s); try done; first [congruence|destruct iv_main0; congruence].
    + by rewrite orb_true_r.
    + intros i E. by apply W8 in E.
    + by intros (H1 & _).
    + by intros (H1 & _).
Qed.

(** A move of the loop that hands nothing over, maps nothing and submits nothing. *)
Lemma loop_moves s m c :
  inv s -> pushed n m = pushed n (mn s) -> main_ok n (set_mn m s) -> asked o n (set_mn m (set_ct c s)) -> ended m = ended (mn s) ->
  waking_worker (mn s) = false -> (forall i, m = MSleep i -> worker_error (sh s) = false /\ in_use (sh s) (slot i) = true) ->
  (broken (mn s) = true -> broken m = true) -> (broken m = false -> mapping m = mapping (mn s)) ->
  inv (set_mn m (set_ct c s)).
Proof.
  intros Hi Hp Hm Ha He Hww Hsl Hb Hmap. destruct Hi.
  assert (released (set_mn m (set_ct c s)) = released s) as Hr by done.
  assert (healthy (set_mn m (set_ct c s)) -> healthy s) as Hh.
  { intros (H1 & H2 & H3). split_and!; [done..|]. fields. destruct (broken (mn s)); [by rewrite Hb in H3|done]. }
  split; unfold main_ok, worker_ok, on_its_way in *; rewrite ?Hr; fields; rewrite ?Hp, ?He; try done.
  - intros E. destruct (iv_wsleep0 E) as [?|?]; [congruence|by right].
  - intros i E. right. by apply Hsl.
  - intros H. by apply iv_locked0, Hh.
  - intros H k Hk. rewrite Hmap by apply H. apply iv_mapped0; [by apply Hh|done].
Qed.

(** Without a frame on the way, the counters do not change. *)
Lemma asked_same s m : asked o n s -> passed_recover n m = passed_recover n (mn s) -> passed_encode n m = passed_encode n (mn s) ->
  (broken (mn s) = true -> broken m = true) -> asked o n (set_mn m (set_ct (ct s) s)).
Proof.
  intros Ha H1 H2 H3 Hb. fields. rewrite H1, H2. apply Ha. cbn [broken set_mn mn] in Hb. destruct (broken (mn s)); [by rewrite H3 in Hb|done].
Qed.

Lemma throw_inv s i : inv s -> pushed n (mn s) = i -> ended (mn s) = false -> waking_worker (mn s) = false -> inv (throw o i s).
Proof.
  intros Hi Hp He Hw. unfold throw. rewrite Hthreaded, set_no_ct. by apply loop_moves.
Qed.

(** A wakeup of the worker. *)
Lemma main_wakes s m :
  inv s -> pushed n m = pushed n (mn s) -> main_ok n (set_mn m s) -> asked o n (set_mn m s) -> ended m = ended (mn s) ->
  (forall i, m <> MSleep i) -> (broken (mn s) = true -> broken m = true) -> mapping m = mapping (mn s) ->
  inv (set_mn m (set_wk (wake_worker (wk s)) s)).
Proof.
  intros Hi Hp Hm Ha He Hsl Hb Hmap. destruct Hi.
  assert (busy (set_wk (wake_worker (wk s)) s) = busy s) as Hbz by (unfold busy; fields; by destruct (wk s)).
  assert (released (set_mn m (set_wk (wake_worker (wk s)) s)) = released s) as Hr by (unfold released; fields; by rewrite <- Hbz).
  assert (healthy (set_mn m (set_wk (wake_worker (wk s)) s)) -> healthy s) as Hh.
  { intros (H1 & H2 & H3). fields. split_and!; [done|by destruct (wk s)|]. destruct (broken (mn s)); [by rewrite Hb in H3|done]. }
  split; unfold on_its_way in *; rewrite ?Hr; fields; rewrite ?Hp, ?He, ?Hmap; try done.
  - unfold worker_ok in *. fields. rewrite He. by destruct (wk s).
  - unfold main_ok in *. fields. rewrite Hr. destruct m; try done. 3: by rewrite Hm. all: by destruct Hm as [-> ?].
  - intros E. rewrite iv_error0; done.
  - by destruct (wk s).
  - intros i E. by apply Hsl in E.
  - intros H j. rewrite (iv_locked0 (Hh H)). by destruct (wk s).
  - intros H k Hk. rewrite (iv_mapped0 (Hh H) k Hk). by destruct (wk s).
Qed.

(** The end of the input. *)
Lemma main_ends s m :
  inv s -> pushed n m = pushed n (mn s) -> main_ok n (set_mn m s) -> asked o n (set_mn m s) -> ended m = true -> waking_worker m = true ->
  (forall i, m <> MSleep i) -> (broken (mn s) = true -> broken m = true) -> mapping m = mapping (mn s) ->
  inv (set_mn m (finish_input s)).
Proof.
  intros Hi Hp Hm Ha He Hw Hsl Hb Hmap. destruct Hi.
  assert (released (set_mn m (finish_input s)) = released s) as Hr by done.
  assert (healthy (set_mn m (finish_input s)) -> healthy s) as Hh.
  { intros (H1 & H2 & H3). fields. split_and!; [done..|]. destruct (broken (mn s)); [by rewrite Hb in H3|done]. }
  split; unfold on_its_way in *; rewrite ?Hr; fields; rewrite ?Hp, ?He, ?Hmap; try done.
  - unfold worker_ok in *. fields. rewrite He. destruct (wk s); try done. destruct (worker_error (sh s)); [done|]. tauto.
  - intros _. by left.
  - intros i E. by apply Hsl in E.
  - intros H. by apply iv_locked0, Hh.
  - intros H. by apply iv_mapped0, Hh.
Qed.

Lemma next_at i m : next o i = m -> (i < n)%nat -> pushed n m = S i /\ ended m = false /\ broken m = false /\ mapping m = None /\ passed_recover n m = S i /\ passed_encode n m = S i.
Proof.
  unfold next. pose proof (frames_nat o Hready). rewrite Hthreaded. intros <- Hlt. destruct (Z.ltb_spec (Z.of_nat (S i)) (frame_count o)); [done|]. cbn. split_and!; try done; lia.
Qed.

Lemma loop_inv a s s' : inv s -> main_step o a s = Some s' -> inv s'.
Proof.
  intros Hi Hs. unfold main_step in Hs. pose proof (frames_nat o Hready) as Hn.
  pose proof (iv_main s Hi) as Hm. unfold main_ok in Hm. pose proof (iv_count s Hi) as Hc. pose proof (iv_asked s Hi) as Ha.
  assert (released s <= popped (sh s))%nat as Hrp by (unfold released; lia).
  destruct (mn s) as [i|i|i|i|i|i|i|i at_|i|i| | | | | |i|i|i|i] eqn:Em; try done; cbn [pushed] in Hc; rewrite ?Hthreaded in Hs; cbn [negb] in Hs.
  - (* the wait *)
    destruct (worker_error (sh s)) eqn:He; [injection Hs as <-; by apply throw_inv; rewrite ?Em|].
    destruct (in_use (sh s) (slot i)) eqn:Eu; injection Hs as <-; rewrite set_no_ct; apply loop_moves; rewrite ?Em; try done.
    + apply asked_same; by rewrite ?Em.
    + by intros j [= <-].
    + split; [done|]. unfold released, busy in *. fields. destruct (decide (i = released s + 2)%nat) as [->|Hne]; [|unfold released, busy in Hne; lia].
      rewrite encode_slot_next, (iv_use s Hi), Em in Eu by lia. apply Nat.ltb_ge in Eu. cbn in Eu. lia.
    + apply asked_same; by rewrite ?Em.
  - (* the invalidation *)
    destruct (Ha ltac:(by rewrite Em)) as [Ha1 Ha2]. rewrite Em in Ha1, Ha2. cbn [passed_recover passed_encode pushed] in Ha1, Ha2.
    destruct (invalidates o i) eqn:Ei; [destruct (ok a)|]; injection Hs as <-; [|by apply throw_inv; rewrite ?Em|rewrite set_no_ct].
    all: apply loop_moves; rewrite ?Em; try done; intros _; fields; cbn [passed_recover passed_encode pushed]; split; [|exact Ha2].
    all: eapply (asked_recover o Hready i (ct s) (mkCounters 0 _ false)); [exact Ha1|]; rewrite Ei; cbn [invalidation_called].
    + by rewrite orb_true_r.
    + by rewrite orb_false_r.
  - (* the capture *)
    destruct (ok a && same_geometry a)%bool; injection Hs as <-; [|by apply throw_inv; rewrite ?Em].
    apply loop_moves; rewrite ?Em; try done. intros _. specialize (Ha ltac:(by rewrite Em)). rewrite Em in Ha. exact Ha.
  - (* the conversion *)
    destruct (ok a); injection Hs as <-; [|by apply throw_inv; rewrite ?Em].
    rewrite set_no_ct. apply loop_moves; rewrite ?Em; try done. apply asked_same; by rewrite ?Em.
  - (* the mapping *)
    destruct (ok a); injection Hs as <-; [|by apply throw_inv; rewrite ?Em].
    match goal with |- inv ?x => set (s1 := x) end. assert (released s1 = released s) as Hr by done.
    destruct Hi. subst s1. split; unfold main_ok, worker_ok, on_its_way in *; rewrite ?Hr; fields; rewrite ?Em in *; try done.
    + intros _. specialize (Ha ltac:(by rewrite Em)). rewrite Em in Ha. exact Ha.
    + intros (H1 & H2 & H3) j. apply iv_locked0. split_and!; [done..|by rewrite Em].
    + intros (H1 & H2 & H3) k Hk. cbn [mapping pushed]. destruct (decide (k = i)) as [->|Hne].
      * rewrite set_slot_same, bool_decide_eq_true_2 by done. by rewrite orb_true_r.
      * rewrite set_slot_other by (intros E; apply (encode_slot_inj (released s)) in E; lia). rewrite bool_decide_eq_false_2 by congruence.
        rewrite iv_mapped0; [done|split_and!; [done..|by rewrite Em]|done].
  - (* the encode *)
    assert (forall k, (released s <= k < i)%nat -> slot k <> slot i) as Hne by (intros k Hk E; apply (encode_slot_inj (released s)) in E; lia).
    destruct (Ha ltac:(by rewrite Em)) as [Ha1 Ha2]. rewrite Em in Ha1, Ha2. cbn [passed_recover passed_encode pushed] in Ha1, Ha2.
    set (s0 := if frame_id i =? force_idr_frame o then _ else s) in Hs.
    assert (exists c, s0 = set_ct c s /\ invalidation_called c = invalidation_called (ct s) /\
      forced_idr c = (forced_idr (ct s) || (frame_id i =? force_idr_frame o))%bool) as (c & Hs0 & Hc1 & Hc2).
    { subst s0. destruct (frame_id i =? force_idr_frame o); [eexists|exists (ct s)]; split_and!; try done; [by rewrite orb_true_r|by destruct s|by rewrite orb_false_r]. }
    apply (asked_encode o Hready i (ct s) c Ha2) in Hc2.
    rewrite Hs0 in Hs. clearbody s0. clear Hs0.
    destruct (ok a); injection Hs as <-.
    2: { unfold throw. rewrite Hthreaded. apply loop_moves; rewrite ?Em; done. }
    match goal with |- inv ?x => set (s1 := x) end. assert (released s1 = released s) as Hr by done.
    destruct Hi. subst s1. split; unfold main_ok, worker_ok, on_its_way in *; rewrite ?Hr; fields; rewrite ?Em in *; try done.
    + intros k Hk. rewrite set_slot_other; [by apply iv_submitted0|]. by apply Hne.
    + split_and!; [by destruct Hm..|]. by rewrite set_slot_same.
    + intros _. fields. cbn [passed_recover passed_encode pushed]. by rewrite Hc1, Hc2.
    + intros (H1 & H2 & H3) j. apply iv_locked0. split_and!; [done..|by rewrite Em].
    + intros (H1 & H2 & H3) k Hk. rewrite iv_mapped0; [done|split_and!; [done..|by rewrite Em]|done].
  - (* the queue *)
    injection Hs as <-. destruct Hm as (Hin & Hwin & Hsub).
    match goal with |- inv ?x => set (s1 := x) end. assert (released s1 = released s) as Hr by done.
    assert (released s + unmapping (wk s) <= i)%nat as Hun.
    { pose proof (iv_worker s Hi) as Hw. unfold worker_ok in Hw. unfold released, busy in *. destruct (wk s); cbn [unmapping]; lia. }
    destruct Hi. subst s1. split; unfold main_ok, worker_ok, on_its_way in *; rewrite ?Hr; fields; rewrite ?Em in *; try done; cbn [pushed] in *; try lia.
    + rewrite iv_pending0. replace (S i - popped (sh s))%nat with (S (i - popped (sh s))) by lia. rewrite seq_S, map_app. by replace (popped (sh s) + (i - popped (sh s)))%nat with i by lia.
    + intros k Hk. destruct (decide (k = i)) as [->|Hne]; [rewrite set_slot_same; symmetry; apply Nat.ltb_lt; lia|].
      rewrite set_slot_other by (intros E; apply (encode_slot_inj (released s)) in E; lia). rewrite iv_use0 by lia.
      destruct (Nat.ltb_spec k i), (Nat.ltb_spec k (S i)); done || lia.
    + intros k Hk. destruct (decide (k = i)) as [->|Hne]; [done|]. apply iv_submitted0. lia.
    + destruct (wk s); try done. destruct (worker_error (sh s)); [done|]. by destruct iv_worker0 as [_ [H _]].
    + intros _. specialize (Ha ltac:(by rewrite Em)). rewrite Em in Ha. exact Ha.
    + by left.
    + intros (H1 & H2 & H3) j. apply iv_locked0. split_and!; [done..|by rewrite Em].
    + intros (H1 & H2 & H3) k Hk. rewrite iv_mapped0; [|split_and!; [done..|by rewrite Em]|done]. cbn [mapping].
      rewrite (bool_decide_eq_false_2 (None = Some k)), orb_false_r by done.
      destruct (decide (k = i)) as [->|Hne].
      * rewrite bool_decide_eq_true_2, orb_true_r by done. symmetry. apply andb_true_iff. split; [apply Nat.leb_le|apply Nat.ltb_lt; lia].
        lia.
      * rewrite bool_decide_eq_false_2, orb_false_r by congruence. f_equal. destruct (Nat.ltb_spec k i), (Nat.ltb_spec k (S i)); done || lia.
  - (* the notification *)
    injection Hs as <-. destruct (next_at i _ eq_refl Hm) as (N1 & N2 & N3 & N4 & N5 & N6).
    apply main_wakes; rewrite ?Em; try done.
    + unfold main_ok, next. fields. rewrite Hthreaded. destruct (Z.ltb_spec (Z.of_nat (S i)) (frame_count o)); lia.
    + intros _. fields. rewrite N5, N6. specialize (Ha ltac:(by rewrite Em)). rewrite Em in Ha. exact Ha.
    + intros j. unfold next. rewrite Hthreaded. by destruct (_ <? _).
  - (* the end of the input *)
    injection Hs as <-. apply main_ends; rewrite ?Em; try done.
    intros _. specialize (Ha ltac:(by rewrite Em)). rewrite Em in Ha. exact Ha.
  - (* its notification *)
    injection Hs as <-. apply main_wakes; rewrite ?Em; try done.
    intros _. specialize (Ha ltac:(by rewrite Em)). rewrite Em in Ha. exact Ha.
  - (* the join *)
    destruct (wk s) eqn:Ew; try done. injection Hs as <-. rewrite set_no_ct.
    destruct (worker_error (sh s)) eqn:Ee; apply loop_moves; rewrite ?Em; try done.
    intros _. specialize (Ha ltac:(by rewrite Em)). rewrite Em in Ha. exact Ha.
  - (* the end of the stream *)
    injection Hs as <-. destruct Hm as [Hw He]. rewrite set_no_ct. destruct (ok a); apply loop_moves; rewrite ?Em; try done.
    intros _. specialize (Ha ltac:(by rewrite Em)). rewrite Em in Ha. exact Ha.
  - (* the handler *)
    injection Hs as <-. apply main_ends; rewrite ?Em; try done.
  - (* its notification *)
    injection Hs as <-. apply main_wakes; rewrite ?Em; try done.
  - (* its join *)
    destruct (wk s) eqn:Ew; try done. injection Hs as <-. rewrite set_no_ct. apply loop_moves; rewrite ?Em; try done.
Qed.

Lemma inv_step s s' : inv s -> step o s s' -> inv s'.
Proof. intros Hi Hs. destruct Hs as [a s s' H|a s s' H]; [exact (worker_inv a s s' Hi H)|exact (loop_inv a s s' Hi H)]. Qed.

Lemma inv_frame s : inv s -> frame_ok n (mn s).
Proof. intros Hi. pose proof (iv_main s Hi) as Hm. unfold main_ok in Hm. destruct (mn s); cbn; tauto. Qed.

Lemma inv_pending s : inv s -> pending (sh s) = [] \/ (popped (sh s) < n)%nat.
Proof.
  intros Hi. pose proof (iv_pending s Hi) as Hp. pose proof (iv_count s Hi) as Hc.
  destruct (pushed n (mn s) - popped (sh s))%nat eqn:E; [by left|right; lia].
Qed.

Lemma inv_files s : inv s -> exists r d, (released s <= d <= r)%nat /\ (r <= popped (sh s))%nat /\ files_at o r d (fl s).
Proof.
  intros Hi. pose proof (iv_worker s Hi) as Hw. unfold worker_ok, released, busy in *.
  destruct (wk s) as [| |j at_|j| | |]; try (eexists _, _; split_and!; [..|exact Hw]; lia).
  - destruct Hw as (Hp & _ & Hd). apply drain_some in Hd as (r & d & ? & ? & ?). exists r, d. split_and!; done || lia.
  - destruct Hw as (Hp & _ & Hd). eexists _, _; split_and!; [..|exact Hd]; lia.
  - destruct Hw as (Hp & r & d & ? & ? & ?). exists r, d. split_and!; done || lia.
  - destruct (worker_error (sh s)).
    + destruct Hw as (Hp & r & d & ? & ? & ?). exists r, d. split_and!; done || lia.
    + destruct Hw as (_ & _ & Hd). eexists _, _; split_and!; [..|exact Hd]; lia.
Qed.

Lemma step_measure s s' : inv s -> step o s s' -> (measure n s' < measure n s)%nat.
Proof. intros Hi Hs. destruct Hs as [a s s' H|a s s' H]; [eapply worker_measure; [by apply inv_pending|done]|eapply loop_measure; [by apply inv_frame|done]]. Qed.

(** A loop asleep waits for a slot that is still in use; a thread asleep waits for a slot. *)
Lemma sleeping s i : inv s -> mn s = MSleep i -> waking_main (wk s) = false -> wk s <> WEnd /\ (popped (sh s) < i \/ busy s = true)%nat.
Proof.
  intros Hi Em Hw. destruct (iv_msleep s Hi i Em) as [?|[He Hu]]; [congruence|].
  pose proof (iv_worker s Hi) as Hk. unfold worker_ok in Hk. pose proof (iv_count s Hi) as Hc. rewrite Em in Hc. cbn [pushed] in Hc. split.
  - intros E. rewrite E, He, Em in Hk. by destruct Hk as (_ & Hk & _).
  - destruct (busy s) eqn:Eb; [by right|left]. unfold released in Hc. rewrite Eb in Hc.
    destruct (decide (i = popped (sh s))) as [->|]; [|lia].
    rewrite (iv_use s Hi), Em in Hu by (unfold released; rewrite Eb; lia). apply Nat.ltb_lt in Hu. cbn in Hu. lia.
Qed.

Lemma threaded_progress s : inv s -> final s \/ can_move o s.
Proof.
  intros Hi. assert (wk s = WSleep \/ wk s = WEnd \/ wk s <> WSleep /\ wk s <> WEnd) as [Ew|[Ew|[Hw He]]] by (destruct (wk s); auto 6).
  - apply loop_awake.
    + intros i Em. destruct (sleeping s i Hi Em) as [_ H]; [by rewrite Ew|].
      destruct (iv_wsleep s Hi Ew) as [H1|[_ H1]]; [by rewrite Em in H1|].
      rewrite (iv_pending s Hi), Em in H1. cbn [pushed] in H1. apply map_eq_nil in H1.
      assert (i - popped (sh s) = 0)%nat by (by rewrite <- (length_seq (i - popped (sh s)) (popped (sh s))), H1).
      unfold busy in H. rewrite Ew in H. destruct H; [lia|done].
    + intros Hj. exfalso. destruct (iv_wsleep s Hi Ew) as [H1|[H1 _]]; [by destruct (mn s)|].
      rewrite (iv_done s Hi) in H1. by destruct (mn s).
  - apply loop_awake; [|done]. intros i Em. destruct (sleeping s i Hi Em) as [H _]; [by rewrite Ew|done].
  - right. by apply worker_awake.
Qed.

Lemma draining s j at_ : inv s -> wk s = WDrain j at_ -> submitted (sl s) j = Some (Z.of_nat (popped (sh s))).
Proof.
  intros Hi Ew. pose proof (iv_worker s Hi) as Hw. unfold worker_ok in Hw. rewrite Ew in Hw. destruct Hw as (Hpos & -> & _).
  pose proof (iv_count s Hi) as Hc. unfold released, busy in Hc. rewrite Ew in Hc.
  rewrite (iv_submitted s Hi) by (unfold released, busy; rewrite Ew; lia). unfold frame_id. f_equal. lia.
Qed.

Lemma threaded_promises k s : nsteps (step o) k (initial o) s -> promises o n k s.
Proof.
  intros Hs. pose proof (nsteps_invariant _ _ inv_step _ _ _ threaded_initial Hs) as Hi.
  pose proof (nsteps_measure _ _ inv_step (measure n) _ _ _ step_measure threaded_initial Hs) as Hm.
  pose proof (frames_nat o Hready) as Hn. pose proof (iv_count s Hi) as Hc. pose proof (iv_main s Hi) as Hmn. unfold main_ok in Hmn.
  pose proof (inv_files s Hi) as (r & d & Hrd & Hrp & Hf). split.
  - pose proof (measure_initial o n). lia.
  - by apply threaded_progress.
  - intros i j at_ Hp Ew. pose proof (iv_worker s Hi) as Hw. unfold worker_ok in Hw. unfold released, busy in *. rewrite Ew in *. destruct Hw as (Hpos & -> & _).
    assert (pushed n (mn s) = i /\ (i < popped (sh s) - 1 + 2)%nat) as [Hpi Hlt] by (destruct (mn s); try done; injection Hp as <-; cbn; tauto).
    intros E. apply (encode_slot_inj (popped (sh s) - 1)) in E; lia.
  - intros j at_ Ew. by apply draining with at_.
  - exists r, d. split; [lia|done].
  - intros i Em Hinv. rewrite Em in *. cbn in Hc. apply (recovers_late o Hready i r d); [done| |done].
    pose proof (rd_threaded o Hready (proj1 (proj1 (andb_true_iff _ _) Hinv)) (proj1 (Z.eqb_eq _ _) Hthreaded)). lia.
  - intros Em. rewrite Em in *. destruct Hmn as [Ew He]. cbn [pushed] in Hc. pose proof (iv_worker s Hi) as Hw. unfold worker_ok in Hw. rewrite Ew, He in Hw.
    destruct Hw as (Hpe & _ & Hfn). rewrite (iv_pending s Hi), Em in Hpe. cbn [pushed] in Hpe. apply map_eq_nil in Hpe.
    assert (n - popped (sh s) = 0)%nat as H0 by (by rewrite <- (length_seq (n - popped (sh s)) (popped (sh s))), Hpe).
    assert (popped (sh s) = n) as Hpn by lia. rewrite Hpn in Hfn.
    split_and!; [done|by eapply (asked_gates o Hready s n); rewrite ?Em; try done; apply Hi|].
    assert (healthy s) as Hh by (split_and!; [done|by rewrite Ew|by rewrite Em]). pose proof (iv_locked s Hi Hh) as Hl. rewrite Ew in Hl.
    assert (forall k, (n <= k < n + 2)%nat -> mapped (sl s) (slot k) = false) as Hmp.
    { intros j Hj. assert (released s = n) as Hr by (unfold released, busy; rewrite Ew, He; lia). rewrite (iv_mapped s Hi Hh) by lia.
      unfold on_its_way. rewrite Em, Ew, Hr. cbn [pushed mapping unmapping]. rewrite (proj2 (Nat.ltb_ge j n)) by lia. by rewrite andb_false_r. }
    apply destroy_nothing; try apply Hl.
    all: match goal with |- mapped _ ?x = false => destruct (slot_cover n x ltac:(lia)) as (j & Hj & <-); by apply Hmp end.
  - intros [Em|[i Em]]; rewrite Em in Hmn; [by destruct Hmn|done].
Qed.
End threaded.

(** ** The sequential mode *)

Section sequential.
Context (o : Options).
Hypothesis (Hready : ready o) (Hsequential : threaded o = false).
#[local] Abbreviation n := (Z.to_nat (frame_count o)).

Definition turn_ok (m : main_at) (x : slots) (F : files) : Prop :=
  match m with
  | MWait i | MRecover i | MCapture i | MConvert i | MMap i | MEncode i => (i < n)%nat /\ files_at o i i F
  | MDrain i at_ => (i < n)%nat /\ submitted x (slot i) = Some (Z.of_nat (S i)) /\ drain_ok o (S i) at_ F
  | MEos | MEnd => files_at o n n F
  | MThrown _ => exists r d, (d <= r <= n)%nat /\ files_at o r d F
  | _ => False
  end.

(** While nothing has failed, the slot of the turn is the only one locked or mapped. *)
Definition slot_flags (m : main_at) (x : slots) : Prop :=
  broken m = false ->
  (forall j, locked x j = match m with MDrain i at_ => Nat.eqb j (slot i) && holding at_ | _ => false end) /\
  (forall j, mapped x j = match m with MEncode i | MDrain i _ => Nat.eqb j (slot i) | _ => false end).

Definition sequential_inv (s : state) : Prop :=
  wk s = WEnd /\ worker_error (sh s) = false /\ pending (sh s) = [] /\ turn_ok (mn s) (sl s) (fl s) /\ slot_flags (mn s) (sl s) /\ asked o n s.

Lemma sequential_initial : sequential_inv (initial o).
Proof.
  pose proof (frames_nat o Hready). pose proof (asked_initial o Hready) as Ha. unfold initial in *. rewrite Hsequential in *.
  split_and!; try done. cbn. split; [lia|apply files_initial].
Qed.

Lemma turn_some m x F : turn_ok m x F -> exists r d, (d <= r <= n)%nat /\ files_at o r d F.
Proof.
  destruct m as [i|i|i|i|i|i|i|i at_|i|i| | | | | |i|i|i|i]; try done; cbn; try (intros [? ?]; exists i, i; split; [lia|done]); try (intros ?; exists n, n; split; [lia|done]).
  intros (Hi & _ & (r & d & ? & ? & ?)%drain_some). exists r, d. split; [lia|done].
Qed.

Lemma sequential_step s s' : sequential_inv s -> step o s s' -> sequential_inv s'.
Proof.
  intros (Hw & He & Hp & Ht & Hf & Ha) Hs. pose proof (frames_nat o Hready) as Hn.
  destruct Hs as [a s s' Hs|a s s' Hs]; [unfold worker_step in Hs; by rewrite Hw in Hs|].
  assert (forall i, sequential_inv (throw o i s)) as Hthrow.
  { intros i. unfold throw. rewrite Hsequential. split_and!; try done. by eapply turn_some. }
  unfold main_step, next in Hs. unfold slot_flags, asked in Hf, Ha. rewrite Hsequential in Hs.
  destruct (mn s) as [i|i|i|i|i|i|i|i at_|i|i| | | | | |i|i|i|i] eqn:Em; try done; cbn [turn_ok negb] in *.
  - injection Hs as <-. by split_and!.
  - destruct (Ha eq_refl) as [Ha1 Ha2]. destruct (invalidates o i) eqn:Ei; [destruct (ok a)|]; injection Hs as <-; [|by apply Hthrow|].
    all: split_and!; try done; intros _; fields; split; [|exact Ha2].
    all: eapply (asked_recover o Hready i (ct s) (mkCounters 0 _ false)); [exact Ha1|]; rewrite Ei; cbn [invalidation_called].
    + by rewrite orb_true_r.
    + by rewrite orb_false_r.
  - destruct (ok a && same_geometry a)%bool; injection Hs as <-; [|by apply Hthrow]. by split_and!.
  - destruct (ok a); injection Hs as <-; [|by apply Hthrow]. by split_and!.
  - destruct (ok a); injection Hs as <-; [|by apply Hthrow]. split_and!; try done. intros _. fields. destruct (Hf eq_refl) as [Hl Hm].
    split; [done|]. intros j. unfold set_slot. destruct (Nat.eqb j (slot i)); [done|]. apply Hm.
  - set (s0 := if frame_id i =? force_idr_frame o then _ else s) in Hs.
    destruct (Ha eq_refl) as [Ha1 Ha2].
    assert (exists c, s0 = set_ct c s /\ invalidation_called c = invalidation_called (ct s) /\
      forced_idr c = (forced_idr (ct s) || (frame_id i =? force_idr_frame o))%bool) as (c & Hs0 & Hc1 & Hc2).
    { subst s0. destruct (frame_id i =? force_idr_frame o); [eexists|exists (ct s)]; split_and!; try done; [by rewrite orb_true_r|by destruct s|by rewrite orb_false_r]. }
    apply (asked_encode o Hready i (ct s) c Ha2) in Hc2. rewrite Hs0 in Hs. clearbody s0. clear Hs0.
    destruct (ok a); injection Hs as <-.
    2: { unfold throw. rewrite Hsequential. split_and!; try done. apply (turn_some (MEncode i) (sl s)). by cbn. }
    split_and!; try done; fields.
    + cbn [turn_ok submitted]. rewrite set_slot_same. split_and!; [tauto|unfold frame_id; f_equal; lia|]. cbn [drain_ok]. replace (S i - 1)%nat with i by lia. tauto.
    + intros _. destruct (Hf eq_refl) as [Hl Hm]. split; [|done]. intros j. fields. by rewrite Hl, andb_false_r.
    + intros _. fields. rewrite Hc1. split; [exact Ha1|exact Hc2].
  - destruct Ht as (Hi & Hsub & Hd). destruct (drain_step o (slot i) at_ a s) as [r s1] eqn:Ed.
    destruct (drain_step_spec o _ _ _ _ (S i) _ _ ltac:(lia) ltac:(lia) Hsub Hd Ed) as (Hs1 & Hsu & Hr).
    destruct (drain_step_moves _ _ _ _ _ _ _ Ed) as (E0 & E1 & E2 & E3 & _). destruct (Hf eq_refl) as [Hl Hm].
    destruct r as [at'| |]; injection Hs as <-.
    + destruct Hr as (Hr1 & Hr2 & Hr3). split_and!; fields; rewrite ?E0, ?E2, ?Hsu; try done.
      * cbn [turn_ok]. by rewrite Hsu.
      * intros _. rewrite Hr2. split; [by apply Hr3|done].
      * intros _. fields. rewrite E3. by apply Ha.
    + destruct Hr as (Hr1 & Hr2 & Hr3). split_and!; fields; rewrite ?E0, ?E2; try done.
      * destruct (Z.ltb_spec (Z.of_nat (S i)) (frame_count o)); cbn [turn_ok]; [split; [lia|done]|]. by replace n with (S i) by lia.
      * intros _. rewrite Hr2. split; intros j; destruct (_ <? _); try (by apply Hr3); unfold set_slot; rewrite Hm; by destruct (Nat.eqb j (slot i)).
      * intros _. fields. rewrite E3. destruct (Ha eq_refl) as [Ha1 Ha2]. cbn [passed_recover passed_encode pushed] in Ha1, Ha2.
        destruct (Z.ltb_spec (Z.of_nat (S i)) (frame_count o)); cbn [passed_recover passed_encode pushed]; [done|]. by replace n with (S i) by lia.
    + subst s1. apply Hthrow.
  - injection Hs as <-. destruct (ok a); split_and!; try done. exists n, n. split; [lia|done].
Qed.

Lemma sequential_measure s s' : sequential_inv s -> step o s s' -> (measure n s' < measure n s)%nat.
Proof.
  intros (Hw & _ & _ & Ht & _) Hs. destruct Hs as [a s s' Hs|a s s' Hs]; [unfold worker_step in Hs; by rewrite Hw in Hs|].
  eapply loop_measure; [|done]. destruct (mn s); cbn in *; tauto.
Qed.

Lemma sequential_progress s : sequential_inv s -> final s \/ can_move o s.
Proof. intros (Hw & _ & _ & Ht & _). apply loop_awake; [|done]. intros i E. by rewrite E in Ht. Qed.

Lemma sequential_promises k s : nsteps (step o) k (initial o) s -> promises o n k s.
Proof.
  intros Hs. pose proof (nsteps_invariant _ _ sequential_step _ _ _ sequential_initial Hs) as Hi.
  pose proof (nsteps_measure _ _ sequential_step (measure n) _ _ _ sequential_measure sequential_initial Hs) as Hm.
  pose proof (frames_nat o Hready) as Hn. pose proof Hi as (Hw & He & Hp & Ht & Hf & Ha). split.
  - pose proof (measure_initial o n). lia.
  - by apply sequential_progress.
  - intros i j at_ _ E. congruence.
  - intros j at_ E. congruence.
  - by eapply turn_some.
  - intros i Em Hinv. rewrite Em in Ht. destruct Ht as [Hi' Hfi]. apply (recovers_late o Hready i i i); [done| |done]. pose proof (rd_delay o Hready). lia.
  - intros Em. rewrite Em in Ht. split_and!; [done|by eapply (asked_gates o Hready s n); rewrite ?Em|].
    unfold slot_flags in Hf. rewrite Em in Hf. destruct (Hf eq_refl) as [Hl Hmp]. by apply destroy_nothing.
  - done.
Qed.
End sequential.

(** ** The theorem *)

(** C11: The recovery pipeline.  For every command line the probe accepts, in both queue
    modes, for every interleaving of the capture loop with the draining thread and every
    outcome of the calls: a run ends after at most [130 n + 67] steps; no wakeup is lost
    (until the end some thread can move); a slot is never prepared and drained at once and a
    drained slot holds the picture whose turn it is; the reference file holds the first
    pictures in order and the bitstream the same without the lost one; references are only
    invalidated once the lost picture has been dropped; a run that reaches its end has
    written every picture, passes the gates on loss, invalidation and forced IDR, and leaves
    nothing locked or mapped; every run that is over has joined the thread; and a run whose
    calls succeed is over only at that end. *)
Theorem recovery_pipeline arguments o k s :
  parse_options arguments = Run o -> nsteps (step o) k (initial o) s ->
  promises o (Z.to_nat (frame_count o)) k s /\
  (nsteps (good_step o) k (initial o) s -> ~ can_move o s -> mn s = MEnd).
Proof.
  intros Hready%parse_options_ready Hs. destruct (threaded o) eqn:Ht.
  - split; [by apply threaded_promises|]. intros Hg. apply (completes o (inv o) k s); [by apply threaded_initial| | |done].
    + intros x y Hx Hxy. by apply (inv_step o Hready Ht x).
    + intros x Hx. split_and!; [| |by apply threaded_progress].
      * intros j at_ Ew. by rewrite (draining o Ht x j at_ Hx Ew).
      * intros i at_ Em. pose proof (iv_main o x Hx) as Hm. unfold main_ok in Hm. by rewrite Em in Hm.
  - split; [by apply sequential_promises|]. intros Hg. apply (completes o (sequential_inv o) k s); [by apply sequential_initial| | |done].
    + intros x y Hx Hxy. by apply (sequential_step o Hready Ht x).
    + intros x Hx. split_and!; [| |by apply sequential_progress].
      * intros j at_ Ew. destruct Hx as [E _]. congruence.
      * intros i at_ Em. destruct Hx as (_ & _ & _ & Hx & _). rewrite Em in Hx. destruct Hx as (_ & -> & _). done.
Qed.

(** Running a schedule: [true] moves the draining thread. *)
Fixpoint drive (o : Options) (schedule : list bool) (s : state) : option state :=
  match schedule with
  | [] => Some s
  | who :: schedule => s' ← (if who then worker_step o good_answer s else main_step o good_answer s); drive o schedule s'
  end.

Lemma drive_good o schedule s s' : drive o schedule s = Some s' -> nsteps (good_step o) (length schedule) s s'.
Proof.
  revert s. induction schedule as [|[] schedule IH]; intros s; cbn [drive length]; [intros [= <-]; constructor|..].
  - destruct (worker_step o good_answer s) eqn:E; [|done]. intros H. econstructor; [by apply (good_worker o good_answer)|by apply IH].
  - destruct (main_step o good_answer s) eqn:E; [|done]. intros H. econstructor; [by apply (good_main o good_answer)|by apply IH].
Qed.

(** A run with the loss of the first frame: the loop first, the thread when the loop cannot move. *)
Fixpoint schedule_of (o : Options) (fuel : nat) (s : state) : list bool :=
  match fuel with
  | O => []
  | S fuel =>
      match main_step o good_answer s with
      | Some s => false :: schedule_of o fuel s
      | None => match worker_step o good_answer s with Some s => true :: schedule_of o fuel s | None => [] end
      end
  end.
Definition loss_arguments : list string :=
  ["--frames"; "3"; "--simulate-loss-frame"; "1"; "--force-idr-frame"; "2"; "--reference-bitstream"; "all.hevc"]%string.

Lemma recovery_pipeline_witness :
  exists o k s, parse_options loss_arguments = Run o /\ nsteps (good_step o) k (initial o) s /\ mn s = MEnd /\
    bitstream_file (fl s) = [2; 3] /\ reference_file (fl s) = [1; 2; 3] /\ requested_gates_passed o s = true /\ (k <= 130 * 3 + 67)%nat.
Proof.
  destruct (parse_options loss_arguments) as [o| |] eqn:E; [|vm_compute in E; discriminate E..].
  set (w := schedule_of o 457 (initial o)).
  destruct (drive o w (initial o)) as [s|] eqn:Ed; [|subst w; vm_compute in E; injection E as <-; vm_compute in Ed; discriminate Ed].
  exists o, (length w), s. pose proof (drive_good o w _ _ Ed) as Hg.
  destruct (recovery_pipeline loss_arguments o (length w) s E (nsteps_mono _ _ _ _ _ (good_call_step o) Hg)) as [Hp Hend].
  assert (main_step o good_answer s = None /\ Z.to_nat (frame_count o) = 3%nat /\ mn s = MEnd) as (_ & Hn & Hm)
    by (subst w; clear Hg Hp Hend; vm_compute in E; injection E as <-; vm_compute in Ed; injection Ed as <-; by split_and!).
  destruct (pr_end _ _ _ _ Hp Hm) as (Hf & Hgates & _). rewrite Hn in Hf. split_and!; try done.
  - subst w. clear Hg Hp Hend Hf Hgates. vm_compute in E. injection E as <-. vm_compute in Ed. by injection Ed as <-.
  - subst w. clear Hg Hp Hend Hf Hgates. vm_compute in E. injection E as <-. vm_compute in Ed. by injection Ed as <-.
  - pose proof (pr_bound _ _ _ _ Hp). lia.
Defined.
