(* ===== verification/VideoSetup.v ===== *)
(** * VideoSetup: around the pipeline of probes/video/plank-probe-video-pipeline.cpp

    What the probe acquires before its loop and its destructor gives back, the encoder's
    configuration, the self-tests of the conversion, and the figures and gates of the report.
    The driver's answers are parameters: whether a call succeeds, the output's geometry.
    Times are the microseconds of the code's vectors; the comparisons with the frame budget
    and the targets are on integers, which the code's doubles hold exactly. *)

From stdpp Require Import gmap sorting.
From S2P Require Import Prelude.
From S2P Require Import Endian.
From S2P Require Import BenchX264.
From S2P Require Import Playback.
From S2P Require Import VideoPipeline.
From S2P Require Import VideoThreads.
From Stdlib Require Import Ascii.
#[local] Open Scope Z_scope.

Import Arguments Conversion Threads.

(** ** Resources *)

Module Resources.

(** The members of [Resources] that the destructor looks at. *)
Inductive resource :=
  | CudaLoader | CudaContext | ConversionStream | CudaModule | FbcLibrary | FbcHandle | FbcCapture | NvencLoader | Encoder
  | Surface (slot : nat) | Registered (slot : nat) | Bitstream (slot : nat) | Mapped (slot : nat) | Locked (slot : nat).

#[export] Instance resource_eq_dec : EqDecision resource.
Proof. solve_decision. Defined.

(** A call that fills a member, or one that is only required to succeed. *)
Inductive call := Acquires (r : resource) | Calls (name : string).

Definition initialize_cuda : list call :=
  [Acquires CudaLoader; Calls "cuInit"; Calls "cuDeviceGet"; Calls "cuDeviceGetName"; Acquires CudaContext;
   Calls "cuCtxGetStreamPriorityRange"; Acquires ConversionStream; Acquires CudaModule;
   Calls "cuModuleGetFunction"; Calls "cuModuleGetFunction(8-bit)"]%string.
Definition initialize_nvfbc : list call :=
  [Acquires FbcLibrary; Calls "dlsym"; Calls "NvFBCCreateInstance"; Acquires FbcHandle; Calls "NvFBCGetStatus"; Calls "output";
   Acquires FbcCapture; Calls "NvFBCToCudaSetUp"]%string.
Definition slot_calls (slot : nat) : list call := [Acquires (Surface slot); Acquires (Registered slot); Acquires (Bitstream slot)].
Definition initialize_nvenc : list call :=
  [Acquires NvencLoader; Calls "NvEncodeAPICreateInstance"; Acquires Encoder; Calls "nvEncGetEncodePresetConfigEx";
   Calls "nvEncInitializeEncoder"]%string ++ concat (map slot_calls (seq 0 kSlots)).

(** Everything before the loop. *)
Definition setup (o : Options) : list call :=
  initialize_cuda ++ [Calls "self_test_conversion"%string] ++ initialize_nvfbc ++ initialize_nvenc ++
  [Calls "bitstream output"%string] ++ (if keeps_reference o then [Calls "reference bitstream output"%string] else []).

Definition acquired (c : call) : list resource := match c with Acquires r => [r] | Calls _ => [] end.

(** The calls in order, up to the first that fails; whether none did. *)
Fixpoint perform (calls : list call) (answers : list bool) (live : list resource) : list resource * bool :=
  match calls, answers with
  | [], _ => (live, true)
  | c :: calls, true :: answers => perform calls answers (live ++ acquired c)
  | _, _ => (live, false)
  end.

Definition has (live : list resource) (r : resource) : bool := bool_decide (r ∈ live).
Definition when (b : bool) (r : resource) : list resource := if b then [r] else [].

(** [~Resources]: the members that are set, in the order of the destructor. *)
Definition destroy (live : list resource) : list resource :=
  let has := has live in
  concat (map (fun i =>
    when (has (Locked i) && has Encoder) (Locked i) ++ when (has (Mapped i) && has Encoder) (Mapped i) ++
    when (has (Bitstream i) && has Encoder) (Bitstream i) ++ when (has (Registered i) && has Encoder) (Registered i)) (seq 0 kSlots)) ++
  when (has Encoder) Encoder ++ when (has NvencLoader) NvencLoader ++
  when (has FbcCapture) FbcCapture ++ when (has FbcHandle) FbcHandle ++ when (has FbcLibrary) FbcLibrary ++
  concat (map (fun i => when (has (Surface i) && has CudaLoader) (Surface i)) (seq 0 kSlots)) ++
  when (has ConversionStream && has CudaLoader) ConversionStream ++ when (has CudaModule && has CudaLoader) CudaModule ++
  when (has CudaContext && has CudaLoader) CudaContext ++ when (has CudaLoader) CudaLoader.

(** What the pipeline leaves locked and mapped. *)
Definition left_over (locked mapped : nat -> bool) : list resource :=
  concat (map (fun i => when (locked i) (Locked i) ++ when (mapped i) (Mapped i)) (seq 0 kSlots)).

(** What is live when the destructor runs: after a setup that failed, or after the loop. *)
Definition live_at_end (o : Options) (answers : list bool) (s : state) : list resource :=
  let '(live, completed) := perform (setup o) answers [] in
  live ++ (if completed then left_over (locked (sl s)) (mapped (sl s)) else []).

(** What a resource is made from, and must not outlive. *)
Definition made_from (r : resource) : list resource :=
  match r with
  | CudaLoader | FbcLibrary | NvencLoader => []
  | CudaContext => [CudaLoader]
  | ConversionStream | CudaModule => [CudaContext; CudaLoader]
  | FbcHandle => [FbcLibrary]
  | FbcCapture => [FbcHandle; FbcLibrary]
  | Encoder => [NvencLoader; CudaContext]
  | Surface _ => [CudaContext; CudaLoader]
  | Registered i => [Surface i; Encoder]
  | Bitstream i => [Encoder]
  | Mapped i => [Registered i; Encoder]
  | Locked i => [Bitstream i; Encoder]
  end.
End Resources.

(** ** The encoder's configuration *)

Module Configuration.

Inductive profile_guid := HevcFrext | H264High444.
Inductive buffer_format := Yuv444TenBit | Yuv444.

(** The members the probe sets in the preset's configuration and in the session's parameters;
    [None] is [NVENC_INFINITE_GOPLENGTH]. *)
Record config := mkConfig {
  profile : profile_guid; format : buffer_format; gop_length : option Z; frame_interval_p : Z;
  average_bit_rate : Z; max_bit_rate : Z; vbv_buffer_size : Z; vbv_initial_delay : Z;
  enable_lookahead : bool; zero_reorder_delay : bool;
  chroma_format_idc : Z; input_bit_depth : Z; output_bit_depth : Z; idr_period : option Z;
  enable_intra_refresh : bool; intra_refresh_period_ : Z; intra_refresh_cnt : Z; single_slice : bool;
  max_reference_frames : Z; repeat_parameter_sets : bool; full_range : bool; matrix_rgb : bool;
  encode_width : Z; encode_height : Z; frame_rate_num : Z; frame_rate_den : Z; enable_ptd : bool;
  tuning_ : tuning_info; split_ : split }.

Definition encoder_config (o : Options) (width height : Z) : config :=
  let hevc := match codec o with kHevc10 => true | kH264EightBit => false end in
  let depth := if hevc then 10 else 8 in
  let period := u32 (intra_refresh_period o) in
  let count := u32 (intra_refresh_count o) in
  mkConfig (if hevc then HevcFrext else H264High444) (if hevc then Yuv444TenBit else Yuv444) None 1
    (bitrate o) (bitrate o) (vbv_bits o) (vbv_bits o) false true 3 depth depth None
    (0 <? count) period count ((0 <? count) && single_slice_intra_refresh o) (reference_frames o) true true true
    width height (frame_rate o) 1 true (tuning o) (split_mode o).

(** [cuMemAllocPitch] of a slot's surface: bytes of a row and rows. *)
Definition surface_request (o : Options) (width height : Z) : Z * Z :=
  (u64 (width * (match codec o with kHevc10 => 2 | kH264EightBit => 1 end)), u64 (height * 3)).

(** The conversion's format in the loop. *)
Definition ten_bit (o : Options) : bool := match codec o with kHevc10 => true | kH264EightBit => false end.
End Configuration.

(** ** Self-tests *)

Module SelfTest.

Definition self_test : bool :=
  (expand_to_msb_aligned_10_bit 0 =? 0) && (expand_to_msb_aligned_10_bit 128 =? 32896) && (expand_to_msb_aligned_10_bit 255 =? 65472).

Definition test_source : list Z := [0; 0; 0; 255; 255; 255; 255; 255; 255; 0; 0; 255; 0; 128; 255; 255].

(** Sixteen-bit samples of a memory. *)
Definition samples (n : nat) (memory : list Z) (count : nat) : option (list Z) :=
  mapM (fun i => sample n memory (Z.of_nat n * Z.of_nat i)) (seq 0 count).

Definition self_test_conversion (order : Z -> list Z) (memory10 memory8 : list Z) : option bool :=
  let width := 4 in let height := 1 in
  let maximum := expand_to_msb_aligned_10_bit 255 in
  let midpoint := expand_to_msb_aligned_10_bit 128 in
  d ← launch_conversion order test_source width height (width * 2) true memory10;
  result ← samples 2 d 12;
  if negb (bool_decide (result = [0; maximum; 0; midpoint; 0; maximum; maximum; 0; 0; maximum; 0; maximum])) then Some false
  else
    d ← launch_conversion order test_source width height width false memory8;
    result ← samples 1 d 12;
    Some (bool_decide (result = [0; 255; 0; 128; 0; 255; 255; 0; 0; 255; 0; 255])).
End SelfTest.

(** ** The report *)

Module Report.

(** The nearest-rank percentile of [std::sort]ed values; the index is a [std::size_t]. *)
Definition percentile (values : list Z) (percent : Z) : Z :=
  match values with
  | [] => 0
  | _ => nth (Z.to_nat (u64 (u64 (u64 (u64 (len values * percent) + 99) / 100) - 1))) (merge_sort Z.le values) 0
  end.

(** The measured times that the gates look at. *)
Record times := mkTimes { capture_us : list Z; conversion_us : list Z; encode_us : list Z; pipeline_us : list Z; deadline_misses : Z }.

Definition within_budget (o : Options) (us : Z) : bool := us * frame_rate o <=? 1000000.
Definition budget_misses (o : Options) (values : list Z) : Z := len (filter (fun us => within_budget o us = false) values).

Section gates.
Context (o : Options) (t : times) (fps_reached : bool).  (* achieved_fps >= frame_rate * 0.99 *)

Definition allowed_deadline_misses : Z := Z.max 1 (frame_count o / 100).
Definition source_activity_passed (s : state) : bool :=
  negb (require_changing_source o) || (u32 (frame_count o * 9) <=? u32 (new_frames (ct s) * 10)).
Definition capture_conversion_target : bool := percentile (capture_us t) 95 + percentile (conversion_us t) 95 <=? 3000.
Definition nvenc_target : bool := percentile (encode_us t) 95 <=? 8000.
Definition local_pipeline_target : bool := percentile (pipeline_us t) 95 <=? 25000.
Definition realtime_passed (s : state) : bool :=
  fps_reached && (deadline_misses t <=? allowed_deadline_misses) && within_budget o (percentile (pipeline_us t) 95) &&
  capture_conversion_target && local_pipeline_target && source_activity_passed s.
Definition realtime_robustness_passed (s : state) : bool :=
  realtime_passed s && within_budget o (percentile (pipeline_us t) 99) && (deadline_misses t =? 0).
Definition component_targets_passed : bool := capture_conversion_target && nvenc_target && local_pipeline_target.

(** The exit code of a run that came to its end, and of one that threw. *)
Definition exit_code (s : state) : Z :=
  match mn s with
  | MEnd =>
      if (if require_robustness o then realtime_robustness_passed s else realtime_passed s) && requested_gates_passed o s then 0 else 1
  | _ => 3
  end.
End gates.
End Report.

(** ** The destructor gives back what was acquired *)

Import Resources.

(** [r] comes before [d]. *)
Definition before (l : list resource) (r d : resource) : Prop := exists l1 l2 l3, l = l1 ++ r :: l2 ++ d :: l3.

Fixpoint is_before (l : list resource) (r d : resource) : bool :=
  match l with [] => false | x :: l => if decide (x = r) then bool_decide (d ∈ l) else is_before l r d end.

Lemma is_before_spec l r d : is_before l r d = true -> before l r d.
Proof.
  induction l as [|x l IH]; [done|]. cbn. destruct (decide (x = r)) as [->|].
  - intros (l2 & l3 & ->)%bool_decide_eq_true_1%list_elem_of_split. by exists [], l2, l3.
  - intros (l1 & l2 & l3 & ->)%IH. by exists (x :: l1), l2, l3.
Qed.

(** A set of live resources given back whole, and each before what it is made from. *)
Definition given_back (live : list resource) : bool :=
  bool_decide (NoDup live) && bool_decide (NoDup (destroy live)) &&
  forallb (fun r => bool_decide (r ∈ live)) (destroy live) && forallb (fun r => bool_decide (r ∈ destroy live)) live &&
  forallb (fun r => forallb (is_before (destroy live) r) (made_from r)) live.

Lemma given_back_spec live : given_back live = true ->
  destroy live ≡ₚ live /\ forall r d, r ∈ live -> d ∈ made_from r -> before (destroy live) r d.
Proof.
  unfold given_back. intros [[[[H1%bool_decide_eq_true_1 H2%bool_decide_eq_true_1]%andb_true_iff H3]%andb_true_iff H4]%andb_true_iff H5]%andb_true_iff.
  rewrite forallb_forall in H3, H4, H5. split.
  - apply NoDup_Permutation; [done..|]. intros r. split; intros Hr%list_elem_of_In.
    + by apply H3, bool_decide_eq_true_1 in Hr.
    + by apply H4, bool_decide_eq_true_1 in Hr.
  - intros r d Hr Hd. apply list_elem_of_In in Hr, Hd. specialize (H5 r Hr). rewrite forallb_forall in H5. by apply is_before_spec, H5.
Qed.

(** A setup acquires what its first calls acquire. *)
Lemma perform_prefix calls answers live : exists k, (k <= length calls)%nat /\
  perform calls answers live = (live ++ concat (map acquired (take k calls)), (k =? length calls)%nat).
Proof.
  revert answers live. induction calls as [|c calls IH]; intros answers live.
  - exists 0%nat. cbn. by rewrite app_nil_r.
  - destruct answers as [|[] answers]; [exists 0%nat|destruct (IH answers (live ++ acquired c)) as (k & Hk & E); exists (S k)|exists 0%nat]; cbn;
      try (split; [lia|by rewrite app_nil_r]).
    rewrite E, <- app_assoc. split; [lia|done].
Qed.

Lemma all_given_back o l0 l1 m0 m1 :
  forallb (fun k => given_back (concat (map acquired (take k (setup o))) ++
    (if (k =? length (setup o))%nat then when l0 (Locked 0) ++ when m0 (Mapped 0) ++ when l1 (Locked 1) ++ when m1 (Mapped 1) else [])))
    (seq 0 (S (length (setup o)))) = true.
Proof. unfold setup. destruct (keeps_reference o), l0, l1, m0, m1; by vm_compute. Qed.

(** Resources.  Wherever the setup fails, and whatever the loop leaves locked or mapped,
    the destructor releases exactly what had been acquired, each once, and each before the
    resources it is made from. *)
Theorem resources_released o answers s :
  destroy (live_at_end o answers s) ≡ₚ live_at_end o answers s /\
  forall r d, r ∈ live_at_end o answers s -> d ∈ made_from r -> before (destroy (live_at_end o answers s)) r d.
Proof.
  apply given_back_spec. unfold live_at_end. destruct (perform_prefix (setup o) answers []) as (k & Hk & ->).
  pose proof (all_given_back o (locked (sl s) 0) (locked (sl s) 1) (mapped (sl s) 0) (mapped (sl s) 1)) as H.
  rewrite forallb_forall in H. specialize (H k). rewrite in_seq in H. specialize (H ltac:(lia)).
  unfold left_over, kSlots. cbn [seq map concat app]. rewrite app_nil_r, <- !app_assoc. exact H.
Qed.

(** ** The self-tests pass *)

Import SelfTest.

Lemma sample_list n d (f : nat -> Z) count :
  (forall i, (i < count)%nat -> sample n d (Z.of_nat n * Z.of_nat i) = Some (f i)) -> samples n d count = Some (map f (seq 0 count)).
Proof.
  intros H. unfold samples. apply mapM_Some_2. apply (Forall2_fmap_r (A := nat)), Forall_Forall2_diag, Forall_forall.
  intros i Hi%elem_of_seq. apply H. lia.
Qed.

(** The self-tests.  With any order of the device's threads and any contents of the test
    buffers, the conversion's self-tests run to their end and pass. *)
Theorem self_tests_pass (order : Z -> list Z) memory10 memory8 :
  (forall n, order n ≡ₚ seqZ 0 n) -> length memory10 = 24%nat -> length memory8 = 12%nat ->
  self_test = true /\ self_test_conversion order memory10 memory8 = Some true.
Proof.
  intros Ho H10 H8. split; [done|]. unfold self_test_conversion.
  assert (bytes test_source) as Hb by (repeat constructor; lia).
  assert (forall ten_bit memory, Z.of_nat (length memory) = 12 * Z.of_nat (sample_bytes ten_bit) -> exists d,
    launch_conversion order test_source 4 1 (4 * Z.of_nat (sample_bytes ten_bit)) ten_bit memory = Some d /\
    samples (sample_bytes ten_bit) d 12 = Some (map (reference ten_bit) [0; 255; 0; 128; 0; 255; 255; 0; 0; 255; 0; 255])) as Hrun.
  { intros ten_bit memory Hm.
    destruct (identity_conversion order test_source 4 1 (4 * Z.of_nat (sample_bytes ten_bit)) ten_bit memory) as (d & Hd & _ & Hs);
      [done|done|lia|lia|lia|destruct ten_bit; cbn; lia|destruct ten_bit; cbn; lia|cbn; lia|rewrite Hm; lia|].
    exists d. split; [done|].
    rewrite (sample_list _ _ (fun i => nth i (map (reference ten_bit) [0; 255; 0; 128; 0; 255; 255; 0; 0; 255; 0; 255]) 0)); [done|].
    intros i Hi. assert (exists x p, (x < 4 /\ p < 3 /\ i = 4 * p + x)%nat) as (x & p & Hx & Hp & ->)
      by (exists (i mod 4)%nat, (i / 4)%nat; pose proof (Nat.div_mod i 4); pose proof (Nat.mod_upper_bound i 4); lia).
    destruct (Hs (Z.of_nat x) 0 (Z.of_nat p)) as (v & Hv & Hsam & _); [lia..|].
    replace (Z.of_nat (sample_bytes ten_bit) * Z.of_nat (4 * p + x)) with
      (Z.of_nat (sample_bytes ten_bit) * (0 * 4 + Z.of_nat x) + Z.of_nat p * (4 * Z.of_nat (sample_bytes ten_bit) * 1)) by lia.
    rewrite Hsam. f_equal. clear Hsam Hs Hd.
    destruct p as [|[|[|]]]; try lia; destruct x as [|[|[|[|]]]]; try lia; cbn in Hv; injection Hv as <-; reflexivity. }
  destruct (Hrun true memory10) as (d & Hd & Hr); [by rewrite H10|].
  destruct (Hrun false memory8) as (d' & Hd' & Hr'); [by rewrite H8|].
  cbn [sample_bytes] in *. change (4 * 2) with (4 * Z.of_nat 2). rewrite Hd. cbn [mbind option_bind]. rewrite Hr. cbn [mbind option_bind].
  rewrite bool_decide_eq_true_2 by reflexivity. cbn [negb]. change (4 * Z.of_nat 1) with 4 in Hd'. rewrite Hd'. cbn [mbind option_bind]. by rewrite Hr'.
Qed.

Lemma self_tests_pass_witness : let order n := rev (seqZ 0 n) in self_test_conversion order (repeat 7 24) (repeat 9 12) = Some true.
Proof.
  intros order. apply self_tests_pass; [|done..]. intros n. unfold order. rewrite <- (Permutation_rev (seqZ 0 n)). reflexivity.
Defined.

(** ** Percentiles *)

Import Report.

Lemma sorted_nth l i j : Sorted Z.le l -> (i <= j < length l)%nat -> nth i l 0 <= nth j l 0.
Proof.
  intros Hs Hij. apply Sorted_StronglySorted in Hs; [|exact Z.le_trans]. revert i j Hij. induction Hs as [|x l Hs IH Hx]; intros i j Hij; [cbn in Hij; lia|].
  destruct i as [|i], j as [|j]; cbn in *; [lia| |lia|apply IH; lia].
  rewrite Forall_forall in Hx. apply Hx, list_elem_of_In, nth_In. lia.
Qed.

(** The rank, as a number of times. *)
Lemma rank_bounds n percent : 0 < n -> n < 2 ^ 56 -> 1 <= percent <= 100 ->
  let k := u64 (u64 (u64 (u64 (n * percent) + 99) / 100) - 1) in 0 <= k < n /\ 100 * k < percent * n <= 100 * (k + 1).
Proof.
  intros Hn Hm Hp. assert (0 < n * percent <= n * 100) by nia.
  rewrite (wrap_small 64 (n * percent)), (wrap_small 64 (n * percent + 99)) by (unfold in_range; lia).
  pose proof (Z.div_mod (n * percent + 99) 100 ltac:(lia)). pose proof (Z.mod_pos_bound (n * percent + 99) 100 ltac:(lia)).
  rewrite (wrap_small 64 ((n * percent + 99) / 100)) by (unfold in_range; lia). rewrite wrap_small by (unfold in_range; lia). lia.
Qed.

Lemma count_below l k (P : Z -> Prop) `{!forall v, Decision (P v)} :
  (forall i, (i < k)%nat -> P (nth i l 0)) -> (k <= length l)%nat -> (k <= length (filter P l))%nat.
Proof.
  revert k. induction l as [|x l IH]; intros k HP Hk; [cbn in *; lia|]. destruct k as [|k]; [lia|].
  rewrite filter_cons, decide_True by (apply (HP 0%nat); lia). cbn in *. apply le_n_S, IH; [|lia]. intros i Hi. apply (HP (S i)). lia.
Qed.

Lemma count_above l k (P : Z -> Prop) `{!forall v, Decision (P v)} :
  (forall i, (k <= i < length l)%nat -> ~ P (nth i l 0)) -> (length (filter P l) <= k)%nat.
Proof.
  revert k. induction l as [|x l IH]; intros k HP; [cbn; lia|]. rewrite filter_cons. destruct k as [|k].
  - rewrite decide_False by (apply (HP 0%nat); cbn; lia). apply IH. intros i Hi. apply (HP (S i)). cbn. lia.
  - assert (length (filter P l) <= k)%nat by (apply IH; intros i Hi; apply (HP (S i)); cbn; lia). case_decide; cbn; lia.
Qed.

(** Percentiles.  The [percent]-th percentile of some times is one of them; at least
    [percent] per cent of the times are not above it, and less than [percent] per cent are
    below it. *)
Theorem percentile_rank values percent :
  values <> [] -> 1 <= percent <= 100 -> len values < 2 ^ 56 ->
  percentile values percent ∈ values /\
  percent * len values <= 100 * len (filter (fun v => v <= percentile values percent) values) /\
  100 * len (filter (fun v => v < percentile values percent) values) < percent * len values.
Proof.
  intros Hne Hp Hlen. assert (0 < len values) as Hpos by (destruct values; [done|cbn; lia]).
  destruct (rank_bounds (len values) percent Hpos Hlen Hp) as [Hk Hr]. set (k := u64 _) in *.
  set (l := merge_sort Z.le values). assert (l ≡ₚ values) as Hl by apply merge_sort_Permutation.
  assert (Sorted Z.le l) as Hs by (apply Sorted_merge_sort; intros x y; lia). pose proof (Permutation_length Hl) as Hll.
  assert (percentile values percent = nth (Z.to_nat k) l 0) as -> by (by destruct values).
  assert (Z.to_nat k < length l)%nat as Hkl by lia. set (v := nth (Z.to_nat k) l 0).
  assert (forall P : Z -> Prop, forall D : (forall v, Decision (P v)), length (filter P values) = length (filter P l)) as Hfil
    by (intros P D; by rewrite Hl). split_and!.
  - rewrite <- Hl. apply list_elem_of_In, nth_In. done.
  - rewrite Hfil. assert (S (Z.to_nat k) <= length (filter (fun x : Z => (x <= v)%Z) l))%nat; [|lia].
    apply count_below; [|lia]. intros i Hi. apply sorted_nth; [done|lia].
  - rewrite Hfil. assert (length (filter (fun x : Z => (x < v)%Z) l) <= Z.to_nat k)%nat; [|lia].
    apply count_above. intros i Hi. pose proof (sorted_nth l (Z.to_nat k) i Hs ltac:(lia)). fold v in H. lia.
Qed.

Lemma percentile_rank_witness :
  percentile [30; 10; 20; 40] 95 = 40 /\ 95 * 4 <= 100 * len (filter (fun v => v <= percentile [30; 10; 20; 40] 95) [30; 10; 20; 40]).
Proof. split; [by vm_compute|]. apply (percentile_rank [30; 10; 20; 40] 95); [done|lia|by vm_compute]. Defined.

(** ** The encoder's configuration *)

Import Configuration.

Definition rates (o : Options) : Prop :=
  1 <= bitrate o <= 4000000000 /\ 1 <= vbv_bits o <= 1000000000 /\ 1 <= frame_rate o <= 36000 /\
  -1 <= intra_refresh_period o <= 36000 /\ intra_refresh_period o <> 0 /\ -1 <= intra_refresh_count o <= 36000 /\ 0 <= reference_frames o.

Lemma parse_rate_range value maximum scale v : 0 < scale -> maximum * scale < 2 ^ 32 -> 0 <= maximum ->
  parse_rate value maximum scale = Some v -> scale <= v <= maximum * scale.
Proof.
  intros Hs Hm H0. unfold parse_rate. destruct (stoul value) as [u|] eqn:E; [|done]. cbn [mbind option_bind]. apply stoul_nonneg in E.
  destruct (_ || _) eqn:Eb; [done|]. apply orb_false_iff in Eb as [E1%Z.eqb_neq E2%Z.ltb_ge]. intros [= <-].
  assert (0 <= u * scale <= maximum * scale) by nia. rewrite (wrap_small 64) by (unfold in_range; lia). rewrite wrap_small by (unfold in_range; lia). nia.
Qed.

Lemma parse_intra_range value low v : parse_intra value low = Some v -> low <= v <= 36000.
Proof.
  unfold parse_intra. destruct (Decode.stoi value) as [[u rest]|]; [|done]. cbn [mbind option_bind].
  destruct (_ || _) eqn:Eb; [done|]. apply orb_false_iff in Eb as [E1%Z.ltb_ge E2%Z.ltb_ge]. intros [= <-]. lia.
Qed.

Lemma valued_rates key value o o' : rates o -> valued key value o = Some (Some o') -> rates o'.
Proof.
  intros (H1 & H2 & H3 & H4 & H5 & H6 & H7) Hv. unfold valued in Hv.
  repeat match type of Hv with (if ?b then _ else _) = _ => destruct b end; try done.
  all: match type of Hv with
    | Some (?p ≫= _) = _ => destruct p as [v|] eqn:Ep; cbn [mbind option_bind] in Hv; [|done]
    | _ => idtac
    end; injection Hv as <-.
  all: try apply parse_count_range in Ep as [? Hz]; try apply parse_intra_range in Ep; try (apply parse_rate_range in Ep; [|lia..]);
    try specialize (Hz eq_refl).
  all: unfold rates; cbn [bitrate vbv_bits frame_rate intra_refresh_period intra_refresh_count reference_frames
    set_codec set_bitrate set_vbv_bits set_queue_depth set_intra_refresh_count set_intra_refresh_period set_single_slice_intra_refresh
    set_frame_count set_frame_rate set_simulate_loss_frame set_invalidate_delay_frames set_force_idr_frame set_reference_frames set_output_name
    set_bitstream_path set_reference_bitstream_path set_split_mode set_tuning]; split_and!; done || lia.
Qed.

(** What the consistency checks leave. *)
Definition settled (o : Options) : Prop :=
  1 <= bitrate o <= 4000000000 /\ 1 <= vbv_bits o <= 1000000000 /\ 1 <= frame_rate o <= 240 /\ 1 <= intra_refresh_period o <= 36000 /\
  0 <= intra_refresh_count o <= 36000 /\ (0 < intra_refresh_count o -> intra_refresh_count o < intra_refresh_period o) /\
  0 <= reference_frames o <= 8 /\ (recovery o = true -> 1 <= reference_frames o).

Lemma settle_settled o o' : rates o -> settle o = Some o' -> settled o'.
Proof.
  intros (H1 & H2 & H3 & H4 & H5 & H6 & H7) Es. unfold settle in Es. destruct (Z.ltb_spec 240 (frame_rate o)); [done|].
  set (oa := if intra_refresh_period o <? 0 then _ else o) in Es.
  assert (1 <= bitrate oa <= 4000000000 /\ 1 <= vbv_bits oa <= 1000000000 /\ 1 <= frame_rate oa <= 240 /\ 1 <= intra_refresh_period oa <= 36000 /\
    -1 <= intra_refresh_count oa <= 36000 /\ 0 <= reference_frames oa) as Ha.
  { subst oa. destruct (Z.ltb_spec (intra_refresh_period o) 0); [|split_and!; lia].
    cbn [set_intra_refresh_period bitrate vbv_bits frame_rate intra_refresh_period intra_refresh_count reference_frames]. split_and!; lia. }
  clearbody oa. destruct Ha as (A1 & A2 & A3 & A4 & A5 & A6).
  set (ob := if intra_refresh_count oa <? 0 then _ else oa) in Es.
  assert (1 <= bitrate ob <= 4000000000 /\ 1 <= vbv_bits ob <= 1000000000 /\ 1 <= frame_rate ob <= 240 /\ 1 <= intra_refresh_period ob <= 36000 /\
    0 <= intra_refresh_count ob <= 36000 /\ 0 <= reference_frames ob) as Hb.
  { subst ob. destruct (Z.ltb_spec (intra_refresh_count oa) 0); [|split_and!; lia].
    cbn [set_intra_refresh_count bitrate vbv_bits frame_rate intra_refresh_period intra_refresh_count reference_frames].
    rewrite Z.quot_div_nonneg by lia. pose proof (Z.div_pos (intra_refresh_period oa) 2). pose proof (Z.div_le_upper_bound (intra_refresh_period oa) 2 36000).
    split_and!; lia. }
  clearbody ob. clear A1 A2 A3 A4 A5 A6 oa. destruct Hb as (B1 & B2 & B3 & B4 & B5 & B6).
  destruct ((0 <? intra_refresh_count ob) && (intra_refresh_period ob <=? intra_refresh_count ob)) eqn:Ei; [done|].
  destruct ((frame_count ob <? simulate_loss_frame ob) || _ || _); [done|]. destruct (Z.ltb_spec 8 (reference_frames ob)); [done|].
  assert (0 < intra_refresh_count ob -> intra_refresh_count ob < intra_refresh_period ob) as Hlt.
  { intros Hpos. rewrite (proj2 (Z.ltb_lt _ _) Hpos) in Ei. by apply Z.leb_gt in Ei. }
  set (oc := if recovery ob && (reference_frames ob =? 0) then _ else ob) in Es.
  assert (settled oc) as Hc.
  { subst oc. unfold settled. destruct (recovery ob && (reference_frames ob =? 0)) eqn:Er.
    - cbn [set_reference_frames bitrate vbv_bits frame_rate intra_refresh_period intra_refresh_count reference_frames]. split_and!; lia.
    - split_and!; lia. }
  clearbody oc. destruct (recovery oc && _ && _); [done|]. destruct (negb _ && _); [done|]. by injection Es as <-.
Qed.

(** What the encoder is configured with: consistent with its own limits and the conversion. *)
Record configured (o : Options) (c : config) : Prop := {
  cf_rate : 1 <= average_bit_rate c <= 4000000000 /\ max_bit_rate c = average_bit_rate c;
  cf_vbv : 1 <= vbv_buffer_size c <= 1000000000 /\ vbv_initial_delay c = vbv_buffer_size c;
  cf_latency : frame_interval_p c = 1 /\ enable_lookahead c = false /\ zero_reorder_delay c = true;
  cf_refresh : if enable_intra_refresh c then 1 <= intra_refresh_cnt c < intra_refresh_period_ c /\ intra_refresh_period_ c <= 36000
               else intra_refresh_cnt c = 0 /\ single_slice c = false;
  cf_references : 0 <= max_reference_frames c <= 8 /\ (recovery o = true -> 1 <= max_reference_frames c);
  cf_rate_num : 1 <= frame_rate_num c <= 240;
  cf_depth : input_bit_depth c = (if ten_bit o then 10 else 8) /\ format c = (if ten_bit o then Yuv444TenBit else Yuv444) }.

(** The encoder's configuration.  Every command line the probe accepts configures the
    encoder with rates that fit their 32-bit fields, without reordering, with intra refresh
    shorter than its period or off altogether, with at most eight reference frames and at
    least one where references are to be invalidated, at no more than 240 frames a second;
    and its bit depth, its format and the surfaces' rows are those of the conversion the
    loop launches. *)
Theorem encoder_configured arguments o width height :
  parse_options arguments = Run o -> 0 < width < 2 ^ 32 -> 0 < height < 2 ^ 32 ->
  configured o (encoder_config o width height) /\
  surface_request o width height = (Z.of_nat (sample_bytes (ten_bit o)) * width, 3 * height).
Proof.
  intros Hp Hw Hh. split; [|unfold surface_request, ten_bit; destruct (codec o); cbn; rewrite !wrap_small by (unfold in_range; lia); f_equal; lia].
  unfold parse_options in Hp. destruct (option_loop arguments default_options) as [o0| |] eqn:E; [|done..].
  apply (option_loop_keeps rates) in E; [|exact valued_rates|done|unfold rates; cbn; unfold kDefaultBitrate, kDefaultVbvBits; lia].
  destruct (settle o0) as [o1|] eqn:Es; [|done]. injection Hp as <-.
  destruct (settle_settled _ _ E Es) as (H1 & H2 & H3 & H4 & H5 & H6 & H7 & H8).
  unfold encoder_config. rewrite (wrap_small 32 (intra_refresh_period o1)), (wrap_small 32 (intra_refresh_count o1)) by (unfold in_range; lia).
  split; cbn [average_bit_rate max_bit_rate vbv_buffer_size vbv_initial_delay frame_interval_p enable_lookahead zero_reorder_delay
    enable_intra_refresh intra_refresh_cnt intra_refresh_period_ single_slice max_reference_frames frame_rate_num input_bit_depth format]; try done.
  destruct (Z.ltb_spec 0 (intra_refresh_count o1)); [lia|]. split; [lia|done].
Qed.

Lemma encoder_configured_witness :
  exists o, parse_options ["--codec"; "h264-8bit-444"; "--fps"; "120"; "--intra-refresh-count"; "0"]%string = Run o /\
    configured o (encoder_config o 3840 2160) /\ surface_request o 3840 2160 = (3840, 6480).
Proof.
  destruct (parse_options ["--codec"; "h264-8bit-444"; "--fps"; "120"; "--intra-refresh-count"; "0"]%string) as [o| |] eqn:E;
    [|vm_compute in E; discriminate E..].
  exists o. destruct (encoder_configured _ o 3840 2160 E ltac:(lia) ltac:(lia)) as [Hc Hs]. split_and!; [done..|].
  rewrite Hs. vm_compute in E. by injection E as <-.
Defined.
