(* ===== verification/ClientPipeline.v ===== *)
(** * ClientPipeline: probes/video/plank-probe-client-pipeline.cpp

    The client's decode-to-screen probe: GStreamer decodes on its streaming thread, samples
    pass through a slot of one to the presentation thread, and [main] waits at the bus.
    [Handoff] is the threads as steps of one state, each step one critical section or one
    notification; after it, what is true between the steps, the ownership and the order of the
    samples, and the bound on the steps.  GStreamer and what [process_sample] does with a
    sample are parameters: an event says which callback runs next and whether a frame could be
    presented ([ClientSession] has the presentation itself). *)

From stdpp Require Import gmap.
From S2P Require Import Prelude.
#[local] Open Scope Z_scope.

(** ** Threads *)

Module Handoff.

(** Where the streaming thread is in [on_new_sample], with its sample and the sample's stamp;
    between calls; or after the stream's end. *)
Inductive producer_at :=
  | PIdle | PPop (k : nat) | PWait (k : nat) (f : Z) | PSleep (k : nat) (f : Z) | PNotify (last : bool)
  | PProcess (k : nat) (f : Z) | PUnref (k : nat) (valid : bool) | PRefuse (k : nat) | PEnd.

(** Where [presentation_worker] is. *)
Inductive worker_at :=
  | WCheck | WSleep | WStopNotify (sample : option nat) | WStopUnref (k : nat) | WNotify (k : nat) (f : Z) | WProcess (k : nat) (f : Z)
  | WUnref (k : nat) (valid : bool) | WFail | WFailNotify | WFailNotifyConsumed | WDrain | WEnd.

(** Where [main] is once the pipeline plays: the bus, the flags, the notifications, the join,
    the pipeline's stop. *)
Inductive main_at := MBus | MSet (eos : bool) | MNotify | MNotifyConsumed | MJoin | MNull | MEnd.

(** The stamps of the decoder's input: the queue, and all that were ever put there. *)
Record input := mkInput { submitted : Z; submit_queue : list Z; stamped : list Z }.
(** What [ready_mutex] protects. *)
Record shared := mkShared { ready : option (nat * Z); producer_done : bool; worker_stop : bool }.
(** Counters, and two logs: the samples processed with their stamps, and those unreferenced. *)
Record results := mkResults { queued : Z; presented : Z; failed : bool; processed : list (nat * Z); released : list nat }.

Record state := mkState {
  pr : producer_at; wk : worker_at; mn : main_at; bus : option bool; pulled : nat; inp : input; sh : shared; rs : results }.

Definition set_pr (p : producer_at) (s : state) : state := mkState p (wk s) (mn s) (bus s) (pulled s) (inp s) (sh s) (rs s).
Definition set_wk (w : worker_at) (s : state) : state := mkState (pr s) w (mn s) (bus s) (pulled s) (inp s) (sh s) (rs s).
Definition set_mn (m : main_at) (s : state) : state := mkState (pr s) (wk s) m (bus s) (pulled s) (inp s) (sh s) (rs s).
Definition set_inp (i : input) (s : state) : state := mkState (pr s) (wk s) (mn s) (bus s) (pulled s) i (sh s) (rs s).
Definition set_sh (h : shared) (s : state) : state := mkState (pr s) (wk s) (mn s) (bus s) (pulled s) (inp s) h (rs s).
Definition set_rs (r : results) (s : state) : state := mkState (pr s) (wk s) (mn s) (bus s) (pulled s) (inp s) (sh s) r.

(** The bus keeps its first message for [main]: the end of the stream, or an error. *)
Definition post (eos : bool) (s : state) : state :=
  mkState (pr s) (wk s) (mn s) (match bus s with None => Some eos | b => b end) (pulled s) (inp s) (sh s) (rs s).

Definition wake_producer (p : producer_at) : producer_at := match p with PSleep k f => PWait k f | p => p end.
Definition wake_worker (w : worker_at) : worker_at := match w with WSleep => WCheck | w => w end.

Definition fail (r : results) : results := mkResults (queued r) (presented r) true (processed r) (released r).
Definition unref (k : nat) (r : results) : results := mkResults (queued r) (presented r) (failed r) (processed r) (released r ++ [k]).
Definition count_queued (r : results) : results := mkResults (u64 (queued r + 1)) (presented r) (failed r) (processed r) (released r).
Definition count_presented (r : results) : results := mkResults (queued r) (u64 (presented r + 1)) (failed r) (processed r) (released r).
Definition log_processed (k : nat) (f : Z) (r : results) : results :=
  mkResults (queued r) (presented r) (failed r) (processed r ++ [(k, f)]) (released r).

Section program.
Context (playing threaded async : bool) (expected_frames : Z).

(** [on_decoder_input]: a stamp for the next frame, or a frame that is dropped. *)
Definition decoder_input (dropped : bool) (s : state) : state :=
  let frame := u64 (submitted (inp s) + 1) in
  if dropped then set_rs (fail (rs s)) (set_inp (mkInput frame (submit_queue (inp s)) (stamped (inp s))) s)
  else set_inp (mkInput frame (submit_queue (inp s) ++ [frame]) (stamped (inp s) ++ [frame])) s.

(** A call of [on_new_sample]: no sample is an error of the flow. *)
Definition new_sample (pull : bool) (s : state) : option state :=
  match pr s with
  | PIdle =>
      if pull then Some (mkState (PPop (pulled s)) (wk s) (mn s) (bus s) (S (pulled s)) (inp s) (sh s) (rs s))
      else Some (post false (set_pr PEnd s))
  | _ => None
  end.

(** [on_new_sample]; [valid] is what [process_sample] returns in the serial mode. *)
Definition producer_step (valid : bool) (s : state) : option state :=
  match pr s with
  | PPop k =>
      match submit_queue (inp s) with
      | [] => Some (set_pr (PRefuse k) (set_rs (fail (rs s)) s))
      | f :: queue =>
          let s := set_inp (mkInput (submitted (inp s)) queue (stamped (inp s))) s in
          Some (if threaded then set_pr (PWait k f) s else set_pr (PProcess k f) (set_rs (count_queued (rs s)) s))
      end
  | PWait k f =>
      match ready (sh s) with
      | Some _ => if worker_stop (sh s) then Some (set_pr (PRefuse k) s) else Some (set_pr (PSleep k f) s)
      | None =>
          if worker_stop (sh s) then Some (set_pr (PRefuse k) s)
          else
            let r := count_queued (rs s) in
            Some (set_pr (PNotify (expected_frames <=? queued r))
                   (set_rs r (set_sh (mkShared (Some (k, f)) (producer_done (sh s)) (worker_stop (sh s))) s)))
      end
  | PNotify last =>
      let s := set_wk (wake_worker (wk s)) s in
      Some (if last then post true (set_pr PEnd s) else set_pr PIdle s)
  | PProcess k f => Some (set_pr (PUnref k valid) (set_rs (log_processed k f (rs s)) s))
  | PUnref k valid =>
      let r := unref k (rs s) in
      if valid then
        let r := count_presented r in
        if expected_frames <=? presented r then Some (post true (set_pr PEnd (set_rs r s))) else Some (set_pr PIdle (set_rs r s))
      else Some (post false (set_pr PEnd (set_rs (fail r) s)))
  | PRefuse k => Some (post false (set_pr PEnd (set_rs (unref k (rs s)) s)))
  | PIdle | PSleep _ _ | PEnd => None
  end.

(** The next position of the worker at its end: the feedback still in flight is awaited. *)
Definition finish : worker_at := if async then WDrain else WEnd.

(** [presentation_worker]; [valid] is what [process_sample] and [drain_async_feedback] return. *)
Definition worker_step (valid : bool) (s : state) : option state :=
  match wk s with
  | WCheck =>
      if worker_stop (sh s) then
        Some (set_wk (WStopNotify (option_map fst (ready (sh s)))) (set_sh (mkShared None (producer_done (sh s)) true) s))
      else
        match ready (sh s) with
        | Some (k, f) => Some (set_wk (WNotify k f) (set_sh (mkShared None (producer_done (sh s)) false) s))
        | None => if producer_done (sh s) then Some (set_wk finish s) else Some (set_wk WSleep s)
        end
  | WSleep => None
  | WStopNotify sample =>
      let s := set_pr (wake_producer (pr s)) s in
      Some (match sample with Some k => set_wk (WStopUnref k) s | None => set_wk finish s end)
  | WStopUnref k => Some (set_wk finish (set_rs (unref k (rs s)) s))
  | WNotify k f => Some (set_wk (WProcess k f) (set_pr (wake_producer (pr s)) s))
  | WProcess k f => Some (set_wk (WUnref k valid) (set_rs (log_processed k f (rs s)) s))
  | WUnref k valid =>
      let s := set_rs (unref k (rs s)) s in
      if valid then Some (set_wk WCheck (if async then s else set_rs (count_presented (rs s)) s))
      else Some (set_wk WFail (set_rs (fail (rs s)) s))
  | WFail => Some (set_wk WFailNotify (set_sh (mkShared (ready (sh s)) (producer_done (sh s)) true) s))
  | WFailNotify => Some (set_wk WFailNotifyConsumed s)
  | WFailNotifyConsumed => Some (set_wk finish (set_pr (wake_producer (pr s)) s))
  | WDrain => Some (set_wk WEnd (if valid then s else set_rs (fail (rs s)) s))
  | WEnd => None
  end.

(** [main] from the bus on. *)
Definition main_step (s : state) : option state :=
  match mn s with
  | MBus => match bus s with Some eos => Some (set_mn (if threaded then MSet (playing && eos) else MNull) s) | None => None end
  | MSet eos =>
      Some (set_mn MNotify (set_sh (mkShared (ready (sh s)) true (if eos then worker_stop (sh s) else true)) s))
  | MNotify => Some (set_mn MNotifyConsumed (set_wk (wake_worker (wk s)) s))
  | MNotifyConsumed => Some (set_mn MJoin (set_pr (wake_producer (pr s)) s))
  | MJoin => match wk s with WEnd => Some (set_mn MNull s) | _ => None end
  | MNull => match pr s with PIdle | PEnd => Some (set_mn MEnd (set_pr PEnd s)) | _ => None end
  | MEnd => None
  end.

Definition initial : state :=
  mkState PIdle (if threaded then WCheck else WEnd) MBus None 0 (mkInput 0 [] []) (mkShared None false false) (mkResults 0 0 false [] []).

(** The environment: the decoder's input, its output, the end of the stream (which GStreamer
    reports after the last sample), and errors of other elements; and the three threads. *)
Inductive event := Input (dropped : bool) | Output (pull : bool) | StreamEnd | ElementError | Producer (valid : bool) | Worker (valid : bool) | Main.

Definition run_event (e : event) (s : state) : option state :=
  match e with
  | Input dropped => Some (decoder_input dropped s)
  | Output pull => new_sample pull s
  | StreamEnd => match pr s with PIdle => Some (post true (set_pr PEnd s)) | _ => None end
  | ElementError => Some (post false s)
  | Producer valid => producer_step valid s
  | Worker valid => worker_step valid s
  | Main => main_step s
  end.

Definition step (s s' : state) : Prop := exists e, run_event e s = Some s'.
(** The probe's own threads. *)
Definition is_thread (e : event) : bool := match e with Producer _ | Worker _ | Main => true | _ => false end.
Definition can_move (s : state) : Prop := exists e s', is_thread e = true /\ run_event e s = Some s'.
End program.
End Handoff.

Import Handoff.

(** ** Synchronisation *)

(** [main] has set the flags. *)
Definition past (m : main_at) : bool := match m with MBus | MSet _ => false | _ => true end.
Definition joined (m : main_at) : bool := match m with MNull | MEnd => true | _ => false end.
(** The worker is about to wake the streaming thread, and so on. *)
Definition wakes_producer (w : worker_at) : bool :=
  match w with WNotify _ _ | WStopNotify _ | WFailNotify | WFailNotifyConsumed => true | _ => false end.
Definition main_wakes_producer (m : main_at) : bool := match m with MNotify | MNotifyConsumed => true | _ => false end.
Definition notifying (p : producer_at) : bool := match p with PNotify _ => true | _ => false end.
Definition main_wakes_worker (m : main_at) : bool := match m with MNotify => true | _ => false end.
(** The worker has failed and said so; it is stopping; it is at its end. *)
Definition failing (w : worker_at) : bool := match w with WFailNotify | WFailNotifyConsumed => true | _ => false end.
Definition stopping (w : worker_at) : bool := match w with WStopNotify _ | WStopUnref _ => true | _ => false end.
Definition ending (w : worker_at) : bool := match w with WDrain | WEnd => true | _ => false end.

Record synchronised (s : state) : Prop := {
  sy_wsleep : wk s = WSleep ->
    notifying (pr s) = true \/ main_wakes_worker (mn s) = true \/ (ready (sh s) = None /\ producer_done (sh s) = false /\ worker_stop (sh s) = false);
  sy_psleep : forall k f, pr s = PSleep k f ->
    wakes_producer (wk s) = true \/ main_wakes_producer (mn s) = true \/ (ready (sh s) <> None /\ worker_stop (sh s) = false);
  sy_done : producer_done (sh s) = past (mn s);
  sy_stop : worker_stop (sh s) = true -> past (mn s) = true \/ failing (wk s) = true \/ ending (wk s) = true;
  sy_eos : bus s = Some true -> pr s = PEnd;
  sy_end : pr s = PEnd -> bus s <> None;
  sy_set : forall eos, mn s = MSet eos -> bus s <> None /\ (eos = true -> bus s = Some true);
  sy_past : past (mn s) = true -> bus s <> None /\ (worker_stop (sh s) = false -> pr s = PEnd);
  sy_failed : failing (wk s) = true \/ wk s = WFail -> failed (rs s) = true;
  sy_failing : failing (wk s) = true -> worker_stop (sh s) = true;
  sy_stopping : stopping (wk s) = true -> worker_stop (sh s) = true /\ ready (sh s) = None;
  sy_ending : ending (wk s) = true ->
    (ready (sh s) = None /\ (worker_stop (sh s) = true \/ producer_done (sh s) = true)) \/ (worker_stop (sh s) = true /\ failed (rs s) = true);
  sy_joined : joined (mn s) = true -> wk s = WEnd;
  sy_serial : match pr s with PProcess _ _ | PUnref _ _ => False | _ => True end;
  sy_over : mn s = MEnd -> pr s = PEnd }.

Ltac handoff := cbn [set_pr set_wk set_mn set_inp set_sh set_rs post fail unref count_queued count_presented log_processed
  pr wk mn bus pulled inp sh rs submitted submit_queue stamped ready producer_done worker_stop queued presented failed processed released
  wake_producer wake_worker past wakes_producer main_wakes_producer notifying main_wakes_worker failing stopping ending joined] in *.

(** The cases of a step. *)
Ltac step_cases H :=
  repeat match type of H with
  | context [match ?x with _ => _ end] => destruct x eqn:?; try discriminate H
  end; injection H as <-.

Lemma wake_worker_ending w : ending (wake_worker w) = ending w.
Proof. by destruct w. Qed.
Lemma wake_worker_failing w : failing (wake_worker w) = failing w.
Proof. by destruct w. Qed.
Lemma wake_worker_stopping w : stopping (wake_worker w) = stopping w.
Proof. by destruct w. Qed.
Lemma wake_worker_sleep w : wake_worker w = WSleep <-> False.
Proof. by destruct w. Qed.
Lemma wake_worker_fail w : wake_worker w = WFail <-> w = WFail.
Proof. by destruct w. Qed.
Lemma wake_worker_end w : wake_worker w = WEnd <-> w = WEnd.
Proof. by destruct w. Qed.
Lemma wake_producer_sleep p k f : wake_producer p <> PSleep k f.
Proof. by destruct p. Qed.
Lemma wake_producer_end p : wake_producer p = PEnd <-> p = PEnd.
Proof. by destruct p. Qed.
Lemma wake_producer_notifying p : notifying (wake_producer p) = notifying p.
Proof. by destruct p. Qed.
Lemma wake_producer_serial p :
  match wake_producer p with PProcess _ _ | PUnref _ _ => False | _ => True end <->
  match p with PProcess _ _ | PUnref _ _ => False | _ => True end.
Proof. by destruct p. Qed.
Create Rewrite HintDb handoff.
#[local] Hint Rewrite wake_worker_ending wake_worker_failing wake_worker_stopping wake_worker_sleep wake_worker_fail wake_worker_end
  wake_producer_end wake_producer_notifying wake_producer_serial : handoff.

(** Uses what the hypotheses say at once. *)
Ltac tidy := repeat match goal with
  | H : ?x = ?x -> _ |- _ => specialize (H eq_refl)
  | H : ?P, H' : ?P -> _ |- _ => match type of P with Prop => specialize (H' H) end
  | H : ?a = ?b -> _ |- _ => assert_fails (is_var a); let N := fresh in assert (a <> b) as N by discriminate; clear N H
  | H : (forall k f, PSleep ?a ?b = PSleep k f -> _) |- _ => specialize (H a b eq_refl)
  | H : (forall k f, ?p = PSleep k f -> _), H' : ?p = PSleep ?a ?b |- _ => specialize (H a b H')
  | H : (forall e, MSet ?a = MSet e -> _) |- _ => specialize (H a eq_refl)
  | H : (forall e, ?m = MSet e -> _), H' : ?m = MSet ?a |- _ => specialize (H a H')
  | H : wake_producer _ = PSleep _ _ |- _ => by apply wake_producer_sleep in H
  | H : ?d = past ?m, H' : ?d = true |- _ => rewrite H in H'
  | H : _ /\ _ |- _ => destruct H
  | H : True |- _ => clear H
  | H : ?x = ?y |- _ => is_var x; is_var y; subst
  | H : Some _ = Some _ |- _ => injection H as H
  | H : MSet _ = MSet _ |- _ => injection H as <-
  end.
Ltac synced := intros; subst; tidy; try done; try congruence; intuition (tidy; congruence).

Section threaded.
Context (playing async : bool) (expected : Z).

Lemma synchronised_initial : synchronised (initial true).
Proof. split; cbn; try done. by intros [?|?]. Qed.

Lemma producer_synchronised valid s s' : synchronised s -> producer_step true expected valid s = Some s' -> synchronised s'.
Proof.
  intros [] Hs. unfold producer_step in Hs. destruct (pr s) eqn:Ep; try discriminate Hs; try (by destruct sy_serial0); step_cases Hs.
  all: split; handoff; autorewrite with handoff; try done.
  all: try (solve [synced]).
  all: try (destruct (bus s); solve [synced]).
Qed.

Lemma worker_synchronised valid s s' : synchronised s -> worker_step async valid s = Some s' -> synchronised s'.
Proof.
  intros [] Hs. unfold worker_step, finish in Hs. destruct (wk s) eqn:Ew; try discriminate Hs; step_cases Hs.
  all: split; handoff; autorewrite with handoff; try done.
  all: try (solve [synced]).
  all: try (destruct async; solve [synced]).
Qed.

Lemma main_synchronised s s' : synchronised s -> main_step playing true s = Some s' -> synchronised s'.
Proof.
  intros [] Hs. unfold main_step in Hs. destruct (mn s) eqn:Em; try discriminate Hs; step_cases Hs.
  all: split; handoff; autorewrite with handoff; repeat match goal with H : wk _ = _ |- _ => rewrite !H end; handoff; try done.
  all: try (solve [synced]).
  all: try (destruct playing, b; solve [synced]).
Qed.

Lemma outside_synchronised e s s' :
  is_thread e = false -> synchronised s -> run_event playing true async expected e s = Some s' -> synchronised s'.
Proof.
  intros He [] Hs. destruct e as [dropped|pull| | |valid|valid|]; try discriminate He; cbn [run_event] in Hs; unfold decoder_input, new_sample in Hs.
  all: step_cases Hs; split; handoff; try done. all: try (solve [synced]). all: destruct (bus s); solve [synced].
Qed.

Lemma synchronised_step e s s' : synchronised s -> run_event playing true async expected e s = Some s' -> synchronised s'.
Proof.
  intros Hi Hs. destruct (is_thread e) eqn:He; [|by apply (outside_synchronised e s)].
  destruct e as [| | | |valid|valid|]; try discriminate He; cbn [run_event] in Hs;
    [by apply (producer_synchronised valid s)|by apply (worker_synchronised valid s)|by apply (main_synchronised s)].
Qed.
End threaded.

(** The serial mode has no worker. *)
Record serial (s : state) : Prop := {
  se_worker : wk s = WEnd;
  se_main : match mn s with MBus | MNull | MEnd => True | _ => False end;
  se_producer : match pr s with PWait _ _ | PSleep _ _ | PNotify _ => False | _ => True end;
  se_shared : sh s = mkShared None false false;
  se_end : pr s = PEnd -> bus s <> None;
  se_bus : mn s = MBus \/ bus s <> None;
  se_over : mn s = MEnd -> pr s = PEnd }.

Lemma serial_step playing async expected e s s' : serial s -> run_event playing false async expected e s = Some s' -> serial s'.
Proof.
  intros [] Hs. destruct e; cbn [run_event] in Hs; unfold decoder_input, new_sample, producer_step, worker_step, main_step in Hs.
  all: rewrite ?se_worker0, ?se_shared0 in Hs; try discriminate Hs.
  all: try (destruct (pr s) eqn:Ep; try discriminate Hs; try (by destruct se_producer0)).
  all: try (destruct (mn s) eqn:Em; try discriminate Hs; try (by destruct se_main0)).
  all: step_cases Hs; split; handoff; try rewrite se_worker0; rewrite ?Em, ?Ep; try done.
  all: try (solve [synced]). all: try (destruct (bus s); solve [synced]).
Qed.

(** ** Ownership *)

Section accounts.
Context (playing threaded async : bool) (expected : Z).
#[local] Abbreviation run_event := (run_event playing threaded async expected).

(** The samples each place holds. *)
Definition producer_hand (p : producer_at) : list nat :=
  match p with PPop k | PWait k _ | PSleep k _ | PProcess k _ | PUnref k _ | PRefuse k => [k] | _ => [] end.
Definition slot_hand (s : option (nat * Z)) : list nat := match s with Some (k, _) => [k] | None => [] end.
Definition worker_hand (w : worker_at) : list nat :=
  match w with WStopNotify sample => option_list sample | WStopUnref k | WNotify k _ | WProcess k _ | WUnref k _ => [k] | _ => [] end.
(** Every sample that was pulled is released, or in one place. *)
Definition owned (s : state) : Prop :=
  seq 0 (pulled s) ≡ₚ released (rs s) ++ producer_hand (pr s) ++ slot_hand (ready (sh s)) ++ worker_hand (wk s).

Lemma wake_producer_hand p : producer_hand (wake_producer p) = producer_hand p.
Proof. by destruct p. Qed.
Lemma wake_worker_hand w : worker_hand (wake_worker w) = worker_hand w.
Proof. by destruct w. Qed.
Lemma move_to_end (r p q : list nat) k : r ++ p ++ q ++ [k] ≡ₚ (r ++ [k]) ++ p ++ q.
Proof. rewrite (app_assoc p), (Permutation_app_comm (p ++ q)), <-!app_assoc. done. Qed.

(** What a step did, by the thread's own position. *)
Ltac known := repeat match goal with
  | H : pr _ = _ |- _ => rewrite H
  | H : wk _ = _ |- _ => rewrite H
  | H : mn _ = _ |- _ => rewrite H
  | H : ready (sh _) = _ |- _ => rewrite H
  | H : submit_queue (inp _) = _ |- _ => rewrite H
  end.
Ltac step_of p H := destruct p eqn:?; try discriminate H; step_cases H; handoff; known.

Lemma owned_producer valid s s' : owned s -> producer_step threaded expected valid s = Some s' -> owned s'.
Proof.
  unfold owned, producer_step. intros Ho Hs. step_of (pr s) Hs; cbn [producer_hand slot_hand worker_hand app] in *; rewrite ?wake_worker_hand; try done.
  all: by rewrite Ho, <-?app_assoc.
Qed.

Lemma owned_worker valid s s' : owned s -> worker_step async valid s = Some s' -> owned s'.
Proof.
  unfold owned, worker_step, finish. intros Ho Hs. step_of (wk s) Hs; cbn [producer_hand slot_hand worker_hand app option_map option_list fst] in *;
    rewrite ?wake_producer_hand, ?app_nil_r in *; try done.
  { by destruct (ready (sh s)) as [[]|]. }
  all: by rewrite Ho, ?move_to_end, ?app_nil_r.
Qed.

Lemma owned_step e s s' : owned s -> run_event e s = Some s' -> owned s'.
Proof.
  destruct e as [dropped|pull| | |valid|valid|]; cbn [Handoff.run_event]; intros Ho Hs.
  5: by apply (owned_producer valid s). 5: by apply (owned_worker valid s).
  all: unfold owned, decoder_input, new_sample, main_step in *; step_cases Hs; handoff; known; rewrite ?wake_producer_hand, ?wake_worker_hand; try done.
  rewrite seq_S, Ho. cbn [producer_hand app]. by rewrite <-Permutation_cons_append, Permutation_middle.
Qed.

(** ** Order *)

Definition producer_pending (p : producer_at) : list (nat * Z) :=
  match p with PWait k f | PSleep k f | PProcess k f => [(k, f)] | _ => [] end.
Definition worker_pending (w : worker_at) : list (nat * Z) := match w with WNotify k f | WProcess k f => [(k, f)] | _ => [] end.
(** The samples handed over, the processed ones first. *)
Definition flow (s : state) : list (nat * Z) := processed (rs s) ++ worker_pending (wk s) ++ option_list (ready (sh s)).
Definition paired (popped : list Z) : list (nat * Z) := zip (seq 0 (length popped)) popped.
Definition in_serial (p : producer_at) : bool := match p with PProcess _ _ | PUnref _ _ => true | _ => false end.

(** How many stamps were taken. *)
Definition taken (s : state) (n : nat) : Prop :=
  match pr s with
  | PPop k => k = n /\ pulled s = S n
  | PRefuse _ | PEnd => pulled s = n \/ worker_stop (sh s) = true \/ failed (rs s) = true
  | _ => pulled s = n
  end.
Record ordered_by (s : state) (popped : list Z) : Prop := {
  od_queue : stamped (inp s) = popped ++ submit_queue (inp s);
  od_prefix : flow s `prefix_of` paired popped;
  od_all : worker_stop (sh s) = false -> flow s ++ producer_pending (pr s) = paired popped;
  od_taken : taken s (length popped) }.
Definition ordered (s : state) : Prop := exists popped, ordered_by s popped.

Lemma paired_snoc popped f : paired (popped ++ [f]) = paired popped ++ [(length popped, f)].
Proof. unfold paired. rewrite length_app, Nat.add_1_r, seq_S. cbn. rewrite zip_with_app; [done|by rewrite length_seq]. Qed.

Lemma wake_producer_pending p : producer_pending (wake_producer p) = producer_pending p.
Proof. by destruct p. Qed.
Lemma wake_worker_pending w : worker_pending (wake_worker w) = worker_pending w.
Proof. by destruct w. Qed.

Lemma ordered_producer valid s s' :
  (in_serial (pr s) = true -> wk s = WEnd /\ ready (sh s) = None /\ worker_stop (sh s) = false) ->
  ordered s -> producer_step threaded expected valid s = Some s' -> ordered s'.
Proof.
  unfold producer_step. intros Hser (popped & []) Hs. unfold taken, flow in *.
  step_of (pr s) Hs.
  10-13: destruct (Hser eq_refl) as (Ew & Er & Es); rewrite Ew, Er, Es in *.
  2, 3: exists (popped ++ [z]).
  1, 4-14: exists popped.
  all: split; unfold flow, taken in *; handoff; rewrite ?wake_worker_pending, ?paired_snoc, ?length_app; known;
    cbn [producer_pending worker_pending option_list app length] in *; rewrite ?app_nil_r in *; try specialize (od_all0 eq_refl).
  all: try done.
  all: try (rewrite <-?app_assoc; done).
  all: try (by apply prefix_app_r).
  all: try (by rewrite <-od_all0).
  all: try (naive_solver lia).
  all: try (intros E; destruct od_taken0 as [-> _]; by rewrite <-(od_all0 E)).
  all: rewrite <-od_all0, <-?app_assoc; done.
Qed.

Lemma taken_wake s n : taken (set_pr (wake_producer (pr s)) s) n <-> taken s n.
Proof. unfold taken. cbn. by destruct (pr s). Qed.

(** A step that takes nothing, keeps the flow or drops its end with [worker_stop] set. *)
Lemma ordered_keep s s' :
  inp s' = inp s -> pulled s' = pulled s -> pr s' = pr s \/ pr s' = wake_producer (pr s) -> flow s' `prefix_of` flow s ->
  (worker_stop (sh s') = true \/ flow s' = flow s /\ worker_stop (sh s) = false) ->
  (worker_stop (sh s) = true -> worker_stop (sh s') = true) -> (failed (rs s) = true -> failed (rs s') = true) -> ordered s -> ordered s'.
Proof.
  intros Ei En Ep Hpre Hall Hw Hf (popped & []). exists popped. split.
  - by rewrite Ei.
  - by trans (flow s).
  - intros Es. destruct Hall as [?|[-> E]]; [congruence|]. rewrite <-od_all0 by done. f_equal. destruct Ep as [->| ->]; [done|apply wake_producer_pending].
  - unfold taken in *. rewrite En. destruct Ep as [->| ->]; destruct (pr s); cbn; naive_solver.
Qed.

Lemma ordered_worker valid s s' : ordered s -> worker_step async valid s = Some s' -> ordered s'.
Proof.
  unfold worker_step, finish. intros Ho Hs. apply (ordered_keep s s'); [..|done].
  all: step_of (wk s) Hs; try done; try (by left); try (by right); try tauto; unfold flow; handoff; known;
    cbn [worker_pending option_list app]; rewrite ?app_nil_r, <-?app_assoc; try done; try congruence.
  all: try (by apply prefix_app_r).
  all: try (destruct (worker_stop (sh s)); tauto).
Qed.

Lemma ordered_main s s' : ordered s -> main_step playing threaded s = Some s' -> ordered s'.
Proof.
  unfold main_step. intros Ho Hs. destruct (mn s) eqn:Em; try discriminate Hs.
  6:{ destruct Ho as (popped & []). exists popped. unfold flow, taken in *.
      step_cases Hs; split; unfold flow, taken; handoff; known; cbn [producer_pending] in *; try done; tauto. }
  all: apply (ordered_keep s s'); [..|done]; step_cases Hs; try done; try (by left); try (by right); try tauto; unfold flow; handoff; known;
    rewrite ?wake_worker_pending; try done; try (destruct (worker_stop (sh s)); tauto).
Qed.

Lemma ordered_step e s s' :
  (in_serial (pr s) = true -> wk s = WEnd /\ ready (sh s) = None /\ worker_stop (sh s) = false) ->
  ordered s -> run_event e s = Some s' -> ordered s'.
Proof.
  intros Hser Ho Hs. destruct e as [dropped|pull| | |valid|valid|]; cbn [Handoff.run_event] in Hs.
  5: by apply (ordered_producer valid s). 5: by apply (ordered_worker valid s). 5: by apply (ordered_main s).
  all: destruct Ho as (popped & []); exists popped; unfold decoder_input, new_sample, flow, taken in *; step_cases Hs;
    split; unfold flow, taken; handoff; known; cbn [producer_pending] in *; rewrite ?app_nil_r in *; try done; try tauto; try lia.
  - by destruct (pr s); try tauto.
  - by rewrite od_queue0, <-app_assoc.
Qed.

(** ** Termination *)

Definition producer_left (p : producer_at) : nat :=
  match p with PIdle | PEnd => 0 | PRefuse _ | PUnref _ _ => 1 | PNotify _ | PProcess _ _ => 2 | PSleep _ _ => 7 | PWait _ _ => 8 | PPop _ => 9 end.
Definition worker_left (w : worker_at) : nat :=
  match w with
  | WEnd => 0 | WDrain => 1 | WStopUnref _ => 2 | WFailNotifyConsumed => 3 | WStopNotify _ | WFailNotify | WSleep => 4 | WCheck | WFail => 5
  | WUnref _ _ => 6 | WProcess _ _ => 7 | WNotify _ _ => 9
  end.
Definition main_left (m : main_at) : nat :=
  match m with MEnd => 0 | MNull => 1 | MJoin => 2 | MNotifyConsumed => 4 | MNotify => 6 | MSet _ => 7 | MBus => 8 end.
Definition left_to_do (s : state) : nat :=
  producer_left (pr s) + worker_left (wk s) + 5 * length (slot_hand (ready (sh s))) + main_left (mn s).

Lemma wake_producer_left p : (producer_left (wake_producer p) <= S (producer_left p))%nat.
Proof. destruct p; cbn; lia. Qed.
Lemma wake_worker_left w : (worker_left (wake_worker w) <= S (worker_left w))%nat.
Proof. destruct w; cbn; lia. Qed.

Lemma producer_left_step valid s s' :
  producer_step threaded expected valid s = Some s' -> pulled s' = pulled s /\ (left_to_do s' < left_to_do s)%nat.
Proof.
  unfold producer_step, left_to_do. intros Hs. pose proof (wake_worker_left (wk s)).
  step_of (pr s) Hs; cbn [producer_left slot_hand length] in *; (split; [done|lia]).
Qed.

Lemma worker_left_step valid s s' : worker_step async valid s = Some s' -> pulled s' = pulled s /\ (left_to_do s' < left_to_do s)%nat.
Proof.
  unfold worker_step, finish, left_to_do. intros Hs. pose proof (wake_producer_left (pr s)).
  step_of (wk s) Hs; cbn [worker_left slot_hand length] in *; (split; [done|lia]).
Qed.

Lemma main_left_step s s' : main_step playing threaded s = Some s' -> pulled s' = pulled s /\ (left_to_do s' < left_to_do s)%nat.
Proof.
  unfold main_step, left_to_do. intros Hs. pose proof (wake_producer_left (pr s)). pose proof (wake_worker_left (wk s)).
  step_of (mn s) Hs; cbn [main_left producer_left] in *; (split; [done|lia]).
Qed.

Definition cost (e : event) : nat := if is_thread e then 1 else 0.

Lemma left_step e s s' :
  run_event e s = Some s' -> (left_to_do s' + 9 * pulled s + cost e <= left_to_do s + 9 * pulled s')%nat.
Proof.
  unfold cost. destruct e as [dropped|pull| | |valid|valid|]; cbn [Handoff.run_event is_thread]; intros Hs.
  5: apply producer_left_step in Hs; lia. 5: apply worker_left_step in Hs; lia. 5: apply main_left_step in Hs; lia.
  all: unfold decoder_input, new_sample, left_to_do in *; step_cases Hs; handoff; known; cbn [producer_left] in *; lia.
Qed.

(** ** Runs *)

Fixpoint run (events : list event) (s : state) : option state :=
  match events with [] => Some s | e :: events => s' ← run_event e s; run events s' end.
Definition thread_steps (events : list event) : nat := sum_list (cost <$> events).

Lemma run_invariant (I : state -> Prop) events s s' :
  (forall e x y, I x -> run_event e x = Some y -> I y) -> I s -> run events s = Some s' -> I s'.
Proof.
  intros HI. revert s. induction events as [|e events IH]; intros s Hi; cbn [run]; [by intros [= <-]|].
  destruct (run_event e s) as [x|] eqn:E; [|done]. intros H. by apply (IH x); [apply (HI e s)|].
Qed.

Lemma run_left events s s' :
  run events s = Some s' -> (left_to_do s' + 9 * pulled s + thread_steps events <= left_to_do s + 9 * pulled s')%nat.
Proof.
  revert s. induction events as [|e events IH]; intros s; cbn [run]; [intros [= <-]; unfold thread_steps; cbn; lia|].
  destruct (run_event e s) as [x|] eqn:E; [|done]. intros H%IH. apply left_step in E. unfold thread_steps in *. cbn. lia.
Qed.

(** What holds between the steps, in both modes. *)
Definition good (s : state) : Prop := (if threaded then synchronised s else serial s) /\ owned s /\ ordered s.

Lemma good_initial : good (initial threaded).
Proof.
  split_and!.
  - destruct threaded; [apply synchronised_initial|]. split; cbn; try done. by left.
  - unfold owned. by destruct threaded.
  - exists []. split; cbn; try done; [|intros _]; by destruct threaded.
Qed.

Lemma good_step e s s' : good s -> run_event e s = Some s' -> good s'.
Proof.
  intros (Hm & Ho & Hr) Hs. split_and!; [|by apply (owned_step e s)|apply (ordered_step e s); [|done..]].
  - destruct threaded; [by apply (synchronised_step playing async expected e s)|by apply (serial_step playing async expected e s)].
  - intros E. destruct threaded.
    + pose proof (sy_serial _ Hm). by destruct (pr s).
    + destruct Hm. by rewrite se_worker0, se_shared0.
Qed.

(** ** Progress *)

Definition awaits_decoder (s : state) : Prop := mn s = MBus /\ bus s = None /\ pr s = PIdle.
#[local] Abbreviation can_move := (can_move playing threaded async expected).

Lemma producer_moves s : (forall k f, pr s <> PSleep k f) -> pr s <> PIdle -> pr s <> PEnd -> can_move s.
Proof.
  intros Hs Hi He. assert (is_Some (producer_step threaded expected false s)) as [s' Hm]; [|by exists (Producer false), s'].
  unfold producer_step. destruct (pr s) as [|k|k f|k f| | | | |] eqn:E; try done; try (by destruct (Hs k f)); repeat case_match; done.
Qed.

Lemma presenter_moves s : wk s <> WSleep -> wk s <> WEnd -> can_move s.
Proof.
  intros Hs He. assert (is_Some (worker_step async false s)) as [s' Hm]; [|by exists (Worker false), s'].
  unfold worker_step. destruct (wk s) eqn:E; try done; repeat case_match; done.
Qed.

Lemma bus_thread_moves s : is_Some (main_step playing threaded s) -> can_move s.
Proof. intros [s' Hm]. by exists Main, s'. Qed.

(** The finite cases of being stuck: the streaming thread between calls, asleep or finished, the worker asleep or
    finished, [main] at the bus with nothing there, at the join, at the pipeline's stop or returned. *)
Lemma stuck s :
  can_move s \/ ((pr s = PIdle \/ (exists k f, pr s = PSleep k f) \/ pr s = PEnd) /\ (wk s = WSleep \/ wk s = WEnd) /\
    (mn s = MEnd \/ mn s = MBus /\ bus s = None \/ mn s = MJoin /\ wk s = WSleep \/ mn s = MNull /\ exists k f, pr s = PSleep k f)).
Proof.
  destruct (decide (is_Some (main_step playing threaded s))) as [Hm|Hm]; [left; by apply bus_thread_moves|].
  assert ((wk s = WSleep \/ wk s = WEnd) \/ can_move s) as [Hw|?]; [|..|by left].
  { destruct (wk s) eqn:E; try (by left; auto); right; apply presenter_moves; by rewrite E. }
  assert ((pr s = PIdle \/ (exists k f, pr s = PSleep k f) \/ pr s = PEnd) \/ can_move s) as [Hp|?]; [|..|by left].
  { destruct (pr s) eqn:E; try (by left; eauto 10); right; apply producer_moves; by rewrite E. }
  right. split_and!; [done..|]. unfold main_step in Hm. destruct (mn s) eqn:Em; try (by destruct Hm; eauto); [| | |by left].
  - right; left. split; [done|]. by destruct (bus s); [destruct Hm; eauto|].
  - right; right; left. split; [done|]. destruct Hw as [|E]; [done|]. rewrite E in Hm. destruct Hm; eauto.
  - right; right; right. split; [done|]. destruct Hp as [E|[?|E]]; [rewrite E in Hm; destruct Hm; eauto|done|rewrite E in Hm; destruct Hm; eauto].
Qed.
End accounts.

Section results.
Context (playing threaded async : bool) (expected : Z).

Lemma synchronised_progress s : threaded = true -> synchronised s -> mn s = MEnd \/ can_move playing threaded async expected s \/ awaits_decoder s.
Proof.
  intros Ht []. destruct (stuck playing threaded async expected s) as [?|(Hp & Hw & Hm)]; [tauto|].
  destruct Hm as [Em|[[Em Eb]|[[Em Ew]|(Em & k & f & Ep)]]].
  - by left.
  - destruct Hp as [Ep|[(k & f & Ep)|Ep]]; [by right; right|exfalso|by apply sy_end0 in Ep].
    apply sy_psleep0 in Ep as Hc. destruct Hw as [E|E]; rewrite E, Em in *; cbn in *; [|synced].
    specialize (sy_wsleep0 eq_refl). rewrite Ep in *. cbn in *. synced.
  - exfalso. specialize (sy_wsleep0 Ew). rewrite Em in *. cbn in *. destruct Hp as [Ep|[(k & f & Ep)|Ep]]; rewrite Ep in *; cbn in *; synced.
  - exfalso. apply sy_psleep0 in Ep as Hc. rewrite Em in *. cbn in *. specialize (sy_joined0 eq_refl). rewrite sy_joined0 in *. cbn in *. synced.
Qed.

Lemma serial_progress s : threaded = false -> serial s -> mn s = MEnd \/ can_move playing threaded async expected s \/ awaits_decoder s.
Proof.
  intros Ht []. destruct (stuck playing threaded async expected s) as [?|(Hp & Hw & Hm)]; [tauto|].
  destruct Hp as [Ep|[(k & f & Ep)|Ep]]; [|by rewrite Ep in *|].
  - destruct Hm as [?|[[??]|[[??]|(_ & ? & ? & ?)]]]; [by left|by right; right|congruence..].
  - destruct Hm as [?|[[??]|[[??]|(_ & ? & ? & ?)]]]; [by left|by destruct se_end0|congruence..].
Qed.
End results.

(** ** The handoff *)

Lemma paired_lookup popped i k f : paired popped !! i = Some (k, f) -> k = i /\ popped !! i = Some f.
Proof. unfold paired. intros (x & y & [= <- <-] & Hx & Hy)%lookup_zip_with_Some. apply lookup_seq in Hx as [-> _]. done. Qed.

Lemma ordered_processed s i k f : ordered s -> processed (rs s) !! i = Some (k, f) -> k = i /\ stamped (inp s) !! i = Some f.
Proof.
  intros (popped & [Hq [rest Hr] _ _]) H. unfold flow in Hr. assert (paired popped !! i = Some (k, f)) as [-> Hf]%paired_lookup.
  { rewrite Hr, <-!app_assoc, lookup_app_l; [done|by eapply lookup_lt_Some]. }
  split; [done|]. rewrite Hq, lookup_app_l; [done|by eapply lookup_lt_Some].
Qed.

(** The probe is over: what the threads left behind. *)
Record over (s : state) : Prop := {
  ov_worker : wk s = WEnd;
  ov_producer : pr s = PEnd;
  ov_released : seq 0 (pulled s) ≡ₚ released (rs s) ++ slot_hand (ready (sh s));
  ov_slot : ready (sh s) <> None -> failed (rs s) = true;
  ov_all : worker_stop (sh s) = false -> failed (rs s) = false -> length (processed (rs s)) = pulled s }.

Lemma good_over threaded s : good threaded s -> mn s = MEnd -> over s.
Proof.
  intros (Hm & Ho & popped & []) Em.
  assert (wk s = WEnd /\ pr s = PEnd /\ (ready (sh s) <> None -> failed (rs s) = true)) as (Ew & Ep & Hr).
  { destruct threaded; destruct Hm; rewrite Em in *.
    - specialize (sy_joined0 eq_refl). rewrite sy_joined0 in *. cbn in *. specialize (sy_ending0 eq_refl). split_and!; [done|by apply sy_over0|tauto].
    - split_and!; [done|by apply se_over0|by rewrite se_shared0]. }
  unfold owned, flow, taken in *. rewrite Ew, Ep in *. cbn in *. rewrite !app_nil_r in *. split; try done.
  intros Es Ef. destruct (ready (sh s)) as [[k f]|] eqn:Er; [by rewrite Hr in Ef|]. cbn in od_all0.
  assert (length (processed (rs s)) = length (paired popped)) as -> by (rewrite <-od_all0 by done; by rewrite app_nil_r).
  unfold paired. rewrite length_zip_with, length_seq. destruct od_taken0 as [->|[?|?]]; [lia|congruence..].
Qed.

(** C12: The client probe's handoff, for every interleaving of the decoder's callbacks, the streaming thread, the presentation
    thread and [main]: the i-th sample presented is the i-th sample decoded, with the stamp of the i-th frame submitted; each
    sample pulled from the sink is in one place, so none is released twice or used after its release; the threads take at most
    nine steps for each sample and thirteen more; unless [main] has returned, a thread can move or the decoder is expected to
    deliver, so no wait is forever; and when [main] returns the worker has ended, every sample was released except one that a
    failure left in the slot, and without a failure or an error every sample was presented. *)
Theorem client_handoff playing threaded async expected events s :
  run playing threaded async expected events (initial threaded) = Some s ->
  (forall i k f, processed (rs s) !! i = Some (k, f) -> k = i /\ stamped (inp s) !! i = Some f) /\
  (seq 0 (pulled s) ≡ₚ released (rs s) ++ producer_hand (pr s) ++ slot_hand (ready (sh s)) ++ worker_hand (wk s)) /\
  (thread_steps events <= 9 * pulled s + 13)%nat /\
  (mn s = MEnd \/ can_move playing threaded async expected s \/ awaits_decoder s) /\
  (mn s = MEnd -> over s).
Proof.
  intros Hs. pose proof (run_left _ _ _ _ events _ _ Hs) as Hl.
  assert (good threaded s) as Hg.
  { apply (run_invariant playing threaded async expected (good threaded) events (initial threaded)); [|apply good_initial|done].
    intros e x y. apply good_step. }
  pose proof Hg as (Hm & Ho & Hr). split_and!.
  - intros i k f. by apply ordered_processed.
  - done.
  - assert (left_to_do (initial threaded) <= 13)%nat by (destruct threaded; cbn; lia). assert (pulled (initial threaded) = 0%nat) as E by done. lia.
  - destruct threaded; [by apply synchronised_progress|by apply serial_progress].
  - by apply (good_over threaded).
Qed.

(** Two frames through the slot; the second waits for the worker. *)
Definition two_frames : list event :=
  [Input false; Input false; Output true; Worker true; Producer true; Producer true; Producer true; Output true; Producer true; Producer true;
   Worker true; Worker true; Producer true; Producer true; Worker true; Worker true; Main; Main; Main; Main; Worker true; Worker true; Worker true;
   Worker true; Worker true; Main; Main].

Lemma client_handoff_witness :
  exists s, run true true false 2 two_frames (initial true) = Some s /\ mn s = MEnd /\
    processed (rs s) = [(0%nat, 1); (1%nat, 2)] /\ seq 0 2 ≡ₚ released (rs s) /\ (thread_steps two_frames <= 31)%nat.
Proof.
  destruct (run true true false 2 two_frames (initial true)) as [s|] eqn:E; [|vm_compute in E; discriminate E].
  pose proof (client_handoff true true false 2 two_frames s E) as (_ & Ho & Hb & _ & Hend). exists s.
  assert (mn s = MEnd /\ processed (rs s) = [(0%nat, 1); (1%nat, 2)] /\ pulled s = 2%nat /\ ready (sh s) = None) as (Em & Ep & En & Er)
    by (vm_compute in E; injection E as <-; done).
  split_and!; [done..| |by rewrite En in Hb].
  pose proof (ov_released _ (Hend Em)) as H. by rewrite En, Er, app_nil_r in H.
Defined.

(** A failure with another sample in the slot: that sample is never released. *)
Definition failing_frame : list event :=
  [Input false; Input false; Output true; Producer true; Producer true; Producer true; Worker true; Worker true; Output true; Producer true;
   Producer true; Producer true; Worker false; Worker false; Worker false; Worker false; Worker false; Main; Main; Main; Main; Main; Main].

Lemma sample_left_behind :
  exists s, run true true false 2 failing_frame (initial true) = Some s /\ mn s = MEnd /\ pulled s = 2%nat /\ released (rs s) = [0%nat] /\
    ready (sh s) = Some (1%nat, 2).
Proof. eexists. split; [vm_compute; reflexivity|done]. Qed.
