(* ===== verification/ClientSession.v ===== *)
(** * ClientSession: probes/video/plank-probe-client-pipeline.cpp

    What the threads of [ClientPipeline] call: the extension lists and the command line the
    probe reads ([Reading]), the times at which the decoder is fed ([Schedule]), and the frames
    handed to the compositor and their feedback ([Presentation]).  EGL, GL, GStreamer and the
    compositor are parameters: a script says what each call answers and which feedback a
    dispatch delivers.  [failed] is the part of the source's flag that these calls set; the flag
    the streaming thread sets is [ClientPipeline]'s.  Milliseconds the source keeps as doubles are the nanoseconds they are
    divided from. *)

From stdpp Require Import gmap.
From S2P Require Import Prelude.
From S2P Require Import BenchX264.
From S2P Require Import UhidProbe.
From Stdlib Require Import Ascii.
#[local] Open Scope Z_scope.

(** ** Texts *)

Module Reading.

#[local] Abbreviation space := (Ascii.Ascii false false false false false true false false).

(** [std::strstr] from a position: the first position at or after it where [name] stands. *)
Fixpoint starts_with (name text : list ascii) : bool :=
  match name, text with
  | [], _ => true
  | a :: name, b :: text => Ascii.eqb a b && starts_with name text
  | _, [] => false
  end.
Fixpoint strstr (text name : list ascii) (at_ : nat) : option nat :=
  if starts_with name text then Some at_
  else match text with [] => None | _ :: text => strstr text name (S at_) end.

(** The loop of [has_extension]: a match counts between spaces and the ends. *)
Fixpoint match_loop (fuel : nat) (extensions name : list ascii) (match_ : option nat) : bool :=
  match fuel, match_ with
  | S fuel, Some i =>
      if (match i with O => true | S j => match extensions !! j with Some c => Ascii.eqb c space | None => false end end) &&
         (match extensions !! (i + length name)%nat with Some c => Ascii.eqb c space | None => true end)
      then true
      else match_loop fuel extensions name (strstr (drop (i + length name) extensions) name (i + length name))
  | _, _ => false
  end.

(** A null pointer is [None]. *)
Definition has_extension (extensions name : option string) : bool :=
  match extensions, name with
  | Some extensions, Some name =>
      let text := String.list_ascii_of_string extensions in
      let name := String.list_ascii_of_string name in
      match name with
      | [] => false
      | _ => if existsb (fun c => Ascii.eqb c space) name then false else match_loop (S (length text)) text name (strstr text name 0)
      end
  | _, _ => false
  end.

(** [parse_positive] and [parse_nonnegative]: [std::strtoull] in base 10 over the whole text. *)
Definition parse_nonnegative (text : string) : option Z := whole_number text 10.
Definition parse_positive (text : string) : option Z := v ← whole_number text 10; if v =? 0 then None else Some v.

Record Options := mkOptions {
  expected_frames : Z; submit_lead_ns : Z; threaded : bool; async_feedback : bool; fifo_enabled : bool; async_inflight_limit : Z }.
Definition default_options : Options := mkOptions 600 0 false false false 1.

(** What [main] makes of the arguments after the bitstream; [None]: it returns 2. *)
Definition parse_frames (text : string) (o : Options) : option Options :=
  v ← parse_positive text;
  Some (mkOptions v (submit_lead_ns o) (threaded o) (async_feedback o) (fifo_enabled o) (async_inflight_limit o)).
Definition parse_lead (text : string) (o : Options) : option Options :=
  v ← parse_nonnegative text;
  if 16667 <=? v then None
  else Some (mkOptions (expected_frames o) (u64 (v * 1000)) (threaded o) (async_feedback o) (fifo_enabled o) (async_inflight_limit o)).
Definition parse_mode (text : string) (o : Options) : option Options :=
  if negb (String.eqb text "serial") && negb (String.eqb text "threaded") && negb (String.eqb text "async") && negb (String.eqb text "async-nofifo")
  then None
  else Some (mkOptions (expected_frames o) (submit_lead_ns o) (negb (String.eqb text "serial"))
    (String.eqb text "async" || String.eqb text "async-nofifo") (String.eqb text "async") (async_inflight_limit o)).
Definition parse_limit (text : string) (o : Options) : option Options :=
  if async_feedback o then
    v ← parse_positive text;
    if 4 <? v then None
    else Some (mkOptions (expected_frames o) (submit_lead_ns o) (threaded o) (async_feedback o) (fifo_enabled o) v)
  else None.
Definition parse_options (arguments : list string) : option (string * Options) :=
  match arguments with
  | [bitstream] => Some (bitstream, default_options)
  | [bitstream; frames] => o ← parse_frames frames default_options; Some (bitstream, o)
  | [bitstream; frames; lead] => o ← parse_frames frames default_options; o ← parse_lead lead o; Some (bitstream, o)
  | [bitstream; frames; lead; mode] =>
      o ← parse_frames frames default_options; o ← parse_lead lead o; o ← parse_mode mode o; Some (bitstream, o)
  | [bitstream; frames; lead; mode; limit] =>
      o ← parse_frames frames default_options; o ← parse_lead lead o; o ← parse_mode mode o; o ← parse_limit limit o; Some (bitstream, o)
  | _ => None
  end.

(** [std::strtoull] with base 0: the prefix chooses the base. *)
Definition auto_base (s : string) : Z :=
  match s with
  | String c0 (String c1 (String c2 _)) =>
      if Ascii.eqb c0 "0"%char && (Ascii.eqb c1 "x"%char || Ascii.eqb c1 "X"%char) && (digit_value c2 <? 16) then 16
      else if Ascii.eqb c0 "0"%char then 8 else 10
  | String c0 _ => if Ascii.eqb c0 "0"%char then 8 else 10
  | EmptyString => 10
  end.
Fixpoint strtoull_auto (s : string) : option (Z * string) :=
  match s with
  | EmptyString => None
  | String c rest =>
      if is_space c then strtoull_auto rest
      else if Ascii.eqb c "-"%char then unsigned_digits true (auto_base rest) rest
      else if Ascii.eqb c "+"%char then unsigned_digits false (auto_base rest) rest
      else unsigned_digits false (auto_base s) s
  end.
(** The modifier after the colon of a DRM format such as Y410:0x100000000000002. *)
Definition drm_modifier (drm_format : string) : option Z :=
  '(_, text) ← find_colon drm_format;
  '(modifier, rest) ← strtoull_auto text;
  if String.eqb rest EmptyString then Some modifier else None.
(** Its two halves as the attributes take them. *)
Definition modifier_lo (modifier : Z) : Z := s32 (Z.land modifier 4294967295).
Definition modifier_hi (modifier : Z) : Z := s32 (Z.shiftr modifier 32).
End Reading.

(** ** Feeding the decoder *)

Module Schedule.

Record SubmitStamp := mkStamp { stamp_frame : Z; stamp_time_ns : Z; target_present_ns : Z }.

(** The part of the state that [on_decoder_input] uses. *)
Record feed := mkFeed {
  submitted : Z; first_target_present_ns : Z; failed : bool; input_schedule_late : list Z;
  submit_queue : list SubmitStamp; max_submit_depth : Z }.

Definition EINTR : Z := 4.
(** [clock_nanosleep] is called again while a signal interrupts it; [None]: it still sleeps. *)
Fixpoint nanosleep (statuses : list Z) : option Z :=
  match statuses with [] => None | st :: statuses => if st =? EINTR then nanosleep statuses else Some st end.

(** What the clock and the sleep answer during a call. *)
Record clocks := mkClocks { now_ns : Z; sleeps : list Z; actual_ns : Z; stamp_ns : Z }.

Section settings.
Context (submit_lead_ns refresh_ns : Z).

(** The time the frame is due at, and the time of the first frame after it. *)
Definition plan (frame now first : Z) : Z * Z :=
  let target := u64 (first + (frame - 1) * refresh_ns - submit_lead_ns) in
  if target <=? now then
    let periods := u64 ((now - target) `div` refresh_ns + 1) in
    (u64 (target + periods * refresh_ns), u64 (first + periods * refresh_ns))
  else (target, first).

Definition push (stamp : SubmitStamp) (f : feed) : feed :=
  let queue := submit_queue f ++ [stamp] in
  mkFeed (submitted f) (first_target_present_ns f) (failed f) (input_schedule_late f) queue (Z.max (max_submit_depth f) (len queue)).

(** [on_decoder_input] for a buffer: whether it passes; [None]: the sleep does not end. *)
Definition on_decoder_input (c : clocks) (f : feed) : option (bool * feed) :=
  let frame := u64 (submitted f + 1) in
  if submit_lead_ns =? 0 then
    Some (true, push (mkStamp frame (stamp_ns c) 0)
      (mkFeed frame (first_target_present_ns f) (failed f) (input_schedule_late f) (submit_queue f) (max_submit_depth f)))
  else
    let '(target, first) := plan frame (now_ns c) (first_target_present_ns f) in
    status ← nanosleep (sleeps c);
    if status =? 0 then
      let late := input_schedule_late f ++ [if target <? actual_ns c then actual_ns c - target else 0] in
      Some (true, push (mkStamp frame (stamp_ns c) (u64 (target + submit_lead_ns)))
        (mkFeed frame first (failed f) late (submit_queue f) (max_submit_depth f)))
    else Some (false, mkFeed frame first true (input_schedule_late f) (submit_queue f) (max_submit_depth f)).

(** The frames of a stream, one after another. *)
Fixpoint feed_all (cs : list clocks) (f : feed) : option feed :=
  match cs with [] => Some f | c :: cs => '(_, f) ← on_decoder_input c f; feed_all cs f end.
End settings.

Definition initial (first : Z) : feed := mkFeed 0 first false [] [] 0.
End Schedule.

(** ** Presentation *)

Module Presentation.
Import Schedule.

(** The nanoseconds of each measurement, and the counts of the feedback's flags. *)
Record statistics := mkStatistics {
  decode : list Z; surface_to_swap : list Z; swap_submit : list Z; surface_to_present : list Z; submit_to_present : list Z;
  presentation_interval : list Z; surface_vs_target : list Z; swap_vs_target : list Z; presentation_vs_target : list Z;
  first_presentation_ns : Z; last_presentation_ns : Z;
  vsync_frames : Z; hw_clock_frames : Z; hw_completion_frames : Z; zero_copy_frames : Z }.
Definition no_statistics : statistics := mkStatistics [] [] [] [] [] [] [] [] [] 0 0 0 0 0 0.

Definition KIND_VSYNC : Z := 1.
Definition KIND_HW_CLOCK : Z := 2.
Definition KIND_HW_COMPLETION : Z := 4.
Definition KIND_ZERO_COPY : Z := 8.
Definition count_flag (flags kind count : Z) : Z := if Z.land flags kind =? 0 then count else u64 (count + 1).

(** The times of one frame, as an [AsyncFeedback] keeps them. *)
Record AsyncFeedback := mkFeedback { submit : SubmitStamp; surface_ready_ns : Z; render_started_ns : Z; swap_submitted_ns : Z }.

(** A difference of two times as signed numbers. *)
Definition signed_difference (a b : Z) : Z := s64 (s64 a - s64 b).

(** [record_presentation]; [None]: a presentation before the frame existed. *)
Definition record_presentation (a : AsyncFeedback) (presented_ns flags : Z) (st : statistics) : option statistics :=
  let stamp := submit a in
  if (presented_ns <? stamp_time_ns stamp) || (presented_ns <? surface_ready_ns a) then None
  else
    let target := target_present_ns stamp in
    let targeted (l : list Z) (t : Z) := if target =? 0 then l else l ++ [signed_difference t target] in
    Some (mkStatistics
      (decode st ++ [u64 (surface_ready_ns a - stamp_time_ns stamp)])
      (surface_to_swap st ++ [u64 (swap_submitted_ns a - surface_ready_ns a)])
      (swap_submit st ++ [u64 (swap_submitted_ns a - render_started_ns a)])
      (surface_to_present st ++ [u64 (presented_ns - surface_ready_ns a)])
      (submit_to_present st ++ [u64 (presented_ns - stamp_time_ns stamp)])
      (if last_presentation_ns st =? 0 then presentation_interval st else presentation_interval st ++ [u64 (presented_ns - last_presentation_ns st)])
      (targeted (surface_vs_target st) (surface_ready_ns a))
      (targeted (swap_vs_target st) (swap_submitted_ns a))
      (targeted (presentation_vs_target st) presented_ns)
      (if last_presentation_ns st =? 0 then presented_ns else first_presentation_ns st)
      presented_ns
      (count_flag flags KIND_VSYNC (vsync_frames st))
      (count_flag flags KIND_HW_CLOCK (hw_clock_frames st))
      (count_flag flags KIND_HW_COMPLETION (hw_completion_frames st))
      (count_flag flags KIND_ZERO_COPY (zero_copy_frames st))).

(** The time in an event: seconds in two halves, and nanoseconds. *)
Definition event_ns (sec_hi sec_lo nsec : Z) : Z := u64 (u64 (Z.lor (Z.shiftl sec_hi 32) sec_lo * 1000000000) + nsec).

(** The frames in flight: the feedback objects of the heap, the protocol objects that the
    compositor has still to answer, and the log of the deleted ones. *)
Record window := mkWindow {
  heap : gmap nat AsyncFeedback; proxies : list nat; next_id : nat; deleted : list nat;
  async_inflight : Z; max_async_inflight : Z; presented : Z; failed : bool; stale_frames_dropped : Z; stale_drop_late : list Z;
  commit_timing_frames : Z; fifo_frames : Z; stats : statistics }.
Definition empty_window : window := mkWindow ∅ [] 0 [] 0 0 0 false 0 [] 0 0 no_statistics.

Definition set_failed (w : window) : window :=
  mkWindow (heap w) (proxies w) (next_id w) (deleted w) (async_inflight w) (max_async_inflight w) (presented w) true
    (stale_frames_dropped w) (stale_drop_late w) (commit_timing_frames w) (fifo_frames w) (stats w).
Definition set_heap (h : gmap nat AsyncFeedback) (ps : list nat) (gone : list nat) (w : window) : window :=
  mkWindow h ps (next_id w) (deleted w ++ gone) (async_inflight w) (max_async_inflight w) (presented w) (failed w)
    (stale_frames_dropped w) (stale_drop_late w) (commit_timing_frames w) (fifo_frames w) (stats w).
Definition set_inflight (n : Z) (w : window) : window :=
  mkWindow (heap w) (proxies w) (next_id w) (deleted w) n (max_async_inflight w) (presented w) (failed w)
    (stale_frames_dropped w) (stale_drop_late w) (commit_timing_frames w) (fifo_frames w) (stats w).
Definition set_presented (n : Z) (st : statistics) (w : window) : window :=
  mkWindow (heap w) (proxies w) (next_id w) (deleted w) (async_inflight w) (max_async_inflight w) n (failed w)
    (stale_frames_dropped w) (stale_drop_late w) (commit_timing_frames w) (fifo_frames w) st.

(** An event for the n-th protocol object that is still to be answered; the compositor
    destroys the object with the event, except for [SyncOutput]. *)
Inductive note := Presented (n : nat) (sec_hi sec_lo nsec flags : Z) | Discarded (n : nat) | SyncOutput (n : nat).

(** A listener is called with the pointer it was registered with: [None] if that was deleted. *)
Definition on_async_presented (id : nat) (presented_ns flags : Z) (w : window) : option window :=
  a ← heap w !! id;
  let w := match record_presentation a presented_ns flags (stats w) with
           | Some st => set_presented (presented w) st w | None => set_failed w end in
  let w := set_presented (u64 (presented w + 1)) (stats w) w in
  let w := set_inflight (u64 (async_inflight w - 1)) w in
  Some (set_heap (delete id (heap w)) (proxies w) [id] w).
Definition on_async_discarded (id : nat) (w : window) : option window :=
  _ ← heap w !! id;
  let w := set_inflight (u64 (async_inflight w - 1)) (set_failed w) in
  Some (set_heap (delete id (heap w)) (proxies w) [id] w).

(** The protocol object is gone. *)
Definition answered (n : nat) (w : window) : window := set_heap (heap w) (delete n (proxies w)) [] w.
Definition deliver (e : note) (w : window) : option window :=
  match e with
  | Presented n hi lo nsec flags =>
      match proxies w !! n with Some id => on_async_presented id (event_ns hi lo nsec) flags (answered n w) | None => Some w end
  | Discarded n => match proxies w !! n with Some id => on_async_discarded id (answered n w) | None => Some w end
  | SyncOutput _ => Some w
  end.
Fixpoint deliver_all (es : list note) (w : window) : option window :=
  match es with [] => Some w | e :: es => w ← deliver e w; deliver_all es w end.

(** The end of a call: its result, a dispatch that blocks, or a listener called with a deleted object. *)
Inductive outcome := Done (ok : bool) (w : window) | Blocked (w : window) | Dangling.

(** Dispatch while [busy]; a dispatch answers below zero ([None]) or delivers events. *)
Fixpoint dispatch_while (busy : window -> bool) (rounds : list (option (list note))) (w : window) : outcome :=
  if busy w then
    match rounds with
    | [] => Blocked w
    | None :: _ => Done false (set_failed w)
    | Some es :: rounds => match deliver_all es w with Some w => dispatch_while busy rounds w | None => Dangling end
    end
  else Done true w.

Definition drain_async_feedback (rounds : list (option (list note))) (w : window) : outcome :=
  match dispatch_while (fun w => negb (async_inflight w =? 0)) rounds w with
  | Done true w => Done (negb (failed w)) w
  | r => r
  end.

(** The reply a synchronous feedback gets. *)
Inductive reply := ReplyPresented (sec_hi sec_lo nsec flags : Z) | ReplyDiscarded.
(** The wait for it: each dispatch fails, or brings nothing, or brings it. *)
Fixpoint await_reply (rounds : list (option (option reply))) : option (option reply) :=
  match rounds with
  | [] => None
  | None :: _ => Some None
  | Some None :: rounds => await_reply rounds
  | Some (Some r) :: _ => Some (Some r)
  end.

(** What the calls about one sample answer. *)
Record script := mkScript {
  s_submit : SubmitStamp; s_surface_ready_ns : Z; s_window : list (option (list note)); s_now : Z;
  s_memory : bool; s_drm_format : option string; s_image : bool; s_drawn : bool;
  s_render_started_ns : Z; s_swapped : bool; s_swap_submitted_ns : Z;
  s_roundtrip : option (list note); s_replies : list (option (option reply)) }.

(** The commit timer exists; the FIFO is enabled and exists (neither does when the probe is built without the protocol). *)
Section probe.
Context (async_feedback has_timer has_fifo : bool) (async_inflight_limit : Z).

(** [import_and_present] up to the swap: the counters of the protocols in use. *)
Definition count_protocols (x : script) (w : window) : window :=
  mkWindow (heap w) (proxies w) (next_id w) (deleted w) (async_inflight w) (max_async_inflight w) (presented w) (failed w)
    (stale_frames_dropped w) (stale_drop_late w)
    (if negb (target_present_ns (s_submit x) =? 0) && has_timer then u64 (commit_timing_frames w + 1) else commit_timing_frames w)
    (if has_fifo then u64 (fifo_frames w + 1) else fifo_frames w) (stats w).

(** A feedback object and its protocol object. *)
Definition new_feedback (a : AsyncFeedback) (w : window) : window :=
  mkWindow (<[next_id w := a]> (heap w)) (proxies w ++ [next_id w]) (S (next_id w)) (deleted w) (async_inflight w) (max_async_inflight w)
    (presented w) (failed w) (stale_frames_dropped w) (stale_drop_late w) (commit_timing_frames w) (fifo_frames w) (stats w).

(** The swap failed: both are destroyed. *)
Definition drop_feedback (id : nat) (w : window) : window :=
  set_heap (delete id (heap w)) (filter (fun p => p <> id) (proxies w)) [id] w.

Definition in_flight (id : nat) (swap_submitted : Z) (w : window) : option window :=
  a ← heap w !! id;
  let n := u64 (async_inflight w + 1) in
  Some (mkWindow (<[id := mkFeedback (submit a) (surface_ready_ns a) (render_started_ns a) swap_submitted]> (heap w)) (proxies w) (next_id w)
    (deleted w) n (Z.max (max_async_inflight w) n) (presented w) (failed w) (stale_frames_dropped w) (stale_drop_late w)
    (commit_timing_frames w) (fifo_frames w) (stats w)).

Definition import_and_present (x : script) (w : window) : outcome :=
  match s_drm_format x ≫= Reading.drm_modifier with
  | None => Done false w
  | Some _ =>
      if negb (s_image x) then Done false w
      else if negb (s_drawn x) then Done false w
      else
        let w := count_protocols x w in
        let a := mkFeedback (s_submit x) (s_surface_ready_ns x) (s_render_started_ns x) 0 in
        if async_feedback then
          let id := next_id w in
          let w := new_feedback a w in
          if negb (s_swapped x) then Done false (drop_feedback id w)
          else
            match in_flight id (s_swap_submitted_ns x) w with
            | None => Dangling
            | Some w =>
                match s_roundtrip x with
                | None => Done false w
                | Some es => match deliver_all es w with Some w => Done (negb (failed w)) w | None => Dangling end
                end
            end
        else if negb (s_swapped x) then Done false w
        else
          match await_reply (s_replies x) with
          | None => Blocked w
          | Some (Some (ReplyPresented hi lo nsec flags)) =>
              let a := mkFeedback (s_submit x) (s_surface_ready_ns x) (s_render_started_ns x) (s_swap_submitted_ns x) in
              match record_presentation a (event_ns hi lo nsec) flags (stats w) with
              | Some st => Done true (set_presented (presented w) st w)
              | None => Done false w
              end
          | Some _ => Done false w
          end
  end.

Definition kStaleToleranceNs : Z := 1000000.

(** The part of [process_sample] after the wait for the window. *)
Definition present_sample (x : script) (w : window) : outcome :=
  let target := target_present_ns (s_submit x) in
  if async_feedback && negb (target =? 0) && (u64 (target + kStaleToleranceNs) <? s_now x) then
    Done true (mkWindow (heap w) (proxies w) (next_id w) (deleted w) (async_inflight w) (max_async_inflight w) (presented w) (failed w)
      (u64 (stale_frames_dropped w + 1)) (stale_drop_late w ++ [u64 (s_now x - target)]) (commit_timing_frames w) (fifo_frames w) (stats w))
  else if s_memory x && match s_drm_format x with Some f => String.prefix "Y410" f | None => false end then import_and_present x w
  else Done false w.

Definition process_sample (x : script) (w : window) : outcome :=
  if async_feedback then
    match dispatch_while (fun w => async_inflight_limit <=? async_inflight w) (s_window x) w with
    | Done true w => present_sample x w
    | r => r
    end
  else present_sample x w.

(** The samples of [presentation_worker], one after another; the first that fails is the last. *)
Fixpoint present_all (xs : list script) (w : window) : outcome :=
  match xs with
  | [] => Done true w
  | x :: xs =>
      match process_sample x w with
      | Done true w => present_all xs (if async_feedback then w else set_presented (u64 (presented w + 1)) (stats w) w)
      | Done false w => Done false (set_failed w)
      | r => r
      end
  end.

(** And the wait for the feedback in flight, whatever the samples' result. *)
Definition present_and_drain (xs : list script) (rounds : list (option (list note))) (w : window) : outcome :=
  match present_all xs w with
  | Done ok w => if async_feedback then drain_async_feedback rounds w else Done ok w
  | r => r
  end.
End probe.

(** The times of a commit timer. *)
Definition timer_timestamp (target : Z) : Z * Z * Z :=
  let seconds := target `div` 1000000000 in (u32 (Z.shiftr seconds 32), u32 seconds, u32 (target `mod` 1000000000)).
End Presentation.

(** ** Extension lists *)

Section extensions.
Import Reading.
#[local] Abbreviation space := (Ascii.Ascii false false false false false true false false).

(** The words between single spaces. *)
Fixpoint words (text : list ascii) : list (list ascii) :=
  match text with
  | [] => [[]]
  | c :: text =>
      if Ascii.eqb c space then [] :: words text
      else match words text with w :: ws => (c :: w) :: ws | [] => [[c]] end
  end.

Definition ends_word (post : list ascii) : Prop := post = [] \/ exists q, post = space :: q.
Definition starts_word (pre : list ascii) : Prop := pre = [] \/ exists p, pre = p ++ [space].

Lemma words_inv text :
  exists w ws, words text = w :: ws /\ (exists post, text = w ++ post /\ ends_word post) /\
    forall n, n ∈ ws -> exists p q, text = p ++ space :: n ++ q /\ ends_word q.
Proof.
  induction text as [|c text (w & ws & E & (post & Et & Hp) & Hn)]; cbn [words].
  - exists [], []. split_and!; [done|exists []; split; [done|by left]|]. intros n []%not_elem_of_nil.
  - destruct (Ascii.eqb_spec c space) as [->|Hc].
    + exists [], (w :: ws). split_and!; [by rewrite E|exists (space :: text); split; [done|right; by exists text]|].
      intros n [->|H]%elem_of_cons; [exists [], post; by rewrite Et|]. destruct (Hn n H) as (p & q & -> & Hq). by exists (space :: p), q.
    + rewrite E. exists (c :: w), ws. split_and!; [done|exists post; by rewrite Et|].
      intros n H. destruct (Hn n H) as (p & q & -> & Hq). by exists (c :: p), q.
Qed.

Lemma words_app p q : words (p ++ space :: q) = words p ++ words q.
Proof.
  induction p as [|c p IH]; cbn [words app]; [done|]. rewrite IH. destruct (Ascii.eqb_spec c space); [done|].
  destruct (words_inv p) as (w & ws & -> & _). done.
Qed.

Lemma words_word n : space ∉ n -> words n = [n].
Proof.
  induction n as [|c n IH]; [done|]. intros [Hc Hn]%not_elem_of_cons. cbn [words].
  destruct (Ascii.eqb_spec c space); [congruence|]. by rewrite IH.
Qed.

(** A name without spaces is a word where it stands between spaces and the ends. *)
Lemma elem_of_words n text :
  space ∉ n -> n ∈ words text <-> exists pre post, text = pre ++ n ++ post /\ starts_word pre /\ ends_word post.
Proof.
  intros Hn. split.
  - destruct (words_inv text) as (w & ws & -> & (post & Et & Hp) & Hws). intros [->|H]%elem_of_cons.
    + exists [], post. split_and!; [done|by left|done].
    + destruct (Hws n H) as (p & q & -> & Hq). exists (p ++ [space]), q. rewrite <-app_assoc. split_and!; [done|right; by exists p|done].
  - intros (pre & post & -> & [->|[p ->]] & [->|[q ->]]); rewrite <-?app_assoc; cbn [app]; rewrite ?app_nil_r; repeat rewrite words_app; rewrite (words_word n Hn); set_solver.
Qed.

Lemma starts_with_spec name text : starts_with name text = true <-> exists post, text = name ++ post.
Proof.
  revert text. induction name as [|a name IH]; intros text; cbn [starts_with app]; [split; [intros _; by exists text|done]|].
  destruct text as [|b text]; [split; [done|by intros [? [=]]]|]. rewrite andb_true_iff, IH, Ascii.eqb_eq. naive_solver.
Qed.

(** [name] stands at a position, and is a word there. *)
Definition stands (text name : list ascii) (i : nat) : Prop := exists pre post, text = pre ++ name ++ post /\ length pre = i.
Definition stands_alone (text name : list ascii) (i : nat) : Prop :=
  exists pre post, text = pre ++ name ++ post /\ length pre = i /\ starts_word pre /\ ends_word post.

Lemma strstr_spec pre text name :
  match strstr text name (length pre) with
  | Some i => (length pre <= i)%nat /\ stands (pre ++ text) name i /\ forall j, (length pre <= j < i)%nat -> ~ stands (pre ++ text) name j
  | None => forall j, (length pre <= j)%nat -> ~ stands (pre ++ text) name j
  end.
Proof.
  revert pre. induction text as [|c text IH]; intros pre; cbn [strstr].
  - destruct (starts_with name []) eqn:Es.
    + apply starts_with_spec in Es as [post Es]. split_and!; [done|exists pre, post; by rewrite Es|intros j; lia].
    + intros j Hj (p & q & E & <-). apply (f_equal length) in E as El. rewrite app_nil_r, !length_app in El.
      assert (name = []) as -> by (apply nil_length_inv; lia). done.
  - destruct (starts_with name (c :: text)) eqn:Es.
    + apply starts_with_spec in Es as [post Es]. split_and!; [done|exists pre, post; by rewrite Es|intros j; lia].
    + assert (~ stands (pre ++ c :: text) name (length pre)) as Hno.
      { intros (p & q & E & El). apply app_inj_1 in E as [_ E]; [|done]. rewrite (proj2 (starts_with_spec name (c :: text))) in Es; [done|by exists q]. }
      specialize (IH (pre ++ [c])). rewrite length_app, Nat.add_1_r, <-app_assoc in IH. cbn [app] in IH.
      destruct (strstr text name (S (length pre))) as [i|].
      * destruct IH as (Hi & Hs & Hj). split_and!; [lia|done|]. intros j Hr. destruct (decide (j = length pre)) as [->|]; [done|apply Hj; lia].
      * intros j Hr. destruct (decide (j = length pre)) as [->|]; [done|apply IH; lia].
Qed.

Lemma stands_length text name i : stands text name i -> (i + length name <= length text)%nat.
Proof. intros (pre & post & -> & <-). rewrite !length_app. lia. Qed.

(** The test of the loop at a place where the name stands. *)
Lemma alone_test text name i :
  stands text name i ->
  (match i with O => true | S j => match text !! j with Some c => Ascii.eqb c space | None => false end end) &&
    (match text !! (i + length name)%nat with Some c => Ascii.eqb c space | None => true end) = true <-> stands_alone text name i.
Proof.
  intros (pre & post & -> & <-). rewrite andb_true_iff.
  assert ((match length pre with O => true | S j => match (pre ++ name ++ post) !! j with Some c => Ascii.eqb c space | None => false end end = true) <->
    starts_word pre) as ->.
  { destruct pre as [|c pre] using rev_ind; [split; [by left|done]|]. clear IHpre. rewrite length_app, Nat.add_1_r.
    rewrite <-app_assoc, lookup_app_r, Nat.sub_diag by lia. cbn. rewrite Ascii.eqb_eq. split; [intros ->; right; by exists pre|].
    intros [E|[p [_ [= ->]]%app_inj_2]]; [by destruct pre|done|done]. }
  assert (match (pre ++ name ++ post) !! (length pre + length name)%nat with Some c => Ascii.eqb c space | None => true end = true <-> ends_word post) as ->.
  { rewrite app_assoc, lookup_app_r, length_app, Nat.sub_diag by (rewrite length_app; lia). destruct post as [|c post]; cbn; [split; [by left|done]|].
    rewrite Ascii.eqb_eq. split; [intros ->; right; by exists post|]. intros [|[q [= -> ->]]]; done. }
  split; [intros [??]; by exists pre, post|]. intros (pre' & post' & E & El & Hs & He).
  apply app_inj_1 in E as [-> [_ ->]%app_inj_1]; [done..|]. done.
Qed.

(** The name stands alone nowhere inside another place of it. *)
Lemma alone_apart text name i j :
  space ∉ name -> stands text name i -> stands_alone text name j -> (i < j)%nat -> (i + length name <= j)%nat.
Proof.
  intros Hn (pre & post & -> & <-) (pre' & post' & E & <- & Hs & _) Hlt. destruct (decide (length pre + length name <= length pre')%nat) as [|Hc]; [done|exfalso].
  destruct Hs as [->|[p ->]]; [cbn in Hlt; lia|]. rewrite length_app in *. cbn [length] in *.
  apply (f_equal (fun l => l !! length p)) in E. rewrite <-app_assoc in E. rewrite (lookup_app_r p), Nat.sub_diag in E by lia. cbn in E.
  rewrite lookup_app_r, lookup_app_l in E by lia. by apply Hn, list_elem_of_lookup; exists (length p - length pre)%nat.
Qed.

Lemma match_loop_spec fuel text name from :
  space ∉ name -> name <> [] -> (from <= length text)%nat -> (length text < fuel + from)%nat ->
  match_loop fuel text name (strstr (drop from text) name from) = true <-> exists j, (from <= j)%nat /\ stands_alone text name j.
Proof.
  intros Hn Hne. revert from. induction fuel as [|fuel IH]; intros from Hf Hfuel; [lia|].
  pose proof (strstr_spec (take from text) (drop from text) name) as Hs. rewrite length_take_le, take_drop in Hs by done.
  assert (forall j, stands_alone text name j -> stands text name j) as Has by (intros j (a & b & ? & ? & _); by exists a, b).
  cbn [match_loop]. destruct (strstr (drop from text) name from) as [i|].
  - destruct Hs as (Hi & Hst & Hno). pose proof (stands_length _ _ _ Hst) as Hl. assert (0 < length name)%nat by (by destruct name; cbn; [|lia]).
    destruct (_ && _) eqn:Et; [apply (alone_test text name i Hst) in Et; split; [by exists i|done]|].
    rewrite IH by lia. split; intros (j & Hj & Ha); exists j; (split; [|done]); [lia|].
    apply (alone_apart text name i j Hn Hst Ha). destruct (decide (j < i)%nat); [by destruct (Hno j); [lia|apply Has]|].
    destruct (decide (j = i)) as [->|]; [|lia]. apply (alone_test text name i Hst) in Ha. congruence.
  - split; [done|]. intros (j & Hj & Ha). by destruct (Hs j Hj); apply Has.
Qed.

(** [has_extension] finds a name in an extension list exactly when it is one of the space-separated words of the list, although
    its loop looks at substrings and skips past each of them; empty names, names with a space and null pointers are never found. *)
Theorem has_extension_words extensions name :
  has_extension extensions name = true <->
  exists text n, extensions = Some text /\ name = Some n /\ n <> EmptyString /\ space ∉ String.list_ascii_of_string n /\
    String.list_ascii_of_string n ∈ words (String.list_ascii_of_string text).
Proof.
  destruct extensions as [text|]; [|split; [done|naive_solver]]. destruct name as [n|]; [|split; [done|naive_solver]].
  cbn [has_extension]. assert (n <> EmptyString <-> String.list_ascii_of_string n <> []) as Hne by (by destruct n).
  trans (String.list_ascii_of_string n <> [] /\ space ∉ String.list_ascii_of_string n /\
    String.list_ascii_of_string n ∈ words (String.list_ascii_of_string text));
    [|split; [intros (?&?&?); exists text, n; by rewrite Hne|intros (? & ? & [= <-] & [= <-] & ?); by rewrite Hne in *]].
  clear Hne. generalize (String.list_ascii_of_string n) as l, (String.list_ascii_of_string text) as t. intros l t.
  destruct l as [|c l'] eqn:El; [naive_solver|]. rewrite <-El. destruct (existsb _ l) eqn:Es.
  { apply existsb_exists in Es as (x & Hx%list_elem_of_In & ->%Ascii.eqb_eq). split; [done|tauto]. }
  assert (space ∉ l) as Hn.
  { intros Hx. assert (existsb (fun c => Ascii.eqb c space) l = true) as E by (apply existsb_exists; exists space; by rewrite <-list_elem_of_In). congruence. }
  pose proof (match_loop_spec (S (length t)) t l 0 Hn ltac:(by rewrite El) ltac:(lia) ltac:(lia)) as ->.
  rewrite (elem_of_words l t Hn). split.
  - intros (j & _ & pre & post & ? & _ & ? & ?). split_and!; [by rewrite El|done|]. by exists pre, post.
  - intros (_ & _ & pre & post & ? & ? & ?). exists (length pre). split; [lia|]. by exists pre, post.
Qed.
End extensions.

(** ** The schedule *)

Section schedule.
Import Schedule.
Context (submit_lead_ns refresh_ns : Z).

(** Every sleep of a call ends, and without an error. *)
Definition slept (c : clocks) : Prop := nanosleep (sleeps c) = Some 0.

(** What one frame's due time is to the one before it: the next refresh, or the first refresh
    after the clock when that is later. *)
Definition follows (now before target : Z) : Prop :=
  now < target /\ exists k, 1 <= k /\ target = before + k * refresh_ns /\ (k = 1 \/ target - refresh_ns <= now).

Context (Hr : 0 < refresh_ns) (Hl : 0 < submit_lead_ns).

(** In the range of the clock [plan] has no overflow and is the step of [follows]. *)
Lemma plan_follows frame now first before :
  1 <= frame -> 0 <= first -> before = first + (frame - 1) * refresh_ns - submit_lead_ns - refresh_ns -> 0 <= before + refresh_ns -> 0 <= now ->
  Z.max (before + refresh_ns) now + refresh_ns + submit_lead_ns < 2 ^ 64 ->
  exists target first', plan submit_lead_ns refresh_ns frame now first = (target, first') /\ follows now before target /\
    target = first' + (frame - 1) * refresh_ns - submit_lead_ns /\ first <= first' /\ target <= Z.max (before + refresh_ns) (now + refresh_ns).
Proof using Hr Hl.
  intros Hf H0 Hb Hp Hn Hmax. unfold plan. assert (u64 (first + (frame - 1) * refresh_ns - submit_lead_ns) = before + refresh_ns) as ->.
  { rewrite wrap_small; [lia|]. unfold in_range. pows. lia. }
  destruct (Z.leb_spec (before + refresh_ns) now) as [Hle|Hgt].
  - set (q := (now - (before + refresh_ns)) `div` refresh_ns).
    pose proof (Z.div_mod (now - (before + refresh_ns)) refresh_ns ltac:(lia)) as Hd. pose proof (Z.mod_pos_bound (now - (before + refresh_ns)) refresh_ns Hr) as Hm.
    fold q in Hd. assert (0 <= q) by (apply Z.div_pos; lia). assert (q <= now) by nia.
    assert ((q + 1) * refresh_ns = refresh_ns * q + refresh_ns) as Hq by ring. pows.
    rewrite (wrap_small 64 (q + 1)) by (unfold in_range; pows; lia).
    assert (0 <= (frame - 1) * refresh_ns) by nia.
    assert (first <= before + refresh_ns + submit_lead_ns) by lia.
    rewrite (wrap_small 64 (before + refresh_ns + _)) by (unfold in_range; pows; lia).
    rewrite (wrap_small 64 (first + _)) by (unfold in_range; pows; lia).
    eexists _, _. split; [done|]. split_and!; [|lia|lia|lia].
    split; [lia|]. exists (q + 2). split_and!; [lia|lia|]. right. lia.
  - eexists _, _. split; [done|]. split_and!; [|lia|lia|lia]. split; [done|]. exists 1. split_and!; [lia|lia|by left].
Qed.

(** The due times of a stream, and what is queued for it. *)
Fixpoint due (before : Z) (cs : list clocks) (targets : list Z) : Prop :=
  match cs, targets with
  | [], [] => True
  | c :: cs, t :: targets => follows (now_ns c) before t /\ due t cs targets
  | _, _ => False
  end.
Fixpoint stamps (frame : Z) (cs : list clocks) (targets : list Z) : list SubmitStamp :=
  match cs, targets with
  | c :: cs, t :: targets => mkStamp frame (stamp_ns c) (t + submit_lead_ns) :: stamps (frame + 1) cs targets
  | _, _ => []
  end.

Lemma feed_all_due cs bound : forall f,
  0 <= submitted f -> 0 <= first_target_present_ns f ->
  let before := first_target_present_ns f + submitted f * refresh_ns - submit_lead_ns - refresh_ns in
  0 <= before + refresh_ns -> before <= bound ->
  Forall (fun c => slept c /\ 0 <= now_ns c <= bound) cs -> submitted f + len cs < 2 ^ 64 ->
  bound + (len cs + 1) * refresh_ns + submit_lead_ns < 2 ^ 64 ->
  exists targets f', feed_all submit_lead_ns refresh_ns cs f = Some f' /\ due before cs targets /\
    submit_queue f' = submit_queue f ++ stamps (submitted f + 1) cs targets /\ failed f' = failed f /\ submitted f' = submitted f + len cs.
Proof using Hr Hl.
  revert bound. induction cs as [|c cs IH]; intros bound f Hs Hft before Hb0 Hbound Hcs Hn Hmax.
  - exists [], f. cbn. rewrite app_nil_r. split_and!; try done. lia.
  - apply Forall_cons in Hcs as [[Hsl Hnow] Hcs]. cbn [length] in *.
    assert (0 <= len cs) by lia. assert (0 <= len cs * refresh_ns) by nia.
    destruct (plan_follows (submitted f + 1) (now_ns c) (first_target_present_ns f) before) as (t & first' & Ep & Hfol & Et & Hfirst & Hle);
      [lia|done|unfold before; lia|done|lia|lia|].
    cbn [feed_all]. unfold on_decoder_input. destruct (Z.eqb_spec submit_lead_ns 0); [lia|].
    rewrite (wrap_small 64 (submitted f + 1)) by (unfold in_range; pows; lia). rewrite Ep, Hsl. cbn [mbind option_bind Z.eqb].
    unfold push. cbn [submitted first_target_present_ns Schedule.failed input_schedule_late submit_queue max_submit_depth].
    match goal with |- context [feed_all _ _ cs ?g] => set (f1 := g) end.
    destruct (IH (bound + refresh_ns) f1) as (targets & f' & E & Hdue & Hq & Hfl & Hsub);
      [cbn; lia|cbn; lia|cbn; destruct Hfol; lia|cbn; lia| |cbn; lia|lia|].
    { eapply Forall_impl; [exact Hcs|]. intros x [??]. split; [done|lia]. }
    exists (t :: targets), f'. rewrite E. cbn [due stamps]. split_and!; [done|done| | |done|cbn in Hsub; lia].
    + replace t with (first_target_present_ns f1 + submitted f1 * refresh_ns - submit_lead_ns - refresh_ns); [done|]. cbn. lia.
    + rewrite Hq. cbn. rewrite <-app_assoc. cbn. destruct Hfol. rewrite wrap_small by (unfold in_range; pows; lia). done.
Qed.
End schedule.

Import Schedule.

(** The decoder's schedule.  While the clock stays in the range of its 64 bits and no sleep fails, each frame of the stream is
    due at the first refresh of the established phase, less the lead, that is after the clock and after the previous frame's; the
    stamps queued for the sink are the frames 1, 2, ... in order, each aimed at its due time and the lead. *)
Theorem schedule_exact lead refresh first bound cs :
  0 < refresh -> 0 < lead <= first -> first - lead - refresh <= bound ->
  Forall (fun c => slept c /\ 0 <= now_ns c <= bound) cs -> len cs < 2 ^ 64 -> bound + (len cs + 1) * refresh + lead < 2 ^ 64 ->
  exists targets f, feed_all lead refresh cs (initial first) = Some f /\ due refresh (first - lead - refresh) cs targets /\
    submit_queue f = stamps lead 1 cs targets /\ Schedule.failed f = false.
Proof.
  intros Hr [Hl Hf] Hb Hcs Hn Hmax.
  destruct (feed_all_due lead refresh Hr Hl cs bound (initial first)) as (targets & f & E & Hd & Hq & Hfl & _); cbn; try lia; [done|].
  exists targets, f. cbn in *. rewrite Z.add_0_r in Hd. done.
Qed.

Lemma schedule_exact_witness :
  exists f, feed_all 5 10 [mkClocks 3 [4; 0] 96 97; mkClocks 98 [0] 105 106; mkClocks 131 [0] 140 141] (initial 100) = Some f /\
    submit_queue f = [mkStamp 1 97 100; mkStamp 2 106 110; mkStamp 3 141 140].
Proof.
  destruct (schedule_exact 5 10 100 1000 [mkClocks 3 [4; 0] 96 97; mkClocks 98 [0] 105 106; mkClocks 131 [0] 140 141])
    as (targets & f & E & _); [lia|lia|lia|by repeat constructor|done|done|].
  exists f. split; [done|]. vm_compute in E. by injection E as <-.
Defined.

(** ** The frames in flight *)

Section flights.
Import Presentation.
Context (has_timer has_fifo : bool) (limit : Z) (Hlimit : 1 <= limit < 2 ^ 64).

(** The protocol objects and the feedback objects are the same ones; every feedback object was deleted once or lives; the count of
    the frames in flight is theirs and within the limit; and each frame counted as presented was measured, unless a failure is noted. *)
Record sound (w : window) : Prop := {
  so_dom : dom (heap w) = list_to_set (proxies w);
  so_nodup : NoDup (proxies w);
  so_all : seq 0 (next_id w) ≡ₚ deleted w ++ proxies w;
  so_count : async_inflight w = len (proxies w);
  so_limit : async_inflight w <= limit;
  so_max : max_async_inflight w <= limit;
  so_presented : failed w = false -> presented w = u64 (len (submit_to_present (stats w))) }.

Lemma record_length a t flags st st' :
  record_presentation a t flags st = Some st' -> len (submit_to_present st') = len (submit_to_present st) + 1.
Proof. unfold record_presentation. destruct (_ || _); [done|]. intros [= <-]. cbn. rewrite length_app. cbn. lia. Qed.

Lemma delete_proxy (ps : list nat) n id :
  NoDup ps -> ps !! n = Some id -> ps ≡ₚ id :: delete n ps /\ id ∉ delete n ps /\ NoDup (delete n ps).
Proof.
  intros Hd Hn. assert (ps ≡ₚ id :: delete n ps) as Hp by (by apply delete_Permutation). split; [done|].
  rewrite Hp in Hd. by apply NoDup_cons in Hd.
Qed.

Lemma dom_delete_proxy (h : gmap nat AsyncFeedback) ps n id :
  NoDup ps -> ps !! n = Some id -> dom h = list_to_set ps -> dom (delete id h) = list_to_set (delete n ps).
Proof.
  intros Hd Hn Hh. destruct (delete_proxy ps n id Hd Hn) as (Hp & Hi & _). rewrite dom_delete_L, Hh.
  assert (list_to_set ps = list_to_set (C := gset nat) (id :: delete n ps)) as -> by (by apply leibniz_equiv, list_to_set_perm). set_solver.
Qed.

Lemma proxy_live w n id : sound w -> proxies w !! n = Some id -> is_Some (heap w !! id).
Proof. intros [] H. apply elem_of_dom. rewrite so_dom0. apply elem_of_list_to_set. by apply list_elem_of_lookup_2 in H. Qed.

(** An event for a live object deletes it and its protocol object. *)
Lemma answer_sound w n id presented' st' failed' :
  sound w -> proxies w !! n = Some id ->
  (failed' = false -> failed w = false /\ presented' = u64 (presented w + 1) /\ len (submit_to_present st') = len (submit_to_present (stats w)) + 1) ->
  forall w', heap w' = delete id (heap w) -> proxies w' = delete n (proxies w) -> next_id w' = next_id w -> deleted w' = deleted w ++ [id] ->
    async_inflight w' = u64 (async_inflight w - 1) -> max_async_inflight w' = max_async_inflight w ->
    presented w' = presented' -> failed w' = failed' -> stats w' = st' -> sound w'.
Proof using Hlimit.
  intros Hs Hn Hf w' Eh Ep Ei Ed Ec Em E1 E2 E3. destruct Hs. destruct (delete_proxy _ _ _ so_nodup0 Hn) as (Hp & _ & Hnd).
  assert (len (proxies w) = len (delete n (proxies w)) + 1) as Hlen by (apply Permutation_length in Hp; rewrite Hp; cbn; lia).
  assert (async_inflight w' = len (proxies w')) as Hc.
  { rewrite Ec, Ep, so_count0, Hlen, Z.add_simpl_r, wrap_small; [done|]. unfold in_range. lia. }
  split; [..|intros Hfl].
  - rewrite Eh, Ep. by apply (dom_delete_proxy _ _ n).
  - by rewrite Ep.
  - rewrite Ei, Ed, Ep, so_all0, <-app_assoc. by apply Permutation_app_head.
  - done.
  - rewrite Hc, Ep. lia.
  - by rewrite Em.
  - rewrite E2 in Hfl. destruct (Hf Hfl) as (Hw & -> & Hl'). rewrite E1, E3, Hl', so_presented0 by done.
    unfold wrap. by rewrite Zplus_mod_idemp_l.
Qed.

Lemma deliver_sound e w : sound w -> exists w', deliver e w = Some w' /\ sound w' /\ next_id w' = next_id w /\ (failed w = true -> failed w' = true).
Proof using Hlimit.
  intros Hs. destruct e as [n hi lo nsec flags|n|n]; cbn [deliver]; [| |by exists w].
  all: destruct (proxies w !! n) as [id|] eqn:En; [|by exists w]; destruct (proxy_live w n id Hs En) as [a Ha].
  - unfold on_async_presented. cbn [answered set_heap heap]. rewrite Ha. cbn [mbind option_bind].
    destruct (record_presentation a _ flags _) as [st|] eqn:Er; eexists; (split; [done|]); cbn -[u64] in *; (split; [|done]).
    + apply (answer_sound w n id (u64 (presented w + 1)) st (failed w)); try done; cbn -[u64]; [|by rewrite app_nil_r].
      intros Hf. split_and!; [done|done|]. by apply record_length in Er.
    + apply (answer_sound w n id (u64 (presented w + 1)) (stats w) true); try done; cbn -[u64]. by rewrite app_nil_r.
  - unfold on_async_discarded. cbn [answered set_heap heap]. rewrite Ha. cbn [mbind option_bind].
    eexists; (split; [done|]); cbn -[u64] in *; (split; [|done]).
    apply (answer_sound w n id (presented w) (stats w) true); try done; cbn -[u64]. by rewrite app_nil_r.
Qed.

Lemma deliver_all_sound es w :
  sound w -> exists w', deliver_all es w = Some w' /\ sound w' /\ next_id w' = next_id w /\ (failed w = true -> failed w' = true).
Proof using Hlimit.
  revert w. induction es as [|e es IH]; intros w Hs; cbn [deliver_all]; [by exists w|].
  destruct (deliver_sound e w Hs) as (w1 & -> & H1 & E1 & F1). destruct (IH w1 H1) as (w2 & E2 & H2 & E3 & F2).
  exists w2. cbn [mbind option_bind]. split_and!; [done|done|congruence|auto].
Qed.

(** A call's end leaves a sound state, a block is a wait for an object that the compositor has still to answer, and no listener is
    called with a deleted object. *)
Definition fine (r : outcome) : Prop :=
  match r with Done _ w => sound w | Blocked w => sound w /\ proxies w <> [] | Dangling => False end.

Lemma set_failed_sound w : sound w -> sound (set_failed w).
Proof. intros []. by split. Qed.

Lemma dispatch_fine busy rounds w :
  (forall w, sound w -> busy w = true -> 0 < async_inflight w) -> sound w ->
  fine (dispatch_while busy rounds w) /\ forall w', dispatch_while busy rounds w = Done true w' -> busy w' = false.
Proof using Hlimit.
  intros Hb. revert w. induction rounds as [|[es|] rounds IH]; intros w Hs; cbn [dispatch_while]; destruct (busy w) eqn:Eb; try (by split; [|intros ? [= <-]]).
  - split; [|done]. split; [done|]. intros Ep. specialize (Hb w Hs Eb). rewrite (so_count w Hs), Ep in Hb. done.
  - destruct (deliver_all_sound es w Hs) as (w' & -> & Hs' & _). by apply IH.
  - split; [|done]. by apply set_failed_sound.
Qed.

Lemma next_fresh w : sound w -> next_id w ∉ proxies w.
Proof.
  intros [] H. assert (next_id w ∈ seq 0 (next_id w)) as Hin by (rewrite so_all0; apply elem_of_app; by right). apply elem_of_seq in Hin. lia.
Qed.

Lemma all_snoc w : sound w -> seq 0 (S (next_id w)) ≡ₚ deleted w ++ proxies w ++ [next_id w].
Proof. intros []. rewrite seq_S, so_all0, <-app_assoc. done. Qed.

Lemma count_protocols_sound x w : sound w -> sound (count_protocols has_timer has_fifo x w).
Proof. intros []. by split. Qed.

Lemma in_flight_sound a t w :
  sound w -> async_inflight w < limit ->
  exists w', in_flight (next_id w) t (new_feedback a w) = Some w' /\ sound w' /\ failed w' = failed w.
Proof using Hlimit.
  intros Hs Hlt. unfold in_flight. cbn [new_feedback heap]. rewrite lookup_insert_eq. cbn [mbind option_bind].
  eexists. split; [done|]. pose proof (next_fresh w Hs) as Hn. pose proof (all_snoc w Hs) as Ha. destruct Hs.
  assert (u64 (async_inflight w + 1) = async_inflight w + 1) as Eu by (apply wrap_small; unfold in_range; lia).
  split; [|done]. split; cbn -[u64].
  - rewrite insert_insert_eq, dom_insert_L, so_dom0, list_to_set_app_L. set_solver.
  - apply NoDup_app. split_and!; [done|set_solver|apply NoDup_singleton].
  - done.
  - rewrite Eu, so_count0, length_app. cbn. lia.
  - lia.
  - lia.
  - done.
Qed.

Lemma filter_absent (l : list nat) x : x ∉ l -> filter (fun p => p <> x) l = l.
Proof.
  induction l as [|y l IH]; [done|]. intros [Hy Hl]%not_elem_of_cons. rewrite filter_cons_True by congruence. by rewrite IH.
Qed.

Lemma drop_feedback_sound a w : sound w -> sound (drop_feedback (next_id w) (new_feedback a w)).
Proof using Hlimit.
  intros Hs. pose proof (next_fresh w Hs) as Hn. pose proof (all_snoc w Hs) as Ha. destruct Hs. unfold drop_feedback. cbn [new_feedback proxies heap].
  assert (filter (fun p => p <> next_id w) (proxies w ++ [next_id w]) = proxies w) as Ef.
  { rewrite filter_app, filter_cons_False, filter_nil, app_nil_r by (intros H; by apply H). by apply filter_absent. }
  split; cbn -[u64]; rewrite ?Ef; try done.
  - rewrite delete_insert_id; [done|]. apply not_elem_of_dom. rewrite so_dom0. by rewrite elem_of_list_to_set.
  - rewrite Ha, <-app_assoc. apply Permutation_app_head. by rewrite Permutation_app_comm.
Qed.

Lemma import_fine x w : sound w -> async_inflight w < limit -> fine (import_and_present true has_timer has_fifo x w).
Proof using Hlimit.
  intros Hs Hlt. unfold import_and_present. destruct (s_drm_format x ≫= _); [|done]. destruct (negb (s_image x)); [done|].
  destruct (negb (s_drawn x)); [done|]. apply (count_protocols_sound x) in Hs as Hc. set (w1 := count_protocols has_timer has_fifo x w) in *.
  destruct (negb (s_swapped x)); [by apply drop_feedback_sound|].
  destruct (in_flight_sound (mkFeedback (s_submit x) (s_surface_ready_ns x) (s_render_started_ns x) 0) (s_swap_submitted_ns x) w1 Hc Hlt) as (w2 & -> & H2 & _).
  destruct (s_roundtrip x) as [es|]; [|done]. by destruct (deliver_all_sound es w2 H2) as (w3 & -> & H3 & _).
Qed.

Lemma process_fine x w : sound w -> fine (process_sample true has_timer has_fifo limit x w).
Proof using Hlimit.
  intros Hs. unfold process_sample.
  destruct (dispatch_fine (fun w => limit <=? async_inflight w) (s_window x) w) as [Hf Hd]; [intros v _ Hv; guards; lia|done|].
  destruct (dispatch_while _ _ w) as [[] w1|w1|]; [|done..]. specialize (Hd w1 eq_refl). cbn [fine] in Hf. apply Z.leb_gt in Hd.
  unfold present_sample. destruct (_ && _ && _); [by destruct Hf; split|]. destruct (_ && _); [by apply import_fine|done].
Qed.

Lemma present_all_fine xs w : sound w -> fine (present_all true has_timer has_fifo limit xs w).
Proof using Hlimit.
  revert w. induction xs as [|x xs IH]; intros w Hs; cbn [present_all]; [done|]. pose proof (process_fine x w Hs) as Hx.
  destruct (process_sample _ _ _ _ x w) as [[] w1|w1|]; [by apply IH|by apply set_failed_sound|done..].
Qed.

Lemma empty_sound : sound empty_window.
Proof using Hlimit. split; cbn; try done; try lia. constructor. Qed.

(** The samples and the drain together. *)
Lemma window_fine xs rounds :
  match present_and_drain true has_timer has_fifo limit xs rounds empty_window with
  | Done ok w => sound w /\ (ok = true -> failed w = false /\ heap w = ∅ /\ deleted w ≡ₚ seq 0 (next_id w) /\ presented w = u64 (len (submit_to_present (stats w))))
  | Blocked w => sound w /\ proxies w <> []
  | Dangling => False
  end.
Proof using Hlimit.
  unfold present_and_drain. pose proof (present_all_fine xs empty_window empty_sound) as Hp.
  destruct (present_all _ _ _ _ xs empty_window) as [ok w|w|]; [|done..]. cbn [fine] in Hp. unfold drain_async_feedback.
  destruct (dispatch_fine (fun w => negb (async_inflight w =? 0)) rounds w) as [Hf Hd]; [|done|].
  { intros v Hv Hb. rewrite (so_count v Hv) in *. guards. lia. }
  destruct (dispatch_while _ rounds w) as [[] w1|w1|]; [|by split|done..]. split; [done|]. intros Hn%negb_true_iff.
  specialize (Hd w1 eq_refl). apply negb_false_iff, Z.eqb_eq in Hd. cbn [fine] in Hf. destruct Hf. rewrite Hd in so_count0.
  assert (proxies w1 = []) as Ep by (destruct (proxies w1); [done|cbn in so_count0; lia]). rewrite Ep in *. rewrite app_nil_r in so_all0.
  split_and!; [done| |done|by apply so_presented0]. apply dom_empty_inv_L. by rewrite so_dom0.
Qed.
End flights.

(** What the command line can set: [strtoull] takes a sign, so the number of frames has no other bound. *)
Lemma options_ranges arguments bitstream o :
  Reading.parse_options arguments = Some (bitstream, o) ->
  1 <= Reading.expected_frames o <= UINT64_MAX /\ 0 <= Reading.submit_lead_ns o <= 16666000 /\ 1 <= Reading.async_inflight_limit o <= 4.
Proof.
  assert (forall t o o', Reading.parse_frames t o = Some o' -> 1 <= Reading.expected_frames o' <= UINT64_MAX /\
    Reading.submit_lead_ns o' = Reading.submit_lead_ns o /\ Reading.async_inflight_limit o' = Reading.async_inflight_limit o) as Hframes.
  { intros t p p'. unfold Reading.parse_frames, Reading.parse_positive. destruct (whole_number t 10) as [v|] eqn:E; [|done]. cbn [mbind option_bind].
    apply whole_number_range in E; [|done]. destruct (Z.eqb_spec v 0); [done|]. cbn [mbind option_bind]. intros [= <-]. cbn. split_and!; [lia|lia|done..]. }
  assert (forall t o o', Reading.parse_lead t o = Some o' -> 0 <= Reading.submit_lead_ns o' <= 16666000 /\
    Reading.expected_frames o' = Reading.expected_frames o /\ Reading.async_inflight_limit o' = Reading.async_inflight_limit o) as Hlead.
  { intros t p p'. unfold Reading.parse_lead, Reading.parse_nonnegative. destruct (whole_number t 10) as [v|] eqn:E; [|done]. cbn [mbind option_bind].
    apply whole_number_range in E; [|done]. destruct (Z.leb_spec 16667 v); [done|]. intros [= <-]. cbn [Reading.submit_lead_ns Reading.expected_frames Reading.async_inflight_limit].
    rewrite wrap_small by (unfold in_range; pows; lia). split_and!; [lia|lia|done..]. }
  assert (forall t o o', Reading.parse_mode t o = Some o' -> Reading.submit_lead_ns o' = Reading.submit_lead_ns o /\
    Reading.expected_frames o' = Reading.expected_frames o /\ Reading.async_inflight_limit o' = Reading.async_inflight_limit o) as Hmode.
  { intros t p p'. unfold Reading.parse_mode. destruct (_ && _ && _ && _); [done|]. by intros [= <-]. }
  assert (forall t o o', Reading.parse_limit t o = Some o' -> Reading.submit_lead_ns o' = Reading.submit_lead_ns o /\
    Reading.expected_frames o' = Reading.expected_frames o /\ 1 <= Reading.async_inflight_limit o' <= 4) as Hlim.
  { intros t p p'. unfold Reading.parse_limit, Reading.parse_positive. destruct (Reading.async_feedback p); [|done].
    destruct (whole_number t 10) as [v|] eqn:E; [|done]. cbn [mbind option_bind]. apply whole_number_range in E; [|done].
    destruct (Z.eqb_spec v 0); [done|]. cbn [mbind option_bind]. destruct (Z.ltb_spec 4 v); [done|]. intros [= <-]. cbn. split_and!; [done..|lia|lia]. }
  unfold Reading.parse_options. intros H. destruct arguments as [|a1 [|a2 [|a3 [|a4 [|a5 [|]]]]]]; try done.
  all: repeat match type of H with
    | context [mbind _ (Reading.parse_frames ?t ?p)] => destruct (Reading.parse_frames t p) as [o1|] eqn:E1; [apply Hframes in E1|done]; cbn [mbind option_bind] in H
    | context [mbind _ (Reading.parse_lead ?t ?p)] => destruct (Reading.parse_lead t p) as [o2|] eqn:E2; [apply Hlead in E2|done]; cbn [mbind option_bind] in H
    | context [mbind _ (Reading.parse_mode ?t ?p)] => destruct (Reading.parse_mode t p) as [o3|] eqn:E3; [apply Hmode in E3|done]; cbn [mbind option_bind] in H
    | context [mbind _ (Reading.parse_limit ?t ?p)] => destruct (Reading.parse_limit t p) as [o4|] eqn:E4; [apply Hlim in E4|done]; cbn [mbind option_bind] in H
    end; injection H as _ <-; cbn [Reading.submit_lead_ns Reading.expected_frames Reading.async_inflight_limit Reading.default_options] in *; unfold UINT64_MAX in *; lia.
Qed.

(** C13: The window of frames in flight.  For every command line and sequence of samples, whatever the clocks, the driver and the compositor answer:
    no listener runs on a deleted object; the frames in flight are those the compositor has to answer, never more than the limit;
    every feedback object is deleted once or lives; the thread only waits while the compositor owes an answer; and when the drain
    has succeeded nothing is in flight, every object was deleted once and each frame counted as presented was measured. *)
Theorem feedback_window arguments bitstream o has_timer has_fifo xs rounds :
  Reading.parse_options arguments = Some (bitstream, o) ->
  match Presentation.present_and_drain true has_timer has_fifo (Reading.async_inflight_limit o) xs rounds Presentation.empty_window with
  | Presentation.Done ok w =>
      sound (Reading.async_inflight_limit o) w /\
      (ok = true -> Presentation.failed w = false /\ Presentation.heap w = ∅ /\ Presentation.deleted w ≡ₚ seq 0 (Presentation.next_id w) /\
        Presentation.presented w = u64 (len (Presentation.submit_to_present (Presentation.stats w))))
  | Presentation.Blocked w => sound (Reading.async_inflight_limit o) w /\ Presentation.proxies w <> []
  | Presentation.Dangling => False
  end.
Proof. intros (_ & _ & Hl)%options_ranges. apply window_fine. lia. Qed.

(** Three samples with a limit of two: the third waits for the first's feedback. *)
Definition frame_script (k : Z) (window : list (option (list Presentation.note))) : Presentation.script :=
  Presentation.mkScript (mkStamp k (100 * k) (100 * k + 50)) (100 * k + 10) window (100 * k + 20) true (Some "Y410:0x100000000000002"%string) true true
    (100 * k + 21) true (100 * k + 22) (Some []) [].

Lemma feedback_window_witness :
  exists o w, Reading.parse_options ["in.h265"; "3"; "1000"; "async"; "2"]%string = Some ("in.h265"%string, o) /\
    Presentation.present_and_drain true true true (Reading.async_inflight_limit o)
      [frame_script 1 []; frame_script 2 []; frame_script 3 [Some [Presentation.SyncOutput 0; Presentation.Presented 0 0 0 160 7]]]
      [Some [Presentation.Presented 1 0 0 360 7]; Some [Presentation.Presented 0 0 0 370 15]] Presentation.empty_window = Presentation.Done true w /\
    Presentation.deleted w ≡ₚ [0; 1; 2]%nat /\ Presentation.presented w = 3 /\ Presentation.max_async_inflight w = 2 /\
    Presentation.submit_to_present (Presentation.stats w) = [60; 60; 170].
Proof.
  destruct (Reading.parse_options ["in.h265"; "3"; "1000"; "async"; "2"]%string) as [[b o]|] eqn:E; [|vm_compute in E; discriminate E].
  assert (b = "in.h265"%string /\ Reading.async_inflight_limit o = 2) as [-> Eo] by (vm_compute in E; injection E as <- <-; split; reflexivity).
  set (xs := [frame_script 1 []; frame_script 2 []; frame_script 3 [Some [Presentation.SyncOutput 0; Presentation.Presented 0 0 0 160 7]]]).
  set (rounds := [Some [Presentation.Presented 1 0 0 360 7]; Some [Presentation.Presented 0 0 0 370 15]]).
  pose proof (feedback_window ["in.h265"; "3"; "1000"; "async"; "2"]%string "in.h265"%string o true true xs rounds E) as H.
  exists o. rewrite Eo in H |- *. destruct (Presentation.present_and_drain _ _ _ 2 _ _ _) as [ok w|w|] eqn:Ew; [|vm_compute in Ew; discriminate Ew..].
  exists w. destruct H as [_ H]. vm_compute in Ew. injection Ew as <- <-. destruct (H eq_refl) as (_ & _ & Hd & _).
  split; [reflexivity|]. split; [reflexivity|]. split; [exact Hd|]. split; [reflexivity|]. split; reflexivity.
Defined.

(** A time given to the commit timer is the time its feedback would report. *)
Lemma timer_roundtrip target :
  0 <= target < 2 ^ 64 ->
  let '(hi, lo, ns) := Presentation.timer_timestamp target in Presentation.event_ns hi lo ns = target.
Proof.
  intros Ht. unfold Presentation.timer_timestamp, Presentation.event_ns.
  pose proof (Z.div_mod target 1000000000 ltac:(lia)) as Hd. pose proof (Z.mod_pos_bound target 1000000000 ltac:(lia)) as Hm.
  assert (0 <= target `div` 1000000000 < 2 ^ 64) as Hs by (split; [apply Z.div_pos; lia|apply Z.div_lt_upper_bound; pows; lia]).
  set (seconds := target `div` 1000000000) in *. unfold wrap at 3 4 5. rewrite (Z.mod_small (target mod _)) by lia.
  assert (Z.lor (Z.shiftl (Z.shiftr seconds 32 `mod` 2 ^ 32) 32) (seconds `mod` 2 ^ 32) = seconds) as ->.
  { apply Z.bits_inj'. intros n Hn. rewrite Z.lor_spec, Z.shiftl_spec, !Z.testbit_mod_pow2 by lia.
    destruct (Z.ltb_spec n 32); [by rewrite (Z.testbit_neg_r _ (n - 32)), andb_false_r by lia|].
    rewrite Z.shiftr_spec, Z.sub_add by lia. cbn. rewrite orb_false_r. destruct (Z.ltb_spec (n - 32) 32); [done|].
    symmetry. apply Z.bits_above_log2; [lia|]. destruct (decide (seconds = 0)) as [->|]; [cbn; lia|]. apply Z.log2_lt_pow2; [lia|].
    apply (Z.lt_le_trans _ (2 ^ 64)); [lia|apply Z.pow_le_mono_r; lia]. }
  rewrite (wrap_small 64 (seconds * _)), wrap_small by (unfold in_range; pows; lia). lia.
Qed.
