(* ===== verification/ClientKms.v ===== *)
(** * ClientKms: probes/video/plank-probe-client-kms.cpp

    The client's decoder on a bare display: [Output] chooses the connector and the mode,
    [Feeding] stamps the frames and paces them, [Frames] matches decoded samples with their
    stamps, imports their buffers through a cache and flips to them, [Phase] is the wait of the
    streaming thread for the first flips.  The slot between the threads is that of
    [ClientPipeline].  The kernel, GStreamer and the clock are parameters. *)

From stdpp Require Import gmap sorting.
From S2P Require Import Prelude.
From S2P Require Import Float32.
From S2P Require Import BenchX264.
From S2P Require Import UhidProbe.
From S2P Require Import ClientSession.
From Stdlib Require Import Floats.SpecFloat.
#[local] Open Scope Z_scope.

(** ** The display *)

Module Output.

(** What [drmModeModeInfo] holds and the probe reads. *)
Record mode := mkMode { clock : Z; hdisplay : Z; vdisplay : Z; htotal : Z; vtotal : Z; vscan : Z; flags : Z; type : Z }.

Definition DRM_MODE_FLAG_INTERLACE : Z := 16.
Definition DRM_MODE_FLAG_DBLSCAN : Z := 32.
Definition DRM_MODE_TYPE_PREFERRED : Z := 8.

(** In doubles, as the source computes it. *)
Definition mode_refresh_hz (m : mode) : spec_float :=
  if (htotal m =? 0) || (vtotal m =? 0) then double_of_int 0
  else
    let hz := double_div (double_mul (double_of_int (clock m)) (double_of_int 1000))
                (double_mul (double_of_int (htotal m)) (double_of_int (vtotal m))) in
    let hz := if Z.land (flags m) DRM_MODE_FLAG_INTERLACE =? 0 then hz else double_mul hz (double_of_int 2) in
    let hz := if Z.land (flags m) DRM_MODE_FLAG_DBLSCAN =? 0 then hz else double_div hz (double_of_int 2) in
    if 1 <? vscan m then double_div hz (double_of_int (vscan m)) else hz.

Definition preferred (m : mode) : bool := negb (Z.land (type m) DRM_MODE_TYPE_PREFERRED =? 0).

Definition better_mode (candidate best : mode) : bool :=
  let candidate_area := u64 (hdisplay candidate * vdisplay candidate) in
  let best_area := u64 (hdisplay best * vdisplay best) in
  if negb (candidate_area =? best_area) then best_area <? candidate_area
  else if negb (Bool.eqb (preferred candidate) (preferred best)) then preferred candidate
  else SFltb (mode_refresh_hz best) (mode_refresh_hz candidate).

(** An encoder's CRTC, 0 for none, and the CRTCs it can use; a connector with its modes. *)
Record encoder := mkEncoder { encoder_crtc_id : Z; possible_crtcs : Z }.
Record connector := mkConnector { connector_id : Z; connected : bool; modes : list mode; connector_encoder : option encoder }.
Record output := mkOutput { out_connector : Z; out_crtc_index : nat; out_crtc : Z; out_mode : mode }.

(** The last CRTC with an identifier, from an index on; the first in the mask of CRTCs. *)
Fixpoint last_crtc (id : Z) (crtcs : list Z) (index : nat) (found : option nat) : option nat :=
  match crtcs with [] => found | c :: crtcs => last_crtc id crtcs (S index) (if c =? id then Some index else found) end.
Fixpoint first_crtc (possible : Z) (crtcs : list Z) (index : nat) : option nat :=
  match crtcs with
  | [] => None
  | _ :: crtcs => if negb (Z.land possible (Z.shiftl 1 (Z.of_nat index)) =? 0) then Some index else first_crtc possible crtcs (S index)
  end.

Definition selected_crtc (c : connector) (crtcs : list Z) : option nat :=
  match connector_encoder c with
  | None => None
  | Some e =>
      match (if encoder_crtc_id e =? 0 then None else last_crtc (encoder_crtc_id e) crtcs 0 None) with
      | Some index => Some index
      | None => first_crtc (possible_crtcs e) crtcs 0
      end
  end.

Fixpoint best_mode (best : mode) (ms : list mode) : mode :=
  match ms with [] => best | m :: ms => best_mode (if better_mode m best then m else best) ms end.

(** The loop over the connectors; a connector that cannot be read is [None]. *)
Fixpoint select_loop (crtcs : list Z) (connectors : list (option connector)) (found : option output) : option output :=
  match connectors with
  | [] => found
  | c :: connectors =>
      let found' :=
        match c with
        | Some c =>
            match connected c, modes c, selected_crtc c crtcs with
            | true, m :: ms, Some index =>
                let best := best_mode m ms in
                match crtcs !! index with
                | Some crtc =>
                    let o := mkOutput (connector_id c) index crtc best in
                    match found with
                    | None => Some o
                    | Some f => if better_mode best (out_mode f) then Some o else Some f
                    end
                | None => found
                end
            | _, _, _ => found
            end
        | None => found
        end in
      select_loop crtcs connectors found'
  end.

(** The duration of a refresh in nanoseconds. *)
Definition refresh_of (hz : spec_float) : Z :=
  unsigned_of_double (double_add (double_div (double_of_int 1000000000) hz) (double_div (double_of_int 1) (double_of_int 2))).

(** [select_output] on the card's resources; [None]: it returns false. *)
Definition select_output (crtcs : list Z) (connectors : list (option connector)) : option (output * Z) :=
  o ← select_loop crtcs connectors None;
  let hz := mode_refresh_hz (out_mode o) in
  if SFltb hz (double_of_int 59) || SFltb (double_of_int 61) hz then None else Some (o, refresh_of hz).
End Output.

(** ** Feeding the decoder *)

Module Feeding.

Record SubmitStamp := mkStamp { frame : Z; submitted_ns : Z; target_ns : Z; pts : Z }.
Record feed := mkFeed {
  submitted : Z; first_target_ns : Z; steady_first_target_ns : Z; failed : bool; input_schedule_late : list Z; submit_queue : list SubmitStamp }.

Definition GST_SECOND : Z := 1000000000.
Definition GST_CLOCK_TIME_NONE : Z := 18446744073709551615.
Definition minimum_first_lead : Z := 12000000.

(** What a call is answered: whether the buffer is writable, whether [failed] is set when the wait for the
    phase ends, the clock and the sleep. *)
Record answers := mkAnswers { writable : bool; failed_meanwhile : bool; times : Schedule.clocks }.

Section settings.
Context (scale : Z -> Z -> Z -> Z) (submit_lead_ns refresh_ns : Z).

(** The due time, the time to wake, and the epoch it is counted from. *)
Definition plan (epoch frame_index lead_ns now : Z) : Z * Z * Z :=
  let target := u64 (epoch + frame_index * refresh_ns) in
  let wake := u64 (target - lead_ns) in
  if wake <=? now then
    let periods := u64 ((now - wake) `div` refresh_ns + 1) in
    (u64 (target + periods * refresh_ns), u64 (wake + periods * refresh_ns), u64 (epoch + periods * refresh_ns))
  else (target, wake, epoch).

Definition count (f : feed) : feed :=
  mkFeed (u64 (submitted f + 1)) (first_target_ns f) (steady_first_target_ns f) (failed f) (input_schedule_late f) (submit_queue f).
Definition fail (f : feed) : feed :=
  mkFeed (submitted f) (first_target_ns f) (steady_first_target_ns f) true (input_schedule_late f) (submit_queue f).
Definition push (s : SubmitStamp) (f : feed) : feed :=
  mkFeed (submitted f) (first_target_ns f) (steady_first_target_ns f) (failed f) (input_schedule_late f) (submit_queue f ++ [s]).
Definition set_epoch (second : bool) (epoch : Z) (f : feed) : feed :=
  mkFeed (submitted f) (if second then epoch else first_target_ns f) (if second then steady_first_target_ns f else epoch) (failed f)
    (input_schedule_late f) (submit_queue f).
Definition add_late (late : Z) (f : feed) : feed :=
  mkFeed (submitted f) (first_target_ns f) (steady_first_target_ns f) (failed f) (input_schedule_late f ++ [late]) (submit_queue f).

(** [on_decoder_input] for a buffer: whether it passes; [None]: the sleep does not end. *)
Definition on_decoder_input (a : answers) (f : feed) : option (bool * feed) :=
  let f := count f in
  let frame := submitted f in
  let c := times a in
  if negb (writable a) then Some (false, fail f)
  else
    let synthetic_pts := scale (u64 (frame - 1)) GST_SECOND 60 in
    let stamp target := mkStamp frame (Schedule.stamp_ns c) target synthetic_pts in
    if 2 <=? frame then
      if failed_meanwhile a then Some (false, f)
      else
        let second := frame =? 2 in
        let epoch := if second then first_target_ns f else steady_first_target_ns f in
        let lead := if second then Z.max submit_lead_ns minimum_first_lead else submit_lead_ns in
        let '(target, wake, epoch) := plan epoch (if second then 0 else frame - 3) lead (Schedule.now_ns c) in
        let f := set_epoch second epoch f in
        status ← Schedule.nanosleep (Schedule.sleeps c);
        if status =? 0 then
          Some (true, push (stamp target) (add_late (if wake <? Schedule.actual_ns c then Schedule.actual_ns c - wake else 0) f))
        else Some (false, fail f)
    else Some (true, push (stamp 0) f).

(** [on_new_sample] up to the slot: the stamp with the sample's time, and the queue behind it. *)
Fixpoint matching (output_pts : Z) (queue : list SubmitStamp) : option (SubmitStamp * list SubmitStamp) :=
  match queue with
  | [] => None
  | s :: queue => if negb (output_pts =? GST_CLOCK_TIME_NONE) && (pts s =? output_pts) then Some (s, queue) else matching output_pts queue
  end.
Definition take_stamp (output_pts : Z) (f : feed) : option SubmitStamp * feed :=
  match matching output_pts (submit_queue f) with
  | None => (None, fail f)
  | Some (s, queue) =>
      (Some s, mkFeed (submitted f) (first_target_ns f) (steady_first_target_ns f) (failed f) (input_schedule_late f) queue)
  end.
End settings.

(** [parse_positive] and the arguments after the bitstream: the frames, the lead, the device. *)
Record Options := mkOptions { expected_frames : Z; options_lead_ns : Z; drm_device : string }.
Definition parse_lead (text : string) : option Z := v ← Reading.parse_positive text; if 16667 <=? v then None else Some (u64 (v * 1000)).
Definition default_device : string := "/dev/dri/card1".
Definition parse_options (arguments : list string) : option (string * Options) :=
  match arguments with
  | [bitstream] => Some (bitstream, mkOptions 600 6000000 default_device)
  | [bitstream; frames] => n ← Reading.parse_positive frames; Some (bitstream, mkOptions n 6000000 default_device)
  | [bitstream; frames; lead] => n ← Reading.parse_positive frames; l ← parse_lead lead; Some (bitstream, mkOptions n l default_device)
  | [bitstream; frames; lead; device] => n ← Reading.parse_positive frames; l ← parse_lead lead; Some (bitstream, mkOptions n l device)
  | _ => None
  end.
End Feeding.

(** ** Frames on the display *)

Module Frames.
Import Feeding.

Record CachedFramebuffer := mkCached { device : Z; inode : Z; cached_framebuffer : Z; gem_handle : Z }.
Record Frame := mkFrame { sample : nat; framebuffer : Z }.

(** A decoded sample: what [create_frame] reads of it.  [fstat] answers the buffer's device and inode. *)
Record picture := mkPicture {
  p_has_buffer : bool; p_has_meta : bool; p_drm_format : option string; p_memories : Z; p_width : Z; p_height : Z;
  p_is_dmabuf : bool; p_fd : Z; p_stat : option (Z * Z) }.

(** What the kernel answers to an import: a handle, a framebuffer. *)
Record import_answer := mkKernel { k_handle : option Z; k_framebuffer : option Z }.

Inductive kernel_note := HandleOpened (h : Z) | HandleClosed (h : Z) | FramebufferAdded (fb : Z) | FramebufferRemoved (fb : Z).

Record statistics := mkStatistics {
  decode : list Z; surface_to_flip : list Z; surface_to_worker : list Z; framebuffer_lookup : list Z; flip_event_delivery : list Z;
  submit_to_present : list Z; presentation_interval : list Z; surface_vs_target : list Z; worker_vs_target : list Z;
  previous_present_vs_target : list Z; flip_vs_target : list Z }.

Record display := mkDisplay {
  current : option Frame; cache : list CachedFramebuffer; hits : Z; misses : Z; displayed : Z; stale_frames_dropped : Z;
  drm_format : option string; first_present_ns : Z; last_present_ns : Z; latest_present_ns : Z;
  first_target : option Z; steady_first_target : option Z; stats : statistics;
  released : list nat; notes : list kernel_note }.

Definition initial : display :=
  mkDisplay None [] 0 0 0 0 None 0 0 0 None None (mkStatistics [] [] [] [] [] [] [] [] [] [] []) [] [].

Definition unref (k : nat) (d : display) : display :=
  mkDisplay (current d) (cache d) (hits d) (misses d) (displayed d) (stale_frames_dropped d) (drm_format d) (first_present_ns d)
    (last_present_ns d) (latest_present_ns d) (first_target d) (steady_first_target d) (stats d) (released d ++ [k]) (notes d).
Definition tell (n : list kernel_note) (d : display) : display :=
  mkDisplay (current d) (cache d) (hits d) (misses d) (displayed d) (stale_frames_dropped d) (drm_format d) (first_present_ns d)
    (last_present_ns d) (latest_present_ns d) (first_target d) (steady_first_target d) (stats d) (released d) (notes d ++ n).
Definition set_cache (cs : list CachedFramebuffer) (h m : Z) (format : option string) (d : display) : display :=
  mkDisplay (current d) cs h m (displayed d) (stale_frames_dropped d) format (first_present_ns d)
    (last_present_ns d) (latest_present_ns d) (first_target d) (steady_first_target d) (stats d) (released d) (notes d).
Definition set_current (f : Frame) (d : display) : display :=
  mkDisplay (Some f) (cache d) (hits d) (misses d) (u64 (displayed d + 1)) (stale_frames_dropped d) (drm_format d) (first_present_ns d)
    (last_present_ns d) (latest_present_ns d) (first_target d) (steady_first_target d) (stats d) (released d) (notes d).

(** The same buffer object: its device and inode. *)
Definition same_buffer (st : Z * Z) (c : CachedFramebuffer) : bool := (device c =? st.1) && (inode c =? st.2).

Section screen.
Context (hdisplay vdisplay refresh_ns : Z).

Definition importable (p : picture) : bool :=
  p_has_buffer p && p_has_meta p &&
  match p_drm_format p with Some f => String.prefix "Y410" f | None => false end &&
  (p_memories p =? 1) && (p_width p =? hdisplay) && (p_height p =? vdisplay) &&
  match p_drm_format p ≫= Reading.drm_modifier with Some _ => true | None => false end &&
  p_is_dmabuf p && (0 <=? p_fd p).

(** [create_frame]: the framebuffer of the sample's buffer, from the cache or imported. *)
Definition create_frame (p : picture) (k : import_answer) (d : display) : option Z * display :=
  match (if importable p then p_stat p else None) with
  | None => (None, d)
  | Some st =>
      match find (same_buffer st) (cache d) with
      | Some c => (Some (cached_framebuffer c), set_cache (cache d) (u64 (hits d + 1)) (misses d) (drm_format d) d)
      | None =>
          match k_handle k with
          | None => (None, d)
          | Some h =>
              let d := tell [HandleOpened h] d in
              match k_framebuffer k with
              | None => (None, tell [HandleClosed h] d)
              | Some fb =>
                  (Some fb, set_cache (cache d ++ [mkCached st.1 st.2 fb h]) (hits d) (u64 (misses d + 1)) (p_drm_format p)
                              (tell [FramebufferAdded fb] d))
              end
          end
      end
  end.

(** What the display answers: the first mode set with its vertical blank, or a flip with its event. *)
Record script := mkScript {
  s_picture : picture; s_kernel : import_answer; s_started_ns : Z; s_lookup_ns : Z; s_queued_ns : Z; s_delivered_ns : Z;
  s_set_crtc : bool; s_vblank : option (Z * Z); s_page_flip : bool; s_flip_event : option (Z * Z) }.

Definition event_ns (seconds microseconds : Z) : Z := u64 (u64 (seconds * 1000000000) + u64 (microseconds * 1000)).

(** [establish_phase]. *)
Definition establish_phase (s : script) : option Z :=
  '(seconds, microseconds) ← s_vblank s; Some (u64 (event_ns seconds microseconds + 120 * refresh_ns)).

Definition targeted (target : Z) (l : list Z) (t : Z) : list Z := if target =? 0 then l else l ++ [Presentation.signed_difference t target].

(** The measurements of a flip that ended. *)
Definition measure (s : script) (stamp : SubmitStamp) (surface_ready time : Z) (d : display) : display :=
  let st := stats d in
  let target := target_ns stamp in
  let previous := last_present_ns d in
  mkDisplay (current d) (cache d) (hits d) (misses d) (displayed d) (stale_frames_dropped d) (drm_format d)
    (if previous =? 0 then time else first_present_ns d) time time (first_target d)
    (if frame stamp =? 2 then Some (u64 (time + refresh_ns)) else steady_first_target d)
    (mkStatistics
      (decode st ++ [u64 (surface_ready - submitted_ns stamp)])
      (surface_to_flip st ++ [u64 (s_queued_ns s - surface_ready)])
      (surface_to_worker st ++ [u64 (s_started_ns s - surface_ready)])
      (framebuffer_lookup st ++ [u64 (s_lookup_ns s - s_started_ns s)])
      (flip_event_delivery st ++ [Presentation.signed_difference (s_delivered_ns s) time])
      (submit_to_present st ++ [u64 (time - submitted_ns stamp)])
      (if previous =? 0 then presentation_interval st else presentation_interval st ++ [u64 (time - previous)])
      (targeted target (surface_vs_target st) surface_ready)
      (targeted target (worker_vs_target st) (s_started_ns s))
      (if previous =? 0 then previous_present_vs_target st else targeted target (previous_present_vs_target st) previous)
      (targeted target (flip_vs_target st) time))
    (released d) (notes d).

Definition kStaleTolerance : Z := 1000000.

(** [display_sample] for the k-th sample. *)
Definition display_sample (k : nat) (stamp : SubmitStamp) (surface_ready : Z) (s : script) (d : display) : bool * display :=
  let stale := match current d with Some _ => true | None => false end && negb (target_ns stamp =? 0) &&
               (target_ns stamp <=? u64 (latest_present_ns d + kStaleTolerance)) in
  if stale then
    (true, unref k (mkDisplay (current d) (cache d) (hits d) (misses d) (displayed d) (u64 (stale_frames_dropped d + 1)) (drm_format d)
       (first_present_ns d) (last_present_ns d) (latest_present_ns d) (first_target d) (steady_first_target d) (stats d) (released d) (notes d)))
  else
    let '(fb, d) := create_frame (s_picture s) (s_kernel s) d in
    match fb with
    | None => (false, unref k d)
    | Some fb =>
        let next := mkFrame k fb in
        match current d with
        | None =>
            if negb (s_set_crtc s) then (false, unref k d)
            else
              match establish_phase s with
              | None => (false, unref k d)
              | Some target =>
                  (true, set_current next (mkDisplay (current d) (cache d) (hits d) (misses d) (displayed d) (stale_frames_dropped d) (drm_format d)
                     (first_present_ns d) (last_present_ns d) (latest_present_ns d) (Some target) (steady_first_target d) (stats d) (released d) (notes d)))
              end
        | Some old =>
            match (if s_page_flip s then s_flip_event s else None) with
            | None => (false, unref k d)
            | Some (seconds, microseconds) =>
                let time := event_ns seconds microseconds in
                if time <? submitted_ns stamp then (false, unref k d)
                else (true, set_current next (measure s stamp surface_ready time (unref (sample old) d)))
            end
        end
    end.

(** [display_worker]'s samples, until one fails. *)
Fixpoint display_all (k : nat) (xs : list (SubmitStamp * Z * script)) (d : display) : bool * nat * display :=
  match xs with
  | [] => (true, k, d)
  | (stamp, ready, s) :: xs =>
      match display_sample k stamp ready s d with
      | (true, d) => display_all (S k) xs d
      | (false, d) => (false, S k, d)
      end
  end.
End screen.

(** The end of [main]: the frame on the display and the cache are given back. *)
Definition release_entry (c : CachedFramebuffer) : list kernel_note :=
  (if cached_framebuffer c =? 0 then [] else [FramebufferRemoved (cached_framebuffer c)]) ++
  (if gem_handle c =? 0 then [] else [HandleClosed (gem_handle c)]).
Definition release_framebuffer_cache (d : display) : display :=
  set_cache [] (hits d) (misses d) (drm_format d) (tell (concat (map release_entry (cache d))) d).
Definition shut_down (d : display) : display :=
  release_framebuffer_cache (match current d with Some f => unref (sample f) d | None => d end).
End Frames.

(** ** The wait for the phase *)

Module Phase.

(** The streaming thread in [on_decoder_input]: elsewhere, testing the predicate of frame 2 or of a later one, blocking with the
    predicate found false and [phase_mutex] held, asleep with it released, or refused because of a failure. *)
Inductive feeder_at := FRun | FTest (second : bool) | FBlocking (second : bool) | FAsleep (second : bool) | FDrop.
(** The worker: elsewhere, about to notify, about to stop, ended. *)
Inductive worker_at := WWork | WNotify | WNotifyFailed | WStopped.

Record state := mkState { fd : feeder_at; wk : worker_at; phase_ready : bool; steady_phase_ready : bool; failed : bool }.
Definition initial : state := mkState FRun WWork false false false.

(** [phase_mutex] is held between the test and the sleep. *)
Definition holds (f : feeder_at) : bool := match f with FBlocking _ => true | _ => false end.
Definition ready (second : bool) (s : state) : bool := if second then phase_ready s else steady_phase_ready s.
(** [notify_all] wakes a thread that sleeps, not one that is about to. *)
Definition wake (f : feeder_at) : feeder_at := match f with FAsleep second => FTest second | f => f end.

Definition set_fd (f : feeder_at) (s : state) : state := mkState f (wk s) (phase_ready s) (steady_phase_ready s) (failed s).
Definition set_wk (w : worker_at) (s : state) : state := mkState (fd s) w (phase_ready s) (steady_phase_ready s) (failed s).

(** The frame that arrives, and what the worker's samples do: the first is shown, the second is shown, one fails, the last was shown. *)
Inductive event := Arrives (second : bool) | Feeder | FirstShown | SecondShown | Fails | Notifies | Ends.

Definition run_event (e : event) (s : state) : option state :=
  match e, fd s, wk s with
  | Arrives second, FRun, _ => Some (set_fd (FTest second) s)
  | Arrives second, FDrop, _ => Some (set_fd (FTest second) s)
  | Feeder, FTest second, _ =>
      if failed s then Some (set_fd FDrop s) else if ready second s then Some (set_fd FRun s) else Some (set_fd (FBlocking second) s)
  | Feeder, FBlocking second, _ => Some (set_fd (FAsleep second) s)
  | FirstShown, f, WWork => if holds f || phase_ready s then None else Some (mkState f WNotify true (steady_phase_ready s) (failed s))
  | SecondShown, f, WWork => if holds f || negb (phase_ready s) then None else Some (mkState f WNotify (phase_ready s) true (failed s))
  | Fails, f, WWork => Some (mkState f WNotifyFailed (phase_ready s) (steady_phase_ready s) true)
  | Notifies, f, WNotify => Some (set_wk WWork (set_fd (wake f) s))
  | Notifies, f, WNotifyFailed => Some (set_wk WStopped (set_fd (wake f) s))
  | Ends, _, WWork => Some (set_wk WStopped s)
  | _, _, _ => None
  end.
Fixpoint run (events : list event) (s : state) : option state :=
  match events with [] => Some s | e :: events => s' ← run_event e s; run events s' end.
End Phase.

(** ** The order of modes *)

Import Output.

(** A place of a double in the order of comparisons. *)
Definition place (x : spec_float) : option (Z * Z * Z) :=
  match x with
  | S754_nan => None
  | S754_infinity true => Some (-2, 0, 0)
  | S754_finite true m e => Some (-1, - e, - Z.pos m)
  | S754_zero _ => Some (0, 0, 0)
  | S754_finite false m e => Some (1, e, Z.pos m)
  | S754_infinity false => Some (2, 0, 0)
  end.
Definition before (a b : Z * Z * Z) : Prop :=
  let '(a1, a2, a3) := a in let '(b1, b2, b3) := b in a1 < b1 \/ (a1 = b1 /\ (a2 < b2 \/ (a2 = b2 /\ a3 < b3))).

Lemma SFltb_finite s m e m' e' :
  SFltb (S754_finite s m e) (S754_finite s m' e') = true <->
  if s then before (-1, - e, - Z.pos m) (-1, - e', - Z.pos m') else before (1, e, Z.pos m) (1, e', Z.pos m').
Proof.
  unfold SFltb. cbn [SFcompare]. change (Pos.compare_cont Eq m m') with (m ?= m')%positive.
  destruct s, (Z.compare_spec e e'), (Pos.compare_spec m m'); cbn; (split; [intros; try discriminate; lia|intros; try done; exfalso; lia]).
Qed.

Lemma SFltb_place x y : SFltb x y = true <-> exists a b, place x = Some a /\ place y = Some b /\ before a b.
Proof.
  assert (SFltb x y = true <-> match place x, place y with Some a, Some b => before a b | _, _ => False end) as ->.
  { destruct x as [[]|[]| |[] m e], y as [[]|[]| |[] m' e']; try (by rewrite SFltb_finite); unfold SFltb; cbn; (split; [intros; try discriminate; lia|intros; try done; exfalso; lia]). }
  destruct (place x), (place y); naive_solver.
Qed.

Lemma SFltb_irrefl x : SFltb x x = false.
Proof.
  destruct (SFltb x x) eqn:E; [|done]. apply SFltb_place in E as ([[a b] c] & q & -> & [= <-] & H). cbn in H. lia.
Qed.

Lemma SFltb_trans x y z : SFltb x y = true -> SFltb y z = true -> SFltb x z = true.
Proof.
  rewrite !SFltb_place. intros ([[a b] c] & [[a' b'] c'] & E1 & E2 & H) (q & [[a2 b2] c2] & E3 & E4 & H'). rewrite E2 in E3. injection E3 as <-.
  eexists _, _. split_and!; [done|done|]. cbn in *. lia.
Qed.

(** [better_mode] is a strict order, so a scan for the best finds one that none beats. *)
Lemma better_irrefl m : better_mode m m = false.
Proof. unfold better_mode. rewrite Z.eqb_refl, eqb_reflx. apply SFltb_irrefl. Qed.

Lemma better_trans a b c : better_mode a b = true -> better_mode b c = true -> better_mode a c = true.
Proof.
  unfold better_mode. intros H1 H2.
  destruct (Z.eqb_spec (u64 (hdisplay a * vdisplay a)) (u64 (hdisplay b * vdisplay b))) as [Eab|Nab];
    destruct (Z.eqb_spec (u64 (hdisplay b * vdisplay b)) (u64 (hdisplay c * vdisplay c))) as [Ebc|Nbc]; cbn [negb] in *;
    [rewrite Eab, Ebc, Z.eqb_refl; cbn [negb]|rewrite Eab in *; destruct (Z.eqb_spec (u64 (hdisplay b * vdisplay b)) (u64 (hdisplay c * vdisplay c))); [done|done]
    |rewrite <-Ebc in *; destruct (Z.eqb_spec (u64 (hdisplay a * vdisplay a)) (u64 (hdisplay b * vdisplay b))); [done|done]|].
  - destruct (preferred a), (preferred b), (preferred c); cbn in *; try done; by eapply SFltb_trans.
  - apply Z.ltb_lt in H1, H2. destruct (Z.eqb_spec (u64 (hdisplay a * vdisplay a)) (u64 (hdisplay c * vdisplay c))); [lia|]. cbn. apply Z.ltb_lt. lia.
Qed.

(** A mode of a connected connector that has a CRTC. *)
Definition candidate (crtcs : list Z) (connectors : list (option connector)) (m : mode) (o : output) : Prop :=
  exists c index crtc, Some c ∈ connectors /\ connected c = true /\ m ∈ modes c /\ selected_crtc c crtcs = Some index /\ crtcs !! index = Some crtc /\
    o = mkOutput (connector_id c) index crtc m.

(** No element of a list beats the one at hand, however it got there. *)
Lemma unbeaten_step m best (x : mode) :
  better_mode m best = true -> (x = best \/ better_mode x best = false) -> better_mode x m = false.
Proof.
  intros Hm Hx. destruct (better_mode x m) eqn:E; [|done]. assert (better_mode x best = true) as Hb by (by apply (better_trans x m)).
  destruct Hx as [->|Hx]; [by rewrite better_irrefl in Hb|congruence].
Qed.

Lemma best_mode_spec best ms :
  best_mode best ms ∈ best :: ms /\ (forall m, m ∈ best :: ms -> better_mode m (best_mode best ms) = false) /\
  (best_mode best ms = best \/ better_mode (best_mode best ms) best = true).
Proof.
  revert best. induction ms as [|m ms IH]; intros best; cbn [best_mode].
  - split_and!; [by left| |by left]. intros m [->|[]%not_elem_of_nil]%elem_of_cons. apply better_irrefl.
  - destruct (better_mode m best) eqn:E.
    + destruct (IH m) as (H1 & H2 & H3).
      assert (better_mode (best_mode m ms) best = true) as Hr by (destruct H3 as [-> |H3]; [done|by apply (better_trans _ m)]).
      split_and!; [by right| |by right]. intros x [->|Hx]%elem_of_cons; [|by apply H2]. apply (unbeaten_step _ best); [done|by left].
    + destruct (IH best) as (H1 & H2 & H3). split_and!; [set_solver| |done].
      intros x [->|[->|Hx]%elem_of_cons]%elem_of_cons; [apply H2; by left| |apply H2; by right].
      destruct H3 as [-> |H3]; [done|]. apply (unbeaten_step _ best); [done|by right].
Qed.

Lemma first_crtc_some possible crtcs i index : first_crtc possible crtcs i = Some index -> (i <= index < i + length crtcs)%nat.
Proof.
  revert i. induction crtcs as [|c crtcs IH]; intros i; cbn [first_crtc length]; [done|]. destruct (negb _); [intros [= ->]; lia|].
  intros H%IH. lia.
Qed.

Lemma last_crtc_some id crtcs i found index :
  last_crtc id crtcs i found = Some index -> found = Some index \/ (i <= index < i + length crtcs)%nat.
Proof.
  revert i found. induction crtcs as [|c crtcs IH]; intros i found; cbn [last_crtc length]; [by left|].
  intros [H|H]%IH; [|right; lia]. destruct (c =? id); [injection H as ->; right; lia|by left].
Qed.

Lemma selected_crtc_lookup c crtcs index : selected_crtc c crtcs = Some index -> exists crtc, crtcs !! index = Some crtc.
Proof.
  unfold selected_crtc. destruct (connector_encoder c) as [e|]; [|done]. intros H. apply lookup_lt_is_Some.
  destruct (if encoder_crtc_id e =? 0 then None else last_crtc (encoder_crtc_id e) crtcs 0 None) as [i|] eqn:E.
  - injection H as ->. destruct (encoder_crtc_id e =? 0); [done|]. apply last_crtc_some in E as [|]; [done|lia].
  - apply first_crtc_some in H. lia.
Qed.

(** The best output found so far: it comes from a connector, and none of theirs beats it. *)
Definition best_output (candidates : mode -> output -> Prop) (found : option output) : Prop :=
  match found with
  | None => forall m o, ~ candidates m o
  | Some f => candidates (out_mode f) f /\ forall m o, candidates m o -> better_mode m (out_mode f) = false
  end.

(** What one connector offers. *)
Definition offer (crtcs : list Z) (c : option connector) : option output :=
  c ← c;
  if connected c then
    match modes c with
    | m :: ms => index ← selected_crtc c crtcs; crtc ← crtcs !! index; Some (mkOutput (connector_id c) index crtc (best_mode m ms))
    | [] => None
    end
  else None.
Definition prefer (found : option output) (o : option output) : option output :=
  match o, found with
  | None, _ => found
  | Some o, None => Some o
  | Some o, Some f => if better_mode (out_mode o) (out_mode f) then Some o else Some f
  end.

Lemma select_loop_offer crtcs c cs found : select_loop crtcs (c :: cs) found = select_loop crtcs cs (prefer found (offer crtcs c)).
Proof.
  cbn [select_loop]. f_equal. destruct c as [c|]; [|done]. cbn [offer mbind option_bind].
  destruct (connected c), (modes c) as [|m ms], (selected_crtc c crtcs) as [index|]; try done. cbn [mbind option_bind].
  by destruct (crtcs !! index).
Qed.

Lemma offer_best crtcs c : best_output (candidate crtcs [c]) (offer crtcs c).
Proof.
  destruct (offer crtcs c) as [o|] eqn:Eo; unfold offer in Eo.
  - destruct c as [c|]; [|done]. cbn [mbind option_bind] in Eo. destruct (connected c) eqn:Ec; [|done]. destruct (modes c) as [|m ms] eqn:Em; [done|].
    destruct (selected_crtc c crtcs) as [index|] eqn:Ei; [|done]. cbn [mbind option_bind] in Eo. destruct (crtcs !! index) as [crtc|] eqn:Er; [|done].
    injection Eo as <-. destruct (best_mode_spec m ms) as (H1 & H2 & _). cbn [out_mode]. split.
    + exists c, index, crtc. rewrite Em. split_and!; try done. by left.
    + intros x o (c' & i' & r' & [= <-]%list_elem_of_singleton & _ & Hx & _). apply H2. by rewrite <-Em.
  - intros m o (c' & i' & r' & [= <-]%list_elem_of_singleton & Hc & Hx & Hi & Hr & _). cbn [mbind option_bind] in Eo.
    rewrite Hc in Eo. destruct (modes c') as [|m0 ms]; [by apply not_elem_of_nil in Hx|]. rewrite Hi in Eo. cbn [mbind option_bind] in Eo. by rewrite Hr in Eo.
Qed.

(** A mode whose refresh is a number, as that of every mode with a finite clock is. *)
Definition numeric (m : mode) : Prop := place (mode_refresh_hz m) <> None.

Lemma SFltb_split x y z : place y <> None -> SFltb x z = true -> SFltb x y = true \/ SFltb y z = true.
Proof.
  rewrite !SFltb_place. intros Hy ([[a b] c] & [[a2 b2] c2] & E1 & E3 & H). destruct (place y) as [[[a1 b1] c1]|] eqn:E2; [|done].
  assert (before (a, b, c) (a1, b1, c1) \/ before (a1, b1, c1) (a2, b2, c2)) as [Hb|Hb] by (cbn in *; lia);
    [left|right]; by eexists _, _.
Qed.

Lemma better_split x y z : numeric y -> better_mode x z = true -> better_mode x y = true \/ better_mode y z = true.
Proof.
  unfold better_mode. intros Hy H.
  destruct (Z.eqb_spec (u64 (hdisplay x * vdisplay x)) (u64 (hdisplay y * vdisplay y))) as [Exy|Nxy];
    destruct (Z.eqb_spec (u64 (hdisplay y * vdisplay y)) (u64 (hdisplay z * vdisplay z))) as [Eyz|Nyz]; cbn [negb].
  - rewrite Exy, Eyz, Z.eqb_refl in H. cbn [negb] in H.
    destruct (preferred x), (preferred y), (preferred z); cbn in *; try tauto; destruct (SFltb_split _ _ _ Hy H); tauto.
  - rewrite Exy in H. destruct (Z.eqb_spec (u64 (hdisplay y * vdisplay y)) (u64 (hdisplay z * vdisplay z))); [done|by right].
  - rewrite <-Eyz in H. destruct (Z.eqb_spec (u64 (hdisplay x * vdisplay x)) (u64 (hdisplay y * vdisplay y))); [done|by left].
  - rewrite !Z.ltb_lt. destruct (Z.eqb_spec (u64 (hdisplay x * vdisplay x)) (u64 (hdisplay z * vdisplay z))) as [E|N]; cbn [negb] in H; [lia|].
    apply Z.ltb_lt in H. lia.
Qed.

Lemma prefer_best (P Q : mode -> output -> Prop) found o :
  (forall m x, Q m x -> numeric m) -> best_output P found -> best_output Q o -> best_output (fun m x => P m x \/ Q m x) (prefer found o).
Proof.
  intros Hn Hf Ho. destruct o as [o|]; cbn [prefer].
  - destruct Ho as [Ho1 Ho2]. destruct found as [f|].
    + destruct Hf as [Hf1 Hf2]. destruct (better_mode (out_mode o) (out_mode f)) eqn:E; cbn [best_output]; (split; [tauto|]); intros m x [Hp|Hq].
      * apply (unbeaten_step _ (out_mode f)); [done|right; by apply (Hf2 m x)].
      * by apply (Ho2 m x).
      * by apply (Hf2 m x).
      * destruct (better_mode m (out_mode f)) eqn:Em; [|done]. exfalso.
        destruct (better_split m (out_mode o) (out_mode f)) as [H|H]; [by apply (Hn _ o)|done|rewrite (Ho2 m x) in H; congruence|congruence].
    + split; [tauto|]. intros m x [Hp|Hq]; [by destruct (Hf m x)|by apply (Ho2 m x)].
  - destruct found as [f|]; cbn [best_output] in *; [destruct Hf as [Hf1 Hf2]; split; [tauto|]; intros m x [Hp|Hq]; [by apply (Hf2 m x)|by destruct (Ho m x)]|].
    intros m x [Hp|Hq]; [by destruct (Hf m x)|by destruct (Ho m x)].
Qed.

Lemma best_output_ext P Q found : (forall m x, P m x <-> Q m x) -> best_output P found -> best_output Q found.
Proof. intros E. destruct found as [f|]; cbn; [intros [H1 H2]; split; [by apply E|intros m x Hq; by apply (H2 m x), E]|intros H m x Hq; by apply (H m x), E]. Qed.

Lemma candidate_app crtcs l1 l2 m o : candidate crtcs (l1 ++ l2) m o <-> candidate crtcs l1 m o \/ candidate crtcs l2 m o.
Proof. unfold candidate. setoid_rewrite elem_of_app. naive_solver. Qed.

Lemma select_loop_best crtcs cs done found :
  (forall m o, candidate crtcs cs m o -> numeric m) ->
  best_output (candidate crtcs done) found -> best_output (candidate crtcs (done ++ cs)) (select_loop crtcs cs found).
Proof.
  revert done found. induction cs as [|c cs IH]; intros done found Hn Hf; [by rewrite app_nil_r|].
  rewrite select_loop_offer. replace (done ++ c :: cs) with ((done ++ [c]) ++ cs) by (by rewrite <-app_assoc). apply IH.
  - intros m o Hc. apply (Hn m o). apply (candidate_app crtcs [c] cs). by right.
  - apply (best_output_ext (fun m x => candidate crtcs done m x \/ candidate crtcs [c] m x)); [intros m x; by rewrite candidate_app|].
    apply prefer_best; [|done|apply offer_best]. intros m x Hx. apply (Hn m x). apply (candidate_app crtcs [c] cs). by left.
Qed.

(** The choice of the display.  The output that [select_output] takes is a mode of a connected connector with a CRTC that its
    encoder drives or can drive, and no mode of any such connector is better (larger, else preferred, else faster); its refresh is
    between 59 and 61 Hz.  It fails exactly when there is no such connector or the best mode is out of that range. *)
Theorem select_output_best crtcs connectors :
  (forall m o, candidate crtcs connectors m o -> numeric m) ->
  match select_output crtcs connectors with
  | Some (o, refresh) =>
      candidate crtcs connectors (out_mode o) o /\ (forall m x, candidate crtcs connectors m x -> better_mode m (out_mode o) = false) /\
      SFltb (mode_refresh_hz (out_mode o)) (double_of_int 59) = false /\ SFltb (double_of_int 61) (mode_refresh_hz (out_mode o)) = false /\
      refresh = refresh_of (mode_refresh_hz (out_mode o))
  | None =>
      (forall m o, ~ candidate crtcs connectors m o) \/
      exists o, candidate crtcs connectors (out_mode o) o /\ (forall m x, candidate crtcs connectors m x -> better_mode m (out_mode o) = false) /\
        (SFltb (mode_refresh_hz (out_mode o)) (double_of_int 59) = true \/ SFltb (double_of_int 61) (mode_refresh_hz (out_mode o)) = true)
  end.
Proof.
  intros Hn. pose proof (select_loop_best crtcs connectors [] None Hn) as Hb. unfold select_output.
  destruct (select_loop crtcs connectors None) as [o|]; cbn [mbind option_bind].
  - destruct Hb as [Hc Hb]; [by intros m o' (c & i & r & []%not_elem_of_nil & _)|]. cbn [app] in *.
    destruct (SFltb (mode_refresh_hz (out_mode o)) (double_of_int 59)) eqn:E1; cbn [orb]; [right; exists o; split_and!; auto|].
    destruct (SFltb (double_of_int 61) _) eqn:E2; [right; exists o; split_and!; auto|]. done.
  - left. apply Hb. by intros m o (c & i & r & []%not_elem_of_nil & _).
Qed.

(** Two displays: the larger mode of the second is taken, with the CRTC its encoder drives. *)
Definition two_displays : list (option connector) :=
  [Some (mkConnector 31 true [mkMode 148500 1920 1080 2200 1125 0 5 72] (Some (mkEncoder 50 3))); None;
   Some (mkConnector 32 true [mkMode 148500 1920 1080 2200 1125 0 5 64; mkMode 594000 3840 2160 4400 2250 0 5 72; mkMode 297000 3840 2160 4400 2250 0 5 64]
     (Some (mkEncoder 0 2)))].

Lemma select_output_best_witness :
  exists o, select_output [50; 51] two_displays = Some (o, 16666667) /\ out_connector o = 32 /\ out_crtc o = 51 /\ clock (out_mode o) = 594000 /\
    forall m x, candidate [50; 51] two_displays m x -> better_mode m (out_mode o) = false.
Proof.
  assert (forall m o, candidate [50; 51] two_displays m o -> numeric m) as Hn.
  { intros m o (c & i & r & Hc & _ & Hm & _). unfold two_displays in Hc. rewrite !elem_of_cons in Hc.
    destruct Hc as [[= ->]|[[=]|[[= ->]|[]%not_elem_of_nil]]]; cbn [modes] in Hm; rewrite !elem_of_cons in Hm;
      repeat (destruct Hm as [->|Hm]; [vm_compute; discriminate|]); by apply not_elem_of_nil in Hm. }
  pose proof (select_output_best [50; 51] two_displays Hn) as H.
  destruct (select_output [50; 51] two_displays) as [[o refresh]|] eqn:E; [|vm_compute in E; discriminate E].
  destruct H as (_ & Hb & _). exists o. assert (refresh = 16666667 /\ out_connector o = 32 /\ out_crtc o = 51 /\ clock (out_mode o) = 594000) as (-> & ? & ? & ?)
    by (clear Hb; vm_compute in E; injection E as <- <-; repeat split). by split_and!.
Defined.

(** ** Samples and stamps *)

Section stamps.
Import Feeding.
Context (scale : Z -> Z -> Z -> Z) (submit_lead_ns refresh_ns : Z).

(** GStreamer's scaling: exact where the result has 64 bits. *)
Definition exact_scale : Prop := forall v n d, 0 <= v -> 0 <= n -> 0 < d -> v * n / d < 2 ^ 64 -> scale v n d = v * n / d.

(** The calls of the streaming thread: frames into the decoder, samples out of it with their time. *)
Inductive act := Feed (a : answers) | Decoded (pts : Z).
Fixpoint stream (acts : list act) (f : feed) : option (feed * list (Z * SubmitStamp)) :=
  match acts with
  | [] => Some (f, [])
  | Feed a :: acts => '(_, f) ← on_decoder_input scale submit_lead_ns refresh_ns a f; stream acts f
  | Decoded p :: acts =>
      match take_stamp p f with
      | (Some s, f) => '(f, l) ← stream acts f; Some (f, (p, s) :: l)
      | (None, f) => stream acts f
      end
  end.

(** The time of a frame at sixty frames a second. *)
Definition frame_pts (n : Z) : Z := (n - 1) * 1000000000 / 60.

Lemma frame_pts_lt m n : m < n -> frame_pts m < frame_pts n.
Proof.
  intros H. unfold frame_pts. apply Z.lt_le_trans with ((m - 1) * 1000000000 / 60 + 1); [lia|].
  replace ((m - 1) * 1000000000 / 60 + 1) with (((m - 1) * 1000000000 + 1 * 60) / 60) by (by rewrite Z.div_add).
  apply Z.div_le_mono; lia.
Qed.

(** The queue holds stamps of frames in order, after the matched ones and up to the last fed. *)
Definition queued (low high : Z) (q : list SubmitStamp) : Prop :=
  StronglySorted (fun a b => frame a < frame b) q /\ Forall (fun s => low < frame s <= high /\ pts s = frame_pts (frame s)) q.

Lemma queued_snoc low high q s :
  queued low high q -> low <= high -> frame s = high + 1 -> pts s = frame_pts (frame s) -> queued low (high + 1) (q ++ [s]).
Proof.
  intros [Hs Hf] Hl Es Ep. split.
  - apply StronglySorted_app. split_and!; [|done|by repeat constructor]. intros a b Ha ->%list_elem_of_singleton. rewrite Forall_forall in Hf. specialize (Hf a Ha). lia.
  - apply Forall_app. split; [eapply Forall_impl; [exact Hf|]; intros x [??]; split; [lia|done]|]. repeat constructor; [lia|lia|done].
Qed.

Lemma queued_more low high high' q : queued low high q -> high <= high' -> queued low high' q.
Proof. intros [Hs Hf] H. split; [done|]. eapply Forall_impl; [exact Hf|]. intros x [??]. split; [lia|done]. Qed.

Lemma matching_queued low high p q s q' :
  queued low high q -> matching p q = Some (s, q') -> pts s = p /\ low < frame s <= high /\ pts s = frame_pts (frame s) /\ queued (frame s) high q'.
Proof.
  induction q as [|x q IH]; cbn [matching]; [done|]. intros [Hs Hf]. apply StronglySorted_inv in Hs as [Hs Hx]. apply Forall_cons in Hf as [[Hl Hp] Hf].
  destruct (negb (p =? GST_CLOCK_TIME_NONE) && (pts x =? p)) eqn:E; [|by apply IH]. guards.
  intros [= <- <-]. split_and!; [lia|lia|lia|done|]. split; [done|]. rewrite Forall_forall in *. intros y Hy. specialize (Hx y Hy). specialize (Hf y Hy). cbn in *.
  destruct Hf. split; [lia|done].
Qed.

Lemma fed_queued a f ok f' low :
  exact_scale -> 0 <= low <= submitted f -> submitted f < 1000000000000 -> queued low (submitted f) (submit_queue f) ->
  on_decoder_input scale submit_lead_ns refresh_ns a f = Some (ok, f') ->
  submitted f' = submitted f + 1 /\ queued low (submitted f') (submit_queue f').
Proof.
  intros Hsc Hl Hb Hq Hs. unfold on_decoder_input in Hs. cbn [count submitted] in Hs.
  rewrite (wrap_small 64 (submitted f + 1)) in Hs by (unfold in_range; pows; lia). rewrite Z.add_simpl_r in Hs.
  rewrite (wrap_small 64 (submitted f)) in Hs by (unfold in_range; pows; lia).
  assert (scale (submitted f) GST_SECOND 60 = frame_pts (submitted f + 1)) as Ep.
  { unfold frame_pts, GST_SECOND. rewrite Z.add_simpl_r. apply Hsc; [lia|lia|lia|]. apply Z.div_lt_upper_bound; pows; lia. }
  rewrite Ep in Hs.
  assert (submitted (count f) = submitted f + 1) as Ec by (cbn; rewrite wrap_small; [done|unfold in_range; pows; lia]).
  assert (forall t g, submitted g = submitted f + 1 -> submit_queue g = submit_queue f ->
    submitted (push (mkStamp (submitted f + 1) (Schedule.stamp_ns (times a)) t (frame_pts (submitted f + 1))) g) = submitted f + 1 /\
    queued low (submitted (push (mkStamp (submitted f + 1) (Schedule.stamp_ns (times a)) t (frame_pts (submitted f + 1))) g))
      (submit_queue (push (mkStamp (submitted f + 1) (Schedule.stamp_ns (times a)) t (frame_pts (submitted f + 1))) g))) as Hpush.
  { intros t g E1 E2. cbn [push submitted submit_queue]. rewrite E1, E2. split; [done|]. apply queued_snoc; [done|lia|done|done]. }
  assert (forall g, submitted g = submitted f + 1 -> submit_queue g = submit_queue f -> submitted g = submitted f + 1 /\ queued low (submitted g) (submit_queue g)) as Hkeep.
  { intros g E1 E2. rewrite E1, E2. split; [done|]. by apply (queued_more low (submitted f)); [|lia]. }
  destruct (negb (writable a)); [injection Hs as <- <-; by apply Hkeep|].
  destruct (2 <=? submitted f + 1); [|injection Hs as <- <-; by apply Hpush].
  destruct (failed_meanwhile a); [injection Hs as <- <-; by apply Hkeep|].
  destruct (plan _ _ _ _ _) as [[target wake] epoch]. destruct (Schedule.nanosleep _) as [st|]; [|done]. cbn [mbind option_bind] in Hs.
  destruct (st =? 0); injection Hs as <- <-; [by apply Hpush|by apply Hkeep].
Qed.

Lemma stream_matched acts f low f' l :
  exact_scale -> 0 <= low <= submitted f -> submitted f + len acts <= 1000000000000 -> queued low (submitted f) (submit_queue f) ->
  stream acts f = Some (f', l) ->
  Forall (fun x => x.1 = pts x.2 /\ pts x.2 = frame_pts (frame x.2) /\ low < frame x.2) l /\ StronglySorted (fun a b => frame a.2 < frame b.2) l.
Proof.
  intros Hsc. revert f low f' l. induction acts as [|[a|p] acts IH]; intros f low f' l Hl Hb Hq; cbn [stream].
  - intros [= <- <-]. split; constructor.
  - destruct (on_decoder_input _ _ _ a f) as [[ok f1]|] eqn:E; [|done]. cbn [mbind option_bind length] in *. intros Hs.
    destruct (fed_queued a f ok f1 low Hsc Hl ltac:(lia) Hq E) as [E1 Hq1]. apply (IH f1 low f' l); [lia|lia|done|done].
  - unfold take_stamp. cbn [length] in *. destruct (matching p (submit_queue f)) as [[s q]|] eqn:E.
    + destruct (matching_queued _ _ _ _ _ _ Hq E) as (Es & Hr & Ep & Hq').
      match goal with |- context [stream acts ?g] => set (f1 := g) end.
      destruct (stream acts f1) as [[f2 l2]|] eqn:E2; [|done]. cbn [mbind option_bind]. intros [= <- <-].
      destruct (IH f1 (frame s) f2 l2) as [H1 H2]; [cbn; lia|cbn; lia|done|done|].
      split; constructor; [cbn; split_and!; [done|done|lia]| |done|]; [eapply Forall_impl; [exact H1|]; intros x (?&?&?); split_and!; [done|done|lia]|].
      eapply Forall_impl; [exact H1|]. by intros x (?&?&?).
    + intros Hs. apply (IH (fail f) low f' l); [cbn; lia|cbn; lia|done|done].
Qed.

Lemma frame_pts_inj m n : frame_pts m = frame_pts n -> m = n.
Proof. intros E. destruct (Z.lt_trichotomy m n) as [H|[H|H]]; [|done|]; apply frame_pts_lt in H; lia. Qed.
End stamps.

(** Samples carry their own stamps.  Whatever frames the decoder's input drops and whatever order frames and samples come in, up
    to a million million calls: a decoded sample that is passed on is paired with the stamp of the frame it was decoded from (the one
    with its time), and the frames of the samples passed on only increase; a sample of a frame already overtaken is refused. *)
Theorem samples_matched scale lead refresh first steady acts f l :
  exact_scale scale -> len acts <= 1000000000000 ->
  stream scale lead refresh acts (Feeding.mkFeed 0 first steady false [] []) = Some (f, l) ->
  StronglySorted (fun a b => Feeding.frame a.2 < Feeding.frame b.2) l /\
  forall p s, (p, s) ∈ l -> 1 <= Feeding.frame s /\ p = frame_pts (Feeding.frame s) /\ forall n, p = frame_pts n -> Feeding.frame s = n.
Proof.
  intros Hsc Hlen Hs.
  destruct (stream_matched scale lead refresh acts (Feeding.mkFeed 0 first steady false [] []) 0 f l) as [H1 H2]; cbn; [done|lia|lia|split; constructor|done|].
  split; [done|]. intros p s Hin. rewrite Forall_forall in H1. destruct (H1 _ Hin) as (E1 & E2 & Hlt). cbn in *. split_and!; [lia|congruence|].
  intros n En. apply frame_pts_inj. congruence.
Qed.

Lemma samples_matched_witness :
  let clocks now := Schedule.mkClocks now [0] (now + 1) (now + 2) in
  exists f l, stream (fun v n d => v * n / d) 6000000 16666667
    [Feed (Feeding.mkAnswers true false (clocks 5)); Feed (Feeding.mkAnswers false false (clocks 7)); Feed (Feeding.mkAnswers true false (clocks 9));
     Decoded 0; Decoded 33333333; Decoded 0] (Feeding.mkFeed 0 100000000 100000000 false [] []) = Some (f, l) /\
    map (fun x => (x.1, Feeding.frame x.2)) l = [(0, 1); (33333333, 3)] /\ Feeding.failed f = true /\
    (forall p s, (p, s) ∈ l -> 1 <= Feeding.frame s).
Proof.
  intros clocks.
  match goal with |- context [stream ?a ?b ?c ?d ?e] => destruct (stream a b c d e) as [[f l]|] eqn:E end; [|vm_compute in E; discriminate E].
  exists f, l. split; [reflexivity|].
  assert (forall p s, (p, s) ∈ l -> 1 <= Feeding.frame s) as Hf.
  { intros p s Hin. apply (samples_matched _ _ _ 100000000 100000000 _ f l) with (3 := E) in Hin; [by destruct Hin|by intros v n d|by vm_compute]. }
  split; [clear Hf; vm_compute in E; by injection E as <- <-|]. split; [clear Hf; vm_compute in E; by injection E as <- <-|exact Hf].
Defined.

(** ** Frames, buffers and framebuffers *)

Section accounts.
Import Frames.
Context (hdisplay vdisplay refresh_ns : Z).
#[local] Abbreviation display_sample := (display_sample hdisplay vdisplay refresh_ns).
#[local] Abbreviation display_all := (display_all hdisplay vdisplay refresh_ns).

(** What the kernel holds for the probe: the handles and the framebuffers it was asked for and did not take back. *)
Definition handles_opened (ns : list kernel_note) : list Z := omap (fun n => match n with HandleOpened h => Some h | _ => None end) ns.
Definition handles_closed (ns : list kernel_note) : list Z := omap (fun n => match n with HandleClosed h => Some h | _ => None end) ns.
Definition added (ns : list kernel_note) : list Z := omap (fun n => match n with FramebufferAdded f => Some f | _ => None end) ns.
Definition removed (ns : list kernel_note) : list Z := omap (fun n => match n with FramebufferRemoved f => Some f | _ => None end) ns.

Definition shown (d : display) : list nat := match current d with Some f => [sample f] | None => [] end.

(** After k samples: each was released or is on the display; the cache holds what the kernel holds, one framebuffer for each buffer;
    the frame on the display has the framebuffer of its own sample's buffer; every flip was measured. *)
Record accounts (xs : list script) (d : display) : Prop := {
  ac_samples : seq 0 (length xs) ≡ₚ released d ++ shown d;
  ac_handles : handles_opened (notes d) ≡ₚ handles_closed (notes d) ++ map gem_handle (cache d);
  ac_framebuffers : added (notes d) = map cached_framebuffer (cache d) /\ removed (notes d) = [];
  ac_buffers : NoDup (map (fun c => (device c, inode c)) (cache d));
  ac_shown : forall k fb, current d = Some (mkFrame k fb) ->
    exists s st c, xs !! k = Some s /\ p_stat (s_picture s) = Some st /\ c ∈ cache d /\ same_buffer st c = true /\ cached_framebuffer c = fb;
  ac_measured : displayed d = u64 (len (submit_to_present (stats d)) + len (shown d)) }.

Lemma omap_snoc {A B} (f : A -> option B) l x : omap f (l ++ [x]) = omap f l ++ match f x with Some y => [y] | None => [] end.
Proof. rewrite omap_app. cbn. by destruct (f x). Qed.

(** The import of one sample's buffer. *)
Lemma create_frame_accounts xs p k d fb d' :
  accounts xs d -> create_frame hdisplay vdisplay p k d = (fb, d') ->
  accounts xs d' /\ released d' = released d /\ current d' = current d /\ last_present_ns d' = last_present_ns d /\
  displayed d' = displayed d /\ stats d' = stats d /\
  match fb with Some fb => exists st c, p_stat p = Some st /\ c ∈ cache d' /\ same_buffer st c = true /\ cached_framebuffer c = fb | None => True end.
Proof.
  intros Ha Hc. unfold create_frame in Hc. destruct (if importable hdisplay vdisplay p then p_stat p else None) as [st|] eqn:Es; [|by injection Hc as <- <-].
  assert (p_stat p = Some st) as Est by (by destruct (importable _ _ p)).
  destruct (find (same_buffer st) (cache d)) as [c|] eqn:Ef.
  { injection Hc as <- <-. apply find_some in Ef as [Hin%list_elem_of_In Hsame].
    split_and!; try done; [by destruct Ha; split|]. by exists st, c. }
  destruct (k_handle k) as [h|]; [|by injection Hc as <- <-]. destruct (k_framebuffer k) as [f|]; injection Hc as <- <-.
  - split_and!; try done; [|exists st, (mkCached st.1 st.2 f h); split_and!; try done; [cbn; set_solver|unfold same_buffer; cbn; by rewrite !Z.eqb_refl]].
    destruct Ha. split; cbn in *; rewrite ?map_app in *; cbn [map]; try done.
    + unfold handles_opened, handles_closed in *. rewrite <-app_assoc. cbn [app]. rewrite !omap_app. cbn. rewrite app_nil_r, ac_handles0, <-app_assoc. done.
    + unfold added, removed in *. rewrite <-app_assoc. cbn [app]. rewrite !omap_app. cbn. destruct ac_framebuffers0 as [-> ->]. done.
    + apply NoDup_app. split_and!; [done| |apply NoDup_singleton]. intros x (c & -> & Hin)%list_elem_of_fmap Hx%list_elem_of_singleton.
      apply list_elem_of_In in Hin. apply (find_none _ _ Ef c) in Hin. unfold same_buffer in Hin. destruct st as [a b]. cbn in *. injection Hx as E1 E2. by rewrite E1, E2, !Z.eqb_refl in Hin.
    + intros j g Hj. destruct (ac_shown0 j g Hj) as (s & st' & c & ? & ? & ? & ? & ?). exists s, st', c. split_and!; try done. apply elem_of_app. by left.
  - split_and!; try done. destruct Ha. split; cbn in *; try done.
    + unfold handles_opened, handles_closed in *. rewrite <-app_assoc. cbn [app]. rewrite !omap_app. cbn. rewrite ?app_nil_r, ac_handles0, <-!app_assoc.
      apply Permutation_app_head. by rewrite Permutation_app_comm.
    + unfold added, removed in *. rewrite <-app_assoc. cbn [app]. rewrite !omap_app. cbn. by rewrite !app_nil_r.
Qed.

Lemma display_accounts xs k stamp ready s d ok d' :
  k = length xs -> accounts xs d -> display_sample k stamp ready s d = (ok, d') ->
  accounts (xs ++ [s]) d'.
Proof.
  intros -> Ha Hs.
  assert (forall d1, accounts xs d1 -> accounts (xs ++ [s]) (unref (length xs) d1)) as Hunref.
  { intros d1 []. split; cbn; try done.
    - rewrite length_app, Nat.add_1_r, seq_S, ac_samples0, <-!app_assoc. apply Permutation_app_head. by rewrite Permutation_app_comm.
    - intros k fb Hk. destruct (ac_shown0 k fb Hk) as (s' & st & c & Hl & ?). exists s', st, c. split; [|done]. rewrite lookup_app_l; [done|by eapply lookup_lt_Some]. }
  unfold Frames.display_sample in Hs. destruct (_ && _ && _).
  { injection Hs as <- <-. apply Hunref. by destruct Ha; split. }
  destruct (create_frame hdisplay vdisplay (s_picture s) (s_kernel s) d) as [fb d1] eqn:Ec.
  destruct (create_frame_accounts xs _ _ _ _ _ Ha Ec) as (Ha1 & Er & Ecur & El & Ed & Est & Hfb).
  destruct fb as [fb|]; [|injection Hs as <- <-; by apply Hunref]. destruct Hfb as (st & c & Hst & Hc & Hsame & Hfb).
  destruct (current d1) as [old|] eqn:Eo.
  - destruct (if s_page_flip s then s_flip_event s else None) as [[sec us]|]; [|injection Hs as <- <-; by apply Hunref].
    destruct (event_ns sec us <? Feeding.submitted_ns stamp); injection Hs as <- <-; [by apply Hunref|].
    destruct Ha1. split; cbn -[u64] in *; try done.
    + unfold shown in *. rewrite Eo in *. rewrite length_app, Nat.add_1_r, seq_S, ac_samples0. done.
    + intros k g [= <- <-]. exists s, st, c. split_and!; try done. by rewrite lookup_app_r, Nat.sub_diag by done.
    + unfold shown in *. rewrite Eo in *. cbn -[u64] in *. rewrite length_app, ac_measured0. cbn [length]. unfold wrap. rewrite Zplus_mod_idemp_l. f_equal. lia.
  - destruct (negb (s_set_crtc s)); [injection Hs as <- <-; by apply Hunref|].
    destruct (establish_phase refresh_ns s) as [target|]; injection Hs as <- <-; [|by apply Hunref].
    destruct Ha1. split; cbn -[u64] in *; try done.
    + unfold shown in *. rewrite Eo in *. rewrite app_nil_r in *. by rewrite length_app, Nat.add_1_r, seq_S, ac_samples0.
    + intros k g [= <- <-]. exists s, st, c. split_and!; try done. by rewrite lookup_app_r, Nat.sub_diag by done.
    + unfold shown in *. rewrite Eo in *. cbn -[u64] in *. rewrite ac_measured0. unfold wrap. rewrite Zplus_mod_idemp_l. f_equal. lia.
Qed.

Lemma display_all_accounts xs done d ok k d' :
  accounts done d -> display_all (length done) xs d = (ok, k, d') ->
  exists n, k = (length done + n)%nat /\ (n <= length xs)%nat /\ accounts (done ++ map snd (take n xs)) d' /\ (ok = true -> n = length xs).
Proof.
  revert done d. induction xs as [|[[stamp ready] s] xs IH]; intros done d Ha Hs; cbn [Frames.display_all] in Hs.
  - injection Hs as <- <- <-. exists 0%nat. cbn. rewrite app_nil_r. split_and!; [lia|lia|done|done].
  - destruct (display_sample (length done) stamp ready s d) as [[] d1] eqn:E.
    + pose proof (display_accounts done _ stamp ready s d true d1 eq_refl Ha E) as Ha1.
      destruct (IH (done ++ [s]) d1 Ha1) as (n & -> & Hn & Han & Hok); [by rewrite length_app, Nat.add_1_r|].
      exists (S n). cbn [length take map snd]. rewrite <-app_assoc in Han. cbn [app] in Han. rewrite length_app in *. cbn [length] in *. split_and!; [lia|lia|done|intros; by rewrite Hok].
    + injection Hs as <- <- <-. pose proof (display_accounts done _ stamp ready s d false d1 eq_refl Ha E) as Ha1.
      exists 1%nat. cbn [length take map snd]. rewrite take_0. split_and!; [lia|lia|done|done].
Qed.

Lemma initial_accounts : accounts [] initial.
Proof. split; cbn; try done. constructor. Qed.

(** What giving back does, when the kernel's identifiers are not zero. *)
Lemma release_entries cs :
  Forall (fun c => cached_framebuffer c <> 0 /\ gem_handle c <> 0) cs ->
  handles_closed (concat (map release_entry cs)) = map gem_handle cs /\ removed (concat (map release_entry cs)) = map cached_framebuffer cs /\
  handles_opened (concat (map release_entry cs)) = [] /\ added (concat (map release_entry cs)) = [].
Proof.
  induction cs as [|c cs IH]; intros H; [done|]. apply Forall_cons in H as [[Hf Hg] H]. destruct (IH H) as (E1 & E2 & E3 & E4).
  unfold handles_closed, removed, handles_opened, added in *. cbn [map concat]. rewrite !omap_app, E1, E2, E3, E4. unfold release_entry.
  destruct (Z.eqb_spec (cached_framebuffer c) 0), (Z.eqb_spec (gem_handle c) 0); try done.
Qed.
End accounts.

Import Frames.


(** Three samples over two buffers: a mode set, then flips; the third comes from the cache. *)
Definition kms_picture (ino : Z) : picture := mkPicture true true (Some "Y410:0x0"%string) 1 3840 2160 true 9 (Some (5, ino)).
Definition kms_script (ino h fb t : Z) : script :=
  mkScript (kms_picture ino) (mkKernel (Some h) (Some fb)) t (t + 1) (t + 2) (t + 9) true (Some (0, 7)) true (Some (0, 50 + t)).
Definition kms_samples : list (Feeding.SubmitStamp * Z * script) :=
  [(Feeding.mkStamp 1 10 0 0, 20, kms_script 70 3 41 21); (Feeding.mkStamp 2 30 9000000 16666666, 40, kms_script 71 4 42 41);
   (Feeding.mkStamp 3 50 9900000 33333333, 60, kms_script 70 8 48 61)].


(** ** Wakeups of the phase *)

Section wakeups.
Import Phase.

(** A thread that waits with its phase ready is about to be woken; a worker that has stopped after a failure has said so. *)
Record phased (s : state) : Prop := {
  ph_asleep : forall second, fd s = FAsleep second -> ready second s = true -> wk s = WNotify;
  ph_blocking : forall second, fd s = FBlocking second -> ready second s = true -> False;
  ph_failed : wk s = WNotifyFailed -> failed s = true }.

Lemma phased_initial : phased initial.
Proof. by split. Qed.

Lemma phased_step e s s' : phased s -> run_event e s = Some s' -> phased s'.
Proof.
  intros [Ha Hb Hf] Hs. destruct s as [f w p q fl]. cbn [fd wk failed] in *.
  destruct e as [second| | | | | |], f as [|x|x|x|], w; cbn in Hs; try discriminate Hs;
    repeat (match type of Hs with context [if ?b then _ else _] => destruct b eqn:?; cbn in Hs; try discriminate Hs end); injection Hs as <-;
    (split; cbn [fd wk failed set_fd set_wk wake]; [intros second' [= <-] Hr|intros second' [= <-] Hr|intros Hw]); try discriminate; try done; try (by apply Hf).
  all: try specialize (Ha _ eq_refl); try specialize (Hb _ eq_refl); try destruct x; try destruct second; cbn in *; guards; subst; try discriminate; try tauto; try congruence.
  all: discriminate (Ha eq_refl).
Qed.

Lemma run_phased events s s' : phased s -> run events s = Some s' -> phased s'.
Proof.
  revert s. induction events as [|e events IH]; intros s Hp; cbn [run]; [by intros [= <-]|].
  destruct (run_event e s) as [s1|] eqn:E; [|done]. apply IH. by apply (phased_step e s).
Qed.

(** The phases are announced under the mutex, so a thread that waits for one that is ready is about to be woken. *)
Lemma phase_heard events s second :
  run events initial = Some s -> fd s = FAsleep second -> ready second s = true -> run_event Notifies s = Some (set_wk WWork (set_fd (FTest second) s)).
Proof.
  intros Hr Hf Hs. pose proof (ph_asleep _ (run_phased events _ s phased_initial Hr) second Hf Hs) as Hw. unfold run_event. by rewrite Hf, Hw.
Qed.

(** A failure is not: [failed] is set and announced without [phase_mutex], so it can fall between the test and the sleep; then the
    streaming thread sleeps, the worker has stopped, and no step is left. *)
Definition failure_between : list event := [Arrives true; Feeder; Fails; Notifies; Feeder].
Lemma failure_unheard :
  exists s, run failure_between initial = Some s /\ fd s = FAsleep true /\ failed s = true /\ wk s = WStopped /\ forall e, run_event e s = None.
Proof. eexists. split; [vm_compute; reflexivity|]. split_and!; [done..|]. by intros []. Qed.
End wakeups.
