(* ===== verification/X11Native.v ===== *)
(** * X11Native: probes/x11/plank-probe-x11-native10.cpp

    The probe of an X server's ten-bit visuals: [Channels] takes pixels apart by their masks and
    decides on the round trip of all codes, [Segment] holds the shared memory image, [Planes]
    unpacks a captured frame on one or several threads, [Survey] samples it, [Arguments] reads
    the command line.  The server and the kernel are parameters; the host is little-endian. *)

From stdpp Require Import gmap.
From S2P Require Import Prelude.
From S2P Require Import Endian.
From S2P Require Import BenchX264.
From S2P Require Import Playback.
From S2P Require Import UhidProbe.
From S2P Require Import ClientSession.
From Stdlib Require Import Ascii.
#[local] Open Scope Z_scope.

(** ** Channels *)

Module Channels.

Record channel_t := mkChannel { mask : Z; shift : Z; bits : Z }.

(** The loops over the bits of an [unsigned long]; 64 rounds are enough. *)
Fixpoint trailing_loop (fuel : nat) (value count : Z) : Z :=
  match fuel with
  | S fuel => if Z.land value 1 =? 0 then trailing_loop fuel (Z.shiftr value 1) (u32 (count + 1)) else count
  | O => count
  end.
Definition trailing_zeroes (value : Z) : Z := if value =? 0 then 0 else trailing_loop 64 value 0.
Fixpoint count_loop (fuel : nat) (value count : Z) : Z :=
  match fuel with
  | S fuel => if value =? 0 then count else count_loop fuel (Z.shiftr value 1) (u32 (count + Z.land value 1))
  | O => count
  end.
Definition bit_count (value : Z) : Z := count_loop 64 value 0.

Definition make_channel (m : Z) : channel_t := mkChannel m (trailing_zeroes m) (bit_count m).
Definition pack_code (c : channel_t) (code : Z) : Z := Z.land (u64 (Z.shiftl code (shift c))) (mask c).
Definition unpack_code (c : channel_t) (pixel : Z) : Z := u32 (Z.shiftr (Z.land pixel (mask c)) (shift c)).

(** The visual is native: depth 30, ten bits a channel, masks that do not overlap. *)
Definition masks_overlap (red green blue : channel_t) : bool :=
  negb (Z.land (mask red) (mask green) =? 0) || negb (Z.land (mask red) (mask blue) =? 0) || negb (Z.land (mask green) (mask blue) =? 0).
Definition native (depth : Z) (red green blue : channel_t) : bool :=
  (depth =? 30) && ((bits red =? 10) && (bits green =? 10) && (bits blue =? 10)) && negb (masks_overlap red green blue).
(** Another drawable's visual is the same. *)
Definition same_visual (depth : Z) (channels others : list channel_t) : bool :=
  (depth =? 30) && forallb (fun p => (mask p.1 =? mask p.2) && (bits p.1 =? bits p.2)) (combine channels others).

Definition width : Z := 1024.
(** The pixel of a code: the code in every channel. *)
Definition source_pixel (channels : list channel_t) (code : Z) : Z := fold_left (fun pixel c => Z.lor pixel (pack_code c code)) channels 0.
(** What was drawn, and the comparison of what was captured; [server] is the way of a row of pixels through the server. *)
Definition source_row (channels : list channel_t) : list Z := map (source_pixel channels) (seqZ 0 width).
Definition exact (channels : list channel_t) (captured : list Z) : bool :=
  forallb (fun code => match load captured code with Some pixel => forallb (fun c => unpack_code c pixel =? code) channels | None => false end)
    (seqZ 0 width).
Definition round_trip (server : list Z -> list Z) (channels : list channel_t) : bool := exact channels (server (source_row channels)).
End Channels.

(** ** The shared memory image *)

Module Segment.

Inductive piece := Image | Memory | Mapping | Attachment.
#[export] Instance piece_eq : EqDecision piece.
Proof. solve_decision. Defined.

(** What the calls answer, in their order: the image and its size, the segment, its address, the attachment, its removal, and a second
    removal where it comes to that. *)
Record answers := mkAnswers {
  a_image : bool; a_bytes_per_line : Z; a_height : Z; a_shmget : bool; a_shmat : bool; a_attach : bool; a_remove : bool; a_remove_again : bool }.

(** The members of [shm_image_t], and what the process holds. *)
Record state := mkState { image_ : bool; shmid : bool; shmaddr : bool; attached_ : bool; marked_for_removal_ : bool; live : list piece }.
Definition nothing : state := mkState false false false false false [].

Definition valid_size (a : answers) : bool :=
  let size := u64 (u64 (a_bytes_per_line a) * u64 (a_height a)) in negb (size =? 0) && (size <=? 2147483647 * 16).

Definition drop (r : piece) (l : list piece) : list piece := filter (fun x => x <> r) l.

Definition cleanup (a : answers) (s : state) : state :=
  let s := if attached_ s then mkState (image_ s) (shmid s) (shmaddr s) false (marked_for_removal_ s) (drop Attachment (live s)) else s in
  let s := if image_ s then mkState false (shmid s) (shmaddr s) (attached_ s) (marked_for_removal_ s) (drop Image (live s)) else s in
  let s := if shmaddr s then mkState (image_ s) (shmid s) false (attached_ s) (marked_for_removal_ s) (drop Mapping (live s)) else s in
  let l := if shmid s && negb (marked_for_removal_ s) && a_remove_again a then drop Memory (live s) else live s in
  mkState (image_ s) false (shmaddr s) (attached_ s) (marked_for_removal_ s) l.

(** The constructor: the object, or what is left after the exception. *)
Definition construct (a : answers) : state + state :=
  if negb (a_image a) then inr (cleanup a nothing)
  else
    let s := mkState true false false false false [Image] in
    if negb (valid_size a) then inr (cleanup a s)
    else if negb (a_shmget a) then inr (cleanup a s)
    else
      let s := mkState true true false false false [Image; Memory] in
      if negb (a_shmat a) then inr (cleanup a s)
      else
        let s := mkState true true true false false [Image; Memory; Mapping] in
        if negb (a_attach a) then inr (cleanup a s)
        else
          let s := mkState true true true true false [Image; Memory; Mapping; Attachment] in
          if negb (a_remove a) then inr (cleanup a s)
          else inl (mkState true true true true true [Image; Mapping; Attachment]).

(** What a round trip holds besides: the pixmap, its context, the drawn image, the captured one. *)
Inductive held := Pixmap | Context | Source | Captured | Shared.
Record trip := mkTrip { t_pixmap : bool; t_context : bool; t_source : bool; t_data : bool; t_shm : answers; t_capture : bool }.
(** [controlled_round_trip]: what is still held when it returns ([true]) or throws. *)
Definition trip_ends (use_shm : bool) (t : trip) : bool * list held :=
  if negb (t_pixmap t) then (false, [])
  else if negb (t_context t) then (false, [])
  else if negb (t_source t) then (false, [])
  else if negb (t_data t) then (false, [])
  else if use_shm then
    match construct (t_shm t) with
    | inr _ => (false, [Pixmap; Context; Source])
    | inl _ => (t_capture t, [])
    end
  else (t_capture t, []).
End Segment.

(** ** Unpacking *)

Module Planes.
Import Channels.

Record planes := mkPlanes { green : list Z; blue : list Z; red : list Z }.

Section frame.
Context (source : list Z) (width row_pitch : Z) (channels : channel_t * channel_t * channel_t).

(** The 32-bit word of a pixel. *)
Definition source_word (y x : Z) : option Z := l ← copy_from source (y * row_pitch + 4 * x) 4; Some (le_value l).

(** One pixel of [unpack_identity_rows]. *)
Definition unpack_pixel (y x : Z) (p : planes) : option planes :=
  let '(c0, c1, c2) := channels in
  pixel ← source_word y x;
  let offset := y * width + x in
  r ← store (red p) offset (u16 (unpack_code c0 pixel));
  g ← store (green p) offset (u16 (unpack_code c1 pixel));
  b ← store (blue p) offset (u16 (unpack_code c2 pixel));
  Some (mkPlanes g b r).

(** The pixels of some rows, in the order of the two loops, and the loops. *)
Definition rows (first_row end_row : Z) : list (Z * Z) :=
  concat (map (fun y => map (fun x => (y, x)) (seqZ 0 width)) (seqZ first_row (end_row - first_row))).
Fixpoint unpack_all (pixels : list (Z * Z)) (p : planes) : option planes :=
  match pixels with [] => Some p | (y, x) :: pixels => p ← unpack_pixel y x p; unpack_all pixels p end.
Definition unpack_identity_rows (first_row end_row : Z) (p : planes) : option planes := unpack_all (rows first_row end_row) p.
Definition unpack_identity_single (height : Z) (p : planes) : option planes := unpack_identity_rows 0 height p.

(** The rows of a worker; [order] says in which order the workers' pixels are written. *)
Definition worker_rows (height thread_count index : Z) : list (Z * Z) :=
  rows (s32 (Z.quot (height * index) thread_count)) (s32 (Z.quot (height * (index + 1)) thread_count)).
Definition unpack_identity_parallel (order : list (list (Z * Z)) -> list (Z * Z)) (height thread_count : Z) (p : planes) : option planes :=
  unpack_all (order (map (worker_rows height thread_count) (seqZ 0 thread_count))) p.
End frame.

(** The number of workers. *)
Definition parallel_threads (hardware : Z) : Z := Z.min 8 (Z.max 1 hardware).
End Planes.

(** ** Sampling a captured image *)

Module Survey.
Import Channels.

Definition max_codes : Z := 1024.
Definition is_eight_to_ten_expansion (value : Z) : bool :=
  existsb (fun source => Z.lor (u32 (Z.shiftl source 2)) (Z.shiftr source 6) =? value) (seqZ 0 256).

(** The positions of a loop from 0 with a step; [None]: the fuel is out. *)
Fixpoint positions (fuel : nat) (i n step : Z) : option (list Z) :=
  if i <? n then match fuel with S fuel => l ← positions fuel (i + step) n step; Some (i :: l) | O => None end
  else Some [].
Definition step_of (size parts : Z) : Z := Z.max 1 (Z.quot size parts).
Definition sampled (width height x_parts y_parts : Z) : option (list (Z * Z)) :=
  ys ← positions (Z.to_nat height) 0 height (step_of height y_parts);
  xs ← positions (Z.to_nat width) 0 width (step_of width x_parts);
  Some (concat (map (fun y => map (fun x => (x, y)) xs) ys)).

Section image.
Context (pixel_at : Z -> Z -> Z) (width height : Z).

(** For one channel: the codes seen, and how many samples no eight-bit code expands to. *)
Definition observe (c : channel_t) (points : list (Z * Z)) : gset Z * Z :=
  fold_left (fun r p =>
    let value := unpack_code c (pixel_at p.1 p.2) in
    (if value <? max_codes then {[value]} ∪ r.1 else r.1,
     if (bits c =? 10) && negb (is_eight_to_ten_expansion value) then u64 (r.2 + 1) else r.2)) points (∅, 0).
Definition analyze_capture_image (channels : list channel_t) : option (Z * list (Z * Z)) :=
  points ← sampled width height 512 256;
  Some (u64 (len points), map (fun c => let r := observe c points in (Z.of_nat (size r.1), r.2)) channels).

Definition offset_basis : Z := 1469598103934665603.
Definition prime : Z := 1099511628211.
Definition sample_fingerprint : option Z :=
  points ← sampled width height 128 72;
  Some (fold_left (fun hash p => u64 (Z.lxor hash (pixel_at p.1 p.2) * prime)) points offset_basis).
End image.

(** The fingerprints of the captured frames: how many differ, and how often a frame differs from the one before. *)
Fixpoint transitions (previous : Z) (fingerprints : list Z) : Z :=
  match fingerprints with [] => 0 | f :: fs => (if f =? previous then 0 else 1) + transitions f fs end.
Definition changed_frames (fingerprints : list Z) : Z := match fingerprints with [] => 0 | f :: fs => transitions f fs end.
End Survey.

(** ** The command line and the result *)

Module Arguments.

(** The first argument of that name with a value; [None]: an exception. *)
Fixpoint parse_frames (arguments : list string) (name : string) (default_value : Z) : option Z :=
  match arguments with
  | a :: (b :: _) as rest =>
      if String.eqb a name then
        '(value, _) ← Decode.stoi b; if (value <=? 0) || (1000 <? value) then None else Some value
      else parse_frames rest name default_value
  | _ => Some default_value
  end.

(** [std::stoul] with base 0. *)
Definition stoul_digits (negative : bool) (base : Z) (s : string) : option (Z * string) :=
  let '(value, n, rest) := base_digits base (after_prefix base s) 0 0 in
  if (n =? 0)%nat || (UINT64_MAX <? value) then None else Some (if negative then u64 (- value) else value, rest).
Fixpoint stoul_auto (s : string) : option (Z * string) :=
  match s with
  | EmptyString => None
  | String c rest =>
      if is_space c then stoul_auto rest
      else if Ascii.eqb c "-"%char then stoul_digits true (Reading.auto_base rest) rest
      else if Ascii.eqb c "+"%char then stoul_digits false (Reading.auto_base rest) rest
      else stoul_digits false (Reading.auto_base s) s
  end.
Fixpoint parse_drawable (arguments : list string) : option (option Z) :=
  match arguments with
  | a :: (b :: _) as rest =>
      if String.eqb a "--drawable" then
        '(value, tail) ← stoul_auto b;
        if negb (String.eqb tail EmptyString) || (value =? 0) then None else Some (Some value)
      else parse_drawable rest
  | _ => Some None
  end.
Definition has_flag (arguments : list string) (name : string) : bool := existsb (fun a => String.eqb a name) arguments.

Definition visible_gate (requested : option Z) (overlay_get overlay_shm : bool) : bool :=
  match requested with Some _ => true | None => overlay_get && overlay_shm end.
Definition exit_code (requested : option Z) (get_trip shm_trip overlay_get overlay_shm : bool) (depth bits_per_pixel : Z) : Z :=
  if get_trip && shm_trip && visible_gate requested overlay_get overlay_shm && (depth =? 30) && (bits_per_pixel =? 32) then 0 else 2.
End Arguments.

(** ** Masks *)

Import Channels.

Fixpoint ones (fuel : nat) (v : Z) : Z := match fuel with O => 0 | S f => Z.land v 1 + ones f (Z.shiftr v 1) end.

Lemma ones_zero fuel : ones fuel 0 = 0.
Proof. induction fuel as [|f IH]; [done|]. cbn [ones]. by rewrite Z.land_0_l, Z.shiftr_0_l, IH. Qed.

Lemma land_1 v : Z.land v 1 = Z.b2z (Z.testbit v 0).
Proof. rewrite Z.bit0_mod. by apply (Z.land_ones v 1). Qed.

Lemma ones_range fuel v : 0 <= ones fuel v <= Z.of_nat fuel.
Proof.
  revert v. induction fuel as [|f IH]; intros v; cbn [ones]; [lia|]. pose proof (IH (Z.shiftr v 1)). rewrite land_1. destruct (Z.testbit v 0); cbn; lia.
Qed.

Lemma count_loop_ones fuel v c : 0 <= c -> c + Z.of_nat fuel < 2 ^ 32 -> count_loop fuel v c = c + ones fuel v.
Proof.
  revert v c. induction fuel as [|f IH]; intros v c Hc Hb; cbn [count_loop ones]; [lia|].
  destruct (Z.eqb_spec v 0) as [->|]; [rewrite Z.land_0_l, Z.shiftr_0_l, ones_zero; lia|].
  assert (0 <= Z.land v 1 <= 1) by (rewrite land_1; destruct (Z.testbit v 0); cbn; lia).
  rewrite wrap_small by (unfold in_range; lia). rewrite IH by lia. lia.
Qed.

Lemma bit_count_ones v : bit_count v = ones 64 v.
Proof. unfold bit_count. rewrite count_loop_ones; [done|done|done]. Qed.

Lemma ones_disjoint fuel a b : Z.land a b = 0 -> ones fuel (Z.lor a b) = ones fuel a + ones fuel b.
Proof.
  revert a b. induction fuel as [|f IH]; intros a b H; cbn [ones]; [done|].
  rewrite Z.shiftr_lor, IH by (by rewrite <-Z.shiftr_land, H, Z.shiftr_0_l). rewrite !land_1, Z.lor_spec.
  assert (Z.testbit a 0 && Z.testbit b 0 = false) by (rewrite <-Z.land_spec, H; apply Z.bits_0).
  destruct (Z.testbit a 0), (Z.testbit b 0); try done; cbn; lia.
Qed.

Lemma ones_none fuel v : 0 <= v < 2 ^ Z.of_nat fuel -> ones fuel v = 0 -> v = 0.
Proof.
  revert v. induction fuel as [|f IH]; intros v Hv; cbn [ones]; [cbn in Hv; lia|]. rewrite land_1. intros H.
  pose proof (ones_range f (Z.shiftr v 1)) as Hr. rewrite Nat2Z.inj_succ, Z.pow_succ_r in Hv by lia.
  assert (Z.shiftr v 1 = v / 2) as Hs by (by apply Z.shiftr_div_pow2).
  assert (Z.shiftr v 1 = 0) as H0.
  { apply IH; [rewrite Hs; split; [apply Z.div_pos; lia|apply Z.div_lt_upper_bound; lia]|]. destruct (Z.testbit v 0); cbn in H; lia. }
  pose proof (Z.bit0_mod v) as Hb. pose proof (Z.div_mod v 2 ltac:(done)). rewrite Hs in H0. destruct (Z.testbit v 0); cbn in H, Hb; lia.
Qed.

(** The contiguous masks of ten bits. *)
Definition contiguous (m : Z) : Prop := exists s, 0 <= s <= 54 /\ m = Z.shiftl 1023 s.

Lemma contiguous_make m : contiguous m -> make_channel m = mkChannel m (trailing_zeroes m) 10 /\ m = Z.shiftl 1023 (trailing_zeroes m) /\ 0 <= trailing_zeroes m <= 54.
Proof.
  intros (s & Hs & ->).
  assert (forallb (fun s => (trailing_zeroes (Z.shiftl 1023 s) =? s) && (bit_count (Z.shiftl 1023 s) =? 10)) (seqZ 0 55) = true) as H by (by vm_compute).
  rewrite forallb_forall in H. assert (s ∈ seqZ 0 55) as Hin by (apply elem_of_seqZ; lia).
  apply list_elem_of_In in Hin. specialize (H s Hin).
  apply andb_true_iff in H as [E1%Z.eqb_eq E2%Z.eqb_eq]. unfold make_channel. rewrite E1, E2. done.
Qed.

Lemma testbit_1023 n : 0 <= n -> Z.testbit 1023 n = (n <? 10).
Proof. intros Hn. change 1023 with (Z.ones 10). by rewrite Z.testbit_ones_nonneg by lia. Qed.

(** A mask of ten bits that holds ten consecutive ones is those. *)
Lemma mask_contiguous m s :
  0 <= m < 2 ^ 64 -> bit_count m = 10 -> 0 <= s -> (forall i, 0 <= i < 10 -> Z.testbit m (s + i) = true) -> s <= 54 -> contiguous m.
Proof.
  intros Hm Hc Hs Hb Hle. exists s. split; [lia|].
  assert (Z.land (Z.shiftl 1023 s) (Z.ldiff m (Z.shiftl 1023 s)) = 0) as Hd.
  { apply Z.bits_inj'. intros n Hn. rewrite Z.land_spec, Z.ldiff_spec, Z.bits_0. by destruct (Z.testbit (Z.shiftl 1023 s) n), (Z.testbit m n). }
  assert (m = Z.lor (Z.shiftl 1023 s) (Z.ldiff m (Z.shiftl 1023 s))) as Em.
  { apply Z.bits_inj'. intros n Hn. rewrite Z.lor_spec, Z.ldiff_spec, Z.shiftl_spec by done.
    destruct (Z.ltb_spec n s); [rewrite (Z.testbit_neg_r _ (n - s)) by lia; by destruct (Z.testbit m n)|].
    rewrite testbit_1023 by lia. destruct (Z.ltb_spec (n - s) 10); [|by destruct (Z.testbit m n)].
    replace n with (s + (n - s)) by lia. by rewrite Hb by lia. }
  assert (ones 64 (Z.shiftl 1023 s) = 10) as E10.
  { rewrite <-bit_count_ones. destruct (contiguous_make (Z.shiftl 1023 s)) as [H _]; [by exists s|]. by injection H. }
  assert (Z.shiftl 1023 s + Z.ldiff m (Z.shiftl 1023 s) = m) as Hsum by (rewrite Z.add_nocarry_lxor, Z.lxor_lor by done; by symmetry).
  assert (ones 64 (Z.ldiff m (Z.shiftl 1023 s)) = 0) as H0 by (rewrite bit_count_ones, Em, ones_disjoint, E10 in Hc by done; lia).
  rewrite (ones_none 64 (Z.ldiff m (Z.shiftl 1023 s))), Z.lor_0_r in Em; [done| |done].
  assert (0 <= Z.ldiff m (Z.shiftl 1023 s)) by (apply Z.ldiff_nonneg; lia). split; [done|]. assert (0 <= Z.shiftl 1023 s) by (by apply Z.shiftl_nonneg). change (Z.of_nat 64) with 64. lia.
Qed.

(** What comes back of a code. *)
Lemma unpack_contiguous m s code : 0 <= s <= 54 -> m = Z.shiftl 1023 s -> 0 <= code < 1024 ->
  Z.land (u64 (Z.shiftl code s)) m = Z.shiftl code s /\ u32 (Z.shiftr (Z.shiftl code s) s) = code.
Proof.
  intros Hs -> Hc. assert (Z.shiftl code s < 2 ^ 64).
  { rewrite Z.shiftl_mul_pow2 by lia. pose proof (Z.pow_le_mono_r 2 s 54 ltac:(lia) ltac:(lia)). nia. }
  split.
  - rewrite wrap_small by (split; [apply Z.shiftl_nonneg; lia|done]). rewrite <-Z.shiftl_land. f_equal. change 1023 with (Z.ones 10).
    rewrite Z.land_ones by lia. apply Z.mod_small. lia.
  - rewrite Z.shiftr_shiftl_l, Z.sub_diag, Z.shiftl_0_r by lia. apply wrap_small. unfold in_range. lia.
Qed.

Lemma trailing_nonneg v : 0 <= trailing_zeroes v.
Proof.
  unfold trailing_zeroes. destruct (v =? 0); [done|]. generalize 64%nat as fuel. intros fuel.
  assert (forall c, 0 <= c -> 0 <= trailing_loop fuel v c) as H; [|by apply H]. revert v.
  induction fuel as [|f IH]; intros v c Hc; cbn [trailing_loop]; [done|]. destruct (_ =? 0); [|done]. apply IH.
  pose proof (wrap_range 32 (c + 1) ltac:(lia)) as Hr. unfold in_range in Hr. lia.
Qed.

(** The highest code alone shows whether a mask is contiguous. *)
Lemma code_contiguous m :
  in_range 64 m -> bit_count m = 10 -> u32 (Z.shiftr (pack_code (make_channel m) 1023) (trailing_zeroes m)) = 1023 -> contiguous m.
Proof.
  intros Hm Hten Hu. pose proof (trailing_nonneg m) as Ht. set (t := trailing_zeroes m) in *.
  unfold pack_code in Hu. cbn [make_channel shift mask] in Hu. fold t in Hu.
  assert (forall i, 0 <= i < 10 -> Z.testbit m (t + i) = true /\ t + i < 64) as Hbit.
  { intros i Hi. pose proof (f_equal (fun z => Z.testbit z i) Hu) as Hb. cbn beta in Hb. unfold wrap in Hb at 1.
    rewrite testbit_1023, Z.testbit_mod_pow2, (proj2 (Z.ltb_lt i 10)), Z.shiftr_spec, Z.land_spec in Hb by lia.
    apply andb_true_iff in Hb as [_ [Hb1 Hb2]%andb_true_iff]. rewrite (Z.add_comm t). split; [done|].
    unfold wrap in Hb1. rewrite Z.testbit_mod_pow2 in Hb1 by lia. apply andb_true_iff in Hb1 as [Hb1%Z.ltb_lt _]. lia. }
  apply (mask_contiguous m t); [done|done|done|intros i Hi; by apply Hbit|]. destruct (Hbit 9 ltac:(lia)). lia.
Qed.

(** ** The round trip *)

(** A server that keeps the bits of the masks. *)
Definition keeps_masks (channels : list channel_t) (server : list Z -> list Z) : Prop :=
  forall row i p, load row i = Some p -> exists q, load (server row) i = Some q /\ forall c, c ∈ channels -> Z.land q (mask c) = Z.land p (mask c).

Lemma lor_masked a b m : Z.land b m = 0 -> Z.land (Z.lor a b) m = Z.land a m.
Proof. intros H. by rewrite Z.land_lor_distr_l, H, Z.lor_0_r. Qed.

Lemma packed_apart c d code : Z.land (mask c) (mask d) = 0 -> Z.land (pack_code c code) (mask d) = 0.
Proof. intros H. unfold pack_code. by rewrite <-Z.land_assoc, H, Z.land_0_r. Qed.

Lemma packed_own c code : Z.land (pack_code c code) (mask c) = pack_code c code.
Proof. unfold pack_code. by rewrite <-Z.land_assoc, Z.land_diag. Qed.

(** In the pixel of a code each channel holds its own pack. *)
Lemma source_masked red green blue code :
  masks_overlap red green blue = false ->
  forall c, c ∈ [red; green; blue] -> Z.land (source_pixel [red; green; blue] code) (mask c) = pack_code c code.
Proof.
  unfold masks_overlap. intros H. apply orb_false_iff in H as [[H1 H2]%orb_false_iff H3].
  apply negb_false_iff, Z.eqb_eq in H1, H2, H3. pose proof H1 as H1'. pose proof H2 as H2'. pose proof H3 as H3'. rewrite Z.land_comm in H1', H2', H3'.
  intros c Hc. unfold source_pixel. cbn [fold_left]. rewrite Z.lor_0_l, !Z.land_lor_distr_l. rewrite !elem_of_cons in Hc.
  destruct Hc as [->|[->|[->|[]%not_elem_of_nil]]]; rewrite packed_own, ?packed_apart by done; by rewrite ?Z.lor_0_r, ?Z.lor_0_l.
Qed.

Lemma exact_spec channels captured :
  exact channels captured = true <->
  forall code, 0 <= code < 1024 -> exists pixel, load captured code = Some pixel /\ forall c, c ∈ channels -> unpack_code c pixel = code.
Proof.
  unfold exact. rewrite forallb_forall. split.
  - intros H code Hc. specialize (H code ltac:(apply list_elem_of_In, elem_of_seqZ; unfold width; lia)). destruct (load captured code) as [pixel|]; [|done].
    exists pixel. split; [done|]. intros c Hin. rewrite forallb_forall in H. by apply Z.eqb_eq, H, list_elem_of_In.
  - intros H code Hc%list_elem_of_In%elem_of_seqZ. destruct (H code ltac:(unfold width in *; lia)) as (pixel & -> & Hp). apply forallb_forall.
    intros c Hin%list_elem_of_In. by apply Z.eqb_eq, Hp.
Qed.

Lemma source_row_load channels code : 0 <= code < 1024 -> load (source_row channels) code = Some (source_pixel channels code).
Proof.
  intros Hc. unfold source_row. replace code with (Z.of_nat (Z.to_nat code)) at 1 by lia. rewrite load_nat.
  change (map ?f ?l) with (f <$> l). rewrite list_lookup_fmap. rewrite (lookup_seqZ_lt 0 width) by (unfold width; lia). cbn. do 2 f_equal. lia.
Qed.

(** The gate of the controlled round trip.  On a server that keeps the bits of a visual's masks, for a visual that the probe takes for
    native (ten bits a channel, no overlap), all 1024 codes come back in all three channels exactly when each mask is ten consecutive
    bits; the masks' shifts and widths, their packing and unpacking then agree on every code. *)
Theorem round_trip_masks depth r g b server :
  in_range 64 r -> in_range 64 g -> in_range 64 b ->
  native depth (make_channel r) (make_channel g) (make_channel b) = true ->
  keeps_masks [make_channel r; make_channel g; make_channel b] server ->
  round_trip server [make_channel r; make_channel g; make_channel b] = true <-> contiguous r /\ contiguous g /\ contiguous b.
Proof.
  intros Hr Hg Hb Hn Hk. unfold native in Hn. apply andb_true_iff in Hn as [[_ Hbits]%andb_true_iff Hov%negb_true_iff].
  apply andb_true_iff in Hbits as [[B1%Z.eqb_eq B2%Z.eqb_eq]%andb_true_iff B3%Z.eqb_eq].
  assert (forall code, 0 <= code < 1024 -> exists q, load (server (source_row [make_channel r; make_channel g; make_channel b])) code = Some q /\
    forall c, c ∈ [make_channel r; make_channel g; make_channel b] -> unpack_code c q = u32 (Z.shiftr (pack_code c code) (shift c))) as Hq.
  { intros code Hc. destruct (Hk _ code _ (source_row_load [make_channel r; make_channel g; make_channel b] code Hc)) as (q & Hq & Hm). exists q. split; [done|]. intros c Hin.
    unfold unpack_code. rewrite (Hm c Hin). f_equal. f_equal. by apply source_masked. }
  unfold round_trip. rewrite exact_spec. split.
  - intros He. assert (forall m, make_channel m ∈ [make_channel r; make_channel g; make_channel b] -> in_range 64 m -> bit_count m = 10 -> contiguous m) as Hm.
    { intros m Hin Hrange Hten. destruct (He 1023 ltac:(lia)) as (p & Hp & Hu). destruct (Hq 1023 ltac:(lia)) as (q & Eq & Hpack).
      rewrite Hp in Eq. injection Eq as <-. specialize (Hu _ Hin). rewrite (Hpack _ Hin) in Hu. cbn [make_channel shift] in Hu.
      by apply (code_contiguous m). }
    split_and!; (apply Hm; [set_solver|done|done]).
  - intros (Cr & Cg & Cb) code Hc. destruct (Hq code Hc) as (q & Eq & Hpack). exists q. split; [done|]. intros c Hin. rewrite (Hpack c Hin).
    assert (exists m, c = make_channel m /\ contiguous m) as (m & -> & Hm) by (rewrite !elem_of_cons in Hin; destruct Hin as [->|[->|[->|[]%not_elem_of_nil]]]; eauto).
    destruct (contiguous_make m Hm) as (_ & Em & Hs). cbn [make_channel shift]. unfold pack_code. cbn [make_channel shift mask].
    destruct (unpack_contiguous m (trailing_zeroes m) code Hs Em Hc) as [-> ->]. done.
Qed.

(** Red, green and blue from the top. *)
Lemma round_trip_masks_witness :
  native 30 (make_channel 1072693248) (make_channel 1047552) (make_channel 1023) = true /\
  round_trip (fun row => row) [make_channel 1072693248; make_channel 1047552; make_channel 1023] = true.
Proof.
  assert (keeps_masks [make_channel 1072693248; make_channel 1047552; make_channel 1023] (fun row => row)) as Hk by (intros row i p Hp; exists p; split; [exact Hp|intros c Hc; reflexivity]).
  assert (native 30 (make_channel 1072693248) (make_channel 1047552) (make_channel 1023) = true) as Hn by (vm_compute; reflexivity).
  split; [exact Hn|].
  apply (round_trip_masks 30 1072693248 1047552 1023 (fun row => row)); [split; [discriminate|reflexivity]..|exact Hn|exact Hk|].
  split; [exists 20|split; [exists 10|exists 0]]; (split; [split; discriminate|reflexivity]).
Defined.

(** A mask with a hole passes the test of the widths, and not the round trip. *)
Lemma hole_refused :
  native 30 (make_channel 4290772992) (make_channel 2095104) (make_channel 1535) = true /\
  round_trip (fun row => row) [make_channel 4290772992; make_channel 2095104; make_channel 1535] = false.
Proof. split_and!; vm_compute; reflexivity. Qed.

(** ** Unpacking on several threads *)

Section unpack.
Import Planes.
Context (source : list Z) (width height row_pitch : Z) (c0 c1 c2 : channel_t).
Context (Hwidth : 0 < width) (Hheight : 0 <= height < 2 ^ 31) (Hpitch : 4 * width <= row_pitch) (Hsource : row_pitch * height <= len source).
#[local] Abbreviation unpack_pixel := (unpack_pixel source width row_pitch (c0, c1, c2)).
#[local] Abbreviation unpack_all := (unpack_all source width row_pitch (c0, c1, c2)).
#[local] Abbreviation rows := (rows width).

Definition inside (p : Z * Z) : Prop := 0 <= p.1 < height /\ 0 <= p.2 < width.
Definition word (y x : Z) : Z := le_value (take 4 (drop (Z.to_nat (y * row_pitch + 4 * x)) source)).
Definition sized (p : planes) : Prop := len (green p) = width * height /\ len (blue p) = width * height /\ len (red p) = width * height.
(** The three samples of a pixel. *)
Definition samples_at (y x : Z) (p : planes) : option Z * option Z * option Z :=
  (load (red p) (y * width + x), load (green p) (y * width + x), load (blue p) (y * width + x)).
Definition unpacked (y x : Z) : option Z * option Z * option Z :=
  (Some (u16 (unpack_code c0 (word y x))), Some (u16 (unpack_code c1 (word y x))), Some (u16 (unpack_code c2 (word y x)))).

Lemma inside_word y x : inside (y, x) -> source_word source row_pitch y x = Some (word y x).
Proof using All.
  intros [Hy Hx]. cbn in *. unfold source_word. assert (y * row_pitch + row_pitch <= row_pitch * height) by nia.
  replace (copy_from source (y * row_pitch + 4 * x) 4) with (Some (take 4 (drop (Z.to_nat (y * row_pitch + 4 * x)) source))); [done|].
  rewrite <-(take_drop (Z.to_nat (y * row_pitch + 4 * x)) source) at 2. rewrite <-(take_drop 4 (drop _ source)) at 2.
  symmetry. apply copy_from_app; [rewrite length_take; nia|rewrite length_take, length_drop; nia].
Qed.

Lemma inside_offset y x : inside (y, x) -> 0 <= y * width + x < width * height.
Proof using All. intros [Hy Hx]. cbn in *. nia. Qed.

Lemma offset_inj y x y' x' : inside (y, x) -> inside (y', x') -> y * width + x = y' * width + x' -> (y, x) = (y', x').
Proof using All. intros [Hy Hx] [Hy' Hx'] E. cbn in *. assert (y = y') as -> by nia. f_equal. lia. Qed.

Lemma store_load (l : list Z) i v : 0 <= i < len l ->
  exists l', store l i v = Some l' /\ len l' = len l /\ load l' i = Some v /\ forall j, j <> i -> load l' j = load l j.
Proof.
  intros Hi. exists (<[Z.to_nat i := v]> l). split_and!; [by apply store_Some|by rewrite length_insert| |].
  - unfold load. rewrite (proj2 (Z.leb_le 0 i)) by lia. apply list_lookup_insert_eq. lia.
  - intros j Hj. unfold load. destruct (Z.leb_spec 0 j); [|done]. apply list_lookup_insert_ne. lia.
Qed.

Lemma unpack_pixel_spec y x p : inside (y, x) -> sized p ->
  exists p', unpack_pixel y x p = Some p' /\ sized p' /\ samples_at y x p' = unpacked y x /\
    forall y' x', inside (y', x') -> (y', x') <> (y, x) -> samples_at y' x' p' = samples_at y' x' p.
Proof using All.
  intros Hin (Hg & Hb & Hr). pose proof (inside_offset y x Hin) as Ho. unfold Planes.unpack_pixel. rewrite inside_word by done. cbn [mbind option_bind].
  destruct (store_load (red p) (y * width + x) (u16 (unpack_code c0 (word y x))) ltac:(lia)) as (r & -> & Lr & Hr1 & Hr2).
  destruct (store_load (green p) (y * width + x) (u16 (unpack_code c1 (word y x))) ltac:(lia)) as (g & Eg & Lg & Hg1 & Hg2).
  destruct (store_load (blue p) (y * width + x) (u16 (unpack_code c2 (word y x))) ltac:(lia)) as (b & Eb & Lb & Hb1 & Hb2).
  cbn [mbind option_bind]. rewrite Eg. cbn [mbind option_bind]. rewrite Eb. cbn [mbind option_bind]. eexists. split; [done|].
  split; [unfold sized; cbn; lia|]. split; [unfold samples_at, unpacked; cbn; by rewrite Hr1, Hg1, Hb1|].
  intros y' x' Hin' Hne. assert (y' * width + x' <> y * width + x) by (intros E; by apply Hne, offset_inj). unfold samples_at. cbn. by rewrite Hr2, Hg2, Hb2 by done.
Qed.

(** Any list of pixels, in any order: those of the list are unpacked, the others kept. *)
Lemma unpack_all_spec l p : Forall inside l -> sized p ->
  exists p', unpack_all l p = Some p' /\ sized p' /\
    forall y x, inside (y, x) -> samples_at y x p' = if decide ((y, x) ∈ l) then unpacked y x else samples_at y x p.
Proof using All.
  revert p. induction l as [|[y0 x0] l IH]; intros p Hl Hp; cbn [Planes.unpack_all].
  - exists p. split_and!; [done|done|]. intros y x _. by rewrite decide_False by (apply not_elem_of_nil).
  - apply Forall_cons in Hl as [H0 Hl]. destruct (unpack_pixel_spec y0 x0 p H0 Hp) as (p1 & -> & Hp1 & Hs & Hk). cbn [mbind option_bind].
    destruct (IH p1 Hl Hp1) as (p' & E & Hp' & Hv). exists p'. split_and!; [done|done|]. intros y x Hin. rewrite (Hv y x Hin).
    destruct (decide ((y, x) ∈ l)) as [H|H]; [by rewrite decide_True by (by right)|].
    destruct (decide ((y, x) = (y0, x0))) as [[= -> ->]|Hne]; [rewrite decide_True by (by left); done|].
    rewrite decide_False by (by rewrite elem_of_cons; tauto). by apply Hk.
Qed.

Lemma elem_of_rows a b y x : (y, x) ∈ rows a b <-> a <= y < b /\ 0 <= x < width.
Proof using All.
  unfold Planes.rows. rewrite list_elem_of_In, in_concat. split.
  - intros (l & (y' & <- & Hy%list_elem_of_In%elem_of_seqZ)%in_map_iff & (x' & [= <- <-] & Hx%list_elem_of_In%elem_of_seqZ)%in_map_iff). lia.
  - intros [Hy Hx]. exists (map (fun x => (y, x)) (seqZ 0 width)). split; apply in_map_iff; [exists y|exists x]; (split; [done|]); apply list_elem_of_In, elem_of_seqZ; lia.
Qed.

Lemma rows_app a b c : a <= b <= c -> rows a c = rows a b ++ rows b c.
Proof.
  intros H. unfold Planes.rows. rewrite <-concat_app, <-map_app. f_equal. f_equal. replace (c - a) with ((b - a) + (c - b)) by lia.
  rewrite seqZ_app by lia. do 2 f_equal. lia.
Qed.

(** The workers' rows, one worker after another, are the rows of the frame. *)
Lemma worker_rows_all n : 0 < n < 2 ^ 31 -> concat (map (worker_rows width height n) (seqZ 0 n)) = rows 0 height.
Proof using All.
  intros Hn. assert (forall k : nat, Z.of_nat k <= n -> concat (map (worker_rows width height n) (seqZ 0 (Z.of_nat k))) = rows 0 (height * Z.of_nat k / n)) as H.
  { induction k as [|k IH]; intros Hk; [by rewrite Z.mul_0_r, Z.div_0_l by lia|]. rewrite seqZ_S, map_app, concat_app, IH by lia. cbn [map concat]. rewrite app_nil_r.
    assert (forall j, 0 <= j <= n -> 0 <= height * j / n <= height) as Hdiv.
    { intros j Hj. split; [apply Z.div_pos; nia|]. apply Z.div_le_upper_bound; nia. }
    unfold worker_rows. rewrite !Z.quot_div_nonneg by nia.
    rewrite !swrap_small by (try lia; match goal with |- context [height * ?j / n] => pose proof (Hdiv j ltac:(lia)) end; change (32 - 1) with 31; lia).
    replace (0 + Z.of_nat k) with (Z.of_nat k) by lia. replace (Z.of_nat (S k)) with (Z.of_nat k + 1) by lia.
    symmetry. apply rows_app. split; [by apply Hdiv; lia|]. apply Z.div_le_mono; nia. }
  specialize (H (Z.to_nat n) ltac:(lia)). rewrite Z2Nat.id in H by lia. by rewrite H, Z.div_mul by lia.
Qed.

Lemma rows_inside : Forall inside (rows 0 height).
Proof using All. apply Forall_forall. intros [y x] H. apply elem_of_rows in H. unfold inside. cbn. lia. Qed.

(** Planes of one size that agree on every pixel are equal. *)
Lemma planes_ext p q : sized p -> sized q -> (forall y x, inside (y, x) -> samples_at y x p = samples_at y x q) -> p = q.
Proof using All.
  intros (Hg & Hb & Hr) (Hg' & Hb' & Hr') H.
  assert (forall l l' : list Z, len l = width * height -> len l' = width * height ->
    (forall y x, inside (y, x) -> load l (y * width + x) = load l' (y * width + x)) -> l = l') as Hl.
  { intros l l' E E' Hx. apply list_eq_same_length with (n := Z.to_nat (width * height)); [lia|lia|]. intros k a b Hk Ha Hb0.
    pose proof (Z.div_mod (Z.of_nat k) width ltac:(lia)) as Hd. pose proof (Z.mod_pos_bound (Z.of_nat k) width Hwidth) as Hm.
    specialize (Hx (Z.of_nat k / width) (Z.of_nat k mod width)). replace (Z.of_nat k / width * width + Z.of_nat k mod width) with (Z.of_nat k) in Hx by lia.
    rewrite !load_nat, Ha, Hb0 in Hx. assert (Some a = Some b) as E2; [|by injection E2]. apply Hx. unfold inside. cbn.
    split; [|lia]. split; [apply Z.div_pos; lia|]. apply Z.div_lt_upper_bound; lia. }
  destruct p as [g b r], q as [g' b' r']. unfold samples_at in H. cbn [green blue red] in *.
  f_equal; (apply Hl; [done|done|]); intros y x Hin; specialize (H y x Hin); by injection H.
Qed.
End unpack.

(** C37: Unpacking.  For every frame whose pitch is at least a row, on any number of threads and in any order in which they write their
    pixels, the rows of the workers are the rows of the frame, every access is in bounds, and the planes are those of the single thread:
    at each pixel the red, green and blue samples that its word holds under the channels' masks. *)
Theorem unpack_parallel_exact source width height row_pitch c0 c1 c2 order n p :
  0 < width -> 0 <= height < 2 ^ 31 -> 4 * width <= row_pitch -> row_pitch * height <= len source -> 0 < n < 2 ^ 31 ->
  (forall ls, order ls ≡ₚ concat ls) -> sized width height p ->
  exists q, Planes.unpack_identity_parallel source width row_pitch (c0, c1, c2) order height n p = Some q /\
    Planes.unpack_identity_single source width row_pitch (c0, c1, c2) height p = Some q /\ sized width height q /\
    forall y x, 0 <= y < height -> 0 <= x < width -> samples_at width y x q = unpacked source row_pitch c0 c1 c2 y x.
Proof.
  intros Hw Hh Hp Hs Hn Ho Hz. unfold Planes.unpack_identity_parallel, Planes.unpack_identity_single, Planes.unpack_identity_rows.
  pose proof (rows_inside source width height row_pitch c0 c1 c2 Hw Hh Hp Hs) as Hin.
  pose proof (worker_rows_all source width height row_pitch c0 c1 c2 Hw Hh Hp Hs n Hn) as Hrows.
  set (l := order _). assert (l ≡ₚ Planes.rows width 0 height) as Hl by (unfold l; by rewrite Ho, Hrows).
  assert (Forall (inside width height) l) as Hlin by (by rewrite Hl).
  destruct (unpack_all_spec source width height row_pitch c0 c1 c2 Hw Hh Hp Hs l p Hlin Hz) as (q & Eq & Hq & Vq).
  destruct (unpack_all_spec source width height row_pitch c0 c1 c2 Hw Hh Hp Hs _ p Hin Hz) as (q' & Eq' & Hq' & Vq').
  assert (forall y x, inside width height (y, x) -> (y, x) ∈ Planes.rows width 0 height) as Hall.
  { intros y x [??]. apply (elem_of_rows source width height row_pitch c0 c1 c2 Hw Hh Hp Hs). cbn in *. lia. }
  assert (forall y x, inside width height (y, x) -> samples_at width y x q = unpacked source row_pitch c0 c1 c2 y x) as Hv.
  { intros y x H. rewrite (Vq y x H). rewrite decide_True by (rewrite Hl; by apply Hall). done. }
  exists q. split; [done|]. split; [|split; [done|intros; by apply Hv]]. rewrite Eq'. f_equal.
  apply (planes_ext source width height row_pitch c0 c1 c2 Hw Hh Hp Hs); [done|done|]. intros y x H. rewrite Hv, (Vq' y x H), decide_True by (by try apply Hall). done.
Qed.

(** Two rows of two pixels with a padded pitch, on three threads, the last one first. *)
Lemma unpack_parallel_exact_witness :
  exists q, Planes.unpack_identity_parallel [1; 4; 16; 0; 2; 4; 16; 0; 9; 9; 9; 9; 1; 8; 16; 0; 1; 4; 32; 0; 9; 9; 9; 9] 2 12
      (make_channel 1072693248, make_channel 1047552, make_channel 1023) (fun ls => concat (reverse ls)) 2 3 (Planes.mkPlanes [0; 0; 0; 0] [0; 0; 0; 0] [0; 0; 0; 0]) = Some q /\
    Planes.green q = [1; 1; 2; 1] /\ Planes.blue q = [1; 2; 1; 1] /\ Planes.red q = [1; 1; 1; 2].
Proof.
  destruct (unpack_parallel_exact [1; 4; 16; 0; 2; 4; 16; 0; 9; 9; 9; 9; 1; 8; 16; 0; 1; 4; 32; 0; 9; 9; 9; 9] 2 2 12
    (make_channel 1072693248) (make_channel 1047552) (make_channel 1023) (fun ls => concat (reverse ls)) 3 (Planes.mkPlanes [0; 0; 0; 0] [0; 0; 0; 0] [0; 0; 0; 0]))
    as (q & E & _); [lia|lia|lia|done|lia| |done|].
  { intros ls. induction ls as [|l ls IH]; [done|]. rewrite reverse_cons, concat_app. cbn. by rewrite app_nil_r, IH, Permutation_app_comm. }
  exists q. split; [exact E|]. vm_compute in E. injection E as <-. split_and!; reflexivity.
Defined.

(** ** What the shared memory image leaves *)

(** The constructor leaves nothing behind when it throws, and the destructor nothing when it does not, except the segment itself when
    the kernel refused to mark it for removal, twice. *)
Lemma segment_released a :
  match Segment.construct a with
  | inl s => Segment.live s = [Segment.Image; Segment.Mapping; Segment.Attachment] /\ Segment.live (Segment.cleanup a s) = []
  | inr s => Segment.live s = [] \/ (Segment.live s = [Segment.Memory] /\ Segment.a_remove_again a = false)
  end.
Proof.
  destruct a as [[] bl h [] [] [] [] []]; unfold Segment.construct; cbn [Segment.a_image Segment.a_shmget Segment.a_shmat Segment.a_attach Segment.a_remove negb];
    try (destruct (negb (Segment.valid_size _))); vm_compute; tauto.
Qed.

(** The round trip gives back what it made on every way out but one: the constructor's exception passes it by. *)
Lemma trip_released use_shm t :
  Segment.trip_ends use_shm t = (false, [Segment.Pixmap; Segment.Context; Segment.Source]) \/ (Segment.trip_ends use_shm t).2 = [].
Proof. unfold Segment.trip_ends. repeat case_match; cbn; auto. Qed.

Lemma trip_left_behind :
  Segment.trip_ends true (Segment.mkTrip true true true true (Segment.mkAnswers true 4096 1 false true true true true) true) =
  (false, [Segment.Pixmap; Segment.Context; Segment.Source]).
Proof. by vm_compute. Qed.

(** ** Samples *)

(** The codes that eight bits expand to are those whose two low bits repeat the two high ones. *)
Lemma eight_to_ten_spec v :
  0 <= v < 1024 -> Survey.is_eight_to_ten_expansion v = (Z.land v 3 =? Z.shiftr v 8).
Proof.
  intros Hv. assert (forallb (fun v => Bool.eqb (Survey.is_eight_to_ten_expansion v) (Z.land v 3 =? Z.shiftr v 8)) (seqZ 0 1024) = true) as H by (by vm_compute).
  rewrite forallb_forall in H. assert (v ∈ seqZ 0 1024) as Hin by (apply elem_of_seqZ; lia). apply list_elem_of_In in Hin. by apply Bool.eqb_prop, H.
Qed.

(** The sampling loops end, in bounds. *)
Lemma positions_spec fuel i n step :
  1 <= step -> n - i <= Z.of_nat fuel -> exists l, Survey.positions fuel i n step = Some l /\ Forall (fun x => i <= x < n) l.
Proof.
  revert i. induction fuel as [|f IH]; intros i Hs Hf; cbn [Survey.positions]; (destruct (Z.ltb_spec i n); [|by exists []]); [lia|].
  destruct (IH (i + step) Hs ltac:(lia)) as (l & -> & Hl). cbn [mbind option_bind]. exists (i :: l). split; [done|]. constructor; [lia|].
  eapply Forall_impl; [exact Hl|]. intros x Hx. cbn in Hx. lia.
Qed.

Lemma sampled_inside width height x_parts y_parts :
  exists l, Survey.sampled width height x_parts y_parts = Some l /\ Forall (fun p => 0 <= p.1 < width /\ 0 <= p.2 < height) l.
Proof.
  unfold Survey.sampled.
  destruct (positions_spec (Z.to_nat height) 0 height (Survey.step_of height y_parts) ltac:(unfold Survey.step_of; lia) ltac:(lia)) as (ys & -> & Hy).
  destruct (positions_spec (Z.to_nat width) 0 width (Survey.step_of width x_parts) ltac:(unfold Survey.step_of; lia) ltac:(lia)) as (xs & Ex & Hx).
  cbn [mbind option_bind]. rewrite Ex. cbn [mbind option_bind]. eexists. split; [done|]. apply Forall_concat, Forall_forall.
  intros l (y & <- & Hin)%list_elem_of_In%in_map_iff. apply list_elem_of_In in Hin. rewrite Forall_forall in Hx, Hy. specialize (Hy y Hin).
  apply Forall_forall. intros p (x & <- & Hxin)%list_elem_of_In%in_map_iff. apply list_elem_of_In in Hxin. specialize (Hx x Hxin). cbn in *. lia.
Qed.
