(* ===== verification/VaapiChecks.v ===== *)
(** * VaapiChecks: probes/video/plank-probe-vaapi-dmabuf.cpp

    The probe decodes a bitstream into DMA-BUF surfaces and samples one of them through EGL to
    see whether its bits arrive unchanged.  GStreamer, EGL, GL and the kernel are the
    environment of [Calls]: each call below is one of theirs, by its name or by the handle it
    makes or frees.  A handle is named by the variable that holds it. *)

From stdpp Require Import gmap.
From S2P Require Import Prelude.
From S2P Require Import UhidProbe.
From S2P Require Import ClientSession.
From S2P Require Import Calls.
#[local] Open Scope Z_scope.

Import Reading.

(** ** The environment *)

Inductive handle :=
  | DrmFd | Gbm | Display | Context | VertexShader | FragmentShader | Program | ExternalTexture | OutputTexture
  | Framebuffer | VertexArray | Image | Sample | Pipeline | Source | Sink | Bus | Message
  | ParseError | MessageError | DebugText.

#[export] Instance handle_eq_dec' : EqDecision handle.
Proof. solve_decision. Defined.

Record GstVideoMeta := mkMeta { meta_width : Z; meta_height : Z; n_planes : Z; stride0 : Z; offset0 : Z }.

(** The attributes of an EGL image; [EGL_NONE] ends the list. *)
Inductive attribute :=
  | EGL_WIDTH | EGL_HEIGHT | EGL_LINUX_DRM_FOURCC_EXT | EGL_DMA_BUF_PLANE0_FD_EXT | EGL_DMA_BUF_PLANE0_OFFSET_EXT
  | EGL_DMA_BUF_PLANE0_PITCH_EXT | EGL_DMA_BUF_PLANE0_MODIFIER_LO_EXT | EGL_DMA_BUF_PLANE0_MODIFIER_HI_EXT.

Inductive message_type := MessageEos | MessageOfError.

Inductive request :=
  | Make (h : handle)                               (* whether it was made *)
  | Gen (h : handle)                                (* made in any case *)
  | Free (h : handle)
  | Succeeds (name : string) (on : list handle)     (* whether it succeeded *)
  | Does (name : string) (on : list handle)         (* with no status, or one that is not looked at *)
  | Text (name : string) (on : list handle)         (* a string or null *)
  | Open (path : string)                            (* the descriptor *)
  | CreateImage (attributes : list (attribute * Z)) (* whether there is an image *)
  | DestroyImage                                    (* whether it succeeded *)
  | ReadPixels                                      (* the two packed words *)
  | VideoMeta                                       (* the buffer's video meta or null *)
  | CountMemories
  | MemoryFd (index : Z)
  | GetDescriptorFlags (fd : Z)                     (* whether fcntl does not return -1 *)
  | ParseLaunch (description : string)              (* whether there is a pipeline and an error *)
  | PopMessage.

Definition answers (c : request) : Type :=
  match c with
  | Make _ | Succeeds _ _ | CreateImage _ | DestroyImage | GetDescriptorFlags _ => bool
  | Gen _ | Free _ | Does _ _ => unit
  | Text _ _ => option string
  | Open _ | CountMemories | MemoryFd _ => Z
  | ReadPixels => Z * Z
  | VideoMeta => option GstVideoMeta
  | ParseLaunch _ => bool * bool
  | PopMessage => option message_type
  end.

#[local] Abbreviation proc := (Calls.proc answers).
#[local] Abbreviation ask := (Calls.call (ans := answers)).

(** ** The state *)

(** The part of [ProbeState] that [initialize_egl] fills; the three entry points are set with it. *)
Record Egl := mkEgl { drm_fd : Z; gbm : bool; egl_display : bool; egl_context : bool; gl_renderer : string }.
Definition no_egl : Egl := mkEgl (-1) false false false EmptyString.
(** The samples of the surface and of the shader's output. *)
Record Figures := mkFigures { raw_y : Z; raw_u : Z; raw_v : Z; output_r : Z; output_g : Z; output_b : Z }.
Definition no_figures : Figures := mkFigures 0 0 0 0 0 0.
(** What is kept of the sampled frame. *)
Record Surface := mkSurface {
  drm_format : string; width : Z; height : Z; planes : Z; stride : Z; offset : Z; memories : Z; egl_imported : bool }.
Definition no_surface : Surface := mkSurface EmptyString 0 0 0 0 0 0 false.
Record ProbeState := mkState {
  expected_frames : Z; sample_frame : Z; frames : Z; failed : bool; surface : Surface;
  identity_shader_passed : bool; figures : Figures }.

(** ** Setting up and shutting down EGL *)

Definition required_egl : list string :=
  ["EGL_EXT_image_dma_buf_import"; "EGL_EXT_image_dma_buf_import_modifiers"; "EGL_KHR_no_config_context"; "EGL_KHR_surfaceless_context"]%string.
Definition required_gl : list string := ["GL_OES_EGL_image"; "GL_OES_EGL_image_external_essl3"]%string.
Definition has_all (extensions : option string) (names : list string) : bool := forallb (fun n => has_extension extensions (Some n)) names.

Definition initialize_egl (render_node : string) : proc (bool * Egl) :=
  fd ← ask (Open render_node);
  if fd <? 0 then mret (false, mkEgl fd false false false EmptyString) else
  gbm ← ask (Make Gbm);
  if negb gbm then mret (false, mkEgl fd false false false EmptyString) else
  display ← ask (Make Display);
  if negb display then mret (false, mkEgl fd true false false EmptyString) else
  initialized ← ask (Succeeds "eglInitialize" [Display]);
  if negb initialized then mret (false, mkEgl fd true true false EmptyString) else
  extensions ← ask (Text "EGL_EXTENSIONS" [Display]);
  if negb (has_all extensions required_egl) then mret (false, mkEgl fd true true false EmptyString) else
  create ← ask (Succeeds "eglCreateImageKHR" []);
  destroy ← ask (Succeeds "eglDestroyImageKHR" []);
  target ← ask (Succeeds "glEGLImageTargetTexture2DOES" []);
  if negb (create && destroy && target) then mret (false, mkEgl fd true true false EmptyString) else
  bound ← ask (Succeeds "eglBindAPI" []);
  if negb bound then mret (false, mkEgl fd true true false EmptyString) else
  context ← ask (Make Context);
  if negb context then mret (false, mkEgl fd true true false EmptyString) else
  current ← ask (Succeeds "eglMakeCurrent" [Display; Context]);
  if negb current then mret (false, mkEgl fd true true true EmptyString) else
  gl_extensions ← ask (Text "GL_EXTENSIONS" [Context]);
  renderer ← ask (Text "GL_RENDERER" [Context]);
  match renderer with
  | Some renderer =>
      if has_all gl_extensions required_gl then
        released ← ask (Succeeds "eglMakeCurrent" [Display]); mret (released, mkEgl fd true true true renderer)
      else mret (false, mkEgl fd true true true EmptyString)
  | None => mret (false, mkEgl fd true true true EmptyString)
  end.

Definition shutdown_egl (e : Egl) : proc unit :=
  (if egl_display e then
     ask (Does "eglMakeCurrent" [Display]);;
     (if egl_context e then ask (Free Context) else mret tt);;
     ask (Free Display)
   else mret tt);;
  (if gbm e then ask (Free Gbm) else mret tt);;
  (if 0 <=? drm_fd e then ask (Free DrmFd) else mret tt).

(** ** Sampling the surface *)

(** Zero, that is no shader, is [false]. *)
Definition compile_shader (shader : handle) : proc bool :=
  ask (Gen shader);;
  compiled ← ask (Succeeds "GL_COMPILE_STATUS" [shader]);
  if compiled : bool then mret true else ask (Free shader);; mret false.

Definition field (word : Z) (shift : Z) : Z := Z.land (Z.shiftr word shift) 1023.
(** XR30's R:G:B are Y410's V:Y:U; the first pixel is raw, the second the output. *)
Definition read_figures (pixels : Z * Z) : Figures :=
  mkFigures (field pixels.1 10) (field pixels.1 20) (field pixels.1 0) (field pixels.2 0) (field pixels.2 10) (field pixels.2 20).
Definition figures_match (f : Figures) : bool := (output_r f =? raw_v f) && (output_g f =? raw_y f) && (output_b f =? raw_u f).

(** The figures it leaves, if it comes to them, and its result. *)
Definition sample_identity_shader (before : Figures) : proc (bool * Figures) :=
  current ← ask (Succeeds "eglMakeCurrent" [Display; Context]);
  if negb current then mret (false, before) else
  vertex_shader ← compile_shader VertexShader;
  fragment_shader ← compile_shader FragmentShader;
  if negb (vertex_shader && fragment_shader) then ask (Does "eglMakeCurrent" [Display]);; mret (false, before) else
  ask (Gen Program);;
  ask (Free VertexShader);;
  ask (Free FragmentShader);;
  linked ← ask (Succeeds "GL_LINK_STATUS" [Program]);
  if negb linked then ask (Free Program);; ask (Does "eglMakeCurrent" [Display]);; mret (false, before) else
  ask (Gen ExternalTexture);;
  ask (Does "glEGLImageTargetTexture2DOES" [ExternalTexture; Image]);;
  ask (Gen OutputTexture);;
  ask (Gen Framebuffer);;
  ask (Does "glFramebufferTexture2D" [Framebuffer; OutputTexture]);;
  no_error ← ask (Succeeds "glGetError" []);
  complete ← (if no_error : bool then ask (Succeeds "glCheckFramebufferStatus" [Framebuffer]) else mret false);
  '(valid, pixels) ←
    (if complete : bool then
       ask (Gen VertexArray);;
       ask (Does "glDrawArrays" [Program; VertexArray; ExternalTexture; Framebuffer]);;
       pixels ← ask ReadPixels;
       valid ← ask (Succeeds "glGetError" []);
       ask (Free VertexArray);;
       mret (valid : bool, pixels : Z * Z)
     else mret (false, (0, 0)));
  ask (Free Framebuffer);;
  ask (Free OutputTexture);;
  ask (Free ExternalTexture);;
  ask (Free Program);;
  ask (Does "eglMakeCurrent" [Display]);;
  if negb valid then mret (false, before)
  else let f := read_figures pixels in mret (figures_match f, f).

(** fourcc_code('X', 'R', '3', '0'). *)
Definition DRM_FORMAT_XRGB2101010 : Z := 808669784.

Definition image_attributes (fd : Z) (m : GstVideoMeta) (modifier : Z) : list (attribute * Z) :=
  [(EGL_WIDTH, s32 (meta_width m)); (EGL_HEIGHT, s32 (meta_height m)); (EGL_LINUX_DRM_FOURCC_EXT, s32 DRM_FORMAT_XRGB2101010);
   (EGL_DMA_BUF_PLANE0_FD_EXT, fd); (EGL_DMA_BUF_PLANE0_OFFSET_EXT, s32 (offset0 m)); (EGL_DMA_BUF_PLANE0_PITCH_EXT, stride0 m);
   (EGL_DMA_BUF_PLANE0_MODIFIER_LO_EXT, modifier_lo modifier); (EGL_DMA_BUF_PLANE0_MODIFIER_HI_EXT, modifier_hi modifier)].

(** Whether the image was imported, sampled and destroyed; [identity_shader_passed] and the figures. *)
Definition import_egl_image (fd : Z) (m : GstVideoMeta) (format : string) (passed : bool) (before : Figures) : proc (bool * bool * Figures) :=
  match drm_modifier format with
  | None => mret (false, passed, before)
  | Some modifier =>
      image ← ask (CreateImage (image_attributes fd m modifier));
      if negb image then mret (false, passed, before) else
      '(passed, f) ← sample_identity_shader before;
      destroyed ← ask DestroyImage;
      mret (passed && destroyed, passed, f)
  end.

(** ** The samples of the sink *)

Inductive flow := GST_FLOW_OK | GST_FLOW_EOS | GST_FLOW_ERROR.

(** The memories from [index] on: whether all are DMA-BUFs with a live descriptor, and the first one. *)
Fixpoint check_memories (count : nat) (index : Z) (first_fd : Z) : proc (bool * Z) :=
  match count with
  | O => mret (true, first_fd)
  | S count =>
      dmabuf ← ask (Succeeds "gst_is_dmabuf_memory" [Sample]);
      if negb dmabuf then mret (false, first_fd) else
      fd ← ask (MemoryFd index);
      let first_fd := if index =? 0 then fd else first_fd in
      open_ ← (if fd <? 0 then mret false else ask (GetDescriptorFlags fd));
      if negb open_ then mret (false, first_fd) else check_memories count (index + 1) first_fd
  end.

(** What the sample holds: its meta, format and number of memories, whether they are those of
    a Y410 DMA-BUF, and the first descriptor. *)
Definition inspect_sample : proc (option (GstVideoMeta * string) * Z * bool * Z) :=
  buffer ← ask (Succeeds "gst_sample_get_buffer" [Sample]);
  caps ← ask (Succeeds "gst_sample_get_caps" [Sample]);
  meta ← (if buffer : bool then ask VideoMeta else mret None);
  structure ← (if caps : bool then ask (Succeeds "gst_caps_get_structure" [Sample]) else mret false);
  format ← (if structure : bool then ask (Text "drm-format" [Sample]) else mret None);
  memory_count ← (if buffer : bool then ask CountMemories else mret 0);
  match meta, format with
  | Some meta, Some format =>
      if String.prefix "Y410" format && (0 <? memory_count) then
        '(valid, first_fd) ← check_memories (Z.to_nat memory_count) 0 (-1);
        mret (Some (meta, format), memory_count, valid, first_fd)
      else mret (Some (meta, format), memory_count, false, -1)
  | _, _ => mret (None, memory_count, false, -1)
  end.

(** The frame to sample is imported and described; the others pass. *)
Definition sample_surface (found : option (GstVideoMeta * string)) (memory_count : Z) (valid : bool) (first_fd frame_number : Z)
    (s : ProbeState) : proc (bool * ProbeState) :=
  match found with
  | Some (m, format) =>
      if (frame_number =? sample_frame s) && valid then
        '(imported, passed, f) ← import_egl_image first_fd m format (identity_shader_passed s) (figures s);
        mret (imported, mkState (expected_frames s) (sample_frame s) (frames s) (failed s)
          (mkSurface format (meta_width m) (meta_height m) (n_planes m) (stride0 m) (offset0 m) memory_count imported) passed f)
      else mret (valid, s)
  | None => mret (valid, s)
  end.

Definition on_new_sample (s : ProbeState) : proc (flow * ProbeState) :=
  pulled ← ask (Make Sample);
  if negb pulled then
    mret (GST_FLOW_ERROR, mkState (expected_frames s) (sample_frame s) (frames s) true (surface s) (identity_shader_passed s) (figures s))
  else
  '(found, memory_count, valid, first_fd) ← inspect_sample;
  let frame_number := u64 (frames s + 1) in
  '(valid, s) ← sample_surface found memory_count valid first_fd frame_number s;
  let s := mkState (expected_frames s) (sample_frame s) frame_number (failed s || negb valid) (surface s) (identity_shader_passed s) (figures s) in
  ask (Free Sample);;
  mret (if negb valid then GST_FLOW_ERROR else if expected_frames s <=? frame_number then GST_FLOW_EOS else GST_FLOW_OK, s).

(** The sink's callbacks, [n] of them. *)
Fixpoint stream (n : nat) (s : ProbeState) : proc ProbeState :=
  match n with O => mret s | S n => '(_, s) ← on_new_sample s; stream n s end.

(** ** The program *)

Definition description : string :=
  "filesrc name=input ! h265parse ! vah265dec ! video/x-raw(memory:DMABuf) ! appsink name=dmabuf_sink".

(** Frame count, sample frame and render node; [None]: it returns 2. *)
Definition read_arguments (args : list string) : option (Z * Z * string) :=
  let node := "/dev/dri/renderD128"%string in
  '(expected, sample, node) ←
    match args with
    | [_] => Some (1, 1, node)
    | [_; f] => e ← parse_positive f; Some (e, 1, node)
    | [_; f; s] => e ← parse_positive f; n ← parse_positive s; Some (e, n, node)
    | [_; f; s; node] => e ← parse_positive f; n ← parse_positive s; Some (e, n, node)
    | _ => None
    end;
  if expected <? sample then None else Some (expected, sample, node).

Definition passed (reached_eos : bool) (s : ProbeState) : bool :=
  reached_eos && negb (failed s) && (frames s =? expected_frames s) && egl_imported (surface s) && identity_shader_passed s.

(** The pipeline runs until an error or the end of the stream is posted. *)
Definition play (n : nat) (s : ProbeState) : proc (bool * ProbeState) :=
  started ← ask (Succeeds "GST_STATE_PLAYING" [Pipeline; Sink]);
  s ← stream n s;
  ask (Gen Bus);;
  message ← ask PopMessage;
  (match message with Some MessageOfError => ask (Gen MessageError);; ask (Gen DebugText);; ask (Free MessageError);; ask (Free DebugText) | _ => mret tt end);;
  (match message with Some _ => ask (Free Message) | None => mret tt end);;
  ask (Does "GST_STATE_NULL" [Pipeline]);;
  ask (Free Bus);;
  ask (Free Sink);;
  ask (Free Pipeline);;
  mret (match message with Some MessageEos => started | _ => false end, s).

Definition main (args : list string) (n : nat) : proc Z :=
  match read_arguments args with
  | None => mret 2
  | Some (expected, sample, node) =>
      '(pipeline, error) ← ask (ParseLaunch description);
      if negb pipeline || error then
        (if error : bool then ask (Free ParseError) else mret tt);;
        (if pipeline : bool then ask (Free Pipeline) else mret tt);; mret 3
      else
      source ← ask (Make Source);
      sink ← ask (Make Sink);
      if negb (source && sink) then
        (if source : bool then ask (Free Source) else mret tt);;
        (if sink : bool then ask (Free Sink) else mret tt);;
        ask (Free Pipeline);; mret 3
      else
      '(ready, egl) ← initialize_egl node;
      if negb ready then
        shutdown_egl egl;; ask (Free Source);; ask (Free Sink);; ask (Free Pipeline);; mret 4
      else
      ask (Free Source);;
      '(reached_eos, s) ← play n (mkState expected sample 0 false no_surface false no_figures);
      shutdown_egl egl;;
      mret (if passed reached_eos s then 0 else 1)
  end.

(** ** Handles *)

#[export] Instance vaapi_handling : Handling answers handle := {
  handle_eq_dec := _;
  made c := match c with
    | Make h => fun a => if a then [h] else []
    | Gen h => fun _ => [h]
    | Open _ => fun fd => if fd <? 0 then [] else [DrmFd]
    | CreateImage _ => fun a => if a then [Image] else []
    | ParseLaunch _ => fun a => (if a.1 then [Pipeline] else []) ++ (if a.2 then [ParseError] else [])
    | PopMessage => fun m => match m with Some _ => [Message] | None => [] end
    | _ => fun _ => []
    end;
  freed c := match c with Free h => [h] | DestroyImage => [Image] | _ => [] end;
  needed c := match c with
    | Succeeds _ on | Does _ on | Text _ on => on
    | CreateImage _ => [Display]
    | DestroyImage => [Display; Image]
    | ReadPixels => [Framebuffer; VertexArray]
    | VideoMeta | CountMemories | MemoryFd _ | GetDescriptorFlags _ => [Sample]
    | PopMessage => [Bus]
    | _ => []
    end;
  parents h := match h with
    | Gbm => [DrmFd] | Display => [Gbm] | Context => [Display] | Image => [Display]
    | VertexShader | FragmentShader | Program | ExternalTexture | OutputTexture | Framebuffer | VertexArray => [Context]
    | Source | Sink | Bus => [Pipeline] | Sample => [Sink]
    | _ => []
    end;
  (* a context takes its objects with it *)
  dies_with h := match h with
    | VertexShader | FragmentShader | Program | ExternalTexture | OutputTexture | Framebuffer | VertexArray => [Context]
    | _ => []
    end }.

#[local] Arguments has_all : simpl never.
#[local] Arguments has_extension : simpl never.
#[local] Arguments drm_modifier : simpl never.
#[local] Arguments read_arguments : simpl never.
#[local] Arguments String.prefix : simpl never.

#[local] Abbreviation watching := (wp handling).

(** What [initialize_egl] holds, each thing made from the next. *)
Definition egl_live (e : Egl) : list handle :=
  (if egl_context e then [Context] else []) ++ (if egl_display e then [Display] else []) ++ (if gbm e then [Gbm] else []) ++
  (if drm_fd e <? 0 then [] else [DrmFd]).
Definition chained (e : Egl) : bool :=
  implb (egl_context e) (egl_display e) && implb (egl_display e) (gbm e) && implb (gbm e) (negb (drm_fd e <? 0)).
Definition ready_live : list handle := [Context; Display; Gbm; DrmFd].
(** A shader whose companion does not compile stays with the context. *)
Definition leaks (leak : list handle) : Prop := leak = [] \/ leak = [VertexShader] \/ leak = [FragmentShader].
Definition running : list handle := ready_live ++ [Sink; Pipeline].

Lemma initialize_egl_live node : 
  watching (initialize_egl node)
    (fun r live => live = egl_live r.2 ++ [Sink; Source; Pipeline] /\ chained r.2 = true /\ (r.1 = true -> egl_live r.2 = ready_live))
    [Sink; Source; Pipeline].
Proof. unfold initialize_egl. ask_all; (split_and!; [reflexivity..|done]). Qed.

Lemma shutdown_egl_live e leak held : leaks leak -> chained e = true -> (leak <> [] -> egl_live e = ready_live) ->
  held = [] \/ held = [Sink; Source; Pipeline] ->
  watching (shutdown_egl e) (fun _ live => live = held) (leak ++ egl_live e ++ held).
Proof.
  destruct e as [fd g d c r]. unfold shutdown_egl, chained, egl_live. cbn [egl_display egl_context gbm drm_fd].
  intros Hleak Hchain Hready Hheld. destruct fd, g, d, c; try discriminate Hchain; clear Hchain;
    destruct Hleak as [->|[->| ->]]; try (exfalso; by discriminate (Hready ltac:(discriminate)));
    destruct Hheld as [->| ->]; ask_all; reflexivity.
Qed.

Lemma import_live fd m format passed before :
  watching (import_egl_image fd m format passed before) (fun _ live => exists leak, leaks leak /\ live = leak ++ Sample :: running) (Sample :: running).
Proof.
  unfold import_egl_image, leaks. destruct (drm_modifier format) as [modifier|]; [|cbn; by exists []; split; [left|]].
  unfold sample_identity_shader, compile_shader. ask_all.
  all: match goal with |- context [VertexShader :: Sample :: _] => exists [VertexShader] | |- context [FragmentShader :: Sample :: _] => exists [FragmentShader] | _ => exists [] end.
  all: split; [tauto|reflexivity].
Qed.

Lemma check_memories_live count index first_fd leak : leaks leak ->
  watching (check_memories count index first_fd) (fun _ live => live = Sample :: leak ++ running) (Sample :: leak ++ running).
Proof.
  intros Hleak. revert index first_fd. induction count as [|count IH]; intros index first_fd; [done|]. cbn [check_memories].
  destruct Hleak as [->|[->| ->]]; ask_all; try reflexivity; apply IH.
Qed.

Lemma inspect_sample_live leak : leaks leak ->
  watching inspect_sample (fun _ live => live = Sample :: leak ++ running) (Sample :: leak ++ running).
Proof.
  intros Hleak. assert (forall count, watching (check_memories count 0 (-1)) (fun _ live => live = Sample :: leak ++ running) (Sample :: leak ++ running)) as Hcheck
    by (intros; by apply check_memories_live).
  unfold inspect_sample. destruct Hleak as [->|[->| ->]]; ask_all; try reflexivity.
  all: (eapply wp_then; [apply Hcheck|]; intros [? ?] ? ->; reflexivity).
Qed.

(** While a callback holds its sample, in the frame of this number. *)
Definition holding (frame_number : Z) (s : ProbeState) (live : list handle) : Prop :=
  exists leak, leaks leak /\ (live = leak ++ Sample :: running \/ live = Sample :: leak ++ running) /\ (leak <> [] -> sample_frame s <= frame_number).

Lemma sample_surface_live found count valid fd s leak : leaks leak -> (leak <> [] -> sample_frame s <= frames s) ->
  watching (sample_surface found count valid fd (frames s + 1) s)
    (fun r live => holding (frames s + 1) r.2 live /\ frames r.2 = frames s) (Sample :: leak ++ running).
Proof.
  intros Hleak Hlate. unfold sample_surface.
  assert (forall v : bool, watching (mret (v, s)) (fun r live => holding (frames s + 1) r.2 live /\ frames r.2 = frames s) (Sample :: leak ++ running)) as Hpass.
  { intros v. split; [|done]. exists leak. split_and!; [done|by right|]. intros H. specialize (Hlate H). cbn. lia. }
  destruct found as [[m format]|]; [|apply Hpass]. destruct (_ && valid) eqn:E; [|apply Hpass].
  destruct leak as [|h leak]; [|exfalso; specialize (Hlate ltac:(done)); lia].
  eapply wp_then; [apply import_live|]. intros [[imported passed] f] live (l & Hl & ->). cbn. split; [|done].
  exists l. split_and!; [done|by left|cbn; lia].
Qed.

(** Between two callbacks, after [n] of them. *)
Definition between (n : Z) (s : ProbeState) (live : list handle) : Prop :=
  0 <= frames s <= n /\ exists leak, leaks leak /\ live = leak ++ running /\ (leak <> [] -> sample_frame s <= frames s).

Lemma on_new_sample_live n s live : between n s live -> n < 2 ^ 64 - 1 ->
  watching (on_new_sample s) (fun r live => between (n + 1) r.2 live) live.
Proof.
  intros (Hf & leak & Hleak & -> & Hlate) Hn. unfold on_new_sample. rewrite !(wrap_small 64 (frames s + 1)) by (ranges; lia).
  eapply (wp_then _ _ _ (fun a live => live = (if a : bool then [Sample] else []) ++ leak ++ running)).
  { destruct Hleak as [->|[->| ->]]; ask_all; reflexivity. }
  intros pulled live ->. destruct (pulled : bool); cbn [negb app].
  2:{ split; [cbn; lia|]. by exists leak. }
  eapply wp_then; [by apply inspect_sample_live|]. intros [[[found count] valid] fd] live ->.
  eapply wp_then; [by apply sample_surface_live|]. intros [v s'] live ((l & Hl & Hlive & Hlate') & Hframes). cbn [snd] in *.
  apply wp_bind. assert (watching (ask (Free Sample)) (fun _ live => live = l ++ running) live) as Hfree
    by (destruct Hl as [->|[->| ->]], Hlive as [->| ->]; ask_all; reflexivity).
  eapply wp_mono; [exact Hfree|]. intros _ ? ->. split; [cbn; lia|]. by exists l.
Qed.

Lemma stream_live m n s live : between n s live -> n + Z.of_nat m < 2 ^ 64 ->
  watching (stream m s) (fun s live => between (n + Z.of_nat m) s live) live.
Proof.
  revert n s live. induction m as [|m IH]; intros n s live Hb Hn; cbn [stream]; [by rewrite Z.add_0_r|].
  eapply wp_then; [apply (on_new_sample_live n); [done|lia]|]. intros [fl s'] live' Hb'.
  eapply wp_mono; [apply (IH (n + 1)); [done|lia]|]. intros s'' live''. by rewrite Nat2Z.inj_succ, <- Z.add_1_l, Z.add_assoc.
Qed.

Lemma play_live m s : frames s = 0 -> Z.of_nat m < 2 ^ 64 ->
  watching (play m s) (fun _ live => exists leak, leaks leak /\ live = leak ++ ready_live) running.
Proof.
  intros Hs Hm. unfold play. eapply (wp_then _ _ _ (fun _ live => live = running)); [ask_all; reflexivity|]. intros started live ->.
  eapply wp_then; [apply (stream_live m 0); [|lia]|].
  { split; [lia|]. exists []. split_and!; [by left|done|by intros []]. }
  intros s' live (_ & leak & Hleak & -> & _). destruct Hleak as [->|[->| ->]]; ask_all.
  all: match goal with |- context [VertexShader :: _] => exists [VertexShader] | |- context [FragmentShader :: _] => exists [FragmentShader] | _ => exists [] end.
  all: split; [unfold leaks; tauto|reflexivity].
Qed.

(** Whatever the drivers answer, the probe gives back everything it acquired: every handle
    is made once, used and freed only while it is live, freed before what it was made from, and
    nothing is live when [main] returns. *)
Theorem dmabuf_balanced args n tr r : Z.of_nat n < 2 ^ 64 -> runs (main args n) tr r -> balanced tr.
Proof.
  intros Hn. apply balanced_intro. unfold main. destruct (read_arguments args) as [[[expected sample] node]|]; [|done].
  ask_all; try reflexivity.
  all: eapply wp_then; [apply initialize_egl_live|]; intros [ready egl] live (-> & Hchain & Hready); cbn [fst snd] in *; destruct ready.
  - specialize (Hready eq_refl). rewrite Hready. ask_all. change (watching (play n (mkState expected sample 0 false no_surface false no_figures) ≫=
      (fun '(reached_eos, s) => shutdown_egl egl;; mret (if passed reached_eos s then 0 else 1))) (fun _ live => live = []) running).
    eapply wp_then; [by apply play_live|]. intros [reached s] live (leak & Hleak & ->). rewrite <- (app_nil_r ready_live), <- Hready.
    eapply wp_then; [apply shutdown_egl_live; [done..|by left]|]. by intros _ live ->.
  - eapply wp_then; [apply (shutdown_egl_live egl [] [Sink; Source; Pipeline]); [by left|done..|by right]|].
    intros _ live ->. ask_all. reflexivity.
Qed.

(** ** The gate *)

(** The answer that every step of the probe hopes for. *)
Definition sound (c : request) : answers c -> bool :=
  match c with
  | Make _ | Succeeds _ _ | CreateImage _ | DestroyImage | GetDescriptorFlags _ => fun a => a
  | Gen _ | Free _ | Does _ _ => fun _ => true
  | Text name _ => fun a =>
      if String.eqb name "drm-format" then match a with Some format => String.prefix "Y410" format | None => false end
      else if String.eqb name "EGL_EXTENSIONS" then has_all a required_egl
      else if String.eqb name "GL_EXTENSIONS" then has_all a required_gl
      else match a with Some _ => true | None => false end
  | Open _ | MemoryFd _ => fun fd => negb (fd <? 0)
  | CountMemories => fun count => 0 <? count
  | ReadPixels => fun pixels => figures_match (read_figures pixels)
  | VideoMeta => fun m => match m with Some _ => true | None => false end
  | ParseLaunch _ => fun a => a.1 && negb a.2
  | PopMessage => fun m => match m with Some MessageEos => true | _ => false end
  end.

(** Answers that were not hoped for, and images asked for. *)
Record judgement := mkJudgement { flaws : nat; images : nat }.
Definition judge (m : judgement) (c : request) (a : answers c) : option judgement :=
  Some (mkJudgement (if sound c a then flaws m else S (flaws m)) (match c with CreateImage _ => S (images m) | _ => images m end)).

#[local] Abbreviation judging := (wp judge).
#[local] Arguments figures_match : simpl never.
#[local] Arguments read_figures : simpl never.

(** The words of the pixels are judged as they are. *)
Ltac judged a := let T := type of a in let T := eval hnf in T in change T in a; lazymatch T with prod Z Z => idtac | _ => split_answer a end.
Ltac compute_judgement x :=
  let y := eval cbv beta iota zeta delta [judge sound flaws images fst snd negb andb String.eqb Ascii.eqb Bool.eqb Z.ltb Z.compare] in x in change x with y;
  repeat match goal with |- match ?x with Some _ => _ | None => False end => match x with context [if ?b then _ else _] => destruct b eqn:? end end.
Ltac judge_all := ask_with judged compute_judgement.

Lemma initialize_egl_judged node f i :
  judging (initialize_egl node) (fun r m => images m = i /\ (if r.1 then flaws m = f else (f < flaws m)%nat)) (mkJudgement f i).
Proof. unfold initialize_egl. judge_all; cbn; split; lia. Qed.

Lemma shutdown_egl_judged e m : judging (shutdown_egl e) (fun _ m' => m' = m) m.
Proof. destruct e as [fd g d c r], m. unfold shutdown_egl. cbn [egl_display egl_context gbm drm_fd]. judge_all; reflexivity. Qed.

(** An import either asks for an image and hears only good answers, or it fails. *)
Lemma import_judged fd m format passed before f i :
  judging (import_egl_image fd m format passed before)
    (fun r m => if r.1.1 then m = mkJudgement f (S i) /\ r.1.2 = true else (f < flaws m)%nat \/ m = mkJudgement f i) (mkJudgement f i).
Proof.
  unfold import_egl_image. destruct (drm_modifier format) as [modifier|]; [|by right].
  unfold sample_identity_shader, compile_shader. judge_all; cbn; try (left; lia); done.
Qed.

Lemma check_memories_judged count index first_fd f i :
  judging (check_memories count index first_fd) (fun r m => images m = i /\ (if r.1 then flaws m = f else (f < flaws m)%nat)) (mkJudgement f i).
Proof.
  revert index first_fd. induction count as [|count IH]; intros index first_fd; [done|]. cbn [check_memories].
  judge_all; try apply IH; cbn; split; lia.
Qed.

Lemma inspect_sample_judged f i :
  judging inspect_sample (fun r m => images m = i /\ let '(found, _, valid, _) := r in
    if valid then flaws m = f /\ found <> None else (f < flaws m)%nat) (mkJudgement f i).
Proof.
  unfold inspect_sample. judge_all; try (cbn; split; lia).
  eapply wp_then; [apply check_memories_judged|]. intros [valid fd] m [Hi Hm]. split; [done|]. destruct valid; cbn in *; [done|lia].
Qed.

(** After [n] callbacks that began with [b] flaws. *)
Definition tallied (b : nat) (n : Z) (s : ProbeState) (m : judgement) : Prop :=
  (b <= flaws m)%nat /\ 0 <= frames s <= n /\ (flaws m = b -> frames s = n) /\
  (failed s = false -> flaws m = b) /\
  (flaws m = b -> failed s = true -> images m = 0%nat /\ sample_frame s <= n) /\
  (failed s = false -> egl_imported (surface s) = (1 <=? sample_frame s) && (sample_frame s <=? n) /\
     identity_shader_passed s = egl_imported (surface s) /\ images m = (if egl_imported (surface s) then 1 else 0)%nat).

(** Either this frame is imported, with good answers only or in vain, or it passes. *)
Definition surfaced (fn : Z) (valid : bool) (s : ProbeState) (f i : nat) (r : bool * ProbeState) (m : judgement) : Prop :=
  (expected_frames r.2 = expected_frames s /\ sample_frame r.2 = sample_frame s /\ frames r.2 = frames s /\ failed r.2 = failed s) /\
  if (fn =? sample_frame s) && valid then
    egl_imported (surface r.2) = r.1 /\
    if r.1 then m = mkJudgement f (S i) /\ identity_shader_passed r.2 = true else (f < flaws m)%nat \/ m = mkJudgement f i
  else r = (valid, s) /\ m = mkJudgement f i.

Lemma sample_surface_judged found count valid fd fn s f i : (valid = true -> found <> None) ->
  judging (sample_surface found count valid fd fn s) (surfaced fn valid s f i) (mkJudgement f i).
Proof.
  intros Hv. unfold sample_surface, surfaced. destruct found as [[m format]|].
  2:{ destruct valid; [by destruct (Hv eq_refl)|]. cbn. rewrite andb_false_r. split_and!; done. }
  destruct ((fn =? sample_frame s) && valid) eqn:E; [|done].
  eapply wp_then; [apply import_judged|]. intros [[imported passed] fg] m' Hi. cbn in *. split_and!; [done..|].
  destruct imported; [|done]. by destruct Hi as [-> ->].
Qed.

Ltac tally := unfold tallied; cbn [fst snd frames flaws failed images sample_frame surface identity_shader_passed negb];
  rewrite ?orb_false_r, ?orb_true_r; repeat match goal with H : _ = failed _ |- _ => rewrite H | H : failed _ = _ |- _ => rewrite H end.

Lemma on_new_sample_tallied b n s m : 0 <= n -> n < 2 ^ 64 - 1 -> tallied b n s m ->
  judging (on_new_sample s) (fun r m => tallied b (n + 1) r.2 m /\ sample_frame r.2 = sample_frame s /\ expected_frames r.2 = expected_frames s) m.
Proof.
  intros Hn Hm. destruct m as [f i]. intros (Hb & Hf & Hall & Hgood & Hbad & Himp). cbn [flaws images] in *. unfold on_new_sample.
  rewrite !(wrap_small 64 (frames s + 1)) by (ranges; lia).
  eapply (wp_then _ _ _ (fun a m => m = mkJudgement (if a : bool then f else S f) i)); [intros a; done|].
  intros pulled m ->. destruct (pulled : bool); cbn [negb].
  2:{ cbn. split_and!; [|done..]. unfold tallied; cbn. split_and!; lia || done. }
  eapply wp_then; [apply inspect_sample_judged|]. intros [[[found count] valid] fd] [f' i'] [Hi Hv]. cbn [flaws images] in Hi, Hv. subst i'.
  eapply wp_then; [apply sample_surface_judged; destruct valid; [by intros _; apply Hv|done]|]. intros [v s'] m' [(He & Hs & Hfr & Hfa) Hcase]. cbn [fst snd] in *.
  intros []. cbn [judge sound]. cbn [wp mret proc_ret snd sample_frame expected_frames]. split_and!; [|done..].
  replace (mkJudgement (flaws m') (images m')) with m' by (by destruct m').
  destruct ((frames s + 1 =? sample_frame s) && valid) eqn:E.
  - assert (valid = true) as -> by lia. destruct Hv as [-> _]. destruct Hcase as [Hei Hcase].
    destruct v; [destruct Hcase as [-> Hid]|]; tally.
    all: destruct (failed s), (egl_imported (surface s)), (egl_imported (surface s')), (identity_shader_passed s');
      try discriminate; cbn in *; try (destruct Hcase as [?| ->]); cbn in *; try lia.
  - destruct Hcase as [Hr ->]. injection Hr as -> ->. tally.
    destruct valid; destruct (failed s), (egl_imported (surface s)), (identity_shader_passed s); try discriminate; cbn in *; try lia.
Qed.

Lemma stream_tallied b k n s m : 0 <= n -> n + Z.of_nat k < 2 ^ 64 -> tallied b n s m ->
  judging (stream k s) (fun s' m => tallied b (n + Z.of_nat k) s' m /\ sample_frame s' = sample_frame s /\ expected_frames s' = expected_frames s) m.
Proof.
  revert n s m. induction k as [|k IH]; intros n s m H0 Hn Ht; cbn [stream]; [by rewrite Z.add_0_r|].
  eapply wp_then; [apply (on_new_sample_tallied b n); [lia..|done]|]. intros [fl s'] m' (Ht' & Hs & He). cbn [snd] in *.
  eapply wp_mono; [apply (IH (n + 1)); [lia..|done]|]. intros s'' m'' (Ht'' & Hs' & He'). rewrite Hs', He'.
  split; [|done]. by replace (n + Z.of_nat (S k)) with (n + 1 + Z.of_nat k) by lia.
Qed.

Lemma play_judged k s f : Z.of_nat k < 2 ^ 64 -> frames s = 0 -> failed s = false -> surface s = no_surface -> identity_shader_passed s = false ->
  1 <= sample_frame s ->
  judging (play k s) (fun r m => expected_frames r.2 = expected_frames s /\ exists b m', (f <= b)%nat /\ tallied b (Z.of_nat k) r.2 m' /\ images m = images m' /\
    (flaws m' <= flaws m)%nat /\ (r.1 = true <-> b = f /\ flaws m = flaws m')) (mkJudgement f 0).
Proof.
  intros Hk Hfr Hfa Hsu Hid Hsam. unfold play. eapply (wp_then _ _ _ (fun a m => m = mkJudgement (if a : bool then f else S f) 0)); [by intros []|].
  intros started m ->. eapply wp_then; [apply (stream_tallied (if started : bool then f else S f) _ 0); [lia|lia|]|].
  { unfold tallied. rewrite Hfr, Hfa, Hsu, Hid. cbn. split_and!; lia || done. }
  intros s' [f1 i1] (Ht & Hs & He). rewrite Z.add_0_l in Ht.
  judge_all.
  all: cbn; split; [done|]; exists (if started : bool then f else S f), (mkJudgement f1 i1); cbn.
  all: destruct Ht as [Hb Ht]; split_and!; [by destruct started; lia|by split|try done; lia..|].
  all: destruct (started : bool); split; intros; lia || done || congruence || (split; lia).
  Unshelve.
Qed.

Lemma parse_positive_positive text v : parse_positive text = Some v -> 1 <= v.
Proof.
  unfold parse_positive. destruct (whole_number text 10) as [w|] eqn:E; [|done]. cbn. destruct (w =? 0) eqn:E0; [done|].
  intros [= <-]. apply whole_number_range in E; lia.
Qed.

Lemma read_arguments_sample args expected sample node : read_arguments args = Some (expected, sample, node) -> 1 <= sample <= expected.
Proof.
  unfold read_arguments. destruct args as [|a0 [|a1 [|a2 [|a3 [|a4 args]]]]]; try done; cbn [mbind option_bind].
  all: repeat match goal with |- context [parse_positive ?t] => destruct (parse_positive t) eqn:?; cbn [mbind option_bind]; [|done] end.
  all: repeat match goal with H : parse_positive _ = Some _ |- _ => apply parse_positive_positive in H end.
  all: destruct (_ <? _) eqn:E; [done|]; intros [= <- <- <-]; lia.
Qed.

Lemma main_judged args n : Z.of_nat n < 2 ^ 64 ->
  judging (main args n) (fun r m => r = 0 <-> (exists sample node, read_arguments args = Some (Z.of_nat n, sample, node)) /\ m = mkJudgement 0 1)
    (mkJudgement 0 0).
Proof.
  intros Hn. unfold main. destruct (read_arguments args) as [[[expected sample] node]|] eqn:Hargs.
  2:{ cbn. split; [lia|]. by intros [(? & ? & ?) _]. }
  apply read_arguments_sample in Hargs.
  judge_all; try (split; [lia|intros [_ ?]; congruence]).
  eapply wp_then; [apply initialize_egl_judged|]. intros [ready egl] [f i] [Hi Hf]. cbn in Hi, Hf. subst i. destruct ready; reduce_proc.
  2:{ eapply wp_then; [apply shutdown_egl_judged|]. intros _ m ->. judge_all. split; [lia|]. by intros [_ [=]]. }
  subst f. judge_all. eapply wp_then; [apply play_judged; try done; cbn; lia|].
  intros [reached s] m (He & b & m' & Hb & Ht & Him & Hfl & Hr). cbn [fst snd expected_frames] in *.
  eapply wp_then; [apply shutdown_egl_judged|]. intros _ m1 ->. destruct m as [f i], m' as [f' i']. cbn [flaws images] in *. cbn. subst i'.
  destruct Ht as (H1 & H2 & H3 & H4 & H5 & H6). cbn [flaws images] in *. unfold passed. rewrite He.
  transitivity (expected = Z.of_nat n /\ f = 0%nat /\ i = 1%nat).
  - destruct reached, (failed s), (egl_imported (surface s)), (identity_shader_passed s); cbn [negb andb]; rewrite ?andb_false_r, ?andb_true_r; cbn [andb].
    all: destruct (frames s =? expected) eqn:E; lia.
  - split.
    + intros (-> & -> & ->). split; [|done]. by exists sample, node.
    + intros [(? & ? & [= -> _ _]) [= -> ->]]. done.
Qed.

(** The judgement counts: the answers that were not hoped for, and the images asked for. *)
Definition sound_event (e : event answers) : bool := sound (projT1 e) (projT2 e).
Definition is_image (e : event answers) : bool := match projT1 e with CreateImage _ => true | _ => false end.

Lemma observe_judge tr m : observe judge m tr = Some (mkJudgement (flaws m + length (List.filter (fun e => negb (sound_event e)) tr)) (images m + length (List.filter is_image tr))).
Proof.
  revert m. induction tr as [|[c a] tr IH]; intros [f i]; cbn [observe].
  - cbn. by rewrite !Nat.add_0_r.
  - transitivity (observe judge (mkJudgement (if sound c a then f else S f) (match c with CreateImage _ => S i | _ => i end)) tr); [done|]. rewrite IH. cbn [flaws images List.filter]. unfold sound_event, is_image. cbn [projT1 projT2].
    destruct (sound c a), c; cbn [negb length]; do 2 f_equal; lia.
Qed.


Lemma three_fields p : p mod 1073741824 = p mod 1024 + 1024 * ((p / 1024) mod 1024) + 1048576 * ((p / 1048576) mod 1024).
Proof. Z.div_mod_to_equations. lia. Qed.

(** What the figures say: the shader's output has the thirty bits of the surface's word. *)
Lemma figures_match_words p q : figures_match (read_figures (p, q)) = true <-> p mod 2 ^ 30 = q mod 2 ^ 30.
Proof.
  unfold figures_match, read_figures, field. cbn [output_r output_g output_b raw_v raw_y raw_u fst snd].
  change 1023 with (Z.ones 10). rewrite !Z.land_ones, !Z.shiftr_div_pow2 by lia. change (2 ^ 0) with 1. rewrite !Z.div_1_r.
  change (2 ^ 10) with 1024. change (2 ^ 20) with 1048576. change (2 ^ 30) with 1073741824. rewrite (three_fields p), (three_fields q).
  pose proof (Z.mod_pos_bound p 1024). pose proof (Z.mod_pos_bound q 1024).
  pose proof (Z.mod_pos_bound (p / 1024) 1024). pose proof (Z.mod_pos_bound (q / 1024) 1024).
  rewrite !andb_true_iff, !Z.eqb_eq. generalize dependent (p mod 1024). generalize dependent (q mod 1024).
  generalize dependent ((p / 1024) mod 1024). generalize dependent ((q / 1024) mod 1024).
  generalize ((p / 1048576) mod 1024) ((q / 1048576) mod 1024). intros. lia.
Qed.

(** ** Runs *)

(** Drivers with nothing to object to; the shader sees [pixels]. *)
Definition drivers (pixels : Z * Z) (_ : unit) (c : request) : answers c * unit :=
  (match c return answers c with
   | Make _ | Succeeds _ _ | CreateImage _ | DestroyImage | GetDescriptorFlags _ => true
   | Gen _ | Free _ | Does _ _ => tt
   | Text name _ =>
       if String.eqb name "drm-format" then Some "Y410:0x100000000000002"%string
       else Some (if String.eqb name "EGL_EXTENSIONS" then "EGL_EXT_image_dma_buf_import EGL_EXT_image_dma_buf_import_modifiers EGL_KHR_no_config_context EGL_KHR_surfaceless_context"
            else if String.eqb name "GL_EXTENSIONS" then "GL_OES_EGL_image GL_OES_EGL_image_external_essl3" else "renderer")%string
   | Open _ => 3 | MemoryFd _ => 7 | CountMemories => 1
   | ReadPixels => pixels
   | VideoMeta => Some (mkMeta 3840 2160 1 15360 0)
   | ParseLaunch _ => (true, false)
   | PopMessage => Some MessageEos
   end, tt).
Definition run_probe (pixels : Z * Z) (args : list string) (n : nat) : list (event answers) * Z := run (drivers pixels) (main args n) tt.

Example sampled_second : (run_probe (2 ^ 31 + 77, 77) ["clip"; "2"; "2"]%string 2).2 = 0.
Proof. vm_compute. reflexivity. Qed.
Example converted_sample : (run_probe (77, 78) ["clip"; "2"; "2"]%string 2).2 = 1.
Proof. vm_compute. reflexivity. Qed.
Example too_few_frames : (run_probe (77, 77) ["clip"; "3"; "2"]%string 2).2 = 1.
Proof. vm_compute. reflexivity. Qed.


Lemma dmabuf_balanced_witness :
  let t := run_probe (77, 78) ["clip"; "2"; "2"]%string 2 in Z.of_nat 2 < 2 ^ 64 /\ runs (main ["clip"; "2"; "2"]%string 2) t.1 t.2 /\ balanced t.1.
Proof. intros t. split; [lia|]. split; [apply run_runs|]. apply (dmabuf_balanced ["clip"; "2"; "2"]%string 2 t.1 t.2); [lia|apply run_runs]. Defined.
