(* ===== verification/NvfbcProbes.v ===== *)
(** * NvfbcProbes: probes/nvfbc/plank-capture-nvfbc-raw.cpp and plank-probe-nvfbc.cpp

    The capture that writes raw frames to its output, converted on the device when asked
    ([Raw]), and the probe that times captures and judges their timestamps ([Probe]).  CUDA,
    NvFBC, the clock and the output are the environment of [Calls]; device memory is a list of
    bytes, and the threads of a launch run in the order the environment answers. *)

From stdpp Require Import gmap sorting.
From S2P Require Import Prelude.
From S2P Require Import Endian.
From S2P Require Import Float32.
From S2P Require Import Calls.
From S2P Require Import BenchX264.
From S2P Require Import Playback.
From S2P Require Import VideoPipeline.
From S2P Require Import VideoSetup.
From Stdlib Require Import SpecFloat.
#[local] Open Scope Z_scope.

(** ** The drivers *)

Inductive handle := CudaLoader | CudaContext | CudaModule | FbcLibrary | FbcHandle | FbcCapture | HostBuffer | ConvertedBuffer.

#[export] Instance handle_eq_dec : EqDecision handle.
Proof. solve_decision. Defined.

(** What a status query and a grabbed frame report; a null device buffer is [None]. *)
Record status_info := mkStatus { bIsCapturePossible : bool; bCanCreateNow : bool; outputs : list (string * Z) }.
Record grab_info := mkGrab {
  device_buffer : option (list Z); dwWidth : Z; dwHeight : Z; dwByteSize : Z; bIsNewFrame : bool; dwMissedFrames : Z; ulTimestampUs : Z }.

Inductive request :=
  | Make (h : handle)
  | Free (h : handle)
  | Succeeds (name : string) (on : list handle)
  | GetStatus
  | CreateCapture (tracked : option Z)      (* an output, or the screen *)
  | Grab                                    (* the status and what it filled in *)
  | Alloc (h : handle) (size : Z)           (* the memory, as it is found *)
  | Launch (threads : Z)                    (* whether launch and synchronisation succeeded; the order of the threads *)
  | Copy (size : Z)
  | Write (data : list Z)
  | Now.                                    (* the steady clock, in nanoseconds *)

Definition answers (c : request) : Type :=
  match c with
  | Make _ | Succeeds _ _ | CreateCapture _ | Copy _ | Write _ => bool
  | Free _ => unit
  | GetStatus => option status_info
  | Grab => bool * grab_info
  | Alloc _ _ => option (list Z)
  | Launch _ => bool * list Z
  | Now => Z
  end.

#[local] Abbreviation proc := (Calls.proc answers).
#[local] Abbreviation ask := (Calls.call (ans := answers)).

(** How a process ends; [Terminated] is an exception that nobody catches, [Undefined] an access
    outside an object. *)
Inductive outcome := Exit (code : Z) | Terminated | Undefined.

(** A call that fills a member, or one that is only required to succeed, with the exit code of
    its failure: the calls in order, up to the first that fails. *)
Inductive step := Acquire (h : handle) (code : Z) | Require (name : string) (on : list handle) (code : Z).
Fixpoint perform (steps : list step) (held : list handle) : proc (list handle * option Z) :=
  match steps with
  | [] => mret (held, None)
  | Acquire h code :: steps => ok ← ask (Make h); if ok : bool then perform steps (h :: held) else mret (held, Some code)
  | Require name on code :: steps => ok ← ask (Succeeds name on); if ok : bool then perform steps held else mret (held, Some code)
  end.

(** Clean-up in a fixed order of the members that are set. *)
Fixpoint release (order held : list handle) : proc unit :=
  match order with
  | [] => mret tt
  | h :: order => (if bool_decide (h ∈ held) then ask (Free h) else mret tt);; release order held
  end.

#[export] Instance nvfbc_handling : Handling answers handle := {
  handle_eq_dec := _;
  made c := match c with
    | Make h => fun a => if a then [h] else []
    | CreateCapture _ => fun a => if a then [FbcCapture] else []
    | Alloc h _ => fun a => match a with Some _ => [h] | None => [] end
    | _ => fun _ => []
    end;
  freed c := match c with Free h => [h] | _ => [] end;
  needed c := match c with
    | Succeeds _ on => on
    | GetStatus => [FbcHandle]
    | CreateCapture _ => [FbcHandle]
    | Grab => [FbcCapture; CudaContext]
    | Alloc _ _ => [CudaContext]
    | Launch _ => [CudaModule; ConvertedBuffer]
    | Copy _ => [HostBuffer]
    | Write _ => [HostBuffer]
    | _ => []
    end;
  parents h := match h with
    | CudaContext => [CudaLoader] | CudaModule | HostBuffer | ConvertedBuffer => [CudaContext]
    | FbcHandle => [FbcLibrary] | FbcCapture => [FbcHandle] | _ => []
    end;
  dies_with _ := [] }.

(** ** The raw capture *)

Module Raw.

(** *** Kernels *)

(** The expansion to ten bits in PTX: the low ten bits of a sixteen-bit sample. *)
Definition expand10 (v : Z) : Z :=
  let ge (limit : Z) := if limit <=? v then 1 else 0 in
  let r := u32 (Z.shiftl v 2) in
  let r := u32 (r + ge 43) in
  let r := u32 (r + ge 128) in
  u32 (r + ge 213).

Definition bgra8_to_gbr8 (source : list Z) (pixel_count ctaid ntid tid : Z) (destination : list Z) : option (list Z) :=
  let index := u32 (ctaid * ntid + tid) in
  if pixel_count <=? index then Some destination
  else
    let address := index * 4 in
    r6 ← load source address; r7 ← load source (address + 1); r8 ← load source (address + 2);
    let rd7 := index in
    d ← Conversion.st_global 1 destination rd7 r7;
    let rd8 := u64 (rd7 + pixel_count) in
    d ← Conversion.st_global 1 d rd8 r6;
    let rd9 := u64 (rd8 + pixel_count) in
    Conversion.st_global 1 d rd9 r8.
Definition bgra8_to_gbr10 (source : list Z) (pixel_count ctaid ntid tid : Z) (destination : list Z) : option (list Z) :=
  let index := u32 (ctaid * ntid + tid) in
  if pixel_count <=? index then Some destination
  else
    let address := index * 4 in
    r6 ← load source address; r7 ← load source (address + 1); r8 ← load source (address + 2);
    let rd7 := u64 (Z.shiftl pixel_count 1) in
    let rd8 := index * 2 in
    d ← Conversion.st_global 2 destination rd8 (expand10 r7);
    let rd9 := u64 (rd8 + rd7) in
    d ← Conversion.st_global 2 d rd9 (expand10 r6);
    let rd10 := u64 (rd9 + rd7) in
    Conversion.st_global 2 d rd10 (expand10 r8).

(** *** Arguments *)

Inductive OutputFormat := kBgra | kGbrIdentity8 | kGbrIdentity10.
Definition output_format_name (format : OutputFormat) : string :=
  match format with kBgra => "bgra" | kGbrIdentity8 => "yuv444p-gbr-identity" | kGbrIdentity10 => "yuv444p10le-gbr-identity" end.

Record Options := mkOptions { output_name : string; frame_count : Z; frame_rate : Z; output_format : OutputFormat }.
Definition default_options : Options := mkOptions "DP-2" 600 60 kBgra.

(** [None]: an exception. *)
Definition parse_unsigned (value : string) (maximum : Z) : option Z :=
  v ← stoul value; if (v =? 0) || (maximum <? v) then None else Some (u32 v).
Definition parse_format (format : string) : option OutputFormat :=
  if String.eqb format "bgra" then Some kBgra
  else if String.eqb format "gbr-identity8" then Some kGbrIdentity8
  else if String.eqb format "gbr-identity10" then Some kGbrIdentity10
  else None.

(** The exceptions of the arguments are thrown before the [try]: nobody catches them. *)
Fixpoint option_loop (arguments : list string) (o : Options) : Options + outcome :=
  match arguments with
  | [] => inl o
  | argument :: rest =>
      match rest with
      | value :: rest =>
          if String.eqb argument "--output" then option_loop rest (mkOptions value (frame_count o) (frame_rate o) (output_format o))
          else if String.eqb argument "--frames" then
            match parse_unsigned value 36000 with
            | Some v => option_loop rest (mkOptions (output_name o) v (frame_rate o) (output_format o))
            | None => inr Terminated
            end
          else if String.eqb argument "--fps" then
            match parse_unsigned value 240 with
            | Some v => option_loop rest (mkOptions (output_name o) (frame_count o) v (output_format o))
            | None => inr Terminated
            end
          else if String.eqb argument "--format" then
            match parse_format value with
            | Some f => option_loop rest (mkOptions (output_name o) (frame_count o) (frame_rate o) f)
            | None => inr Terminated
            end
          else inr (Exit 2)
      | [] => inr (Exit 2)
      end
  end.

(** *** Setting up *)

Definition kernel_name (format : OutputFormat) : string :=
  match format with kGbrIdentity8 => "bgra8_to_gbr8" | _ => "bgra8_to_gbr10" end.
Definition converts (format : OutputFormat) : bool := match format with kBgra => false | _ => true end.

Definition setup_calls (format : OutputFormat) : list step :=
  [Acquire CudaLoader 1; Require "cuInit" [CudaLoader] 1; Require "cuDeviceGet" [CudaLoader] 1; Acquire CudaContext 1]%string ++
  (if converts format then [Acquire CudaModule 1; Require (kernel_name format) [CudaModule] 1] else []) ++
  [Acquire FbcLibrary 1; Require "NvFBCCreateInstance" [FbcLibrary] 1; Require "create_instance" [FbcLibrary] 1; Acquire FbcHandle 1]%string.

(** The first output of that name. *)
Fixpoint find_output (name : string) (outputs : list (string * Z)) : option Z :=
  match outputs with [] => None | (n, id) :: outputs => if String.eqb name n then Some id else find_output name outputs end.

Definition setup (o : Options) : proc (list handle * option Z) :=
  '(held, failure) ← perform (setup_calls (output_format o)) [];
  match failure with
  | Some code => mret (held, Some code)
  | None =>
      status ← ask GetStatus;
      match status with
      | None => mret (held, Some 1)
      | Some status =>
          if negb (bCanCreateNow status) then mret (held, Some 1)
          else
            match find_output (output_name o) (outputs status) with
            | None => mret (held, Some 1)
            | Some id =>
                created ← ask (CreateCapture (Some id));
                if negb created then mret (held, Some 1)
                else
                  ready ← ask (Succeeds "nvFBCToCudaSetUp" [FbcCapture]);
                  mret (FbcCapture :: held, if ready : bool then None else Some 1)
            end
      end
  end.

(** *** Frames *)

(** What the first frame fixes: the geometry, the bytes of an output frame and the memory for
    the conversion. *)
Record session := mkSession { width : Z; height : Z; capture_bytes : Z; output_bytes : Z; converted : list Z }.

Definition bytes_per_pixel (format : OutputFormat) : Z := match format with kGbrIdentity8 => 3 | _ => 6 end.
Definition frame_bytes (format : OutputFormat) (info : grab_info) : Z :=
  match format with
  | kBgra => dwByteSize info
  | _ => u64 (u64 (dwWidth info * dwHeight info) * bytes_per_pixel format)
  end.

(** Allocation at the first frame; later ones must have its geometry. *)
Definition prepare (format : OutputFormat) (info : grab_info) (s : option session) (held : list handle) : proc (list handle * option session) :=
  match s with
  | Some s =>
      mret (held, if negb (dwWidth info =? width s) || negb (dwHeight info =? height s) || negb (dwByteSize info =? capture_bytes s) then None else Some s)
  | None =>
      let bytes := frame_bytes format info in
      memory ← (if converts format then ask (Alloc ConvertedBuffer bytes) else mret (Some []));
      match memory with
      | None => mret (held, None)
      | Some memory =>
          let held := if converts format then ConvertedBuffer :: held else held in
          host ← ask (Alloc HostBuffer bytes);
          match host with
          | None => mret (held, None)
          | Some _ => mret (HostBuffer :: held, Some (mkSession (dwWidth info) (dwHeight info) (dwByteSize info) bytes memory))
          end
      end
  end.

(** The conversion's launch: the memory after it, unless it failed or went astray. *)
Definition convert (format : OutputFormat) (source : list Z) (s : session) : proc (option (option session)) :=
  let pixel_count := u32 (width s * height s) in
  let threads := 256 in
  let blocks := u32 (pixel_count + threads - 1) / threads in
  '(ok, order) ← ask (Launch (blocks * threads));
  if negb ok then mret (Some None)
  else
    let kernel := match format with kGbrIdentity8 => bgra8_to_gbr8 | _ => bgra8_to_gbr10 end in
    match Conversion.threads_loop (fun block tid => kernel source pixel_count block threads tid) order (converted s) with
    | None => mret None
    | Some memory => mret (Some (Some (mkSession (width s) (height s) (capture_bytes s) (output_bytes s) memory)))
    end.

(** One frame: the session after it; [inr]: how the loop ends. *)
Definition capture_frame (format : OutputFormat) (s : option session) (held : list handle) : proc (list handle * (session + outcome)) :=
  '(ok, info) ← ask Grab;
  match device_buffer info with
  | Some buffer =>
      if negb ok || (dwByteSize info =? 0) then mret (held, inr (Exit 1)) else
      '(held, s) ← prepare format info s held;
      match s with
      | None => mret (held, inr (Exit 1))
      | Some s =>
          converted_ ← (if converts format then convert format buffer s else mret (Some (Some s)));
          match converted_ with
          | None => mret (held, inr Undefined)
          | Some None => mret (held, inr (Exit 1))
          | Some (Some s) =>
              match copy_from (if converts format then converted s else buffer) 0 (output_bytes s) with
              | None => mret (held, inr Undefined)
              | Some data =>
                  copied ← ask (Copy (output_bytes s));
                  if negb copied then mret (held, inr (Exit 1)) else
                  written ← ask (Write data);
                  mret (held, if written : bool then inl s else inr (Exit 1))
              end
          end
      end
  | None => mret (held, inr (Exit 1))
  end.

Fixpoint frames_loop (n : nat) (format : OutputFormat) (s : option session) (held : list handle) : proc (list handle * outcome) :=
  match n with
  | O => mret (held, Exit 0)
  | S n =>
      '(held, r) ← capture_frame format s held;
      match r with inl s => frames_loop n format (Some s) held | inr out => mret (held, out) end
  end.

(** [~Resources]. *)
Definition destroy_order : list handle :=
  [ConvertedBuffer; HostBuffer; FbcCapture; FbcHandle; FbcLibrary; CudaModule; CudaContext; CudaLoader].

Definition main (arguments : list string) : proc outcome :=
  match option_loop arguments default_options with
  | inr out => mret out
  | inl o =>
      '(held, failure) ← setup o;
      '(held, out) ← match failure with
        | Some code => mret (held, Exit code)
        | None => frames_loop (Z.to_nat (frame_count o)) (output_format o) None held
        end;
      release destroy_order held;;
      mret out
  end.
End Raw.

(** ** The timing probe *)

Module Probe.

(** Constants of NvFBC.h. *)
Record header := mkHeader { NVFBC_VERSION_MAJOR : Z; NVFBC_VERSION_MINOR : Z; NVFBC_BUFFER_FORMAT_BGRA : Z; NVFBC_BUFFER_FORMAT_ARGB : Z }.
Definition self_test (h : header) : Z :=
  if (NVFBC_VERSION_MAJOR h =? 1) && (9 <=? NVFBC_VERSION_MINOR h) && negb (NVFBC_BUFFER_FORMAT_BGRA h =? NVFBC_BUFFER_FORMAT_ARGB h) then 0 else 1.

Record Options := mkOptions { frame_count : Z; target_fps : Z; status_only : bool }.
Definition default_options : Options := mkOptions 120 60 false.

(** The number is cut to 32 bits before its range is checked. *)
Definition parse_limited (text : string) (maximum : Z) : option Z :=
  v ← stoul text; let v := u32 v in if (v =? 0) || (maximum <? v) then None else Some v.

Inductive parsed := Run (o : Options) | Return (code : Z).
Fixpoint option_loop (h : header) (arguments : list string) (o : Options) : parsed :=
  match arguments with
  | [] => Run o
  | argument :: rest =>
      if String.eqb argument "--self-test" then Return (self_test h)
      else if String.eqb argument "--status-only" then option_loop h rest (mkOptions (frame_count o) (target_fps o) true)
      else match rest with
      | value :: rest =>
          if String.eqb argument "--frames" then
            match parse_limited value 600 with Some v => option_loop h rest (mkOptions v (target_fps o) (status_only o)) | None => Return 2 end
          else if String.eqb argument "--fps" then
            match parse_limited value 240 with Some v => option_loop h rest (mkOptions (frame_count o) v (status_only o)) | None => Return 2 end
          else Return 2
      | [] => Return 2
      end
  end.

Definition setup_calls : list step :=
  [Acquire CudaLoader 3; Require "cuInit" [CudaLoader] 3; Require "cuDeviceGet" [CudaLoader] 4; Require "cuDeviceGetName" [CudaLoader] 4;
   Acquire CudaContext 4; Acquire FbcLibrary 5; Require "NvFBCCreateInstance" [FbcLibrary] 6; Require "create_instance" [FbcLibrary] 7;
   Acquire FbcHandle 8]%string.

(** Up to the capture session; the second component: the run ends here with this code. *)
Definition setup (o : Options) : proc (list handle * option Z) :=
  '(held, failure) ← perform setup_calls [];
  match failure with
  | Some code => mret (held, Some code)
  | None =>
      status ← ask GetStatus;
      match status with
      | None => mret (held, Some 9)
      | Some status =>
          if negb (bIsCapturePossible status) || negb (bCanCreateNow status) then mret (held, Some 10)
          else if status_only o then mret (held, Some 0)
          else
            created ← ask (CreateCapture None);
            if negb created then mret (held, Some 11)
            else
              ready ← ask (Succeeds "nvFBCToCudaSetUp" [FbcCapture]);
              mret (FbcCapture :: held, if ready : bool then None else Some 12)
      end
  end.

Record counters := mkCounters {
  deadline_misses : Z; driver_missed_frames : Z; new_frames : Z; zero_timestamps : Z; future_timestamps : Z; nonmonotonic_timestamps : Z;
  previous_timestamp_us : Z; capture_times_us : list Z; frame_ages_us : list Z }.
Definition no_counters : counters := mkCounters 0 0 0 0 0 0 0 [] [].

(** A grabbed frame with the clock before and after. *)
Record sighting := mkSighting { capture_started : Z; capture_finished : Z; info : grab_info }.

Definition frame_age_us (f : sighting) : Z := Z.quot (capture_finished f) 1000 - s64 (ulTimestampUs (info f)).

(** What a frame adds; [None] is an overflow of the signed age. *)
Definition count_frame (deadline : Z) (f : sighting) (c : counters) : option counters :=
  let i := info f in
  let times := capture_times_us c ++ [Z.quot (capture_finished f - capture_started f) 1000] in
  let new := u32 (new_frames c + if bIsNewFrame i then 1 else 0) in
  let missed := u64 (driver_missed_frames c + dwMissedFrames i) in
  let late := if deadline <? capture_finished f then u32 (deadline_misses c + 1) else deadline_misses c in
  if negb (bIsNewFrame i) then
    Some (mkCounters late missed new (zero_timestamps c) (future_timestamps c) (nonmonotonic_timestamps c) (previous_timestamp_us c) times (frame_ages_us c))
  else if ulTimestampUs i =? 0 then
    Some (mkCounters late missed new (u32 (zero_timestamps c + 1)) (future_timestamps c) (nonmonotonic_timestamps c) (previous_timestamp_us c) times (frame_ages_us c))
  else
    let age := frame_age_us f in
    if (age <? - 2 ^ 63) || (2 ^ 63 <=? age) then None
    else
      Some (mkCounters late missed new (zero_timestamps c)
        (if age <? 0 then u32 (future_timestamps c + 1) else future_timestamps c)
        (if negb (previous_timestamp_us c =? 0) && (ulTimestampUs i <? previous_timestamp_us c) then u32 (nonmonotonic_timestamps c + 1) else nonmonotonic_timestamps c)
        (ulTimestampUs i) times (frame_ages_us c ++ [age])).

Definition frame_period (o : Options) : Z := Z.quot 1000000000 (target_fps o).

(** The loop: the counters, or how the run ends. *)
Fixpoint frames_loop (n : nat) (o : Options) (run_started frame : Z) (c : counters) : proc (counters + outcome) :=
  match n with
  | O => mret (inl c)
  | S n =>
      started ← ask Now;
      '(ok, i) ← ask Grab;
      finished ← ask Now;
      if negb ok then mret (inr (Exit 13))
      else
        match device_buffer i with
        | None => mret (inr (Exit 14))
        | Some _ =>
            if (dwWidth i =? 0) || (dwHeight i =? 0) then mret (inr (Exit 14))
            else
              match count_frame (run_started + frame_period o * (frame + 1)) (mkSighting started finished i) c with
              | None => mret (inr Undefined)
              | Some c => frames_loop n o run_started (frame + 1) c
              end
        end
  end.

(** *** The gates *)

(** 0.99 as the compiler reads it. *)
Definition nearly_one : spec_float := double_div (double_of_int 99) (double_of_int 100).
Definition achieved_fps (o : Options) (elapsed_ns : Z) : spec_float :=
  double_div (double_of_int (frame_count o)) (double_div (double_of_int elapsed_ns) (double_of_int 1000000000)).
Definition performance_pass (o : Options) (elapsed_ns : Z) (c : counters) : bool :=
  SFleb (double_mul (double_of_int (target_fps o)) nearly_one) (achieved_fps o elapsed_ns) &&
  (Report.percentile (capture_times_us c) 95 <=? Z.quot 1000000 (target_fps o)) &&
  (deadline_misses c <=? Z.max 1 (frame_count o / 100)).
Definition timestamp_pass (c : counters) : bool :=
  let sorted := merge_sort Z.le (frame_ages_us c) in
  match sorted with
  | [] => false
  | front :: _ => (len sorted =? new_frames c) && (0 <=? front) && (List.last sorted 0 <=? 1000000) &&
      (future_timestamps c =? 0) && (nonmonotonic_timestamps c =? 0)
  end.

Definition judged_run (o : Options) : proc outcome :=
  run_started ← ask Now;
  r ← frames_loop (Z.to_nat (frame_count o)) o run_started 0 no_counters;
  match r with
  | inr out => mret out
  | inl c =>
      run_finished ← ask Now;
      mret (Exit (if negb (performance_pass o (run_finished - run_started) c) then 15 else if negb (timestamp_pass c) then 16 else 0))
  end.

Definition cleanup_order : list handle := [FbcCapture; FbcHandle; FbcLibrary; CudaContext; CudaLoader].

Definition main (h : header) (arguments : list string) : proc outcome :=
  match option_loop h arguments default_options with
  | Return code => mret (Exit code)
  | Run o =>
      '(held, ended) ← setup o;
      out ← (match ended with Some code => mret (Exit code) | None => judged_run o end);
      release cleanup_order held;;
      mret out
  end.
End Probe.

(** ** The raw frames *)

Import Raw.

(** The byte of the pixel's channel that goes to plane [p], and the sample it becomes: itself,
    or rounded from [v / 255] to [v' / 1023]. *)
Definition reference (format : OutputFormat) (v : Z) : Z := match format with kGbrIdentity10 => (v * 1023 + 127) / 255 | _ => v end.
Definition sample_size (format : OutputFormat) : nat := match format with kGbrIdentity10 => 2 | _ => 1 end.

(** What one frame of output is: the captured bytes, or three planes of samples in the order
    green, blue, red. *)
Definition picture (format : OutputFormat) (info : grab_info) (data : list Z) : Prop :=
  exists buffer, device_buffer info = Some buffer /\
  match format with
  | kBgra => data = take (Z.to_nat (dwByteSize info)) buffer
  | _ =>
      let count := dwWidth info * dwHeight info in
      len data = 3 * (Z.of_nat (sample_size format) * count) /\
      forall p k, 0 <= p <= 2 -> 0 <= k < count -> exists v, load buffer (4 * k + channel p) = Some v /\
        sample (sample_size format) data (Z.of_nat (sample_size format) * (p * count + k)) = Some (reference format v)
  end.

Lemma expand10_exact v : is_byte v -> expand10 v = (v * 1023 + 127) / 255.
Proof.
  intros Hv. apply Z.eqb_eq. revert Hv. apply (byte_forall (fun v => expand10 v =? (v * 1023 + 127) / 255)). by vm_compute.
Qed.

Section conversion.
Context (format : OutputFormat) (source : list Z) (count : Z).
Hypothesis (Hformat : converts format = true) (Hcount : 0 < count < 2 ^ 31) (Hbytes : bytes source) (Hsource : 4 * count <= len source).
#[local] Abbreviation n := (sample_size format).
#[local] Abbreviation plane := (Z.of_nat n * count).
#[local] Abbreviation kernel := (match format with kGbrIdentity8 => bgra8_to_gbr8 | _ => bgra8_to_gbr10 end).

Definition converted_sample (i p : Z) : Z := reference format (nth (Z.to_nat (4 * i + channel p)) source 0).

Lemma channel_byte i p : 0 <= i < count -> 0 <= p <= 2 ->
  load source (4 * i + channel p) = Some (nth (Z.to_nat (4 * i + channel p)) source 0) /\ is_byte (nth (Z.to_nat (4 * i + channel p)) source 0).
Proof using All.
  intros Hi Hp. apply source_byte; [done|]. unfold channel. assert (p = 0 \/ p = 1 \/ p = 2) as [->|[->| ->]] by lia; cbn; lia.
Qed.

Lemma kernel_thread t d : 0 <= t < 2 ^ 32 ->
  kernel source count (t / 256) 256 (t mod 256) d =
    if count <=? t then Some d
    else d1 ← Conversion.st_global n d (at_plane n plane 0 t) (converted_sample t 0);
      d2 ← Conversion.st_global n d1 (at_plane n plane 1 t) (converted_sample t 1);
      Conversion.st_global n d2 (at_plane n plane 2 t) (converted_sample t 2).
Proof using All.
  intros Ht. assert (t / 256 * 256 + t mod 256 = t) as Ht' by (rewrite Z.mul_comm; symmetry; apply Z.div_mod; lia).
  assert (count <= t \/ forall p, 0 <= p <= 2 -> load source (t * 4 + channel p) = Some (nth (Z.to_nat (4 * t + channel p)) source 0) /\
    is_byte (nth (Z.to_nat (4 * t + channel p)) source 0)) as Hl.
  { destruct (decide (count <= t)); [by left|right]. intros p Hp. rewrite (Z.mul_comm t 4). apply channel_byte; lia. }
  unfold converted_sample, at_plane. destruct format; [done|..]; unfold bgra8_to_gbr8, bgra8_to_gbr10; rewrite Ht', (wrap_small 32 t) by (ranges; lia).
  all: destruct (Z.leb_spec count t); [done|]; destruct Hl as [|Hl]; [lia|].
  all: pose proof (Hl 1 ltac:(lia)) as [H0 B0]; pose proof (Hl 0 ltac:(lia)) as [H1 B1]; pose proof (Hl 2 ltac:(lia)) as [H2 B2];
    change (channel 0) with 1 in *; change (channel 1) with 0 in *; change (channel 2) with 2 in *; rewrite Z.add_0_r in H0.
  all: cbn [sample_size reference]; rewrite H0, H1, H2; cbn [mbind option_bind]; rewrite ?expand10_exact by done; rewrite ?Z.shiftl_mul_pow2 by lia.
  all: change (2 ^ 1) with 2 in *; rewrite ?(wrap_small 64 (count * 2)), ?(wrap_small 64 (t + count)), ?(wrap_small 64 (t * 2 + count * 2)), wrap_small by (ranges; lia).
  - replace (Z.of_nat 1 * t + 0 * (Z.of_nat 1 * count)) with t by lia. replace (Z.of_nat 1 * t + 1 * (Z.of_nat 1 * count)) with (t + count) by lia.
    by replace (Z.of_nat 1 * t + 2 * (Z.of_nat 1 * count)) with (t + count + count) by lia.
  - replace (Z.of_nat 2 * t + 0 * (Z.of_nat 2 * count)) with (t * 2) by lia. replace (Z.of_nat 2 * t + 1 * (Z.of_nat 2 * count)) with (t * 2 + count * 2) by lia.
    by replace (Z.of_nat 2 * t + 2 * (Z.of_nat 2 * count)) with (t * 2 + count * 2 + count * 2) by lia.
Qed.

Lemma converted_range i p : 0 <= i < count -> 0 <= p <= 2 -> in_range (8 * Z.of_nat n) (converted_sample i p).
Proof using All.
  intros Hi Hp. destruct (channel_byte i p Hi Hp) as [_ Hb]. unfold converted_sample. revert Hb. generalize (nth (Z.to_nat (4 * i + channel p)) source 0).
  intros v Hv. destruct format; [done..|]. cbn [reference sample_size]. ranges. cbn. Z.div_mod_to_equations. lia.
Qed.

(** The threads in any order leave the three planes of the picture. *)
Lemma kernel_writes order blocks d :
  order ≡ₚ seqZ 0 (blocks * 256) -> count <= blocks * 256 -> blocks * 256 < 2 ^ 32 -> 3 * plane <= len d ->
  exists d', Conversion.threads_loop (fun block tid => kernel source count block 256 tid) order d = Some d' /\ length d' = length d /\
    forall p k, 0 <= p <= 2 -> 0 <= k < count -> sample n d' (Z.of_nat n * (p * count + k)) = Some (converted_sample k p).
Proof using All.
  intros Ho Hb1 Hb2 Hd.
  destruct (planes_written (fun block tid => kernel source count block 256 tid) n count plane converted_sample order d) as (d' & Hl & Hlen & Hs).
  - intros t d0 Ht Hd0. rewrite kernel_thread by lia. by rewrite (proj2 (Z.leb_le _ _)) by lia.
  - intros t d0 Ht Hd0. rewrite kernel_thread by lia. rewrite (proj2 (Z.leb_gt _ _)) by lia.
    apply three_stores; [lia|lia|destruct format; cbn; lia|done|done|]. intros p Hp. by apply converted_range.
  - rewrite Ho. apply NoDup_seqZ.
  - intros t Ht. rewrite Ho in Ht. apply elem_of_seqZ in Ht. lia.
  - done.
  - exists d'. split_and!; [done..|]. intros p k Hp Hk. specialize (Hs k p Hk Hp). rewrite decide_True in Hs by (rewrite Ho; apply elem_of_seqZ; lia).
    rewrite <- Hs. f_equal. unfold at_plane. lia.
Qed.
End conversion.

(** *** Runs of the capture *)

(** Documented behaviour: a captured BGRA frame is the bytes of its pixels, an allocation has
    its size, a launch runs every thread once. *)
Definition promised (e : event answers) : Prop :=
  match e with
  | existT c a =>
      match c return answers c -> Prop with
      | Grab => fun a => forall buffer, device_buffer a.2 = Some buffer ->
          bytes buffer /\ 0 < dwWidth a.2 /\ 0 < dwHeight a.2 /\ dwWidth a.2 * dwHeight a.2 < 2 ^ 29 /\
          dwByteSize a.2 = 4 * (dwWidth a.2 * dwHeight a.2) /\ len buffer = dwByteSize a.2
      | Alloc _ size => fun a => forall memory, 0 <= size -> a = Some memory -> len memory = size
      | Launch threads => fun a => a.2 ≡ₚ seqZ 0 threads
      | _ => fun _ => True
      end a
  end.
Definition grabbed : list (event answers) -> list grab_info :=
  flat_map (fun e => match e with existT c a => match c return answers c -> list grab_info with Grab => fun a => [a.2] | _ => fun _ => [] end a end).
Definition written : list (event answers) -> list (list Z) :=
  flat_map (fun e => match projT1 e with Write data => [data] | _ => [] end).

(** What the first frame fixed is that of a frame like this one. *)
Definition fits (format : OutputFormat) (info : grab_info) (s : session) : Prop :=
  width s = dwWidth info /\ height s = dwHeight info /\ capture_bytes s = dwByteSize info /\
  output_bytes s = frame_bytes format info /\ (converts format = true -> len (converted s) = output_bytes s).

Lemma frame_bytes_planes format info : converts format = true ->
  0 < dwWidth info -> 0 < dwHeight info -> dwWidth info * dwHeight info < 2 ^ 29 ->
  frame_bytes format info = 3 * (Z.of_nat (sample_size format) * (dwWidth info * dwHeight info)).
Proof.
  intros Hc Hw Hh Hp. unfold frame_bytes. assert (0 < dwWidth info * dwHeight info) by nia.
  destruct format; [done|..]; cbn [bytes_per_pixel sample_size]; rewrite (wrap_small 64 (dwWidth info * dwHeight info)), wrap_small by (ranges; lia); lia.
Qed.

Lemma convert_runs format source s info tr r : converts format = true -> fits format info s -> device_buffer info = Some source ->
  bytes source -> 0 < dwWidth info -> 0 < dwHeight info -> dwWidth info * dwHeight info < 2 ^ 29 -> len source = 4 * (dwWidth info * dwHeight info) ->
  runs (convert format source s) tr r -> Forall promised tr ->
  grabbed tr = [] /\ written tr = [] /\
  (r = Some None \/ exists s', r = Some (Some s') /\ fits format info s' /\
    exists data, copy_from (converted s') 0 (output_bytes s') = Some data /\ picture format info data).
Proof.
  intros Hc (Hfw & Hfh & Hfc & Hfo & Hfl) Hbuf Hb Hw Hh Hp Hl Hr Hprom. unfold convert in Hr. rewrite Hfw, Hfh in Hr.
  assert (0 < dwWidth info * dwHeight info) as Hpos by nia. set (count := dwWidth info * dwHeight info) in *.
  rewrite (wrap_small 32 count), (wrap_small 32 (count + 256 - 1)) in Hr by (ranges; lia).
  follow Hr a. destruct a as [ok order]. inversion Hprom as [|e l Hlaunch Hrest]; subst. cbn in Hlaunch.
  destruct ok; cbn [negb] in Hr; [|follow Hr a; split_and!; [done..|by left]].
  set (blocks := (count + 256 - 1) / 256) in *. assert (count <= blocks * 256 < count + 256) as Hblocks
    by (subst blocks; Z.div_mod_to_equations; lia).
  pose proof (frame_bytes_planes format info Hc Hw Hh Hp) as Hfb. rewrite (Hfo) in Hfl. rewrite Hfb in Hfl. fold count in Hfl, Hfb.
  destruct (kernel_writes format source count Hc ltac:(lia) Hb ltac:(lia) order blocks (converted s)) as (d & Hd & Hlen & Hs); [done|lia|lia|rewrite (Hfl Hc); lia|].
  rewrite Hd in Hr. follow Hr a. subst r. split_and!; [done..|]. right. eexists. split; [done|]. split.
  { split_and!; [done..|]. cbn [converted output_bytes]. intros _. rewrite Hlen, (Hfl Hc), Hfo. lia. }
  cbn [converted output_bytes]. rewrite Hfo, Hfb. rewrite copy_from_slice by (rewrite ?Hlen, ?(Hfl Hc); lia). eexists. split; [done|].
  exists source. split; [done|]. change (Z.to_nat 0) with 0%nat. rewrite drop_0, take_ge by (specialize (Hfl Hc); lia).
  destruct format; [done|..]; (split; [fold count; specialize (Hfl Hc); lia|]); fold count; intros p k Hpr Hk.
  all: eexists; split; [apply channel_byte with (format := kGbrIdentity8) (count := count); done || lia|]; rewrite Hs by done; reflexivity.
Qed.

Definition same_geometry (a b : grab_info) : Prop := dwWidth a = dwWidth b /\ dwHeight a = dwHeight b /\ dwByteSize a = dwByteSize b.

Lemma fits_same format info info' s : fits format info s ->
  dwWidth info' = width s -> dwHeight info' = height s -> dwByteSize info' = capture_bytes s -> fits format info' s /\ same_geometry info info'.
Proof.
  intros (Hw & Hh & Hc & Ho & Hl) Hw' Hh' Hc'. unfold fits, same_geometry. assert (frame_bytes format info' = frame_bytes format info) as Hf
    by (unfold frame_bytes; destruct format; congruence).
  rewrite Hf. split_and!; congruence || done.
Qed.

(** A quiet piece of a run: nothing grabbed, nothing written. *)
Definition quiet (tr : list (event answers)) : Prop := grabbed tr = [] /\ written tr = [].
Lemma grabbed_app tr1 tr2 : grabbed (tr1 ++ tr2) = grabbed tr1 ++ grabbed tr2.
Proof. apply flat_map_app. Qed.
Lemma written_app tr1 tr2 : written (tr1 ++ tr2) = written tr1 ++ written tr2.
Proof. apply flat_map_app. Qed.
Lemma quiet_app tr1 tr2 : quiet tr1 -> quiet tr2 -> quiet (tr1 ++ tr2).
Proof. unfold quiet. rewrite grabbed_app, written_app. intros [-> ->] [-> ->]. done. Qed.

Lemma prepare_runs format info s held tr held' r :
  (forall s0, s = Some s0 -> exists info0, fits format info0 s0) -> runs (prepare format info s held) tr (held', r) -> Forall promised tr ->
  quiet tr /\ forall s', r = Some s' -> fits format info s' /\ forall s0 info0, s = Some s0 -> fits format info0 s0 -> same_geometry info0 info.
Proof.
  intros Hs Hr Hp. unfold prepare in Hr. destruct s as [s0|].
  - follow Hr a. injection Hr0 as -> ->. split; [done|]. intros s'. destruct (_ || _) eqn:E; [done|]. intros [= <-].
    destruct (Hs s0 eq_refl) as [info0 Hf]. destruct (fits_same format info0 info s0 Hf) as [Hf' _]; [lia..|]. split; [done|].
    intros s1 info1 [= <-] Hf1. by apply (fits_same format info1 info s0 Hf1); lia.
  - destruct (converts format) eqn:Ec.
    + follow Hr memory. apply Forall_cons in Hp as [Hm Hp]. destruct memory as [memory|]; follow Hr host.
      2:{ injection Hr0 as -> ->. split; [done|]. done. }
      apply Forall_cons in Hp as [_ Hp]. destruct host as [host|]; follow Hr a; injection Hr0 as -> ->; (split; [done|]); intros s' [= <-].
      split; [|done]. split_and!; [done..|]. intros _. apply Hm; [|done]. unfold frame_bytes. destruct format; [done|..]; cbn [output_bytes]; apply wrap_range; lia.
    + follow Hr host. apply Forall_cons in Hp as [_ Hp]. destruct host as [host|]; follow Hr a; injection Hr0 as -> ->; (split; [done|]); intros s' [= <-].
      split; [|done]. split_and!; [done..|]. by rewrite Ec.
Qed.

(** A frame ends in its picture being written, or the capture fails. *)
Lemma capture_frame_runs format s held tr held' r :
  (forall s0, s = Some s0 -> exists info0, fits format info0 s0) -> runs (capture_frame format s held) tr (held', r) -> Forall promised tr ->
  exists info, grabbed tr = [info] /\
  match r with
  | inl s' => (exists data, written tr = [data] /\ picture format info data) /\ fits format info s' /\
      forall s0 info0, s = Some s0 -> fits format info0 s0 -> same_geometry info0 info
  | inr out => out = Exit 1 /\ (written tr = [] \/ exists data, written tr = [data] /\ picture format info data)
  end.
Proof.
  intros Hs Hr Hp. unfold capture_frame in Hr. follow Hr a. destruct a as [ok info]. apply Forall_cons in Hp as [Hg Hp]. cbn [promised fst snd] in Hg.
  exists info. destruct (device_buffer info) as [buffer|] eqn:Ebuf; [|follow Hr a; injection Hr0 as -> ->; split; [done|]; split; [done|by left]].
  destruct (Hg buffer eq_refl) as (Hb & Hw & Hh & Hpix & Hsize & Hlen). clear Hg.
  destruct (negb ok || _); [follow Hr a; injection Hr0 as -> ->; split; [done|]; split; [done|by left]|].
  cbn in Hr. apply runs_bind in Hr as (tr1 & [held1 s1] & tr2 & -> & Hprep & Hr). apply Forall_app in Hp as [Hp1 Hp2].
  destruct (prepare_runs _ _ _ _ _ _ _ Hs Hprep Hp1) as [[Hg1 Hw1] Hfit]. 
  assert (forall l, grabbed (existT Grab (ok, info) :: tr1 ++ l) = info :: grabbed l /\ written (existT Grab (ok, info) :: tr1 ++ l) = written l) as Hpre
    by (intros l; change (grabbed (existT Grab (ok, info) :: tr1 ++ l)) with (info :: grabbed (tr1 ++ l));
      change (written (existT Grab (ok, info) :: tr1 ++ l)) with (written (tr1 ++ l)); by rewrite grabbed_app, written_app, Hg1, Hw1).
  destruct s1 as [s1|]; [|follow Hr a; injection Hr0 as -> ->; destruct (Hpre []) as [-> ->]; split; [done|]; split; [done|by left]].
  destruct (Hfit s1 eq_refl) as [Hf Hgeo]. clear Hfit.
  apply runs_bind in Hr as (tr3 & c & tr4 & -> & Hconv & Hr). apply Forall_app in Hp2 as [Hp3 Hp4]. 
  assert (quiet tr3 /\ (c = Some None \/ exists s', c = Some (Some s') /\ fits format info s' /\
    exists data, copy_from (if converts format then converted s' else buffer) 0 (output_bytes s') = Some data /\ picture format info data)) as [Hq3 Hc].
  { destruct (converts format) eqn:Ec.
    - destruct (convert_runs _ _ _ _ _ _ Ec Hf Ebuf Hb Hw Hh Hpix ltac:(lia) Hconv Hp3) as (? & ? & ?). done.
    - follow Hconv a. subst c. split; [done|]. right. exists s1. split_and!; [done..|]. destruct format; try done.
      destruct Hf as (_ & _ & _ & -> & _). cbn [frame_bytes]. rewrite copy_from_slice by lia. eexists. split; [done|]. by exists buffer. }
  assert (forall l, grabbed (existT Grab (ok, info) :: tr1 ++ tr3 ++ l) = info :: grabbed l /\ written (existT Grab (ok, info) :: tr1 ++ tr3 ++ l) = written l) as Hpre'.
  { intros l. destruct (Hpre (tr3 ++ l)) as [-> ->]. destruct Hq3 as [Hq3 Hq3']. by rewrite grabbed_app, written_app, Hq3, Hq3'. }
  destruct Hc as [-> | (s' & -> & Hf' & data & Hdata & Hpic)].
  { follow Hr a. injection Hr0 as -> ->. destruct (Hpre' []) as [-> ->]. split; [done|]. split; [done|by left]. }
  rewrite Hdata in Hr. follow Hr copied. destruct (copied : bool); cbn [negb] in Hr.
  2:{ follow Hr a. injection Hr0 as -> ->. match goal with |- context [tr3 ++ ?l] => destruct (Hpre' l) as [-> ->] end. split; [done|]. split; [done|by left]. }
  follow Hr wrote. follow Hr a. injection Hr0 as -> ->. match goal with |- context [tr3 ++ ?l] => destruct (Hpre' l) as [-> ->] end.
  split; [done|]. destruct (wrote : bool).
  - split_and!; [by exists data|done|done].
  - split; [done|]. right. by exists data.
Qed.

Definition faithful (format : OutputFormat) (tr : list (event answers)) : Prop :=
  Forall2 (picture format) (take (length (written tr)) (grabbed tr)) (written tr).

Lemma frames_loop_runs n format s held tr held' out :
  (forall s0, s = Some s0 -> exists info0, fits format info0 s0) -> runs (frames_loop n format s held) tr (held', out) -> Forall promised tr ->
  faithful format tr /\ (out = Exit 1 \/ out = Exit 0 /\ length (grabbed tr) = n /\ length (written tr) = n /\
    (forall a, a ∈ grabbed tr -> forall s0 info0, s = Some s0 -> fits format info0 s0 -> same_geometry info0 a) /\
    (forall a b, a ∈ grabbed tr -> b ∈ grabbed tr -> same_geometry a b)).
Proof.
  unfold faithful. revert s held tr. induction n as [|n IH]; intros s held tr Hs Hr Hp; cbn [frames_loop] in Hr.
  { follow Hr a. injection Hr0 as -> ->. split; [constructor|]. right. split_and!; try done; intros; exfalso; by eapply elem_of_nil. }
  apply runs_bind in Hr as (tr1 & [held1 r1] & tr2 & -> & Hframe & Hr). apply Forall_app in Hp as [Hp1 Hp2].
  destruct (capture_frame_runs _ _ _ _ _ _ Hs Hframe Hp1) as (info & Hg & Hcase). rewrite grabbed_app, written_app, Hg. destruct r1 as [s1|out1].
  - destruct Hcase as ((data & Hw & Hpic) & Hf & Hgeo). rewrite Hw.
    destruct (IH (Some s1) held1 tr2) as [Hall Hend]; [intros ? [= <-]; by exists info|done|done|]. cbn [app length take].
    split; [by constructor|]. destruct Hend as [->|(-> & Hlg & Hlw & Hsame & Hpair)]; [by left|]. right.
    assert (forall a, a ∈ grabbed tr2 -> same_geometry info a) as Hinfo by (intros; by eapply Hsame).
    split_and!; [done|by f_equal|by f_equal| |].
    + intros a Ha s0 info0 -> Hf0. pose proof (Hgeo s0 info0 eq_refl Hf0) as Hg0. apply elem_of_cons in Ha as [->|Ha]; [done|].
      specialize (Hinfo a Ha). unfold same_geometry in *. intuition congruence.
    + intros a b [->|Ha]%elem_of_cons [->|Hb]%elem_of_cons; [by split_and!|by apply Hinfo| |by apply Hpair].
      specialize (Hinfo a Ha). unfold same_geometry in *. intuition congruence.
  - destruct Hcase as [-> Hw]. follow Hr a. injection Hr0 as -> ->. cbn [grabbed written flat_map]. rewrite !app_nil_r.
    split; [|by left]. destruct Hw as [->|(data & -> & Hpic)]; [constructor|]. cbn. by repeat constructor.
Qed.

Lemma perform_runs steps held tr held' failure : runs (perform steps held) tr (held', failure) -> Forall (fun st => match st with Acquire _ code | Require _ _ code => code = 1 end) steps ->
  quiet tr /\ (failure = None \/ failure = Some 1).
Proof.
  revert held tr. induction steps as [|[h code|name on code] steps IH]; intros held tr Hr Hc; cbn [perform] in Hr.
  - follow Hr a. injection Hr0 as -> ->. by split; [|left].
  - apply Forall_cons in Hc as [-> Hc]. follow Hr ok. destruct (ok : bool).
    + destruct (IH _ _ Hr Hc) as [[Hg Hw] ?]. split; [|done]. split; done.
    + follow Hr a. injection Hr0 as -> ->. by split; [|right].
  - apply Forall_cons in Hc as [-> Hc]. follow Hr ok. destruct (ok : bool).
    + destruct (IH _ _ Hr Hc) as [[Hg Hw] ?]. split; [|done]. split; done.
    + follow Hr a. injection Hr0 as -> ->. by split; [|right].
Qed.

Lemma setup_runs o tr held failure : runs (setup o) tr (held, failure) -> quiet tr /\ (failure = None \/ failure = Some 1).
Proof.
  unfold setup. intros (tr1 & [held1 f1] & tr2 & -> & H1 & Hr)%runs_bind.
  apply perform_runs in H1 as [Hq Hf1]; [|unfold setup_calls; destruct (output_format o); repeat constructor].
  assert (forall l (x : Z), quiet l -> quiet (tr1 ++ l)) as Happ by (intros; by apply quiet_app). destruct Hf1 as [->| ->].
  2:{ follow Hr a. injection Hr0 as -> ->. split; [by apply quiet_app|by right]. }
  follow Hr status. destruct status as [status|].
  2:{ follow Hr a. injection Hr0 as -> ->. split; [by apply quiet_app|by right]. }
  destruct (bCanCreateNow status); cbn [negb] in Hr; [destruct (find_output _ _) as [id|]|].
  2,3: follow Hr a; injection Hr0 as -> ->; (split; [by apply quiet_app|by right]).
  follow Hr created. destruct (created : bool); cbn [negb] in Hr; [follow Hr ready; destruct (ready : bool)|];
    follow Hr a; injection Hr0 as -> ->; (split; [by apply quiet_app|auto]).
Qed.

Lemma release_runs order held tr : runs (release order held) tr tt -> quiet tr.
Proof.
  revert tr. induction order as [|h order IH]; intros tr Hr; cbn [release] in Hr; [by follow Hr a|].
  destruct (bool_decide _); [follow Hr a; destruct (IH _ Hr) as [Hg Hw]; split; done|cbn in Hr; by apply IH].
Qed.

(** C39: The raw capture.  Whatever the drivers answer (as documented: buffers of the announced
    size, launches that run each thread once, in any order), no access leaves a buffer; what
    has been handed to the output are the pictures of the grabbed frames in their order, the
    captured bytes or the three planes of samples, each rounded to ten bits where that was
    asked; and a run that succeeds has written the requested number of them, all of one
    geometry. *)
Theorem raw_capture_exact arguments o tr r :
  option_loop arguments default_options = inl o -> runs (main arguments) tr r -> Forall promised tr ->
  faithful (output_format o) tr /\
  (r = Exit 1 \/ r = Exit 0 /\ length (written tr) = Z.to_nat (frame_count o) /\ length (grabbed tr) = Z.to_nat (frame_count o) /\
    forall a b, a ∈ grabbed tr -> b ∈ grabbed tr -> same_geometry a b).
Proof.
  intros Ho Hr Hp. unfold main in Hr. rewrite Ho in Hr.
  apply runs_bind in Hr as (tr1 & [held failure] & tr2 & -> & Hsetup & Hr). apply setup_runs in Hsetup as [[Hg1 Hw1] Hfail].
  apply runs_bind in Hr as (tr3 & [held3 out] & tr4 & -> & Hloop & Hr). apply runs_bind in Hr as (tr5 & [] & tr6 & -> & Hrel & Hr).
  apply release_runs in Hrel as [Hg5 Hw5]. follow Hr a. subst r. apply Forall_app in Hp as [_ [Hp3 _]%Forall_app].
  unfold faithful. rewrite !grabbed_app, !written_app, Hg1, Hw1, Hg5, Hw5. change (grabbed []) with (@nil grab_info). change (written []) with (@nil (list Z)).
  cbn [app]. rewrite !app_nil_r. destruct Hfail as [->| ->].
  - destruct (frames_loop_runs _ _ None _ _ _ _ ltac:(done) Hloop Hp3) as [Hfaith [->|(-> & ? & ? & _ & ?)]]; [by split; [|left]|].
    split; [done|]. right. done.
  - follow Hloop a. injection Hr as -> ->. split; [constructor|by left].
Qed.

(** *** Resources of the capture *)

#[local] Abbreviation watching := (wp handling).

(** What the destructor gives back when it finds this. *)
Definition releasable (held : list handle) : Prop := watching (release destroy_order held) (fun _ live => live = []) held.
Definition setup_held (format : OutputFormat) : list handle :=
  [FbcCapture; FbcHandle; FbcLibrary] ++ (if converts format then [CudaModule] else []) ++ [CudaContext; CudaLoader].
Definition frames_held (format : OutputFormat) : list handle :=
  HostBuffer :: (if converts format then [ConvertedBuffer] else []) ++ setup_held format.

Ltac decided := repeat match goal with |- context [bool_decide ?P] => let b := eval vm_compute in (bool_decide P) in change (bool_decide P) with b end.
Ltac released := unfold releasable; cbn [release destroy_order]; decided; ask_all; reflexivity.

Lemma setup_live o :
  watching (setup o) (fun r live => live = r.1 /\ releasable live /\ (r.2 = None -> live = setup_held (output_format o))) [].
Proof.
  destruct o as [name n rate format]. unfold setup, setup_calls. cbn [output_format output_name].
  destruct format; cbn [converts app perform kernel_name]; ask_all; (split_and!; [reflexivity|released|by first [discriminate|intros _; reflexivity]]).
Qed.

Lemma prepare_live format info s held : held = (match s with Some _ => frames_held format | None => setup_held format end) ->
  watching (prepare format info s held) (fun r live => live = r.1 /\ releasable live /\ (forall s', r.2 = Some s' -> live = frames_held format)) held.
Proof.
  intros ->. unfold prepare. destruct s as [s|].
  - cbn. split_and!; [done|destruct format; cbn; released|done].
  - destruct format; cbn [converts setup_held app]; ask_all; (split_and!; [reflexivity|released|by intros s' [=]]).
Qed.

(** A frame holds what the one before held, or what the first one allocates. *)
Definition held_before (format : OutputFormat) (s : option session) : list handle :=
  match s with Some _ => frames_held format | None => setup_held format end.

Ltac stopped := refine (wp_Ret _ _ _ _ _); split_and!; [done|done|by intros ? [=]].

Lemma capture_frame_live format s :
  watching (capture_frame format s (held_before format s))
    (fun r live => live = r.1 /\ releasable live /\ (forall s', r.2 = inl s' -> live = frames_held format)) (held_before format s).
Proof.
  unfold capture_frame. assert (releasable (held_before format s)) as Hrel by (destruct s, format; cbn; released).
  apply wp_bind. refine (wp_Call _ _ _ _ _ _). intros [ok info].
  assert (handling (held_before format s) Grab (ok, info) = Some (held_before format s)) as -> by (destruct s, format; reflexivity).
  cbv beta iota.
  refine (wp_Ret _ _ _ _ _). cbv beta iota. destruct (device_buffer info) as [buffer|]; [|stopped]. destruct (_ || _); [stopped|].
  eapply wp_then; [by apply prepare_live; destruct s|]. intros [held1 s1] live (-> & Hrel1 & Heq). cbn [fst snd] in *.
  destruct s1 as [s1|]; [|stopped]. rewrite (Heq s1 eq_refl) in *. clear Heq.
  apply (wp_then _ _ _ (fun _ live => live = frames_held format)).
  { unfold convert. destruct format; cbn [converts frames_held setup_held app]; ask_all; reflexivity. }
  intros c live ->. destruct c as [[s'|]|]; [|stopped..]. destruct (copy_from _ _ _) as [data|]; [|stopped].
  clear Hrel. destruct format; cbn [converts frames_held setup_held app] in *; ask_all; by split_and!.
Qed.

Lemma frames_loop_live n format s :
  watching (frames_loop n format s (held_before format s)) (fun r live => live = r.1 /\ releasable live) (held_before format s).
Proof.
  revert s. induction n as [|n IH]; intros s; cbn [frames_loop]; [split; [done|]; destruct s, format; cbn; released|].
  eapply wp_then; [apply capture_frame_live|]. intros [held [s'|out]] live (-> & Hrel & Heq); cbn [fst snd] in *; [|done].
  rewrite (Heq s' eq_refl). apply (IH (Some s')).
Qed.

(** Wherever the capture stops, its destructor gives back what had been acquired, each
    thing once, before what it was made from, and nothing is used that is not held. *)
Theorem raw_balanced arguments tr r : runs (main arguments) tr r -> balanced tr.
Proof.
  apply balanced_intro. unfold main. destruct (option_loop _ _) as [o|out]; [|done].
  eapply wp_then; [apply setup_live|]. intros [held failure] live (-> & Hrel & Heq). cbn [fst snd] in *.
  apply (wp_then _ _ _ (fun r live => live = r.1 /\ releasable live)).
  - destruct failure as [code|]; [done|]. rewrite (Heq eq_refl). apply (frames_loop_live _ _ None).
  - intros [held' out] live (-> & Hrel'). cbn [fst snd] in *. eapply wp_then; [exact Hrel'|]. by intros [] live ->.
Qed.

(** ** What a pass of the timing probe means *)

Section sightings.
Import Probe.

Fixpoint count_all (fs : list (Z * sighting)) (c : counters) : option counters :=
  match fs with [] => Some c | (deadline, f) :: fs => c ← count_frame deadline f c; count_all fs c end.

Definition ts (f : sighting) : Z := ulTimestampUs (info f).
Definition is_new (f : Z * sighting) : bool := bIsNewFrame (info f.2).
Definition new_ones (fs : list (Z * sighting)) : list sighting := map snd (List.filter is_new fs).
Definition stamped (fs : list (Z * sighting)) : list sighting := List.filter (fun f => negb (ts f =? 0)) (new_ones fs).
Definition capture_us (f : sighting) : Z := Z.quot (capture_finished f - capture_started f) 1000.
Definition is_late (f : Z * sighting) : bool := f.1 <? capture_finished f.2.

Lemma count_all_snoc fs f c : count_all (fs ++ [f]) c = (c ← count_all fs c; count_frame f.1 f.2 c).
Proof.
  revert c. induction fs as [|[d g] fs IH]; intros c; cbn [app count_all].
  - destruct f as [d f]. cbn. by destruct (count_frame d f c).
  - destruct (count_frame d g c) as [c'|]; [|done]. cbn [mbind option_bind]. apply IH.
Qed.

Lemma filter_snoc {A} (P : A -> bool) l x : List.filter P (l ++ [x]) = List.filter P l ++ (if P x then [x] else []).
Proof. rewrite List.filter_app. cbn. by destruct (P x). Qed.

Lemma Sorted_snoc l x : Sorted Z.le (l ++ [x]) <-> Sorted Z.le l /\ (l = [] \/ List.last l 0 <= x).
Proof.
  induction l as [|a l IH]; [cbn; split; [auto|repeat constructor]|]. split.
  - intros H. inversion H as [|? ? Hs Hh]; subst. apply IH in Hs as [Hs Hl]. split.
    + constructor; [done|]. destruct l; [constructor|]. inversion Hh; subst. by constructor.
    + right. destruct l as [|b l]; [inversion Hh; subst; cbn; lia|]. destruct Hl as [?|Hl]; done.
  - intros [H [?|Hl]]; [done|]. inversion H as [|? ? Hs Hh]; subst. cbn [app]. constructor.
    + apply IH. split; [done|]. destruct l; [by left|right; done].
    + destruct l as [|b l]; [constructor; cbn in Hl; lia|]. inversion Hh; subst. by constructor.
Qed.

(** What the counters are, after any number of frames that 32 bits count. *)
Record counted (fs : list (Z * sighting)) (c : counters) : Prop := {
  c_new : new_frames c = len (new_ones fs);
  c_late : deadline_misses c = len (List.filter is_late fs);
  c_future : future_timestamps c = len (List.filter (fun f => frame_age_us f <? 0) (stamped fs));
  c_mono : 0 <= nonmonotonic_timestamps c <= len fs /\ (nonmonotonic_timestamps c = 0 <-> Sorted Z.le (map ts (stamped fs)));
  c_previous : previous_timestamp_us c = List.last (map ts (stamped fs)) 0;
  c_times : capture_times_us c = map (fun f => capture_us f.2) fs;
  c_ages : frame_ages_us c = map frame_age_us (stamped fs) }.

Lemma new_ones_snoc fs f : new_ones (fs ++ [f]) = new_ones fs ++ (if is_new f then [f.2] else []).
Proof. unfold new_ones. rewrite filter_snoc, map_app. by destruct (is_new f). Qed.
Lemma stamped_snoc fs f : stamped (fs ++ [f]) = stamped fs ++ (if is_new f && negb (ts f.2 =? 0) then [f.2] else []).
Proof. unfold stamped. rewrite new_ones_snoc, List.filter_app. destruct (is_new f); cbn; [by destruct (ts f.2 =? 0)|done]. Qed.
Lemma filter_le {A} (P : A -> bool) l : len (List.filter P l) <= len l.
Proof. pose proof (List.filter_length_le P l). lia. Qed.
Lemma stamped_le fs : len (stamped fs) <= len (new_ones fs) /\ len (new_ones fs) <= len fs.
Proof. unfold stamped, new_ones. split; [apply filter_le|]. rewrite length_map. apply filter_le. Qed.

Lemma last_stamped fs : stamped fs <> [] -> List.last (map ts (stamped fs)) 0 <> 0.
Proof.
  intros Hne. destruct (exists_last Hne) as (l & x & Hl). assert (x ∈ stamped fs) as Hx by (rewrite Hl; apply elem_of_app; right; by left).
  rewrite Hl, map_app. cbn [map]. rewrite last_last. apply list_elem_of_In, filter_In in Hx as [_ Hx]. lia.
Qed.

Lemma counting fs c : len fs < 2 ^ 32 -> Forall (fun f => 0 <= ts f.2) fs -> count_all fs no_counters = Some c -> counted fs c.
Proof.
  revert c. induction fs as [|f fs IH] using rev_ind; intros c Hlen Hts Hc.
  { injection Hc as <-. split; done. }
  rewrite length_app in Hlen. cbn [length] in Hlen. apply Forall_app in Hts as [Hts Hf]. apply Forall_cons in Hf as [Hf _].
  rewrite count_all_snoc in Hc. destruct (count_all fs no_counters) as [c0|] eqn:E; [|done]. cbn [mbind option_bind] in Hc.
  destruct (IH c0 ltac:(lia) Hts eq_refl) as [Hnew Hlate Hfut [Hmr Hmono] Hprev Htimes Hages].
  pose proof (stamped_le fs) as [Hsl Hnl]. pose proof (filter_le is_late fs) as Hll. pose proof (filter_le (fun f => frame_age_us f <? 0) (stamped fs)) as Hfl.
  destruct f as [d f]. cbn [fst snd] in *. unfold count_frame in Hc. fold (ts f) in Hc.
  assert (forall b : bool, u32 (new_frames c0 + if b then 1 else 0) = new_frames c0 + if b then 1 else 0) as Hn by (intros []; apply wrap_small; ranges; lia).
  assert (u32 (deadline_misses c0 + 1) = deadline_misses c0 + 1) as Hl by (apply wrap_small; ranges; lia).
  assert (u32 (future_timestamps c0 + 1) = future_timestamps c0 + 1) as Hfu by (apply wrap_small; ranges; lia).
  assert (u32 (nonmonotonic_timestamps c0 + 1) = nonmonotonic_timestamps c0 + 1) as Hm by (apply wrap_small; ranges; lia).
  rewrite Hn, Hl, Hfu, Hm in Hc.
  split; rewrite ?new_ones_snoc, ?stamped_snoc, ?filter_snoc.
  all: change (is_new (d, f)) with (bIsNewFrame (info f)); change (is_late (d, f)) with (d <? capture_finished f); cbn [fst snd].
  all: destruct (bIsNewFrame (info f)) eqn:Eb; cbn [negb] in Hc; [destruct (ts f =? 0) eqn:Et|]; cbn [andb negb].
  all: try (destruct (_ || _) eqn:Eo in Hc; [done|]).
  all: injection Hc as <-; cbn [new_frames deadline_misses future_timestamps nonmonotonic_timestamps previous_timestamp_us capture_times_us frame_ages_us].
  all: rewrite ?app_nil_r, ?map_app, ?filter_app, ?length_app; cbn [map List.filter length].
  all: try (destruct (d <? capture_finished f)); try (destruct (frame_age_us f <? 0) eqn:Ea); rewrite ?filter_snoc, ?Ea; cbn [length]; rewrite ?length_app; cbn [length]; try lia.
  all: try (by rewrite ?Htimes, ?Hages); try (by rewrite last_last).
  all: try (split; [lia|done]).
  all: pose proof (last_stamped fs) as Hlast; rewrite Sorted_snoc, <- Hmono; rewrite <- Hprev in *;
    destruct (stamped fs) as [|g l] eqn:Es; cbn [map] in *.
  all: try (rewrite Hprev; cbn [List.last Z.eqb negb andb]; split; [lia|]; split; [by auto|by intros []]).
  all: specialize (Hlast ltac:(done)); destruct (Z.eqb_spec (previous_timestamp_us c0) 0); [done|]; cbn [negb andb];
    destruct (Z.ltb_spec (ts f) (previous_timestamp_us c0)); (split; [lia|]); (split; [intros; split; [lia|right; lia]|intros [? [?|?]]; [done|lia]]).
Qed.

Definition fresh (f : sighting) : Prop := ts f <> 0 /\ 0 <= frame_age_us f <= 1000000.

Lemma sorted_ends l x : Sorted Z.le l -> x ∈ l -> List.hd 0 l <= x <= List.last l 0.
Proof.
  intros Hs Hx. apply Sorted_StronglySorted in Hs; [|intros ?; lia]. revert x Hx. induction Hs as [|a l Hs IH Ha]; intros x Hx; [by apply elem_of_nil in Hx|].
  cbn [List.hd]. rewrite Forall_forall in Ha. apply elem_of_cons in Hx as [->|Hx].
  - split; [lia|]. destruct l as [|b l]; [cbn; lia|]. specialize (IH b ltac:(by left)). specialize (Ha b ltac:(by left)).
    change (List.last (a :: b :: l) 0) with (List.last (b :: l) 0). cbn [List.hd] in IH. lia.
  - specialize (IH x Hx). specialize (Ha x Hx). destruct l as [|b l]; [by apply elem_of_nil in Hx|].
    change (List.last (a :: b :: l) 0) with (List.last (b :: l) 0). lia.
Qed.
Lemma hd_last_in (l : list Z) : l <> [] -> List.hd 0 l ∈ l /\ List.last l 0 ∈ l.
Proof.
  intros Hl. split; [destruct l; [done|by left]|]. destruct (exists_last Hl) as (l' & x & ->). rewrite last_last. apply elem_of_app. right. by left.
Qed.

Lemma filter_all {A} (P : A -> bool) l : length (List.filter P l) = length l <-> Forall (fun x => P x = true) l.
Proof.
  induction l as [|x l IH]; cbn; [done|]. pose proof (List.filter_length_le P l). rewrite Forall_cons. destruct (P x); cbn; [rewrite <- IH; lia|].
  split; [lia|by intros [? _]].
Qed.
Lemma filter_id {A} (P : A -> bool) l : Forall (fun x => P x = true) l -> List.filter P l = l.
Proof. induction 1 as [|x l Hx _ IH]; cbn; [done|]. by rewrite Hx, IH. Qed.

(** The gate on the timestamps: some frame was new, and the new ones carry the time at which
    they were made, within the last second and in order. *)
Lemma timestamp_gate fs c : counted fs c ->
  timestamp_pass c = true <-> new_ones fs <> [] /\ Forall fresh (new_ones fs) /\ Sorted Z.le (map ts (new_ones fs)).
Proof.
  intros [Hnew _ Hfut [_ Hmono] _ _ Hages]. unfold timestamp_pass. rewrite Hages, Hnew, Hfut.
  set (sorted := merge_sort Z.le (map frame_age_us (stamped fs))).
  assert (sorted ≡ₚ map frame_age_us (stamped fs)) as Hperm by apply merge_sort_Permutation.
  assert (Sorted Z.le sorted) as Hsorted by (apply Sorted_merge_sort; intros x y; lia).
  pose proof (Permutation_length Hperm) as Hlen. rewrite length_map in Hlen.
  assert (stamped fs = new_ones fs <-> len sorted = len (new_ones fs)) as Hall.
  { rewrite Hlen, Nat2Z.inj_iff. unfold stamped. rewrite filter_all. split; [|apply filter_id]. intros Heq. apply Forall_forall.
    intros x Hx. rewrite <- Heq in Hx. by apply list_elem_of_In, filter_In in Hx as [_ Hx]. }
  assert (len (List.filter (fun f => frame_age_us f <? 0) (stamped fs)) = 0 <-> Forall (fun f => 0 <= frame_age_us f) (stamped fs)) as Hpos.
  { clear. generalize (stamped fs). intros l. induction l as [|f l IH]; [done|]. rewrite Forall_cons, <- IH. cbn.
    destruct (Z.ltb_spec (frame_age_us f) 0); cbn [length]; lia. }
  destruct sorted as [|front rest] eqn:Es.
  { split; [done|]. intros (Hne & Hfresh & _). exfalso. apply Hne. apply Permutation_nil_l in Hperm. symmetry in Hperm. apply map_eq_nil in Hperm.
    rewrite <- Hperm. symmetry. apply filter_id. apply (Forall_impl _ _ _ Hfresh). intros f [? _]. lia. }
  rewrite !andb_true_iff, !Z.eqb_eq, !Z.leb_le, <- Hall, Hpos, Hmono. set (ages := front :: rest) in *.
  pose proof (hd_last_in ages ltac:(done)) as [Hhd Hla]. assert (forall y, y ∈ ages -> y ∈ map frame_age_us (stamped fs)) as Hin by (intros y; by rewrite Hperm).
  apply Hin in Hhd, Hla. change (List.hd 0 ages) with front in *.
  assert (forall f, f ∈ stamped fs -> front <= frame_age_us f <= List.last ages 0) as Hends.
  { intros f Hf. apply (sorted_ends ages); [done|]. rewrite Hperm. apply list_elem_of_In, in_map. by apply list_elem_of_In. }
  split.
  - intros [[[[Heq Hfr] Hbk] _] Hso]. rewrite <- Heq. split_and!; [| |done].
    + intros Hnil. rewrite Hnil in Hperm. by apply Permutation_nil_r in Hperm.
    + apply Forall_forall. intros f Hf. specialize (Hends f Hf). split; [|lia]. apply list_elem_of_In, filter_In in Hf as [_ Hf]. lia.
  - intros (_ & Hfresh & Hso). assert (stamped fs = new_ones fs) as Heq.
    { apply filter_id. apply (Forall_impl _ _ _ Hfresh). intros f [? _]. lia. }
    rewrite Heq in *. rewrite Forall_forall in Hfresh. split_and!; try done.
    + apply list_elem_of_In, in_map_iff in Hhd as (f & <- & Hf%list_elem_of_In). apply Hfresh, Hf.
    + apply list_elem_of_In, in_map_iff in Hla as (f & <- & Hf%list_elem_of_In). apply Hfresh, Hf.
    + apply Forall_forall. intros f Hf. apply Hfresh, Hf.
Qed.

(** *** From a run to its sightings *)

Definition clocks : list (event answers) -> list Z :=
  flat_map (fun e => match e with existT c a => match c return answers c -> list Z with Now => fun a => [a] | _ => fun _ => [] end a end).
Definition noisy (c : request) : bool := match c with Grab | Now => true | _ => false end.
Definition silence (_ : unit) (c : request) (_ : answers c) : option unit := if noisy c then None else Some tt.
#[local] Abbreviation silently := (wp silence).

Lemma clocks_app tr1 tr2 : clocks (tr1 ++ tr2) = clocks tr1 ++ clocks tr2.
Proof. apply flat_map_app. Qed.
Lemma silent_trace tr m : observe silence tt tr = Some m -> grabbed tr = [] /\ clocks tr = [].
Proof.
  induction tr as [|[c a] tr IH]; [done|]. intros H. cbn [observe] in H. assert (silence tt c a = if noisy c then None else Some tt) as Hs by done.
  rewrite Hs in H. destruct (noisy c) eqn:E; [done|]. specialize (IH H). destruct c; done.
Qed.

Lemma perform_silent steps held : silently (perform steps held) (fun r _ => forall code, r.2 = Some code -> code ∈ map (fun st => match st with Acquire _ c | Require _ _ c => c end) steps) tt.
Proof.
  revert held. induction steps as [|[h c|name on c] steps IH]; intros held; cbn [perform]; [by intros ? [=]|..].
  all: intros []; cbn [silence noisy]; [|intros code [= <-]; by left].
  all: eapply wp_mono; [apply IH|]; intros r m H code Hc; right; by apply H.
Qed.
Lemma release_silent order held : silently (release order held) (fun _ _ => True) tt.
Proof. induction order as [|h order IH]; [done|]. cbn [release]. destruct (bool_decide _); [intros []; exact IH|exact IH]. Qed.

Lemma setup_silent o : silently (setup o) (fun r _ => status_only o = false -> r.2 <> Some 0) tt.
Proof.
  unfold setup. eapply wp_then; [apply perform_silent|]. intros [held failure] [] Hcode. destruct failure as [code|].
  { intros _. cbn. intros [= ->]. specialize (Hcode 0 eq_refl). cbn in Hcode. apply list_elem_of_In in Hcode. cbn in Hcode. lia. }
  ask_with split_answer ltac:(fun x => let y := eval vm_compute in x in change x with y); try done; destruct (status_only o); done.
Qed.

Definition deadlines (o : Options) (start frame : Z) (n : nat) : list Z := map (fun i => start + frame_period o * (frame + Z.of_nat i + 1)) (seq 0 n).

Lemma frames_loop_counts n o start frame c tr c' : runs (frames_loop n o start frame c) tr (inl c') ->
  exists fs, count_all fs c = Some c' /\ length fs = n /\ map (fun f => info f.2) fs = grabbed tr /\
    map fst fs = deadlines o start frame n /\ clocks tr = flat_map (fun f => [capture_started f.2; capture_finished f.2]) fs.
Proof.
  revert frame c tr. induction n as [|n IH]; intros frame c tr Hr; cbn [frames_loop] in Hr.
  { follow Hr a. injection Hr0 as ->. by exists []. }
  follow Hr started. follow Hr a. destruct a as [ok i]. cbn in Hr. destruct Hr as (finished & tr' & -> & Hr). cbn in Hr.
  destruct ok; cbn in Hr; [|by destruct Hr]. destruct (device_buffer i) as [buffer|]; [|by destruct Hr]. destruct (_ || _); [by destruct Hr|].
  destruct (count_frame _ _ c) as [c1|] eqn:E; [|by destruct Hr]. destruct (IH _ _ _ Hr) as (fs & Hc & Hlen & Hmap & Hdl & Hck).
  exists ((start + frame_period o * (frame + 1), mkSighting started finished i) :: fs). cbn [count_all map length fst snd info flat_map capture_started capture_finished].
  rewrite E. cbn [mbind option_bind]. split_and!; [done|by f_equal|by rewrite Hmap| |by rewrite <- Hck].
  rewrite Hdl. unfold deadlines. cbn [seq map]. f_equal; [lia|]. rewrite <- seq_shift, map_map. apply map_ext. intros j. lia.
Qed.

(** The loop ends a run only with its own codes. *)
Lemma frames_loop_fails n o start frame c tr out : runs (frames_loop n o start frame c) tr (inr out) -> out <> Exit 0.
Proof.
  revert frame c tr. induction n as [|n IH]; intros frame c tr Hr; cbn [frames_loop] in Hr; [by destruct Hr|].
  follow Hr a. follow Hr b. destruct b as [ok i]. cbn in Hr. destruct Hr as (finished & tr' & -> & Hr). cbn in Hr.
  destruct ok; cbn in Hr; [|by destruct Hr as [_ [= ->]]]. destruct (device_buffer i) as [buffer|]; [|by destruct Hr as [_ [= ->]]].
  destruct (_ || _); [by destruct Hr as [_ [= ->]]|].
  destruct (count_frame _ _ c) as [c1|]; [by eapply IH|by destruct Hr as [_ [= ->]]].
Qed.

Lemma parse_limited_range text maximum v : parse_limited text maximum = Some v -> 1 <= v <= maximum.
Proof.
  unfold parse_limited. destruct (stoul text) as [u|]; [|done]. cbn. destruct (_ || _) eqn:E; [done|]. intros [= <-].
  pose proof (wrap_range 32 u ltac:(lia)). ranges. lia.
Qed.
Lemma option_loop_range h args o o' : option_loop h args o = Run o' -> 1 <= frame_count o <= 600 /\ 1 <= target_fps o <= 240 ->
  1 <= frame_count o' <= 600 /\ 1 <= target_fps o' <= 240.
Proof.
  revert o. induction args as [args IH] using (induction_ltof1 _ (@length string)); unfold ltof in IH. intros o H Ho.
  destruct args as [|a [|b rest]]; cbn [option_loop] in H; [by injection H as <-|..].
  - destruct (String.eqb a "--self-test"); [done|]. destruct (String.eqb a "--status-only"); [by injection H as <-|done].
  - destruct (String.eqb a "--self-test"); [done|]. destruct (String.eqb a "--status-only").
    { by apply (IH (b :: rest) ltac:(cbn; lia)) in H. }
    destruct (String.eqb a "--frames"), (String.eqb a "--fps"); try done.
    all: destruct (parse_limited b _) as [v|] eqn:E; [|done]; apply parse_limited_range in E; apply (IH rest ltac:(cbn; lia)) in H; [done|cbn; lia].
Qed.

(** What a pass means.  When the probe was asked to capture and returns 0, it has captured
    the requested number of frames; some of them were new, and every new one was stamped in
    the second before it was received, in order; at least 95 of 100 captures took no longer
    than a frame's time, at most one in a hundred (or one) came after its deadline on the
    grid of frame times, and the achieved rate is at least 0.99 of the target. *)
Theorem probe_passes h arguments o tr :
  option_loop h arguments default_options = Run o -> status_only o = false -> Forall (fun i => 0 <= ulTimestampUs i) (grabbed tr) ->
  runs (main h arguments) tr (Exit 0) ->
  exists start fs finish,
    clocks tr = start :: flat_map (fun f => [capture_started f.2; capture_finished f.2]) fs ++ [finish] /\
    grabbed tr = map (fun f => info f.2) fs /\ map fst fs = deadlines o start 0 (Z.to_nat (frame_count o)) /\
    (new_ones fs <> [] /\ Forall fresh (new_ones fs) /\ Sorted Z.le (map ts (new_ones fs))) /\
    95 * len fs <= 100 * len (filter (fun us => us <= Z.quot 1000000 (target_fps o)) (map (fun f => capture_us f.2) fs)) /\
    len (List.filter is_late fs) <= Z.max 1 (frame_count o / 100) /\
    SFleb (double_mul (double_of_int (target_fps o)) nearly_one) (achieved_fps o (finish - start)) = true.
Proof.
  intros Ho Hstatus Hts Hr. pose proof (option_loop_range _ _ _ _ Ho ltac:(cbn; lia)) as [Hn Hfps]. unfold main in Hr. rewrite Ho in Hr.
  apply runs_bind in Hr as (tr1 & [held ended] & tr2 & -> & Hsetup & Hr).
  destruct (wp_sound _ _ _ _ _ _ (setup_silent o) Hsetup) as ([] & [Hg1 Hk1]%silent_trace & Hended). specialize (Hended Hstatus).
  apply runs_bind in Hr as (tr3 & out & tr4 & -> & Hrun & Hr). apply runs_bind in Hr as (tr5 & [] & tr6 & -> & Hrel & Hr).
  destruct (wp_sound _ _ _ _ _ _ (release_silent _ _) Hrel) as ([] & [Hg5 Hk5]%silent_trace & _). destruct Hr as [-> <-].
  destruct ended as [code|]; [cbn in Hrun; destruct Hrun as [_ [= <-]]; done|]. unfold judged_run in Hrun.
  cbn in Hrun. destruct Hrun as (start & tr' & -> & Hrun). apply runs_bind in Hrun as (tr7 & [c|out'] & tr8 & -> & Hloop & Hrun).
  2:{ destruct Hrun as [_ <-]. by destruct (frames_loop_fails _ _ _ _ _ _ _ Hloop). }
  destruct Hrun as (finish & tr9 & -> & -> & Hexit).
  destruct (frames_loop_counts _ _ _ _ _ _ _ Hloop) as (fs & Hcount & Hlen & Hmap & Hdl & Hck). exists start, fs, finish.
  assert (forall l, grabbed (tr1 ++ (existT Now start :: tr7 ++ l) ++ tr5 ++ []) = grabbed tr7 ++ grabbed l) as Hgr.
  { intros l. rewrite !grabbed_app, Hg1, Hg5. change (grabbed (existT Now start :: tr7 ++ l)) with (grabbed (tr7 ++ l)). rewrite grabbed_app. cbn. by rewrite app_nil_r. }
  assert (forall l, clocks (tr1 ++ (existT Now start :: tr7 ++ l) ++ tr5 ++ []) = start :: clocks tr7 ++ clocks l) as Hcl.
  { intros l. rewrite !clocks_app, Hk1, Hk5. change (clocks (existT Now start :: tr7 ++ l)) with (start :: clocks (tr7 ++ l)). rewrite clocks_app. cbn. by rewrite app_nil_r. }
  rewrite Hgr in Hts |- *. rewrite Hcl, Hck, <- Hmap in *. change (grabbed [existT Now finish]) with (@nil grab_info) in *. change (clocks [existT Now finish]) with [finish : Z]. rewrite app_nil_r in *.
  assert (counted fs c) as Hcd.
  { apply counting; [lia| |done]. apply Forall_forall. intros f Hf. rewrite Forall_forall in Hts. apply Hts. apply list_elem_of_In, (in_map (fun f => info f.2)), list_elem_of_In, Hf. }
  injection Hexit as Hexit. destruct (performance_pass o (finish - start) c) eqn:Hperf; [|done]. destruct (timestamp_pass c) eqn:Hstamp; [|done].
  apply (timestamp_gate fs c Hcd) in Hstamp. unfold performance_pass in Hperf. apply andb_true_iff in Hperf as [[Hfast Hp95]%andb_true_iff Hlate].
  destruct Hcd as [_ Hlt _ _ _ Htimes _]. rewrite Htimes in Hp95. rewrite Hlt in Hlate. split_and!; try done; [apply Hstamp..| |lia].
  set (times := map (fun f => capture_us f.2) fs) in *. assert (len times = len fs) as Hlt' by (unfold times; by rewrite length_map).
  destruct (percentile_rank times 95) as (_ & Hrank & _); [intros Hnil; rewrite Hnil in Hlt'; cbn in Hlt'; lia|lia|lia|].
  rewrite <- Hlt'. etransitivity; [exact Hrank|]. apply Z.mul_le_mono_nonneg_l; [lia|]. apply inj_le. apply Z.leb_le in Hp95.
  revert Hp95. generalize (Report.percentile times 95) (Z.quot 1000000 (target_fps o)). intros p q Hpq. clear -Hpq.
  induction times as [|t times IH]; [done|]. rewrite !filter_cons. repeat case_decide; cbn [length]; lia.
Qed.

(** Wherever the probe stops, its clean-up gives back what it acquired. *)
Definition cleaned (held : list handle) : Prop := watching (release cleanup_order held) (fun _ live => live = []) held.
Ltac cleans := unfold cleaned; cbn [release cleanup_order]; decided; ask_all; reflexivity.

Lemma probe_setup_live o : watching (setup o) (fun r live => live = r.1 /\ cleaned live /\ (r.2 = None -> In FbcCapture live /\ In CudaContext live)) [].
Proof.
  unfold setup, setup_calls. cbn [perform]. ask_all; try destruct (status_only o); ask_all;
    (split_and!; [reflexivity|cleans|by first [discriminate|intros _; split; cbn; tauto]]).
Qed.

Lemma frames_loop_holds n o start frame c held : In FbcCapture held -> In CudaContext held ->
  watching (frames_loop n o start frame c) (fun _ live => live = held) held.
Proof.
  intros Hf Hc. assert (forall a, handling held Now a = Some held) as Hnow by (intros; by apply handling_same).
  assert (forall a, handling held Grab a = Some held) as Hgrab.
  { intros a. apply handling_same; [|done..]. cbn. by rewrite !bool_decide_eq_true_2 by (by apply list_elem_of_In). }
  revert frame c. induction n as [|n IH]; intros frame c; cbn [frames_loop]; [done|].
  intros started. rewrite Hnow. intros [ok i]. rewrite Hgrab. cbv beta iota. reduce_proc. refine (wp_Call _ _ _ _ _ _). intros finished. rewrite Hnow.
  cbv beta iota. reduce_proc. destruct ok; cbn [negb]; [|done]. destruct (device_buffer i); [|done]. destruct (_ || _); [done|]. destruct (count_frame _ _ c); [apply IH|done].
Qed.

Lemma probe_balanced h arguments tr r : runs (main h arguments) tr r -> balanced tr.
Proof.
  apply balanced_intro. unfold main. destruct (option_loop _ _ _) as [o|code]; [|done].
  eapply wp_then; [apply probe_setup_live|]. intros [held ended] live (-> & Hclean & Hheld). cbn [fst snd] in *.
  apply (wp_then _ _ _ (fun _ live => live = held)).
  - destruct ended as [code|]; [done|]. destruct (Hheld eq_refl) as [Hf Hc]. unfold judged_run.
    assert (forall a, handling held Now a = Some held) as Hnow by (intros; by apply handling_same).
    intros start. rewrite Hnow. cbn. eapply wp_then; [by apply frames_loop_holds|]. intros [c|out] ? ->; [|done].
    intros finish. by rewrite Hnow.
  - intros out ? ->. eapply wp_then; [exact Hclean|]. by intros [] ? ->.
Qed.
End sightings.


(** ** Runs *)

(** Drivers that capture the same picture again and again; the clock answers from a list. *)
Definition drivers (picture : grab_info) (clock : list Z) (c : request) : answers c * list Z :=
  (match c return answers c with
   | Make _ | Succeeds _ _ | CreateCapture _ | Copy _ | Write _ => true
   | Free _ => tt
   | GetStatus => Some (mkStatus true true [("DP-0", 7); ("DP-2", 9)]%string)
   | Grab => (true, picture)
   | Alloc _ size => Some (repeat 0 (Z.to_nat size))
   | Launch threads => (true, rev (seqZ 0 threads))
   | Now => List.hd 0 clock
   end, match c with Now => tl clock | _ => clock end).
Definition two_pixels : grab_info := mkGrab (Some [10; 128; 255; 255; 0; 43; 213; 255]) 2 1 8 true 0 1000900.

Lemma drivers_promised A (p : Calls.proc answers A) clock : Forall promised (run (drivers two_pixels) p clock).1.
Proof.
  apply run_Forall. intros s c. destruct c; cbn [drivers fst]; try done.
  - intros buffer [= <-]. cbn [dwWidth dwHeight dwByteSize two_pixels snd]. split_and!; try done. repeat constructor; lia.
  - intros memory Hsize [= <-]. rewrite repeat_length. lia.
  - cbn. symmetry. apply Permutation_rev.
Qed.

Definition run_raw (arguments : list string) := run (drivers two_pixels) (Raw.main arguments) [].
Definition two_frames : list string := ["--frames"; "2"; "--format"; "gbr-identity10"]%string.

(** Green, blue and red as sixteen-bit samples, twice. *)
Example raw_planes : written (run_raw two_frames).1 = [[2; 2; 173; 0; 40; 0; 0; 0; 255; 3; 87; 3]; [2; 2; 173; 0; 40; 0; 0; 0; 255; 3; 87; 3]].
Proof. vm_compute. reflexivity. Qed.

Lemma raw_capture_exact_witness :
  let t := run_raw two_frames in
  (exists o, Raw.option_loop two_frames Raw.default_options = inl o /\ runs (Raw.main two_frames) t.1 t.2 /\ Forall promised t.1 /\
    faithful (Raw.output_format o) t.1) /\ t.2 = Exit 0 /\ length (written t.1) = 2%nat.
Proof.
  intros t. split; [|split; vm_compute; reflexivity]. eexists. split; [reflexivity|].
  assert (runs (Raw.main two_frames) t.1 t.2) as Hr by apply run_runs. split; [exact Hr|]. assert (Forall promised t.1) as Hp by apply drivers_promised.
  split; [exact Hp|]. apply (raw_capture_exact two_frames _ t.1 t.2 eq_refl Hr Hp).
Defined.

Lemma raw_balanced_witness : let t := run_raw two_frames in runs (Raw.main two_frames) t.1 t.2 /\ balanced t.1.
Proof. intros t. assert (runs (Raw.main two_frames) t.1 t.2) as Hr by apply run_runs. split; [exact Hr|]. exact (raw_balanced two_frames t.1 t.2 Hr). Defined.

(** An argument the capture does not accept ends the process by an exception. *)
Lemma bad_count_terminates : (run_raw ["--frames"; "0"]%string).2 = Terminated /\ (run_raw ["--format"; "rgb"]%string).2 = Terminated.
Proof. by vm_compute. Qed.

Definition nvfbc_header : Probe.header := Probe.mkHeader 1 9 5 0.
Definition run_probe (arguments : list string) (clock : list Z) := run (drivers two_pixels) (Probe.main nvfbc_header arguments) clock.
Definition two_captures : list string := ["--frames"; "2"]%string.
Definition ticks : list Z := [1000000000; 1000000000; 1001000000; 1016666666; 1017666666; 1033333332].

Lemma probe_passes_witness :
  let t := run_probe two_captures ticks in
  exists o, Probe.option_loop nvfbc_header two_captures Probe.default_options = Probe.Run o /\ Probe.status_only o = false /\
  Forall (fun i => 0 <= ulTimestampUs i) (grabbed t.1) /\ runs (Probe.main nvfbc_header two_captures) t.1 (Exit 0) /\
  exists fs, grabbed t.1 = map (fun f => Probe.info f.2) fs /\ Sorted Z.le (map ts (new_ones fs)).
Proof.
  intros t. eexists. split; [reflexivity|]. split; [reflexivity|].
  assert (t.2 = Exit 0) as Hok by (vm_compute; reflexivity). assert (grabbed t.1 = [two_pixels; two_pixels]) as Hg by (vm_compute; reflexivity).
  assert (Forall (fun i => 0 <= ulTimestampUs i) (grabbed t.1)) as Hts by (rewrite Hg; repeat constructor; cbn; lia).
  assert (runs (Probe.main nvfbc_header two_captures) t.1 (Exit 0)) as Hr by (rewrite <- Hok; apply run_runs).
  split; [exact Hts|]. split; [exact Hr|].
  destruct (probe_passes nvfbc_header two_captures (Probe.mkOptions 2 60 false) t.1 eq_refl eq_refl Hts Hr) as (start & fs & finish & _ & Hfs & _ & (_ & _ & Hs) & _).
  exists fs. split; [exact Hfs|exact Hs].
Defined.

(** A count of more than 32 bits is cut before its range is checked. *)
Lemma long_count_accepted : Probe.option_loop nvfbc_header ["--frames"; "4294967297"]%string Probe.default_options = Probe.Run (Probe.mkOptions 1 60 false).
Proof. by vm_compute. Qed.
