(* ===== verification/TransportLoopback.v ===== *)
(** * TransportLoopback: probes/network/plank-transport/native-ffi-loopback.c

    The probe that runs a server and a client endpoint of the media transport in one process
    and exchanges one packet per lane.  The transport, the files, the allocator and the clock
    are the environment of [Calls]; the program is translated whole, its printed lines left
    out.  The size of the video frame and the client's MTU are macros of the build and so are
    arguments here. *)

From stdpp Require Import gmap.
From S2P Require Import Prelude.
From S2P Require Import Endian.
From S2P Require Import Wire.
From S2P Require Import SetupWire.
From S2P Require Import Profiles.
From S2P Require Import Float32.
From S2P Require Import Calls.
From S2P Require Import VideoRecovery.
From Stdlib Require Import SpecFloat.
#[local] Open Scope Z_scope.

(** ** The transport's interface (plank_transport.h) *)

Definition PLANK_TRANSPORT_TIMEOUT : Z := 1.
Definition PLANK_TRANSPORT_ERROR_RUNTIME : Z := -3.
Definition PLANK_TRANSPORT_ERROR_BUFFER_TOO_SMALL : Z := -5.
Definition PLANK_TRANSPORT_STATE_PEER_VALIDATION : Z := 3.
Definition PLANK_TRANSPORT_STATE_SETUP_READY : Z := 4.
Definition PLANK_TRANSPORT_MODE_SERVER : Z := 1.
Definition PLANK_TRANSPORT_MODE_CLIENT : Z := 2.
Definition PLANK_TRANSPORT_SESSION_ACTIVE : Z := 0.
Definition PLANK_TRANSPORT_SESSION_SETUP : Z := 1.
Definition PLANK_TRANSPORT_NATIVE_VIDEO_CODEC_HEVC : Z := 0x48455643.
Definition PLANK_TRANSPORT_NATIVE_VIDEO_FLAG_KEY : Z := 1.
Definition PLANK_TRANSPORT_SETUP_SERVER_INFO_REQUEST : Z := 1.
Definition PLANK_TRANSPORT_SETUP_STATUS_OK : Z := 0.

Record PlankTransportConfig := mkConfig {
  mode : Z; handshake_timeout_ms : Z; idle_timeout_ms : Z; keep_alive_interval_ms : Z; session_mode : Z; max_udp_payload_size : Z;
  bind_address : option string; remote_address : option string; server_name : option string; certificate_path : option string;
  private_key_path : option string; certificate_sha256 : option string; session_token : option string }.

Record video_info := mkVideo { codec : Z; flags : Z; frame_number : Z; pts : Z; host_processing_latency : Z }.
Record audio_info := mkAudio { frame_samples : Z; audio_pts : Z }.

Record PlankTransportNativeStats := mkStats {
  video_frames_sent : Z; video_bytes_sent : Z; video_frames_received : Z; video_bytes_received : Z; video_send_drops : Z;
  video_receive_drops : Z; audio_packets_sent : Z; audio_packets_received : Z; audio_send_drops : Z; audio_receive_drops : Z;
  input_packets_sent : Z; input_packets_received : Z; data_packets_sent : Z; data_packets_received : Z; kyproto_packets_dropped : Z;
  video_fec_source_symbols : Z; video_fec_source_symbols_missing : Z; video_fec_source_symbols_unrecovered : Z }.
(** [sizeof]: a padded 32-bit size and twenty-two 64-bit counters. *)
Definition sizeof_stats : Z := 8 + 22 * 8.

Inductive endpoint := Server | Client.
#[export] Instance endpoint_eq_dec : EqDecision endpoint.
Proof. solve_decision. Defined.

(** What is sent on the four lanes. *)
Inductive packet :=
  | Video (info : video_info) (payload : list Z)
  | Audio (info : audio_info) (payload : list Z)
  | Input (type : Z) (payload : list Z)
  | Data (payload : list Z).

(** ** The environment *)

Inductive handle := Endpoint (e : endpoint) | CertificateFile | ExpectedBytes | ReceivedBytes | VideoBytes | VideoReceived.
#[export] Instance loopback_handle_eq_dec : EqDecision handle.
Proof. solve_decision. Defined.

Inductive request :=
  | Create (e : endpoint) (config : PlankTransportConfig)
  | Free (h : handle)
  | Start (e : endpoint)
  | State (e : endpoint)
  | PeerCertificate (e : endpoint) (capacity : option Z)    (* none: no buffer; the result, the size, the buffer afterwards *)
  | Approve (e : endpoint)
  | Authorize (e : endpoint)
  | WaitReady (e : endpoint) (timeout_ms : Z)
  | Send (e : endpoint) (p : packet)
  | VideoReceive (e : endpoint) (capacity timeout_ms : Z)   (* the result and, when it is OK, what was received *)
  | AudioReceive (e : endpoint) (capacity timeout_ms : Z)
  | InputReceive (e : endpoint) (capacity timeout_ms : Z)
  | DataReceive (e : endpoint) (capacity timeout_ms : Z)
  | Stats (e : endpoint) (struct_size : Z)
  | LastError (e : endpoint)
  | Stop (e : endpoint)
  | Open (path : string)
  | Seek (to_end : bool)                                    (* whether it succeeded *)
  | Tell
  | Malloc (h : handle) (size : Z)
  | Fread (size : Z)                                        (* how many bytes were read; the buffer afterwards *)
  | Nanosleep
  | MonotonicTime.                                          (* whether it succeeded; seconds and nanoseconds *)

Definition answers (c : request) : Type :=
  match c with
  | Create _ _ | Start _ | State _ | Approve _ | Authorize _ | WaitReady _ _ | Send _ _ | Stop _ | Tell => Z
  | Free _ | LastError _ | Nanosleep => unit
  | PeerCertificate _ _ => Z * Z * list Z
  | VideoReceive _ _ _ => Z * (video_info * list Z)
  | AudioReceive _ _ _ => Z * (audio_info * list Z)
  | InputReceive _ _ _ => Z * (Z * list Z)
  | DataReceive _ _ _ => Z * list Z
  | Stats _ _ => Z * PlankTransportNativeStats
  | Open _ | Seek _ | Malloc _ _ => bool
  | Fread _ => Z * list Z
  | MonotonicTime => bool * (Z * Z)
  end.

#[local] Abbreviation proc := (Calls.proc answers).
#[local] Abbreviation ask := (Calls.call (ans := answers)).

(** Each part of the program either lets the next one run or ends it: by [goto failure], or by
    [abort]. *)
Inductive verdict := Continue | Failure | Aborted.
Definition andthen (p q : proc verdict) : proc verdict := v ← p; match v with Continue => q | v => mret v end.
#[local] Infix ">>>" := andthen (at level 60, right associativity).
Definition require (ok : bool) : proc verdict := mret (if ok then Continue else Failure).
(** A call that must have this result. *)
Definition expect (c : proc Z) (result : Z) : proc verdict := r ← c; require (r =? result).

#[export] Instance loopback_handling : Handling answers handle := {
  handle_eq_dec := _;
  made c := match c with
    | Create e _ => fun r => if r =? PLANK_TRANSPORT_OK then [Endpoint e] else []
    | Open _ => fun ok => if ok then [CertificateFile] else []
    | Malloc h _ => fun ok => if ok then [h] else []
    | _ => fun _ => []
    end;
  freed c := match c with Free h => [h] | _ => [] end;
  needed c := match c with
    | Start e | State e | Approve e | Authorize e | WaitReady e _ | Stats e _ | LastError e | Stop e
    | AudioReceive e _ _ | InputReceive e _ _ | DataReceive e _ _ => [Endpoint e]
    | Send e p => Endpoint e :: match p with Video _ _ => [VideoBytes] | _ => [] end
    | PeerCertificate e capacity => Endpoint e :: match capacity with Some _ => [ReceivedBytes] | None => [] end
    | VideoReceive e _ _ => [Endpoint e; VideoReceived]
    | Seek _ | Tell => [CertificateFile]
    | Fread _ => [CertificateFile; ExpectedBytes]
    | _ => []
    end;
  parents _ := [];
  dies_with _ := [] }.

(** ** Setting up *)

Definition base_config (m : Z) (token : string) : PlankTransportConfig :=
  mkConfig m 5000 10000 1000 0 0 None None None None None None (Some token).

Record Arguments_ := mkArguments {
  bind : string; remote : string; name : string; cert : string; key_file : string; hash : string; expected_cert_der : option string }.
(** [None]: the usage is printed. *)
Definition read_arguments (args : list string) : option Arguments_ :=
  match args with
  | [b; r; n; c; k; h] => Some (mkArguments b r n c k h None)
  | [b; r; n; c; k; h; d] => Some (mkArguments b r n c k h (Some d))
  | _ => None
  end.
Definition profile_validation (a : Arguments_) : bool := bool_decide (is_Some (expected_cert_der a)).

Definition token : string := "plank-native-ffi-loopback".
Definition session_mode_of (a : Arguments_) : Z := if profile_validation a then PLANK_TRANSPORT_SESSION_SETUP else PLANK_TRANSPORT_SESSION_ACTIVE.
Definition server_config (a : Arguments_) : PlankTransportConfig :=
  let c := base_config PLANK_TRANSPORT_MODE_SERVER token in
  mkConfig (mode c) (handshake_timeout_ms c) (idle_timeout_ms c) (keep_alive_interval_ms c) (session_mode_of a) (max_udp_payload_size c)
    (Some (bind a)) (remote_address c) (server_name c) (Some (cert a)) (Some (key_file a)) (certificate_sha256 c) (session_token c).
Definition client_config (client_mtu : Z) (a : Arguments_) : PlankTransportConfig :=
  let c := base_config PLANK_TRANSPORT_MODE_CLIENT token in
  mkConfig (mode c) (handshake_timeout_ms c) (idle_timeout_ms c) (keep_alive_interval_ms c) (session_mode (server_config a)) client_mtu
    (bind_address c) (Some (remote a)) (Some (name a)) (certificate_path c) (private_key_path c)
    (if profile_validation a then None else Some (hash a)) (session_token c).

(** Which of the two pointers are set, and the verdict. *)
Definition create_endpoints (client_mtu : Z) (a : Arguments_) : proc (list endpoint * verdict) :=
  server ← ask (Create Server (server_config a));
  if negb (server =? PLANK_TRANSPORT_OK) then mret ([], Failure) else
  client ← ask (Create Client (client_config client_mtu a));
  if negb (client =? PLANK_TRANSPORT_OK) then mret ([Server], Failure) else
  v ← expect (ask (Start Server)) PLANK_TRANSPORT_OK >>> expect (ask (Start Client)) PLANK_TRANSPORT_OK;
  mret ([Client; Server], v).

(** Up to [attempts] looks at a condition, with a pause after each that fails. *)
Fixpoint poll (attempts : nat) (met : proc bool) : proc unit :=
  match attempts with
  | O => mret tt
  | S attempts => ok ← met; if ok : bool then mret tt else ask Nanosleep;; poll attempts met
  end.

(** ** Validating the peer before the session *)

(** An array initialised from a string literal, with its terminator. *)
Definition literal (s : string) : list Z := c_bytes s ++ [0].
Definition blocked : list Z := literal "blocked".

Definition client_validates : proc bool := s ← ask (State Client); mret (s =? PLANK_TRANSPORT_STATE_PEER_VALIDATION).
Definition both_setup_ready : proc bool :=
  c ← ask (State Client);
  if negb (c =? PLANK_TRANSPORT_STATE_SETUP_READY) then mret false
  else s ← ask (State Server); mret (s =? PLANK_TRANSPORT_STATE_SETUP_READY).
Definition holds (condition : proc bool) : proc verdict := ok ← condition; require ok.

(** The size of the file and its bytes, which stay in [ExpectedBytes], next to a buffer of that
    size. *)
Definition read_expected (path : string) : proc (option (Z * list Z)) :=
  file ← ask (Open path);
  if negb file then mret None else
  at_end ← ask (Seek true);
  if negb at_end then ask (Free CertificateFile);; mret None else
  size ← ask Tell;
  rewound ← (if size <=? 0 then mret false else ask (Seek false));
  if negb rewound then ask (Free CertificateFile);; mret None else
  expected ← ask (Malloc ExpectedBytes size);
  received ← ask (Malloc ReceivedBytes size);
  '(count, bytes) ← (if expected && received then ask (Fread size) else mret (-1, []));
  ask (Free CertificateFile);;
  if count =? size then mret (Some (size, bytes))
  else
    (if expected : bool then ask (Free ExpectedBytes) else mret tt);;
    (if received : bool then ask (Free ReceivedBytes) else mret tt);;
    mret None.

Definition compare_certificate (path : string) : proc verdict :=
  file ← read_expected path;
  match file with
  | None => mret Failure
  | Some (expected_size, expected) =>
      '(r, required_size, _) ← ask (PeerCertificate Client None);
      same ← (if (r =? PLANK_TRANSPORT_ERROR_BUFFER_TOO_SMALL) && (required_size =? expected_size) then
                '(r, _, received) ← ask (PeerCertificate Client (Some expected_size));
                mret ((r =? PLANK_TRANSPORT_OK) && bool_decide (expected = received))
              else mret false);
      ask (Free ExpectedBytes);;
      ask (Free ReceivedBytes);;
      require same
  end.

(** The packet that [plank_transport_setup_encode] makes, if it does. *)
Definition setup_request : option (list Z) :=
  match plank_transport_setup_encode PLANK_TRANSPORT_SETUP_SERVER_INFO_REQUEST 0 PLANK_TRANSPORT_SETUP_STATUS_OK 1 None 0
          (Some (repeat 0 (Z.to_nat PLANK_TRANSPORT_SETUP_HEADER_SIZE))) PLANK_TRANSPORT_SETUP_HEADER_SIZE (Some 0) with
  | Some (0, Some buffer, Some size) => copy_from buffer 0 size
  | _ => None
  end.
Definition is_info_request (received : list Z) : bool :=
  match plank_transport_setup_decode (Some received) (len received) (Some (mkSetupPacket 0 0 0 0 0 0)) with
  | Some (0, Some d) => setup_type d =? PLANK_TRANSPORT_SETUP_SERVER_INFO_REQUEST
  | _ => false
  end.
Definition exchange_setup : proc verdict :=
  match setup_request with
  | None => mret Failure
  | Some setup =>
      expect (ask (Send Client (Data setup))) PLANK_TRANSPORT_OK >>>
      ('(r, received) ← ask (DataReceive Server PLANK_TRANSPORT_SETUP_HEADER_SIZE 5000);
       require ((r =? PLANK_TRANSPORT_OK) && is_info_request received))
  end.

(** Nothing of the application may pass before the certificate is approved, and no input before
    the session is authorized. *)
Definition validate_profile (path : string) : proc verdict :=
  (poll 700 client_validates;; holds client_validates) >>>
  expect (ask (Send Client (Data blocked))) PLANK_TRANSPORT_ERROR_INVALID_STATE >>>
  compare_certificate path >>>
  expect (ask (Approve Client)) PLANK_TRANSPORT_OK >>>
  (poll 700 both_setup_ready;; holds both_setup_ready) >>>
  exchange_setup >>>
  expect (ask (Send Client (Input 1 blocked))) PLANK_TRANSPORT_ERROR_INVALID_STATE >>>
  expect (ask (Authorize Server)) PLANK_TRANSPORT_OK >>>
  expect (ask (Authorize Client)) PLANK_TRANSPORT_OK.

(** ** The four lanes *)

(** What the failures print is asked of the endpoints. *)
Definition report : proc unit :=
  '(r, _) ← ask (Stats Server sizeof_stats);
  if r =? PLANK_TRANSPORT_OK then '(_, _) ← ask (Stats Client sizeof_stats); mret tt else mret tt.
Definition wait_ready : proc verdict :=
  v ← expect (ask (WaitReady Client 7000)) PLANK_TRANSPORT_OK >>> expect (ask (WaitReady Server 7000)) PLANK_TRANSPORT_OK;
  match v with
  | Continue => mret Continue
  | v => ask (LastError Client);; report;; ask (LastError Server);; mret v
  end.

Definition video_payload (video_size : Z) : list Z := map (fun i => Z.land (u64 (u64 (i * 37) + 11)) 0xff) (seqZ 0 video_size).
Definition sent_video : video_info := mkVideo PLANK_TRANSPORT_NATIVE_VIDEO_CODEC_HEVC PLANK_TRANSPORT_NATIVE_VIDEO_FLAG_KEY 42 90000 17.
Definition same_video (i j : video_info) : bool :=
  (codec i =? codec j) && (flags i =? flags j) && (frame_number i =? frame_number j) && (pts i =? pts j) &&
  (host_processing_latency i =? host_processing_latency j).
Definition free_video : proc unit := ask (Free VideoBytes);; ask (Free VideoReceived).

Definition exchange_video (video_size : Z) : proc verdict :=
  video ← ask (Malloc VideoBytes video_size);
  received ← ask (Malloc VideoReceived video_size);
  if negb (video && received) then
    (if video : bool then ask (Free VideoBytes) else mret tt);;
    (if received : bool then ask (Free VideoReceived) else mret tt);;
    mret Failure
  else
  '(started, _) ← ask MonotonicTime;
  if negb started then mret Aborted else
  sent ← ask (Send Server (Video sent_video (video_payload video_size)));
  if negb (sent =? PLANK_TRANSPORT_OK) then free_video;; mret Failure else
  '(r, (info, payload)) ← ask (VideoReceive Client video_size 5000);
  '(completed, _) ← ask MonotonicTime;
  if negb completed then mret Aborted else
  if (r =? PLANK_TRANSPORT_OK) && bool_decide (video_payload video_size = payload) && same_video info sent_video
  then free_video;; mret Continue
  else ask (LastError Client);; report;; free_video;; mret Failure.

Definition audio : list Z := literal "raw-opus-packet".
Definition sent_audio : audio_info := mkAudio 240 240.
Definition exchange_audio : proc verdict :=
  expect (ask (Send Server (Audio sent_audio audio))) PLANK_TRANSPORT_OK >>>
  ('(r, (info, payload)) ← ask (AudioReceive Client (len audio) 5000);
   if (r =? PLANK_TRANSPORT_OK) && bool_decide (audio = payload) && (frame_samples info =? frame_samples sent_audio) && (audio_pts info =? audio_pts sent_audio)
   then mret Continue
   else ask (LastError Client);; ask (LastError Server);; mret Failure).

Definition input : list Z := literal "wacom-tip-transition".
Definition exchange_input : proc verdict :=
  expect (ask (Send Client (Input 7 input))) PLANK_TRANSPORT_OK >>>
  ('(r, (type, payload)) ← ask (InputReceive Server (len input) 5000);
   require ((r =? PLANK_TRANSPORT_OK) && (type =? 7) && bool_decide (input = payload))).

Definition client_data : list Z := literal "client-control".
Definition server_data : list Z := literal "server-control".
Definition receive_data (e : endpoint) (data : list Z) : proc verdict :=
  '(r, payload) ← ask (DataReceive e 32 5000); require ((r =? PLANK_TRANSPORT_OK) && bool_decide (data = payload)).
Definition exchange_data : proc verdict :=
  expect (ask (Send Client (Data client_data))) PLANK_TRANSPORT_OK >>>
  receive_data Server client_data >>>
  expect (ask (Send Server (Data server_data))) PLANK_TRANSPORT_OK >>>
  receive_data Client server_data.

(** ** Counters *)

(** The statistics refuse a structure of the wrong size. *)
Definition refuse_other_abi : proc verdict :=
  '(r, _) ← ask (Stats Client (sizeof_stats - 8)); require (r =? PLANK_TRANSPORT_ERROR_INVALID_ARGUMENT).

(** Completion is counted and sampled later than the packets arrive. *)
Definition sender_settled : proc bool :=
  '(r, s) ← ask (Stats Server sizeof_stats); mret (negb (r =? PLANK_TRANSPORT_OK) || (1 <=? video_frames_sent s) && (1 <=? audio_packets_sent s)).
Definition symbols_sampled : proc bool :=
  '(r, c) ← ask (Stats Client sizeof_stats); mret (negb (r =? PLANK_TRANSPORT_OK) || negb (video_fec_source_symbols c =? 0)).

Definition counters_match (profile : bool) (video_size : Z) (s c : PlankTransportNativeStats) : bool :=
  (video_frames_sent s =? 1) && (video_frames_received c =? 1) && (video_bytes_sent s =? video_size) && (video_bytes_received c =? video_size) &&
  (audio_packets_sent s =? 1) && (audio_packets_received c =? 1) && (input_packets_sent c =? 1) && (input_packets_received s =? 1) &&
  (data_packets_sent s =? 1) && (data_packets_received s =? (if profile then 2 else 1)) && (data_packets_sent c =? (if profile then 2 else 1)) &&
  (data_packets_received c =? 1) && (video_send_drops s =? 0) && (video_receive_drops c =? 0) && (audio_send_drops s =? 0) &&
  (audio_receive_drops c =? 0) && (kyproto_packets_dropped c =? 0) && negb (video_fec_source_symbols c =? 0) &&
  (video_fec_source_symbols_missing c <=? video_fec_source_symbols c) && (video_fec_source_symbols_unrecovered c =? 0).

Definition check_counters (profile : bool) (video_size : Z) : proc verdict :=
  '(r, s) ← ask (Stats Server sizeof_stats);
  if negb (r =? PLANK_TRANSPORT_OK) then mret Failure else
  '(r, c) ← ask (Stats Client sizeof_stats);
  require ((r =? PLANK_TRANSPORT_OK) && counters_match profile video_size s c).

(** ** The peer's closure *)

(** The second packet has to be counted within the attempts. *)
Fixpoint await_data (attempts : nat) : proc verdict :=
  match attempts with
  | O => mret Failure
  | S attempts =>
      '(r, c) ← ask (Stats Client sizeof_stats);
      if negb (r =? PLANK_TRANSPORT_OK) then mret Failure
      else if data_packets_received c =? 2 then mret Continue
      else ask Nanosleep;; await_data attempts
  end.

Fixpoint await_closure (attempts : nat) : proc Z :=
  match attempts with
  | O => mret PLANK_TRANSPORT_TIMEOUT
  | S attempts =>
      '(r, _) ← ask (DataReceive Client 32 50);
      if negb (r =? PLANK_TRANSPORT_TIMEOUT) then mret r else await_closure attempts
  end.

Definition milliseconds (start finish : Z * Z) : spec_float :=
  double_add (double_mul (double_of_int (finish.1 - start.1)) (double_of_int 1000)) (double_div (double_of_int (finish.2 - start.2)) (double_of_int 1000000)).
Definition orderly (start finish : Z * Z) : bool := negb (SFleb (double_of_int 2000) (milliseconds start finish)).

(** The packet queued before the stop comes first, then the error; the result of these two
    clock readings is not looked at. *)
Definition peer_closes (start : Z * Z) : proc verdict :=
  closure_result ← await_closure 40;
  if negb (closure_result =? PLANK_TRANSPORT_ERROR_RUNTIME) then ask (State Client);; ask (LastError Client);; mret Failure
  else '(_, finish) ← ask MonotonicTime; require (orderly start finish).
Definition check_closure : proc verdict :=
  expect (ask (Send Server (Data server_data))) PLANK_TRANSPORT_OK >>>
  await_data 200 >>>
  ('(_, start) ← ask MonotonicTime; ask (Stop Server);; receive_data Client server_data >>> peer_closes start).

(** ** The program *)

Inductive ending := Exit (code : Z) | Abort_.

Definition exchange (a : Arguments_) (video_size : Z) : proc verdict :=
  (match expected_cert_der a with Some path => validate_profile path | None => mret Continue end) >>>
  wait_ready >>> exchange_video video_size >>> exchange_audio >>> exchange_input >>> exchange_data >>>
  refuse_other_abi >>> (poll 200 sender_settled;; poll 200 symbols_sampled;; mret Continue).

Fixpoint destroy (endpoints : list endpoint) : proc unit :=
  match endpoints with [] => mret tt | e :: endpoints => ask (Free (Endpoint e));; destroy endpoints end.

Definition main (client_mtu video_size : Z) (args : list string) : proc ending :=
  match read_arguments args with
  | None => mret (Exit 2)
  | Some a =>
      '(endpoints, created) ← create_endpoints client_mtu a;
      v ← mret created >>> exchange a video_size >>> check_counters (profile_validation a) video_size >>> check_closure;
      match v with
      | Continue => ask (Stop Client);; destroy endpoints;; mret (Exit 0)
      | Failure => destroy endpoints;; mret (Exit 1)
      | Aborted => mret Abort_
      end
  end.

(** ** What passed between the endpoints *)

(** The history of a run: what the lanes took, refused and gave, the steps of the session and
    the readings of the clock.  A receive that found nothing in time leaves no entry. *)
Inductive entry :=
  | Accepted (e : endpoint) (p : packet)
  | Refused (e : endpoint) (p : packet) (result : Z)
  | Delivered (e : endpoint) (p : packet)
  | Failed (e : endpoint) (result : Z)
  | Approved (e : endpoint)
  | Authorized (e : endpoint)
  | Stopped (e : endpoint)
  | Clock (time : Z * Z).

Definition receipt (e : endpoint) (r : Z) (p : packet) : list entry :=
  if r =? PLANK_TRANSPORT_OK then [Delivered e p] else if r =? PLANK_TRANSPORT_TIMEOUT then [] else [Failed e r].
Definition entries (c : request) : answers c -> list entry :=
  match c with
  | Send e p => fun r => [if r =? PLANK_TRANSPORT_OK then Accepted e p else Refused e p r]
  | VideoReceive e _ _ => fun a => receipt e a.1 (Video a.2.1 a.2.2)
  | AudioReceive e _ _ => fun a => receipt e a.1 (Audio a.2.1 a.2.2)
  | InputReceive e _ _ => fun a => receipt e a.1 (Input a.2.1 a.2.2)
  | DataReceive e _ _ => fun a => receipt e a.1 (Data a.2)
  | Approve e => fun r => if r =? PLANK_TRANSPORT_OK then [Approved e] else []
  | Authorize e => fun r => if r =? PLANK_TRANSPORT_OK then [Authorized e] else []
  | Stop e => fun _ => [Stopped e]
  | MonotonicTime => fun a => [Clock a.2]
  | _ => fun _ => []
  end.
Definition history (tr : list (Calls.event answers)) : list entry := flat_map (fun e => entries (projT1 e) (projT2 e)) tr.

Lemma history_app tr1 tr2 : history (tr1 ++ tr2) = history tr1 ++ history tr2.
Proof. apply flat_map_app. Qed.

(** The monitor that keeps it. *)
Definition log (h : list entry) (c : request) (a : answers c) : option (list entry) := Some (h ++ entries c a).
Lemma observe_log h tr : observe log h tr = Some (h ++ history tr).
Proof.
  revert h. induction tr as [|[c a] tr IH]; intros h; cbn [observe log mbind option_bind history flat_map projT1 projT2]; [by rewrite app_nil_r|].
  by rewrite IH, <- app_assoc.
Qed.

(** A part that lets the program go on has added entries as [P] says. *)
Definition adds (p : proc verdict) (P : list entry -> Prop) : Prop :=
  forall h, wp log p (fun v h' => v = Continue -> exists l, h' = h ++ l /\ P l) h.
Definition followed (P Q : list entry -> Prop) (l : list entry) : Prop := exists l1 l2, l = l1 ++ l2 /\ P l1 /\ Q l2.

Lemma adds_runs p P tr : adds p P -> runs p tr Continue -> P (history tr).
Proof.
  intros Hp Hr. destruct (wp_sound _ _ _ _ _ _ (Hp []) Hr) as (h & Ho & Hh). rewrite observe_log in Ho. injection Ho as <-.
  destruct (Hh eq_refl) as (l & Hl & HP). cbn in Hl. by subst l.
Qed.
Lemma adds_then p q P Q : adds p P -> adds q Q -> adds (p >>> q) (followed P Q).
Proof.
  intros Hp Hq h. eapply wp_then; [apply Hp|]. intros v h1 Hv. destruct v; try done. destruct (Hv eq_refl) as (l1 & -> & H1).
  eapply wp_mono; [apply Hq|]. intros v h2 Hv2 ->. destruct (Hv2 eq_refl) as (l2 & -> & H2). rewrite <- app_assoc. eexists. split; [done|].
  by exists l1, l2.
Qed.

Ltac log_step := ask_with ltac:(fun a => let T := type of a in let T := eval hnf in T in change T in a;
    lazymatch T with bool => destruct a | unit => destruct a | prod _ _ => destruct a as [? ?] | _ => idtac end)
  ltac:(fun x => let y := eval cbv beta iota delta [log entries receipt] in x in change x with y).

(** At the end of a part: the tests it made, then what it added. *)
Lemma same_video_eq i j : same_video i j = true -> i = j.
Proof. destruct i, j. unfold same_video. cbn. rewrite !andb_true_iff, !Z.eqb_eq. intuition congruence. Qed.
Ltac facts := repeat match goal with
  | H : (_ && _) = true |- _ => apply andb_true_iff in H as [? ?]
  | H : negb _ = false |- _ => apply negb_false_iff in H
  | H : (_ =? _) = true |- _ => apply Z.eqb_eq in H; subst
  | H : bool_decide _ = true |- _ => apply bool_decide_eq_true_1 in H; subst
  | H : same_video _ _ = true |- _ => apply same_video_eq in H; subst
  end.
Ltac added := unfold require; log_step; intros Hv; try discriminate Hv;
  repeat match type of Hv with context [if ?b then _ else _] => destruct b eqn:?; [|discriminate Hv] end; facts;
  (eexists; split; [rewrite <- ?app_assoc; reflexivity|]); try reflexivity.

Lemma adds_send e p r : adds (expect (ask (Send e p)) r) (eq [if r =? PLANK_TRANSPORT_OK then Accepted e p else Refused e p r]).
Proof. intros h. unfold expect. added. Qed.
Lemma adds_approve e : adds (expect (ask (Approve e)) PLANK_TRANSPORT_OK) (eq [Approved e]).
Proof. intros h. unfold expect. added. Qed.
Lemma adds_authorize e : adds (expect (ask (Authorize e)) PLANK_TRANSPORT_OK) (eq [Authorized e]).
Proof. intros h. unfold expect. added. Qed.

Lemma poll_adds n met h : wp log met (fun _ h' => h' = h) h -> wp log (poll n met) (fun _ h' => h' = h) h.
Proof.
  intros Hm. induction n as [|n IH]; [done|]. cbn [poll]. eapply wp_then; [apply Hm|]. intros [] ? ->; [done|]. intros []. cbn [log entries].
  rewrite app_nil_r. apply IH.
Qed.

Lemma adds_weaken p P Q : adds p P -> (forall l, P l -> Q l) -> adds p Q.
Proof. intros Hp HQ h. eapply wp_mono; [apply Hp|]. intros v h' Hv Hc. destruct (Hv Hc) as (l & -> & HP). eauto. Qed.

Definition setup_packet : list Z := default [] setup_request.
Lemma setup_request_ok : setup_request = Some setup_packet.
Proof. vm_compute. reflexivity. Qed.

Lemma adds_setup : adds exchange_setup (fun l => exists p, is_info_request p = true /\ l = [Accepted Client (Data setup_packet); Delivered Server (Data p)]).
Proof.
  unfold exchange_setup. rewrite setup_request_ok. eapply adds_weaken.
  - apply adds_then; [apply adds_send|]. instantiate (1 := fun l => exists p, is_info_request p = true /\ l = [Delivered Server (Data p)]).
    intros h. added. eauto.
  - intros l (l1 & l2 & -> & <- & p & Hp & ->). by exists p.
Qed.

Lemma silent_verdict p : (forall h, wp log p (fun _ h' => h' = h) h) -> adds p (eq []).
Proof. intros Hp h. eapply wp_mono; [apply Hp|]. intros v h' -> _. exists []. by rewrite app_nil_r. Qed.

Ltac silent := log_step; rewrite ?app_nil_r; try reflexivity.
Lemma read_expected_silent path h : wp log (read_expected path) (fun _ h' => h' = h) h.
Proof. unfold read_expected. silent. Qed.
Lemma compare_certificate_silent path h : wp log (compare_certificate path) (fun _ h' => h' = h) h.
Proof.
  unfold compare_certificate. eapply wp_then; [apply read_expected_silent|]. intros [[size expected]|] ? ->; [|done]. unfold require. silent.
Qed.
Lemma polled_silent n condition h : (forall h, wp log condition (fun _ h' => h' = h) h) -> wp log (poll n condition;; holds condition) (fun _ h' => h' = h) h.
Proof.
  intros Hc. eapply wp_then; [by apply poll_adds|]. intros _ ? ->. unfold holds. eapply wp_then; [apply Hc|]. by intros b ? ->.
Qed.
Lemma client_validates_silent h : wp log client_validates (fun _ h' => h' = h) h.
Proof. unfold client_validates. silent. Qed.
Lemma both_ready_silent h : wp log both_setup_ready (fun _ h' => h' = h) h.
Proof. unfold both_setup_ready. silent. Qed.
Lemma report_silent h : wp log report (fun _ h' => h' = h) h.
Proof. unfold report. silent. Qed.
Lemma wait_ready_silent h : wp log wait_ready (fun _ h' => h' = h) h.
Proof. unfold wait_ready, andthen, expect, require, report. silent. Qed.

(** The session before the lanes, with the packet that was received in place of the request. *)
Definition validated (p : list Z) : list entry :=
  [Refused Client (Data blocked) PLANK_TRANSPORT_ERROR_INVALID_STATE; Approved Client;
   Accepted Client (Data setup_packet); Delivered Server (Data p);
   Refused Client (Input 1 blocked) PLANK_TRANSPORT_ERROR_INVALID_STATE; Authorized Server; Authorized Client].
Lemma adds_prefix p q P : (forall h, wp log p (fun _ h' => h' = h) h) -> adds q P -> adds (p >>> q) P.
Proof.
  intros Hp Hq. eapply adds_weaken; [apply adds_then; [by apply silent_verdict|exact Hq]|]. by intros l (l1 & l2 & -> & <- & HP).
Qed.
Lemma adds_next p q l0 P : adds p (eq l0) -> adds q P -> adds (p >>> q) (fun l => exists l', l = l0 ++ l' /\ P l').
Proof. intros Hp Hq. eapply adds_weaken; [by apply adds_then|]. intros l (l1 & l2 & -> & <- & HP). eauto. Qed.

Lemma adds_validate path : adds (validate_profile path) (fun l => exists p, is_info_request p = true /\ l = validated p).
Proof.
  unfold validate_profile. eapply adds_weaken.
  - apply adds_prefix; [intros h; apply polled_silent, client_validates_silent|].
    apply adds_next; [apply adds_send|]. apply adds_prefix; [apply compare_certificate_silent|]. apply adds_next; [apply adds_approve|].
    apply adds_prefix; [intros h; apply polled_silent, both_ready_silent|]. apply adds_then; [apply adds_setup|].
    apply adds_next; [apply adds_send|]. apply adds_next; [apply adds_authorize|apply adds_authorize].
  - intros l (l1 & -> & l2 & -> & l3 & l4 & -> & (p & Hp & ->) & l5 & -> & l6 & -> & <-). by exists p.
Qed.

Lemma adds_video n : adds (exchange_video n) (fun l => exists start finish,
  l = [Clock start; Accepted Server (Video sent_video (video_payload n)); Delivered Client (Video sent_video (video_payload n)); Clock finish]).
Proof. intros h. unfold exchange_video, free_video, report. added. eauto. Qed.
Lemma adds_audio : adds exchange_audio (eq [Accepted Server (Audio sent_audio audio); Delivered Client (Audio sent_audio audio)]).
Proof.
  unfold exchange_audio. eapply adds_weaken; [apply adds_next; [apply adds_send|]|].
  - instantiate (1 := eq [Delivered Client (Audio sent_audio audio)]). intros h. added. destruct a; cbn in *; subst; reflexivity.
  - by intros l (l' & -> & <-).
Qed.
Lemma adds_input : adds exchange_input (eq [Accepted Client (Input 7 input); Delivered Server (Input 7 input)]).
Proof.
  unfold exchange_input. eapply adds_weaken; [apply adds_next; [apply adds_send|]|].
  - instantiate (1 := eq [Delivered Server (Input 7 input)]). intros h. added.
  - by intros l (l' & -> & <-).
Qed.
Lemma adds_receive e data : adds (receive_data e data) (eq [Delivered e (Data data)]).
Proof. intros h. unfold receive_data. added. Qed.
Lemma adds_data : adds exchange_data (eq [Accepted Client (Data client_data); Delivered Server (Data client_data); Accepted Server (Data server_data); Delivered Client (Data server_data)]).
Proof.
  unfold exchange_data. eapply adds_weaken.
  - apply adds_next; [apply adds_send|]. apply adds_next; [apply adds_receive|]. apply adds_next; [apply adds_send|apply adds_receive].
  - by intros l (? & -> & ? & -> & ? & -> & <-).
Qed.

(** The lanes once the session is ready. *)
Definition exchanged (n : Z) (start finish : Z * Z) : list entry :=
  [Clock start; Accepted Server (Video sent_video (video_payload n)); Delivered Client (Video sent_video (video_payload n)); Clock finish;
   Accepted Server (Audio sent_audio audio); Delivered Client (Audio sent_audio audio);
   Accepted Client (Input 7 input); Delivered Server (Input 7 input);
   Accepted Client (Data client_data); Delivered Server (Data client_data);
   Accepted Server (Data server_data); Delivered Client (Data server_data)].

Lemma adds_exchange a n : adds (exchange a n) (fun l => exists p start finish, is_info_request p = true /\
  l = (if profile_validation a then validated p else []) ++ exchanged n start finish).
Proof.
  assert (adds (wait_ready >>> exchange_video n >>> exchange_audio >>> exchange_input >>> exchange_data >>>
    refuse_other_abi >>> (poll 200 sender_settled;; poll 200 symbols_sampled;; mret Continue)) (fun l => exists start finish, l = exchanged n start finish)) as Hlanes.
  { eapply adds_weaken.
    - apply adds_prefix; [apply wait_ready_silent|]. apply adds_then; [apply adds_video|]. apply adds_next; [apply adds_audio|].
      apply adds_next; [apply adds_input|]. apply adds_next; [apply adds_data|]. apply adds_prefix; [intros h; unfold refuse_other_abi, require; silent|].
      apply silent_verdict. intros h. eapply wp_then; [apply poll_adds; unfold sender_settled; silent|]. intros _ ? ->.
      eapply wp_then; [apply poll_adds; unfold symbols_sampled; silent|]. by intros _ ? ->.
    - intros l (? & ? & -> & (start & finish & ->) & ? & -> & ? & -> & ? & -> & <-). by exists start, finish. }
  unfold exchange, profile_validation. destruct (expected_cert_der a) as [path|].
  - eapply adds_weaken; [apply adds_then; [apply adds_validate|exact Hlanes]|].
    intros l (l1 & l2 & -> & (p & Hp & ->) & start & finish & ->). by exists p, start, finish.
  - eapply adds_weaken; [apply adds_prefix; [|exact Hlanes]; done|]. intros l (start & finish & ->). by exists setup_packet, start, finish.
Qed.

Lemma await_data_silent n h : wp log (await_data n) (fun _ h' => h' = h) h.
Proof. induction n as [|n IH]; [done|]. cbn [await_data]. silent. apply IH. Qed.
Lemma await_closure_adds n h : wp log (await_closure n) (fun r h' => r <> PLANK_TRANSPORT_TIMEOUT -> r <> PLANK_TRANSPORT_OK -> h' = h ++ [Failed Client r]) h.
Proof.
  induction n as [|n IH]; [by cbn|]. cbn [await_closure]. intros [r p]. cbn [log entries fst]. unfold receipt. reduce_proc.
  destruct (Z.eqb_spec r PLANK_TRANSPORT_OK) as [->|]; [by cbn|].
  destruct (Z.eqb_spec r PLANK_TRANSPORT_TIMEOUT) as [->|]; cbn [negb]; [rewrite app_nil_r; apply IH|by cbn].
Qed.

(** The second packet is delivered after the server has stopped, before the error. *)
Definition closed (start finish : Z * Z) : list entry :=
  [Accepted Server (Data server_data); Clock start; Stopped Server; Delivered Client (Data server_data);
   Failed Client PLANK_TRANSPORT_ERROR_RUNTIME; Clock finish].
Lemma adds_peer_closes start : adds (peer_closes start) (fun l => exists finish, orderly start finish = true /\ l = [Failed Client PLANK_TRANSPORT_ERROR_RUNTIME; Clock finish]).
Proof.
  intros h. eapply wp_then; [apply await_closure_adds|]. intros r h2 Hr. destruct (Z.eqb_spec r PLANK_TRANSPORT_ERROR_RUNTIME) as [->|]; cbn [negb].
  - rewrite Hr by done. added. eauto.
  - added.
Qed.
Lemma adds_closure : adds check_closure (fun l => exists start finish, orderly start finish = true /\ l = closed start finish).
Proof.
  unfold check_closure. eapply adds_weaken.
  - apply adds_next; [apply adds_send|]. apply adds_prefix; [apply await_data_silent|].
    instantiate (1 := fun l => exists start finish, orderly start finish = true /\ l = tl (closed start finish)). intros h.
    intros [b start]. cbn [log entries]. intros stopped. cbn [log entries snd].
    eapply wp_mono; [apply (adds_next _ _ _ _ (adds_receive Client server_data) (adds_peer_closes start))|].
    intros v h' Hv Hc. destruct (Hv Hc) as (l & -> & l' & -> & finish & Ho & ->). eexists. rewrite <- !app_assoc. split; [reflexivity|].
    by exists start, finish.
  - intros l (? & -> & start & finish & Ho & ->). by exists start, finish.
Qed.

(** *** The theorem *)

Definition same_endpoint (e e' : endpoint) : bool := match e, e' with Server, Server | Client, Client => true | _, _ => false end.
Definition accepted (e : endpoint) (h : list entry) : list packet :=
  flat_map (fun x => match x with Accepted e' p => if same_endpoint e e' then [p] else [] | _ => [] end) h.
Definition delivered (e : endpoint) (h : list entry) : list packet :=
  flat_map (fun x => match x with Delivered e' p => if same_endpoint e e' then [p] else [] | _ => [] end) h.
Definition refused (h : list entry) : list (endpoint * packet * Z) :=
  flat_map (fun x => match x with Refused e p r => [(e, p, r)] | _ => [] end) h.

(** Equal, or two requests for the server's information. *)
Definition same_packet (p q : packet) : Prop :=
  p = q \/ exists l m, p = Data l /\ q = Data m /\ is_info_request l = true /\ is_info_request m = true.

(** Data passes only after the approval, the other lanes only once both sides are authorized. *)
Fixpoint gated (approved server client : bool) (h : list entry) : bool :=
  match h with
  | [] => true
  | Accepted _ p :: h | Delivered _ p :: h => match p with Data _ => approved | _ => server && client end && gated approved server client h
  | Approved _ :: h => gated true server client h
  | Authorized Server :: h => gated approved true client h
  | Authorized Client :: h => gated approved server true h
  | _ :: h => gated approved server client h
  end.

Definition number (kind : packet -> bool) (l : list packet) : Z := len (List.filter kind l).
Definition is_video (p : packet) : bool := match p with Video _ _ => true | _ => false end.
Definition is_audio (p : packet) : bool := match p with Audio _ _ => true | _ => false end.
Definition is_input (p : packet) : bool := match p with Input _ _ => true | _ => false end.
Definition is_data (p : packet) : bool := match p with Data _ => true | _ => false end.
Definition video_bytes (l : list packet) : Z := foldr (fun p n => match p with Video _ v => len v + n | _ => n end) 0 l.

(** The statistics of the two sides count what passed. *)
Definition counted (h : list entry) (s c : PlankTransportNativeStats) : Prop :=
  (video_frames_sent s = number is_video (accepted Server h) /\ video_frames_received c = number is_video (delivered Client h)) /\
  (video_bytes_sent s = video_bytes (accepted Server h) /\ video_bytes_received c = video_bytes (delivered Client h)) /\
  (audio_packets_sent s = number is_audio (accepted Server h) /\ audio_packets_received c = number is_audio (delivered Client h)) /\
  (input_packets_sent c = number is_input (accepted Client h) /\ input_packets_received s = number is_input (delivered Server h)) /\
  (data_packets_sent s = number is_data (accepted Server h) /\ data_packets_received c = number is_data (delivered Client h)) /\
  (data_packets_sent c = number is_data (accepted Client h) /\ data_packets_received s = number is_data (delivered Server h)).
Definition nothing_lost (s c : PlankTransportNativeStats) : Prop :=
  video_send_drops s = 0 /\ audio_send_drops s = 0 /\ video_receive_drops c = 0 /\ audio_receive_drops c = 0 /\
  kyproto_packets_dropped c = 0 /\ video_fec_source_symbols_unrecovered c = 0.

#[local] Arguments video_payload : simpl never.
#[local] Arguments literal : simpl never.
#[local] Arguments setup_packet : simpl never.
Lemma counters_match_counted profile n s c p start finish : 0 <= n -> is_info_request p = true -> counters_match profile n s c = true ->
  counted ((if profile then validated p else []) ++ exchanged n start finish) s c /\ nothing_lost s c.
Proof.
  intros Hn Hp H. unfold counters_match in H. rewrite !andb_true_iff, !Z.eqb_eq in H.
  assert (len (video_payload n) = n) as Hlen by (unfold video_payload; rewrite length_map, length_seqZ; lia).
  unfold counted, nothing_lost, number, video_bytes. destruct profile; cbn -[video_payload]; rewrite ?Hlen; split_and!; lia.
Qed.

Lemma check_counters_runs profile n tr : runs (check_counters profile n) tr Continue -> exists s c,
  tr = [existT (Stats Server sizeof_stats) (PLANK_TRANSPORT_OK, s); existT (Stats Client sizeof_stats) (PLANK_TRANSPORT_OK, c)] /\ counters_match profile n s c = true.
Proof.
  intros ([r s] & tr' & -> & H). cbn in H. destruct (Z.eqb_spec r PLANK_TRANSPORT_OK) as [->|]; cbn in H; [|by destruct H].
  destruct H as ([r c] & tr'' & -> & H). cbn in H. destruct H as [-> H]. destruct (Z.eqb_spec r PLANK_TRANSPORT_OK) as [->|]; cbn in H; [|done].
  destruct (counters_match _ _ _ _) eqn:E; [|done]. eauto.
Qed.

Lemma andthen_runs p q tr : runs (p >>> q) tr Continue -> exists tr1 tr2, tr = tr1 ++ tr2 /\ runs p tr1 Continue /\ runs q tr2 Continue.
Proof. unfold andthen. intros (tr1 & v & tr2 & -> & H1 & H2)%runs_bind. destruct v; [eauto|by destruct H2..]. Qed.

Lemma destroy_silent es h : wp log (destroy es) (fun _ h' => h' = h) h.
Proof. revert h. induction es as [|e es IH]; intros h; [done|]. cbn [destroy]. intros []. cbn [log entries]. rewrite app_nil_r. apply IH. Qed.

Lemma ending_adds es h : wp log (ask (Stop Client);; destroy es;; mret (Exit 0)) (fun _ h' => h' = h ++ [Stopped Client]) h.
Proof. intros r. cbn [log entries]. eapply wp_then; [apply destroy_silent|]. by intros [] ? ->. Qed.

(** What a run that succeeds consists of: creation, the exchange, the two readings of the
    counters, the closure and the end. *)
Lemma main_parts mtu n args tr : runs (main mtu n args) tr (Exit 0) -> exists a tr0 tr1 s c tr2 tr3,
  read_arguments args = Some a /\
  tr = (tr0 ++ tr1) ++ existT (Stats Server sizeof_stats) (PLANK_TRANSPORT_OK, s) :: existT (Stats Client sizeof_stats) (PLANK_TRANSPORT_OK, c) :: tr2 ++ tr3 /\
  history tr0 = [] /\ runs (exchange a n) tr1 Continue /\ counters_match (profile_validation a) n s c = true /\ runs check_closure tr2 Continue /\
  history tr3 = [Stopped Client].
Proof.
  unfold main. destruct (read_arguments args) as [a|]; [|by intros [_ [=]]]. intros (tr0 & [es created] & trx & -> & Hc & H)%runs_bind.
  apply runs_bind in H as (trm & v & tr3 & -> & Hm & Hend). destruct v.
  2:{ apply runs_bind in Hend as (? & ? & ? & -> & _ & [_ [=]]). }
  2:{ by destruct Hend as [_ [=]]. }
  apply andthen_runs in Hm as (? & trm' & -> & [-> <-] & Hm). apply andthen_runs in Hm as (tr1 & trm & -> & He & Hm).
  apply andthen_runs in Hm as (tr12 & tr2 & -> & Hk & Hcl). apply check_counters_runs in Hk as (s & c & -> & Hk).
  exists a, tr0, tr1, s, c, tr2, tr3. split_and!; try done.
  - cbn. by rewrite <- !app_assoc.
  - assert (forall h, wp log (create_endpoints mtu a) (fun _ h' => h' = h) h) as Hs by (intros h; unfold create_endpoints, andthen, expect, require; silent).
    destruct (wp_sound _ _ _ _ _ _ (Hs []) Hc) as (h & Ho & ->). rewrite observe_log in Ho. by injection Ho as ->.
  - destruct (wp_sound _ _ _ _ _ _ (ending_adds es []) Hend) as (h & Ho & ->). rewrite observe_log in Ho. by injection Ho as ->.
Qed.

(** C14: What success of the loopback means.  When the program returns 0, every packet the two
    endpoints accepted was delivered at the other one, in order and unchanged on each lane
    (the video frame of the requested size and the audio packet with their metadata; for the
    request before the session, a packet that decodes as one), nothing else was delivered and
    nothing else was refused than the two packets sent too early: no data passed before the
    certificate was approved, and no media or input before both sides were authorized.  The
    counters the two sides reported agree with what had passed until then, with no drops and
    no unrecovered symbols; and the packet queued before the server stopped was delivered
    before the client saw the error, within two seconds. *)
Theorem loopback_exact mtu n args tr : 0 <= n -> runs (main mtu n args) tr (Exit 0) ->
  exists a tr1 s c tr2 start finish,
    read_arguments args = Some a /\
    tr = tr1 ++ existT (Stats Server sizeof_stats) (PLANK_TRANSPORT_OK, s) :: existT (Stats Client sizeof_stats) (PLANK_TRANSPORT_OK, c) :: tr2 /\
    accepted Server (history tr) = [Video sent_video (video_payload n); Audio sent_audio audio; Data server_data; Data server_data] /\
    delivered Client (history tr) = accepted Server (history tr) /\
    Forall2 same_packet (accepted Client (history tr)) (delivered Server (history tr)) /\
    refused (history tr) = (if profile_validation a
      then [(Client, Data blocked, PLANK_TRANSPORT_ERROR_INVALID_STATE); (Client, Input 1 blocked, PLANK_TRANSPORT_ERROR_INVALID_STATE)] else []) /\
    (profile_validation a = true -> gated false false false (history tr) = true) /\
    counted (history tr1) s c /\ nothing_lost s c /\
    history tr2 = closed start finish ++ [Stopped Client] /\ orderly start finish = true.
Proof.
  intros Hn Hr. destruct (main_parts _ _ _ _ Hr) as (a & tr0 & tr1 & s & c & tr2 & tr3 & Ha & -> & H0 & He & Hk & Hcl & H3).
  destruct (adds_runs _ _ _ (adds_exchange a n) He) as (p & t1 & t2 & Hp & H1). destruct (adds_runs _ _ _ adds_closure Hcl) as (start & finish & Ho & H2).
  assert (history (tr0 ++ tr1) = (if profile_validation a then validated p else []) ++ exchanged n t1 t2) as Hh1 by (by rewrite history_app, H0, H1).
  assert (history (tr2 ++ tr3) = closed start finish ++ [Stopped Client]) as Hh2 by (by rewrite history_app, H2, H3).
  exists a, (tr0 ++ tr1), s, c, (tr2 ++ tr3), start, finish. rewrite (history_app (tr0 ++ tr1)).
  change (history (existT (Stats Server sizeof_stats) (PLANK_TRANSPORT_OK, s) :: existT (Stats Client sizeof_stats) (PLANK_TRANSPORT_OK, c) :: tr2 ++ tr3))
    with (history (tr2 ++ tr3)).
  rewrite Hh1, Hh2. destruct (counters_match_counted _ _ _ _ p t1 t2 Hn Hp Hk) as [Hc Hl].
  split_and!; try done; destruct (profile_validation a); try done.
  - constructor; [right; exists setup_packet, p; by split_and!|]. repeat constructor.
  - repeat constructor.
Qed.

(** *** The endpoints and buffers are given back *)

#[local] Abbreviation watching := (wp handling).
Definition both : list handle := [Endpoint Client; Endpoint Server].

Lemma poll_holds n met live : wp handling met (fun _ l => l = live) live -> (forall a, handling live Nanosleep a = Some live) -> wp handling (poll n met) (fun _ l => l = live) live.
Proof.
  intros Hm Hp. induction n as [|n IH]; [done|]. cbn [poll]. eapply wp_then; [apply Hm|]. intros [] ? ->; [done|]. intros a. by rewrite Hp.
Qed.
Lemma andthen_live p q : watching p (fun v l => v <> Aborted -> l = both) both -> watching q (fun v l => v <> Aborted -> l = both) both ->
  watching (p >>> q) (fun v l => v <> Aborted -> l = both) both.
Proof. intros Hp Hq. eapply wp_then; [exact Hp|]. intros v l Hl. destruct v; [by rewrite Hl|done..]. Qed.

Ltac watch_calls := ask_with ltac:(fun a => let T := type of a in let T := eval hnf in T in change T in a;
    lazymatch T with bool => destruct a | unit => destruct a | prod _ _ => destruct a as [? ?] | _ => idtac end)
  ltac:(fun x => let y := eval vm_compute in x in change x with y); try reflexivity.

Lemma kept_then p q : watching p (fun _ l => l = both) both -> watching q (fun _ l => l = both) both -> watching (p >>> q) (fun _ l => l = both) both.
Proof. intros Hp Hq. eapply wp_then; [exact Hp|]. intros v l ->. by destruct v. Qed.
Lemma holds_live condition : watching condition (fun _ l => l = both) both -> watching (holds condition) (fun _ l => l = both) both.
Proof. intros Hc. unfold holds. eapply wp_then; [exact Hc|]. by intros b ? ->. Qed.
Lemma polled_live n condition : watching condition (fun _ l => l = both) both -> watching (poll n condition;; holds condition) (fun _ l => l = both) both.
Proof. intros Hc. eapply wp_then; [by apply poll_holds|]. intros _ ? ->. by apply holds_live. Qed.
Lemma client_validates_live : watching client_validates (fun _ l => l = both) both.
Proof. unfold client_validates. watch_calls. Qed.
Lemma both_ready_live : watching both_setup_ready (fun _ l => l = both) both.
Proof. unfold both_setup_ready. watch_calls. Qed.
Lemma compare_certificate_live path : watching (compare_certificate path) (fun _ l => l = both) both.
Proof. unfold compare_certificate, read_expected, require. watch_calls; exfalso; lia. Qed.
Lemma validate_live path : watching (validate_profile path) (fun _ l => l = both) both.
Proof.
  unfold validate_profile. repeat apply kept_then; try (unfold exchange_setup; rewrite setup_request_ok); try (unfold expect, andthen, require; watch_calls).
  - apply polled_live, client_validates_live.
  - apply compare_certificate_live.
  - apply polled_live, both_ready_live.
Qed.
Lemma await_data_live n : watching (await_data n) (fun _ l => l = both) both.
Proof. induction n as [|n IH]; [done|]. cbn [await_data]. watch_calls. apply IH. Qed.
Lemma await_closure_live n : watching (await_closure n) (fun _ l => l = both) both.
Proof. induction n as [|n IH]; [done|]. cbn [await_closure]. watch_calls. apply IH. Qed.
Lemma lanes_live n : watching (wait_ready >>> exchange_video n >>> exchange_audio >>> exchange_input >>> exchange_data >>>
    refuse_other_abi >>> (poll 200 sender_settled;; poll 200 symbols_sampled;; mret Continue)) (fun v l => v <> Aborted -> l = both) both.
Proof.
  repeat apply andthen_live; try (unfold wait_ready, exchange_audio, exchange_input, exchange_data, receive_data, refuse_other_abi, expect, andthen, require, report; watch_calls; done).
  - unfold exchange_video, free_video, report. watch_calls; done.
  - eapply wp_then; [apply poll_holds; [unfold sender_settled; watch_calls|done]|]. intros _ ? ->.
    eapply wp_then; [apply poll_holds; [unfold symbols_sampled; watch_calls|done]|]. by intros _ ? ->.
Qed.
Lemma closure_live : watching check_closure (fun _ l => l = both) both.
Proof.
  unfold check_closure. repeat apply kept_then; [unfold expect, require; watch_calls|apply await_data_live|].
  intros [b start] stopped. change (watching (receive_data Client server_data >>> peer_closes start) (fun _ l => l = both) both). apply kept_then; [unfold receive_data, require; watch_calls|].
  unfold peer_closes. eapply wp_then; [apply await_closure_live|]. intros r ? ->. unfold require. watch_calls.
Qed.
Lemma create_live mtu a : watching (create_endpoints mtu a)
  (fun r live => live = map Endpoint r.1 /\ (r.2 <> Aborted) /\ (r.1 = [] \/ r.1 = [Server] \/ r.1 = [Client; Server]) /\ (r.2 = Continue -> r.1 = [Client; Server])) [].
Proof.
  unfold create_endpoints. intros server. cbn. destruct (server =? PLANK_TRANSPORT_OK); cbn; [|split_and!; by auto].
  intros client. cbn. destruct (client =? PLANK_TRANSPORT_OK); cbn; [|split_and!; by auto].
  intros started. cbn. destruct (started =? PLANK_TRANSPORT_OK); cbn; [|split_and!; by auto].
  intros r. cbn. destruct (r =? PLANK_TRANSPORT_OK); cbn; split_and!; by auto.
Qed.

(** On every path to an exit the endpoints that were created are destroyed, the buffers freed
    and the file closed, and nothing is used that has gone. *)
Lemma loopback_balanced mtu n args tr code : runs (main mtu n args) tr (Exit code) -> balanced tr.
Proof.
  assert (watching (main mtu n args) (fun r live => r <> Abort_ -> live = []) []) as Hwp.
  { unfold main. destruct (read_arguments args) as [a|]; [|done]. eapply wp_then; [apply create_live|].
    intros [es created] live (-> & Hna & Hes & Hboth). cbn [fst snd] in *.
    apply (wp_then _ _ _ (fun v l => (v <> Aborted -> l = map Endpoint es) /\ (v = Continue -> es = [Client; Server]))).
    - destruct created; [|by cbn..]. rewrite (Hboth eq_refl). change (map Endpoint [Client; Server]) with both.
      apply (wp_then _ _ _ (fun _ l => l = both)); [done|]. intros v ? ->. destruct v; [|done..].
      eapply wp_then.
      { unfold exchange. apply andthen_live; [|apply lanes_live]. eapply wp_mono; [destruct (expected_cert_der a); [apply validate_live|done]|done]. }
      intros v l Hl. destruct v; [|by cbn..]. rewrite (Hl ltac:(done)). eapply wp_then.
      { instantiate (1 := fun _ l => l = both). unfold check_counters, require. watch_calls. }
      intros v ? ->. destruct v; [|by cbn..]. eapply wp_mono; [apply closure_live|]. done.
    - intros v l [Hl Hc]. destruct v; [rewrite (Hl ltac:(done)), (Hc eq_refl)|rewrite (Hl ltac:(done))|by cbn].
      + watch_calls. done.
      + destruct Hes as [->|[->| ->]]; cbn [destroy map]; watch_calls; done. }
  intros Hr. destruct (wp_sound _ _ _ _ _ _ Hwp Hr) as (m & Ho & Hm). unfold balanced. rewrite Ho. f_equal. by apply Hm.
Qed.

(** ** A transport *)

(** A transport that keeps its promises: a queue of packets for each side, in order, nothing
    lost, gates as documented.  [log_] is what was sent and received so far. *)
Record transport := mkTransport { validated_ : bool; ready_server : bool; ready_client : bool; down : bool; inbox : endpoint -> list packet; log_ : list entry }.
Definition other (e : endpoint) : endpoint := match e with Server => Client | Client => Server end.
Definition fresh (profile : bool) : transport := mkTransport (negb profile) (negb profile) (negb profile) false (fun _ => []) [].

Definition note (x : entry) (t : transport) : transport := mkTransport (validated_ t) (ready_server t) (ready_client t) (down t) (inbox t) (log_ t ++ [x]).
Definition put (e : endpoint) (l : list packet) (t : transport) : transport :=
  mkTransport (validated_ t) (ready_server t) (ready_client t) (down t) (fun e' => if same_endpoint e e' then l else inbox t e') (log_ t).

Definition send (e : endpoint) (p : packet) (t : transport) : Z * transport :=
  if match p with Data _ => validated_ t | _ => ready_server t && ready_client t end
  then (PLANK_TRANSPORT_OK, note (Accepted e p) (put (other e) (inbox t (other e) ++ [p]) t))
  else (PLANK_TRANSPORT_ERROR_INVALID_STATE, t).

(** The first packet of the lane. *)
Fixpoint take_first (kind : packet -> bool) (l : list packet) : option (packet * list packet) :=
  match l with
  | [] => None
  | p :: l => if kind p then Some (p, l) else '(q, l) ← take_first kind l; Some (q, p :: l)
  end.
Definition receive (e : endpoint) (kind : packet -> bool) (t : transport) : (Z * option packet) * transport :=
  match take_first kind (inbox t e) with
  | Some (p, l) => ((PLANK_TRANSPORT_OK, Some p), note (Delivered e p) (put e l t))
  | None => ((if down t then PLANK_TRANSPORT_ERROR_RUNTIME else PLANK_TRANSPORT_TIMEOUT, None), t)
  end.

(** Arrivals are counted before they are taken. *)
Definition statistics (e : endpoint) (t : transport) : PlankTransportNativeStats :=
  let sent := accepted e (log_ t) in let received := accepted (other e) (log_ t) in
  mkStats (number is_video sent) (video_bytes sent) (number is_video received) (video_bytes received) 0 0
    (number is_audio sent) (number is_audio received) 0 0 (number is_input sent) (number is_input received)
    (number is_data sent) (number is_data received) 0 (number is_video received) 0 0.

Definition world (t : transport) (c : request) : answers c * transport :=
  match c return answers c * transport with
  | Create _ _ | Start _ | WaitReady _ _ => (PLANK_TRANSPORT_OK, t)
  | Free _ | LastError _ | Nanosleep => (tt, t)
  | State e => (if validated_ t then PLANK_TRANSPORT_STATE_SETUP_READY else PLANK_TRANSPORT_STATE_PEER_VALIDATION, t)
  | PeerCertificate _ None => ((PLANK_TRANSPORT_ERROR_BUFFER_TOO_SMALL, 3, []), t)
  | PeerCertificate _ (Some _) => ((PLANK_TRANSPORT_OK, 3, [48; 1; 0]), t)
  | Approve e => (PLANK_TRANSPORT_OK, mkTransport true (ready_server t) (ready_client t) (down t) (inbox t) (log_ t))
  | Authorize Server => (PLANK_TRANSPORT_OK, mkTransport (validated_ t) true (ready_client t) (down t) (inbox t) (log_ t))
  | Authorize Client => (PLANK_TRANSPORT_OK, mkTransport (validated_ t) (ready_server t) true (down t) (inbox t) (log_ t))
  | Send e p => send e p t
  | VideoReceive e _ _ => let '((r, p), t) := receive e is_video t in ((r, match p with Some (Video i l) => (i, l) | _ => (sent_video, []) end), t)
  | AudioReceive e _ _ => let '((r, p), t) := receive e is_audio t in ((r, match p with Some (Audio i l) => (i, l) | _ => (sent_audio, []) end), t)
  | InputReceive e _ _ => let '((r, p), t) := receive e is_input t in ((r, match p with Some (Input i l) => (i, l) | _ => (0, []) end), t)
  | DataReceive e _ _ => let '((r, p), t) := receive e is_data t in ((r, match p with Some (Data l) => l | _ => [] end), t)
  | Stats e size => (if size =? sizeof_stats then (PLANK_TRANSPORT_OK, statistics e t) else (PLANK_TRANSPORT_ERROR_INVALID_ARGUMENT, statistics e t), t)
  | Stop _ => (PLANK_TRANSPORT_OK, mkTransport (validated_ t) (ready_server t) (ready_client t) true (inbox t) (log_ t))
  | Open _ | Seek _ | Malloc _ _ => (true, t)
  | Tell => (3, t)
  | Fread _ => ((3, [48; 1; 0]), t)
  | MonotonicTime => ((true, (100, 5)), t)
  end.

Definition fingerprint_args : list string := ["127.0.0.1:7000"; "127.0.0.1:7000"; "localhost"; "cert"; "key"; "hash"]%string.
Definition profile_args : list string := fingerprint_args ++ ["der"%string].
Definition loopback (n : Z) (args : list string) : list (Calls.event answers) * ending := run world (main 0 n args) (fresh (bool_decide (length args = 7%nat))).

(** The program passes on it, whichever way the peer is trusted. *)
Example fingerprint_passes : (loopback 5 fingerprint_args).2 = Exit 0.
Proof. vm_compute. reflexivity. Qed.
Example profile_passes : (loopback 5 profile_args).2 = Exit 0.
Proof. vm_compute. reflexivity. Qed.
Example wrong_arguments : (loopback 5 ["127.0.0.1:7000"]%string).2 = Exit 2.
Proof. reflexivity. Qed.

Lemma loopback_exact_witness :
  let t := loopback 5 profile_args in
  0 <= 5 /\ runs (main 0 5 profile_args) t.1 (Exit 0) /\
  delivered Client (history t.1) = accepted Server (history t.1) /\ length (delivered Client (history t.1)) = 4%nat.
Proof.
  intros t. assert (runs (main 0 5 profile_args) t.1 (Exit 0)) as Hr.
  { assert (t.2 = Exit 0) as <- by (vm_compute; reflexivity). apply run_runs. }
  split; [lia|]. split; [exact Hr|].
  destruct (loopback_exact 0 5 profile_args t.1 ltac:(lia) Hr) as (a & tr1 & s & c & tr2 & start & finish & _ & _ & Ha & Hd & _).
  split; [exact Hd|]. rewrite Hd, Ha. reflexivity.
Defined.

Lemma loopback_balanced_witness : let t := loopback 5 profile_args in runs (main 0 5 profile_args) t.1 (Exit 0) /\ balanced t.1.
Proof.
  intros t. assert (runs (main 0 5 profile_args) t.1 (Exit 0)) as Hr.
  { assert (t.2 = Exit 0) as <- by (vm_compute; reflexivity). apply run_runs. }
  split; [exact Hr|]. exact (loopback_balanced 0 5 profile_args t.1 0 Hr).
Defined.
