(* ===== verification/CameraLive.v ===== *)
(** * CameraLive: probes/network/plank-transport/native-camera-live.cpp and native-audio-stats.c

    The live qualification of the camera and microphone lanes: a client (Linux) that sends ninety
    frames of its camera and mutes and reopens its microphone meanwhile, and a server (macOS)
    that checks every record and writes the frames to a file.  The preprocessor's two variants
    are the modules [Client] and [Server].  The transport, the clock, the camera, the microphone,
    the decoder and the file are the environment of [Calls]; the packets are those of
    [ControlWire] and the records those of [CameraWire].  Exceptions are values of [result].
    [camera_live_exact] is what two ends with 0 have shown, [live_balanced] what is held and
    released, [live_terminates] that both come to an end, [Qualification] a run of both sides.  Digests are asked for and printed; so are the
    sums of [SourceAudio], counted in the microphone's thread. *)

From S2P Require Import Prelude.
From S2P Require Import Endian.
From S2P Require Import Wire.
From S2P Require Import ControlWire.
From S2P Require Import CameraWire.
From S2P Require Import VideoRecovery.
From S2P Require Import TransportLoopback.
From S2P Require Import Calls.
#[local] Open Scope Z_scope.

(** ** The environment *)

Inductive command := Start | Key | Done | Ack.
Definition byte_of (c : command) : Z := match c with Start => 1 | Key => 2 | Done => 3 | Ack => 4 end.

Inductive microphone_state := Unavailable | Off | Active | OtherState.
Inductive read_result := Failed | NoFrame | Frame (captureTimeUs driverSequence : Z) (independent discontinuity : bool) (bytes : list Z).
Record format := mkFormat { fmt_width : Z; fmt_height : Z; fmt_colorspace : Z; fmt_xfer_func : Z; fmt_ycbcr_enc : Z; fmt_quantization : Z }.

Inductive handle := Endpoint | Stats | Decoder | Descriptor | File | Microphone | Camera.
#[export] Instance live_handle_eq_dec : EqDecision handle.
Proof. solve_decision. Defined.

Inductive request :=
  | Getenv (name : string)
  | Transport (name : string) (arguments : list Z)     (* a call of the endpoint answered by its status *)
  | EndpointCreate                                     (* made when it answers OK *)
  | State (lane : string)
  | DataSend (packet : list Z)
  | DataReceive (capacity : Z)                         (* the status and the packet *)
  | CameraSend (record : list Z)
  | CameraReceive (capacity : Z)
  | MicrophoneReceive (capacity : Z)                   (* the status; activation, sample time, packet *)
  | KeyframeNeeded
  | LastError
  | Now | Sleep (ms : Z)                               (* steady_clock, in nanoseconds *)
  | Make (h : handle) | New (h : handle) | Free (h : handle)
  | DecoderReset | Decode (packet : list Z)
  | Open (path : string)
  | Fwrite (data : list Z)                             (* how many were written *)
  | Fflush
  | Digest (data : list Z)
  | MicrophoneState | Acknowledge (generation state : Z) | SetRequested (on : bool)
  | CameraOpen (device : string) (h264 : bool) | CameraFormat | CameraRead | CameraKeyframe | CameraClose.
Definition answers (c : request) : Type :=
  match c with
  | Getenv _ => option string
  | Transport _ _ | EndpointCreate | State _ | DataSend _ | CameraSend _ | Now | Open _ | Fwrite _ | Fflush => Z
  | DataReceive _ | CameraReceive _ => Z * list Z
  | MicrophoneReceive _ => Z * (Z * Z * list Z)
  | KeyframeNeeded | Make _ | DecoderReset | Decode _ | Digest _ | CameraOpen _ _ | CameraKeyframe | CameraClose => bool
  | LastError | Sleep _ | New _ | Free _ | Acknowledge _ _ | SetRequested _ => unit
  | MicrophoneState => microphone_state
  | CameraFormat => format
  | CameraRead => read_result
  end.

#[local] Abbreviation proc := (Calls.proc answers).
#[local] Abbreviation event := (Calls.event answers).

(** A result, an exception, a loop that still runs after its rounds, or an access out of bounds. *)
Inductive result (A : Type) := Ok (a : A) | Thrown | Pending | Undefined.
Arguments Ok {A} a.
Arguments Thrown {A}.
Arguments Pending {A}.
Arguments Undefined {A}.
Definition act (A : Type) : Type := proc (result A).
#[export] Instance act_ret : MRet act := fun A a => Ret (Ok a).
#[export] Instance act_bind : MBind act := fun A B f (p : proc (result A)) =>
  mbind (M := proc) (fun r => match r with Ok a => f a | Thrown => Ret Thrown | Pending => Ret Pending | Undefined => Ret Undefined end) p.
(** Programs are compared by their text before they are run. *)
#[global] Strategy 100 [act_bind].
Definition ask (c : request) : act (answers c) := mbind (M := proc) (fun a => Ret (Ok a)) (Calls.call c).
Definition require (b : bool) : act unit := if b then mret tt else (Ret Thrown : act unit).
Definition pending {A} : act A := Ret Pending.
Definition defined {A} (a : option A) : act A := match a with Some a => mret a | None => (Ret Undefined : act A) end.
(** A destructor runs when the scope is left, by an exception too. *)
Definition leaving {A} (h : handle) (p : act A) : act A :=
  mbind (M := proc) (fun r => match r with Ok _ | Thrown => mbind (M := proc) (fun _ => Ret r) (Calls.call (Free h)) | _ => Ret r end) p.

Definition ms (n : Z) : Z := n * 1000000.

(** ** Commands and packets *)

(** Sent again every millisecond while the lane is full, for two seconds. *)
Fixpoint send_loop (n : nat) (end_ : Z) (c : command) : act unit :=
  now ← ask Now;
  if negb (now <? end_) then require false else
  match n with
  | O => pending
  | S n =>
      status ← ask (DataSend [byte_of c]);
      if status =? PLANK_TRANSPORT_OK then mret tt else
      require (status =? PLANK_TRANSPORT_TIMEOUT);;
      ask (Sleep 1);;
      send_loop n end_ c
  end.
Definition send (n : nat) (c : command) : act unit := now ← ask Now; send_loop n (now + ms 2000) c.

(** A packet of the reliable lane, once its audio has been drained: a command (its byte), or a
    control packet for the audio and no command (zero). *)
Definition receive {A} (drain : A -> act A) (control : A -> PlankTransportControlPacket -> list Z -> act A) (audio : A) : act (Z * A) :=
  audio ← drain audio;
  '(status, packet) ← ask (DataReceive 20);
  if status =? PLANK_TRANSPORT_TIMEOUT then mret (0, audio) else
  require (status =? PLANK_TRANSPORT_OK);;
  let bytes := packet ++ replicate (20 - length packet) 0 in
  if len packet =? 1 then
    first ← defined (bytes !! 0%nat);
    require ((byte_of Start <=? first) && (first <=? byte_of Ack));;
    mret (first, audio)
  else
    '(failed, decoded) ← defined (plank_transport_control_decode (Some bytes) (len packet) (Some (mkControlPacket 0 0 0)));
    require (failed =? 0);;
    audio ← control audio (default (mkControlPacket 0 0 0) decoded) bytes;
    mret (0, audio).

(** The session is set up; both lanes negotiated within four seconds. *)
Fixpoint wait_lanes (n : nat) (ready : Z) : act unit :=
  camera ← ask (State "camera");
  waiting ← (if camera =? 1 then mret true else microphone ← ask (State "microphone"); mret (microphone =? 1));
  if negb (waiting : bool) then mret tt else
  now ← ask Now;
  if negb (now <? ready) then mret tt else
  match n with O => pending | S n => ask (Sleep 1);; wait_lanes n ready end.
Definition start_session (n : nat) : act unit :=
  status ← ask (Transport "start" []); require (status =? PLANK_TRANSPORT_OK);;
  status ← ask (Transport "wait_ready" [7000]); require (status =? PLANK_TRANSPORT_OK);;
  status ← ask (Transport "microphone_enable" []); require (status =? PLANK_TRANSPORT_OK);;
  status ← ask (Transport "camera_enable" [1]); require (status =? PLANK_TRANSPORT_OK);;
  now ← ask Now;
  wait_lanes n (now + ms 4000);;
  camera ← ask (State "camera"); require (camera =? 2);;
  microphone ← ask (State "microphone"); require (microphone =? 2);;
  status ← ask (Transport "camera_activate" [1]); require (status =? PLANK_TRANSPORT_OK).
Definition end_session : act unit := status ← ask (Transport "camera_activate" [0]); require (status =? PLANK_TRANSPORT_OK).

(** The [try] of [main]: the endpoint outlives it, an exception gives 1. *)
Definition attempt {A} (p : act A) : proc (result A) := p.
Definition with_endpoint (session : act unit) : proc (result Z) :=
  let call c : proc (answers c) := Calls.call c in
  token ← call (Getenv "PLANK_CAMERA_PROBE_TOKEN");
  match token with
  | None => Ret (Ok 1)
  | Some t =>
      if negb (Z.of_nat (String.length t) =? 64) then Ret (Ok 1) else
      status ← call EndpointCreate;
      if negb (status =? PLANK_TRANSPORT_OK) then Ret (Ok 1) else
      r ← attempt session;
      match r with
      | Ok _ => call (Free Endpoint);; Ret (Ok 0)
      | Thrown => call LastError;; call (Free Endpoint);; Ret (Ok 1)
      | Pending => Ret Pending
      | Undefined => Ret Undefined
      end
  end.

(** ** The server *)

Module Server.

(** *** native-audio-stats.c *)

(** The sums of squares and peaks, doubles that are only printed, are left out. *)
Record AudioStats := mkStats { packets : Z; frames : Z; next : Z; gaps : Z; missing : Z; maximumGap : Z; hasSample : bool }.

(** Whether there is an object; what was acquired is given back when there is none. *)
Definition plank_probe_audio_create : act bool :=
  allocated ← ask (Make Stats);
  if negb allocated then mret false else
  created ← ask (Make Decoder);
  if negb created then ask (Free Stats);; mret false else mret true.
Definition plank_probe_audio_reset (s : AudioStats) : act (bool * AudioStats) :=
  ok ← ask DecoderReset;
  mret (ok, mkStats (packets s) (frames s) (next s) (gaps s) (missing s) (maximumGap s) false).
(** The samples between the packets. *)
Definition count_gap (sampleTime : Z) (s : AudioStats) : AudioStats :=
  if next s <? sampleTime then
    let m := u64 (sampleTime - next s) in
    mkStats (packets s) (frames s) (next s) (u64 (gaps s + 1)) (u64 (missing s + m)) (if maximumGap s <? m then m else maximumGap s) (hasSample s)
  else mkStats (packets s) (frames s) (next s) (u64 (gaps s + 1)) (missing s) (maximumGap s) (hasSample s).
Definition plank_probe_audio_consume (sampleTime : Z) (packet : list Z) (s : AudioStats) : act (bool * AudioStats) :=
  '(ready, s) ← (if hasSample s && negb (next s =? sampleTime) then ok ← ask DecoderReset; mret (ok, count_gap sampleTime s) else mret (true, s));
  if negb (ready : bool) then mret (false, s) else
  decoded ← ask (Decode packet);
  if negb decoded then mret (false, s) else
  mret (true, mkStats (u64 (packets s + 1)) (u64 (frames s + 480)) (u64 (sampleTime + 480)) (gaps s) (missing s) (maximumGap s) true).
Definition plank_probe_audio_finish (s : AudioStats) : bool := 100 <=? packets s.
(** [plank_probe_audio_destroy] is two destructors. *)
Definition audio_lives {A} (p : act A) : act A := leaving Stats (leaving Decoder p).

(** *** Audio *)

Record Audio := mkAudio { stats : AudioStats; generation : Z; last_command : Z; activations : Z; mutes : Z }.
Definition no_audio : Audio := mkAudio (mkStats 0 0 0 0 0 0 false) 0 0 0 0.

Definition PLANK_TRANSPORT_MICROPHONE_ENABLED : Z := 1.
Definition PLANK_TRANSPORT_MICROPHONE_OFF : Z := 0.
Definition PLANK_TRANSPORT_MICROPHONE_ACTIVE : Z := 2.

(** The command is carried out and acknowledged. *)
Definition control (a : Audio) (packet : PlankTransportControlPacket) (bytes : list Z) : act Audio :=
  require ((control_type packet =? PLANK_TRANSPORT_CONTROL_SET_MICROPHONE) && (control_payload_size packet =? 12));;
  next ← defined (plank_camera_read_u64 bytes (control_payload packet));
  flags ← defined (plank_transport_control_read_u32 bytes (control_payload packet + 8));
  require ((last_command a <? next) && (Z.land flags (u32 (Z.lnot PLANK_TRANSPORT_MICROPHONE_ENABLED)) =? 0));;
  let on := negb (flags =? 0) in
  let generation := if on then next else 0 in
  status ← ask (Transport "microphone_activate" [generation]); require (status =? PLANK_TRANSPORT_OK);;
  '(ok, s) ← plank_probe_audio_reset (stats a);
  require ok;;
  let a := mkAudio s generation next (if on then u32 (activations a + 1) else activations a) (if on then mutes a else u32 (mutes a + 1)) in
  let words := [u32 (Z.shiftr next 32); u32 next; if on then PLANK_TRANSPORT_MICROPHONE_ACTIVE else PLANK_TRANSPORT_MICROPHONE_OFF] in
  encoded ← defined (plank_transport_control_encode PLANK_TRANSPORT_CONTROL_MICROPHONE_APPLIED (Some words) 3 (Some (replicate 20 0)) 20 (Some 0));
  let '(failed, out, size) := encoded in
  require (failed =? 0);;
  status ← ask (DataSend (take (Z.to_nat (default 0 size)) (default [] out))); require (status =? PLANK_TRANSPORT_OK);;
  mret a.

(** At most sixteen packets, each of the activation in force. *)
Fixpoint drain_loop (n : nat) (a : Audio) : act Audio :=
  match n with
  | O => mret a
  | S n =>
      '(status, (activation, sample, packet)) ← ask (MicrophoneReceive 1275);
      if status =? PLANK_TRANSPORT_TIMEOUT then mret a else
      require ((status =? PLANK_TRANSPORT_OK) && negb (generation a =? 0) && (activation =? generation a));;
      '(ok, s) ← plank_probe_audio_consume sample packet (stats a);
      require ok;;
      drain_loop n (mkAudio s (generation a) (last_command a) (activations a) (mutes a))
  end.
Definition drain : Audio -> act Audio := drain_loop 16.
Definition finish (a : Audio) : act unit :=
  require ((activations a =? 2) && (mutes a =? 1) && plank_probe_audio_finish (stats a)).

(** *** Records *)

(** What is written for a frame: the length, high byte first, and the payload. *)
Definition framed (payload : list Z) : list Z := be32 (len payload) ++ payload.

(** A record is checked and its frame written. *)
Definition save (frames : Z) (record : list Z) : act Z :=
  '(failed, header) ← defined (V1.plank_camera_header_decode (Some record) (len record) (Some V1.zero));
  require ((failed =? 0) && (V1.generation (default V1.zero header) =? 1) && (u32 (frames + 1) <=? 90));;
  let payload := drop (Z.to_nat PLANK_CAMERA_HEADER_BYTES) record in
  hashed ← ask (Digest payload); require hashed;;
  prefix ← defined (plank_transport_control_write_u32 (replicate 4 0) 0 (u32 (len payload)));
  written ← ask (Fwrite prefix); require (written =? 4);;
  written ← ask (Fwrite payload); require (written =? len payload);;
  mret (u32 (frames + 1)).

Record Loop := mkLoop { saved : Z; done : bool; lastData : Z; lastKey : Z; audio : Audio }.

(** One round: the reliable lane, the camera lane; whether the loop ends here. *)
Definition take_command (l : Loop) : act Loop :=
  '(command, a) ← receive drain control (audio l);
  require ((command =? 0) || (command =? byte_of Done));;
  if command =? byte_of Done then now ← ask Now; mret (mkLoop (saved l) true now (lastKey l) a)
  else mret (mkLoop (saved l) (done l) (lastData l) (lastKey l) a).
Definition take_record (l : Loop) : act Loop :=
  '(status, record) ← ask (CameraReceive (PLANK_CAMERA_HEADER_BYTES + PLANK_CAMERA_MAX_FRAME_BYTES));
  require ((status =? PLANK_TRANSPORT_OK) || (status =? PLANK_TRANSPORT_TIMEOUT));;
  if status =? PLANK_TRANSPORT_OK then
    frames ← save (saved l) record;
    now ← ask Now;
    mret (mkLoop frames (done l) now (lastKey l) (audio l))
  else mret l.
(** Half a second after the last frame that follows the client's end. *)
Definition is_over (l : Loop) : act bool := if done l then now ← ask Now; mret (ms 500 <? now - lastData l) else mret false.
Definition ask_key (n : nat) (l : Loop) : act Loop :=
  if done l then mret l else
  needed ← ask KeyframeNeeded;
  if negb needed then mret l else
  now ← ask Now;
  if ms 500 <? now - lastKey l then send n Key;; now ← ask Now; mret (mkLoop (saved l) (done l) (lastData l) now (audio l)) else mret l.

Fixpoint receive_loop (n : nat) (end_ : Z) (l : Loop) : act Loop :=
  now ← ask Now;
  if negb (now <? end_) then mret l else
  match n with
  | O => pending
  | S n' =>
      l ← take_command l;
      l ← take_record l;
      over ← is_over l;
      if over : bool then mret l else
      l ← ask_key n l;
      ask (Sleep 1);;
      receive_loop n' end_ l
  end.

(** *** The session *)

Definition record_file (n : nat) (end_ : Z) : act unit :=
  lastData ← ask Now;
  lastKey ← ask Now;
  send n Start;;
  l ← receive_loop n end_ (mkLoop 0 false lastData lastKey no_audio);
  require (done l && (60 <? saved l));;
  flushed ← ask Fflush; require (flushed =? 0);;
  finish (audio l);;
  send n Ack;;
  ask (Sleep 250).
Definition open_file (path : string) (p : act unit) : act unit :=
  fd ← ask (Open path); require (0 <=? fd);;
  file ← ask (Make File);
  if negb file then ask (Free Descriptor);; require false else leaving File p.
Definition session (n : nat) (path : string) : act unit :=
  start_session n;;
  created ← plank_probe_audio_create; require created;;
  audio_lives (
    now ← ask Now;
    open_file path (record_file n (now + ms 20000));;
    end_session).
Definition main (n : nat) (arguments : list string) : proc (result Z) :=
  match arguments with
  | [side; _; _; _; path] =>
      if String.eqb side "server" then with_endpoint (session n path)
      else if String.eqb side "client" then Ret (Ok 1)
      else Ret (Ok 2)
  | _ => Ret (Ok 2)
  end.
End Server.

(** ** The client *)

Module Client.

(** *** The wrapped send of the microphone's thread *)

Record SourceAudio := mkSource {
  src_packets : Z; src_bytes : Z; src_generation : Z; src_next : Z; src_gaps : Z; src_missing : Z; src_dropped : Z; src_timeouts : Z;
  maxIntervalUs : Z; src_last : Z }.
(** What is counted before the packet is passed on, and after. *)
Definition count_source (now generation sample size : Z) (s : SourceAudio) : SourceAudio :=
  let same := src_generation s =? generation in
  let interval := u64 (Z.quot (now - src_last s) 1000) in
  let gap := same && negb (sample =? src_next s) in
  mkSource (u64 (src_packets s + 1)) (u64 (src_bytes s + size)) generation (u64 (sample + 480))
    (if gap then u64 (src_gaps s + 1) else src_gaps s)
    (if gap && (src_next s <? sample) then u64 (src_missing s + u64 (sample - src_next s)) else src_missing s)
    (src_dropped s) (src_timeouts s)
    (if same && (maxIntervalUs s <? interval) then interval else maxIntervalUs s) now.
Definition count_result (status : Z) (s : SourceAudio) : SourceAudio :=
  mkSource (src_packets s) (src_bytes s) (src_generation s) (src_next s) (src_gaps s) (src_missing s)
    (u64 (src_dropped s + Z.b2z (status =? PLANK_TRANSPORT_DROPPED))) (u64 (src_timeouts s + Z.b2z (status =? PLANK_TRANSPORT_TIMEOUT))) (maxIntervalUs s) (src_last s).

(** *** Audio *)

(** [microphone]: the object is there. *)
Record Audio := mkAudio { microphone : bool; sawMute : bool; sawReopen : bool; phase : Z }.
Definition control (a : Audio) (packet : PlankTransportControlPacket) (bytes : list Z) : act Audio :=
  require ((control_type packet =? PLANK_TRANSPORT_CONTROL_MICROPHONE_APPLIED) && (control_payload_size packet =? 12));;
  generation ← defined (plank_camera_read_u64 bytes (control_payload packet));
  state ← defined (plank_transport_control_read_u32 bytes (control_payload packet + 8));
  (if microphone a then ask (Acknowledge generation state);; mret a else (Ret Undefined : act Audio)).
Definition drain (a : Audio) : act Audio :=
  if negb (microphone a) then mret a else
  state ← ask MicrophoneState;
  match state with
  | Unavailable => require false;; mret a
  | Off => mret (mkAudio (microphone a) (sawMute a || (phase a =? 1)) (sawReopen a) (phase a))
  | Active => mret (mkAudio (microphone a) (sawMute a) (sawReopen a || (phase a =? 2)) (phase a))
  | OtherState => mret a
  end.
Definition step (frames : Z) (a : Audio) : act Audio :=
  if frames =? 30 then ask (SetRequested false);; mret (mkAudio (microphone a) (sawMute a) (sawReopen a) 1)
  else if frames =? 60 then require (sawMute a);; ask (SetRequested true);; mret (mkAudio (microphone a) (sawMute a) (sawReopen a) 2)
  else mret a.
Definition finish (a : Audio) : act Audio :=
  a ← drain a;
  require (sawMute a && sawReopen a);;
  ask (Free Microphone);;
  mret (mkAudio false (sawMute a) (sawReopen a) (phase a)).

(** *** Frames *)

Definition header_of (h264 : bool) (f : format) (sequence time driver : Z) (independent discontinuity : bool) : V1.PlankCameraHeader :=
  V1.mk 1 sequence (u64 time) (if h264 then PLANK_CAMERA_H264 else PLANK_CAMERA_MJPEG)
    (u32 (fmt_colorspace f)) (u32 (fmt_xfer_func f)) (u32 (fmt_ycbcr_enc f)) (u32 (fmt_quantization f)) (u32 driver) (u16 (fmt_width f)) (u16 (fmt_height f))
    (Z.lor (if independent then PLANK_CAMERA_KEY_FRAME else 0) (if discontinuity then PLANK_CAMERA_DISCONTINUITY else 0)).
Definition make_record (h : V1.PlankCameraHeader) (bytes : list Z) : act (list Z) :=
  let size := PLANK_CAMERA_HEADER_BYTES + len bytes in
  '(failed, record) ← defined (V1.plank_camera_header_encode (Some h) (len bytes) (Some (replicate (Z.to_nat size) 0)) size);
  require (failed =? 0);;
  defined (copy_to (default [] record) PLANK_CAMERA_HEADER_BYTES bytes).

Record Loop := mkLoop { frames : Z; lastKey : Z; audio : Audio }.

(** A key frame is requested at most every half second, of a camera that can. *)
Definition request_key (h264 : bool) (command : Z) (l : Loop) : act Loop :=
  if negb (h264 && negb (frames l =? 0)) then mret l else
  needed ← (if command =? byte_of Key then mret true else ask KeyframeNeeded);
  if negb (needed : bool) then mret l else
  now ← ask Now;
  if ms 500 <? now - lastKey l then ask CameraKeyframe;; now ← ask Now; mret (mkLoop (frames l) now (audio l)) else mret l.
Definition send_frame (h264 : bool) (f : format) (l : Loop) : act Loop :=
  read ← ask CameraRead;
  match read with
  | Failed => require false;; mret l
  | NoFrame => mret l
  | Frame time driver independent discontinuity bytes =>
      record ← make_record (header_of h264 f (frames l) time driver independent discontinuity) bytes;
      hashed ← ask (Digest bytes); require hashed;;
      status ← ask (CameraSend record); require ((status =? PLANK_TRANSPORT_OK) || (status =? PLANK_TRANSPORT_DROPPED));;
      a ← step (u32 (frames l + 1)) (audio l);
      mret (mkLoop (u32 (frames l + 1)) (lastKey l) a)
  end.
Fixpoint send_frames (n : nat) (end_ : Z) (h264 : bool) (f : format) (l : Loop) : act Loop :=
  if negb (frames l <? 90) then mret l else
  now ← ask Now;
  if negb (now <? end_) then mret l else
  match n with
  | O => pending
  | S n =>
      '(command, a) ← receive drain control (audio l);
      require ((command =? 0) || (command =? byte_of Key));;
      l ← request_key h264 command (mkLoop (frames l) (lastKey l) a);
      l ← send_frame h264 f l;
      send_frames n end_ h264 f l
  end.

(** *** The session *)

Fixpoint wait_command (n : nat) (end_ : Z) (a : Audio) : act (Z * Audio) :=
  '(command, a) ← receive drain control a;
  if negb (command =? 0) then mret (command, a) else
  now ← ask Now;
  if negb (now <? end_) then mret (command, a) else
  match n with O => pending | S n => ask (Sleep 1);; wait_command n end_ a end.
Fixpoint wait_ack (n : nat) (end_ : Z) (acknowledged : bool) (a : Audio) : act (bool * Audio) :=
  if acknowledged then mret (acknowledged, a) else
  now ← ask Now;
  if negb (now <? end_) then mret (acknowledged, a) else
  match n with
  | O => pending
  | S n =>
      '(command, a) ← receive drain control a;
      require ((command =? 0) || (command =? byte_of Key) || (command =? byte_of Ack));;
      ask (Sleep 1);;
      wait_ack n end_ (command =? byte_of Ack) a
  end.

(** Until the microphone is let go. *)
Definition qualify (n : nat) (end_ : Z) (h264 : bool) (device : string) (a : Audio) : act Audio :=
  opened ← ask (CameraOpen device h264); require opened;;
  f ← ask CameraFormat;
  now ← ask Now;
  l ← send_frames n end_ h264 f (mkLoop 0 (now - ms 1000) a);
  closed ← ask CameraClose; require (closed && (frames l =? 90));;
  finish (audio l).
Definition acknowledge (n : nat) (end_ : Z) (a : Audio) : act unit :=
  send n Done;;
  '(acknowledged, _) ← wait_ack n end_ false a;
  require acknowledged.
Definition begin_stream (n : nat) (end_ : Z) (codec : string) (a : Audio) : act (bool * Audio) :=
  '(command, a) ← wait_command n end_ a;
  require (command =? byte_of Start);;
  let h264 := String.eqb codec "h264" in
  require (h264 || String.eqb codec "mjpeg");;
  mret (h264, a).
(** The microphone is destroyed by [finish] or, after the camera, by an exception before it. *)
Definition on_throw {A} (h : handle) (p : act A) : act A :=
  mbind (M := proc) (fun r => match r with Thrown => mbind (M := proc) (fun _ => Ret r) (Calls.call (Free h)) | _ => Ret r end) p.
Definition stream (n : nat) (end_ : Z) (h264 : bool) (device : string) (a : Audio) : act unit :=
  ask (New Camera);;
  a ← on_throw Microphone (on_throw Camera (qualify n end_ h264 device a));
  leaving Camera (acknowledge n end_ a).
Definition session (n : nat) (device codec : string) : act unit :=
  start_session n;;
  ask (New Microphone);;
  now ← ask Now;
  let end_ := now + ms 20000 in
  '(h264, a) ← on_throw Microphone (begin_stream n end_ codec (mkAudio true false false 0));
  stream n end_ h264 device a;;
  end_session.
Definition main (n : nat) (arguments : list string) : proc (result Z) :=
  match arguments with
  | [side; _; _; device; codec] =>
      if String.eqb side "client" then with_endpoint (session n device codec)
      else if String.eqb side "server" then Ret (Ok 1)
      else Ret (Ok 2)
  | _ => Ret (Ok 2)
  end.
End Client.

(** ** Runs that succeed *)

#[local] Abbreviation succeeds p tr a := (runs (p : act _) tr (Ok a)).

Lemma succeeds_bind {A B} (p : act A) (f : A -> act B) tr b :
  succeeds (p ≫= f) tr b <-> exists tr1 a tr2, tr = tr1 ++ tr2 /\ succeeds p tr1 a /\ succeeds (f a) tr2 b.
Proof.
  unfold mbind, act_bind. rewrite runs_bind. split.
  - intros (tr1 & [a| | |] & tr2 & -> & H1 & H2); [by exists tr1, a, tr2|by destruct H2 as [_ [=]]..].
  - intros (tr1 & a & tr2 & -> & H1 & H2). by exists tr1, (Ok a), tr2.
Qed.
Lemma succeeds_ask c tr (a : answers c) : succeeds (ask c) tr a <-> tr = [existT c a].
Proof. cbn. split; [intros (a' & tr' & -> & -> & [= ->]); done|intros ->; by exists a, []]. Qed.
Lemma succeeds_require b tr (u : unit) : succeeds (require b) tr u <-> tr = [] /\ b = true.
Proof. destruct b, u; cbn; split; intros [-> ?]; done. Qed.
Lemma succeeds_ret {A} (a b : A) tr : runs (mret (M := act) a) tr (Ok b) <-> tr = [] /\ b = a.
Proof. cbn. split; [by intros [-> [= ->]]|by intros [-> ->]]. Qed.
Lemma succeeds_defined {A} (o : option A) tr a : succeeds (defined o) tr a <-> tr = [] /\ o = Some a.
Proof. destruct o; cbn; split; intros [-> [=]]; subst; done. Qed.
Lemma succeeds_leaving {A} h (p : act A) tr a : succeeds (leaving h p) tr a <-> exists tr1, tr = tr1 ++ [existT (Free h) tt] /\ succeeds p tr1 a.
Proof.
  unfold leaving. rewrite runs_bind. split.
  - intros (tr1 & [b| | |] & tr2 & -> & H1 & H2); cbn in H2; [|by destruct H2 as (? & ? & _ & _ & [=])|by destruct H2 as [_ [=]]..].
    destruct H2 as ([] & tr3 & -> & -> & [= ->]). by exists tr1.
  - intros (tr1 & -> & H1). exists tr1, (Ok a), [existT (Free h) tt]. split_and!; [done..|]. cbn. by exists tt, [].
Qed.
Lemma succeeds_on_throw {A} h (p : act A) tr a : succeeds (Client.on_throw h p) tr a -> succeeds p tr a.
Proof.
  unfold Client.on_throw. rewrite runs_bind. intros (tr1 & [b| | |] & tr2 & -> & H1 & H2); cbn in H2.
  2: by destruct H2 as (? & ? & _ & _ & [=]).
  all: destruct H2 as [-> [=]]; subst; by rewrite app_nil_r.
Qed.

(** Following a run that succeeds. *)
Ltac ok_step H :=
  lazymatch type of H with
  | succeeds (mbind _ (ask _)) _ _ =>
      let tr1 := fresh "tr" in let a := fresh "a" in let tr2 := fresh "tr" in let H1 := fresh "H" in
      apply succeeds_bind in H as (tr1 & a & tr2 & -> & H1 & H); apply succeeds_ask in H1 as ->
  | succeeds (mbind _ (require _)) _ _ =>
      let tr1 := fresh "tr" in let a := fresh "a" in let tr2 := fresh "tr" in let H1 := fresh "H" in let Hb := fresh "Hb" in
      apply succeeds_bind in H as (tr1 & a & tr2 & -> & H1 & H); apply succeeds_require in H1 as [-> Hb]
  | succeeds (mbind _ (defined _)) _ _ =>
      let tr1 := fresh "tr" in let a := fresh "a" in let tr2 := fresh "tr" in let H1 := fresh "H" in let Hd := fresh "Hd" in
      apply succeeds_bind in H as (tr1 & a & tr2 & -> & H1 & H); apply succeeds_defined in H1 as [-> Hd]
  | succeeds (mret _) _ _ => let Hr := fresh "Hr" in apply (proj1 (succeeds_ret _ _ _)) in H as [-> Hr]
  | succeeds (ask _) _ _ => apply succeeds_ask in H as ->
  | succeeds (require _) _ _ => let Hb := fresh "Hb" in apply succeeds_require in H as [-> Hb]
  end.

(** ** What happened *)

Inductive item :=
  | Wrote (data : list Z)          (* to the file *)
  | Record_ (r : list Z)           (* a record that was received *)
  | Commanded (byte : Z)           (* a command that was sent *)
  | Heard (byte : Z)               (* a command that was received *)
  | Streamed (r : list Z)          (* a record that was sent *)
  | Grabbed (data : list Z)        (* a frame of the camera *)
  | Requested (on : bool).         (* the microphone switched *)
Definition view (e : event) : list item :=
  match e with
  | existT c a =>
      match c return answers c -> list item with
      | Fwrite data => fun _ => [Wrote data]
      | CameraReceive _ => fun a => if a.1 =? PLANK_TRANSPORT_OK then [Record_ a.2] else []
      | DataSend [b] => fun s => if s =? PLANK_TRANSPORT_OK then [Commanded b] else []
      | DataReceive _ => fun a => match a.2 with [b] => if a.1 =? PLANK_TRANSPORT_OK then [Heard b] else [] | _ => [] end
      | CameraSend r => fun _ => [Streamed r]
      | CameraRead => fun r => match r with Frame _ _ _ _ b => [Grabbed b] | _ => [] end
      | SetRequested b => fun _ => [Requested b]
      | _ => fun _ => []
      end a
  end.
Definition history (tr : list event) : list item := flat_map view tr.
Lemma live_history_app tr1 tr2 : history (tr1 ++ tr2) = history tr1 ++ history tr2.
Proof. apply flat_map_app. Qed.

(** Parts in which nothing of this happens. *)
Definition quiet {A} (p : act A) : Prop := forall tr a, succeeds p tr a -> history tr = [].
Lemma quiet_bind {A B} (p : act A) (f : A -> act B) : quiet p -> (forall a, quiet (f a)) -> quiet (p ≫= f).
Proof. intros Hp Hf tr b (tr1 & a & tr2 & -> & H1 & H2)%succeeds_bind. by rewrite live_history_app, (Hp _ _ H1), (Hf _ _ _ H2). Qed.
Lemma quiet_ask c : (forall a, view (existT c a) = []) -> quiet (ask c).
Proof. intros Hc tr a ->%succeeds_ask. unfold history. cbn [flat_map]. by rewrite Hc. Qed.
Lemma quiet_ret {A} (a : A) : quiet (mret a).
Proof. by intros tr b [-> _]. Qed.
Lemma quiet_require b : quiet (require b).
Proof. by intros tr u [-> _]%succeeds_require. Qed.
Lemma quiet_defined {A} (o : option A) : quiet (defined o).
Proof. by intros tr a [-> _]%succeeds_defined. Qed.
Lemma quiet_undefined {A} : quiet (Ret Undefined : act A).
Proof. by intros tr a [_ [=]]. Qed.
Lemma quiet_pending {A} : quiet (pending : act A).
Proof. by intros tr a [_ [=]]. Qed.
Ltac quiet_all := repeat first
  [ assumption | apply quiet_ret | apply quiet_require | apply quiet_defined | apply quiet_undefined | apply quiet_pending | match goal with |- quiet (ask ?c) => exact (quiet_ask c (fun _ => eq_refl)) end
  | apply quiet_bind; [|intros ?] | match goal with |- quiet (match ?x with _ => _ end) => destruct x end ].

Lemma wait_lanes_quiet n ready : quiet (wait_lanes n ready).
Proof. induction n; cbn [wait_lanes]; quiet_all. Qed.
Lemma start_session_quiet n : quiet (start_session n).
Proof. pose proof (wait_lanes_quiet n). unfold start_session. quiet_all. apply wait_lanes_quiet. Qed.
Lemma end_session_quiet : quiet end_session.
Proof. unfold end_session. quiet_all. Qed.

Lemma send_loop_history n end_ c tr u : succeeds (send_loop n end_ c) tr u -> history tr = [Commanded (byte_of c)].
Proof.
  revert tr. induction n as [|n IH]; intros tr H; cbn [send_loop] in H; ok_step H; destruct (_ <? _); cbn [negb] in H; try (by ok_step H).
  { by destruct H as [_ [=]]. }
  ok_step H. destruct (a0 =? PLANK_TRANSPORT_OK) eqn:E; [ok_step H; cbn; by rewrite E|].
  ok_step H. ok_step H. apply IH in H. cbn. rewrite E. exact H.
Qed.
Lemma send_history n c tr u : succeeds (send n c) tr u -> history tr = [Commanded (byte_of c)].
Proof. intros H. unfold send in H. ok_step H. apply send_loop_history in H. exact H. Qed.

(** A command that was heard, or nothing. *)
Definition heard_of (c : Z) : list item := if c =? 0 then [] else [Heard c].
Lemma receive_history {A} (drain : A -> act A) (control : A -> PlankTransportControlPacket -> list Z -> act A) a tr c a' :
  (forall a, quiet (drain a)) -> (forall a p b, quiet (control a p b)) -> succeeds (receive drain control a) tr (c, a') -> history tr = heard_of c.
Proof.
  intros Hd Hc H. unfold receive in H. apply succeeds_bind in H as (tr1 & a1 & tr2 & -> & H1 & H). rewrite live_history_app, (Hd _ _ _ H1).
  ok_step H. destruct a0 as [status packet]. destruct (Z.eqb_spec status PLANK_TRANSPORT_TIMEOUT) as [->|Hne].
  { ok_step H. injection Hr as -> ->. cbn. by destruct packet as [|? []]. }
  ok_step H. apply Z.eqb_eq in Hb as ->. destruct (len packet =? 1) eqn:E.
  - destruct packet as [|b [|]]; [done| |cbn in E; lia]. ok_step H. injection Hd0 as <-. ok_step H. ok_step H. injection Hr as -> ->.
    cbn. unfold heard_of. destruct (Z.eqb_spec b 0) as [->|]; [done|done].
  - apply succeeds_bind in H as (tr3 & [failed decoded] & tr4 & -> & H3 & H). apply succeeds_defined in H3 as [-> Hdec]. ok_step H.
    apply succeeds_bind in H as (tr5 & audio2 & tr6 & -> & H5 & H). ok_step H. injection Hr as -> ->. rewrite !live_history_app, (Hc _ _ _ _ _ H5).
    cbn. destruct packet as [|b [|]]; done.
Qed.

(** ** The server's file *)

Module ServerFacts.
Import Server.

Lemma applied_length words out size : len words = 3 ->
  plank_transport_control_encode PLANK_TRANSPORT_CONTROL_MICROPHONE_APPLIED (Some words) 3 (Some (replicate 20 0)) 20 (Some 0) = Some (0, out, size) ->
  length (take (Z.to_nat (default 0 size)) (default [] out)) = 20%nat.
Proof.
  intros Hw H. rewrite control_encode_spec in H; [|ranges; lia|done|intros ? [= <-]; done].
  unfold control_accepts in H. rewrite (bool_decide_true (is_Some (Some words))) in H by by eexists. cbn [andb orb Z.leb Z.compare Z.eqb] in H. injection H as <- <-.
  destruct words as [|a [|b [|c [|d words]]]]; cbn in Hw; try lia. reflexivity.
Qed.

Lemma plank_probe_audio_reset_quiet s : quiet (plank_probe_audio_reset s).
Proof. unfold plank_probe_audio_reset. quiet_all. Qed.
Lemma plank_probe_audio_consume_quiet t p s : quiet (plank_probe_audio_consume t p s).
Proof. unfold plank_probe_audio_consume. quiet_all. Qed.
Lemma packet_quiet p : length p <> 1%nat -> quiet (ask (DataSend p)).
Proof. intros Hp. apply quiet_ask. intros s. cbn. by destruct p as [|? []]. Qed.
Lemma server_control_quiet a p b : quiet (control a p b).
Proof.
  unfold control. pose proof (plank_probe_audio_reset_quiet (stats a)).
  do 6 (apply quiet_bind; [by quiet_all|intros ?]). apply quiet_bind; [done|intros [ok s]]. apply quiet_bind; [quiet_all|intros _].
  intros tr a' H'. apply succeeds_bind in H' as (tr1 & [[failed out] size] & tr2 & -> & He & H'). apply succeeds_defined in He as [-> He].
  ok_step H'. apply Z.eqb_eq in Hb as ->. apply applied_length in He; [|done].
  apply succeeds_bind in H' as (tr3 & st & tr4 & -> & H1 & H'). apply packet_quiet in H1; [|by rewrite He].
  ok_step H'. ok_step H'. by rewrite !live_history_app, H1.
Qed.
Lemma server_drain_quiet a : quiet (drain a).
Proof.
  unfold drain. generalize 16%nat. intros n. revert a. induction n as [|n IH]; intros a; cbn [drain_loop]; [quiet_all|].
  apply quiet_bind; [quiet_all|]. intros [status [[activation sample] packet]]. pose proof (plank_probe_audio_consume_quiet sample packet (stats a)).
  quiet_all. apply IH.
Qed.

(** *** Projections *)

Definition wrote (h : list item) : list Z := flat_map (fun i => match i with Wrote d => d | _ => [] end) h.
Definition records (h : list item) : list (list Z) := flat_map (fun i => match i with Record_ r => [r] | _ => [] end) h.
Definition commanded (h : list item) : list Z := flat_map (fun i => match i with Commanded c => [c] | _ => [] end) h.
Definition heard (h : list item) : list Z := flat_map (fun i => match i with Heard c => [c] | _ => [] end) h.
Lemma wrote_app h1 h2 : wrote (h1 ++ h2) = wrote h1 ++ wrote h2.
Proof. apply flat_map_app. Qed.
Lemma records_app h1 h2 : records (h1 ++ h2) = records h1 ++ records h2.
Proof. apply flat_map_app. Qed.
Lemma commanded_app h1 h2 : commanded (h1 ++ h2) = commanded h1 ++ commanded h2.
Proof. apply flat_map_app. Qed.
Lemma heard_app h1 h2 : heard (h1 ++ h2) = heard h1 ++ heard h2.
Proof. apply flat_map_app. Qed.

(** The frame of a record, and a record of the stream. *)
Definition payload_of (r : list Z) : list Z := drop (Z.to_nat PLANK_CAMERA_HEADER_BYTES) r.
Definition of_stream (r : list Z) : Prop :=
  exists h, V1.plank_camera_header_decode (Some r) (len r) (Some V1.zero) = Some (0, Some h) /\ V1.generation h = 1.
(** The file: each frame of these records behind its length. *)
Definition file_of (rs : list (list Z)) : list Z := concat (map (fun r => framed (payload_of r)) rs).

Lemma of_stream_size r : of_stream r -> 64 < len r <= 64 + 4 * 1024 * 1024.
Proof.
  intros (h & H & _). unfold V1.plank_camera_header_decode in H. destruct ((len r <=? PLANK_CAMERA_HEADER_BYTES) || (PLANK_CAMERA_HEADER_BYTES + PLANK_CAMERA_MAX_FRAME_BYTES <? len r)) eqn:E; [done|].
  unfold PLANK_CAMERA_HEADER_BYTES, PLANK_CAMERA_MAX_FRAME_BYTES in E. lia.
Qed.

Lemma decode_stored r n d failed header : V1.plank_camera_header_decode (Some r) n (Some d) = Some (failed, header) -> exists h, header = Some h.
Proof. unfold V1.plank_camera_header_decode, mbind, option_bind. intros H. repeat case_match; simplify_eq; eauto. Qed.

Lemma save_history n r tr n' : 0 <= n <= 90 -> succeeds (save n r) tr n' -> of_stream r /\ n' = n + 1 /\ n' <= 90 /\
  history tr = [Wrote (be32 (len (payload_of r))); Wrote (payload_of r)].
Proof.
  intros Hn H. unfold save in H. apply succeeds_bind in H as (tr1 & [failed header] & tr2 & -> & H1 & H). apply succeeds_defined in H1 as [-> Hd].
  ok_step H. apply andb_true_iff in Hb as [[->%Z.eqb_eq Hg%Z.eqb_eq]%andb_true_iff Hle%Z.leb_le].
  assert (of_stream r) as Hr.
  { destruct (decode_stored _ _ _ _ _ Hd) as [h ->]. by exists h. }
  pose proof (of_stream_size r Hr) as Hsize. rewrite wrap_small in Hle by (ranges; lia).
  ok_step H. ok_step H. ok_step H. ok_step H. ok_step H. ok_step H. ok_step H. ok_step H. rewrite wrap_small in Hr0 by (ranges; lia).
  split; [done|]. split; [done|]. split; [lia|]. fold (payload_of r) in *. unfold plank_transport_control_write_u32 in Hd0.
  assert (len (payload_of r) < 2 ^ 32) by (unfold payload_of; rewrite length_drop; cbn; lia).
  rewrite wrap_small in Hd0 by (ranges; lia). rewrite write_u32_copy in Hd0 by lia. injection Hd0 as <-. done.
Qed.

Lemma file_of_app rs1 rs2 : file_of (rs1 ++ rs2) = file_of rs1 ++ file_of rs2.
Proof. unfold file_of. by rewrite map_app, concat_app. Qed.

(** What a part of the loop adds: records of the stream, their frames in the file, requests for
    key frames; and the end only when the client said so. *)
Record adds (l l' : Loop) (h : list item) : Prop := {
  adds_saved : saved l' = saved l + len (records h);
  adds_bound : saved l <= 90 -> saved l' <= 90;
  adds_file : wrote h = file_of (records h);
  adds_stream : Forall of_stream (records h);
  adds_keys : exists k, commanded h = replicate k (byte_of Key);
  adds_done : done l' = true -> done l = true \/ byte_of Done ∈ heard h }.
Lemma adds_none l l' h : saved l' = saved l -> (done l' = true -> done l = true \/ byte_of Done ∈ heard h) ->
  records h = [] -> wrote h = [] -> commanded h = [] -> adds l l' h.
Proof. intros Hs Hd Hr Hw Hc. constructor; rewrite ?Hr, ?Hw, ?Hc; cbn; try lia; try done. by exists 0%nat. Qed.
Lemma adds_trans l1 l2 l3 h1 h2 : adds l1 l2 h1 -> adds l2 l3 h2 -> adds l1 l3 (h1 ++ h2).
Proof.
  intros [A1 A2 A3 A4 [k1 A5] A6] [B1 B2 B3 B4 [k2 B5] B6]. constructor; rewrite ?records_app, ?wrote_app, ?commanded_app, ?heard_app.
  - rewrite length_app. lia.
  - auto.
  - by rewrite A3, B3, file_of_app.
  - by apply Forall_app.
  - exists (k1 + k2)%nat. by rewrite A5, B5, replicate_add.
  - intros [H|H]%B6; [apply A6 in H as [?|?]; [by left|right; apply elem_of_app; by left]|right; apply elem_of_app; by right].
Qed.

Lemma take_command_adds l tr l' : succeeds (take_command l) tr l' -> adds l l' (history tr).
Proof.
  intros H. unfold take_command in H. apply succeeds_bind in H as (tr1 & [c a] & tr2 & -> & H1 & H).
  apply receive_history in H1; [|apply server_drain_quiet|apply server_control_quiet]. rewrite live_history_app, H1. ok_step H.
  destruct (c =? byte_of Done) eqn:E.
  - apply Z.eqb_eq in E as ->. ok_step H. ok_step H. rewrite Hr. apply adds_none; try done. intros _. right. left.
  - rewrite orb_false_r in Hb. apply Z.eqb_eq in Hb as ->. ok_step H. rewrite Hr. apply adds_none; try done. by left.
Qed.
Lemma take_record_adds l tr l' : 0 <= saved l <= 90 -> succeeds (take_record l) tr l' -> adds l l' (history tr).
Proof.
  intros Hl H. unfold take_record in H. ok_step H. destruct a as [status r]. ok_step H. destruct (status =? PLANK_TRANSPORT_OK) eqn:E.
  - apply succeeds_bind in H as (tr1 & n & tr2 & -> & H1 & H). apply save_history in H1 as (Hr & -> & Hn & H1); [|done]. ok_step H. ok_step H.
    rewrite !live_history_app, H1. cbn [history flat_map view fst snd]. rewrite E. subst l'. constructor; cbn; try done.
    + by constructor.
    + by exists 0%nat.
    + by left.
  - ok_step H. subst l'. cbn. rewrite E. apply adds_none; try done. by left.
Qed.
Lemma ask_key_adds n l tr l' : succeeds (ask_key n l) tr l' -> adds l l' (history tr).
Proof.
  intros H. unfold ask_key in H. assert (adds l l (@nil item)) as Hnone by (apply adds_none; try done; by left).
  destruct (done l) eqn:E; [ok_step H; by subst l'|]. ok_step H. destruct a; cbn [negb] in H; [|ok_step H; by subst l']. ok_step H.
  destruct (_ <? _); [|ok_step H; by subst l']. apply succeeds_bind in H as (tr3 & u & tr4 & -> & H1%send_history & H). ok_step H. ok_step H.
  rewrite !live_history_app, H1. subst l'. constructor; cbn; try done; try lia. by exists 1%nat.
Qed.

Lemma receive_loop_adds n end_ l tr l' : 0 <= saved l <= 90 -> succeeds (receive_loop n end_ l) tr l' -> adds l l' (history tr).
Proof.
  revert l tr. induction n as [|n IH]; intros l tr Hl H; cbn [receive_loop] in H; ok_step H.
  all: assert (forall h, records h = [] -> wrote h = [] -> commanded h = [] -> adds l l h) as Hnone by (intros; apply adds_none; try done; by left).
  all: destruct (_ <? end_); cbn [negb] in H; [|ok_step H; subst l'; by apply Hnone].
  { by destruct H as [_ [=]]. }
  apply succeeds_bind in H as (u1 & l1 & u2 & -> & H1%take_command_adds & H). apply succeeds_bind in H as (u3 & l2 & u4 & -> & H2 & H).
  assert (0 <= saved l1 <= 90) as Hl1 by (destruct H1; lia). apply take_record_adds in H2; [|done]. assert (0 <= saved l2 <= 90) as Hl2 by (destruct H2; lia).
  apply succeeds_bind in H as (u5 & over & u6 & -> & H3 & H). assert (history u5 = []) as H3'.
  { unfold is_over in H3. destruct (done l2); [ok_step H3; by ok_step H3|by ok_step H3]. }
  pose proof (adds_trans _ _ _ _ _ H1 H2) as H12. rewrite !live_history_app, H3'. change (history [existT Now a]) with (@nil item). cbn [app]. rewrite (app_assoc (history u1)).
  destruct over; [ok_step H; subst l'; by rewrite app_nil_r|].
  apply succeeds_bind in H as (u7 & l3 & u8 & -> & H4%ask_key_adds & H). ok_step H. assert (0 <= saved l3 <= 90) as Hl3 by (destruct H4; lia).
  apply IH in H; [|done]. eapply adds_trans; [done|]. rewrite live_history_app. eapply adds_trans; [done|]. exact H.
Qed.

(** *** The session *)

(** A server that is satisfied. *)
Record satisfied (h : list item) : Prop := {
  sat_file : wrote h = file_of (records h);
  sat_stream : Forall of_stream (records h);
  sat_count : 60 < len (records h) <= 90;
  sat_commands : exists k, commanded h = byte_of Start :: replicate k (byte_of Key) ++ [byte_of Ack];
  sat_done : byte_of Done ∈ heard h }.

Lemma satisfied_intro a b h : a = byte_of Start -> b = byte_of Ack -> wrote h = file_of (records h) -> Forall of_stream (records h) -> 60 < len (records h) <= 90 ->
  (exists k, commanded h = replicate k (byte_of Key)) -> byte_of Done ∈ heard h -> satisfied ([Commanded a] ++ h ++ [Commanded b]).
Proof.
  intros -> -> Hw Hs Hn [k Hk] Hd. assert (forall x, wrote [Commanded x] = [] /\ records [Commanded x] = [] /\ heard [Commanded x] = []) as Hone by done.
  constructor; rewrite ?records_app, ?wrote_app, ?commanded_app, ?heard_app, ?(proj1 (Hone _)), ?(proj1 (proj2 (Hone _))), ?(proj2 (proj2 (Hone _))), ?app_nil_r; try done.
  exists k. by rewrite Hk.
Qed.

Lemma record_file_satisfied n end_ tr u : succeeds (record_file n end_) tr u -> satisfied (history tr).
Proof.
  intros H. unfold record_file in H. ok_step H. ok_step H.
  apply succeeds_bind in H as (u1 & [] & u2 & -> & H1%send_history & H). apply succeeds_bind in H as (u3 & l & u4 & -> & H2%receive_loop_adds & H); [|cbn; lia].
  ok_step H. ok_step H. ok_step H. apply succeeds_bind in H as (u5 & [] & u6 & -> & H3 & H). unfold finish in H3. ok_step H3.
  apply succeeds_bind in H as (u7 & [] & u8 & -> & H4%send_history & H). ok_step H.
  destruct H2 as [A1 A2 A3 A4 A5 A6]. cbn [saved done] in A1, A2, A6.
  apply andb_true_iff in Hb as [Hdone Hmany%Z.ltb_lt]. specialize (A2 ltac:(lia)). destruct (A6 Hdone) as [?|Hd]; [done|].
  rewrite !live_history_app, H1, H4. generalize dependent (history u3). intros h ? ? ? ? ?. cbn [history flat_map view app]. rewrite ?app_nil_r.
  apply satisfied_intro; try done. lia.
Qed.

Lemma open_file_history path p tr u : succeeds (open_file path p) tr u -> exists tr' u', succeeds p tr' u' /\ history tr = history tr'.
Proof.
  intros H. unfold open_file in H. ok_step H. ok_step H. ok_step H. destruct a1; cbn [negb] in H; [|ok_step H; ok_step H; done].
  apply succeeds_leaving in H as (tr' & -> & H). exists tr', u. split; [done|]. rewrite !live_history_app. cbn. by rewrite app_nil_r.
Qed.

Lemma session_satisfied n path tr u : succeeds (session n path) tr u -> satisfied (history tr).
Proof.
  intros H. unfold session in H. apply succeeds_bind in H as (u1 & [] & u2 & -> & H1%start_session_quiet & H).
  apply succeeds_bind in H as (u3 & created & u4 & -> & H2 & H). assert (quiet plank_probe_audio_create) as Hq by (unfold plank_probe_audio_create; quiet_all). apply Hq in H2.
  ok_step H. unfold audio_lives in H. apply succeeds_leaving in H as (u5 & -> & H). apply succeeds_leaving in H as (u6 & -> & H). ok_step H.
  apply succeeds_bind in H as (u7 & [] & u8 & -> & H3 & H4%end_session_quiet). apply open_file_history in H3 as (tr' & u' & H3%record_file_satisfied & Hh).
  rewrite !live_history_app, H1, H2, H4, Hh. cbn [history flat_map view app]. by rewrite !app_nil_r.
Qed.
End ServerFacts.

(** An exit with 0 is a session that succeeded. *)
Lemma with_endpoint_succeeds session tr : runs (with_endpoint session) tr (Ok 0) -> exists tr', succeeds session tr' tt /\ history tr = history tr'.
Proof.
  intros H. unfold with_endpoint in H. follow H tk. destruct tk as [t|]; [|by destruct H as [_ [=]]]. destruct (negb _); [by destruct H as [_ [=]]|].
  follow H st. destruct (negb _); [by destruct H as [_ [=]]|]. apply runs_bind in H as (tr1 & r & tr2 & -> & H1 & H2).
  destruct r as [[]| | |]; cbn in H2; [|by destruct H2 as (? & ? & _ & ? & ? & _ & _ & [=])|by destruct H2 as [_ [=]]..].
  destruct H2 as ([] & ? & -> & -> & _). exists tr1. split; [done|].
  match goal with |- history (?a :: ?b :: tr1 ++ ?t) = _ => change (a :: b :: tr1 ++ t) with ([a; b] ++ tr1 ++ t) end. rewrite !live_history_app. cbn. by rewrite app_nil_r.
Qed.

(** ** The client's stream *)

Module ClientFacts.
Import Client.

Lemma client_control_quiet a p b : quiet (control a p b).
Proof. unfold control. quiet_all. Qed.
Lemma client_drain_quiet a : quiet (drain a).
Proof. unfold drain. quiet_all. Qed.

(** The microphone is switched off and on again at these frames. *)
Definition switches (k : Z) : list item := if k =? 30 then [Requested false] else if k =? 60 then [Requested true] else [].
Lemma step_history k a tr a' : succeeds (step k a) tr a' -> history tr = switches k.
Proof.
  unfold step, switches. intros H. destruct (k =? 30); [ok_step H; by ok_step H|]. destruct (k =? 60); [|by ok_step H].
  ok_step H. ok_step H. by ok_step H.
Qed.

Lemma header_ranges h264 f k time driver i d : in_range 64 k -> V1.ranges_ok (header_of h264 f k time driver i d).
Proof.
  intros Hk. unfold V1.ranges_ok, header_of. cbn. repeat (split; [done || by apply wrap_range || (destruct h264; done)|]). destruct i, d; done.
Qed.
Lemma make_record_layout h b tr r : V1.ranges_ok h -> succeeds (make_record h b) tr r ->
  tr = [] /\ V1.plank_camera_header_valid (Some h) (len b) = true /\ r = V1.layout h ++ b.
Proof.
  intros Hr H. unfold make_record in H. apply succeeds_bind in H as (u1 & [failed record] & u2 & -> & H1 & H). apply succeeds_defined in H1 as [-> He].
  ok_step H. apply Z.eqb_eq in Hb as ->. apply succeeds_defined in H as [-> Hc].
  destruct (V1.plank_camera_header_valid (Some h) (len b)) eqn:Hv.
  2:{ unfold V1.plank_camera_header_encode in He. rewrite Hv, orb_true_r in He. done. }
  assert (Z.to_nat (PLANK_CAMERA_HEADER_BYTES + len b) = (64 + length b)%nat) as Hn by (unfold PLANK_CAMERA_HEADER_BYTES; lia). rewrite Hn in He.
  rewrite V1.v1_encode_layout in He; [|done|done|unfold PLANK_CAMERA_HEADER_BYTES; lia|rewrite length_replicate; lia].
  assert (record = Some (V1.layout h ++ drop 64 (replicate (64 + length b) 0))) as -> by congruence. clear He.
  split; [done|]. split; [done|]. rewrite drop_replicate in Hc. replace (64 + length b - 64)%nat with (length b) in Hc by lia.
  change (copy_to (V1.layout h ++ replicate (length b) 0) PLANK_CAMERA_HEADER_BYTES b = Some r) in Hc.
  pose proof (copy_to_app (V1.layout h) (replicate (length b) 0) b [] PLANK_CAMERA_HEADER_BYTES) as Hcopy. rewrite !app_nil_r in Hcopy.
  rewrite Hcopy in Hc; [by injection Hc as <-|by rewrite length_replicate|by rewrite V1.v1_layout_length].
Qed.

(** *** Projections *)

Definition streamed (h : list item) : list (list Z) := flat_map (fun i => match i with Streamed r => [r] | _ => [] end) h.
Definition grabbed (h : list item) : list (list Z) := flat_map (fun i => match i with Grabbed d => [d] | _ => [] end) h.
Definition requested (h : list item) : list bool := flat_map (fun i => match i with Requested b => [b] | _ => [] end) h.
Lemma streamed_app h1 h2 : streamed (h1 ++ h2) = streamed h1 ++ streamed h2.
Proof. apply flat_map_app. Qed.
Lemma live_grabbed_app h1 h2 : grabbed (h1 ++ h2) = grabbed h1 ++ grabbed h2.
Proof. apply flat_map_app. Qed.
Lemma requested_app h1 h2 : requested (h1 ++ h2) = requested h1 ++ requested h2.
Proof. apply flat_map_app. Qed.

(** The record of the frame with this number. *)
Definition carries (k : Z) (frame record : list Z) : Prop :=
  exists h, V1.ranges_ok h /\ V1.generation h = 1 /\ V1.sequence h = k /\ V1.plank_camera_header_valid (Some h) (len frame) = true /\ record = V1.layout h ++ frame.
Fixpoint carried (k : Z) (frames records : list (list Z)) : Prop :=
  match frames, records with
  | [], [] => True
  | f :: frames, r :: records => carries k f r /\ carried (k + 1) frames records
  | _, _ => False
  end.
Lemma carried_app k fs1 rs1 fs2 rs2 : carried k fs1 rs1 -> carried (k + len fs1) fs2 rs2 -> carried k (fs1 ++ fs2) (rs1 ++ rs2).
Proof.
  revert k rs1. induction fs1 as [|f fs1 IH]; intros k [|r rs1] H1 H2; try done; cbn in *.
  - by rewrite Z.add_0_r in H2.
  - destruct H1 as [Hc H1]. split; [done|]. apply IH; [done|]. by replace (k + 1 + len fs1) with (k + Z.of_nat (S (length fs1))) by lia.
Qed.

(** What a part of the loop adds: frames of the camera in their records, numbered, and the
    microphone's switches; no command is sent. *)
Record sends (l l' : Loop) (h : list item) : Prop := {
  sends_frames : frames l' = frames l + len (grabbed h);
  sends_bound : frames l <= 90 -> frames l' <= 90;
  sends_records : carried (frames l) (grabbed h) (streamed h);
  sends_switches : requested h = requested (flat_map switches (seqZ (frames l + 1) (len (grabbed h))));
  sends_commands : ServerFacts.commanded h = [];
  sends_heard : exists n, ServerFacts.heard h = replicate n (byte_of Key) }.
Lemma sends_none l l' h : frames l' = frames l -> grabbed h = [] -> streamed h = [] -> requested h = [] -> ServerFacts.commanded h = [] ->
  (exists n, ServerFacts.heard h = replicate n (byte_of Key)) -> sends l l' h.
Proof. intros Hf Hg Hs Hq Hc Hh. constructor; rewrite ?Hg, ?Hs, ?Hq, ?Hc; cbn; try lia; done. Qed.
Lemma sends_trans l1 l2 l3 h1 h2 : sends l1 l2 h1 -> sends l2 l3 h2 -> sends l1 l3 (h1 ++ h2).
Proof.
  intros [A1 A2 A3 A4 A5 [m A6]] [B1 B2 B3 B4 B5 [n B6]].
  constructor; rewrite ?streamed_app, ?live_grabbed_app, ?requested_app, ?ServerFacts.commanded_app, ?ServerFacts.heard_app.
  - rewrite length_app. lia.
  - auto.
  - apply carried_app; [done|]. by rewrite <- A1.
  - rewrite A4, B4, length_app, Nat2Z.inj_add, seqZ_app by lia. rewrite flat_map_app, requested_app. do 4 f_equal. lia.
  - by rewrite A5, B5.
  - exists (m + n)%nat. by rewrite A6, B6, replicate_add.
Qed.

Lemma request_key_history h264 c l tr l' : succeeds (request_key h264 c l) tr l' -> history tr = [] /\ frames l' = frames l.
Proof.
  intros H. unfold request_key in H. destruct (negb _); [ok_step H; by subst l'|]. apply succeeds_bind in H as (u1 & needed & u2 & -> & H1 & H).
  assert (history u1 = []) as Hu by (destruct (c =? byte_of Key); [by ok_step H1|by ok_step H1]). rewrite live_history_app, Hu.
  destruct needed; cbn [negb] in H; [|ok_step H; by subst l']. ok_step H. destruct (_ <? _); [|ok_step H; by subst l']. ok_step H. ok_step H. ok_step H. by subst l'.
Qed.

Lemma send_frame_sends h264 f l tr l' : 0 <= frames l < 90 -> succeeds (send_frame h264 f l) tr l' -> sends l l' (history tr).
Proof.
  intros Hl H. unfold send_frame in H. ok_step H. destruct a as [| |time driver i d b].
  - ok_step H. done.
  - ok_step H. subst l'. apply sends_none; try done. by exists 0%nat.
  - apply succeeds_bind in H as (u1 & r & u2 & -> & H1 & H). apply make_record_layout in H1 as (-> & Hv & Hr); [|apply header_ranges; ranges; lia].
    ok_step H. ok_step H. ok_step H. ok_step H. apply succeeds_bind in H as (u3 & a' & u4 & -> & H3%step_history & H). ok_step H.
    rewrite !live_history_app, H3. cbn [history flat_map view app]. rewrite app_nil_r. rewrite wrap_small in * by (ranges; lia). subst l'.
    assert (streamed (switches (frames l + 1)) = [] /\ grabbed (switches (frames l + 1)) = [] /\ ServerFacts.commanded (switches (frames l + 1)) = [] /\ ServerFacts.heard (switches (frames l + 1)) = []) as (Hs1 & Hs2 & Hs3 & Hs4).
    { unfold switches. destruct (_ =? 30); [done|]. by destruct (_ =? 60). }
    change (Grabbed b :: Streamed r :: switches (frames l + 1)) with ([Grabbed b; Streamed r] ++ switches (frames l + 1)).
    constructor; rewrite ?streamed_app, ?live_grabbed_app, ?requested_app, ?ServerFacts.commanded_app, ?ServerFacts.heard_app, ?Hs1, ?Hs2, ?Hs3, ?Hs4; cbn -[switches]; try done; try lia.
    + split; [|done]. exists (header_of h264 f (frames l) time driver i d). split_and!; try done. apply header_ranges. ranges. lia.
    + rewrite seqZ_cons by lia. change (Z.pred (Z.of_nat 1)) with 0. rewrite seqZ_nil by lia. cbn [flat_map]. by rewrite app_nil_r.
    + by exists 0%nat.
Qed.

Lemma send_frames_sends n end_ h264 f l tr l' : 0 <= frames l <= 90 -> succeeds (send_frames n end_ h264 f l) tr l' -> sends l l' (history tr).
Proof.
  revert l tr. induction n as [|n IH]; intros l tr Hl H; cbn [send_frames] in H; (destruct (Z.ltb_spec (frames l) 90) as [Hlt|]; cbn [negb] in H; [|ok_step H; subst l'; apply sends_none; try done; by exists 0%nat]).
  all: ok_step H; destruct (_ <? end_); cbn [negb] in H; [|ok_step H; subst l'; apply sends_none; try done; by exists 0%nat].
  { by destruct H as [_ [=]]. }
  apply succeeds_bind in H as (u1 & [c a1] & u2 & -> & H1 & H). apply receive_history in H1; [|apply client_drain_quiet|apply client_control_quiet].
  ok_step H. apply succeeds_bind in H as (u3 & l1 & u4 & -> & H3%request_key_history & H). destruct H3 as [H3 Hf3]. cbn [frames] in Hf3.
  apply succeeds_bind in H as (u5 & l2 & u6 & -> & H4 & H). apply send_frame_sends in H4; [|lia]. assert (0 <= frames l2 <= 90) as Hl2 by (destruct H4; lia).
  apply IH in H; [|done]. rewrite !live_history_app, H1, H3. change (history [existT Now a]) with (@nil item). cbn [app].
  change (history []) with (@nil item). cbn [app]. apply (sends_trans l l1); [|by apply (sends_trans l1 l2)].
  apply orb_true_iff in Hb as [->%Z.eqb_eq| ->%Z.eqb_eq]; apply sends_none; try done; [by exists 0%nat|by exists 1%nat].
Qed.

Lemma wait_command_history n end_ a tr c a' : succeeds (wait_command n end_ a) tr (c, a') -> history tr = heard_of c.
Proof.
  revert a tr. induction n as [|n IH]; intros a tr H; cbn [wait_command] in H; apply succeeds_bind in H as (u1 & [c1 a1] & u2 & -> & H1 & H).
  all: apply receive_history in H1; [|apply client_drain_quiet|apply client_control_quiet]; rewrite live_history_app, H1; destruct (Z.eqb_spec c1 0) as [->|]; cbn [negb] in H; [|ok_step H; injection Hr as -> ->; by rewrite app_nil_r].
  all: ok_step H; destruct (_ <? _); cbn [negb] in H; [|ok_step H; by injection Hr as -> ->].
  { by destruct H as [_ [=]]. }
  ok_step H. apply IH in H. exact H.
Qed.

Lemma wait_ack_history n end_ ok a tr ok' a' : succeeds (wait_ack n end_ ok a) tr (ok', a') -> ok' = true ->
  exists k, history tr = (if ok then [] else replicate k (Heard (byte_of Key)) ++ [Heard (byte_of Ack)]).
Proof.
  revert ok a tr. induction n as [|n IH]; intros ok a tr H Hok; cbn [wait_ack] in H; (destruct ok; [ok_step H; by exists 0%nat|]).
  all: ok_step H; destruct (_ <? _); cbn [negb] in H; [|ok_step H; injection Hr as -> _; done].
  { by destruct H as [_ [=]]. }
  apply succeeds_bind in H as (u1 & [c1 a1] & u2 & -> & H1 & H). apply receive_history in H1; [|apply client_drain_quiet|apply client_control_quiet].
  ok_step H. ok_step H. apply IH in H as [k Hk]; [|done]. rewrite !live_history_app, H1, Hk. cbn [history flat_map view app].
  destruct (Z.eqb_spec c1 (byte_of Ack)) as [->|Hne]; [by exists 0%nat|]. rewrite orb_false_r in Hb.
  apply orb_true_iff in Hb as [->%Z.eqb_eq| ->%Z.eqb_eq]; [by exists k|by exists (S k)].
Qed.

(** *** The session *)

(** A client that was acknowledged. *)
Record acknowledged (h : list item) : Prop := {
  ack_records : carried 0 (grabbed h) (streamed h);
  ack_count : length (grabbed h) = 90%nat;
  ack_switches : requested h = [false; true];
  ack_commands : ServerFacts.commanded h = [byte_of Done];
  ack_heard : exists k, ServerFacts.heard h = byte_of Start :: replicate k (byte_of Key) ++ [byte_of Ack] }.

Lemma begin_stream_history n end_ codec a tr x : succeeds (begin_stream n end_ codec a) tr x -> history tr = [Heard (byte_of Start)].
Proof.
  intros H. unfold begin_stream in H. apply succeeds_bind in H as (u1 & [c a1] & u2 & -> & H1%wait_command_history & H).
  ok_step H. apply Z.eqb_eq in Hb as ->. ok_step H. ok_step H. by rewrite !live_history_app, H1.
Qed.

Lemma qualify_history n end_ h264 device a tr x : succeeds (qualify n end_ h264 device a) tr x ->
  exists l l', sends l l' (history tr) /\ frames l = 0 /\ frames l' = 90.
Proof.
  intros H. unfold qualify in H. ok_step H. ok_step H. ok_step H. ok_step H.
  apply succeeds_bind in H as (u1 & l & u2 & -> & H1%send_frames_sends & H); [|cbn; lia]. ok_step H. ok_step H.
  apply andb_true_iff in Hb0 as [_ Hf%Z.eqb_eq]. unfold finish in H. apply succeeds_bind in H as (u3 & a' & u4 & -> & H3%client_drain_quiet & H).
  ok_step H. ok_step H. ok_step H. rewrite !live_history_app, H3. cbn [history flat_map view app]. rewrite app_nil_r. by eexists _, l.
Qed.

Lemma acknowledge_history n end_ a tr u : succeeds (acknowledge n end_ a) tr u ->
  exists k, history tr = Commanded (byte_of Done) :: replicate k (Heard (byte_of Key)) ++ [Heard (byte_of Ack)].
Proof.
  intros H. unfold acknowledge in H. apply succeeds_bind in H as (u1 & [] & u2 & -> & H1%send_history & H).
  apply succeeds_bind in H as (u3 & [ok a'] & u4 & -> & H3 & H). ok_step H. apply wait_ack_history in H3 as [k H3]; [|done]. exists k. by rewrite !live_history_app, H1, H3, app_nil_r.
Qed.

Lemma session_history n device codec tr u : succeeds (session n device codec) tr u -> exists h k l l',
  sends l l' h /\ frames l = 0 /\ frames l' = 90 /\
  history tr = [Heard (byte_of Start)] ++ h ++ Commanded (byte_of Done) :: replicate k (Heard (byte_of Key)) ++ [Heard (byte_of Ack)].
Proof.
  intros H. unfold session in H. apply succeeds_bind in H as (u1 & [] & u2 & -> & H1%start_session_quiet & H). ok_step H. ok_step H.
  apply succeeds_bind in H as (u3 & [h264 au] & u4 & -> & H3 & H). apply succeeds_on_throw, begin_stream_history in H3.
  apply succeeds_bind in H as (u5 & [] & u6 & -> & H5 & H%end_session_quiet). unfold stream in H5. ok_step H5.
  apply succeeds_bind in H5 as (u7 & a2 & u8 & -> & H7 & H8). apply succeeds_on_throw, succeeds_on_throw, qualify_history in H7 as (l & l' & H7 & Hl & Hl').
  apply succeeds_leaving in H8 as (u9 & -> & H8). apply acknowledge_history in H8 as [k H8].
  exists (history u7), k, l, l'. split; [done|]. split; [done|]. split; [done|]. rewrite !live_history_app, H1, H3, H8, H. cbn [history flat_map view app]. by rewrite !app_nil_r.
Qed.

Lemma session_acknowledged n device codec tr u : succeeds (session n device codec) tr u -> acknowledged (history tr).
Proof.
  intros (h & k & l & l' & [A1 A2 A3 A4 A5 [m A6]] & Hl & Hl' & ->)%session_history.
  assert (forall k, streamed (replicate k (Heard (byte_of Key))) = [] /\ grabbed (replicate k (Heard (byte_of Key))) = [] /\ requested (replicate k (Heard (byte_of Key))) = [] /\
    ServerFacts.commanded (replicate k (Heard (byte_of Key))) = [] /\ ServerFacts.heard (replicate k (Heard (byte_of Key))) = replicate k (byte_of Key)) as Hrep.
  { clear. induction k as [|k (? & ? & ? & ? & IH)]; [done|]. cbn. split_and!; try done. f_equal. exact IH. }
  destruct (Hrep k) as (R1 & R2 & R3 & R4 & R5).
  assert (length (grabbed h) = 90%nat) as Hlen by lia.
  assert (forall r, Commanded (byte_of Done) :: r = [Commanded (byte_of Done)] ++ r) as -> by done.
  constructor; rewrite ?streamed_app, ?live_grabbed_app, ?requested_app, ?ServerFacts.commanded_app, ?ServerFacts.heard_app, ?R1, ?R2, ?R3, ?R4, ?R5.
  - change (carried 0 ([] ++ grabbed h ++ []) ([] ++ streamed h ++ [])). cbn [app]. rewrite !app_nil_r. by rewrite <- Hl.
  - change (length ([] ++ grabbed h ++ []) = 90%nat). cbn [app]. by rewrite app_nil_r.
  - change ([] ++ requested h ++ [] = [false; true]). cbn [app]. rewrite app_nil_r, A4, Hl, Hlen. vm_compute. reflexivity.
  - change ([] ++ ServerFacts.commanded h ++ [byte_of Done] = [byte_of Done]). by rewrite A5.
  - exists (m + k)%nat. rewrite A6, replicate_add. cbn. by rewrite <- app_assoc.
Qed.

(** The payloads of the records are the frames. *)
Lemma carried_payloads k fs rs : carried k fs rs -> map ServerFacts.payload_of rs = fs.
Proof.
  revert k rs. induction fs as [|f fs IH]; intros k [|r rs] H; try done. destruct H as ((h & _ & _ & _ & _ & ->) & H). cbn [map]. rewrite (IH _ _ H). f_equal.
Qed.
End ClientFacts.

(** ** Both sides *)

Lemma server_satisfied n arguments tr : runs (Server.main n arguments) tr (Ok 0) -> ServerFacts.satisfied (history tr).
Proof.
  intros H. destruct arguments as [|side [|a2 [|a3 [|a4 [|path [|]]]]]]; try (by destruct H as [_ [=]]). cbn [Server.main] in H.
  destruct (String.eqb side "server"); [|destruct (String.eqb side "client"); by destruct H as [_ [=]]].
  apply with_endpoint_succeeds in H as (tr' & H & ->). by eapply ServerFacts.session_satisfied.
Qed.
Lemma client_acknowledged n arguments tr : runs (Client.main n arguments) tr (Ok 0) -> ClientFacts.acknowledged (history tr).
Proof.
  intros H. destruct arguments as [|side [|a2 [|a3 [|a4 [|path [|]]]]]]; try (by destruct H as [_ [=]]). cbn [Client.main] in H.
  destruct (String.eqb side "client"); [|destruct (String.eqb side "server"); by destruct H as [_ [=]]].
  apply with_endpoint_succeeds in H as (tr' & H & ->). by eapply ClientFacts.session_acknowledged.
Qed.


(** ** A qualification that passes *)

Module Qualification.

(** The client's surroundings: a camera with a frame whenever it is asked, a microphone that
    follows the switch, a server that says start, and acknowledges the end. *)
Record cstate := mkClient { c_now : Z; c_started : bool; c_ended : bool; c_microphone : bool; c_frame : Z }.
Definition token : string := String.concat "" (replicate 8 "01234567"%string).
Definition client_world (s : cstate) (c : request) : answers c * cstate :=
  let '(mkClient now started ended microphone frame) := s in
  match c return answers c * cstate with
  | Getenv _ => (Some token, s)
  | Transport _ _ | EndpointCreate | CameraSend _ | Open _ | Fflush => (PLANK_TRANSPORT_OK, s)
  | Fwrite data => (len data, s)
  | State _ => (2, s)
  | DataSend p => (PLANK_TRANSPORT_OK, mkClient now started (ended || bool_decide (p = [byte_of Done])) microphone frame)
  | DataReceive _ =>
      if negb started then ((PLANK_TRANSPORT_OK, [byte_of Start]), mkClient now true ended microphone frame)
      else if ended then ((PLANK_TRANSPORT_OK, [byte_of Ack]), s) else ((PLANK_TRANSPORT_TIMEOUT, []), s)
  | CameraReceive _ => ((PLANK_TRANSPORT_TIMEOUT, []), s)
  | MicrophoneReceive _ => ((PLANK_TRANSPORT_TIMEOUT, (0, 0, [])), s)
  | KeyframeNeeded => (false, s)
  | Now => (now, mkClient (now + ms 1) started ended microphone frame)
  | Sleep n => (tt, mkClient (now + ms n) started ended microphone frame)
  | Make _ | DecoderReset | Decode _ | Digest _ | CameraOpen _ _ | CameraKeyframe | CameraClose => (true, s)
  | LastError | New _ | Free _ | Acknowledge _ _ => (tt, s)
  | MicrophoneState => (if microphone then Active else Off, s)
  | SetRequested on => (tt, mkClient now started ended on frame)
  | CameraFormat => (mkFormat 1280 720 8 1 1 1, s)
  | CameraRead => (Frame (now + 1) frame true false [frame mod 256; 7], mkClient now started ended microphone (frame + 1))
  end.
Definition client_run : list event * result Z :=
  run client_world (Client.main 100 ["client"; "remote"; "hash"; "/dev/video0"; "mjpeg"]%string) (mkClient 0 false false true 0).

(** The server's: the records above except for the first, the microphone switched on, off and on
    and a hundred packets of it; the client's end once everything was received. *)
Record sstate := mkServer { s_now : Z; s_controls : list (list Z); s_packets : list Z; s_records : list (list Z); s_ended : bool }.
Definition set_microphone (generation flags : Z) : list Z := control_layout PLANK_TRANSPORT_CONTROL_SET_MICROPHONE [0; generation; flags].
Definition server_world (s : sstate) (c : request) : answers c * sstate :=
  let '(mkServer now controls packets records ended) := s in
  match c return answers c * sstate with
  | Getenv _ => (Some token, s)
  | Transport _ _ | EndpointCreate | CameraSend _ | DataSend _ | Fflush => (PLANK_TRANSPORT_OK, s)
  | Open _ => (3, s)
  | Fwrite data => (len data, s)
  | State _ => (2, s)
  | DataReceive _ =>
      match controls, records with
      | p :: controls, _ => ((PLANK_TRANSPORT_OK, p), mkServer now controls packets records ended)
      | [], [] => if ended then ((PLANK_TRANSPORT_TIMEOUT, []), s)
                  else ((PLANK_TRANSPORT_OK, [byte_of Done]), mkServer now controls packets records true)
      | [], _ => ((PLANK_TRANSPORT_TIMEOUT, []), s)
      end
  | CameraReceive _ =>
      match records with
      | r :: records => ((PLANK_TRANSPORT_OK, r), mkServer now controls packets records ended)
      | [] => ((PLANK_TRANSPORT_TIMEOUT, []), s)
      end
  | MicrophoneReceive _ =>
      match controls, packets with
      | [], t :: packets => ((PLANK_TRANSPORT_OK, (3, t, [1])), mkServer now controls packets records ended)
      | _, _ => ((PLANK_TRANSPORT_TIMEOUT, (0, 0, [])), s)
      end
  | KeyframeNeeded => (true, s)
  | Now => (now, mkServer (now + ms 1) controls packets records ended)
  | Sleep n => (tt, mkServer (now + ms n) controls packets records ended)
  | Make _ | DecoderReset | Decode _ | Digest _ | CameraOpen _ _ | CameraKeyframe | CameraClose => (true, s)
  | LastError | New _ | Free _ | Acknowledge _ _ | SetRequested _ => (tt, s)
  | MicrophoneState => (Off, s)
  | CameraFormat => (mkFormat 0 0 0 0 0 0, s)
  | CameraRead => (NoFrame, s)
  end.
Definition server_run : list event * result Z :=
  run server_world (Server.main 1000 ["server"; "bind"; "cert"; "key"; "records"]%string)
    (mkServer 0 [set_microphone 1 1; set_microphone 2 0; set_microphone 3 1] (map (fun k => 480 * k) (seqZ 0 100))
       (drop 1 (ClientFacts.streamed (history client_run.1))) false).

Lemma client_passes : client_run.2 = Ok 0.
Proof. vm_compute. reflexivity. Qed.
Lemma server_passes : server_run.2 = Ok 0.
Proof. vm_compute. reflexivity. Qed.
Lemma server_records : ServerFacts.records (history server_run.1) = drop 1 (ClientFacts.streamed (history client_run.1)).
Proof. vm_compute. reflexivity. Qed.
End Qualification.


(** *** After the microphone was let go *)

(** An acknowledgement of the microphone that comes while the client waits for the end's is
    passed to the object that is gone. *)
Lemma late_applied_undefined a packet bytes tr r : Client.microphone a = false ->
  control_type packet = PLANK_TRANSPORT_CONTROL_MICROPHONE_APPLIED -> control_payload_size packet = 12 ->
  is_Some (plank_camera_read_u64 bytes (control_payload packet)) -> is_Some (plank_transport_control_read_u32 bytes (control_payload packet + 8)) ->
  runs (Client.control a packet bytes) tr r -> r = Undefined.
Proof.
  intros Hm Ht Hs [g Hg] [st Hst] H. unfold Client.control in H. rewrite Ht, Hs, Hg, Hst, Hm in H. by destruct H as [_ ->].
Qed.

(** ** What is held *)

#[export] Instance live_handling : Handling answers handle := {
  handle_eq_dec := _;
  made c := match c with
    | EndpointCreate => fun status => if status =? PLANK_TRANSPORT_OK then [Endpoint] else []
    | Make h => fun ok => if ok then [h] else []
    | New h => fun _ => [h]
    | Open _ => fun fd => if 0 <=? fd then [Descriptor] else []
    | _ => fun _ => []
    end;
  freed c := match c with Free h => [h] | _ => [] end;
  needed c := match c with
    | Transport _ _ | State _ | DataSend _ | DataReceive _ | CameraSend _ | CameraReceive _ | MicrophoneReceive _ | KeyframeNeeded | LastError => [Endpoint]
    | DecoderReset | Decode _ => [Stats; Decoder]
    | Fwrite _ | Fflush => [File]
    | MicrophoneState | Acknowledge _ _ => [Microphone]
    | CameraOpen _ _ | CameraFormat | CameraRead | CameraKeyframe | CameraClose => [Camera]
    | _ => []
    end;
  parents h := match h with Decoder => [Stats] | File => [Descriptor] | Microphone => [Endpoint] | _ => [] end;
  dies_with h := match h with Descriptor => [File] | _ => [] end }.

Module Held.

(** From [live] to [live'] where it succeeds, back to [live] where it throws. *)
Definition moves {A} (live : list handle) (p : act A) (P : A -> list handle -> Prop) (thrown : list handle) : Prop :=
  wp handling p (fun r l => match r with Ok a => P a l | Thrown => l = thrown | _ => True end) live.
(** What is held stays as it is. *)
Definition keeps {A} (live : list handle) (p : act A) (P : A -> Prop) : Prop := moves live p (fun a l => l = live /\ P a) live.

Lemma moves_bind {A B} live (p : act A) (f : A -> act B) P Q thrown :
  moves live p P thrown -> (forall a l, P a l -> moves l (f a) Q thrown) -> moves live (p ≫= f) Q thrown.
Proof. intros Hp Hf. unfold moves, mbind, act_bind. eapply wp_then; [exact Hp|]. intros [a| | |] l H; [by apply Hf|exact H..]. Qed.
Lemma keeps_moves {A B} live (p : act A) (f : A -> act B) P Q :
  keeps live p P -> (forall a, P a -> moves live (f a) Q live) -> moves live (p ≫= f) Q live.
Proof. intros Hp Hf. eapply moves_bind; [exact Hp|]. by intros a l [-> H]; apply Hf. Qed.
Lemma keeps_bind {A B} live (p : act A) (f : A -> act B) P Q :
  keeps live p P -> (forall a, P a -> keeps live (f a) Q) -> keeps live (p ≫= f) Q.
Proof. apply keeps_moves. Qed.
Lemma keeps_ret {A} live (a : A) (P : A -> Prop) : P a -> keeps live (mret a) P.
Proof. by intros H. Qed.
Lemma keeps_require live b : keeps live (require b) (fun _ => True).
Proof. by destruct b. Qed.
Lemma keeps_defined {A} live (o : option A) : keeps live (defined o) (fun _ => True).
Proof. by destruct o. Qed.
Lemma keeps_undefined {A} live P : keeps live (Ret Undefined : act A) P.
Proof. done. Qed.
Lemma keeps_pending {A} live P : keeps live (pending : act A) P.
Proof. done. Qed.
Lemma keeps_ask live c : live_all live (needed c) = true -> freed c = [] -> (forall a, made c a = []) -> keeps live (ask c) (fun _ => True).
Proof. intros Hn Hf Hm a. by rewrite handling_same. Qed.
Lemma keeps_mono {A} live (p : act A) (P Q : A -> Prop) : keeps live p P -> (forall a, P a -> Q a) -> keeps live p Q.
Proof. intros H HQ. eapply wp_mono; [exact H|]. intros [a| | |] l; [intros [-> ?]; split; [done|by apply HQ]|done..]. Qed.

Ltac keep_with p := lazymatch p with
  | mret _ => apply keeps_ret
  | require _ => apply keeps_require
  | defined _ => apply keeps_defined
  | Ret Undefined => apply keeps_undefined
  | pending => apply keeps_pending
  | ask _ => apply keeps_ask; [first [assumption | reflexivity] | reflexivity | reflexivity]
  | match ?x with _ => _ end => destruct x eqn:?
  end.
Ltac keep_all := repeat first
  [ assumption | exact I
  | match goal with |- keeps _ (mbind _ ?p) _ => lazymatch p with ask _ => fail | require _ => fail | _ => eapply keeps_bind; [solve [eauto 3 with nocore]|intros ? ?] end end
  | match goal with |- keeps _ (mbind _ _) _ => apply (keeps_bind _ _ _ (fun _ => True)); [|intros ? _] | |- keeps _ ?p _ => keep_with p end ].

Section session.
Context (live : list handle) (Hendpoint : live_all live [Endpoint] = true).

Lemma send_loop_keeps n end_ c : keeps live (send_loop n end_ c) (fun _ => True).
Proof. induction n as [|n IH]; cbn [send_loop]; keep_all. Qed.
Lemma send_keeps n c : keeps live (send n c) (fun _ => True).
Proof. pose proof send_loop_keeps. unfold send. keep_all. auto. Qed.
Lemma wait_lanes_keeps n ready : keeps live (wait_lanes n ready) (fun _ => True).
Proof. induction n as [|n IH]; cbn [wait_lanes]; keep_all. Qed.
Lemma start_session_keeps n : keeps live (start_session n) (fun _ => True).
Proof. pose proof wait_lanes_keeps. unfold start_session. keep_all; auto. Qed.
Lemma end_session_keeps : keeps live end_session (fun _ => True).
Proof. unfold end_session. keep_all. Qed.
Lemma receive_keeps {A} (drain : A -> act A) (control : A -> PlankTransportControlPacket -> list Z -> act A) a (P : A -> Prop) :
  keeps live (drain a) P -> (forall a p b, P a -> keeps live (control a p b) P) -> keeps live (receive drain control a) (fun r => P r.2).
Proof.
  intros Hd Hc. unfold receive. eapply keeps_bind; [exact Hd|]. intros a1 Ha.
  keep_all; done.
Qed.
End session.

Lemma attempt_balanced (session : act unit) : moves [Endpoint] session (fun _ l => l = [Endpoint]) [Endpoint] ->
  wp handling (with_endpoint session) (fun r live => match r with Ok _ => live = [] | _ => True end) [].
Proof.
  intros H. unfold with_endpoint. ask_all; try done.
  all: eapply wp_then; [exact H|]; intros [a| | |] l Hl; subst; try done; by ask_all.
Qed.
End Held.

(** *** The server *)

Module ServerHeld.
Import Server Held.

Lemma moves_leaving {A} live live1 live' h (p : act A) : moves live p (fun _ l => l = live1) live1 -> handling (ans := answers) live1 (Free h) tt = Some live' ->
  moves live (leaving h p) (fun _ l => l = live') live'.
Proof.
  intros Hp Hf. unfold moves, leaving. eapply wp_then; [exact Hp|]. intros [a| | |] l H; try done; cbn.
  all: subst l; intros []; by rewrite Hf.
Qed.
Lemma keeps_still {A} live (p : act A) P : keeps live p P -> moves live p (fun _ l => l = live) live.
Proof. intros H. eapply wp_mono; [exact H|]. intros [] l; [by intros [-> _]|done..]. Qed.

(** While records are received. *)
Abbreviation receiving := [File; Descriptor; Decoder; Stats; Endpoint].

Lemma server_control_keeps a p b : keeps receiving (control a p b) (fun _ => True).
Proof. unfold control, plank_probe_audio_reset. keep_all. Qed.
Lemma server_drain_keeps a : keeps receiving (drain a) (fun _ => True).
Proof.
  unfold drain. generalize 16%nat. intros n. revert a. induction n as [|n IH]; intros a; cbn [drain_loop]; unfold plank_probe_audio_consume; keep_all. apply IH.
Qed.
Lemma server_receive_keeps a : keeps receiving (receive drain control a) (fun _ => True).
Proof. apply (receive_keeps receiving eq_refl drain control a (fun _ => True)); [apply server_drain_keeps|intros; apply server_control_keeps]. Qed.
Lemma save_keeps n r : keeps receiving (save n r) (fun _ => True).
Proof. unfold save. keep_all. Qed.
Lemma receive_loop_keeps n end_ l : keeps receiving (receive_loop n end_ l) (fun _ => True).
Proof.
  pose proof server_receive_keeps. pose proof save_keeps. pose proof (send_keeps receiving eq_refl).
  revert l. induction n as [|n IH]; intros l; cbn [receive_loop]; unfold take_command, take_record, is_over, ask_key; keep_all. apply IH.
Qed.
Lemma record_file_keeps n end_ : keeps receiving (record_file n end_) (fun _ => True).
Proof.
  pose proof receive_loop_keeps. pose proof (send_keeps receiving eq_refl). unfold record_file, finish. keep_all.
Qed.
Lemma open_file_keeps path p : keeps receiving p (fun _ => True) -> keeps [Decoder; Stats; Endpoint] (open_file path p) (fun _ => True).
Proof.
  intros Hp. unfold keeps, moves, open_file. intros fd. change (made (Open path) fd) with (if 0 <=? fd then [Descriptor] else []).
  unfold handling. cbn -[Z.leb]. destruct (0 <=? fd); [|done]. intros ok. destruct ok; [|by intros []].
  assert (moves receiving (leaving File p) (fun _ l => l = [Decoder; Stats; Endpoint]) [Decoder; Stats; Endpoint]) as H by (by eapply moves_leaving; [by eapply keeps_still|]).
  eapply wp_mono; [exact H|]. by intros [] l; cbn.
Qed.

Lemma server_session_moves n path : moves [Endpoint] (session n path) (fun _ l => l = [Endpoint]) [Endpoint].
Proof.
  unfold session. eapply keeps_moves; [by apply start_session_keeps|]. intros ? _.
  apply (moves_bind _ _ _ (fun (created : bool) l => l = if created then [Decoder; Stats; Endpoint] else [Endpoint])).
  { intros []; [|done]. intros []; [done|]. by intros []. }
  intros created l ->. destruct created; [|done]. apply (moves_bind _ _ _ (fun _ l => l = [Decoder; Stats; Endpoint])); [done|]. intros ? l ->.
  unfold audio_lives. apply (moves_leaving _ [Stats; Endpoint]); [|reflexivity].
  apply (moves_leaving _ [Decoder; Stats; Endpoint]); [apply (keeps_still _ _ (fun _ => True))|reflexivity].
  pose proof record_file_keeps. pose proof open_file_keeps. pose proof (end_session_keeps [Decoder; Stats; Endpoint] eq_refl). keep_all.
Qed.

Lemma server_main_balanced n arguments : wp handling (main n arguments) (fun r live => match r with Ok _ => live = [] | _ => True end) [].
Proof.
  destruct arguments as [|side [|a2 [|a3 [|a4 [|path [|]]]]]]; try done. cbn [main]. destruct (String.eqb side "server").
  - apply attempt_balanced, server_session_moves.
  - by destruct (String.eqb side "client").
Qed.
End ServerHeld.

(** *** The client *)

Module ClientHeld.
Import Client Held.

(** With the microphone and the camera, with the microphone alone, and after [finish]. *)
Abbreviation filming := [Camera; Microphone; Endpoint].
Abbreviation waiting := [Microphone; Endpoint].
Abbreviation filmed := [Camera; Endpoint].
Definition has (b : bool) (a : Audio) : Prop := microphone a = b.

Section audio.
Context (live : list handle) (b : bool) (Hendpoint : live_all live [Endpoint] = true) (Hmicrophone : b = true -> live_all live [Microphone] = true).

Lemma client_control_keeps a p bytes : has b a -> keeps live (control a p bytes) (has b).
Proof.
  intros Ha. unfold control. keep_all. destruct (microphone a) eqn:E; [|done].
  assert (live_all live [Microphone] = true) as Hm by (apply Hmicrophone; by rewrite <- Ha). keep_all.
Qed.
Lemma client_drain_keeps a : has b a -> keeps live (drain a) (has b).
Proof.
  intros Ha. unfold drain. destruct (microphone a) eqn:E; [|by apply keeps_ret].
  assert (live_all live [Microphone] = true) as Hm by (apply Hmicrophone; by rewrite <- Ha). unfold has in *. cbn [negb]. keep_all; cbn; congruence.
Qed.
Lemma client_receive_keeps a : has b a -> keeps live (receive drain control a) (fun r => has b r.2).
Proof. intros Ha. apply (receive_keeps live Hendpoint drain control a (has b)); [by apply client_drain_keeps|intros; by apply client_control_keeps]. Qed.

Lemma wait_command_keeps n end_ a : has b a -> keeps live (wait_command n end_ a) (fun r => has b r.2).
Proof.
  pose proof client_receive_keeps. revert a. induction n as [|n IH]; intros a Ha; cbn [wait_command]; (eapply keeps_bind; [by apply client_receive_keeps|]); intros [c a'] Ha'; keep_all; try done; by apply IH.
Qed.
Lemma wait_ack_keeps n end_ ok a : has b a -> keeps live (wait_ack n end_ ok a) (fun _ => True).
Proof.
  pose proof client_receive_keeps as Hreceive. revert ok a. induction n as [|n IH]; intros ok a Ha; cbn [wait_ack]; keep_all. subst. by apply IH.
Qed.
Lemma step_keeps k a : has b a -> keeps live (step k a) (has b).
Proof. intros Ha. unfold step. keep_all; done. Qed.
End audio.

Lemma send_frame_keeps h264 f l : has true (audio l) -> keeps filming (send_frame h264 f l) (fun l => has true (audio l)).
Proof.
  intros Hl. unfold send_frame, make_record. pose proof (step_keeps filming true). keep_all; try done.
Qed.
Lemma request_key_keeps h264 c l : has true (audio l) -> keeps filming (request_key h264 c l) (fun l => has true (audio l)).
Proof. intros Hl. unfold request_key. keep_all; done. Qed.
Lemma send_frames_keeps n end_ h264 f l : has true (audio l) -> keeps filming (send_frames n end_ h264 f l) (fun l => has true (audio l)).
Proof.
  revert l. induction n as [|n IH]; intros l Hl; cbn [send_frames]; (destruct (negb _); [by apply keeps_ret|]); apply (keeps_bind _ _ _ (fun _ => True)); [keep_all|intros now _|keep_all|intros now _].
  all: destruct (negb _); [by apply keeps_ret|]; [>..]; try done.
  apply (keeps_bind _ _ _ (fun r => has true r.2)); [by apply (client_receive_keeps filming true)|]. intros [c a'] Ha'.
  apply (keeps_bind _ _ _ (fun _ => True)); [keep_all|]. intros _ _.
  apply (keeps_bind _ _ _ (fun l => has true (audio l))); [by apply request_key_keeps|]. intros l1 Hl1.
  apply (keeps_bind _ _ _ (fun l => has true (audio l))); [by apply send_frame_keeps|]. intros l2 Hl2. by apply IH.
Qed.

(** [finish] lets the microphone go, or throws before it does. *)
Lemma finish_moves a : has true a -> moves filming (finish a) (fun a l => l = filmed /\ has false a) filming.
Proof.
  intros Ha. unfold finish. eapply keeps_moves; [by apply (client_drain_keeps filming true)|]. intros a1 _.
  eapply keeps_moves; [apply keeps_require|]. intros _ _ []. done.
Qed.
Lemma qualify_moves n end_ h264 device a : has true a -> moves filming (qualify n end_ h264 device a) (fun a l => l = filmed /\ has false a) filming.
Proof.
  intros Ha. unfold qualify.
  eapply keeps_moves; [apply keeps_ask; reflexivity|]; intros opened _. eapply keeps_moves; [apply keeps_require|]; intros _ _.
  eapply keeps_moves; [apply keeps_ask; reflexivity|]; intros f _. eapply keeps_moves; [apply keeps_ask; reflexivity|]; intros now _.
  eapply keeps_moves; [by apply send_frames_keeps|]. intros l Hl.
  eapply keeps_moves; [apply keeps_ask; reflexivity|]; intros closed _. eapply keeps_moves; [apply keeps_require|]; intros _ _. by apply finish_moves.
Qed.
Lemma moves_on_throw {A} live live1 live' h (p : act A) P : moves live p P live1 -> handling (ans := answers) live1 (Free h) tt = Some live' ->
  moves live (on_throw h p) P live'.
Proof.
  intros Hp Hf. unfold moves, on_throw. eapply wp_then; [exact Hp|]. intros [a| | |] l H; try done. subst l. cbn. intros []. by rewrite Hf.
Qed.
Lemma acknowledge_keeps n end_ a : has false a -> keeps filmed (acknowledge n end_ a) (fun _ => True).
Proof.
  intros Ha. pose proof (send_keeps filmed eq_refl). pose proof (wait_ack_keeps filmed false eq_refl ltac:(done)). unfold acknowledge. keep_all.
Qed.
Lemma stream_moves n end_ h264 device a : has true a -> moves waiting (stream n end_ h264 device a) (fun _ l => l = [Endpoint]) [Endpoint].
Proof.
  intros Ha. unfold stream. intros []. cbn -[on_throw leaving qualify acknowledge].
  apply (moves_bind _ _ _ (fun a l => l = filmed /\ has false a)).
  - eapply moves_on_throw; [eapply moves_on_throw; [by apply qualify_moves|reflexivity]|reflexivity].
  - intros a1 l [-> Ha1]. eapply ServerHeld.moves_leaving; [eapply ServerHeld.keeps_still; by apply acknowledge_keeps|reflexivity].
Qed.
Lemma begin_stream_keeps n end_ codec a : has true a -> keeps waiting (begin_stream n end_ codec a) (fun r => has true r.2).
Proof.
  intros Ha. unfold begin_stream. apply (keeps_bind _ _ _ (fun r => has true r.2)); [by apply (wait_command_keeps waiting true)|]. intros [c a1] Ha1. keep_all.
Qed.
Lemma client_session_moves n device codec : moves [Endpoint] (session n device codec) (fun _ l => l = [Endpoint]) [Endpoint].
Proof.
  unfold session. eapply keeps_moves; [by apply start_session_keeps|]. intros _ _.
  apply (moves_bind _ _ _ (fun _ l => l = waiting)); [by intros []|]. intros _ l ->.
  apply (moves_bind _ _ _ (fun _ l => l = waiting)); [done|]. intros now l ->. cbv zeta.
  apply (moves_bind _ _ _ (fun r l => l = waiting /\ has true r.2)).
  { eapply moves_on_throw; [apply begin_stream_keeps; reflexivity|reflexivity]. }
  intros [h264 a] l [-> Ha]. apply (moves_bind _ _ _ (fun _ l => l = [Endpoint])); [by apply stream_moves|]. intros _ l ->.
  eapply ServerHeld.keeps_still. by apply end_session_keeps.
Qed.

Lemma client_main_balanced n arguments : wp handling (main n arguments) (fun r live => match r with Ok _ => live = [] | _ => True end) [].
Proof.
  destruct arguments as [|side [|a2 [|a3 [|device [|codec [|]]]]]]; try done. cbn [main]. destruct (String.eqb side "client").
  - apply attempt_balanced, client_session_moves.
  - by destruct (String.eqb side "server").
Qed.
End ClientHeld.

(** Whichever way either side ends, by an exception at any point too, everything it acquired is
    released once, after what depends on it, and nothing is used before it is there or after it
    is released: the endpoint, the decoder and its statistics, the file and its descriptor, the
    microphone and the camera. *)
Theorem live_balanced (server : bool) n arguments tr code :
  runs (if server then Server.main n arguments else Client.main n arguments) tr (Ok code) -> balanced tr.
Proof.
  intros H. assert (wp handling (if server then Server.main n arguments else Client.main n arguments) (fun r live => match r with Ok _ => live = [] | _ => True end) []) as Hwp
    by (destruct server; [apply ServerHeld.server_main_balanced|apply ClientHeld.client_main_balanced]).
  destruct (wp_sound _ _ _ _ _ _ Hwp H) as (m & Ho & ->). exact Ho.
Qed.
Lemma live_balanced_witness : runs (Server.main 1000 ["server"; "bind"; "cert"; "key"; "records"]%string) Qualification.server_run.1 (Ok 0) /\ balanced Qualification.server_run.1.
Proof.
  assert (runs (Server.main 1000 ["server"; "bind"; "cert"; "key"; "records"]%string) Qualification.server_run.1 (Ok 0)) as H
    by (rewrite <- Qualification.server_passes; exact (run_runs _ _ _)).
  split; [exact H|]. exact (live_balanced true _ _ _ _ H).
Defined.

(** ** An end *)

(** The clock: every time asked for is later than the one before. *)
Definition tick (t : Z) (c : request) : answers c -> option Z :=
  match c with Now => fun now => if t <? now then Some now else None | _ => fun _ => Some t end.
Definition advancing (t : Z) (tr : list event) : Prop := is_Some (observe tick t tr).

Module Ends.

(** With this clock the program does not run out of rounds. *)
Definition ends {A} (t : Z) (p : act A) : Prop := forall tr, runs p tr Pending -> advancing t tr -> False.

Lemma observe_later t tr t' : observe tick t tr = Some t' -> t <= t'.
Proof.
  revert t. induction tr as [|[c a] tr IH]; intros t; cbn; [intros [= ->]; lia|]. destruct c; cbn; try exact (IH t).
  destruct (Z.ltb_spec t a); cbn; [|done]. intros H'%IH. lia.
Qed.
Lemma ends_bind {A B} t (p : act A) (f : A -> act B) : ends t p -> (forall a t', t <= t' -> ends t' (f a)) -> ends t (p ≫= f).
Proof.
  intros Hp Hf tr H [t' Ht]. unfold mbind, act_bind in H. apply runs_bind in H as (tr1 & r & tr2 & -> & H1 & H2). rewrite observe_app in Ht.
  destruct (observe tick t tr1) as [t1|] eqn:E; [|done]. destruct r as [a| | |]; [|by destruct H2 as [_ [=]]| |by destruct H2 as [_ [=]]].
  - eapply (Hf a t1); [by eapply observe_later|exact H2|by eexists].
  - eapply Hp; [exact H1|by eexists].
Qed.
Lemma ends_now {A} t (f : Z -> act A) : (forall now, t < now -> ends now (f now)) -> ends t (now ← ask Now; f now).
Proof.
  intros Hf tr (now & tr' & -> & H) [t' Ht]. cbn in Ht. destruct (Z.ltb_spec t now) as [Hlt|]; [|done]. eapply (Hf now Hlt); [exact H|by eexists].
Qed.
Lemma ends_ask t c : ends t (ask c).
Proof. by intros tr (a & tr' & -> & -> & [=]). Qed.
Lemma ends_ret {A} t (a : A) : ends t (mret a).
Proof. by intros tr [_ [=]]. Qed.
Lemma ends_require t b : ends t (require b).
Proof. by destruct b; intros tr [_ [=]]. Qed.
Lemma ends_defined {A} t (o : option A) : ends t (defined o).
Proof. by destruct o; intros tr [_ [=]]. Qed.
Lemma ends_undefined {A} t : ends t (Ret Undefined : act A).
Proof. by intros tr [_ [=]]. Qed.
(** A destructor does not change how a part ends. *)
Lemma ends_final {A} t (p : act A) (q : result A -> proc (result A)) : (forall r tr, runs (q r) tr Pending -> r = Pending) ->
  ends t p -> ends t (mbind (M := proc) q p).
Proof.
  intros Hq Hp tr H [t' Ht]. apply runs_bind in H as (tr1 & r & tr2 & -> & H1 & ->%Hq). rewrite observe_app in Ht.
  destruct (observe tick t tr1) as [t1|] eqn:E; [|done]. eapply Hp; [exact H1|by eexists].
Qed.
Lemma ends_leaving {A} t h (p : act A) : ends t p -> ends t (leaving h p).
Proof. apply ends_final. intros [a| | |] tr; cbn; try done; try by intros (? & ? & _ & _ & [=]). by intros [_ [=]]. Qed.
Lemma ends_on_throw {A} t h (p : act A) : ends t p -> ends t (Client.on_throw h p).
Proof. apply ends_final. intros [a| | |] tr; cbn; try done; try by intros (? & ? & _ & _ & [=]). all: by intros [_ [=]]. Qed.

Ltac end_with p := lazymatch p with
  | mret _ => apply ends_ret
  | require _ => apply ends_require
  | defined _ => apply ends_defined
  | Ret Undefined => apply ends_undefined
  | ask _ => apply ends_ask
  | leaving _ _ => apply ends_leaving
  | Client.on_throw _ _ => apply ends_on_throw
  | match ?x with _ => _ end => destruct x eqn:?
  end.
Ltac end_all := repeat first
  [ solve [eauto 3 with nocore]
  | match goal with |- ends _ (mbind _ (ask Now)) => apply ends_now; intros ? ? | |- ends _ (mbind _ _) => apply ends_bind; [|intros ? ? ?] | |- ends _ ?p => end_with p end ].

Lemma send_loop_ends n end_ c t : end_ - t <= Z.of_nat n -> ends t (send_loop n end_ c).
Proof.
  revert t. induction n as [|n IH]; intros t Hn; cbn [send_loop]; apply ends_now; intros now Hnow; (destruct (Z.ltb_spec now end_); cbn [negb]; [|apply ends_require]); [lia|].
  end_all. apply IH. lia.
Qed.
Lemma send_ends n c t : 2000000000 <= Z.of_nat n -> ends t (send n c).
Proof. intros Hn. unfold send. apply ends_now. intros now _. apply send_loop_ends. unfold ms. lia. Qed.
Lemma wait_lanes_ends n ready t : ready - t <= Z.of_nat n -> ends t (wait_lanes n ready).
Proof.
  revert t. induction n as [|n IH]; intros t Hn; cbn [wait_lanes]; (apply ends_bind; [apply ends_ask|]; intros camera t1 H1; apply ends_bind; [end_all|]; intros waiting t2 H2; destruct (negb waiting); [apply ends_ret|]);
    apply ends_now; intros now Hnow; (destruct (Z.ltb_spec now ready); cbn [negb]; [|apply ends_ret]); [lia|].
  apply ends_bind; [apply ends_ask|]. intros _ t3 H3. apply IH. lia.
Qed.
Lemma start_session_ends n t : 4000000000 <= Z.of_nat n -> ends t (start_session n).
Proof.
  intros Hn. unfold start_session. assert (forall now t, now <= t -> ends t (wait_lanes n (now + ms 4000))) by (intros; apply wait_lanes_ends; unfold ms; lia). end_all. apply H. lia.
Qed.
Lemma end_session_ends t : ends t end_session.
Proof. unfold end_session. end_all. Qed.
Lemma receive_ends {A} (drain : A -> act A) (control : A -> PlankTransportControlPacket -> list Z -> act A) a t :
  (forall a t, ends t (drain a)) -> (forall a p b t, ends t (control a p b)) -> ends t (receive drain control a).
Proof. intros Hd Hc. unfold receive. end_all. Qed.
End Ends.

Module ServerEnds.
Import Server Ends.

Lemma server_control_ends a p b t : ends t (control a p b).
Proof. unfold control, plank_probe_audio_reset. end_all. Qed.
Lemma server_drain_ends a t : ends t (drain a).
Proof.
  unfold drain. generalize 16%nat. intros n. revert a t. induction n as [|n IH]; intros a t; cbn [drain_loop]; unfold plank_probe_audio_consume; end_all.
Qed.
Lemma save_ends n r t : ends t (save n r).
Proof. unfold save. end_all. Qed.
(** A round of the loop before it sleeps. *)
Lemma round_ends n l t : 2000000000 <= Z.of_nat n -> ends t (take_command l) /\ ends t (take_record l) /\ ends t (is_over l) /\ ends t (ask_key n l).
Proof.
  intros Hn. pose proof save_ends. assert (forall t, ends t (send n Key)) by (intros; by apply send_ends).
  assert (forall a t, ends t (receive drain control a)) by (intros; apply receive_ends; [apply server_drain_ends|apply server_control_ends]).
  split_and!; [unfold take_command|unfold take_record|unfold is_over|unfold ask_key]; end_all.
Qed.
Lemma receive_loop_ends n end_ l t : end_ - t + 2000000000 <= Z.of_nat n -> ends t (receive_loop n end_ l).
Proof.
  revert l t. induction n as [|n IH]; intros l t Hn; cbn [receive_loop]; apply ends_now; intros now Hnow; (destruct (Z.ltb_spec now end_); cbn [negb]; [|apply ends_ret]); [lia|].
  assert (2000000000 <= Z.of_nat (S n)) as Hn2 by lia. pose proof (fun l t => round_ends (S n) l t Hn2) as Hround.
  apply ends_bind; [apply Hround|]. intros l1 t1 H1. apply ends_bind; [apply Hround|]. intros l2 t2 H2. apply ends_bind; [apply Hround|]. intros over t3 H3.
  destruct over; [apply ends_ret|]. apply ends_bind; [apply Hround|]. intros l4 t4 H4. apply ends_bind; [apply ends_ask|]. intros _ t5 H5. apply IH. lia.
Qed.
Lemma record_file_ends n end_ t : end_ - t + 2000000000 <= Z.of_nat n -> 2000000000 <= Z.of_nat n -> ends t (record_file n end_).
Proof.
  intros Hn Hn2. unfold record_file. pose proof (fun c t => send_ends n c t Hn2).
  apply ends_now; intros t1 H1. apply ends_now; intros t2 H2. apply ends_bind; [done|]. intros _ t3 H3. apply ends_bind; [apply receive_loop_ends; lia|]. intros l t4 H4.
  unfold finish. end_all.
Qed.
Lemma server_session_ends n path t : 22000000000 <= Z.of_nat n -> ends t (session n path).
Proof.
  intros Hn. unfold session, plank_probe_audio_create, audio_lives. assert (forall t, ends t (start_session n)) by (intros; apply start_session_ends; lia). pose proof end_session_ends.
  assert (forall now t, now <= t -> ends t (open_file path (record_file n (now + ms 20000)))).
  { intros now t' Ht. unfold open_file. assert (forall t2, t' <= t2 -> ends t2 (record_file n (now + ms 20000))) by (intros; apply record_file_ends; unfold ms; lia). end_all. apply H1. lia. }
  end_all. apply H1. lia.
Qed.
End ServerEnds.

Module ClientEnds.
Import Client Ends.

Lemma client_receive_ends a t : ends t (receive drain control a).
Proof. apply receive_ends; intros; [unfold drain|unfold control]; end_all. Qed.
Lemma send_frame_ends h264 f l t : ends t (send_frame h264 f l).
Proof. unfold send_frame, make_record, step. end_all. Qed.
Lemma request_key_ends h264 c l t : ends t (request_key h264 c l).
Proof. unfold request_key. end_all. Qed.
Lemma send_frames_ends n end_ h264 f l t : end_ - t <= Z.of_nat n -> ends t (send_frames n end_ h264 f l).
Proof.
  revert l t. induction n as [|n IH]; intros l t Hn; cbn [send_frames]; (destruct (negb (frames l <? 90)); [apply ends_ret|]); apply ends_now; intros now Hnow;
    (destruct (Z.ltb_spec now end_); cbn [negb]; [|apply ends_ret]); [lia|].
  apply ends_bind; [apply client_receive_ends|]. intros [c a] t1 H1. apply ends_bind; [apply ends_require|]. intros _ t2 H2.
  apply ends_bind; [apply request_key_ends|]. intros l1 t3 H3. apply ends_bind; [apply send_frame_ends|]. intros l2 t4 H4. apply IH. lia.
Qed.
Lemma wait_command_ends n end_ a t : end_ - t <= Z.of_nat n -> ends t (wait_command n end_ a).
Proof.
  revert a t. induction n as [|n IH]; intros a t Hn; cbn [wait_command]; (apply ends_bind; [apply client_receive_ends|]; intros [c a1] t1 H1; destruct (negb _); [apply ends_ret|]);
    apply ends_now; intros now Hnow; (destruct (Z.ltb_spec now end_); cbn [negb]; [|apply ends_ret]); [lia|].
  apply ends_bind; [apply ends_ask|]. intros _ t2 H2. apply IH. lia.
Qed.
Lemma wait_ack_ends n end_ ok a t : end_ - t <= Z.of_nat n -> ends t (wait_ack n end_ ok a).
Proof.
  revert ok a t. induction n as [|n IH]; intros ok a t Hn; cbn [wait_ack]; (destruct ok; [apply ends_ret|]);
    apply ends_now; intros now Hnow; (destruct (Z.ltb_spec now end_); cbn [negb]; [|apply ends_ret]); [lia|].
  apply ends_bind; [apply client_receive_ends|]. intros [c a1] t1 H1. apply ends_bind; [apply ends_require|]. intros _ t2 H2.
  apply ends_bind; [apply ends_ask|]. intros _ t3 H3. apply IH. lia.
Qed.
Lemma qualify_ends n end_ h264 device a t : end_ - t <= Z.of_nat n -> ends t (qualify n end_ h264 device a).
Proof.
  intros Hn. unfold qualify, finish, drain. assert (forall f l t2, t <= t2 -> ends t2 (send_frames n end_ h264 f l)) by (intros; apply send_frames_ends; lia).
  end_all. apply H. lia.
Qed.
Lemma stream_ends n end_ h264 device a t : end_ - t <= Z.of_nat n -> 2000000000 <= Z.of_nat n -> ends t (stream n end_ h264 device a).
Proof.
  intros Hn Hn2. unfold stream, acknowledge. pose proof (fun c t => send_ends n c t Hn2).
  assert (forall a t2, t <= t2 -> ends t2 (qualify n end_ h264 device a)) by (intros; apply qualify_ends; lia).
  assert (forall a t2, t <= t2 -> ends t2 (wait_ack n end_ false a)) by (intros; apply wait_ack_ends; lia). end_all; first [apply H0|apply H1]; lia.
Qed.
Lemma client_session_ends n device codec t : 20000000000 <= Z.of_nat n -> ends t (session n device codec).
Proof.
  intros Hn. unfold session, begin_stream. assert (forall t, ends t (start_session n)) by (intros; apply start_session_ends; lia). pose proof end_session_ends.
  assert (forall now a t, now <= t -> ends t (wait_command n (now + ms 20000) a)) by (intros; apply wait_command_ends; unfold ms; lia).
  assert (forall now h264 a t, now <= t -> ends t (stream n (now + ms 20000) h264 device a)) by (intros; apply stream_ends; unfold ms; lia).
  cbv zeta. end_all; first [apply H1|apply H2]; lia.
Qed.
End ClientEnds.

Lemma with_endpoint_ends session tr : (forall t, Ends.ends t session) -> runs (with_endpoint session) tr Pending -> advancing 0 tr -> False.
Proof.
  intros Hs H [t' Ht]. unfold with_endpoint in H. follow H tk. destruct tk as [tk|]; [|by destruct H as [_ [=]]]. destruct (negb _); [by destruct H as [_ [=]]|].
  follow H st. destruct (negb _); [by destruct H as [_ [=]]|]. apply runs_bind in H as (tr1 & r & tr2 & -> & H1 & H2). cbn in Ht. rewrite observe_app in Ht.
  destruct (observe tick 0 tr1) as [t1|] eqn:E; [|done]. destruct r as [[]| | |]; cbn in H2.
  - by destruct H2 as (? & ? & _ & _ & [=]).
  - by destruct H2 as (? & ? & _ & ? & ? & _ & _ & [=]).
  - eapply Hs; [exact H1|by eexists].
  - by destruct H2 as [_ [=]].
Qed.

(** Both sides come to an end: while the clock advances by a nanosecond from one reading to the
    next, the rounds of twenty-two seconds are enough, whatever else is answered. *)
Theorem live_terminates (server : bool) n arguments tr r : 22000000000 <= Z.of_nat n ->
  runs (if server then Server.main n arguments else Client.main n arguments) tr r -> advancing 0 tr -> r <> Pending.
Proof.
  intros Hn H Ht ->. destruct server; destruct arguments as [|side [|a2 [|a3 [|a4 [|a5 [|]]]]]]; try (by destruct H as [_ [=]]).
  - cbn [Server.main] in H. destruct (String.eqb side "server"); [|destruct (String.eqb side "client"); by destruct H as [_ [=]]].
    eapply with_endpoint_ends; [|exact H|exact Ht]. intros t. by apply ServerEnds.server_session_ends.
  - cbn [Client.main] in H. destruct (String.eqb side "client"); [|destruct (String.eqb side "server"); by destruct H as [_ [=]]].
    eapply with_endpoint_ends; [|exact H|exact Ht]. intros t. apply ClientEnds.client_session_ends. lia.
Qed.

(** The qualification above with that many rounds. *)
Definition enough : nat := 100 + Z.to_nat 22000000000.
Lemma qualification_rounds m : let t := run Qualification.client_world (Client.main (100 + m) ["client"; "remote"; "hash"; "/dev/video0"; "mjpeg"]%string) (Qualification.mkClient 1 false false true 0) in
  t.2 = Ok 0 /\ advancing 0 t.1.
Proof. split; [vm_compute; reflexivity|]. eexists. vm_compute. reflexivity. Qed.
Lemma live_terminates_witness :
  let t := run Qualification.client_world (Client.main enough ["client"; "remote"; "hash"; "/dev/video0"; "mjpeg"]%string) (Qualification.mkClient 1 false false true 0) in
  22000000000 <= Z.of_nat enough /\ advancing 0 t.1 /\ t.2 = Ok 0 /\ t.2 <> Pending.
Proof.
  intros t. assert (22000000000 <= Z.of_nat enough) as Hn by (unfold enough; rewrite Nat2Z.inj_add, Z2Nat.id; lia).
  destruct (qualification_rounds (Z.to_nat 22000000000)) as [Hr Ht]. split; [exact Hn|]. split; [exact Ht|]. split; [exact Hr|].
  exact (live_terminates false enough _ t.1 t.2 Hn (run_runs _ _ _) Ht).
Defined.
