(* ===== verification/KmsProbes.v ===== *)
(** * KmsProbes: probes/kms/plank-probe-kms-xb30.cpp and plank-probe-kms.cpp

    The probe that shows a ten-bit gradient on a bare display and imports its buffer into EGL
    ([Xb30]), and the inventory of what a card scans out ([Inventory]).  The kernel's display
    interface and EGL are the environment of [Calls]; the lines of the inventory are calls
    that are answered by nothing. *)

From stdpp Require Import gmap.
From S2P Require Import Prelude.
From S2P Require Import Endian.
From S2P Require Import Calls.
From S2P Require Import VideoPipeline.
#[local] Open Scope Z_scope.

(** ** The display interface *)

Record mode_info := mkMode { hdisplay : Z; vdisplay : Z; mode_type : Z; vrefresh : Z }.
Record connector := mkConnector { connector_id : Z; connection : Z; modes : list mode_info; encoder_id : Z; encoders : list Z }.
Record encoder := mkEncoder { encoder_crtc_id : Z; possible_crtcs : Z }.
Record crtc_info := mkCrtc { crtc_id : Z; buffer_id : Z; crtc_x : Z; crtc_y : Z; mode_valid : bool; crtc_mode : mode_info }.
Record resources := mkResources { crtcs : list Z; connectors : list Z }.
Record dumb := mkDumb { dumb_handle : Z; pitch : Z; size : Z }.
Record framebuffer := mkFramebuffer { fb_id : Z; fb_width : Z; fb_height : Z; pixel_format : Z; modifier : Z; handles : list Z }.
Record plane := mkPlane { plane_id : Z; plane_crtc : Z; plane_fb : Z; formats : list Z }.
Record property := mkProperty { property_name : string; enums : list (Z * string) }.

Definition DRM_MODE_CONNECTED : Z := 1.
Definition DRM_MODE_DISCONNECTED : Z := 2.
Definition DRM_MODE_TYPE_PREFERRED : Z := 8.
(** fourcc_code of XR30, AR30, XB30, AB30 and XR24. *)
Definition DRM_FORMAT_XRGB2101010 : Z := 808669784.
Definition DRM_FORMAT_ARGB2101010 : Z := 808669761.
Definition DRM_FORMAT_XBGR2101010 : Z := 808665688.
Definition DRM_FORMAT_ABGR2101010 : Z := 808665665.
Definition DRM_FORMAT_XRGB8888 : Z := 875713112.

Inductive handle :=
  | Card | Master | Resources | Connector | Encoder | Crtc | Dumb | Mapping | Framebuffer | DmaBuf | Display | Image
  | Version | Framebuffer2 | Planes | Plane | Properties | Property.
#[export] Instance kms_handle_eq_dec : EqDecision handle.
Proof. solve_decision. Defined.

Inductive attribute :=
  | EGL_WIDTH | EGL_HEIGHT | EGL_LINUX_DRM_FOURCC_EXT | EGL_DMA_BUF_PLANE0_FD_EXT | EGL_DMA_BUF_PLANE0_OFFSET_EXT | EGL_DMA_BUF_PLANE0_PITCH_EXT.

(** The lines of the inventory that say what was found. *)
Inductive line :=
  | ConnectorLine (id : Z) (status : string) (modes : Z) (encoder : Z)
  | CrtcLine (id : Z) (active : bool) (framebuffer : Z)
  | FramebufferLine (id width height : Z) (format : string) (native : bool) (modifier : Z)
  | ExportLine (plane : Z) (passed : bool)
  | PlaneLine (id : Z) (type : string) (crtc framebuffer count : Z) (native_formats : list string)
  | SummaryLine (framebuffers : Z).

Inductive request :=
  | Open (path : string)                                   (* the descriptor *)
  | Make (h : handle)
  | Free (h : handle)
  | Succeeds (name : string) (on : list handle)
  | GetResources
  | GetConnector (id : Z)
  | GetEncoder (id : Z)
  | GetCrtc (id : Z)
  | CreateDumb (width height bpp : Z)
  | MapDumb (handle : Z)                                   (* the offset to map *)
  | Mmap (size offset : Z)                                 (* the memory as it is found *)
  | AddFB2 (width height format handle pitch : Z)          (* the identifier *)
  | SetCrtc (crtc fb x y : Z) (connectors : list Z) (mode : option mode_info) (memory : option (list Z))
                                                           (* with what the memory of an own buffer holds *)
  | PrimeHandleToFD (handle : Z)                           (* the result and the descriptor *)
  | QueryDevices                                           (* how many of at most eight *)
  | QueryExtensions
  | CreateImage (attributes : list (attribute * Z))
  | Sleep
  | GetFB2 (id : Z)
  | GetPlaneResources
  | GetPlane (id : Z)
  | GetProperties (id : Z)                                 (* the property identifiers and values of an object *)
  | GetProperty (id : Z)
  | Print (l : line).

Definition answers (c : request) : Type :=
  match c with
  | Open _ => Z
  | Make _ | Succeeds _ _ | CreateImage _ => bool
  | Free _ | Sleep | Print _ => unit
  | GetResources => option resources
  | GetConnector _ => option connector
  | GetEncoder _ => option encoder
  | GetCrtc _ => option crtc_info
  | CreateDumb _ _ _ => option dumb
  | MapDumb _ => option Z
  | Mmap _ _ => option (list Z)
  | AddFB2 _ _ _ _ _ => option Z
  | SetCrtc _ _ _ _ _ _ _ => bool
  | PrimeHandleToFD _ => Z * Z
  | QueryDevices => option Z
  | QueryExtensions => option string
  | GetFB2 _ => option framebuffer
  | GetPlaneResources => option (list Z)
  | GetPlane _ => option plane
  | GetProperties _ => option (list (Z * Z))
  | GetProperty _ => option property
  end.

#[local] Abbreviation proc := (Calls.proc answers).
#[local] Abbreviation ask := (Calls.call (ans := answers)).

(** [Undefined] is a division by zero or an access outside the mapping. *)
Inductive outcome := Exit (code : Z) | Undefined.

(** [Some] made the handle. *)
Definition when {A} (h : handle) (a : option A) : list handle := match a with Some _ => [h] | None => [] end.
#[export] Instance kms_handling : Handling answers handle := {
  handle_eq_dec := _;
  made c := match c with
    | Open _ => fun fd => if fd <? 0 then [] else [Card]
    | Make h => fun ok => if ok then [h] else []
    | GetResources => when Resources | GetConnector _ => when Connector | GetEncoder _ => when Encoder | GetCrtc _ => when Crtc
    | CreateDumb _ _ _ => when Dumb | Mmap _ _ => when Mapping | AddFB2 _ _ _ _ _ => when Framebuffer
    | PrimeHandleToFD _ => fun a => if a.2 <? 0 then [] else [DmaBuf]
    | CreateImage _ => fun ok => if ok then [Image] else []
    | GetFB2 _ => when Framebuffer2 | GetPlaneResources => when Planes | GetPlane _ => when Plane
    | GetProperties _ => when Properties | GetProperty _ => when Property
    | _ => fun _ => []
    end;
  freed c := match c with Free h => [h] | _ => [] end;
  needed c := match c with
    | Succeeds _ on => on
    | MapDumb _ => [Dumb]
    | AddFB2 _ _ _ _ _ => [Master; Dumb]
    | SetCrtc _ _ _ _ _ _ memory => Master :: match memory with Some _ => [Framebuffer; Mapping] | None => [] end
    | PrimeHandleToFD _ => [Card]
    | QueryExtensions => [Display]
    | _ => []
    end;
  parents h := match h with
    | Master | Resources | Connector | Encoder | Crtc | Version | Framebuffer2 | Planes | Plane | Properties | Property => [Card]
    | Dumb => [Card] | Mapping => [Dumb] | Framebuffer => [Dumb] | Image => [Display] | _ => []
    end;
  dies_with _ := [] }.

(** ** The ten-bit gradient *)

Module Xb30.

Record Selection := mkSelection { sel_connector : Z; sel_crtc : Z; sel_mode : mode_info }.

Definition preferred (m : mode_info) : bool := negb (Z.land (mode_type m) DRM_MODE_TYPE_PREFERRED =? 0).
Definition better_mode (candidate best : mode_info) : bool :=
  let candidate_area := u64 (hdisplay candidate * vdisplay candidate) in
  let best_area := u64 (hdisplay best * vdisplay best) in
  if negb (candidate_area =? best_area) then best_area <? candidate_area
  else if negb (Bool.eqb (preferred candidate) (preferred best)) then preferred candidate
  else vrefresh best <? vrefresh candidate.

(** The first CRTC of the mask; [1U << crtc] beyond 31 is undefined and does not arise: a card
    has at most 32. *)
Fixpoint first_possible (mask : Z) (index : Z) (ids : list Z) : option Z :=
  match ids with
  | [] => None
  | id :: ids => if negb (Z.land mask (u32 (Z.shiftl 1 index)) =? 0) then Some id else first_possible mask (index + 1) ids
  end.

(** The loop over the connector's own encoder and those it can use; zero for none. *)
Fixpoint encoder_loop (r : resources) (ids : list Z) : proc Z :=
  match ids with
  | [] => mret 0
  | id :: ids =>
      if id =? 0 then encoder_loop r ids else
      e ← ask (GetEncoder id);
      match e with
      | None => encoder_loop r ids
      | Some e =>
          ask (Free Encoder);;
          if negb (encoder_crtc_id e =? 0) then mret (encoder_crtc_id e)
          else match first_possible (possible_crtcs e) 0 (crtcs r) with Some id => mret id | None => encoder_loop r ids end
      end
  end.
Definition choose_crtc (r : resources) (c : connector) : proc Z := encoder_loop r (encoder_id c :: encoders c).

Fixpoint best_mode (best : mode_info) (ms : list mode_info) : mode_info :=
  match ms with [] => best | m :: ms => best_mode (if better_mode m best then m else best) ms end.

(** What a connector offers replaces what was found when it is better. *)
Definition consider (found offer : option Selection) : option Selection :=
  match offer, found with
  | None, _ => found
  | Some o, Some f => if better_mode (sel_mode o) (sel_mode f) then Some o else Some f
  | Some o, None => Some o
  end.
Definition offer (r : resources) (id : Z) : proc (option Selection) :=
  c ← ask (GetConnector id);
  match c with
  | None => mret None
  | Some c =>
      match modes c with
      | m :: ms =>
          if connection c =? DRM_MODE_CONNECTED then
            let best := best_mode m ms in
            crtc ← choose_crtc r c;
            ask (Free Connector);;
            mret (if crtc =? 0 then None else Some (mkSelection (connector_id c) crtc best))
          else ask (Free Connector);; mret None
      | [] => ask (Free Connector);; mret None
      end
  end.
Fixpoint choose_output (r : resources) (ids : list Z) (found : option Selection) : proc (option Selection) :=
  match ids with
  | [] => mret found
  | id :: ids => o ← offer r id; choose_output r ids (consider found o)
  end.

(** *** The picture *)

(** [None]: a division by zero. *)
Definition div_u32 (a b : Z) : option Z := if b =? 0 then None else Some (a / b).
Definition pixel (width height x y : Z) : option Z :=
  red ← div_u32 (u32 (x * 1023)) (u32 (width - 1));
  green ← div_u32 (u32 (y * 1023)) (u32 (height - 1));
  let blue := u32 (1023 - red) in
  Some (Z.lor (Z.lor red (u32 (Z.shiftl green 10))) (u32 (Z.shiftl blue 20))).
(** The stores of a row and of the rows; a word is four bytes, the low one first. *)
Fixpoint fill_row (width height y row : Z) (xs : list Z) (memory : list Z) : option (list Z) :=
  match xs with
  | [] => Some memory
  | x :: xs => p ← pixel width height x y; memory ← write_le memory (row + 4 * x) p 4; fill_row width height y row xs memory
  end.
Fixpoint fill_rows (width height pitch : Z) (ys : list Z) (memory : list Z) : option (list Z) :=
  match ys with
  | [] => Some memory
  | y :: ys => memory ← fill_row width height y (u32 (y * pitch)) (seqZ 0 width) memory; fill_rows width height pitch ys memory
  end.
Definition draw (width height pitch : Z) (memory : list Z) : option (list Z) := fill_rows width height pitch (seqZ 0 height) memory.

(** *** Importing the buffer *)

Definition image_attributes (fd width height pitch : Z) : list (attribute * Z) :=
  [(EGL_WIDTH, s32 width); (EGL_HEIGHT, s32 height); (EGL_LINUX_DRM_FOURCC_EXT, s32 DRM_FORMAT_XBGR2101010);
   (EGL_DMA_BUF_PLANE0_FD_EXT, fd); (EGL_DMA_BUF_PLANE0_OFFSET_EXT, 0); (EGL_DMA_BUF_PLANE0_PITCH_EXT, s32 pitch)].

(** [strstr] finds the name anywhere in the list. *)
Definition mentions (extensions : option string) (name : string) : bool :=
  match extensions with Some e => match String.index 0 name e with Some _ => true | None => false end | None => false end.

Fixpoint device_loop (n : nat) (attributes : list (attribute * Z)) : proc bool :=
  match n with
  | O => mret false
  | S n =>
      display ← ask (Succeeds "eglGetPlatformDisplayEXT" []);
      initialized ← (if display : bool then ask (Make Display) else mret false);
      if negb initialized then device_loop n attributes else
      extensions ← ask QueryExtensions;
      if negb (mentions extensions "EGL_EXT_image_dma_buf_import") then ask (Free Display);; device_loop n attributes else
      image ← ask (CreateImage attributes);
      if image : bool then ask (Free Image);; ask (Free Display);; mret true
      else ask (Free Display);; device_loop n attributes
  end.

Definition import_dma_buf_to_egl (fd width height pitch : Z) : proc bool :=
  query ← ask (Succeeds "eglQueryDevicesEXT" []);
  display ← ask (Succeeds "eglGetPlatformDisplayEXT" []);
  create ← ask (Succeeds "eglCreateImageKHR" []);
  destroy ← ask (Succeeds "eglDestroyImageKHR" []);
  if negb (query && display && create && destroy) then mret false else
  count ← ask QueryDevices;
  match count with
  | None => mret false
  | Some count => device_loop (Z.to_nat count) (image_attributes fd width height pitch)
  end.

(** *** The program *)

(** Handles given back in this order. *)
Fixpoint release (hs : list handle) : proc unit := match hs with [] => mret tt | h :: hs => ask (Free h);; release hs end.
(** The display's state before, if the card told it. *)
Definition saved (previous : option crtc_info) : list handle := when Crtc previous.

(** The mode set, the buffer exported and imported: the result. *)
Definition export_and_import (d : dumb) (width height : Z) : proc Z :=
  '(export_result, fd) ← ask (PrimeHandleToFD (dumb_handle d));
  result ← (if negb (export_result =? 0) then mret 11
            else ok ← import_dma_buf_to_egl fd width height (pitch d); mret (if ok : bool then 0 else 12));
  (if 0 <=? fd then ask (Free DmaBuf) else mret tt);;
  ask Sleep;;
  mret result.
(** The state before comes back, or the CRTC is switched off. *)
Definition restore (s : Selection) (previous : option crtc_info) : proc bool :=
  match previous with
  | Some p =>
      if mode_valid p then ask (SetCrtc (crtc_id p) (buffer_id p) (crtc_x p) (crtc_y p) [sel_connector s] (Some (crtc_mode p)) None)
      else ask (SetCrtc (sel_crtc s) 0 0 0 [] None None)
  | None => ask (SetCrtc (sel_crtc s) 0 0 0 [] None None)
  end.

Definition show (s : Selection) (previous : option crtc_info) (d : dumb) (fb : Z) (memory : list Z) : proc Z :=
  let m := sel_mode s in
  set ← ask (SetCrtc (sel_crtc s) fb 0 0 [sel_connector s] (Some m) (Some memory));
  result ← (if set : bool then export_and_import d (hdisplay m) (vdisplay m) else mret 10);
  restore s previous;;
  mret result.

Definition present (s : Selection) (previous : option crtc_info) : proc outcome :=
  let end_ := saved previous ++ [Resources; Master; Card] in
  let fail code hs := release (hs ++ end_);; mret (Exit code) in
  let width := hdisplay (sel_mode s) in let height := vdisplay (sel_mode s) in
  create ← ask (CreateDumb width height 32);
  match create with
  | None => fail 6 []
  | Some d =>
      offset ← ask (MapDumb (dumb_handle d));
      match offset with
      | None => fail 7 [Dumb]
      | Some offset =>
          mapping ← ask (Mmap (size d) offset);
          match mapping with
          | None => fail 8 [Dumb]
          | Some memory =>
              match draw width height (pitch d) memory with
              | None => mret Undefined
              | Some memory =>
                  fb ← ask (AddFB2 width height DRM_FORMAT_XBGR2101010 (dumb_handle d) (pitch d));
                  match fb with
                  | None => fail 9 [Mapping; Dumb]
                  | Some fb => result ← show s previous d fb memory; fail result [Framebuffer; Mapping; Dumb]
                  end
              end
          end
      end
  end.

Definition main (arguments : list string) : proc outcome :=
  match arguments with
  | _ :: _ :: _ => mret (Exit 2)
  | _ =>
      let device := match arguments with [d] => d | _ => "/dev/dri/card0"%string end in
      fd ← ask (Open device);
      if fd <? 0 then mret (Exit 3) else
      master ← ask (Make Master);
      if negb master then ask (Free Card);; mret (Exit 4) else
      found ← ask GetResources;
      match found with
      | None => release [Master; Card];; mret (Exit 5)
      | Some r =>
          s ← choose_output r (connectors r) None;
          match s with
          | None => release [Resources; Master; Card];; mret (Exit 5)
          | Some s => previous ← ask (GetCrtc (sel_crtc s)); present s previous
          end
      end
  end.
End Xb30.

(** ** The inventory *)

Module Inventory.

Definition byte_char (v : Z) : Ascii.ascii := Ascii.ascii_of_N (Z.to_N (Z.land v 0xff)).
Definition fourcc_name (format : Z) : string :=
  String (byte_char format) (String (byte_char (Z.shiftr format 8)) (String (byte_char (Z.shiftr format 16)) (String (byte_char (Z.shiftr format 24)) EmptyString))).
Definition is_native_10_bit_rgb (format : Z) : bool :=
  (format =? DRM_FORMAT_XRGB2101010) || (format =? DRM_FORMAT_ARGB2101010) || (format =? DRM_FORMAT_XBGR2101010) || (format =? DRM_FORMAT_ABGR2101010).
Definition connection_name (c : Z) : string :=
  if c =? DRM_MODE_CONNECTED then "connected" else if c =? DRM_MODE_DISCONNECTED then "disconnected" else "unknown".

Definition self_test : Z :=
  if String.eqb (fourcc_name DRM_FORMAT_XRGB2101010) "XR30" && String.eqb (fourcc_name DRM_FORMAT_ARGB2101010) "AR30" &&
     is_native_10_bit_rgb DRM_FORMAT_XRGB2101010 && negb (is_native_10_bit_rgb DRM_FORMAT_XRGB8888) then 0 else 1.

(** The name of the value in an enumeration. *)
Fixpoint enum_name (selected : Z) (es : list (Z * string)) : option string :=
  match es with [] => None | (v, n) :: es => if v =? selected then Some n else enum_name selected es end.
Fixpoint property_loop (wanted : string) (props : list (Z * Z)) (value : string) : proc string :=
  match props with
  | [] => mret value
  | (id, selected) :: props =>
      p ← ask (GetProperty id);
      match p with
      | None => property_loop wanted props value
      | Some p =>
          ask (Free Property);;
          property_loop wanted props (if String.eqb (property_name p) wanted then default value (enum_name selected (enums p)) else value)
      end
  end.
Definition object_property_name (id : Z) (wanted : string) : proc string :=
  props ← ask (GetProperties id);
  match props with
  | None => mret "unknown"%string
  | Some props => value ← property_loop wanted props "unknown"; ask (Free Properties);; mret value
  end.

(** Each buffer of the framebuffer is exported once. *)
Fixpoint export_loop (index : Z) (hs exported : list Z) : proc unit :=
  match hs with
  | [] => mret tt
  | h :: hs =>
      if (h =? 0) || bool_decide (h ∈ exported) then export_loop (index + 1) hs exported
      else
        '(result, fd) ← ask (PrimeHandleToFD h);
        ask (Print (ExportLine index (result =? 0)));;
        (if 0 <=? fd then ask (Free DmaBuf) else mret tt);;
        export_loop (index + 1) hs (h :: exported)
  end.
Definition print_framebuffer (id : Z) : proc unit :=
  fb ← ask (GetFB2 id);
  match fb with
  | None => mret tt
  | Some fb =>
      ask (Print (FramebufferLine (fb_id fb) (fb_width fb) (fb_height fb) (fourcc_name (pixel_format fb)) (is_native_10_bit_rgb (pixel_format fb)) (modifier fb)));;
      export_loop 0 (take 4 (handles fb)) [];;
      ask (Free Framebuffer2)
  end.

Fixpoint connector_loop (ids : list Z) : proc unit :=
  match ids with
  | [] => mret tt
  | id :: ids =>
      c ← ask (GetConnector id);
      match c with
      | None => connector_loop ids
      | Some c =>
          ask (Print (ConnectorLine (connector_id c) (connection_name (connection c)) (len (modes c)) (encoder_id c)));;
          ask (Free Connector);; connector_loop ids
      end
  end.

(** A framebuffer that is scanned out, zero for none, joins the active ones and is described. *)
Definition scanned_out (id : Z) (active : gset Z) : proc (gset Z) :=
  if id =? 0 then mret active else print_framebuffer id;; mret ({[id]} ∪ active).
Fixpoint crtc_loop (ids : list Z) (active : gset Z) : proc (gset Z) :=
  match ids with
  | [] => mret active
  | id :: ids =>
      c ← ask (GetCrtc id);
      match c with
      | None => crtc_loop ids active
      | Some c =>
          ask (Print (CrtcLine (crtc_id c) (mode_valid c) (buffer_id c)));;
          active ← scanned_out (buffer_id c) active;
          ask (Free Crtc);; crtc_loop ids active
      end
  end.
Definition native_formats (fs : list Z) : list string := map fourcc_name (List.filter is_native_10_bit_rgb fs).
Fixpoint plane_loop (ids : list Z) (active : gset Z) : proc (gset Z) :=
  match ids with
  | [] => mret active
  | id :: ids =>
      p ← ask (GetPlane id);
      match p with
      | None => plane_loop ids active
      | Some p =>
          type ← object_property_name (plane_id p) "type";
          ask (Print (PlaneLine (plane_id p) type (plane_crtc p) (plane_fb p) (len (formats p)) (native_formats (formats p))));;
          active ← scanned_out (plane_fb p) active;
          ask (Free Plane);; plane_loop ids active
      end
  end.

Definition default_device : string := "/dev/dri/card0".
(** [None]: the usage is printed. *)
Fixpoint option_loop (arguments : list string) (inventory_only : bool) (device : string) : option (bool * string) :=
  match arguments with
  | [] => Some (inventory_only, device)
  | a :: arguments =>
      if String.eqb a "--inventory-only" then option_loop arguments true device
      else if String.eqb device default_device then option_loop arguments inventory_only a
      else None
  end.

Definition survey (r : resources) : proc (gset Z) :=
  connector_loop (connectors r);;
  active ← crtc_loop (crtcs r) ∅;
  planes ← ask GetPlaneResources;
  active ← match planes with
    | None => mret active
    | Some ids => active ← plane_loop ids active; ask (Free Planes);; mret active
    end;
  ask (Print (SummaryLine (Z.of_nat (base.size active))));;
  mret active.

Definition inspect (inventory_only : bool) (device : string) : proc Z :=
  fd ← ask (Open device);
  if fd <? 0 then mret 3 else
  version ← ask (Make Version);
  (if version : bool then ask (Free Version) else mret tt);;
  ask (Succeeds "DRM_CLIENT_CAP_UNIVERSAL_PLANES" [Card]);;
  ask (Succeeds "DRM_CLIENT_CAP_ATOMIC" [Card]);;
  found ← ask GetResources;
  match found with
  | None => ask (Free Card);; mret 4
  | Some r =>
      active ← survey r;
      ask (Free Resources);;
      ask (Free Card);;
      mret (if bool_decide (active = ∅) && negb inventory_only then 5 else 0)
  end.

Definition main (arguments : list string) : proc Z :=
  match arguments with
  | ["--self-test"%string] => mret self_test
  | _ =>
      match option_loop arguments false default_device with
      | None => mret 2
      | Some (inventory_only, device) => if 2 <? len arguments then mret 2 else inspect inventory_only device
      end
  end.
End Inventory.

(** ** The picture on the bare display *)

Import Xb30.

(** Red from left to right, green from top to bottom, blue against red: ten bits each. *)
Definition gradient (width height x y : Z) : Z :=
  let red := x * 1023 / (width - 1) in let green := y * 1023 / (height - 1) in red + 2 ^ 10 * green + 2 ^ 20 * (1023 - red).

Lemma ramp_range n i : 2 <= n -> 0 <= i < n -> 0 <= i * 1023 / (n - 1) <= 1023.
Proof. intros Hn Hi. split; [apply Z.div_pos; lia|]. apply Z.div_le_upper_bound; nia. Qed.

Lemma pixel_gradient width height x y : 2 <= width < 2 ^ 16 -> 2 <= height < 2 ^ 16 -> 0 <= x < width -> 0 <= y < height ->
  pixel width height x y = Some (gradient width height x y) /\ in_range 32 (gradient width height x y).
Proof.
  intros Hw Hh Hx Hy. pose proof (ramp_range width x) as Hr. pose proof (ramp_range height y) as Hg. unfold pixel, div_u32, gradient.
  rewrite (wrap_small 32 (x * 1023)), (wrap_small 32 (y * 1023)), (wrap_small 32 (width - 1)), (wrap_small 32 (height - 1)) by (ranges; lia).
  rewrite !(proj2 (Z.eqb_neq _ 0)) by lia. cbn [mbind option_bind].
  set (red := x * 1023 / (width - 1)) in *. set (green := y * 1023 / (height - 1)) in *.
  specialize (Hr ltac:(lia) Hx). specialize (Hg ltac:(lia) Hy).
  rewrite (wrap_small 32 (1023 - red)) by (ranges; lia). rewrite !Z.shiftl_mul_pow2 by lia.
  rewrite (wrap_small 32 (green * 2 ^ 10)), (wrap_small 32 ((1023 - red) * 2 ^ 20)) by (ranges; lia). split; [|ranges; lia].
  rewrite <- !Z.shiftl_mul_pow2 by lia. rewrite (Z.lor_comm red), lor_shiftl_add by lia. rewrite (Z.lor_comm (_ + _)), lor_shiftl_add; [|lia|]; rewrite ?Z.shiftl_mul_pow2 by lia; [|lia].
  f_equal. lia.
Qed.

(** The words of the buffer at [row + 4 * x]. *)
Section rows.
Context (width height pitch : Z).
Hypothesis (Hw : 2 <= width < 2 ^ 16) (Hh : 2 <= height < 2 ^ 16) (Hpitch : 4 * width <= pitch) (Hsize : pitch * height <= 2 ^ 32).

Definition apart (a b : Z) : Prop := a + 4 <= b \/ b + 4 <= a.

Lemma fill_row_writes y xs memory : NoDup xs -> (forall x, x ∈ xs -> 0 <= x < width) -> 0 <= y < height -> pitch * height <= len memory ->
  exists memory', fill_row width height y (y * pitch) xs memory = Some memory' /\ length memory' = length memory /\
    (forall x, x ∈ xs -> sample 4 memory' (y * pitch + 4 * x) = Some (gradient width height x y)) /\
    (forall b, 0 <= b -> b + 4 <= len memory -> (forall x, x ∈ xs -> apart b (y * pitch + 4 * x)) -> sample 4 memory' b = sample 4 memory b).
Proof using All.
  intros Hnd Hin Hy. revert memory. induction xs as [|x xs IH]; intros memory Hl.
  { exists memory. split_and!; [done..| |done]. by intros x Hx%not_elem_of_nil. }
  apply NoDup_cons in Hnd as [Hx Hnd]. assert (0 <= x < width) as Hxr by (apply Hin; left).
  assert (y * pitch + 4 * x + 4 <= len memory) as Hfit by nia.
  destruct (pixel_gradient width height x y Hw Hh Hxr Hy) as [Hp Hr].
  destruct (sample_written 4 memory (y * pitch + 4 * x) (gradient width height x y)) as (m1 & H1 & Hl1 & Hs1 & Ho1); [nia|lia|done|].
  destruct (IH Hnd ltac:(intros; apply Hin; by right) m1 ltac:(lia)) as (m2 & H2 & Hl2 & Hs2 & Ho2).
  exists m2. cbn [fill_row]. rewrite Hp. cbn [mbind option_bind]. rewrite write_le_copy by (nia || lia). fold (Conversion.st_global 4 memory (y * pitch + 4 * x) (gradient width height x y)).
  rewrite H1. cbn [mbind option_bind]. split_and!; [done|congruence| |].
  - intros x' [->|Hx']%elem_of_cons; [|by apply Hs2]. rewrite Ho2; [done|nia|lia|].
    intros x' Hx'. unfold apart. assert (x <> x') by (intros ->; done). lia.
  - intros b Hb Hbl Hap. rewrite Ho2; [|done|lia|intros x' Hx'; apply Hap; by right]. apply Ho1; [lia..|]. destruct (Hap x ltac:(left)); [by left|by right].
Qed.

Lemma fill_rows_writes ys memory : NoDup ys -> (forall y, y ∈ ys -> 0 <= y < height) -> pitch * height <= len memory ->
  exists memory', fill_rows width height pitch ys memory = Some memory' /\ length memory' = length memory /\
    (forall x y, 0 <= x < width -> y ∈ ys -> sample 4 memory' (y * pitch + 4 * x) = Some (gradient width height x y)) /\
    (forall b, 0 <= b -> b + 4 <= len memory -> (forall x y, 0 <= x < width -> y ∈ ys -> apart b (y * pitch + 4 * x)) -> sample 4 memory' b = sample 4 memory b).
Proof using All.
  intros Hnd Hin. revert memory. induction ys as [|y ys IH]; intros memory Hl.
  { exists memory. split_and!; [done..| |done]. by intros x y _ Hx%not_elem_of_nil. }
  apply NoDup_cons in Hnd as [Hy Hnd]. assert (0 <= y < height) as Hyr by (apply Hin; left).
  destruct (fill_row_writes y (seqZ 0 width) memory) as (m1 & H1 & Hl1 & Hs1 & Ho1); [apply NoDup_seqZ|by intros x Hx%elem_of_seqZ|done|done|].
  destruct (IH Hnd ltac:(intros; apply Hin; by right) m1 ltac:(lia)) as (m2 & H2 & Hl2 & Hs2 & Ho2).
  exists m2. cbn [fill_rows]. rewrite (wrap_small 32 (y * pitch)) by (ranges; nia). rewrite H1. cbn [mbind option_bind]. split_and!; [done|congruence| |].
  - intros x y' Hx [->|Hy']%elem_of_cons; [|by apply Hs2]. rewrite Ho2; [apply Hs1, elem_of_seqZ; lia|nia|nia|].
    intros x' y' Hx' Hy'. assert (y <> y') by (intros ->; done). assert (0 <= y' < height) by (apply Hin; by right). unfold apart.
    assert (y + 1 <= y' \/ y' + 1 <= y) as [?|?] by lia; nia.
  - intros b Hb Hbl Hap. rewrite Ho2; [|done|lia|intros x' y' Hx' Hy'; apply Hap; [done|by right]]. apply Ho1; [lia..|].
    intros x Hx%elem_of_seqZ. apply Hap; [lia|left].
Qed.

(** The drawing stays in the mapping and leaves the gradient. *)
Lemma draw_gradient memory : pitch * height <= len memory -> exists memory', draw width height pitch memory = Some memory' /\ length memory' = length memory /\
  forall x y, 0 <= x < width -> 0 <= y < height -> sample 4 memory' (y * pitch + 4 * x) = Some (gradient width height x y).
Proof using All.
  intros Hl. destruct (fill_rows_writes (seqZ 0 height) memory) as (m & Hm & Hlen & Hs & _); [apply NoDup_seqZ|by intros y Hy%elem_of_seqZ|done|].
  exists m. split_and!; [done..|]. intros x y Hx Hy. apply Hs; [done|]. apply elem_of_seqZ. lia.
Qed.
End rows.

(** *** The selection *)

(** A mode's rank: its area, whether it is preferred, its refresh rate. *)
Definition rank (m : mode_info) : Z := (u64 (hdisplay m * vdisplay m) * 2 + (if preferred m then 1 else 0)) * 2 ^ 32 + vrefresh m.
Definition usable_mode (m : mode_info) : Prop := 2 <= hdisplay m < 2 ^ 16 /\ 2 <= vdisplay m < 2 ^ 16 /\ in_range 32 (vrefresh m).

Lemma better_mode_rank a b : usable_mode a -> usable_mode b -> better_mode a b = (rank b <? rank a).
Proof.
  intros (_ & _ & Ha) (_ & _ & Hb). unfold better_mode, rank, in_range in *. generalize (u64 (hdisplay a * vdisplay a)) (u64 (hdisplay b * vdisplay b)). intros x y.
  destruct (Z.eqb_spec x y) as [->|Hne]; cbn [negb].
  - destruct (preferred a), (preferred b); cbn [Bool.eqb negb]; lia.
  - destruct (preferred a), (preferred b); lia.
Qed.

Lemma best_mode_max best ms : usable_mode best -> Forall usable_mode ms ->
  best_mode best ms ∈ best :: ms /\ forall m, m ∈ best :: ms -> rank m <= rank (best_mode best ms).
Proof.
  revert best. induction ms as [|m ms IH]; intros best Hb Hms; cbn [best_mode].
  { split; [left|]. by intros m ->%list_elem_of_singleton. }
  apply Forall_cons in Hms as [Hm Hms]. rewrite better_mode_rank by done. destruct (Z.ltb_spec (rank best) (rank m)) as [Hlt|Hge].
  - destruct (IH m Hm Hms) as [Hin Hmax]. split; [by right|]. intros m' [->|Hm']%elem_of_cons; [|by apply Hmax].
    specialize (Hmax m ltac:(left)). lia.
  - destruct (IH best Hb Hms) as [Hin Hmax]. split; [apply elem_of_cons in Hin as [->|Hin]; [left|do 2 right; done]|].
    intros m' [->|[->|Hm']%elem_of_cons]%elem_of_cons; [apply Hmax; left| |apply Hmax; by right]. specialize (Hmax best ltac:(left)). lia.
Qed.

Definition offered (o : option Selection) : list Selection := match o with Some o => [o] | None => [] end.
Definition choose (os : list (option Selection)) (found : option Selection) : option Selection := fold_left consider os found.

Lemma choose_best os found s : (forall o, o ∈ offered found ++ flat_map offered os -> usable_mode (sel_mode o)) -> choose os found = Some s ->
  s ∈ offered found ++ flat_map offered os /\ forall o, o ∈ offered found ++ flat_map offered os -> rank (sel_mode o) <= rank (sel_mode s).
Proof.
  revert found. induction os as [|o os IH]; intros found Hu Hs; cbn [choose fold_left flat_map] in *.
  { subst found. split; [left|]. by intros o ->%list_elem_of_singleton. }
  assert (forall x, x ∈ offered (consider found o) -> x ∈ offered found \/ x ∈ offered o) as Hone.
  { intros x. destruct o as [o|], found as [f|]; cbn; try tauto. destruct (better_mode _ _); tauto. }
  destruct (IH (consider found o)) as [Hin Hmax]; [|done|].
  - intros x [Hx|Hx]%elem_of_app; apply Hu; rewrite !elem_of_app; [apply Hone in Hx; tauto|tauto].
  - split; [rewrite !elem_of_app in *; destruct Hin as [Hin%Hone|Hin]; tauto|].
    intros x Hx. rewrite !elem_of_app in Hx. destruct Hx as [Hx|[Hx|Hx]]; [| |apply Hmax, elem_of_app; by right].
    + destruct found as [f|]; [|by apply not_elem_of_nil in Hx]. apply list_elem_of_singleton in Hx as ->. destruct o as [o|]; cbn in *; [|apply Hmax; left].
      destruct (better_mode _ _) eqn:E; [|apply Hmax; left]. rewrite better_mode_rank in E by (apply Hu; rewrite !elem_of_cons; tauto).
      specialize (Hmax o ltac:(left)). lia.
    + destruct o as [o|]; [|by apply not_elem_of_nil in Hx]. apply list_elem_of_singleton in Hx as ->. destruct found as [f|]; cbn in *; [|apply Hmax; left].
      destruct (better_mode _ _) eqn:E; [apply Hmax; left|]. rewrite better_mode_rank in E by (apply Hu; rewrite !elem_of_cons; tauto).
      specialize (Hmax f ltac:(left)). lia.
Qed.

(** *** Runs *)

#[local] Abbreviation event := (Calls.event answers).

(** Documented behaviour: the modes of a display have at least two pixels each way and the
    widths of their fields, a buffer holds its lines, a mapping has the size asked for. *)
Definition promised (e : event) : Prop :=
  match e with
  | existT c a =>
      match c return answers c -> Prop with
      | GetConnector _ => fun a => forall c, a = Some c -> Forall usable_mode (modes c)
      | CreateDumb width height _ => fun a => forall d, a = Some d -> 4 * width <= pitch d /\ pitch d * height <= size d /\ size d <= 2 ^ 32
      | Mmap size _ => fun a => forall memory, a = Some memory -> len memory = size
      | _ => fun _ => True
      end a
  end.

(** What the CRTCs are set to, in order. *)
Definition setting : Type := Z * Z * Z * Z * list Z * option mode_info * option (list Z).
Definition displays : list event -> list setting :=
  flat_map (fun e => match projT1 e with SetCrtc crtc fb x y cs m memory => [(crtc, fb, x, y, cs, m, memory)] | _ => [] end).
Lemma displays_app tr1 tr2 : displays (tr1 ++ tr2) = displays tr1 ++ displays tr2.
Proof. apply flat_map_app. Qed.

(** The setting that restores what was displayed before. *)
Definition before (s : Selection) (previous : option crtc_info) : setting :=
  match previous with
  | Some p => if mode_valid p then (crtc_id p, buffer_id p, crtc_x p, crtc_y p, [sel_connector s], Some (crtc_mode p), None)
              else (sel_crtc s, 0, 0, 0, [], None, None)
  | None => (sel_crtc s, 0, 0, 0, [], None, None)
  end.

(** A program that sets no CRTC. *)
Definition hush (_ : unit) (c : request) (_ : answers c) : option unit := match c with SetCrtc _ _ _ _ _ _ _ => None | _ => Some tt end.
Lemma hushed {A} (p : proc A) Q tr r : wp hush p Q tt -> runs p tr r -> displays tr = [] /\ Q r tt.
Proof.
  intros Hp Hr. destruct (wp_sound _ _ _ _ _ _ Hp Hr) as ([] & Ho & HQ). split; [|done]. clear -Ho.
  induction tr as [|[c a] tr IH]; [done|]. cbn [observe] in Ho. destruct c; try discriminate Ho; by apply IH.
Qed.
Ltac hush_all := ask_with split_answer ltac:(fun x => let y := eval cbv in x in change x with y); try done.

Lemma release_hushed hs : wp hush (release hs) (fun _ _ => True) tt.
Proof. induction hs as [|h hs IH]; [done|]. cbn [release]. by intros []. Qed.

Lemma encoder_loop_hushed r ids : wp hush (encoder_loop r ids) (fun _ _ => True) tt.
Proof.
  induction ids as [|i ids IH]; [done|]. cbn [encoder_loop]. destruct (i =? 0); [done|]. intros [e|]; [|done]. intros []. cbn [hush].
  destruct (negb _); [done|]. by destruct (first_possible _ _ _).
Qed.

(** What a connector offers: a CRTC and the best of its modes. *)
Definition offer_of (id : Z) (tr : list event) (s : Selection) : Prop :=
  exists c, existT (GetConnector id) (Some c) ∈ tr /\ connection c = DRM_MODE_CONNECTED /\ sel_connector s = connector_id c /\ sel_crtc s <> 0 /\
    sel_mode s ∈ modes c /\ forall m, m ∈ modes c -> rank m <= rank (sel_mode s).

Lemma offer_runs r id tr o : runs (offer r id) tr o -> Forall promised tr ->
  displays tr = [] /\ forall s, o = Some s -> usable_mode (sel_mode s) /\ offer_of id tr s.
Proof.
  intros H Hp. unfold offer in H. follow H c. apply Forall_cons in Hp as [Hc Hp]. change (displays (existT (GetConnector id) c :: tr0)) with (displays tr0).
  destruct c as [c|]; [|destruct H as [-> ->]; done]. specialize (Hc c eq_refl). destruct (modes c) as [|m ms] eqn:Em.
  { follow H u. destruct H as [-> ->]. done. }
  destruct (Z.eqb_spec (connection c) DRM_MODE_CONNECTED) as [Ec|]; [|follow H u; by destruct H as [-> ->]].
  apply runs_bind in H as (tr1 & crtc & tr2 & -> & H1 & H2). destruct (hushed _ _ _ _ (encoder_loop_hushed r _) H1) as [Hd _].
  follow H2 u. destruct H2 as [-> ->]. rewrite displays_app, Hd. split; [done|]. intros s. destruct (Z.eqb_spec crtc 0) as [|Hcrtc]; [done|]. intros [= <-].
  apply Forall_cons in Hc as [Hm Hms]. destruct (best_mode_max m ms Hm Hms) as [Hin Hmax]. cbn [sel_mode]. split.
  { apply elem_of_cons in Hin as [->|Hin]; [done|]. by eapply Forall_forall in Hms. }
  exists c. rewrite Em. split_and!; try done. left.
Qed.

Lemma choose_output_runs r ids found tr s : runs (choose_output r ids found) tr s -> Forall promised tr ->
  displays tr = [] /\ exists os, s = choose os found /\ (forall o, o ∈ flat_map offered os -> usable_mode (sel_mode o)) /\
    Forall2 (fun id o => exists tr', runs (offer r id) tr' o /\ tr' ⊆ tr /\ forall s, o = Some s -> offer_of id tr' s) ids os.
Proof.
  revert found tr. induction ids as [|id ids IH]; intros found tr H Hp; cbn [choose_output] in H.
  { destruct H as [-> ->]. split; [done|]. exists []. split_and!; [done| |constructor]. by intros o Ho%not_elem_of_nil. }
  apply runs_bind in H as (tr1 & o & tr2 & -> & H1 & H2). apply Forall_app in Hp as [Hp1 Hp2].
  destruct (offer_runs _ _ _ _ H1 Hp1) as [Hd1 Ho]. destruct (IH _ _ H2 Hp2) as (Hd2 & os & Hs & Hu & Hf). rewrite displays_app, Hd1, Hd2. split; [done|].
  exists (o :: os). split_and!.
  - done.
  - intros x Hx. cbn in Hx. apply elem_of_app in Hx as [Hx|Hx]; [|by apply Hu]. destruct o as [o|]; [|by apply not_elem_of_nil in Hx].
    apply list_elem_of_singleton in Hx as ->. by apply Ho.
  - constructor.
    + exists tr1. split_and!; [done|set_solver|]. intros s' ->. by apply Ho.
    + eapply Forall2_impl; [exact Hf|]. intros i x (tr' & Hr & Hsub & Hof). exists tr'. split_and!; [done|set_solver|done].
Qed.

Lemma device_loop_runs n attributes tr b : runs (device_loop n attributes) tr b -> displays tr = [] /\ (b = true -> existT (CreateImage attributes) true ∈ tr).
Proof.
  revert tr. induction n as [|n IH]; intros tr H; cbn [device_loop] in H; [by destruct H as [-> ->]|].
  assert (forall e tr, displays [e] = [] -> displays tr = [] /\ (b = true -> existT (CreateImage attributes) true ∈ tr) ->
    displays (e :: tr) = [] /\ (b = true -> existT (CreateImage attributes) true ∈ e :: tr)) as Hstep.
  { intros e l He [Hl Hin]. change (e :: l) with ([e] ++ l). rewrite displays_app, He, Hl. split; [done|]. intros Hb. right. by apply Hin. }
  follow H display. apply Hstep; [done|]. destruct display; cbn in H.
  2:{ by apply IH. }
  destruct H as (initialized & tr' & -> & H). apply Hstep; [done|]. destruct initialized; cbn in H; [|by apply IH].
  destruct H as (extensions & tr1 & -> & H). apply Hstep; [done|]. destruct (mentions _ _); cbn in H.
  2:{ destruct H as (u & tr2 & -> & H). apply Hstep; [done|]. by apply IH. }
  destruct H as (image & tr2 & -> & H). destruct image; cbn in H.
  - destruct H as (u & tr3 & -> & u' & tr4 & -> & -> & ->). split; [done|]. intros _. left.
  - apply Hstep; [done|]. destruct H as (u & tr3 & -> & H). apply Hstep; [done|]. by apply IH.
Qed.

Lemma import_runs fd width height p tr b : runs (import_dma_buf_to_egl fd width height p) tr b ->
  displays tr = [] /\ (b = true -> existT (CreateImage (image_attributes fd width height p)) true ∈ tr).
Proof.
  intros H. unfold import_dma_buf_to_egl in H. cbn in H. destruct H as (q & tr1 & -> & d & tr2 & -> & c & tr3 & -> & x & tr4 & -> & H).
  destruct (negb _); [by destruct H as [-> ->]|]. cbn in H. destruct H as (count & tr5 & -> & H). destruct count as [n|]; [|by destruct H as [-> ->]].
  destruct (device_loop_runs _ _ _ _ H) as [Hd Hin]. split; [done|]. intros Hb. do 5 right. by apply Hin.
Qed.

(** The buffer was exported and a device imported it. *)
Definition imported (d : dumb) (m : mode_info) (tr : list event) : Prop :=
  exists fd, existT (PrimeHandleToFD (dumb_handle d)) (0, fd) ∈ tr /\ existT (CreateImage (image_attributes fd (hdisplay m) (vdisplay m) (pitch d))) true ∈ tr.

Lemma export_runs d m tr code : runs (export_and_import d (hdisplay m) (vdisplay m)) tr code ->
  displays tr = [] /\ In code [0; 11; 12] /\ (code = 0 -> imported d m tr).
Proof.
  intros H. unfold export_and_import in H. follow H a. destruct a as [r fd]. cbv beta iota in H.
  apply runs_bind in H as (tr1 & code' & tr2 & -> & H1 & H2). apply runs_bind in H2 as (tr3 & [] & tr4 & -> & H3 & H4).
  follow H4 u. destruct H4 as [-> ->].
  assert (displays tr3 = []) as Hd3 by (destruct (0 <=? fd); [destruct H3 as (? & ? & -> & -> & _); done|by destruct H3 as [-> _]]).
  change (displays (existT (PrimeHandleToFD (dumb_handle d)) (r, fd) :: tr1 ++ tr3 ++ [existT Sleep u])) with (displays (tr1 ++ tr3 ++ [existT Sleep u])).
  rewrite !displays_app, Hd3. destruct (Z.eqb_spec r 0) as [->|]; cbn [negb] in H1.
  - apply runs_bind in H1 as (tr5 & ok & tr6 & -> & H5 & [-> ->]). destruct (import_runs _ _ _ _ _ _ H5) as [Hd Hin]. rewrite ?displays_app, Hd. split; [done|].
    split; [destruct ok; cbn; tauto|]. destruct ok; [|done]. intros _. exists fd. split; [left|]. right. rewrite !elem_of_app. left. left. by apply Hin.
  - destruct H1 as [-> ->]. split_and!; [done|cbn; tauto|done].
Qed.

(** The two settings of a run that comes to the display, and its result. *)
Definition shown (s : Selection) (previous : option crtc_info) (d : dumb) (fb : Z) (memory : list Z) (tr : list event) (code : Z) : Prop :=
  displays tr = [(sel_crtc s, fb, 0, 0, [sel_connector s], Some (sel_mode s), Some memory); before s previous] /\
  In code [0; 10; 11; 12] /\ (code = 0 -> imported d (sel_mode s) tr).

Lemma show_runs s previous d fb memory tr code : runs (show s previous d fb memory) tr code -> shown s previous d fb memory tr code.
Proof.
  intros H. unfold show in H. follow H set_. cbv beta iota in H. apply runs_bind in H as (tr1 & code' & tr2 & -> & H1 & H2).
  apply runs_bind in H2 as (tr3 & back & tr4 & -> & H3 & [-> ->]). rewrite app_nil_r.
  assert (displays tr3 = [before s previous]) as Hb.
  { unfold restore, before in *. destruct previous as [p|]; [destruct (mode_valid p)|]; destruct H3 as (? & ? & -> & -> & _); done. }
  assert (displays tr1 = [] /\ In code' [0; 10; 11; 12] /\ (code' = 0 -> imported d (sel_mode s) tr1)) as (Hd & Hc & Hi).
  { destruct set_; [destruct (export_runs _ _ _ _ H1) as (? & ? & ?); split_and!; try done; cbn in *; tauto|]. destruct H1 as [-> ->]. split_and!; cbn; tauto || done. }
  split_and!; [|done|].
  - change (displays (existT (SetCrtc (sel_crtc s) fb 0 0 [sel_connector s] (Some (sel_mode s)) (Some memory)) set_ :: tr1 ++ tr3))
      with ((sel_crtc s, fb, 0, 0, [sel_connector s], Some (sel_mode s), Some memory) :: displays (tr1 ++ tr3)). by rewrite displays_app, Hd, Hb.
  - intros H0. destruct (Hi H0) as (f & ? & ?). exists f. set_solver.
Qed.

(** What the display shows is the gradient. *)
Definition shows_gradient (m : mode_info) (p : Z) (memory : list Z) : Prop :=
  forall x y, 0 <= x < hdisplay m -> 0 <= y < vdisplay m -> sample 4 memory (y * p + 4 * x) = Some (gradient (hdisplay m) (vdisplay m) x y).

Lemma present_runs s previous tr r : runs (present s previous) tr r -> Forall promised tr -> usable_mode (sel_mode s) -> exists code, r = Exit code /\
  ((In code [6; 7; 8; 9] /\ displays tr = []) \/ exists d fb memory, shown s previous d fb memory tr code /\ shows_gradient (sel_mode s) (pitch d) memory).
Proof.
  intros H Hp (Hw & Hh & _). unfold present in H.
  assert (forall code hs tr r, runs (release (hs ++ saved previous ++ [Resources; Master; Card]);; mret (Exit code)) tr r -> displays tr = [] /\ r = Exit code) as Hfail.
  { intros code hs tr' r' Hr. apply runs_bind in Hr as (tr1 & [] & tr2 & -> & H1 & [-> ->]). rewrite app_nil_r. split; [|done]. eapply hushed; [apply release_hushed|exact H1]. }
  set (e := saved previous ++ [Resources; Master; Card]) in *.
  follow H created. apply Forall_cons in Hp as [Hc Hp]. destruct created as [d|]; [|destruct (Hfail 6 [] _ _ H) as [Hd ->]; exists 6; split; [done|]; left; split; [cbn; tauto|exact Hd]].
  destruct (Hc d eq_refl) as (Hpitch & Hsize & Hmax). clear Hc.
  follow H offset. apply Forall_cons in Hp as [_ Hp]. destruct offset as [offset|]; [|destruct (Hfail 7 [Dumb] _ _ H) as [Hd ->]; exists 7; split; [done|]; left; split; [cbn; tauto|exact Hd]].
  follow H mapping. apply Forall_cons in Hp as [Hm Hp]. destruct mapping as [memory|]; [|destruct (Hfail 8 [Dumb] _ _ H) as [Hd ->]; exists 8; split; [done|]; left; split; [cbn; tauto|exact Hd]].
  specialize (Hm memory eq_refl). destruct (draw_gradient (hdisplay (sel_mode s)) (vdisplay (sel_mode s)) (pitch d) Hw Hh Hpitch ltac:(lia) memory ltac:(lia)) as (memory' & Hdraw & Hlen & Hg).
  rewrite Hdraw in H. follow H added. destruct added as [fb|]; [|destruct (Hfail 9 [Mapping; Dumb] _ _ H) as [Hd ->]; exists 9; split; [done|]; left; split; [cbn; tauto|exact Hd]].
  apply runs_bind in H as (tr4 & code & tr5 & -> & H4 & H5). destruct (Hfail code [Framebuffer; Mapping; Dumb] _ _ H5) as [Hd ->]. exists code. split; [done|]. right.
  destruct (show_runs _ _ _ _ _ _ _ H4) as (Hdisp & Hcode & Himp). exists d, fb, memory'. split; [|exact Hg]. split_and!; [|done|].
  - change (displays (tr4 ++ tr5) = [(sel_crtc s, fb, 0, 0, [sel_connector s], Some (sel_mode s), Some memory'); before s previous]). by rewrite displays_app, Hd, app_nil_r.
  - intros H0. destruct (Himp H0) as (f & ? & ?). exists f. rewrite !elem_of_cons, !elem_of_app. tauto.
Qed.

(** C40: The ten-bit probe.  Whatever the card, the display and EGL answer (as documented:
    modes of at least two pixels each way, buffers as large as they say), the drawing divides
    by no zero and stays in the mapping.  Either the run ends before the display is touched,
    or the CRTC is set exactly twice: first to a mode and CRTC of a connected connector, no
    other offer of the card having a better mode, with every word of the buffer the gradient's
    ten-bit red, green and blue; then back to what was displayed before, or off.  The result
    is 0 only when the buffer was exported and a device imported it with its geometry. *)
Theorem xb30_shows arguments tr r : runs (main arguments) tr r -> Forall promised tr -> exists code, r = Exit code /\
  ((In code [2; 3; 4; 5; 6; 7; 8; 9] /\ displays tr = []) \/
   exists found os s previous d fb memory,
     existT GetResources (Some found) ∈ tr /\
     Forall2 (fun id o => exists tr', runs (offer found id) tr' o /\ tr' ⊆ tr /\ forall s, o = Some s -> offer_of id tr' s) (connectors found) os /\
     s ∈ flat_map offered os /\ (forall o, o ∈ flat_map offered os -> rank (sel_mode o) <= rank (sel_mode s)) /\
     existT (GetCrtc (sel_crtc s)) previous ∈ tr /\
     shown s previous d fb memory tr code /\ shows_gradient (sel_mode s) (pitch d) memory).
Proof.
  intros H Hp. unfold main in H.
  assert (forall hs code tr r, runs (release hs;; mret (Exit code)) tr r -> displays tr = [] /\ r = Exit code) as Hfail.
  { intros hs code tr' r' Hr. apply runs_bind in Hr as (tr1 & [] & tr2 & -> & H1 & [-> ->]). rewrite app_nil_r. split; [|done]. eapply hushed; [apply release_hushed|exact H1]. }
  assert ((exists device, runs (fd ← ask (Open device); if fd <? 0 then mret (Exit 3) else
      master ← ask (Make Master); if negb master then ask (Free Card);; mret (Exit 4) else
      found ← ask GetResources;
      match found with
      | None => release [Master; Card];; mret (Exit 5)
      | Some r => s ← choose_output r (connectors r) None;
          match s with None => release [Resources; Master; Card];; mret (Exit 5) | Some s => previous ← ask (GetCrtc (sel_crtc s)); present s previous end
      end) tr r) \/ tr = [] /\ r = Exit 2) as [[device H']|[-> ->]].
  { destruct arguments as [|a [|b arguments]]; [left; by eexists|left; by eexists|by right]. }
  2:{ exists 2. split; [done|]. left. cbn. tauto. }
  clear H. rename H' into H. follow H fd. apply Forall_cons in Hp as [_ Hp]. destruct (fd <? 0); [destruct H as [-> ->]; exists 3; split; [done|]; left; cbn; tauto|].
  follow H master. apply Forall_cons in Hp as [_ Hp]. destruct master; cbn [negb] in H; [|follow H u; destruct H as [-> ->]; exists 4; split; [done|]; left; cbn; tauto].
  follow H found. apply Forall_cons in Hp as [_ Hp]. destruct found as [found|].
  2:{ destruct (Hfail _ _ _ _ H) as [Hd ->]. exists 5. split; [done|]. left. split; [cbn; tauto|exact Hd]. }
  apply runs_bind in H as (tr1 & o & tr2 & -> & H1 & H2). apply Forall_app in Hp as [Hp1 Hp2].
  destruct (choose_output_runs _ _ _ _ _ H1 Hp1) as (Hd1 & os & -> & Hu & Hf). destruct (choose os None) as [s|] eqn:Es.
  2:{ destruct (Hfail _ _ _ _ H2) as [Hd ->]. exists 5. split; [done|]. left. split; [cbn; tauto|]. change (displays (tr1 ++ tr2) = []). by rewrite displays_app, Hd1, Hd. }
  destruct (choose_best os None s Hu Es) as [Hin Hmax]. cbn [offered app] in Hin, Hmax.
  follow H2 previous. apply Forall_cons in Hp2 as [_ Hp2]. destruct (present_runs _ _ _ _ H2 Hp2 (Hu s Hin)) as (code & -> & [[Hc Hd] | (d & fb & memory & (Hd & Hc & Hi) & Hg)]).
  { exists code. split; [done|]. left. split; [cbn in *; tauto|]. change (displays (tr1 ++ (existT (GetCrtc (sel_crtc s)) previous :: tr)) = []). rewrite displays_app, Hd1. exact Hd. }
  exists code. split; [done|]. right. exists found, os, s, previous, d, fb, memory. split_and!; try done.
  - do 2 right. left.
  - eapply Forall2_impl; [exact Hf|]. intros i x (tr' & Hr & Hsub & Hof). exists tr'. split_and!; [done|set_solver|done].
  - do 3 right. apply elem_of_app. right. left.
  - split_and!; [|done|].
    + change (displays (tr1 ++ (existT (GetCrtc (sel_crtc s)) previous :: tr)) = [(sel_crtc s, fb, 0, 0, [sel_connector s], Some (sel_mode s), Some memory); before s previous]).
      rewrite displays_app, Hd1. exact Hd.
    + intros H0. destruct (Hi H0) as (f & ? & ?). exists f. rewrite !elem_of_cons, !elem_of_app, !elem_of_cons. tauto.
Qed.

(** *** Nothing is left behind *)

#[local] Abbreviation watching := (wp handling).
Definition base_live : list handle := [Resources; Master; Card].
Ltac watch_all := ask_with ltac:(fun a => let T := type of a in let T := eval hnf in T in change T in a;
    lazymatch T with bool => destruct a | unit => destruct a | option _ => destruct a as [?|] | prod _ _ => destruct a as [? ?] | _ => idtac end)
  ltac:(fun x => let y := eval vm_compute in x in change x with y); try reflexivity.

Lemma encoder_loop_live r ids : watching (encoder_loop r ids) (fun _ l => l = Connector :: base_live) (Connector :: base_live).
Proof. induction ids as [|id ids IH]; [done|]. cbn [encoder_loop]. watch_all; apply IH. Qed.
Lemma offer_live r id : watching (offer r id) (fun _ l => l = base_live) base_live.
Proof.
  unfold offer. intros [c|]; [|done]. change (handling base_live (GetConnector id) (Some c)) with (Some (Connector :: base_live)). cbv beta iota. reduce_proc.
  destruct (modes c) as [|m ms]; [watch_all|]. destruct (connection c =? _); [|watch_all]. eapply wp_then; [apply encoder_loop_live|]. intros crtc ? ->. watch_all.
Qed.
Lemma choose_output_live r ids found : watching (choose_output r ids found) (fun _ l => l = base_live) base_live.
Proof. revert found. induction ids as [|id ids IH]; intros found; [done|]. cbn [choose_output]. eapply wp_then; [apply offer_live|]. intros o ? ->. apply IH. Qed.

(** What is held while the framebuffer is there. *)
Definition presenting (previous : option crtc_info) : list handle := [Framebuffer; Mapping; Dumb] ++ saved previous ++ base_live.
Lemma device_loop_live n attributes exported previous : In exported [[]; [DmaBuf]] ->
  watching (device_loop n attributes) (fun _ l => l = exported ++ presenting previous) (exported ++ presenting previous).
Proof.
  intros He. induction n as [|n IH]; [done|]. cbn [device_loop]. cbn in He. destruct He as [<-|[<-|[]]], previous as [p|]; watch_all; apply IH.
Qed.
Lemma egl_import_live fd width height p exported previous : In exported [[]; [DmaBuf]] ->
  watching (import_dma_buf_to_egl fd width height p) (fun _ l => l = exported ++ presenting previous) (exported ++ presenting previous).
Proof.
  intros He. assert (forall n attributes, watching (device_loop n attributes) (fun _ l => l = exported ++ presenting previous) (exported ++ presenting previous)) as Hd
    by (intros; by apply device_loop_live).
  unfold import_dma_buf_to_egl. cbn in He. destruct He as [<-|[<-|[]]], previous as [q|]; watch_all; apply Hd.
Qed.
Lemma show_live s previous d fb memory : watching (show s previous d fb memory) (fun _ l => l = presenting previous) (presenting previous).
Proof.
  assert (watching (restore s previous) (fun _ l => l = presenting previous) (presenting previous)) as Hr
    by (unfold restore; destruct previous as [p|]; [destruct (mode_valid p)|]; watch_all).
  unfold show. apply (wp_then _ _ _ (fun _ l => l = presenting previous)); [destruct previous; by intros []|]. intros set_ ? ->.
  apply (wp_then _ _ _ (fun _ l => l = presenting previous)).
  2:{ intros code ? ->. eapply wp_then; [exact Hr|]. by intros b ? ->. }
  destruct set_; [|done]. unfold export_and_import.
  intros [r fd]. change (let '(export_result, fd) := (r, fd) in _) with
    (result ← (if negb (r =? 0) then mret 11 else ok ← import_dma_buf_to_egl fd (hdisplay (sel_mode s)) (vdisplay (sel_mode s)) (pitch d); mret (if ok : bool then 0 else 12));
     (if 0 <=? fd then ask (Free DmaBuf) else mret tt);; ask Sleep;; mret result).
  set (exported := if fd <? 0 then [] else [DmaBuf]). assert (handling (presenting previous) (PrimeHandleToFD (dumb_handle d)) (r, fd) = Some (exported ++ presenting previous)) as ->.
  { unfold exported, handling. cbn [made freed needed kms_handling snd]. destruct (fd <? 0), previous as [p|]; reflexivity. }
  apply (wp_then _ _ _ (fun _ l => l = exported ++ presenting previous)).
  - destruct (negb _); [done|]. eapply wp_then; [apply egl_import_live; unfold exported; destruct (fd <? 0); cbn; tauto|]. by intros ok ? ->.
  - intros code ? ->. unfold exported. rewrite Z.leb_antisym. destruct (fd <? 0), previous as [p|]; watch_all.
Qed.

Lemma present_live s previous : watching (present s previous) (fun r l => r <> Undefined -> l = []) (saved previous ++ base_live).
Proof.
  assert (forall d fb memory, watching (show s previous d fb memory) (fun _ l => l = presenting previous) (presenting previous)) as Hs by (intros; apply show_live).
  unfold present. destruct previous as [p|]; cbn [saved when app release]; watch_all; try (by cbn).
  all: eapply wp_then; [apply Hs|]; intros code ? ->; watch_all; done.
Qed.

Lemma xb30_balanced arguments tr code : runs (main arguments) tr (Exit code) -> balanced tr.
Proof.
  assert (watching (main arguments) (fun r l => r <> Undefined -> l = []) []) as Hwp.
  { assert (forall device, watching (fd ← ask (Open device); if fd <? 0 then mret (Exit 3) else
      master ← ask (Make Master); if negb master then ask (Free Card);; mret (Exit 4) else
      found ← ask GetResources;
      match found with
      | None => release [Master; Card];; mret (Exit 5)
      | Some r => s ← choose_output r (connectors r) None;
          match s with None => release [Resources; Master; Card];; mret (Exit 5) | Some s => previous ← ask (GetCrtc (sel_crtc s)); present s previous end
      end) (fun r l => r <> Undefined -> l = []) []) as Hmain.
    { intros device. refine (wp_Call _ _ _ _ _ _). intros fd. unfold handling. cbn [made freed needed kms_handling]. cbn. destruct (fd <? 0); cbn; [done|].
      intros [|]; [|by intros []]. intros [r|]; [|by intros [] []].
      change (watching (s ← choose_output r (connectors r) None;
          match s with None => release [Resources; Master; Card];; mret (Exit 5) | Some s => previous ← ask (GetCrtc (sel_crtc s)); present s previous end)
        (fun r l => r <> Undefined -> l = []) base_live).
      eapply wp_then; [apply choose_output_live|]. intros [s|] ? ->; [|cbn [release]; watch_all; done].
      refine (wp_Call _ _ _ _ _ _). intros previous. assert (handling base_live (GetCrtc (sel_crtc s)) previous = Some (saved previous ++ base_live)) as -> by (by destruct previous).
      cbv beta iota. apply present_live. }
    unfold main. destruct arguments as [|a [|b arguments]]; [apply Hmain..|by cbn]. }
  intros Hr. destruct (wp_sound _ _ _ _ _ _ Hwp Hr) as (m & Ho & Hm). unfold balanced. rewrite Ho. f_equal. by apply Hm.
Qed.

(** ** What the inventory says *)

Import Inventory.

Definition lines : list event -> list line := flat_map (fun e => match projT1 e with Print l => [l] | _ => [] end).
Definition exports : list event -> list Z := flat_map (fun e => match projT1 e with PrimeHandleToFD h => [h] | _ => [] end).
Lemma lines_app tr1 tr2 : lines (tr1 ++ tr2) = lines tr1 ++ lines tr2.
Proof. apply flat_map_app. Qed.
Lemma exports_app tr1 tr2 : exports (tr1 ++ tr2) = exports tr1 ++ exports tr2.
Proof. apply flat_map_app. Qed.

(** The framebuffer that a line says is scanned out. *)
Definition scanout (l : line) : list Z :=
  match l with CrtcLine _ _ fb | PlaneLine _ _ _ fb _ _ => if fb =? 0 then [] else [fb] | _ => [] end.
Definition scanouts (ls : list line) : gset Z := list_to_set (flat_map scanout ls).
Lemma scanouts_app l1 l2 : scanouts (l1 ++ l2) = scanouts l1 ∪ scanouts l2.
Proof. unfold scanouts. by rewrite flat_map_app, list_to_set_app_L. Qed.

Lemma scanouts_one l fb : scanout l = (if fb =? 0 then [] else [fb]) -> scanouts [l] = if fb =? 0 then ∅ else {[fb]}.
Proof. unfold scanouts. cbn [flat_map]. intros ->. destruct (fb =? 0); cbn; [done|]. by rewrite union_empty_r_L. Qed.

(** The handles exported for a framebuffer: those that are not zero, each once, in order. *)
Fixpoint distinct (seen hs : list Z) : list Z :=
  match hs with [] => [] | h :: hs => if (h =? 0) || bool_decide (h ∈ seen) then distinct seen hs else h :: distinct (h :: seen) hs end.
Lemma distinct_spec seen hs : NoDup (distinct seen hs) /\ forall h, h ∈ distinct seen hs <-> h ∈ hs /\ h <> 0 /\ h ∉ seen.
Proof.
  revert seen. induction hs as [|h hs IH]; intros seen; cbn [distinct]; [split; [constructor|]; intros h; rewrite elem_of_nil; tauto|].
  destruct (Z.eqb_spec h 0) as [->|H0]; cbn [orb].
  { destruct (IH seen) as [Hn Hi]. split; [done|]. intros x. rewrite Hi, elem_of_cons. naive_solver. }
  destruct (bool_decide (h ∈ seen)) eqn:E.
  - apply bool_decide_eq_true_1 in E. destruct (IH seen) as [Hn Hi]. split; [done|]. intros x. rewrite Hi, elem_of_cons. naive_solver.
  - apply bool_decide_eq_false_1 in E. destruct (IH (h :: seen)) as [Hn Hi]. split.
    + constructor; [|done]. rewrite Hi, !elem_of_cons. tauto.
    + intros x. rewrite !elem_of_cons, Hi, elem_of_cons. destruct (decide (x = h)) as [->|]; tauto.
Qed.

Lemma export_loop_runs index hs seen tr u : runs (export_loop index hs seen) tr u -> exports tr = distinct seen hs /\ scanouts (lines tr) = ∅.
Proof.
  revert index seen tr. induction hs as [|h hs IH]; intros index seen tr H; cbn [export_loop distinct] in *; [by destruct H as [-> _]|].
  destruct (_ || _); [by eapply IH|]. follow H a. destruct a as [r fd]. follow H p. apply runs_bind in H as (tr1 & [] & tr2 & -> & H1 & H2).
  destruct (IH _ _ _ H2) as [He Hs].
  assert (exports tr1 = [] /\ lines tr1 = []) as [He1 Hl1] by (destruct (0 <=? fd); [destruct H1 as (? & ? & -> & -> & _); done|by destruct H1 as [-> _]]).
  assert (exports (existT (PrimeHandleToFD h) (r, fd) :: existT (Print (ExportLine index (r =? 0))) p :: tr1 ++ tr2) = h :: exports tr1 ++ exports tr2) as ->
    by (change (h :: exports (tr1 ++ tr2) = h :: exports tr1 ++ exports tr2); by rewrite exports_app).
  assert (lines (existT (PrimeHandleToFD h) (r, fd) :: existT (Print (ExportLine index (r =? 0))) p :: tr1 ++ tr2) = ExportLine index (r =? 0) :: lines tr1 ++ lines tr2) as ->
    by (change (ExportLine index (r =? 0) :: lines (tr1 ++ tr2) = ExportLine index (r =? 0) :: lines tr1 ++ lines tr2); by rewrite lines_app).
  rewrite He1, Hl1, He. done.
Qed.

(** A framebuffer is described and each of its buffers exported once. *)
Lemma print_framebuffer_runs id tr u : runs (print_framebuffer id) tr u -> scanouts (lines tr) = ∅ /\
  exists fb tr', tr = existT (GetFB2 id) fb :: tr' /\ exports tr' = match fb with Some fb => distinct [] (take 4 (handles fb)) | None => [] end.
Proof.
  intros H. unfold print_framebuffer in H. follow H fb. destruct fb as [fb|].
  2:{ destruct H as [-> _]. split; [done|]. by exists None, []. }
  follow H p. apply runs_bind in H as (tr1 & [] & tr2 & -> & H1 & H2). follow H2 f. destruct H2 as [-> _]. destruct (export_loop_runs _ _ _ _ _ H1) as [He Hs].
  split.
  - set (e1 := existT (GetFB2 id) (Some fb)). set (e2 := existT _ p). change (e1 :: e2 :: tr1 ++ [existT (Free Framebuffer2) f]) with ([e1; e2] ++ tr1 ++ [existT (Free Framebuffer2) f]).
    rewrite !lines_app, !scanouts_app, Hs. done.
  - eexists (Some fb), _. split; [done|]. change (exports (tr1 ++ [existT (Free Framebuffer2) f]) = distinct [] (take 4 (handles fb))).
    rewrite exports_app, He. apply app_nil_r.
Qed.

Lemma property_loop_runs wanted props value tr r : runs (property_loop wanted props value) tr r -> lines tr = [].
Proof.
  revert value tr. induction props as [|[id v] props IH]; intros value tr H; cbn [property_loop] in H; [by destruct H as [-> _]|].
  follow H p. change (lines tr0 = []). destruct p as [p|]; [|by eapply IH]. follow H u. change (lines tr = []). by eapply IH.
Qed.
Lemma object_property_runs id wanted tr r : runs (object_property_name id wanted) tr r -> lines tr = [].
Proof.
  intros H. unfold object_property_name in H. follow H props. change (lines tr0 = []). destruct props as [props|]; [|by destruct H as [-> _]].
  apply runs_bind in H as (tr1 & v & tr2 & -> & H1 & H2). follow H2 u. destruct H2 as [-> _]. rewrite lines_app, (property_loop_runs _ _ _ _ _ H1). done.
Qed.
Lemma scanned_out_runs id active tr active' : runs (scanned_out id active) tr active' ->
  scanouts (lines tr) = ∅ /\ active' = (if id =? 0 then ∅ else {[id]}) ∪ active.
Proof.
  unfold scanned_out. destruct (id =? 0); [intros [-> ->]; split; [done|set_solver]|]. intros (tr1 & [] & tr2 & -> & H & [-> ->])%runs_bind.
  rewrite app_nil_r. split; [|done]. by apply (print_framebuffer_runs _ _ _ H).
Qed.
Lemma connector_loop_runs ids tr u : runs (connector_loop ids) tr u -> scanouts (lines tr) = ∅.
Proof.
  revert tr. induction ids as [|id ids IH]; intros tr H; cbn [connector_loop] in H; [by destruct H as [-> _]|].
  follow H c. change (scanouts (lines tr0) = ∅). destruct c as [c|]; [|by apply IH]. follow H p. follow H f. 
  change (scanouts ([ConnectorLine (connector_id c) (connection_name (connection c)) (len (modes c)) (encoder_id c)] ++ lines tr0) = ∅). rewrite scanouts_app, (IH _ H). done.
Qed.
Lemma crtc_loop_runs ids active tr active' : runs (crtc_loop ids active) tr active' -> active' = scanouts (lines tr) ∪ active.
Proof.
  revert active tr. induction ids as [|id ids IH]; intros active tr H; cbn [crtc_loop] in H; [destruct H as [-> ->]; set_solver|].
  follow H c. change (active' = scanouts (lines tr0) ∪ active). destruct c as [c|]; [|by apply IH]. follow H p.
  apply runs_bind in H as (tr1 & a1 & tr2 & -> & H1 & H2). follow H2 f. destruct (scanned_out_runs _ _ _ _ H1) as [Hs ->]. rewrite (IH _ _ H2).
  change (lines (existT (Print (CrtcLine (crtc_id c) (mode_valid c) (buffer_id c))) p :: tr1 ++ existT (Free Crtc) f :: tr)) with ([CrtcLine (crtc_id c) (mode_valid c) (buffer_id c)] ++ lines (tr1 ++ [existT (Free Crtc) f] ++ tr)).
  rewrite !lines_app, !scanouts_app, Hs, (scanouts_one (CrtcLine _ _ _) (buffer_id c)) by done. change (scanouts (lines [existT (Free Crtc) f])) with (∅ : gset Z). set_solver.
Qed.
Lemma plane_loop_runs ids active tr active' : runs (plane_loop ids active) tr active' -> active' = scanouts (lines tr) ∪ active.
Proof.
  revert active tr. induction ids as [|id ids IH]; intros active tr H; cbn [plane_loop] in H; [destruct H as [-> ->]; set_solver|].
  follow H c. change (active' = scanouts (lines tr0) ∪ active). destruct c as [c|]; [|by apply IH].
  apply runs_bind in H as (tr1 & type & tr2 & -> & H1 & H2). follow H2 p. apply runs_bind in H2 as (tr3 & a1 & tr4 & -> & H3 & H4). follow H4 f.
  destruct (scanned_out_runs _ _ _ _ H3) as [Hs ->]. rewrite (IH _ _ H4). set (l := PlaneLine _ _ _ _ _ _).
  change (tr1 ++ existT (Print l) p :: tr3 ++ existT (Free Plane) f :: tr) with (tr1 ++ [existT (Print l) p] ++ tr3 ++ [existT (Free Plane) f] ++ tr).
  rewrite !lines_app, !scanouts_app, Hs, (object_property_runs _ _ _ _ H1). change (scanouts (lines [existT (Print l) p])) with (scanouts [l]).
  rewrite (scanouts_one l (plane_fb c)) by done. change (scanouts (lines [existT (Free Plane) f])) with (∅ : gset Z). change (scanouts []) with (∅ : gset Z). set_solver.
Qed.

(** The inventory ends with the number of framebuffers that its lines say are scanned out; it
    fails exactly when there is none and more than the inventory was asked for. *)
Theorem inventory_exact inventory_only device tr r : runs (inspect inventory_only device) tr r ->
  In r [3; 4] /\ lines tr = [] \/
  exists ls, lines tr = ls ++ [SummaryLine (Z.of_nat (base.size (scanouts ls)))] /\
    r = (if bool_decide (scanouts ls = ∅) && negb inventory_only then 5 else 0).
Proof.
  intros H. unfold inspect in H. follow H fd. destruct (fd <? 0); [destruct H as [-> ->]; left; split; [cbn; tauto|done]|].
  follow H version. apply runs_bind in H as (tr1 & [] & tr2 & -> & H1 & H).
  assert (lines tr1 = []) as Hl1 by (destruct (version : bool); [destruct H1 as (? & ? & -> & -> & _); done|by destruct H1 as [-> _]]).
  follow H u. follow H a. follow H found. destruct found as [r0|].
  2:{ follow H f. destruct H as [-> ->]. left. split; [cbn; tauto|]. change (lines (tr1 ++ [existT (Succeeds "DRM_CLIENT_CAP_UNIVERSAL_PLANES" [Card]) u; existT (Succeeds "DRM_CLIENT_CAP_ATOMIC" [Card]) a; existT GetResources None; existT (Free Card) f]) = []).
      rewrite lines_app, Hl1. done. }
  apply runs_bind in H as (tr3 & active & tr4 & -> & H3 & H4). follow H4 f. follow H4 f'. destruct H4 as [-> ->]. right. unfold survey in H3.
  apply runs_bind in H3 as (tr5 & [] & tr6 & -> & H5 & H3). apply runs_bind in H3 as (tr7 & a1 & tr8 & -> & H7 & H3). follow H3 planes.
  apply runs_bind in H3 as (tr9 & a2 & tr10 & -> & H9 & H3). follow H3 p. destruct H3 as [-> ->].
  assert (a2 = scanouts (lines tr9) ∪ a1) as ->.
  { destruct planes as [ids|]; [|destruct H9 as [-> ->]; set_solver]. apply runs_bind in H9 as (t1 & a3 & t2 & -> & H9 & H10). follow H10 g. destruct H10 as [-> ->].
    rewrite lines_app, scanouts_app, (plane_loop_runs _ _ _ _ H9). change (scanouts (lines [existT (Free Planes) g])) with (∅ : gset Z). set_solver. }
  apply crtc_loop_runs in H7 as ->. apply connector_loop_runs in H5. rewrite union_empty_r_L.
  exists (lines tr5 ++ lines tr7 ++ lines tr9). assert (scanouts (lines tr5 ++ lines tr7 ++ lines tr9) = scanouts (lines tr9) ∪ scanouts (lines tr7)) as ->
    by (rewrite !scanouts_app, H5; set_solver).
  split; [|done].
  match goal with |- lines (?e1 :: ?e2 :: tr1 ++ ?e3 :: ?e4 :: ?e5 :: (tr5 ++ tr7 ++ ?e6 :: tr9 ++ ?tl) ++ ?tl2) = _ =>
    change (lines ([e1; e2] ++ tr1 ++ [e3; e4; e5] ++ (tr5 ++ tr7 ++ [e6] ++ tr9 ++ tl) ++ tl2) = (lines tr5 ++ lines tr7 ++ lines tr9) ++ [SummaryLine (Z.of_nat (base.size (scanouts (lines tr9) ∪ scanouts (lines tr7))))]) end.
  rewrite !lines_app, Hl1. rewrite <- !app_assoc. done.
Qed.

(** ** Runs *)

Definition small_mode : mode_info := mkMode 3 2 DRM_MODE_TYPE_PREFERRED 60.
Definition console : crtc_info := mkCrtc 41 77 0 0 true (mkMode 2 2 0 60).
(** A card with a connected connector and another without a display; its second CRTC shows the
    console. *)
Definition card (c : request) : answers c :=
  match c return answers c with
  | Open _ => 3
  | Make _ | Succeeds _ _ | CreateImage _ => true
  | Free _ | Sleep | Print _ => tt
  | GetResources => Some (mkResources [40; 41] [7; 8])
  | GetConnector id => Some (if id =? 7 then mkConnector 7 DRM_MODE_CONNECTED [mkMode 2 2 0 60; small_mode] 0 [20] else mkConnector 8 DRM_MODE_DISCONNECTED [] 0 [])
  | GetEncoder _ => Some (mkEncoder 0 2)
  | GetCrtc id => if id =? 41 then Some console else Some (mkCrtc id 0 0 0 false small_mode)
  | CreateDumb width height _ => if 4 * width * height <=? 2 ^ 32 then Some (mkDumb 5 (4 * width) (4 * width * height)) else None
  | MapDumb _ => Some 4096
  | Mmap size _ => if 0 <=? size then Some (repeat 0 (Z.to_nat size)) else None
  | AddFB2 _ _ _ _ _ => Some 99
  | SetCrtc _ _ _ _ _ _ _ => true
  | PrimeHandleToFD _ => (0, 9)
  | QueryDevices => Some 1
  | QueryExtensions => Some "EGL_KHR_image_base EGL_EXT_image_dma_buf_import"%string
  | GetFB2 id => Some (mkFramebuffer id 2 2 DRM_FORMAT_XRGB2101010 0 [6; 6; 0; 0])
  | GetPlaneResources => Some [30]
  | GetPlane id => Some (mkPlane id 41 78 [DRM_FORMAT_XRGB8888; DRM_FORMAT_ABGR2101010])
  | GetProperties _ => Some [(1, 0); (2, 1)]
  | GetProperty id => Some (mkProperty (if id =? 2 then "type" else "rotation") [(0, "Overlay"%string); (1, "Primary"%string)])
  end.
Definition on_card {A} (p : proc A) : list event * A := run (fun _ c => (card c, tt)) p tt.

Definition shown_words (tr : list event) : list (option Z) :=
  match displays tr with (_, _, _, _, _, _, Some memory) :: _ => map (fun k => sample 4 memory (4 * k)) (seqZ 0 6) | _ => [] end.

(** Blue on the left, red on the right, green below. *)
Example gradient_shown : let t := on_card (Xb30.main []) in
  t.2 = Exit 0 /\ shown_words t.1 = map Some [1023 * 2 ^ 20; 511 + 512 * 2 ^ 20; 1023; 1023 * 2 ^ 10 + 1023 * 2 ^ 20; 511 + 1023 * 2 ^ 10 + 512 * 2 ^ 20; 1023 + 1023 * 2 ^ 10].
Proof. split; vm_compute; reflexivity. Qed.
(** Two framebuffers are scanned out; the first plane's handle is exported once. *)
Example inventory_lines : let t := on_card (Inventory.main ["/dev/dri/card1"]%string) in
  t.2 = 0 /\ last (lines t.1) = Some (SummaryLine 2) /\ exports t.1 = [6; 6] /\
  PlaneLine 30 "Primary" 41 78 2 ["AB30"%string] ∈ lines t.1.
Proof. vm_compute. split_and!; try reflexivity. apply list_elem_of_In. cbn. tauto. Qed.
Example self_test_passes : Inventory.self_test = 0.
Proof. vm_compute. reflexivity. Qed.

Lemma card_promised A (p : proc A) : Forall promised (on_card p).1.
Proof.
  apply run_Forall. intros [] c. destruct c; cbn [card fst]; try done.
  - intros c [= <-]. destruct (id =? 7); [|constructor]. repeat constructor; cbn; lia.
  - intros d. destruct (4 * width * height <=? 2 ^ 32) eqn:E; [|done]. intros [= <-]. cbn. lia.
  - intros memory. destruct (0 <=? _) eqn:E; [|done]. intros [= <-]. rewrite repeat_length. lia.
Qed.

Lemma xb30_shows_witness : let t := on_card (Xb30.main []) in
  runs (Xb30.main []) t.1 t.2 /\ Forall promised t.1 /\ t.2 = Exit 0 /\ length (displays t.1) = 2%nat /\ exists code, t.2 = Exit code /\ (displays t.1 = [] \/ exists m p memory, shows_gradient m p memory).
Proof.
  intros t. assert (runs (Xb30.main []) t.1 t.2) as Hr by apply run_runs. assert (Forall promised t.1) as Hp by apply card_promised.
  split; [exact Hr|]. split; [exact Hp|]. split; [vm_compute; reflexivity|]. split; [vm_compute; reflexivity|].
  destruct (xb30_shows [] t.1 t.2 Hr Hp) as (code & Hc & [[_ Hd] | (_ & _ & s & _ & d & _ & memory & _ & _ & _ & _ & _ & _ & Hg)]); exists code; (split; [exact Hc|]).
  - left. exact Hd.
  - right. exists (sel_mode s), (pitch d), memory. exact Hg.
Defined.
