(* ===== verification/PamProbe.v ===== *)
(** * PamProbe: probes/auth/plank-probe-pam.cpp

    The probe that takes a user through the host's authentication service.  The library is the
    environment of [Calls], and it calls back: within a call it may ask for a conversation, which
    runs here and is replied to, any number of times.  The terminal, the heap and the library's
    answers are the outside; what was typed is followed until it is wiped or handed over. *)

From S2P Require Import Prelude.
From S2P Require Import Calls.
#[local] Open Scope Z_scope.

(** ** Data *)

Definition PAM_SUCCESS : Z := 0.
Definition PAM_BUF_ERR : Z := 5.
Definition PAM_CONV_ERR : Z := 19.

Inductive style := PAM_PROMPT_ECHO_OFF | PAM_PROMPT_ECHO_ON | PAM_ERROR_MSG | PAM_TEXT_INFO | OtherStyle (v : Z).
Record pam_message := mkMessage { msg_style : style; msg : list Z }.
(** The arguments of the callback; [None] and [false] are null pointers.  The count is, as
    documented, that of the messages. *)
Record conversation := mkConversation { messages : option (list pam_message); responses : bool }.
Definition texts (c : conversation) : list pam_message := default [] (messages c).
Definition message_count (c : conversation) : Z := len (texts c).
(** An answer of each message, a null pointer where there is none. *)
Abbreviation replies := (list (option (list Z))).

(** The bit of <termios.h>. *)
Definition ECHO : Z := 8.
Record termios := mkTermios { c_lflag : Z; other_modes : list Z }.
#[export] Instance termios_eq_dec : EqDecision termios.
Proof. solve_decision. Defined.
Definition hide (t : termios) : termios := mkTermios (Z.land (c_lflag t) (u32 (Z.lnot ECHO))) (other_modes t).

Inductive op := Start | Authenticate | AcctMgmt | EstablishCred | OpenSession | CloseSession | DeleteCred | End.
#[export] Instance op_eq_dec : EqDecision op.
Proof. solve_decision. Defined.
Inductive item := PAM_RHOST | PAM_TTY.

(** What the library does next: it asks for a conversation or its call returns. *)
Inductive turn := Converses (c : conversation) | Returns (status : Z).

Inductive request :=
  | OpenTerminal | CloseTerminal
  | Put (text : list Z)                          (* to the terminal *)
  | Tcgetattr
  | Tcsetattr (t : termios)
  | Getline                                      (* the buffer, if there is one, and in it the line, if one came *)
  | WipeLine | FreeLine
  | WipeValue (value : list Z)
  | Calloc (count : Z)
  | Strdup (index : Z) (text : list Z)           (* of the answer at the index *)
  | FreeResp (index : Z)
  | FreeReply
  | PamStart (user : string)
  | PamSetItem (i : item) (value : string)
  | Enter (o : op)                               (* the call of the library *)
  | Reply (o : op) (status : Z) (rs : replies)   (* a conversation within that call returns *)
  | PamEnd (status : Z)
  | Report (o : op) (status : Z).                (* the line of print_result *)

Definition answers (c : request) : Type :=
  match c with
  | OpenTerminal | Tcsetattr _ | Calloc _ | Strdup _ _ => bool
  | Tcgetattr => option termios
  | Getline => option (option (list Z))
  | PamStart _ | PamEnd _ => Z
  | Enter _ | Reply _ _ _ => turn
  | _ => unit
  end.

#[local] Abbreviation proc := (Calls.proc answers).
#[local] Abbreviation ask := (Calls.call (ans := answers)).

(** [Pending]: the library still converses after the given number of conversations.
    [Undefined]: a message outside the array is read. *)
Inductive outcome (A : Type) := Done (a : A) | Pending | Undefined.
Arguments Done {A} a.
Arguments Pending {A}.
Arguments Undefined {A}.
Definition chain {A B} (p : proc (outcome A)) (f : A -> proc (outcome B)) : proc (outcome B) :=
  o ← p; match o with Done a => f a | Pending => mret Pending | Undefined => mret Undefined end.

(** ** The conversation *)

Fixpoint pop_newlines (reversed : list Z) : list Z :=
  match reversed with
  | c :: rest => if (c =? 10) || (c =? 13) then pop_newlines rest else reversed
  | [] => []
  end.
(** The line without the newlines at its end. *)
Definition value_of (typed : option (option (list Z))) : list Z :=
  match typed with
  | Some (Some line) => if 0 <? len line then rev (pop_newlines (rev line)) else []
  | _ => []
  end.

Definition read_line (prompt : list Z) (echo : bool) : proc (list Z) :=
  ask (Put prompt);;
  changed ← (if echo then mret None else
    previous ← ask Tcgetattr;
    match previous with
    | None => mret None
    | Some previous => ok ← ask (Tcsetattr (hide previous)); mret (if ok : bool then Some previous else None)
    end);
  typed ← ask Getline;
  (match changed with
   | Some previous => ask (Tcsetattr previous);; ask (Put [10])
   | None => mret tt
   end);;
  (match typed with Some _ => ask WipeLine;; ask FreeLine | None => mret tt end);;
  mret (value_of typed).

(** The C string at the start of the bytes. *)
Fixpoint c_str (bytes : list Z) : list Z :=
  match bytes with [] => [] | c :: bytes => if c =? 0 then [] else c :: c_str bytes end.

Fixpoint free_responses (indices : list Z) (reply : replies) : proc unit :=
  match indices with
  | [] => mret tt
  | i :: indices =>
      (match reply !! Z.to_nat i with Some (Some _) => ask (FreeResp i) | _ => mret tt end);;   (* free(NULL) does nothing *)
      free_responses indices reply
  end.

Definition failure (status : Z) : proc (outcome (Z * replies)) := ask FreeReply;; mret (Done (status, [])).
(** A prompt's answer, put into the array. *)
Definition prompt (terminal : bool) (index : Z) (m : pam_message) (echo : bool) (reply : replies)
    (next : replies -> proc (outcome (Z * replies))) : proc (outcome (Z * replies)) :=
  if negb terminal then failure PAM_CONV_ERR else
  value ← read_line (msg m) echo;
  copied ← ask (Strdup index (c_str value));
  ask (WipeValue value);;
  if copied : bool then next (<[Z.to_nat index := Some (c_str value)]> reply)
  else free_responses (seqZ 0 index) reply;; failure PAM_BUF_ERR.
Fixpoint converse_loop (terminal : bool) (messages : list pam_message) (indices : list Z) (reply : replies) : proc (outcome (Z * replies)) :=
  match indices with
  | [] => mret (Done (PAM_SUCCESS, reply))
  | index :: indices =>
      match messages !! Z.to_nat index with
      | None => mret Undefined
      | Some m =>
          match msg_style m with
          | PAM_PROMPT_ECHO_OFF => prompt terminal index m false reply (converse_loop terminal messages indices)
          | PAM_PROMPT_ECHO_ON => prompt terminal index m true reply (converse_loop terminal messages indices)
          | PAM_ERROR_MSG | PAM_TEXT_INFO =>
              (if terminal then ask (Put (msg m ++ [10])) else mret tt);;
              converse_loop terminal messages indices reply
          | OtherStyle _ => failure PAM_CONV_ERR
          end
      end
  end.
Definition converse (terminal : bool) (c : conversation) : proc (outcome (Z * replies)) :=
  match messages c with
  | Some ms =>
      if (message_count c <=? 0) || negb (responses c) then mret (Done (PAM_CONV_ERR, [])) else
      allocated ← ask (Calloc (message_count c));
      if negb allocated then mret (Done (PAM_BUF_ERR, []))
      else converse_loop terminal ms (seqZ 0 (message_count c)) (replicate (Z.to_nat (message_count c)) None)
  | None => mret (Done (PAM_CONV_ERR, []))
  end.

(** ** The session *)

(** The library's call with the conversations it asks for, at most [n]. *)
Fixpoint serve (n : nat) (terminal : bool) (o : op) (t : turn) : proc (outcome Z) :=
  match t with
  | Returns status => mret (Done status)
  | Converses c =>
      match n with
      | O => mret Pending
      | S n => chain (converse terminal c) (fun '(status, rs) => t ← ask (Reply o status rs); serve n terminal o t)
      end
  end.
Definition pam (n : nat) (terminal : bool) (o : op) : proc (outcome Z) :=
  t ← ask (Enter o);
  chain (serve n terminal o t) (fun status => ask (Report o status);; mret (Done status)).
(** The step, if the ones before it succeeded. *)
Definition step (n : nat) (terminal : bool) (o : op) (status : Z) : proc (outcome Z) :=
  if status =? PAM_SUCCESS then pam n terminal o else mret (Done status).

Definition close_session (n : nat) (status : Z) : proc (outcome Z) :=
  chain (pam n true CloseSession) (fun close_status =>
  let status := if status =? PAM_SUCCESS then close_status else status in
  chain (pam n true DeleteCred) (fun credential_status =>
  mret (Done (if status =? PAM_SUCCESS then credential_status else status)))).
(** The steps of a whole session and those of the account check alone. *)
Definition full (n : nat) (status : Z) : proc (outcome Z) :=
  chain (pam n true Authenticate) (fun status =>
  chain (step n true AcctMgmt status) (fun status =>
  chain (step n true EstablishCred status) (fun status =>
  if negb (status =? PAM_SUCCESS) then mret (Done status) else
  chain (pam n true OpenSession) (fun status =>
  if status =? PAM_SUCCESS then close_session n status else mret (Done status))))).
Definition steps (n : nat) (account_only : bool) (status : Z) : proc (outcome Z) :=
  if account_only then step n false AcctMgmt status else full n status.

Definition close_terminal (terminal : bool) : proc unit := if terminal then ask CloseTerminal else mret tt.
Definition session (n : nat) (account_only : bool) (user : string) : proc (outcome Z) :=
  let terminal := negb account_only in
  status ← ask (PamStart user);
  ask (Report Start status);;
  if negb (status =? PAM_SUCCESS) then close_terminal terminal;; mret (Done 4) else
  ask (PamSetItem PAM_RHOST "local-qualification");;
  ask (PamSetItem PAM_TTY "plank-probe");;
  chain (steps n account_only status) (fun status =>
  end_status ← ask (PamEnd status);
  ask (Report End end_status);;
  close_terminal terminal;;
  mret (Done (if (status =? PAM_SUCCESS) && (end_status =? PAM_SUCCESS) then 0 else 5))).

Definition main (n : nat) (arguments : list string) : proc (outcome Z) :=
  match arguments with
  | [user] =>
      opened ← ask OpenTerminal;
      if negb opened then mret (Done 3) else session n false user
  | [flag; user] => if String.eqb flag "--account-only" then session n true user else mret (Done 2)
  | _ => mret (Done 2)
  end.

(** ** Custody *)

(** The buffer of [getline]: the secret in it is there until it is wiped. *)
Inductive buffer := NoBuffer | Secret | Wiped.
(** Whether the terminal is open, its attributes as last read, those it must get back, the
    buffer, whether a typed value is in memory, the array with the indices of the answers in it,
    and how many answers no pointer leads to any more. *)
Record custody := mkCustody {
  tty : bool; got : option termios; owed : option termios; line : buffer; plain : bool; block : option (list Z); lost : nat }.
Definition clean (lost : nat) : custody := mkCustody false None None NoBuffer false None lost.

(** The indices of the answers in an array. *)
Fixpoint given_from (index : Z) (rs : replies) : list Z :=
  match rs with [] => [] | Some _ :: rs => index :: given_from (index + 1) rs | None :: rs => given_from (index + 1) rs end.
Definition given : replies -> list Z := given_from 0.

(** The rules: attributes that were changed are set back before anything but the line is read;
    a buffer is wiped before it is freed, a value before the library goes on; an answer is freed
    at most once; what the library is handed is the array with exactly the answers in it, and
    with an error it is handed nothing. *)
Definition keep (m : custody) (c : request) : answers c -> option custody :=
  let '(mkCustody tty got owed line plain block lost) := m in
  let settled := match owed with None => true | Some _ => false end in
  match c return answers c -> option custody with
  | OpenTerminal => fun ok => if tty then None else Some (mkCustody ok None owed line plain block lost)
  | CloseTerminal => fun _ => if tty && settled then Some (mkCustody false None owed line plain block lost) else None
  | Put _ => fun _ => if tty && settled then Some m else None
  | Tcgetattr => fun a => if tty && settled then Some (mkCustody tty a owed line plain block lost) else None
  | Tcsetattr t => fun ok =>
      match owed, got with
      | Some p, _ => if bool_decide (t = p) then Some (mkCustody tty got None line plain block lost) else None
      | None, Some p => if bool_decide (t = hide p) then Some (mkCustody tty got (if ok then Some p else None) line plain block lost) else None
      | None, None => None
      end
  | Getline => fun a =>
      match line with
      | NoBuffer => if tty && negb plain then Some (mkCustody tty got owed (match a with Some _ => Secret | None => NoBuffer end) true block lost) else None
      | _ => None
      end
  | WipeLine => fun _ => match line with NoBuffer => None | _ => Some (mkCustody tty got owed Wiped plain block lost) end
  | FreeLine => fun _ => match line with Wiped => Some (mkCustody tty got owed NoBuffer plain block lost) | _ => None end
  | WipeValue _ => fun _ => Some (mkCustody tty got owed line false block lost)
  | Calloc _ => fun ok => match block with None => Some (mkCustody tty got owed line plain (if ok then Some [] else None) lost) | Some _ => None end
  | Strdup i _ => fun ok =>
      match block with
      | Some held => if bool_decide (i ∈ held) then None else Some (mkCustody tty got owed line plain (Some (if ok then held ++ [i] else held)) lost)
      | None => None
      end
  | FreeResp i => fun _ =>
      match block with
      | Some held => if bool_decide (i ∈ held) then Some (mkCustody tty got owed line plain (Some (List.filter (fun j => negb (j =? i)) held)) lost) else None
      | None => None
      end
  | FreeReply => fun _ => match block with Some held => Some (mkCustody tty got owed line plain None (lost + length held)) | None => None end
  | Reply _ status rs => fun _ =>
      if settled && negb plain && match line with NoBuffer => true | _ => false end &&
         (if status =? PAM_SUCCESS then bool_decide (block = Some (given rs)) else bool_decide (block = None) && bool_decide (rs = []))
      then Some (mkCustody tty got owed line plain None lost) else None
  | Enter _ | PamStart _ | PamSetItem _ _ | PamEnd _ | Report _ _ => fun _ => if settled then Some m else None
  end.

#[local] Abbreviation keeping := (wp keep).

(** At rest: the terminal open or not, attributes read or not, and nothing else. *)
Definition resting (terminal : bool) (lost : nat) (m : custody) : Prop := exists got, m = mkCustody terminal got None NoBuffer false None lost.
(** With the array in hand. *)
Definition holding (terminal : bool) (held : list Z) (lost : nat) (m : custody) : Prop :=
  exists got, m = mkCustody terminal got None NoBuffer false (Some held) lost.

(** A line leaves its value in memory and nothing else, and the terminal as it was. *)
Lemma read_line_keeps text echo held lost m : holding true held lost m ->
  keeping (read_line text echo) (fun _ m => exists got, m = mkCustody true got None NoBuffer true (Some held) lost) m.
Proof.
  intros (g & ->). unfold read_line. destruct echo; intros []; cbn.
  - intros [a|]; cbn; [intros [] []|]; cbn; eauto.
  - intros [p|]; cbn; [|intros [a|]; cbn; [intros [] []|]; cbn; eauto].
    intros ok. rewrite bool_decide_true by done. destruct ok; cbn; [|intros [a|]; cbn; [intros [] []|]; cbn; eauto].
    intros [a|]; cbn; intros _; rewrite bool_decide_true by done; intros []; cbn; [intros [] []|]; cbn; eauto.
Qed.

Lemma given_from_app k rs1 rs2 : given_from k (rs1 ++ rs2) = given_from k rs1 ++ given_from (k + len rs1) rs2.
Proof.
  revert k. induction rs1 as [|[v|] rs1 IH]; intros k; cbn [given_from app length]; [by rewrite Z.add_0_r| |].
  - rewrite IH. cbn. do 3 f_equal. lia.
  - rewrite IH. do 2 f_equal. lia.
Qed.
Lemma given_from_range k rs i : i ∈ given_from k rs -> k <= i < k + len rs.
Proof.
  revert k. induction rs as [|[v|] rs IH]; intros k; cbn [given_from length]; [by intros ?%not_elem_of_nil| |].
  - intros [->|H%IH]%elem_of_cons; lia.
  - intros H%IH. lia.
Qed.
Lemma given_none k n : given_from k (replicate n None) = [].
Proof. revert k. induction n as [|n IH]; intros k; [done|]. apply IH. Qed.

Lemma seqZ_next i n : 0 < n -> seqZ i n = i :: seqZ (i + 1) (n - 1).
Proof. intros Hn. rewrite seqZ_cons by lia. by rewrite Z.add_1_r, Z.sub_1_r. Qed.

Lemma free_responses_keeps (pre mid rest : replies) terminal lost m : holding terminal (given_from (len pre) mid) lost m ->
  keeping (free_responses (seqZ (len pre) (len mid)) (pre ++ mid ++ rest)) (fun _ m => holding terminal [] lost m) m.
Proof.
  revert pre m. induction mid as [|v mid IH]; intros pre m Hm; [done|].
  rewrite seqZ_next by (cbn; lia). cbn [free_responses].
  change ((v :: mid) ++ rest) with (v :: mid ++ rest). rewrite Nat2Z.id, list_lookup_middle by done.
  specialize (IH (pre ++ [v])). rewrite <- (assoc_L app) in IH. change ([v] ++ mid ++ rest) with (v :: mid ++ rest) in IH.
  replace (len (pre ++ [v])) with (len pre + 1) in IH by (rewrite length_app; cbn; lia).
  replace (len (v :: mid) - 1) with (len mid) by (cbn; lia).
  destruct v as [v|]; [|by apply IH].
  destruct Hm as (g & ->). cbn [mbind proc_bind call given_from]. refine (wp_Call _ _ _ _ _ _). intros [].
  cbn [keep]. rewrite bool_decide_true by left. apply IH. exists g. do 2 f_equal. cbn [List.filter].
  rewrite Z.eqb_refl. cbn [negb]. clear. pose proof (given_from_range (len pre + 1) mid) as H.
  induction (given_from (len pre + 1) mid) as [|j l IH]; [done|]. cbn [List.filter].
  rewrite (proj2 (Z.eqb_neq j (len pre))) by (specialize (H j ltac:(left)); lia). cbn [negb]. f_equal. apply IH. intros i Hi. apply H. by right.
Qed.

(** The array while the messages before [len front] have been answered. *)
Definition part (terminal : bool) (front : replies) (n : nat) : replies := front ++ replicate n None.
Lemma given_part terminal front n : given (part terminal front n) = given front.
Proof. unfold given, part. by rewrite given_from_app, given_none, app_nil_r. Qed.

Definition known (m : pam_message) : bool := match msg_style m with OtherStyle _ => false | _ => true end.
(** The end of a conversation: the array handed on, or nothing and perhaps answers lost. *)
Definition conversed (terminal : bool) (ms : list pam_message) (lost : nat) (o : outcome (Z * replies)) (m : custody) : Prop :=
  match o with
  | Done (status, rs) =>
      if status =? PAM_SUCCESS then holding terminal (given rs) lost m
      else rs = [] /\ exists lost', (forallb known ms = true -> lost' = lost) /\ resting terminal lost' m
  | _ => False
  end.

Lemma failure_keeps terminal ms held lost status m : status <> PAM_SUCCESS -> holding terminal held lost m ->
  (forallb known ms = true -> held = []) -> keeping (failure status) (conversed terminal ms lost) m.
Proof.
  intros Hs (g & ->) Hk []. cbn. rewrite (proj2 (Z.eqb_neq _ _) Hs). split; [done|]. eexists. split; [|by eexists].
  intros H. rewrite (Hk H). cbn. lia.
Qed.

Lemma prompt_keeps terminal ms front n x echo next lost m : (terminal = false -> given front = []) ->
  holding terminal (given front) lost m ->
  (forall v m, terminal = true -> holding terminal (given (front ++ [Some v])) lost m ->
    keeping (next (part terminal (front ++ [Some v]) n)) (conversed terminal ms lost) m) ->
  keeping (prompt terminal (len front) x echo (part terminal front (S n)) next) (conversed terminal ms lost) m.
Proof.
  intros Ht Hm Hnext. unfold prompt. destruct terminal; cbn [negb].
  2:{ eapply failure_keeps; [done|done|]. auto. }
  eapply wp_then; [by eapply read_line_keeps|]. intros value ? (g & ->).
  cbn [mbind proc_bind call]. refine (wp_Call _ _ _ _ _ _). intros copied. cbn [keep].
  assert (len front ∉ given front) as Hnew by (intros H%given_from_range; lia). rewrite bool_decide_false by done.
  refine (wp_Call _ _ _ _ _ _). intros []. cbn [keep].
  destruct copied; cbn.
  - rewrite Nat2Z.id. unfold part. rewrite insert_app_r_alt, Nat.sub_diag by lia.
    change (<[0%nat:=Some (c_str value)]> (replicate (S n) None)) with (Some (c_str value) :: replicate n (None (A := list Z))).
    rewrite cons_middle, (assoc_L app). apply Hnext; [done|]. exists g. do 2 f_equal. unfold given. by rewrite given_from_app.
  - change (keeping (free_responses (seqZ 0 (len front)) (part true front (S n));; failure PAM_BUF_ERR) (conversed true ms lost)
      (mkCustody true g None NoBuffer false (Some (given front)) lost)).
    eapply wp_then; [apply (free_responses_keeps [] front (replicate (S n) None)); by eexists|]. intros [] m' Hm'.
    eapply failure_keeps; done.
Qed.

Lemma converse_loop_keeps terminal ms n front lost m : (length front + n <= length ms)%nat -> (terminal = false -> given front = []) ->
  holding terminal (given front) lost m ->
  keeping (converse_loop terminal ms (seqZ (len front) (Z.of_nat n)) (part terminal front n)) (conversed terminal ms lost) m.
Proof.
  revert front m. induction n as [|n IH]; intros front m Hlen Ht Hm.
  { cbn. unfold part. by rewrite app_nil_r. }
  rewrite seqZ_next by lia. replace (Z.of_nat (S n) - 1) with (Z.of_nat n) by lia. cbn [converse_loop]. rewrite Nat2Z.id.
  destruct (lookup_lt_is_Some_2 ms (length front)) as [x Hx]; [lia|]. rewrite Hx.
  assert (forall v m, (terminal = false -> v = None) -> holding terminal (given (front ++ [v])) lost m ->
    keeping (converse_loop terminal ms (seqZ (len front + 1) (Z.of_nat n)) (part terminal (front ++ [v]) n)) (conversed terminal ms lost) m) as Hnext.
  { intros v m' Hv Hm'. replace (len front + 1) with (len (front ++ [v])) by (rewrite length_app; cbn; lia). apply IH; [rewrite length_app; cbn; lia| |done].
    intros Hf. unfold given. rewrite given_from_app. fold (given front). by rewrite (Ht Hf), (Hv Hf). }
  assert (part terminal front (S n) = part terminal (front ++ [None]) n) as Hp by (unfold part; cbn; by rewrite cons_middle, (assoc_L app)).
  assert (holding terminal (given (front ++ [None])) lost m) as Hm0 by (unfold given; by rewrite given_from_app, app_nil_r).
  destruct (msg_style x) eqn:Hs.
  1,2: eapply prompt_keeps; [done..|]; intros v m' -> Hm'; by apply Hnext.
  1,2: rewrite Hp; destruct terminal; [|by apply Hnext]; destruct Hm0 as (g & ->); intros []; cbn; apply Hnext; [done|]; by exists g.
  eapply failure_keeps; [done|done|]. intros Hk. rewrite forallb_forall in Hk. specialize (Hk x). unfold known in Hk. rewrite Hs in Hk.
  discriminate Hk. apply list_elem_of_In. by eapply list_elem_of_lookup_2.
Qed.

Lemma converse_keeps terminal c lost m : resting terminal lost m -> keeping (converse terminal c) (conversed terminal (texts c) lost) m.
Proof.
  unfold converse, message_count, texts. intros Hm.
  assert (forall st, st <> PAM_SUCCESS -> conversed terminal (default [] (messages c)) lost (Done (st, [])) m) as Hend.
  { intros st Hst. cbn. rewrite (proj2 (Z.eqb_neq _ _) Hst). split; [done|]. by exists lost. }
  destruct (messages c) as [ms|]; cbn in *; [|by apply (Hend PAM_CONV_ERR)].
  destruct (_ || _); [by apply (Hend PAM_CONV_ERR)|]. destruct Hm as (g & ->). intros [|]; cbn; [|by apply (Hend PAM_BUF_ERR)].
  rewrite Nat2Z.id. apply (converse_loop_keeps terminal ms (length ms) []); [done..|]. by exists g.
Qed.

(** ** What is answered *)

#[local] Abbreviation event := (Calls.event answers).

(** The values of the lines that were read. *)
Definition typed : list event -> list (list Z) :=
  flat_map (fun '(existT c a) => match c return answers c -> list (list Z) with Getline => fun t => [value_of t] | _ => fun _ => [] end a).
Lemma typed_app tr1 tr2 : typed (tr1 ++ tr2) = typed tr1 ++ typed tr2.
Proof. apply flat_map_app. Qed.

Definition prompts (m : pam_message) : bool := match msg_style m with PAM_PROMPT_ECHO_OFF | PAM_PROMPT_ECHO_ON => true | _ => false end.
(** Each prompt is answered with the next line, as a C string; nothing else is answered. *)
Fixpoint answered (ms : list pam_message) (lines : list (list Z)) : replies :=
  match ms with
  | [] => []
  | m :: ms =>
      match prompts m, lines with
      | true, line :: lines => Some (c_str line) :: answered ms lines
      | _, _ => None :: answered ms lines
      end
  end.

Lemma read_line_typed text echo tr v : runs (read_line text echo) tr v -> typed tr = [v].
Proof.
  intros H. unfold read_line in H. follow H a. destruct echo; repeat (follow H a0 || destruct a0 as [?|] || destruct a0); by subst v.
Qed.

Lemma free_responses_typed js reply tr r : runs (free_responses js reply) tr r -> typed tr = [].
Proof.
  revert tr. induction js as [|i js IH]; intros tr H; [by destruct H as [-> _]|]. cbn [free_responses] in H.
  apply runs_bind in H as (tr1 & [] & tr2 & -> & H1 & H2). rewrite typed_app, (IH _ H2), app_nil_r.
  destruct (reply !! Z.to_nat i) as [[v|]|]; follow H1 a; [|done..]. by destruct H1 as [-> _].
Qed.

Lemma failure_runs status tr r : runs (failure status) tr r -> typed tr = [] /\ r = Done (status, []).
Proof. intros H. unfold failure in H. follow H a. by destruct H as [-> ->]. Qed.

(** A conversation that succeeds. *)
Lemma prompt_succeeds terminal ms k x echo reply next tr rs :
  (forall v tr rs, runs (next (<[k := Some v]> reply)) tr (Done (PAM_SUCCESS, rs)) -> rs = take (S k) (<[k := Some v]> reply) ++ answered ms (typed tr) /\ length (typed tr) = length (List.filter prompts ms)) ->
  (k < length reply)%nat -> prompts x = true -> runs (prompt terminal (Z.of_nat k) x echo reply next) tr (Done (PAM_SUCCESS, rs)) ->
  rs = take k reply ++ answered (x :: ms) (typed tr) /\ length (typed tr) = length (List.filter prompts (x :: ms)).
Proof.
  intros Hnext Hk Hx H. unfold prompt in H. destruct terminal; cbn [negb] in H; [|by apply failure_runs in H as [_ [=]]].
  apply runs_bind in H as (tr1 & v & tr2 & -> & H1%read_line_typed & H2). follow H2 copied. follow H2 w. destruct copied.
  - rewrite Nat2Z.id in H2. apply Hnext in H2 as [-> Hl]. rewrite typed_app, H1. match goal with |- context [typed (_ :: _ :: ?t)] => change (typed (_ :: _ :: t)) with (typed t) end. cbn [answered List.filter app length]. rewrite Hx, Hl.
    split; [|done]. rewrite take_S_r with (x := Some (c_str v)) by by apply list_lookup_insert_eq.
    by rewrite take_insert_ge, <- (assoc_L app) by lia.
  - apply runs_bind in H2 as (? & ? & ? & -> & _ & [_ [=]]%failure_runs).
Qed.

Lemma converse_loop_succeeds terminal ms n k reply tr rs : (k + n = length ms)%nat -> length reply = length ms ->
  Forall (eq None) (drop k reply) ->
  runs (converse_loop terminal ms (seqZ (Z.of_nat k) (Z.of_nat n)) reply) tr (Done (PAM_SUCCESS, rs)) ->
  rs = take k reply ++ answered (drop k ms) (typed tr) /\ length (typed tr) = length (List.filter prompts (drop k ms)).
Proof.
  revert k reply tr rs. induction n as [|n IH]; intros k reply tr rs Hk Hr Hnone H.
  { destruct H as [-> [= ->]]. rewrite (drop_ge ms) by lia. cbn. by rewrite take_ge, app_nil_r by lia. }
  rewrite seqZ_next in H by lia. replace (Z.of_nat (S n) - 1) with (Z.of_nat n) in H by lia. cbn [converse_loop] in H. rewrite Nat2Z.id in H.
  destruct (lookup_lt_is_Some_2 ms k) as [x Hx]; [lia|]. rewrite Hx in H. rewrite (drop_S _ _ _ Hx).
  replace (Z.of_nat k + 1) with (Z.of_nat (S k)) in H by lia.
  destruct (lookup_lt_is_Some_2 reply k) as [v Hv]; [lia|]. rewrite (drop_S _ _ _ Hv) in Hnone. apply Forall_cons in Hnone as [<- Hnone].
  assert (forall reply', length reply' = length reply -> drop (S k) reply' = drop (S k) reply -> forall tr rs,
    runs (converse_loop terminal ms (seqZ (Z.of_nat (S k)) (Z.of_nat n)) reply') tr (Done (PAM_SUCCESS, rs)) ->
    rs = take (S k) reply' ++ answered (drop (S k) ms) (typed tr) /\ length (typed tr) = length (List.filter prompts (drop (S k) ms))) as Hnext.
  { intros reply' Hl Hd tr' rs' Hr'. apply IH; [lia|lia|by rewrite Hd|done]. }
  assert (forall tr0 tr, typed tr0 = [] -> prompts x = false -> runs (converse_loop terminal ms (seqZ (Z.of_nat (S k)) (Z.of_nat n)) reply) tr (Done (PAM_SUCCESS, rs)) -> 
    rs = take k reply ++ answered (x :: drop (S k) ms) (typed (tr0 ++ tr)) /\ length (typed (tr0 ++ tr)) = length (List.filter prompts (x :: drop (S k) ms))) as Hskip.
  { intros tr0 tr' H0 Hp Hr0. apply Hnext in Hr0 as [-> Hl]; [|done..]. rewrite typed_app, H0. cbn [answered List.filter app]. rewrite Hp. split; [|done].
    rewrite (take_S_r _ _ _ Hv), <- (assoc_L app). done. }
  destruct (msg_style x) eqn:Hs.
  1,2: eapply prompt_succeeds; [|lia|by unfold prompts; rewrite Hs|exact H]; intros v tr' rs' Hr'; apply Hnext; [by rewrite length_insert|by rewrite drop_insert_lt by lia|done].
  3: by apply failure_runs in H as [_ [=]].
  all: apply runs_bind in H as (tr0 & [] & tr' & -> & H0 & H'); apply Hskip; [|by unfold prompts; rewrite Hs|done].
  all: destruct terminal; follow H0 a; [by destruct H0 as [-> _]|done].
Qed.

Lemma conversation_succeeds terminal c tr rs : runs (converse terminal c) tr (Done (PAM_SUCCESS, rs)) ->
  rs = answered (texts c) (typed tr) /\ length (typed tr) = length (List.filter prompts (texts c)).
Proof.
  unfold converse, message_count, texts. intros H. destruct (messages c) as [ms|]; [|by destruct H as [_ [=]]]. cbn [default] in *.
  destruct (_ || _); [by destruct H as [_ [=]]|]. follow H ok. destruct ok; cbn [negb] in H; [|by destruct H as [_ [=]]].
  rewrite Nat2Z.id in H. apply (converse_loop_succeeds terminal ms (length ms) 0) in H; [done|done|by rewrite length_replicate|].
  apply Forall_replicate. done.
Qed.

(** ** The session *)

(** The calls of the library that returned, with their statuses, and what was printed. *)
Definition returned (o : op) (t : turn) : list (op * Z) := match t with Returns s => [(o, s)] | Converses _ => [] end.
Definition calls : list event -> list (op * Z) :=
  flat_map (fun '(existT c a) => match c return answers c -> list (op * Z) with
    | PamStart _ => fun s => [(Start, s)] | PamEnd _ => fun s => [(End, s)]
    | Enter o => returned o | Reply o _ _ => returned o | _ => fun _ => [] end a).
Definition reported : list event -> list (op * Z) :=
  flat_map (fun '(existT c a) => match c with Report o s => [(o, s)] | _ => [] end).
Lemma calls_app tr1 tr2 : calls (tr1 ++ tr2) = calls tr1 ++ calls tr2.
Proof. apply flat_map_app. Qed.
Lemma reported_app tr1 tr2 : reported (tr1 ++ tr2) = reported tr1 ++ reported tr2.
Proof. apply flat_map_app. Qed.

(** The library asks only for what conversations know. *)
Definition usual_turn (t : turn) : bool := match t with Converses c => forallb known (texts c) | Returns _ => true end.
Definition usual (e : event) : bool :=
  match e with existT c a => match c return answers c -> bool with Enter _ | Reply _ _ _ => usual_turn | _ => fun _ => true end a end.

(** A conversation makes no call of the library and prints no result. *)
Definition mute (_ : unit) (c : request) (_ : answers c) : option unit :=
  match c with Enter _ | Reply _ _ _ | PamStart _ | PamEnd _ | Report _ _ => None | _ => Some tt end.
Definition muted {A} (p : proc A) : Prop := wp mute p (fun _ _ => True) tt.

Lemma muted_runs {A} (p : proc A) tr r : muted p -> runs p tr r -> calls tr = [] /\ reported tr = [].
Proof.
  intros Hp Hr. destruct (wp_sound _ _ (fun _ _ => True) _ _ _ Hp Hr) as ([] & Ho & _). clear Hp Hr.
  induction tr as [|[c a] tr IH]; [done|]. cbn [observe] in Ho. destruct c; try discriminate Ho; by apply IH.
Qed.
Lemma muted_then {A B} (p : proc A) (f : A -> proc B) : muted p -> (forall a, muted (f a)) -> muted (p ≫= f).
Proof. intros Hp Hf. eapply wp_then; [apply Hp|]. intros a [] _. apply Hf. Qed.
Lemma muted_call c : mute tt c = (fun _ => Some tt) -> muted (ask c).
Proof. intros H a. by rewrite H. Qed.
Lemma muted_ret {A} (a : A) : muted (mret a).
Proof. done. Qed.
Ltac mute_all := repeat first
  [ assumption | apply muted_ret | by apply muted_call | apply muted_then; [|intros ?]
  | match goal with |- muted (match ?x with _ => _ end) => destruct x end ].

Lemma read_line_muted text echo : muted (read_line text echo).
Proof. unfold read_line. mute_all. Qed.
Lemma free_responses_muted js reply : muted (free_responses js reply).
Proof. induction js; cbn [free_responses]; mute_all. Qed.
Lemma converse_muted terminal c : muted (converse terminal c).
Proof.
  assert (forall status, muted (failure status)) as Hf by (intros; unfold failure; mute_all).
  assert (forall k m echo reply next, (forall reply, muted (next reply)) -> muted (prompt terminal k m echo reply next)) as Hp.
  { intros k m echo reply next Hn. unfold prompt. pose proof (read_line_muted (msg m) echo). pose proof (free_responses_muted (seqZ 0 k) reply).
    pose proof (Hf PAM_CONV_ERR). pose proof (Hf PAM_BUF_ERR). mute_all. apply Hn. }
  assert (forall ms js reply, muted (converse_loop terminal ms js reply)) as Hl.
  { intros ms js. induction js as [|j js IH]; intros reply; cbn [converse_loop]; mute_all; try (apply Hp, IH); try apply IH; apply Hf. }
  unfold converse. mute_all. apply Hl.
Qed.

(** What a part of the program does, whatever the library asks: it keeps the rules, hands back
    the terminal as it was, loses nothing to usual conversations, prints what was returned, and
    its result goes with its calls as [h] says. *)
Definition good {A} (terminal : bool) (p : proc (outcome A)) (h : A -> list (op * Z) -> Prop) : Prop :=
  forall tr r lost m, runs p tr r -> resting terminal lost m ->
  exists m', observe keep m tr = Some m' /\
  match r with
  | Done a => h a (calls tr) /\ reported tr = calls tr /\ exists lost', resting terminal lost' m' /\ (forallb usual tr = true -> lost' = lost)
  | Pending => True
  | Undefined => False
  end.

Lemma good_ret {A} terminal (a : A) : good terminal (mret (Done a)) (fun b l => b = a /\ l = []).
Proof. intros tr r lost m [-> ->] Hm. exists m. split; [done|]. split_and!; [done..|]. by exists lost. Qed.

Lemma good_mono {A} terminal (p : proc (outcome A)) (h h' : A -> list (op * Z) -> Prop) :
  good terminal p h -> (forall a l, h a l -> h' a l) -> good terminal p h'.
Proof.
  intros Hp Hh tr r lost m Hr Hm. destruct (Hp _ _ _ _ Hr Hm) as (m' & Ho & H). exists m'. split; [done|]. destruct r; [|done..].
  destruct H as (H & ?). split; [by apply Hh|done].
Qed.

Lemma good_chain {A B} terminal (p : proc (outcome A)) (f : A -> proc (outcome B)) h (h2 : A -> B -> list (op * Z) -> Prop) :
  good terminal p h -> (forall a, good terminal (f a) (h2 a)) ->
  good terminal (chain p f) (fun b l => exists a l1 l2, l = l1 ++ l2 /\ h a l1 /\ h2 a b l2).
Proof.
  intros Hp Hf tr r lost m Hr Hm. unfold chain in Hr. apply runs_bind in Hr as (tr1 & o & tr2 & -> & H1 & H2).
  destruct (Hp _ _ _ _ H1 Hm) as (m1 & Ho1 & H). rewrite observe_app, Ho1. cbn [mbind option_bind]. destruct o as [a| |]; [|by destruct H2 as [-> ->]; exists m1|done].
  destruct H as (Ha & Hl1 & lost1 & Hm1 & Hu1). destruct (Hf a _ _ _ _ H2 Hm1) as (m2 & Ho2 & H). exists m2. split; [done|]. destruct r as [b| |]; [|done..].
  destruct H as (Hb & Hl2 & lost2 & Hm2 & Hu2). rewrite calls_app, reported_app, Hl1, Hl2. split; [by exists a, (calls tr1), (calls tr2)|]. split; [done|]. exists lost2. split; [done|].
  rewrite forallb_app. intros [Hx Hy]%andb_true_iff. by rewrite Hu2, Hu1.
Qed.

Lemma serve_keeps n terminal o t tr r lost m : runs (serve n terminal o t) tr r -> resting terminal lost m ->
  exists m', observe keep m tr = Some m' /\
  match r with
  | Done s => returned o t ++ calls tr = [(o, s)] /\ reported tr = [] /\
      exists lost', resting terminal lost' m' /\ (usual_turn t = true -> forallb usual tr = true -> lost' = lost)
  | Pending => True
  | Undefined => False
  end.
Proof.
  revert t tr lost m. induction n as [|n IH]; intros t tr lost m H Hm; (destruct t as [c|s]; cbn [serve] in H; [|destruct H as [-> ->]; exists m; split; [done|]; split_and!; [done..|]; by exists lost]).
  { destruct H as [-> ->]. by exists m. }
  unfold chain in H. apply runs_bind in H as (tr1 & u & tr2 & -> & H1 & H2).
  destruct (wp_sound _ _ _ _ _ _ (converse_keeps terminal c lost m Hm) H1) as (m1 & Ho1 & Hc).
  destruct (muted_runs _ _ _ (converse_muted terminal c) H1) as [Hc1 Hr1]. unfold conversed in Hc. destruct u as [[status rs]| |]; [|done..].
  follow H2 t. rewrite observe_app, Ho1. cbn [mbind option_bind observe].
  assert (exists lost', (forallb known (texts c) = true -> lost' = lost) /\ resting terminal lost' (mkCustody terminal (got m1) None NoBuffer false None lost') /\
    keep m1 (Reply o status rs) t = Some (mkCustody terminal (got m1) None NoBuffer false None lost')) as (lost' & Hlost & Hm2 & Hk).
  { destruct (Z.eqb_spec status PAM_SUCCESS) as [->|Hne].
    - destruct Hc as (g & ->). exists lost. split; [done|]. split; [by eexists|]. cbn. by rewrite bool_decide_true.
    - destruct Hc as (-> & lost' & Hl & g & ->). exists lost'. split; [done|]. split; [by eexists|]. cbn. by rewrite (proj2 (Z.eqb_neq _ _) Hne). }
  rewrite Hk. cbn [mbind option_bind]. destruct (IH _ _ _ _ H2 Hm2) as (m3 & Ho3 & H). exists m3. split; [done|]. destruct r as [s| |]; [|done..].
  destruct H as (Hs & Hr & lost3 & Hm3 & Hl3). rewrite calls_app, reported_app, Hc1, Hr1. split; [done|]. split; [done|].
  exists lost3. split; [done|]. intros Hu. rewrite forallb_app. intros [_ [Ht Hu3]%andb_true_iff]%andb_true_iff. rewrite Hl3, Hlost; done.
Qed.

Lemma pam_good n terminal o : good terminal (pam n terminal o) (fun s l => l = [(o, s)]).
Proof.
  intros tr r lost m H (g & ->). unfold pam in H. follow H t. unfold chain in H. apply runs_bind in H as (tr1 & u & tr2 & -> & H1 & H2).
  destruct (serve_keeps _ _ _ _ _ _ lost _ H1 ltac:(by exists g)) as (m1 & Ho1 & H). cbn [observe keep mbind option_bind]. rewrite observe_app, Ho1. cbn [mbind option_bind].
  destruct u as [s| |]; [|by destruct H2 as [-> ->]; exists m1|done]. destruct H as (Hs & Hr & lost1 & (g1 & ->) & Hl1).
  follow H2 a. destruct H2 as [-> ->]. eexists. split; [done|].
  change (calls (existT (Enter o) t :: tr1 ++ [existT (Report o s) a])) with (returned o t ++ calls (tr1 ++ [existT (Report o s) a])).
  change (reported (existT (Enter o) t :: tr1 ++ [existT (Report o s) a])) with (reported (tr1 ++ [existT (Report o s) a])).
  rewrite calls_app, reported_app, Hr, app_nil_r. split; [done|]. split; [done|]. exists lost1. split; [by exists g1|].
  cbn [forallb usual]. rewrite forallb_app. intros [Ht [Hu _]%andb_true_iff]%andb_true_iff. by apply Hl1.
Qed.

(** *** What a session does *)

Definition attempts (account_only : bool) : list op :=
  if account_only then [AcctMgmt] else [Authenticate; AcctMgmt; EstablishCred; OpenSession].
(** The steps up to and with the first that fails. *)
Fixpoint tried (os : list op) (answer : op -> Z) : list op :=
  match os with [] => [] | o :: os => o :: (if answer o =? PAM_SUCCESS then tried os answer else []) end.
Definition succeeded (os : list op) (answer : op -> Z) : bool := forallb (fun o => answer o =? PAM_SUCCESS) os.
(** A session that was opened is closed and the credentials deleted, whatever closing answers. *)
Definition taken (account_only : bool) (answer : op -> Z) : list op :=
  tried (attempts account_only) answer ++
  (if negb account_only && succeeded (attempts false) answer then [CloseSession; DeleteCred] else []).
Definition expected (account_only : bool) (answer : op -> Z) : list op :=
  Start :: (if answer Start =? PAM_SUCCESS then taken account_only answer ++ [End] else []).
Definition with_answers (answer : op -> Z) (os : list op) : list (op * Z) := map (fun o => (o, answer o)) os.
Definition verdict (account_only : bool) (answer : op -> Z) : Z :=
  if negb (answer Start =? PAM_SUCCESS) then 4 else if succeeded (expected account_only answer) answer then 0 else 5.

(** The status that the steps taken leave. *)
Definition stepped (account_only : bool) (s : Z) (l : list (op * Z)) : Prop :=
  exists answer, l = with_answers answer (taken account_only answer) /\ (s =? PAM_SUCCESS) = succeeded (taken account_only answer) answer.

Lemma pam_step_good n terminal o status :
  good terminal (step n terminal o status) (fun s l => if status =? PAM_SUCCESS then l = [(o, s)] else s = status /\ l = []).
Proof. unfold step. destruct (status =? PAM_SUCCESS); [apply pam_good|apply good_ret]. Qed.

(** Closing, and a session that was to be opening. *)
Definition closed (s : Z) (l : list (op * Z)) : Prop :=
  exists c d, l = [(CloseSession, c); (DeleteCred, d)] /\ (s =? PAM_SUCCESS) = (c =? PAM_SUCCESS) && (d =? PAM_SUCCESS).
Definition opening (before s : Z) (l : list (op * Z)) : Prop :=
  if before =? PAM_SUCCESS then exists s4 l', l = (OpenSession, s4) :: l' /\ if s4 =? PAM_SUCCESS then closed s l' else s = s4 /\ l' = []
  else s = before /\ l = [].

Lemma close_session_good n : good true (close_session n PAM_SUCCESS) closed.
Proof.
  unfold close_session. eapply good_mono; [eapply good_chain; [apply pam_good|intros c; eapply good_chain; [apply pam_good|intros d; apply good_ret]]|].
  intros s l (c & l1 & l2 & -> & -> & d & l3 & l4 & -> & -> & -> & ->). exists c, d. split; [done|]. change (PAM_SUCCESS =? PAM_SUCCESS) with true. cbv iota.
  destruct (c =? PAM_SUCCESS) eqn:E; [done|]. by rewrite E.
Qed.

Lemma opening_good n before : good true (if negb (before =? PAM_SUCCESS) then mret (Done before) else
  chain (pam n true OpenSession) (fun status => if status =? PAM_SUCCESS then close_session n status else mret (Done status))) (opening before).
Proof.
  unfold opening. destruct (before =? PAM_SUCCESS); cbn [negb]; [|apply good_ret].
  eapply good_mono; [eapply (good_chain _ _ _ _ (fun s4 s l' => if s4 =? PAM_SUCCESS then closed s l' else s = s4 /\ l' = [])); [apply pam_good|intros s4]|].
  - destruct (Z.eqb_spec s4 PAM_SUCCESS) as [->|]; [apply close_session_good|apply good_ret].
  - intros s l (s4 & l1 & l2 & -> & -> & H). by exists s4, l2.
Qed.

Ltac statuses := repeat match goal with E : (?s =? PAM_SUCCESS) = _ |- context [?s =? PAM_SUCCESS] => rewrite E; cbn end; try done.

Lemma steps_good n account_only : good (negb account_only) (steps n account_only PAM_SUCCESS) (stepped account_only).
Proof.
  destruct account_only; cbn [negb steps].
  { eapply good_mono; [apply pam_good|]. intros s l ->. exists (fun _ => s). split; cbn; by destruct (s =? PAM_SUCCESS). }
  unfold full. eapply good_mono.
  { eapply good_chain; [apply pam_good|intros s1]. eapply good_chain; [apply pam_step_good|intros s2]. eapply good_chain; [apply pam_step_good|intros s3; apply opening_good]. }
  intros s l (s1 & l1 & l2 & -> & -> & s2 & l3 & l4 & -> & H2 & s3 & l5 & l6 & -> & H3 & H4). unfold opening in H4.
  pose (answer := fun s4 c d o => match o with Authenticate => s1 | AcctMgmt => s2 | EstablishCred => s3 | OpenSession => s4 | CloseSession => c | _ => d end).
  destruct (s1 =? PAM_SUCCESS) eqn:E1.
  2:{ destruct H2 as [-> ->]. rewrite E1 in H3. destruct H3 as [-> ->]. rewrite E1 in H4. destruct H4 as [-> ->]. exists (answer 1 1 1). split; unfold answer; cbn; statuses. }
  subst l3. destruct (s2 =? PAM_SUCCESS) eqn:E2.
  2:{ destruct H3 as [-> ->]. rewrite E2 in H4. destruct H4 as [-> ->]. exists (answer 1 1 1). split; unfold answer; cbn; statuses. }
  subst l5. destruct (s3 =? PAM_SUCCESS) eqn:E3.
  2:{ destruct H4 as [-> ->]. exists (answer 1 1 1). split; unfold answer; cbn; statuses. }
  destruct H4 as (s4 & l' & -> & H4). destruct (s4 =? PAM_SUCCESS) eqn:E4.
  2:{ destruct H4 as [-> ->]. exists (answer s4 1 1). split; unfold answer; cbn; statuses. }
  destruct H4 as (c & d & -> & Hs). exists (answer s4 c d). split; unfold answer; cbn; statuses; by rewrite andb_true_r.
Qed.

(** What is known when the session is over. *)
Definition accounted (account_only : bool) (tr : list event) (m : custody) (r : outcome Z) : Prop :=
  match r with
  | Done code =>
      (exists lost, resting false lost m /\ (forallb usual tr = true -> lost = 0%nat)) /\ reported tr = calls tr /\
      exists answer, calls tr = with_answers answer (expected account_only answer) /\ code = verdict account_only answer
  | Pending => True
  | Undefined => False
  end.

Lemma with_answers_ext f g os : (forall o, o ∈ os -> f o = g o) -> with_answers f os = with_answers g os.
Proof. intros H. apply map_ext_in. intros o Ho%list_elem_of_In. by rewrite H. Qed.

Lemma taken_steps account_only answer o : o ∈ taken account_only answer -> o <> Start /\ o <> End.
Proof.
  unfold taken. destruct account_only; cbn; repeat (destruct (answer _ =? PAM_SUCCESS); cbn); intros H;
    repeat (apply elem_of_cons in H as [->|H]; [done|]); by apply not_elem_of_nil in H.
Qed.

(** Two functions that agree on the steps take the same. *)
Lemma taken_ext account_only f g : (forall o, o <> Start -> o <> End -> f o = g o) -> taken account_only f = taken account_only g.
Proof. intros H. unfold taken. destruct account_only; cbn; rewrite ?(H Authenticate), ?(H AcctMgmt), ?(H EstablishCred), ?(H OpenSession) by done; reflexivity. Qed.

(** The steps between the start and the end. *)
Lemma whole_session account_only answer s e :
  (s =? PAM_SUCCESS) = succeeded (taken account_only answer) answer -> exists answer',
  (Start, PAM_SUCCESS) :: with_answers answer (taken account_only answer) ++ [(End, e)] = with_answers answer' (expected account_only answer') /\
  (if (s =? PAM_SUCCESS) && (e =? PAM_SUCCESS) then 0 else 5) = verdict account_only answer'.
Proof.
  intros Hs. exists (fun o => match o with Start => PAM_SUCCESS | End => e | _ => answer o end).
  assert (forall o, o ∈ taken account_only answer -> answer o = match o with Start => PAM_SUCCESS | End => e | _ => answer o end) as Hsame.
  { intros o [? ?]%taken_steps. by destruct o. }
  unfold verdict, expected. cbn [Z.eqb PAM_SUCCESS negb]. change (PAM_SUCCESS =? PAM_SUCCESS) with true. cbv iota.
  rewrite (taken_ext account_only (fun o => match o with Start => PAM_SUCCESS | End => e | _ => answer o end) answer) by (by intros []).
  unfold with_answers, succeeded. cbn [map forallb]. rewrite map_app, forallb_app. cbn [map forallb]. change (PAM_SUCCESS =? PAM_SUCCESS) with true. rewrite andb_true_r. cbn [andb]. split.
  - do 2 f_equal. by apply with_answers_ext.
  - rewrite Hs. unfold succeeded. replace (forallb (fun o => (match o with Start => PAM_SUCCESS | End => e | _ => answer o end) =? PAM_SUCCESS) (taken account_only answer))
      with (forallb (fun o => answer o =? PAM_SUCCESS) (taken account_only answer)); [done|].
    clear -Hsame. induction (taken account_only answer) as [|o os IH]; [done|]. cbn [forallb]. rewrite (Hsame o ltac:(left)) at 1. f_equal. apply IH. intros; apply Hsame. by right.
Qed.

Lemma close_terminal_keeps terminal g lost tr : runs (close_terminal terminal) tr tt ->
  observe keep (mkCustody terminal g None NoBuffer false None lost) tr = Some (mkCustody false (if terminal then None else g) None NoBuffer false None lost) /\
  calls tr = [] /\ reported tr = [] /\ forallb usual tr = true.
Proof. intros H. destruct terminal; cbn [close_terminal] in H; [follow H u; by destruct H as [-> _]|by destruct H as [-> _]]. Qed.

Lemma session_accounted n account_only user tr r g : runs (session n account_only user) tr r ->
  exists m, observe keep (mkCustody (negb account_only) g None NoBuffer false None 0) tr = Some m /\ accounted account_only tr m r.
Proof.
  intros H. unfold session in H. follow H start. follow H rep. cbn [observe keep mbind option_bind].
  destruct (Z.eqb_spec start PAM_SUCCESS) as [->|Hne]; cbn [negb] in H.
  2:{ apply runs_bind in H as (tr1 & [] & tr2 & -> & H1 & [-> ->]). destruct (close_terminal_keeps _ g 0 _ H1) as (Ho & Hc & Hr & Hu).
      rewrite app_nil_r. eexists. split; [exact Ho|]. split; [exists 0%nat; split; [by eexists|done]|].
      change (calls (_ :: _ :: tr1)) with ((Start, start) :: calls tr1). change (reported (_ :: _ :: tr1)) with ((Start, start) :: reported tr1).
      rewrite Hc, Hr. split; [done|]. exists (fun _ => start). unfold verdict, expected. by rewrite (proj2 (Z.eqb_neq _ _) Hne). }
  follow H u1. follow H u2. cbn [observe keep mbind option_bind]. unfold chain in H. apply runs_bind in H as (tr1 & o & tr2 & -> & H1 & H2).
  destruct (steps_good n account_only _ _ 0%nat _ H1 ltac:(by exists g)) as (m1 & Ho1 & H). rewrite observe_app, Ho1. cbn [mbind option_bind].
  destruct o as [s| |]; [|by destruct H2 as [-> ->]; exists m1|done]. destruct H as ((answer & Hl & Hs) & Hr & lost & (g1 & ->) & Hlost).
  follow H2 e. follow H2 u3. cbn [observe keep mbind option_bind].
  apply runs_bind in H2 as (tr3 & [] & tr4 & -> & H3 & [-> ->]). destruct (close_terminal_keeps _ g1 lost _ H3) as (Ho3 & Hc3 & Hr3 & Hu3).
  rewrite app_nil_r. eexists. split; [exact Ho3|]. destruct (whole_session account_only answer s e Hs) as (answer' & Hw & Hv).
  split; [exists lost; split; [by eexists|]; cbn [forallb usual andb]; rewrite forallb_app; by intros [? _]%andb_true_iff; apply Hlost|].
  match goal with |- context [calls ?t] => assert (calls t = (Start, PAM_SUCCESS) :: calls tr1 ++ [(End, e)] /\ reported t = (Start, PAM_SUCCESS) :: reported tr1 ++ [(End, e)]) as [-> ->] end.
  { split; [transitivity ((Start, PAM_SUCCESS) :: calls (tr1 ++ existT (PamEnd s) e :: existT (Report End e) u3 :: tr3))|
      transitivity ((Start, PAM_SUCCESS) :: reported (tr1 ++ existT (PamEnd s) e :: existT (Report End e) u3 :: tr3))]; try done; f_equal.
    - rewrite calls_app. f_equal. transitivity ((End, e) :: calls tr3); [done|by rewrite Hc3].
    - rewrite reported_app. f_equal. transitivity ((End, e) :: reported tr3); [done|by rewrite Hr3]. }
  split; [by rewrite Hr|]. exists answer'. rewrite Hl. by rewrite <- Hw.
Qed.


(** The line is the value and the newlines after it. *)
Lemma value_of_line text : exists ends, text = value_of (Some (Some text)) ++ ends /\ Forall (fun c => c = 10 \/ c = 13) ends /\
  forall c, last (value_of (Some (Some text))) = Some c -> c <> 10 /\ c <> 13.
Proof.
  assert (forall r, exists ends, r = ends ++ pop_newlines r /\ Forall (fun c => c = 10 \/ c = 13) ends /\
    forall c, head (pop_newlines r) = Some c -> c <> 10 /\ c <> 13) as H.
  { induction r as [|c r (ends & Hr & He & Hh)]; [by exists []|]. cbn [pop_newlines]. destruct ((c =? 10) || (c =? 13)) eqn:E.
    - exists (c :: ends). cbn. split_and!; [by f_equal|constructor; [lia|done]|done].
    - exists []. split_and!; [done|constructor|]. intros ? [= <-]. lia. }
  assert (value_of (Some (Some text)) = rev (pop_newlines (rev text))) as ->.
  { unfold value_of. destruct text as [|c text]; [done|]. by rewrite (proj2 (Z.ltb_lt _ _)) by (cbn; lia). }
  destruct (H (rev text)) as (ends & Hr & He & Hh). exists (rev ends). split_and!.
  - apply (f_equal (@rev Z)) in Hr. by rewrite rev_involutive, rev_app_distr in Hr.
  - by apply Forall_rev.
  - intros c Hc. apply Hh. rewrite rev_alt in Hc. rewrite <- (last_reverse (pop_newlines (rev text))). exact Hc.
Qed.

(** A conversation hands over exactly what was typed: when it succeeds, each prompt in turn has
    the next line as its answer and other messages have none; otherwise it hands over nothing,
    and what it had copied is freed unless a message of an unknown style made it fail. *)
Theorem conversation_answers terminal c tr r lost m : runs (converse terminal c) tr r -> resting terminal lost m ->
  exists status rs m', r = Done (status, rs) /\ observe keep m tr = Some m' /\
  (status = PAM_SUCCESS -> holding terminal (given rs) lost m' /\ rs = answered (texts c) (typed tr) /\
    length (typed tr) = length (List.filter prompts (texts c))) /\
  (status <> PAM_SUCCESS -> rs = [] /\ exists lost', resting terminal lost' m' /\ (forallb known (texts c) = true -> lost' = lost)).
Proof.
  intros Hr Hm. destruct (wp_sound _ _ _ _ _ _ (converse_keeps terminal c lost m Hm) Hr) as (m' & Ho & H). destruct r as [[status rs]| |]; [|done..].
  exists status, rs, m'. split_and!; [done..| |]; unfold conversed in H.
  - intros ->. split; [exact H|]. by eapply conversation_succeeds.
  - intros Hs. rewrite (proj2 (Z.eqb_neq _ _) Hs) in H. destruct H as (-> & lost' & ? & ?). split; [done|]. by exists lost'.
Qed.

(** ** Runs *)

(** A user who types the lines, and a library that takes the turns; all else succeeds. *)
Definition desk (s : list (list Z) * list turn) (c : request) : answers c * (list (list Z) * list turn) :=
  let '(lines, turns) := s in
  let next := (hd (Returns 0) turns, (lines, tl turns)) in
  match c return answers c * (list (list Z) * list turn) with
  | OpenTerminal | Tcsetattr _ | Calloc _ | Strdup _ _ => (true, s)
  | Tcgetattr => (Some (mkTermios 35387 []), s)
  | Getline => (Some (head lines), (tl lines, turns))
  | PamStart _ | PamEnd _ => (0, s)
  | Enter _ | Reply _ _ _ => next
  | _ => (tt, s)
  end.
Definition run_probe (arguments : list string) (lines : list (list Z)) (turns : list turn) : list event * outcome Z :=
  run desk (main 3 arguments) (lines, turns).

Definition password : pam_message := mkMessage PAM_PROMPT_ECHO_OFF [80; 97; 115; 115; 58].
Definition asks (ms : list pam_message) : turn := Converses (mkConversation (Some ms) true).
Definition secret : list Z := [115; 51; 99; 114; 51; 116; 13; 10].

Definition logged_in : list event * outcome Z := run_probe ["user"] [secret] [asks [password; mkMessage PAM_TEXT_INFO []]].
Example logged_in_handed : existT (Reply Authenticate 0 [Some [115; 51; 99; 114; 51; 116]; None]) (Returns 0) ∈ logged_in.1.
Proof. apply list_elem_of_In. vm_compute. tauto. Qed.
Example refused : (run_probe ["user"] [secret] [asks [password]; Returns 7]).2 = Done 5 /\
  calls (run_probe ["user"] [secret] [asks [password]; Returns 7]).1 = [(Start, 0); (Authenticate, 7); (End, 0)].
Proof. vm_compute. done. Qed.


(** An answer copied before a message of an unknown style: the array is freed, the copy of the
    password is not, and no pointer leads to it any more. *)
Lemma answers_lost : exists tr r g, runs (converse true (mkConversation (Some [password; mkMessage (OtherStyle 5) []]) true)) tr r /\
  r = Done (PAM_CONV_ERR, []) /\ observe keep (mkCustody true None None NoBuffer false None 0) tr = Some (mkCustody true g None NoBuffer false None 1).
Proof.
  set (p := converse true (mkConversation (Some [password; mkMessage (OtherStyle 5) []]) true)).
  exists (run desk p ([secret], [])).1, (run desk p ([secret], [])).2, (Some (mkTermios 35387 [])). split; [apply run_runs|]. split; vm_compute; reflexivity.
Qed.

(** A session that cannot be opened: the credentials established before are not deleted. *)
Lemma credentials_left : exists tr, runs (main 3 ["user"%string]) tr (Done 5) /\
  calls tr = [(Start, 0); (Authenticate, 0); (AcctMgmt, 0); (EstablishCred, 0); (OpenSession, 14); (End, 0)].
Proof.
  set (t := run_probe ["user"] [] [Returns 0; Returns 0; Returns 0; Returns 14]).
  exists t.1. split; [exact (run_runs desk (main 3 ["user"%string]) ([], [Returns 0; Returns 0; Returns 0; Returns 14]))|]. vm_compute. reflexivity.
Qed.
