(* ===== verification/LinuxProbes.v ===== *)
(** * LinuxProbes: three short probes of the Linux side

    - [Nvenc]: probes/nvenc/plank-probe-nvenc.cpp, what the hardware encoder supports;
    - [Tablets]: probes/wacom/plank-probe-wacom.cpp, the tablets among the event devices;
    - [CameraCapture]: probes/linux/native-camera-capture.cpp, frames of a camera with key frames
      on request.

    Each is a program over its calls ([Calls]): drivers, the kernel and the camera module (a git
    submodule) are the environment. *)

From S2P Require Import Prelude.
From S2P Require Import Endian.
From S2P Require Import Calls.
#[local] Open Scope Z_scope.

(** ** The hardware encoder *)

Module Nvenc.

(** Constants of the encoder's headers. *)
Class EncoderSDK := {
  FREXT_GUID : list Z;                       (* NV_ENC_HEVC_PROFILE_FREXT_GUID, sixteen bytes *)
  YUV444_10BIT : Z }.                        (* NV_ENC_BUFFER_FORMAT_YUV444_10BIT *)

Inductive capability :=
  | SUPPORT_10BIT_ENCODE | SUPPORT_YUV444_ENCODE | SUPPORT_YUV422_ENCODE | SUPPORT_INTRA_REFRESH | SUPPORT_REF_PIC_INVALIDATION
  | SINGLE_SLICE_INTRA_REFRESH | NUM_ENCODER_ENGINES | WIDTH_MAX | HEIGHT_MAX.

Inductive handle := CudaFunctions | NvencFunctions | Context | Encoder.
#[export] Instance nvenc_handle_eq_dec : EqDecision handle.
Proof. solve_decision. Defined.

(** Statuses are zero for success. *)
Inductive request :=
  | LoadFunctions (h : handle)
  | CuInit | CuDeviceGet | CuDeviceGetName
  | CuCtxCreate
  | GetMaxSupportedVersion
  | CreateInstance
  | OpenSession                              (* the status, and whether a call that failed stored an encoder *)
  | ProfileCount | Profiles (count : Z)      (* the status and the number, the identifiers *)
  | FormatCount | Formats (count : Z)
  | GetCaps (c : capability)                 (* the status and the value *)
  | Free (h : handle).
Definition answers (c : request) : Type :=
  match c with
  | OpenSession => Z * bool
  | ProfileCount | FormatCount | GetCaps _ => Z * Z
  | Profiles _ => Z * list (list Z)
  | Formats _ => Z * list Z
  | Free _ => unit
  | _ => Z
  end.

#[local] Abbreviation proc := (Calls.proc answers).
#[local] Abbreviation ask := (Calls.call (ans := answers)).
#[local] Abbreviation event := (Calls.event answers).

#[export] Instance nvenc_handling : Handling answers handle := {
  handle_eq_dec := _;
  made c := match c with
    | LoadFunctions h => fun s => if s =? 0 then [h] else []
    | CuCtxCreate => fun s => if s =? 0 then [Context] else []
    | OpenSession => fun a => if (a.1 =? 0) || a.2 then [Encoder] else []
    | _ => fun _ => []
    end;
  freed c := match c with Free h => [h] | _ => [] end;
  needed c := match c with
    | CuInit | CuDeviceGet | CuDeviceGetName | CuCtxCreate => [CudaFunctions]
    | GetMaxSupportedVersion | CreateInstance => [NvencFunctions]
    | OpenSession => [Context; NvencFunctions]
    | ProfileCount | Profiles _ | FormatCount | Formats _ | GetCaps _ => [Encoder]
    | _ => []
    end;
  parents h := match h with Context => [CudaFunctions] | Encoder => [Context; NvencFunctions] | _ => [] end;
  dies_with _ := [] }.

Section probe.
Context `{!EncoderSDK}.

Definition guid_equal (left right : list Z) : bool := bool_decide (left = right).

Definition query_capability (c : capability) (minimum : Z) : proc bool :=
  '(status, value) ← ask (GetCaps c);
  mret (if negb (status =? 0) then false else minimum <=? value).

(** A vector of [count] elements with what the driver filled in; the rest stays zero. *)
Definition filled {A} (zero : A) (count : Z) (stored : list A) : list A := take (Z.to_nat count) (stored ++ replicate (Z.to_nat count) zero).

Definition has_frext_profile : proc bool :=
  '(status, count) ← ask ProfileCount;
  if negb (status =? 0) then mret false else
  '(status, stored) ← ask (Profiles count);
  mret (if negb (status =? 0) then false
        else fold_left (fun has profile => has || guid_equal profile FREXT_GUID) (filled (replicate 16 0) count stored) false).
Definition has_yuv444_10bit : proc bool :=
  '(status, count) ← ask FormatCount;
  if negb (status =? 0) then mret false else
  '(status, stored) ← ask (Formats count);
  mret (if negb (status =? 0) then false
        else fold_left (fun has format => has || (format =? YUV444_10BIT)) (filled 0 count stored) false).

(** Every capability is asked for, whatever came before. *)
Fixpoint query_all (cs : list (capability * Z * bool)) (passed : bool) : proc bool :=
  match cs with
  | [] => mret passed
  | (c, minimum, required) :: cs =>
      ok ← query_capability c minimum;
      query_all cs (if required : bool then ok && passed else passed)
  end.
(** The capability, the least value and whether it decides. *)
Definition capabilities : list (capability * Z * bool) :=
  [(SUPPORT_10BIT_ENCODE, 1, true); (SUPPORT_YUV444_ENCODE, 1, true); (SUPPORT_YUV422_ENCODE, 0, false); (SUPPORT_INTRA_REFRESH, 1, true);
   (SUPPORT_REF_PIC_INVALIDATION, 1, true); (SINGLE_SLICE_INTRA_REFRESH, 1, true); (NUM_ENCODER_ENGINES, 1, true);
   (WIDTH_MAX, 3840, true); (HEIGHT_MAX, 2160, true)].

Definition query_encoder : proc Z :=
  has_frext ← has_frext_profile;
  has_yuv444 ← has_yuv444_10bit;
  passed ← query_all capabilities (has_frext && has_yuv444);
  ask (Free Encoder);;
  mret (if passed : bool then 0 else 8).

(** What has been acquired when the cleanup is reached. *)
Record held := mkHeld { cuda : bool; loader : bool; context : bool; encoder : bool }.
(** Freeing a list of functions that was not loaded does nothing. *)
Definition cleanup (h : held) : proc unit :=
  (if encoder h && loader h then
     status ← ask CreateInstance;
     if status =? 0 then ask (Free Encoder) else mret tt
   else mret tt);;
  (if loader h then ask (Free NvencFunctions) else mret tt);;
  (if context h && cuda h then ask (Free Context) else mret tt);;
  (if cuda h then ask (Free CudaFunctions) else mret tt).

Definition use_session (h : held) : proc (Z * held) :=
  status ← ask CreateInstance;
  if negb (status =? 0) then mret (6, h) else
  '(status, stored) ← ask OpenSession;
  if negb (status =? 0) then mret (7, mkHeld (cuda h) (loader h) (context h) stored) else
  result ← query_encoder;
  mret (result, h).
Definition use_loader (h : held) : proc (Z * held) :=
  status ← ask (LoadFunctions NvencFunctions);
  if negb (status =? 0) then mret (4, h) else
  let h := mkHeld (cuda h) true (context h) false in
  status ← ask GetMaxSupportedVersion;
  if negb (status =? 0) then mret (5, h) else use_session h.
Definition use_device (h : held) : proc (Z * held) :=
  device ← ask CuDeviceGet;
  if negb (device =? 0) then mret (3, h) else
  name ← ask CuDeviceGetName;
  if negb (name =? 0) then mret (3, h) else
  created ← ask CuCtxCreate;
  if negb (created =? 0) then mret (3, h) else use_loader (mkHeld (cuda h) false true false).
Definition use_cuda : proc (Z * held) :=
  loaded ← ask (LoadFunctions CudaFunctions);
  if negb (loaded =? 0) then mret (2, mkHeld false false false false) else
  let h := mkHeld true false false false in
  started ← ask CuInit;
  if negb (started =? 0) then mret (2, h) else use_device h.
Definition main : proc Z := '(result, h) ← use_cuda; cleanup h;; mret result.
End probe.
End Nvenc.

(** ** The tablets *)

Module Tablets.

Definition EV_KEY : Z := 1.
Definition EV_ABS : Z := 3.
Definition EV_MAX : Z := 31.
Definition KEY_MAX : Z := 767.
Definition ABS_MAX : Z := 63.
Definition BTN_TOOL_PEN : Z := 320.
Definition BTN_TOOL_RUBBER : Z := 321.
Definition BTN_TOOL_FINGER : Z := 325.

Record input_id := mkId { bustype : Z; vendor : Z; product : Z; version : Z }.
Record absinfo := mkAbs { minimum : Z; maximum : Z; resolution : Z }.

Inductive line :=
  | DeviceLine (path name : string) (identifier : input_id)
  | ToolLine (tablet_tool eraser touch keys absolute : bool)
  | AxisLine (name : string) (range : absinfo)
  | CountLine (devices : Z).

Inductive request :=
  | Opendir                                   (* the names it will read *)
  | Open (path : string)                      (* the descriptor *)
  | GetName (fd : Z) | GetId (fd : Z)
  | GetBit (fd event_type words : Z)          (* EVIOCGBIT into so many words *)
  | GetAbs (fd axis : Z)
  | Close (fd : Z) | Closedir
  | Print (l : line).
Definition answers (c : request) : Type :=
  match c with
  | Opendir => option (list string)
  | Open _ => Z
  | GetName _ => option string
  | GetId _ => option input_id
  | GetBit _ _ _ => option (list Z)
  | GetAbs _ _ => option absinfo
  | Close _ | Closedir | Print _ => unit
  end.

#[local] Abbreviation proc := (Calls.proc answers).
#[local] Abbreviation ask := (Calls.call (ans := answers)).
#[local] Abbreviation event := (Calls.event answers).

Definition bits_per_word : Z := 64.
Definition bit_is_set (bits : list Z) (bit : Z) : bool :=
  match bits !! Z.to_nat (bit / bits_per_word) with
  | Some word => negb (Z.land word (u64 (Z.shiftl 1 (bit mod bits_per_word))) =? 0)
  | None => false
  end.

(** The vector is emptied when the call fails. *)
Definition get_bits (fd event_type maximum : Z) : proc (list Z) :=
  a ← ask (GetBit fd event_type (maximum / bits_per_word + 1));
  mret (default [] a).

Definition print_absolute_axis (fd : Z) (absolute_bits : list Z) (axis : Z) (name : string) : proc unit :=
  if negb (bit_is_set absolute_bits axis) then mret tt else
  information ← ask (GetAbs fd axis);
  match information with Some i => ask (Print (AxisLine name i)) | None => mret tt end.

Definition axes : list (Z * string) :=
  [(0, "x"); (1, "y"); (24, "pressure"); (25, "distance"); (26, "tilt_x"); (27, "tilt_y"); (8, "wheel")]%string.
Fixpoint print_axes (fd : Z) (absolute_bits : list Z) (names : list (Z * string)) : proc unit :=
  match names with
  | [] => mret tt
  | (axis, name) :: names => print_absolute_axis fd absolute_bits axis name;; print_axes fd absolute_bits names
  end.

Definition wacom_name (name : string) : bool := match String.index 0 "Wacom" name with Some _ => true | None => false end.
Definition is_wacom (identifier : input_id) (name : string) : bool := (vendor identifier =? 0x056a) || wacom_name name.

Definition print_device (fd : Z) (path name : string) (identifier : input_id) : proc unit :=
  ask (Print (DeviceLine path name identifier));;
  event_bits ← get_bits fd 0 EV_MAX;
  key_bits ← get_bits fd EV_KEY KEY_MAX;
  absolute_bits ← get_bits fd EV_ABS ABS_MAX;
  ask (Print (ToolLine (bit_is_set key_bits BTN_TOOL_PEN) (bit_is_set key_bits BTN_TOOL_RUBBER) (bit_is_set key_bits BTN_TOOL_FINGER)
                       (bit_is_set event_bits EV_KEY) (bit_is_set event_bits EV_ABS)));;
  print_axes fd absolute_bits axes.

(** What is known of an open device; the identifier is not asked for when the name fails. *)
Definition identify (fd : Z) : proc (option (string * input_id)) :=
  name ← ask (GetName fd);
  match name with
  | None => mret None
  | Some name => identifier ← ask (GetId fd); mret (match identifier with Some i => Some (name, i) | None => None end)
  end.

(** Whether the entry is a tablet. *)
Definition inspect (filename : string) : proc bool :=
  if negb (String.prefix "event" filename) then mret false else
  let path := ("/dev/input/" ++ filename)%string in
  fd ← ask (Open path);
  if fd <? 0 then mret false else
  known ← identify fd;
  match known with
  | Some (name, identifier) =>
      if is_wacom identifier name then print_device fd path name identifier;; ask (Close fd);; mret true
      else ask (Close fd);; mret false
  | None => ask (Close fd);; mret false
  end.

Fixpoint entry_loop (entries : list string) (matching_devices : Z) : proc Z :=
  match entries with
  | [] => mret matching_devices
  | e :: entries => found ← inspect e; entry_loop entries (if found : bool then s32 (matching_devices + 1) else matching_devices)
  end.
Definition main : proc Z :=
  entries ← ask Opendir;
  match entries with
  | None => mret 2
  | Some entries =>
      matching_devices ← entry_loop entries 0;
      ask Closedir;;
      ask (Print (CountLine matching_devices));;
      mret (if 0 <? matching_devices then 0 else 3)
  end.
End Tablets.

(** ** What the encoder probe passes *)

Module NvencFacts.
Import Nvenc.

Section gate.
Context {sdk : EncoderSDK}.
#[local] Abbreviation event := (Calls.event answers).

(** The answers a supporting driver gives. *)
Definition required (c : capability) : option Z :=
  match c with SUPPORT_YUV422_ENCODE => None | WIDTH_MAX => Some 3840 | HEIGHT_MAX => Some 2160 | _ => Some 1 end.
Definition sound (c : request) : answers c -> bool :=
  match c return answers c -> bool with
  | OpenSession => fun a => a.1 =? 0
  | ProfileCount | FormatCount => fun a => a.1 =? 0
  | Profiles count => fun a => (a.1 =? 0) && bool_decide (FREXT_GUID ∈ filled (replicate 16 0) count a.2)
  | Formats count => fun a => (a.1 =? 0) && bool_decide (YUV444_10BIT ∈ filled 0 count a.2)
  | GetCaps c => fun a => match required c with Some least => (a.1 =? 0) && (least <=? a.2) | None => true end
  | Free _ => fun _ => true
  | LoadFunctions _ | CuInit | CuDeviceGet | CuDeviceGetName | CuCtxCreate | GetMaxSupportedVersion | CreateInstance => fun s => s =? 0
  end.
Definition sound_event (e : event) : bool := match e with existT c a => sound c a end.
Definition asked : list event -> list capability := flat_map (fun e => match projT1 e with GetCaps c => [c] | _ => [] end).

(** Whether every answer was sound so far, and what was asked for. *)
Definition judge (m : bool * list capability) (c : request) (a : answers c) : option (bool * list capability) :=
  Some (m.1 && sound c a, m.2 ++ match c with GetCaps c => [c] | _ => [] end).
#[local] Abbreviation judging := (wp judge).

Lemma nvenc_observe m tr : observe judge m tr = Some (m.1 && forallb sound_event tr, m.2 ++ asked tr).
Proof.
  revert m. induction tr as [|[c a] tr IH]; intros [b l]; cbn; [by rewrite andb_true_r, app_nil_r|].
  rewrite IH. cbn. by rewrite andb_assoc, <- app_assoc.
Qed.

Lemma fold_has {A} (f : A -> bool) (l : list A) has : fold_left (fun has x => has || f x) l has = has || existsb f l.
Proof. revert has. induction l as [|x l IH]; intros has; cbn; [by rewrite orb_false_r|]. by rewrite IH, orb_assoc. Qed.
Lemma existsb_eq {A} `{EqDecision A} (f : A -> bool) (y : A) l : (forall x, f x = bool_decide (x = y)) -> existsb f l = bool_decide (y ∈ l).
Proof.
  intros Hf. apply eq_true_iff_eq. rewrite existsb_exists, bool_decide_eq_true. setoid_rewrite Hf. split.
  - intros (x & Hx & ->%bool_decide_eq_true). by apply list_elem_of_In.
  - intros Hy. exists y. split; [by apply list_elem_of_In|by apply bool_decide_eq_true].
Qed.

Lemma has_frext_judged b l : judging has_frext_profile (fun has m => m = (b && has, l)) (b, l).
Proof.
  unfold has_frext_profile. intros [s count]. cbn. rewrite app_nil_r. destruct (s =? 0); cbn; [|done].
  intros [s' stored]. cbn. rewrite app_nil_r, andb_true_r. destruct (s' =? 0); cbn; [|done].
  rewrite fold_has. cbn. by rewrite (existsb_eq _ FREXT_GUID).
Qed.
Lemma has_yuv444_judged b l : judging has_yuv444_10bit (fun has m => m = (b && has, l)) (b, l).
Proof.
  unfold has_yuv444_10bit. intros [s count]. cbn. rewrite app_nil_r. destruct (s =? 0); cbn; [|done].
  intros [s' stored]. cbn. rewrite app_nil_r, andb_true_r. destruct (s' =? 0); cbn; [|done].
  rewrite fold_has. cbn. rewrite (existsb_eq _ YUV444_10BIT); [done|]. intros x. destruct (Z.eqb_spec x YUV444_10BIT); [by rewrite bool_decide_true|by rewrite bool_decide_false].
Qed.

Lemma query_all_judged cs b l : Forall (fun x => required x.1.1 = if x.2 : bool then Some x.1.2 else None) cs ->
  judging (query_all cs b) (fun passed m => m = (passed, l ++ map (fun x => x.1.1) cs)) (b, l).
Proof.
  intros Hcs. revert b l. induction Hcs as [|[[c least] needed] cs Hc Hcs IH]; intros b l; cbn [query_all].
  { cbn. by rewrite app_nil_r. }
  cbn in Hc. intros [s v]. cbn. rewrite Hc.
  replace (b && match (if needed then Some least else None) with Some least0 => (s =? 0) && (least0 <=? v) | None => true end)
    with (if needed then (if negb (s =? 0) then false else least <=? v) && b else b) by (destruct needed; [destruct (s =? 0); cbn; [apply andb_comm|by rewrite andb_false_r]|by rewrite andb_true_r]).
  eapply wp_mono; [apply IH|]. intros passed m ->. f_equal. by rewrite <- app_assoc.
Qed.

Lemma query_encoder_judged : judging query_encoder (fun r m => (r = 0 <-> m = (true, map (fun x => x.1.1) capabilities))) (true, []).
Proof.
  unfold query_encoder. eapply wp_then; [apply has_frext_judged|]. intros f ? ->. eapply wp_then; [apply has_yuv444_judged|]. intros y ? ->.
  eapply wp_then; [apply query_all_judged; repeat constructor|]. intros passed ? -> []. cbn [fst snd app judge sound]. rewrite app_nil_r, andb_true_r.
  destruct passed; split; intros Hr; try done; by injection Hr.
Qed.

Definition full : bool * list capability := (true, map (fun x => x.1.1) capabilities).
Lemma use_cuda_judged : judging use_cuda (fun '(r, h) m => (r = 0 <-> m = full) /\ (encoder h = true -> m.1 = false)) (true, []).
Proof.
  unfold use_cuda, use_device, use_loader, use_session.
  do 8 (let s := fresh "s" in intros s; cbn; destruct (s =? 0); cbn; [|by split]).
  intros [t' stored]. cbn. destruct (t' =? 0); cbn; [|by split].
  change (judging (query_encoder ≫= fun r => mret (r, mkHeld true true true false)) (fun '(r, h) m => (r = 0 <-> m = full) /\ (encoder h = true -> m.1 = false)) (true, [])).
  eapply wp_then; [apply query_encoder_judged|]. intros r m Hr. by split.
Qed.

Lemma cleanup_judged h r m : (r = 0 <-> m = full) -> (encoder h = true -> m.1 = false) -> judging (cleanup h) (fun _ m => r = 0 <-> m = full) m.
Proof.
  destruct h as [c o x e], m as [b l]. intros Hr He. unfold cleanup. cbn [encoder loader context cuda fst] in *.
  assert (forall b', (r = 0 <-> (b, l) = full) -> e = true -> (r = 0 <-> (b && b', l ++ []) = full)) as Hkeep.
  { intros b' H0 H1. rewrite (He H1) in *. rewrite H0. split; intros [=]. }
  destruct e, o; cbn [andb].
  1: intros s; cbn; specialize (Hkeep (s =? 0) Hr eq_refl); destruct (s =? 0).
  all: destruct c, x; cbn; intros; rewrite ?app_nil_r, ?andb_true_r in *; done.
Qed.

(** The hardware encoder's probe.  In every environment 0 is returned exactly when every
    answer was a success, the profiles include the range extensions, the input formats the
    ten-bit 4:4:4 one, and each of the nine capabilities was asked for once, in order, with the
    required ones at least their least value; the capability of 4:2:2 does not decide. *)
Theorem nvenc_gate tr r : runs main tr r -> r = 0 <-> forallb sound_event tr = true /\ asked tr = map (fun x => x.1.1) capabilities.
Proof.
  intros Hrun. assert (judging main (fun r m => r = 0 <-> m = full) (true, [])) as Hwp.
  { unfold main. eapply wp_then; [apply use_cuda_judged|]. intros [r' h] m [Hr He]. eapply wp_then; [by apply (cleanup_judged h r')|]. done. }
  destruct (wp_sound _ _ _ _ _ _ Hwp Hrun) as (m & Ho & Hr). rewrite nvenc_observe in Ho. injection Ho as <-. cbn [fst snd andb app] in Hr.
  rewrite Hr. split; [by intros [= -> ->]|by intros [-> ->]].
Qed.
End gate.

(** *** Handles *)

Section handles.
Context {sdk : EncoderSDK}.

(** The monitor of handles, up to an encoder that could not be destroyed: the session was refused
    with an encoder stored, and the driver then refuses the instance it gave before. *)
Definition lenient (m : option (list handle)) (c : request) (a : answers c) : option (option (list handle)) :=
  match m with
  | None => Some None
  | Some live =>
      let refused := match c return answers c -> bool with CreateInstance => fun s => negb (s =? 0) && bool_decide (Encoder ∈ live) | _ => fun _ => false end a in
      if refused then Some None else Some <$> handling live c a
  end.

Lemma lenient_handling live tr m : observe lenient (Some live) tr = Some m ->
  (exists live', m = Some live' /\ observe handling live tr = Some live') \/ exists s, s <> 0 /\ existT CreateInstance s ∈ tr.
Proof.
  revert live. induction tr as [|[c a] tr IH]; intros live Ho; [injection Ho as <-; left; by exists live|].
  cbn [observe lenient] in Ho. destruct (match c return answers c -> bool with CreateInstance => _ | _ => _ end a) eqn:E; cbn [mbind option_bind] in Ho.
  - right. destruct c; try done. apply andb_true_iff in E as [E _]. exists a. split; [by intros ->|left].
  - cbn [observe]. destruct (handling live c a) as [live'|]; [|done]. cbn [fmap option_fmap option_map mbind option_bind] in Ho.
    destruct (IH _ Ho) as [?|(s & ? & ?)]; [by left|]. right. exists s. split; [done|by right].
Qed.

Definition ready : list handle := [Encoder; NvencFunctions; Context; CudaFunctions].
(** Queries change nothing. *)
Lemma query_lenient {A} (p : proc answers A) : (forall Q : A -> _ -> Prop, (forall a, Q a (Some ready)) -> wp lenient p Q (Some ready)) ->
  forall B (f : A -> proc answers B) (Q : B -> _ -> Prop), (forall a, wp lenient (f a) Q (Some ready)) -> wp lenient (p ≫= f) Q (Some ready).
Proof. intros Hp B f Q Hf. by apply wp_bind, Hp. Qed.
Lemma query_all_lenient cs passed Q : (forall a, Q a (Some ready)) -> wp lenient (query_all cs passed) Q (Some ready).
Proof.
  intros HQ. revert passed. induction cs as [|[[c least] needed] cs IH]; intros passed; [apply HQ|].
  cbn [query_all]. unfold query_capability. intros [s v]. destruct needed; apply IH.
Qed.
Lemma query_encoder_lenient : wp lenient query_encoder (fun _ m => m = Some [NvencFunctions; Context; CudaFunctions]) (Some ready).
Proof.
  unfold query_encoder. apply query_lenient; [|intros f; apply query_lenient; [|intros y; apply query_lenient; [apply query_all_lenient|by intros passed []]]].
  - intros Q HQ [s count]. cbn. destruct (s =? 0); [|apply HQ]. intros [s' l]. apply HQ.
  - intros Q HQ [s count]. cbn. destruct (s =? 0); [|apply HQ]. intros [s' l]. apply HQ.
Qed.

(** What is live goes with what the cleanup is told. *)
Definition live_of (h : held) : list handle :=
  (if encoder h then [Encoder] else []) ++ (if loader h then [NvencFunctions] else []) ++ (if context h then [Context] else []) ++ (if cuda h then [CudaFunctions] else []).
Definition proper (h : held) : bool := implb (encoder h) (loader h) && implb (loader h) (context h) && implb (context h) (cuda h).

Lemma cleanup_lenient h : proper h = true -> wp lenient (cleanup h) (fun _ m => m = None \/ m = Some []) (Some (live_of h)).
Proof.
  destruct h as [[] [] [] []]; try done; intros _.
  all: unfold cleanup; cbn [encoder loader context cuda]; ask_all; auto; done.
Qed.

Ltac open_status a :=
  lazymatch type of a with
  | answers OpenSession => let s := fresh "s" in let b := fresh "b" in destruct a as [s b]; destruct s, b
  | _ => split_answer a
  end.
Ltac ask_lenient := ask_with ltac:(fun a => open_status a) ltac:(fun x => let y := eval vm_compute in x in change x with y); try done.
Definition left_by (a : Z * held) (m : option (list handle)) : Prop := proper a.2 = true /\ m = Some (live_of a.2).

Lemma use_session_lenient : wp lenient (use_session (mkHeld true true true false)) left_by (Some [NvencFunctions; Context; CudaFunctions]).
Proof. unfold use_session. ask_lenient. all: change [Encoder; NvencFunctions; Context; CudaFunctions] with ready; eapply wp_then; [apply query_encoder_lenient|]; by intros r ? ->. Qed.
Lemma use_loader_lenient : wp lenient (use_loader (mkHeld true false true false)) left_by (Some [Context; CudaFunctions]).
Proof. unfold use_loader. cbn [cuda context]. ask_lenient. apply use_session_lenient. Qed.
Lemma use_device_lenient : wp lenient (use_device (mkHeld true false false false)) left_by (Some [CudaFunctions]).
Proof. unfold use_device. cbn [cuda]. ask_lenient. apply use_loader_lenient. Qed.
Lemma use_cuda_lenient : wp lenient use_cuda left_by (Some []).
Proof. unfold use_cuda. ask_lenient. apply use_device_lenient. Qed.

(** Everything acquired is given back in order, wherever the probe stops. *)
Theorem nvenc_balanced tr r : runs main tr r -> balanced tr \/ exists s, s <> 0 /\ existT CreateInstance s ∈ tr.
Proof.
  intros Hrun. assert (wp lenient main (fun _ m => m = None \/ m = Some []) (Some [])) as Hwp.
  { unfold main. eapply wp_then; [apply use_cuda_lenient|]. intros [r' h] ? [Hh ->]. eapply wp_then; [by apply cleanup_lenient|]. done. }
  destruct (wp_sound _ _ _ _ _ _ Hwp Hrun) as (m & Ho & Hm). destruct (lenient_handling _ _ _ Ho) as [(live & -> & Hl)|?]; [|by right].
  left. destruct Hm as [Hm|Hm]; [done|]. by injection Hm as ->.
Qed.
End handles.

(** *** Runs *)

Section runs.
#[local] Instance test_sdk : EncoderSDK := { FREXT_GUID := replicate 16 7; YUV444_10BIT := 64 }.

(** A driver with the given profiles and a greatest width; it announces three profiles. *)
Definition driver (profiles : list (list Z)) (width : Z) (c : request) : answers c :=
  match c return answers c with
  | OpenSession => (0, false)
  | ProfileCount => (0, 3) | Profiles _ => (0, profiles)
  | FormatCount => (0, 2) | Formats _ => (0, [1; 64])
  | GetCaps WIDTH_MAX => (0, width) | GetCaps HEIGHT_MAX => (0, 8192) | GetCaps SUPPORT_YUV422_ENCODE => (0, 0) | GetCaps _ => (0, 1)
  | Free _ => tt
  | LoadFunctions _ | CuInit | CuDeviceGet | CuDeviceGetName | CuCtxCreate | GetMaxSupportedVersion | CreateInstance => 0
  end.
Definition run_driver (profiles : list (list Z)) (width : Z) : list (event answers) * Z := exec (driver profiles width) main.

Example supported : (run_driver [[1]; replicate 16 7] 8192).2 = 0.
Proof. vm_compute. reflexivity. Qed.
Example narrow : (run_driver [[1]; replicate 16 7] 3839).2 = 8.
Proof. vm_compute. reflexivity. Qed.
Example no_range_extensions : (run_driver [[1]; [2]] 8192).2 = 8.
Proof. vm_compute. reflexivity. Qed.

Lemma nvenc_gate_witness :
  let t := run_driver [[1]; replicate 16 7] 8192 in
  runs main t.1 t.2 /\ (t.2 = 0 <-> forallb sound_event t.1 = true /\ asked t.1 = map (fun x => x.1.1) capabilities) /\ t.2 = 0.
Proof. intros t. split; [apply run_runs|]. split; [apply nvenc_gate; apply run_runs|vm_compute; reflexivity]. Defined.
End runs.
End NvencFacts.

(** ** The tablets that are listed *)

Module TabletFacts.
Import Tablets.

#[local] Abbreviation event := (Calls.event answers).

(** The value of the words, the low one first. *)
Fixpoint bits_value (words : list Z) : Z := match words with [] => 0 | w :: words => w + 2 ^ 64 * bits_value words end.

Lemma bits_value_nonneg words : Forall (in_range 64) words -> 0 <= bits_value words.
Proof. induction 1 as [|w words Hw _ IH]; cbn [bits_value]; [done|]. ranges. lia. Qed.

Lemma land_bit w k : 0 <= k -> negb (Z.land w (Z.shiftl 1 k) =? 0) = Z.testbit w k.
Proof.
  intros Hk. rewrite Z.shiftl_1_l. assert (Z.land w (2 ^ k) = if Z.testbit w k then 2 ^ k else 0) as ->.
  { apply Z.bits_inj'. intros i Hi. rewrite Z.land_spec, Z.pow2_bits_eqb by done. destruct (Z.eqb_spec k i) as [->|Hne].
    - destruct (Z.testbit w i); [by rewrite Z.pow2_bits_true|by rewrite Z.bits_0].
    - rewrite andb_false_r. destruct (Z.testbit w k); [|by rewrite Z.bits_0]. by rewrite Z.pow2_bits_false. }
  destruct (Z.testbit w k); [|done]. rewrite (proj2 (Z.eqb_neq _ _)); [done|]. pose proof (Z.pow_pos_nonneg 2 k). lia.
Qed.

(** The test is that of the bit in the value; bits beyond the words are not set. *)
Lemma bit_is_set_testbit words bit : Forall (in_range 64) words -> 0 <= bit -> bit_is_set words bit = Z.testbit (bits_value words) bit.
Proof.
  unfold bit_is_set, bits_per_word. intros Hw. revert bit. induction Hw as [|w words Hw Hws IH]; intros bit Hb.
  { cbn. by rewrite Z.testbit_0_l. }
  pose proof (bits_value_nonneg words Hws) as Hn. cbn [bits_value]. rewrite Z.add_comm, Z.mul_comm, <- lor_shiftl_add by done.
  rewrite Z.lor_spec, Z.shiftl_spec by lia. pose proof (Z.mod_pos_bound bit 64 ltac:(lia)) as Hm. destruct (Z.ltb_spec bit 64) as [Hlt|Hge].
  - rewrite Z.div_small, Z.mod_small by lia. cbn [lookup list_lookup Z.to_nat]. rewrite (Z.testbit_neg_r _ (bit - 64)) by lia. cbn [orb].
    rewrite wrap_small; [by apply land_bit|]. rewrite Z.shiftl_1_l. split; [lia|]. apply Z.pow_lt_mono_r; lia.
  - rewrite (testbit_high w 64 bit), orb_false_r by done. rewrite <- IH by lia.
    assert (bit / 64 = (bit - 64) / 64 + 1 /\ bit mod 64 = (bit - 64) mod 64) as [-> ->].
    { split; [rewrite <- Z.div_add by lia|rewrite <- (Z.mod_add (bit - 64) 1 64) by lia]; f_equal; lia. }
    assert (0 <= (bit - 64) / 64) by (apply Z.div_pos; lia). by rewrite Z2Nat.inj_add, Nat.add_comm by lia.
Qed.

(** What the program prints. *)
Definition printed : list event -> list line := flat_map (fun e => match projT1 e with Print l => [l] | _ => [] end).
Lemma printed_app tr1 tr2 : printed (tr1 ++ tr2) = printed tr1 ++ printed tr2.
Proof. apply flat_map_app. Qed.

(** The event devices as the kernel has them: the names in the directory, the descriptor a path
    opens with, and by descriptor what the device answers. *)
Section kernel.
Context (entries : option (list string)) (descriptor : string -> Z) (name : Z -> option string) (id : Z -> option input_id)
  (bits : Z -> Z -> option (list Z)) (absolute : Z -> Z -> option absinfo).

Definition input_kernel (c : request) : answers c :=
  match c return answers c with
  | Opendir => entries
  | Open path => descriptor path
  | GetName fd => name fd
  | GetId fd => id fd
  | GetBit fd type _ => bits fd type
  | GetAbs fd axis => absolute fd axis
  | Close _ | Closedir | Print _ => tt
  end.

Definition has (fd type bit : Z) : bool := bit_is_set (default [] (bits fd type)) bit.
(** The lines about a tablet. *)
Definition axis_lines (fd : Z) (names : list (Z * string)) : list line :=
  flat_map (fun '(axis, n) => if has fd EV_ABS axis then match absolute fd axis with Some i => [AxisLine n i] | None => [] end else []) names.
Definition tablet_lines (fd : Z) (path n : string) (i : input_id) : list line :=
  DeviceLine path n i ::
  ToolLine (has fd EV_KEY BTN_TOOL_PEN) (has fd EV_KEY BTN_TOOL_RUBBER) (has fd EV_KEY BTN_TOOL_FINGER) (has fd 0 EV_KEY) (has fd 0 EV_ABS) ::
  axis_lines fd axes.
(** The lines of an entry that is a tablet: an event device that opens, tells its name and its
    identifier, and is of the vendor or has its name. *)
Definition tablet (e : string) : option (list line) :=
  let path := ("/dev/input/" ++ e)%string in
  let fd := descriptor path in
  if String.prefix "event" e && (0 <=? fd) then
    n ← name fd; i ← id fd; if is_wacom i n then Some (tablet_lines fd path n i) else None
  else None.

(** Running step by step. *)
Ltac exec_steps :=
  repeat first
    [ rewrite exec_bind
    | match goal with |- context [exec ?t (call ?c)] => change (exec t (call c)) with ([existT c (t c)], t c) end
    | match goal with |- context [exec ?t (mret ?a)] => change (exec t (mret a)) with (@nil event, a) end
    | progress (cbn [fst snd input_kernel]) ].

Lemma print_axes_lines fd names : printed (exec input_kernel (print_axes fd (default [] (bits fd EV_ABS)) names)).1 = axis_lines fd names.
Proof.
  induction names as [|[axis n] names IH]; [done|]. cbn [print_axes]. rewrite exec_bind. cbn [fst]. rewrite printed_app, IH. cbn [axis_lines flat_map]. f_equal.
  unfold print_absolute_axis, has. destruct (bit_is_set _ axis); cbn [negb]; [|done]. exec_steps. by destruct (absolute fd axis).
Qed.

Lemma print_device_lines fd path n i : printed (exec input_kernel (print_device fd path n i)).1 = tablet_lines fd path n i.
Proof. unfold print_device, get_bits. exec_steps. rewrite !printed_app, print_axes_lines. done. Qed.

Lemma inspect_entry e : printed (exec input_kernel (inspect e)).1 = default [] (tablet e) /\ (exec input_kernel (inspect e)).2 = match tablet e with Some _ => true | None => false end.
Proof.
  unfold inspect, tablet. destruct (String.prefix "event" e); cbn [negb andb]; [|done]. set (path := ("/dev/input/" ++ e)%string). set (fd := descriptor path).
  exec_steps. fold fd. destruct (Z.ltb_spec fd 0) as [Hn|Hn]; [by rewrite (proj2 (Z.leb_gt 0 fd))|].
  rewrite (proj2 (Z.leb_le 0 fd)) by lia. unfold identify. exec_steps. destruct (name fd) as [n|]; [|by exec_steps]. exec_steps. destruct (id fd) as [i|]; [|by exec_steps].
  cbn [mbind option_bind]. destruct (is_wacom i n); [|by exec_steps]. exec_steps. split; [|done]. rewrite !printed_app, print_device_lines. cbn. by rewrite app_nil_r.
Qed.

Lemma entry_loop_lines es k : 0 <= k -> k + len es < 2 ^ 31 ->
  printed (exec input_kernel (entry_loop es k)).1 = flat_map (fun e => default [] (tablet e)) es /\ (exec input_kernel (entry_loop es k)).2 = k + len (omap tablet es).
Proof.
  revert k. induction es as [|e es IH]; intros k Hk Hl; [cbn; split; [done|lia]|]. cbn [entry_loop flat_map omap list_omap]. cbn [length] in Hl. exec_steps.
  destruct (inspect_entry e) as [Hp Hr]. rewrite printed_app, Hp, Hr. destruct (tablet e) as [l|].
  - rewrite (swrap_small 32 (k + 1)) by lia. destruct (IH (k + 1) ltac:(lia) ltac:(lia)) as [-> ->]. split; [done|]. cbn. lia.
  - by destruct (IH k Hk ltac:(lia)) as [-> ->].
Qed.

(** The tablet probe.  Whatever the event devices are, it prints for each directory entry, in
    order, the lines of a tablet exactly when the entry is one, with every axis whose bit is set
    and whose range the device tells; then their number; and the result is 0 exactly when there
    was one. *)
Theorem tablets_exact es : entries = Some es -> len es < 2 ^ 31 ->
  printed (exec input_kernel main).1 = flat_map (fun e => default [] (tablet e)) es ++ [CountLine (len (omap tablet es))] /\
  (exec input_kernel main).2 = if 0 <? len (omap tablet es) then 0 else 3.
Proof.
  intros He Hl. unfold main. exec_steps. rewrite He. exec_steps. destruct (entry_loop_lines es 0 ltac:(lia) Hl) as [Hp ->]. rewrite Z.add_0_l. split; [|done].
  rewrite !printed_app, Hp. done.
Qed.
End kernel.

(** Two devices and what is no device. *)
Definition shelf (fd : Z) : option string := if fd =? 3 then Some "Wacom Intuos Pro M Pen"%string else if fd =? 4 then Some "keyboard"%string else None.
Definition shelf_id (fd : Z) : option input_id := Some (mkId 3 (if fd =? 3 then 0x056a else 0x046d) 0x0357 1).
Definition shelf_bits (fd type : Z) : option (list Z) := Some (if type =? EV_KEY then replicate 5 0 ++ [3] else if type =? EV_ABS then [3] else [10]).
Definition shelf_open (path : string) : Z := if String.eqb path "/dev/input/event0" then 4 else if String.eqb path "/dev/input/event1" then 3 else -1.
Definition shelf_abs (fd axis : Z) : option absinfo := if axis =? 0 then Some (mkAbs 0 44800 200) else None.
Definition shelf_entries : list string := ["."; "event0"; "event1"; "mouse0"]%string.

Lemma tablets_exact_witness :
  let t := exec (input_kernel (Some shelf_entries) shelf_open shelf shelf_id shelf_bits shelf_abs) main in
  let tablet := tablet shelf_open shelf shelf_id shelf_bits shelf_abs in
  printed t.1 = flat_map (fun e => default [] (tablet e)) shelf_entries ++ [CountLine (len (omap tablet shelf_entries))] /\
  t.2 = (if 0 <? len (omap tablet shelf_entries) then 0 else 3) /\
  printed t.1 = [DeviceLine "/dev/input/event1" "Wacom Intuos Pro M Pen" (mkId 3 0x056a 0x0357 1); ToolLine true true false true true; AxisLine "x" (mkAbs 0 44800 200); CountLine 1].
Proof.
  split; [|split]; [| |vm_compute; reflexivity].
  all: apply (tablets_exact (Some shelf_entries) shelf_open shelf shelf_id shelf_bits shelf_abs shelf_entries); [reflexivity|vm_compute; reflexivity].
Defined.

(** Whatever is answered, every device is closed before the next is opened, and the directory. *)
Inductive handle := Directory | Device.
#[export] Instance tablet_handle_eq_dec : EqDecision handle.
Proof. solve_decision. Defined.
#[export] Instance tablet_handling : Handling answers handle := {
  handle_eq_dec := _;
  made c := match c with
    | Opendir => fun a => match a with Some _ => [Directory] | None => [] end
    | Open _ => fun fd => if fd <? 0 then [] else [Device]
    | _ => fun _ => []
    end;
  freed c := match c with Close _ => [Device] | Closedir => [Directory] | _ => [] end;
  needed c := match c with GetName _ | GetId _ | GetBit _ _ _ | GetAbs _ _ => [Device] | _ => [] end;
  parents _ := [];
  dies_with _ := [] }.

Lemma print_axes_balanced fd words names : wp handling (print_axes fd words names) (fun _ live => live = [Device; Directory]) [Device; Directory].
Proof.
  induction names as [|[axis n] names IH]; [done|]. cbn [print_axes]. unfold print_absolute_axis.
  eapply (wp_then _ _ _ (fun _ live => live = [Device; Directory])); [ask_all; reflexivity|]. intros _ ? ->. apply IH.
Qed.
Lemma inspect_balanced e : wp handling (inspect e) (fun _ live => live = [Directory]) [Directory].
Proof.
  unfold inspect, identify. ask_all; try done. all: unfold print_device, get_bits; ask_all.
  all: eapply wp_then; [apply print_axes_balanced|]; intros _ ? ->; ask_all; reflexivity.
Qed.
Theorem tablets_balanced tr r : runs main tr r -> balanced tr.
Proof.
  apply balanced_intro. unfold main. ask_all; [|done].
  eapply (wp_then _ _ _ (fun _ live => live = [Directory])); [|intros n ? ->; ask_all; reflexivity].
  generalize 0. induction x as [|e es IH]; intros k; [done|]. cbn [entry_loop].
  eapply wp_then; [apply inspect_balanced|]. intros found ? ->. apply IH.
Qed.
End TabletFacts.

(** ** Frames of a camera *)

Module CameraCapture.

Record frame := mkFrame { size : Z; captureTimeUs : Z; independent : bool; discontinuity : bool }.
Inductive read_result := Failed | Dropped | NotReady | Frame (f : frame).

(** What is printed at the end. *)
Inductive line :=
  | FramesLine (frames bytes keys discontinuities dropped span_us : Z) (restored : bool)
  | RequestsLine (requests recovered maximum_us : Z).

Inductive request :=
  | Alarm (seconds : Z)
  | Open (device : string) (h264 : bool) (width height : Z)
  | Now                                        (* steady_clock, in nanoseconds *)
  | Read
  | RequestKeyframe
  | Close
  | Print (l : line).
Definition answers (c : request) : Type :=
  match c with
  | Open _ _ _ _ | RequestKeyframe | Close => bool
  | Now => Z
  | Read => read_result
  | Alarm _ | Print _ => unit
  end.

#[local] Abbreviation proc := (Calls.proc answers).
#[local] Abbreviation ask := (Calls.call (ans := answers)).

(** The variables of [main]; [requestTime] is 0 while no request is pending. *)
Record State := mkState {
  frames : Z; dropped : Z; keys : Z; discontinuities : Z; requests : Z; recovered : Z;
  bytes : Z; first : Z; last : Z; requestTime : Z; maxRecoveryUs : Z }.
Definition initial : State := mkState 0 0 0 0 0 0 0 0 0 0 0.

(** The frame is counted. *)
Definition count_frame (f : frame) (s : State) : State :=
  mkState (u32 (frames s + 1)) (dropped s) (u32 (keys s + Z.b2z (independent f))) (u32 (discontinuities s + Z.b2z (discontinuity f)))
    (requests s) (recovered s) (u64 (bytes s + size f)) (if first s =? 0 then captureTimeUs f else first s) (captureTimeUs f) (requestTime s) (maxRecoveryUs s).
(** A key frame answers the pending request. *)
Definition recover (now : Z) (s : State) : State :=
  let delay := Z.quot (now - requestTime s) 1000 in
  mkState (frames s) (dropped s) (keys s) (discontinuities s) (requests s) (if delay <? 1000000 then u32 (recovered s + 1) else recovered s)
    (bytes s) (first s) (last s) 0 (if maxRecoveryUs s <? delay then delay else maxRecoveryUs s).
Definition requested (now : Z) (s : State) : State :=
  mkState (frames s) (dropped s) (keys s) (discontinuities s) (u32 (requests s + 1)) (recovered s) (bytes s) (first s) (last s) now (maxRecoveryUs s).
Definition count_drop (s : State) : State :=
  mkState (frames s) (u32 (dropped s + 1)) (keys s) (discontinuities s) (requests s) (recovered s) (bytes s) (first s) (last s) (requestTime s) (maxRecoveryUs s).

Definition on_frame (h264 : bool) (f : frame) (s : State) : proc State :=
  let s := count_frame f s in
  s ← (if independent f && negb (requestTime s =? 0) then now ← ask Now; mret (recover now s) else mret s);
  if h264 && ((frames s =? 20) || (frames s =? 40) || (frames s =? 60)) then
    accepted ← ask RequestKeyframe;
    if accepted : bool then now ← ask Now; mret (requested now s) else mret s
  else mret s.

(** [None]: the loop still runs after [n] rounds. *)
Fixpoint camera_loop (n : nat) (h264 : bool) (deadline : Z) (s : State) : proc (option State) :=
  if negb (frames s <? 90) then mret (Some s) else
  now ← ask Now;
  if negb (now <? deadline) then mret (Some s) else
  match n with
  | O => mret None
  | S n =>
      result ← ask Read;
      match result with
      | Failed => mret (Some s)
      | Dropped => camera_loop n h264 deadline (count_drop s)
      | NotReady => camera_loop n h264 deadline s
      | Frame f => s ← on_frame h264 f s; camera_loop n h264 deadline s
      end
  end.

Definition finish (h264 : bool) (s : State) : proc Z :=
  restored ← ask Close;
  ask (Print (FramesLine (frames s) (bytes s) (keys s) (discontinuities s) (dropped s) (u64 (last s - first s)) restored));;
  ask (Print (RequestsLine (requests s) (recovered s) (maxRecoveryUs s)));;
  mret (if negb (frames s =? 90) || negb (dropped s =? 0) || (keys s =? 0) || negb restored ||
           (h264 && (negb (requests s =? 3) || negb (recovered s =? 3))) then 1 else 0).

Definition main (n : nat) (arguments : list string) : proc (option Z) :=
  match arguments with
  | [device; codec] =>
      let h264 := String.eqb codec "h264" in
      if negb h264 && negb (String.eqb codec "mjpeg") then mret (Some 2) else
      ask (Alarm 15);;
      opened ← ask (Open device h264 1280 720);
      if negb opened then mret (Some 1) else
      now ← ask Now;
      ended ← camera_loop n h264 (now + 8000000000) initial;
      match ended with
      | None => mret None
      | Some s => code ← finish h264 s; mret (Some code)
      end
  | _ => mret (Some 2)
  end.
End CameraCapture.

Module CaptureFacts.
Import CameraCapture.
#[local] Abbreviation event := (Calls.event answers).

(** The frames, drops and accepted requests of a run. *)
Definition frames_read : list event -> list frame :=
  flat_map (fun '(existT c a) => match c return answers c -> list frame with Read => fun r => match r with Frame f => [f] | _ => [] end | _ => fun _ => [] end a).
Definition read_drops : list event -> list unit :=
  flat_map (fun '(existT c a) => match c return answers c -> list unit with Read => fun r => match r with Dropped => [tt] | _ => [] end | _ => fun _ => [] end a).
Definition accepted : list event -> list unit :=
  flat_map (fun '(existT c a) => match c return answers c -> list unit with RequestKeyframe => fun ok => if ok then [tt] else [] | _ => fun _ => [] end a).
Lemma frames_read_app tr1 tr2 : frames_read (tr1 ++ tr2) = frames_read tr1 ++ frames_read tr2.
Proof. apply flat_map_app. Qed.
Lemma read_drops_app tr1 tr2 : read_drops (tr1 ++ tr2) = read_drops tr1 ++ read_drops tr2.
Proof. apply flat_map_app. Qed.
Lemma accepted_app tr1 tr2 : accepted (tr1 ++ tr2) = accepted tr1 ++ accepted tr2.
Proof. apply flat_map_app. Qed.
Definition key_frames (fs : list frame) : list frame := List.filter independent fs.

(** The counters after a part of a run, in which [k] frames come before. *)
Record counted (s s' : State) (tr : list event) : Prop := {
  counted_frames : frames s' = frames s + len (frames_read tr);
  counted_drops : dropped s' = u32 (dropped s + len (read_drops tr));
  counted_keys : keys s' = keys s + len (key_frames (frames_read tr));
  counted_requests : requests s' = requests s + len (accepted tr) }.
(** The counters are small, and each recovery answers a request of its own. *)
Record sane (s : State) : Prop := {
  sane_frames : 0 <= frames s <= 90;
  sane_dropped : in_range 32 (dropped s);
  sane_keys : 0 <= keys s <= frames s;
  sane_requests : 0 <= requests s <= frames s;
  sane_recovered : 0 <= recovered s /\ recovered s + (if requestTime s =? 0 then 0 else 1) <= requests s }.

Lemma count_frame_sane f s : sane s -> frames s < 90 -> let s1 := count_frame f s in
  sane s1 /\ frames s1 = frames s + 1 /\ keys s1 = keys s + Z.b2z (independent f) /\ requests s1 = requests s /\ requests s1 < frames s1.
Proof.
  intros [Hf Hd Hk Hq Hr] Hlt. cbn. assert (0 <= Z.b2z (independent f) <= 1) by (destruct (independent f); cbn; lia).
  rewrite !wrap_small by (ranges; lia). split; [constructor; cbn; rewrite ?wrap_small by (ranges; lia); done || lia|]. lia.
Qed.
Lemma recover_sane now s : sane s -> requestTime s <> 0 -> sane (recover now s).
Proof.
  intros [Hf Hd Hk Hq Hr] Ht. rewrite (proj2 (Z.eqb_neq _ _) Ht) in Hr. constructor; cbn; [done..|].
  destruct (_ <? 1000000); rewrite ?wrap_small by (ranges; lia); lia.
Qed.
Lemma requested_sane now s : sane s -> requests s < frames s -> sane (requested now s) /\ requests (requested now s) = requests s + 1.
Proof.
  intros [Hf Hd Hk Hq Hr] Hlt. cbn. rewrite !wrap_small by (ranges; lia). split; [|done]. constructor; cbn; rewrite ?wrap_small by (ranges; lia); [done || lia..|].
  destruct (now =? 0), (requestTime s =? 0); lia.
Qed.

Lemma on_frame_counted h264 f s tr s' : sane s -> frames s < 90 -> runs (on_frame h264 f s) tr s' ->
  sane s' /\ frames s' = frames s + 1 /\ dropped s' = dropped s /\ keys s' = keys s + Z.b2z (independent f) /\ requests s' = requests s + len (accepted tr) /\
  frames_read tr = [] /\ read_drops tr = [].
Proof.
  intros Hs Hlt Hrun. destruct (count_frame_sane f s Hs Hlt) as (Hs1 & E1 & E2 & E3 & E4). unfold on_frame in Hrun.
  set (s1 := count_frame f s) in *. assert (dropped s1 = dropped s) as E5 by done. clearbody s1. apply runs_bind in Hrun as (tr1 & s2 & tr2 & -> & H1 & H2).
  assert (accepted tr1 = [] /\ frames_read tr1 = [] /\ read_drops tr1 = [] /\ sane s2 /\ frames s2 = frames s1 /\ dropped s2 = dropped s1 /\
    keys s2 = keys s1 /\ requests s2 = requests s1) as (Ha & Hfr & Hd & Hs2 & F1 & F2 & F3 & F4).
  { destruct (independent f && negb (requestTime s1 =? 0)) eqn:E; [|by destruct H1 as [-> ->]]. apply andb_true_iff in E as [_ E%negb_true_iff%Z.eqb_neq].
    follow H1 now. destruct H1 as [-> ->]. split_and!; try done. by apply recover_sane. }
  rewrite accepted_app, frames_read_app, read_drops_app, Ha, Hfr, Hd. rewrite <- E1, <- E2, <- E5, <- E3, <- F1, <- F2, <- F3, <- F4. rewrite <- F1, <- F4 in E4.
  destruct (h264 && _); [|destruct H2 as [-> ->]; cbn; by rewrite Z.add_0_r].
  follow H2 ok. destruct ok; [|destruct H2 as [-> ->]; cbn; by rewrite Z.add_0_r]. follow H2 now. destruct H2 as [-> ->].
  destruct (requested_sane now s2 Hs2 E4) as [? ?]. done.
Qed.

Lemma counted_none s : sane s -> counted s s [].
Proof. intros [Hf Hd Hk Hq Hr]. constructor; cbn; rewrite ?Z.add_0_r; try done. by rewrite wrap_small. Qed.

Lemma camera_loop_counted n h264 deadline s tr s' : sane s -> runs (camera_loop n h264 deadline s) tr (Some s') ->
  sane s' /\ counted s s' tr /\ (length (read_drops tr) <= n)%nat.
Proof.
  revert s tr. induction n as [|n IH]; intros s tr Hs H; cbn [camera_loop] in H.
  all: destruct (Z.ltb_spec (frames s) 90) as [Hlt|Hge]; cbn [negb] in H; [|destruct H as [-> [= ->]]; split; [done|split; [by apply counted_none|cbn; lia]]].
  all: follow H now; destruct (now <? deadline); cbn [negb] in H; [|destruct H as [-> [= ->]]; split; [done|split; [by destruct (counted_none s Hs)|cbn; lia]]].
  { by destruct H as [_ [=]]. }
  follow H got. destruct got as [| | |f].
  - destruct H as [-> [= ->]]. split; [done|split; [by destruct (counted_none s Hs)|cbn; lia]].
  - destruct Hs as [Hf Hd Hk Hq Hr]. apply IH in H as (Hs' & [E1 E2 E3 E4] & Hl); [|constructor; cbn; try done; apply wrap_range; lia].
    split; [done|]. split; [|cbn; lia]. constructor; try done. rewrite E2. cbn. unfold wrap. rewrite Z.add_mod_idemp_l by lia. f_equal. lia.
  - apply IH in H as (Hs' & [E1 E2 E3 E4] & Hl); [|done]. split; [done|]. split; [done|cbn; lia].
  - apply runs_bind in H as (tr1 & s1 & tr2 & -> & H1 & H2). destruct (on_frame_counted _ _ _ _ _ Hs Hlt H1) as (Hs1 & F1 & F2 & F3 & F4 & F5 & F6).
    apply IH in H2 as (Hs' & [E1 E2 E3 E4] & Hl); [|done]. split; [done|].
    change (existT Now now :: existT Read (Frame f) :: tr1 ++ tr2) with ([existT Now now; existT Read (Frame f)] ++ tr1 ++ tr2).
    split; [constructor|]; rewrite ?frames_read_app, ?read_drops_app, ?accepted_app, ?F5, ?F6, ?E1, ?E2, ?E3, ?E4, ?F1, ?F2, ?F3, ?F4.
    + cbn. lia.
    + done.
    + unfold key_frames. cbn. destruct (independent f); cbn; lia.
    + cbn. rewrite length_app. lia.
    + cbn. lia.
Qed.

(** The camera's capture.  In every environment a run that ends with an open camera has
    closed it, and returns 0 exactly when ninety frames came, none was dropped, some were key
    frames, the camera was restored and, for H.264, three key frames were requested and all
    three came within a second. *)
Theorem capture_exact n device codec tr code : Z.of_nat n < 2 ^ 32 -> codec = "h264"%string \/ codec = "mjpeg"%string ->
  runs (main n [device; codec]) tr (Some code) ->
  code = 1 /\ frames_read tr = [] \/
  exists restored recovered, existT Close restored ∈ tr /\ 0 <= recovered <= len (accepted tr) /\
    (code = 0 <-> length (frames_read tr) = 90%nat /\ read_drops tr = [] /\ key_frames (frames_read tr) <> [] /\ restored = true /\
      (codec = "h264"%string -> length (accepted tr) = 3%nat /\ recovered = 3)) /\ (code = 0 \/ code = 1).
Proof.
  intros Hn Hcodec H. cbn [main] in H. assert (negb (String.eqb codec "h264") && negb (String.eqb codec "mjpeg") = false) as E by (by destruct Hcodec as [-> | ->]).
  rewrite E in H. follow H u. follow H opened. destruct opened; cbn [negb] in H; [|destruct H as [-> [= ->]]; by left]. follow H now0.
  apply runs_bind in H as (tr1 & o & tr2 & -> & H1 & H2). destruct o as [s|]; [|by destruct H2 as [_ [=]]].
  assert (sane initial) as Hs by by constructor. apply camera_loop_counted in H1 as ([Hf Hd Hk Hq [Hr Hr']] & [E1 E2 E3 E4] & Hl); [|done].
  apply runs_bind in H2 as (tr3 & c & tr4 & -> & H3 & [-> [= ->]]). unfold finish in H3. follow H3 restored. follow H3 u1. follow H3 u2. destruct H3 as [-> ->].
  right. exists restored, (recovered s). match goal with |- context [frames_read ?t] => assert (frames_read t = frames_read tr1 /\ read_drops t = read_drops tr1 /\ accepted t = accepted tr1) as (-> & -> & ->) end.
  { match goal with |- context [frames_read (?a :: ?b :: ?c :: tr1 ++ ?t)] => change (a :: b :: c :: tr1 ++ t) with ([a; b; c] ++ tr1 ++ t) end.
    rewrite !frames_read_app, !read_drops_app, !accepted_app. cbn. by rewrite !app_nil_r. }
  split; [right; right; right; apply elem_of_app; right; left|]. cbn in E1, E2, E3, E4. rewrite E1, E3. rewrite wrap_small in E2 by (ranges; lia). rewrite E2, E4 in *.
  split; [destruct (requestTime s =? 0); lia|]. split; [|destruct (_ || _); auto].
  rewrite <- (length_zero_iff_nil (read_drops tr1)), <- (length_zero_iff_nil (key_frames (frames_read tr1))).
  assert (codec = "h264"%string <-> String.eqb codec "h264" = true) as -> by (by rewrite String.eqb_eq).
  destruct restored, (String.eqb codec "h264"); cbn [negb andb orb]; rewrite ?orb_false_r, ?orb_true_r; try (split; [done|intros (_ & _ & _ & [=] & _)]).
  all: match goal with |- (if ?b then 1 else 0) = 0 <-> _ => destruct b eqn:B end; split; try done; lia.
Qed.

(** A camera that gives a key frame every so many frames, with a clock of 30 frames a second. *)
Definition camera (every : Z) (k : Z) (c : request) : answers c * Z :=
  match c return answers c * Z with
  | Open _ _ _ _ | RequestKeyframe | Close => (true, k)
  | Now => (5000000000 + k * 33000000, k)
  | Read => (Frame (mkFrame 1000 (k * 33000) (k mod every =? 0) false), k + 1)
  | Alarm _ | Print _ => (tt, k)
  end.
Definition run_camera (every : Z) (codec : string) : list event * option Z := run (camera every) (main 100 ["/dev/video0"; codec]%string) 0.

Example too_few_keys : (run_camera 50 "h264").2 = Some 1.
Proof. vm_compute. reflexivity. Qed.
Example no_requests : (run_camera 50 "mjpeg").2 = Some 0.
Proof. vm_compute. reflexivity. Qed.

Lemma capture_exact_witness :
  let t := run_camera 15 "h264" in
  runs (main 100 ["/dev/video0"; "h264"]%string) t.1 (Some 0) /\
  (0 = 1 /\ frames_read t.1 = [] \/
   exists restored recovered, existT Close restored ∈ t.1 /\ 0 <= recovered <= len (accepted t.1) /\
    (0 = 0 <-> length (frames_read t.1) = 90%nat /\ read_drops t.1 = [] /\ key_frames (frames_read t.1) <> [] /\ restored = true /\
      ("h264" = "h264" -> length (accepted t.1) = 3%nat /\ recovered = 3)%string) /\ (0 = 0 \/ 0 = 1)).
Proof.
  intros t. assert (runs (main 100 ["/dev/video0"; "h264"]%string) t.1 (Some 0)) as H.
  { assert (t.2 = Some 0) as <- by (vm_compute; reflexivity). exact (run_runs (camera 15) (main 100 ["/dev/video0"; "h264"]%string) 0). }
  split; [exact H|]. apply (capture_exact 100 "/dev/video0" "h264"); [lia|by left|exact H].
Defined.
End CaptureFacts.
