(* ===== verification/MediaClock.v ===== *)
(** * MediaClock: apps/host/macos/media/reverse-media-clock.h

    The clock of a desktop session that maps the client's capture times of camera
    frames to host times, anchored at the microphone block rendered last.  Signed
    64-bit arithmetic that overflows is undefined in C and [None] here. *)

From S2P Require Import Prelude.

(** The members of [PLANKReverseMediaClock]. *)
Record PLANKReverseMediaClock := mkClock { source : Z; host : Z; observed : Z }.

Definition PLANKReverseMediaClockClear : PLANKReverseMediaClock := mkClock 0 0 0.

Definition PLANKReverseMediaClockActive (clock : PLANKReverseMediaClock) (now : Z) : bool :=
  negb (source clock =? 0) && (observed clock <=? now) && (u64 (now - observed clock) <? 100000000).

Definition PLANKReverseMediaClockObserve (clock : PLANKReverseMediaClock) (src hst now : Z)
    : PLANKReverseMediaClock * bool :=
  if (src =? 0) || (INT64_MAX <? src) || (hst =? 0) || (INT64_MAX <? hst) || (now =? 0) ||
     (100000000 <? (if now <=? hst then u64 (hst - now) else u64 (now - hst)))
  then (PLANKReverseMediaClockClear, false)
  else if PLANKReverseMediaClockActive clock now && ((src <=? source clock) || (hst <=? host clock))
  then (PLANKReverseMediaClockClear, false)
  else (mkClock src hst now, true).

(** A signed 64-bit result. *)
Definition int64 (z : Z) : option Z :=
  if (- 2 ^ 63 <=? z) && (z <=? INT64_MAX) then Some z else None.

Definition map_refused (clock : PLANKReverseMediaClock) (delta : Z) : bool :=
  (delta <? -150000000) || (150000000 <? delta) ||
  ((0 <? delta) && (u64 (INT64_MAX - delta) <? host clock)) ||
  ((delta <? 0) && (host clock <=? u64 (- delta))).

Definition PLANKReverseMediaClockMap (clock : PLANKReverseMediaClock) (src now : Z) : option Z :=
  if negb (PLANKReverseMediaClockActive clock now) || (src =? 0) || (INT64_MAX <? src) then Some 0
  else
    delta ← int64 (s64 src - s64 (source clock));
    if map_refused clock delta then Some 0
    else
      sum ← int64 (s64 (host clock) + delta);
      let mapped := u64 sum in
      if ((now <? mapped) && (100000000 <? u64 (mapped - now))) ||
         ((mapped <=? now) && (150000000 <? u64 (now - mapped)))
      then Some 0 else Some mapped.

(** ** The session's clock *)

(** A cleared clock or an anchor within the bounds of the signed type. *)
Definition clock_wf (c : PLANKReverseMediaClock) : Prop :=
  c = PLANKReverseMediaClockClear \/
  0 < source c <= INT64_MAX /\ 0 < host c <= INT64_MAX /\ 0 < observed c < 2 ^ 64.

Inductive clock_step : PLANKReverseMediaClock -> PLANKReverseMediaClock -> Prop :=
  | clock_clear c : clock_step c PLANKReverseMediaClockClear
  | clock_observe c src hst now : in_range 64 src -> in_range 64 hst -> in_range 64 now ->
      clock_step c (PLANKReverseMediaClockObserve c src hst now).1.

Inductive clock_reachable : PLANKReverseMediaClock -> Prop :=
  | clock_start : clock_reachable PLANKReverseMediaClockClear
  | clock_next c c' : clock_reachable c -> clock_step c c' -> clock_reachable c'.

Lemma clock_reachable_wf c : clock_reachable c -> clock_wf c.
Proof.
  induction 1 as [|c c' _ IH Hstep]; [by left|]. destruct Hstep as [|c src hst now Hs Hh Hn]; [by left|].
  unfold PLANKReverseMediaClockObserve. destruct (_ || _) eqn:Hr; [by left|].
  destruct (_ && _); [by left|]. right. cbn. guards. ranges. lia.
Qed.

Lemma active_spec c now :
  clock_wf c -> in_range 64 now ->
  PLANKReverseMediaClockActive c now =
  (0 <? source c) && (observed c <=? now) && (now - observed c <? 100000000).
Proof.
  intros [-> | (Hs & Hh & Ho)] Hn; [done|]. unfold PLANKReverseMediaClockActive.
  destruct (observed c <=? now) eqn:E; [rewrite wrap_small by (ranges; lia)|]; lia.
Qed.

(** The map without machine arithmetic. *)
Definition clock_map_spec (c : PLANKReverseMediaClock) (src now : Z) : Z :=
  let mapped := host c + (src - source c) in
  if (0 <? source c) && (observed c <=? now) && (now - observed c <? 100000000) &&
     (0 <? src) && (src <=? INT64_MAX) && (Z.abs (src - source c) <=? 150000000) &&
     (0 <? mapped) && (mapped <=? INT64_MAX) &&
     (mapped - now <=? 100000000) && (now - mapped <=? 150000000)
  then mapped else 0.

(** Two guarded results agree once their guards do. *)
Ltac same_guard :=
  repeat match goal with |- context [if ?b then _ else _] => destruct b eqn:?; try done; try (exfalso; lia) end.

Lemma map_refused_spec c delta :
  0 < host c <= INT64_MAX ->
  map_refused c delta =
  negb ((Z.abs delta <=? 150000000) && (0 <? host c + delta) && (host c + delta <=? INT64_MAX)).
Proof.
  intros Hh. unfold map_refused. ranges.
  destruct (Z.leb_spec (Z.abs delta) 150000000) as [Hd|Hd]; [|lia].
  rewrite (Z.mod_small (9223372036854775807 - delta)) by lia.
  destruct (Z.ltb_spec delta 0); [rewrite Z.mod_small by lia; lia|lia].
Qed.

(** C25: the session clock, whatever it has observed, maps a capture time without
    signed overflow: the result is 0 unless the anchor is less than 100 ms old, the
    capture time at most 150 ms from it and the mapped time between 150 ms before and
    100 ms after now, and then it is the host anchor shifted by exactly the distance
    on the client's clock.  A new observation is kept exactly when it is within 100 ms
    of now and ahead of an anchor that is still active on both clocks; any other one
    clears the clock. *)
Theorem clock_map_exact c src now :
  clock_reachable c -> in_range 64 src -> in_range 64 now ->
  PLANKReverseMediaClockMap c src now = Some (clock_map_spec c src now) /\
  forall hst,
    in_range 64 hst ->
    let kept := (0 <? src) && (src <=? INT64_MAX) && (0 <? hst) && (hst <=? INT64_MAX) && (0 <? now) &&
      (Z.abs (hst - now) <=? 100000000) &&
      negb ((0 <? source c) && (observed c <=? now) && (now - observed c <? 100000000) &&
            ((src <=? source c) || (hst <=? host c))) in
    PLANKReverseMediaClockObserve c src hst now =
    (if kept then mkClock src hst now else mkClock 0 0 0, kept).
Proof.
  intros Hwf%clock_reachable_wf Hs Hn. split.
  - unfold PLANKReverseMediaClockMap, clock_map_spec. rewrite active_spec by done.
    destruct ((0 <? source c) && _ && _) eqn:Ha; [|done]. cbn [negb orb andb].
    destruct Hwf as [-> | (Hsc & Hhc & Hoc)]; [done|]. ranges.
    destruct ((src =? 0) || _) eqn:Hsrc; [same_guard|].
    rewrite !swrap_small by (cbn; lia). unfold int64. rewrite (proj2 (andb_true_iff _ _)) by (ranges; lia).
    cbn [mbind option_bind]. rewrite map_refused_spec by (ranges; lia). ranges.
    destruct (negb _) eqn:Hm; [same_guard|].
    rewrite (proj2 (andb_true_iff _ _)) by lia. cbn [mbind option_bind].
    rewrite (Z.mod_small (host c + _)) by lia. set (mapped := host c + _) in *.
    destruct (Z.ltb_spec now mapped); [rewrite (Z.mod_small (mapped - now)) by lia|
      rewrite (Z.mod_small (now - mapped)) by lia]; same_guard.
  - intros hst Hh kept. unfold PLANKReverseMediaClockObserve. rewrite active_spec by done. ranges.
    assert ((if now <=? hst then (hst - now) mod 18446744073709551616 else (now - hst) mod 18446744073709551616)
      = Z.abs (hst - now)) as ->.
    { destruct (Z.leb_spec now hst); rewrite Z.mod_small by lia; lia. }
    unfold kept. clear kept. same_guard.
Qed.

Lemma clock_map_exact_witness :
  PLANKReverseMediaClockMap (PLANKReverseMediaClockObserve PLANKReverseMediaClockClear 1000 2000 2500).1 900 3000
    = Some 1900 /\ clock_map_spec (mkClock 1000 2000 2500) 900 3000 = 1900.
Proof.
  assert (clock_reachable (PLANKReverseMediaClockObserve PLANKReverseMediaClockClear 1000 2000 2500).1) as Hr.
  { eapply clock_next; [apply clock_start|]. apply clock_observe; concrete. }
  destruct (clock_map_exact _ 900 3000 Hr) as [H _]; [concrete..|].
  split; [exact H|reflexivity].
Defined.
