(* ===== verification/MediaFeatures.v ===== *)
(** * MediaFeatures: apps/host/macos/control/media-features.h

    Which media a client and the macOS host agree on: the negotiation of features before
    launch, the validation of the launch request that carries the agreed features, and the
    reply.  Requests are JSON as Foundation reads it ([Plist]); a nil object is [None]. *)

From Stdlib Require Import QArith.
From S2P Require Import Plist.
From S2P Require Import Prelude.
From S2P Require Import Profiles.

#[global] Open Scope Z_scope.

Definition PLANKMacMediaNames : list string := ["desktop"; "audio"; "input"; "clipboard"; "microphone"; "camera"].

(** A number other than a Boolean, whole and between the bounds. *)
Definition PLANKMacMediaInteger (v : option value) (minimum maximum : Z) : bool :=
  match v with
  | Some (VInt z) => (minimum <=? z) && (z <=? maximum)
  | Some (VReal (Some q)) => match whole q with Some z => (minimum <=? z) && (z <=? maximum) | None => false end
  | _ => false
  end.

(** fixed-capture.m: the mode names an Apple profile of the catalogue ([Profiles]). *)
Definition PLANKMacEncodingProfile (mode : option value) : bool :=
  match as_string mode with
  | None => false
  | Some s =>
      match plank_encoding_profile_named (Some (c_bytes s)) (len (c_bytes s)) with
      | Some (Some id) => match plank_encoding_profile id with
                          | Some p => match pr_encoder p with PLANK_ENCODER_APPLE => true | _ => false end
                          | None => false
                          end
      | _ => false
      end
  end.

Definition PLANKMacMediaProfile (name : string) (mode : option value) : option dict :=
  if String.eqb name "desktop" then Some [("schema_version", VInt 1); ("encoding_mode", default (VString EmptyString) mode)]
  else if String.eqb name "audio" then Some [("schema_version", VInt 1); ("codec", VString "opus");
    ("sample_rate", VInt 48000); ("channels", VInt 2); ("packet_duration_ms", VInt 5)]
  else if String.eqb name "input" then Some [("schema_version", VInt 1); ("keyboard", VBool true);
    ("mouse", VString "absolute"); ("pen", VString "normalized")]
  else if String.eqb name "clipboard" then Some [("schema_version", VInt 1)]
  else if String.eqb name "microphone" then Some [("schema_version", VInt 2); ("codec", VString "opus");
    ("sample_rate", VInt 48000); ("channels", VInt 2); ("packet_duration_ms", VInt 10)]
  else if String.eqb name "camera" then
    Some [("schema_version", VInt 1); ("codecs", VArray [VString "h264-annex-b"; VString "mjpeg"])]
  else None.

(** Looking a key up in an object that may be nil or no dictionary. *)
Definition key_of (v : option value) (k : string) : option value := d ← as_dict v; at_key d k.
Definition is_dictionary (v : option value) : bool := match as_dict v with Some _ => true | None => false end.

Definition PLANKMacMicrophoneSchema (request : dict) : Z :=
  if is_equal (at_key request "schema_version") (VInt 7) &&
     is_dictionary (at_key request "features") &&
     is_dictionary (key_of (at_key request "features") "microphone") &&
     is_equal (key_of (key_of (at_key request "features") "microphone") "schema_version") (VInt 3)
  then 3 else 2.

Definition microphone_v3 : dict :=
  [("schema_version", VInt 3); ("codec", VString "opus"); ("sample_rate", VInt 48000);
   ("channels", VInt 2); ("packet_duration_ms", VInt 10); ("capture_clock", VString "monotonic-ns")].

Definition PLANKMacMediaSelectedProfile (name : string) (mode choice : option value) : option dict :=
  if String.eqb name "microphone" && is_dictionary choice && is_equal (key_of choice "schema_version") (VInt 3)
  then Some microphone_v3 else PLANKMacMediaProfile name mode.

(** One key of an expected profile: a number of the same kind, and an equal value. *)
Definition key_matches (d : dict) (expected : string * value) : bool :=
  let actual := at_key d expected.1 in
  (if is_number expected.2
   then match actual with Some a => is_number a && Bool.eqb (is_boolean a) (is_boolean expected.2) | None => false end
   else true) && is_equal actual expected.2.

Definition PLANKMacMediaContainsProfile (v : option value) (expected : option dict) : bool :=
  match as_dict v, expected with
  | Some d, Some e => (length d <=? 32)%nat && negb (length e =? 0)%nat && forallb (key_matches d) e
  | _, _ => false
  end.

(** [containsObject:] on an array of strings. *)
Definition mem_string (name : string) (l : list string) : bool := existsb (String.eqb name) l.
Definition contains_object (v : option value) (name : string) : bool :=
  match as_array v with Some l => existsb (fun x => value_eq x (VString name)) l | None => false end.

(** The loop over required features: [None] is its [return NO]. *)
Fixpoint required_names (l : list value) (seen : list string) : option (list string) :=
  match l with
  | [] => Some seen
  | VString name :: l =>
      if mem_string name PLANKMacMediaNames && negb (mem_string name seen) then required_names l (name :: seen) else None
  | _ :: _ => None
  end.

Definition PLANKMacMediaRequired (v : option value) : bool :=
  match as_array v with
  | None => false
  | Some l =>
      if (16 <? length l)%nat then false
      else match required_names l [] with
      | Some seen => mem_string "desktop" seen && mem_string "audio" seen && mem_string "input" seen
      | None => false
      end
  end.

(** ** Negotiation *)

(** The loop over the offered choices of a feature: [inl] is a status that ends the
    negotiation, otherwise the chosen profile and the desktop's mode. *)
Fixpoint choose (name : string) (choices : list value) (chosen : option dict) (mode : option value)
    : Z + option dict * option value :=
  match choices with
  | [] => inr (chosen, mode)
  | choice :: choices =>
      match choice with
      | VDict d =>
          if (32 <? length d)%nat || negb (PLANKMacMediaInteger (at_key d "schema_version") 1 65535) then inl 400
          else
            let desktop := String.eqb name "desktop" in
            let candidate := if desktop then at_key d "encoding_mode" else mode in
            if desktop && negb (PLANKMacEncodingProfile candidate) then choose name choices chosen mode
            else
              let profile := PLANKMacMediaSelectedProfile name candidate (Some choice) in
              match chosen with
              | None =>
                  if PLANKMacMediaContainsProfile (Some choice) profile
                  then choose name choices profile (if desktop then candidate else mode)
                  else choose name choices chosen mode
              | Some _ => choose name choices chosen mode
              end
      | _ => inl 400
      end
  end.

(** The loop over the features. *)
Fixpoint select (names : list string) (offers : dict) (required : option value) (mode : option value) (selected : dict)
    : Z + dict :=
  match names with
  | [] => inr selected
  | name :: names =>
      match default (VArray []) (at_key offers name) with
      | VArray choices =>
          if (8 <? length choices)%nat then inl 400
          else match choose name choices None mode with
          | inl status => inl status
          | inr (chosen, mode) =>
              match chosen with
              | None => if contains_object required name then inl 426
                        else select names offers required mode (selected ++ [(name, VNull)])
              | Some profile => select names offers required mode (selected ++ [(name, VDict profile)])
              end
          end
      | _ => inl 400
      end
  end.

(** The status, and the reply with status 200. *)
Definition PLANKMacNegotiateMedia (request : option value) : Z * option dict :=
  match as_dict request with
  | None => (400, None)
  | Some r =>
      match as_dict (at_key r "features") with
      | None => (400, None)
      | Some offers =>
          if (16 <? length r)%nat || negb (PLANKMacMediaInteger (at_key r "schema_version") 1 65535) ||
             negb (is_string_value (at_key r "transport")) || (32 <? length offers)%nat then (400, None)
          else if negb (is_equal (at_key r "schema_version") (VInt 1)) ||
                  negb (is_equal (at_key r "transport") (VString "plank-native/2")) ||
                  negb (PLANKMacMediaRequired (at_key r "required_features")) then (426, None)
          else match select PLANKMacMediaNames offers (at_key r "required_features") None [] with
          | inl status => (status, None)
          | inr selected =>
              (200, Some [("schema_version", VInt 1); ("launch_schema", VInt 7); ("transport", VString "plank-native/2");
                          ("required_features", default VNull (at_key r "required_features")); ("features", VDict selected)])
          end
      end
  end.

(** ** Launch *)

Definition is_null (v : option value) : bool := match v with None | Some VNull => true | _ => false end.

(** One feature of a launch request. *)
Definition launch_feature (features : dict) (required mode : option value) (name : string) : bool :=
  let v := at_key features name in
  (is_null v && negb (contains_object required name)) ||
  PLANKMacMediaContainsProfile v (PLANKMacMediaSelectedProfile name mode v).

(** [for (key in keys) if (from[key]) normalized[key] = from[key];] *)
Definition copy_keys (keys : list string) (from : dict) : dict :=
  omap (fun k => (fun v => (k, v)) <$> at_key from k) keys.

Definition PLANKMacNormalizeMediaLaunch (request : option value) : option dict :=
  match as_dict request with
  | None => None
  | Some r =>
      if negb (PLANKMacMediaInteger (at_key r "schema_version") 7 7) then None
      else match as_dict (at_key r "features") with
      | None => None
      | Some features =>
          if (16 <? length r)%nat || negb (is_equal (at_key r "transport") (VString "plank-native/2")) ||
             negb (PLANKMacMediaRequired (at_key r "required_features")) || (32 <? length features)%nat then None
          else match as_dict (at_key features "desktop") with
          | None => None
          | Some desktop =>
              let mode := at_key desktop "encoding_mode" in
              if negb (PLANKMacEncodingProfile mode) ||
                 negb (forallb (launch_feature features (at_key r "required_features") mode) PLANKMacMediaNames) then None
              else
                let normalized :=
                  [("schema_version", VInt 7);
                   ("clipboard", VBool (is_dictionary (at_key features "clipboard")));
                   ("microphone", VBool (is_dictionary (at_key features "microphone")));
                   ("camera", VBool (is_dictionary (at_key features "camera")))] ++
                  copy_keys ["capture_generation"; "capture_id"; "max_udp_payload_size"] r ++
                  copy_keys ["width"; "height"; "encoding_mode"; "frame_rate"; "bitrate_kbps"] desktop in
                if (length normalized =? 12)%nat then Some normalized else None
          end
      end
  end.

(** [dictionary[key] = value] on a mutable dictionary. *)
Fixpoint set_key (d : dict) (k : string) (v : value) : dict :=
  match d with
  | [] => [(k, v)]
  | (k', v') :: d => if String.eqb k' k then (k', v) :: d else (k', v') :: set_key d k v
  end.

(** Assigning nil removes the key. *)
Definition assign (from : dict) (d : dict) (k : string) : dict :=
  match at_key from k with Some v => set_key d k v | None => filter (fun e => negb (String.eqb e.1 k) = true) d end.

Definition PLANKMacMediaReplyFeatures (request : option value) (clipboard microphone camera : bool) : option dict :=
  normalized ← PLANKMacNormalizeMediaLaunch request;
  let requested := key_of request "features" in
  let feature name :=
    let enabled := negb (String.eqb name "clipboard" && negb clipboard) &&
      negb (String.eqb name "microphone" && negb microphone) && negb (String.eqb name "camera" && negb camera) in
    if enabled then
      match PLANKMacMediaSelectedProfile name (at_key normalized "encoding_mode") (key_of requested name) with
      | Some p => VDict p
      | None => VNull
      end
    else VNull in
  let features := map (fun name => (name, feature name)) PLANKMacMediaNames in
  let desktop := default [] (as_dict (at_key features "desktop")) in
  let desktop := foldl (assign normalized) desktop ["width"; "height"; "frame_rate"; "bitrate_kbps"] in
  Some (set_key features "desktop" (VDict desktop)).

(** ** What a negotiation selects *)

(** A feature of the reply: null if it is not required, otherwise the profile of an offered
    choice that contains it. *)
Definition entry_ok (offers : dict) (required mode : option value) (name : string) (v : value) : Prop :=
  (v = VNull /\ contains_object required name = false) \/
  (exists p choices c, v = VDict p /\ at_key offers name = Some (VArray choices) /\ c ∈ choices /\
     PLANKMacMediaSelectedProfile name mode (Some c) = Some p /\
     PLANKMacMediaContainsProfile (Some c) (Some p) = true).

Lemma choose_spec name choices chosen mode r mode' :
  choose name choices chosen mode = inr (r, mode') ->
  match chosen with
  | Some p => r = Some p /\ mode' = mode
  | None =>
      match r with
      | None => mode' = mode
      | Some p => exists c, c ∈ choices /\ PLANKMacMediaSelectedProfile name mode' (Some c) = Some p /\
          PLANKMacMediaContainsProfile (Some c) (Some p) = true /\
          (if String.eqb name "desktop" then PLANKMacEncodingProfile mode' = true else mode' = mode)
      end
  end.
Proof.
  revert chosen mode. induction choices as [|choice choices IH]; intros chosen mode H; cbn [choose] in H.
  { injection H as <- <-. by destruct chosen. }
  destruct choice as [| | | | | |d]; try done. destruct (_ || _); [done|].
  assert (forall chosen mode, choose name choices chosen mode = inr (r, mode') -> match chosen with None =>
      match r with
      | None => mode' = mode
      | Some p => exists c, c ∈ VDict d :: choices /\ PLANKMacMediaSelectedProfile name mode' (Some c) = Some p /\
          PLANKMacMediaContainsProfile (Some c) (Some p) = true /\
          (if String.eqb name "desktop" then PLANKMacEncodingProfile mode' = true else mode' = mode)
      end | Some p => r = Some p /\ mode' = mode end) as Hrest.
  { intros chosen0 mode0 H0. apply IH in H0. destruct chosen0; [done|]. destruct r as [p|]; [|done].
    destruct H0 as (c & Hin & Hc). exists c. split; [by right|done]. }
  set (candidate := if String.eqb name "desktop" then _ else mode) in H.
  destruct (_ && negb (PLANKMacEncodingProfile candidate)) eqn:Hskip; [exact (Hrest _ _ H)|].
  destruct chosen as [p0|]; [exact (Hrest _ _ H)|].
  destruct (PLANKMacMediaContainsProfile (Some (VDict d)) _) eqn:Hc; [|exact (Hrest _ _ H)].
  destruct (PLANKMacMediaSelectedProfile name candidate (Some (VDict d))) as [p|] eqn:Hp; [|done].
  apply IH in H as [-> ->]. exists (VDict d). split; [by left|].
  unfold candidate in *. destruct (String.eqb name "desktop"); [|done].
  cbn [andb] in Hskip. apply negb_false_iff in Hskip. done.
Qed.

Lemma select_rest names offers required mode selected out :
  "desktop"%string ∉ names -> select names offers required mode selected = inr out ->
  exists rest, out = selected ++ rest /\ map fst rest = names /\
    Forall (fun e => entry_ok offers required mode e.1 e.2) rest.
Proof.
  revert selected. induction names as [|name names IH]; intros selected Hd H; cbn [select] in H.
  { injection H as <-. exists []. by rewrite app_nil_r. }
  apply not_elem_of_cons in Hd as [Hne Hd].
  destruct (default (VArray []) (at_key offers name)) as [| | | | |choices|] eqn:Ho; try done.
  destruct (8 <? length choices)%nat; [done|].
  destruct (choose name choices None mode) as [|[chosen mode']] eqn:Hc; [done|]. apply choose_spec in Hc.
  assert (String.eqb name "desktop" = false) as Hnd by (by apply String.eqb_neq).
  destruct chosen as [p|].
  - destruct Hc as (c & Hin & Hp & Hcp & Hm). rewrite Hnd in Hm. subst mode'.
    apply IH in H as (rest & -> & Hn & Hall); [|done]. exists ((name, VDict p) :: rest).
    rewrite <- app_assoc. split_and!; [done|cbn; by rewrite Hn|]. apply Forall_cons. split; [|done]. right.
    exists p, choices, c. split; [done|]. split; [|done].
    cbn [fst]. destruct (at_key offers name); cbv [from_option id] in Ho; [congruence|]. injection Ho as <-. by apply elem_of_nil in Hin.
  - subst mode'. destruct (contains_object required name) eqn:Hreq; [done|].
    apply IH in H as (rest & -> & Hn & Hall); [|done]. exists ((name, VNull) :: rest).
    rewrite <- app_assoc. split_and!; [done|cbn; by rewrite Hn|]. apply Forall_cons. split; [by left|done].
Qed.

Definition other_names : list string := ["audio"; "input"; "clipboard"; "microphone"; "camera"].

Lemma select_all offers required out :
  contains_object required "desktop" = true ->
  select PLANKMacMediaNames offers required None [] = inr out ->
  exists mode p rest choices c, PLANKMacEncodingProfile mode = true /\
    out = ("desktop"%string, VDict p) :: rest /\ p = [("schema_version"%string, VInt 1); ("encoding_mode"%string, default (VString EmptyString) mode)] /\
    at_key offers "desktop" = Some (VArray choices) /\ c ∈ choices /\ PLANKMacMediaContainsProfile (Some c) (Some p) = true /\
    map fst rest = other_names /\ Forall (fun e => entry_ok offers required mode e.1 e.2) rest.
Proof.
  intros Hreq H. unfold PLANKMacMediaNames in H. fold other_names in H. cbn [select] in H.
  destruct (default (VArray []) (at_key offers "desktop")) as [| | | | |choices|] eqn:Ho; try done.
  destruct (8 <? length choices)%nat; [done|].
  destruct (choose "desktop" choices None None) as [|[chosen mode]] eqn:Hc; [done|]. apply choose_spec in Hc.
  destruct chosen as [p|]; [|by rewrite Hreq in H].
  destruct Hc as (c & Hin & Hp & Hcp & Hm). cbn in Hm, Hp. injection Hp as <-.
  apply select_rest in H as (rest & -> & Hn & Hall).
  2: { unfold other_names. rewrite !not_elem_of_cons. split_and!; try done. by intros ?%elem_of_nil. }
  eexists mode, _, rest, choices, c. split_and!; try done.
  destruct (at_key offers "desktop"); cbv [from_option id] in Ho; [congruence|]. injection Ho as <-. by apply elem_of_nil in Hin.
Qed.

(** ** Launching with what was negotiated *)

Lemma required_names_spec l seen out name :
  required_names l seen = Some out -> mem_string name out = true ->
  mem_string name seen = true \/ existsb (fun x => value_eq x (VString name)) l = true.
Proof.
  revert seen. induction l as [|x l IH]; intros seen H Hin; cbn [required_names] in H.
  { injection H as <-. by left. }
  destruct x as [| | | |s| |]; try done. destruct (_ && _); [|done].
  destruct (IH _ H Hin) as [Hs|Hl]; [|right; cbn; by rewrite Hl, orb_true_r].
  cbn in Hs. apply orb_true_iff in Hs as [Hs|Hs]; [right|by left].
  apply String.eqb_eq in Hs as <-. cbn. by rewrite String.eqb_refl.
Qed.

Lemma required_desktop v : PLANKMacMediaRequired v = true -> contains_object v "desktop" = true /\ is_Some v.
Proof.
  unfold PLANKMacMediaRequired, contains_object. destruct v as [v|]; [|done].
  destruct (as_array (Some v)) as [l|]; [|done]. destruct (16 <? length l)%nat; [done|].
  destruct (required_names l []) as [seen|] eqn:E; [|done]. intros H. guards. split; [|by eexists].
  by destruct (required_names_spec _ _ _ _ E H).
Qed.

(** A selected profile contains the profile selected for it. *)
Lemma profile_fixed name mode c p :
  name ∈ other_names -> PLANKMacMediaSelectedProfile name mode (Some c) = Some p ->
  PLANKMacMediaContainsProfile (Some (VDict p)) (PLANKMacMediaSelectedProfile name mode (Some (VDict p))) = true.
Proof.
  intros Hn. unfold other_names in Hn. unfold PLANKMacMediaSelectedProfile at 1.
  destruct (_ && is_equal _ _) eqn:Hv3.
  { intros [= <-]. apply andb_true_iff in Hv3 as [Hv3 _]. apply andb_true_iff in Hv3 as [->%String.eqb_eq _]. done. }
  clear Hv3. repeat (apply elem_of_cons in Hn as [->|Hn]; [by intros [= <-]|]). by apply elem_of_nil in Hn.
Qed.

(** The launch request a client builds from a reply: the agreed features, with the geometry
    added to the desktop's, and the capture's identity. *)
Record launches (reply l : dict) (F D : dict) : Prop := {
  la_size : (length l <= 16)%nat;
  la_schema : at_key l "schema_version" = Some (VInt 7);
  la_transport : at_key l "transport" = Some (VString "plank-native/2");
  la_required : at_key l "required_features" = at_key reply "required_features";
  la_capture : forall k, In k ["capture_generation"; "capture_id"; "max_udp_payload_size"]%string -> is_Some (at_key l k);
  la_features : at_key l "features" = Some (VDict F) /\ (length F <= 32)%nat;
  la_other : forall name, name ∈ other_names -> at_key F name = key_of (at_key reply "features") name;
  la_desktop : at_key F "desktop" = Some (VDict D) /\ (length D <= 32)%nat;
  la_profile : forall k, In k ["schema_version"; "encoding_mode"]%string ->
    at_key D k = key_of (key_of (at_key reply "features") "desktop") k;
  la_geometry : forall k, In k ["width"; "height"; "frame_rate"; "bitrate_kbps"]%string -> is_Some (at_key D k) }.

Lemma copy_keys_length keys d :
  (forall k, In k keys -> is_Some (at_key d k)) -> length (copy_keys keys d) = length keys.
Proof.
  induction keys as [|k keys IH]; intros H; [done|]. unfold copy_keys. cbn [omap list_omap].
  destruct (H k ltac:(by left)) as [v ->]. cbn. f_equal. apply IH. intros k' Hk. apply H. by right.
Qed.

Lemma at_key_app d1 d2 k : at_key (d1 ++ d2) k = match at_key d1 k with Some v => Some v | None => at_key d2 k end.
Proof. induction d1 as [|[k' v] d1 IH]; [done|]. cbn. by destruct (String.eqb k' k). Qed.

Lemma at_key_copy keys d k :
  at_key (copy_keys keys d) k = if existsb (String.eqb k) keys then at_key d k else None.
Proof.
  induction keys as [|k' keys IH]; [done|]. unfold copy_keys. cbn [omap list_omap existsb].
  fold (copy_keys keys d). destruct (String.eqb_spec k k') as [<-|Hne]; cbn [orb].
  - destruct (at_key d k) as [v|] eqn:E; cbn; [by rewrite String.eqb_refl|]. etransitivity; [exact IH|by destruct (existsb _ _)].
  - destruct (at_key d k'); cbn; [|exact IH]. destruct (String.eqb_spec k' k); [congruence|]. exact IH.
Qed.

Lemma encoding_mode_string mode : PLANKMacEncodingProfile mode = true -> exists s, mode = Some (VString s).
Proof. unfold PLANKMacEncodingProfile. destruct mode as [[| | | |s| |]|]; try done. by exists s. Qed.

(** The features of a successful negotiation, entry by entry. *)
Lemma negotiated request reply :
  PLANKMacNegotiateMedia (Some request) = (200, Some reply) ->
  exists offers required mode p rest choices c,
    key_of (Some request) "features" = Some (VDict offers) /\ key_of (Some request) "required_features" = Some required /\
    PLANKMacMediaRequired (Some required) = true /\ PLANKMacEncodingProfile mode = true /\
    p = [("schema_version"%string, VInt 1); ("encoding_mode"%string, default (VString EmptyString) mode)] /\
    at_key offers "desktop" = Some (VArray choices) /\ c ∈ choices /\ PLANKMacMediaContainsProfile (Some c) (Some p) = true /\
    map fst rest = other_names /\ Forall (fun e => entry_ok offers (Some required) mode e.1 e.2) rest /\
    at_key reply "features" = Some (VDict (("desktop"%string, VDict p) :: rest)) /\
    at_key reply "required_features" = Some required.
Proof.
  unfold PLANKMacNegotiateMedia, key_of. destruct (as_dict (Some request)) as [r|]; [|done]. cbn [mbind option_bind].
  destruct (at_key r "features") as [[| | | | | |offers]|]; try done. cbn [as_dict].
  destruct (_ || _); [done|]. destruct (_ || negb (PLANKMacMediaRequired _)) eqn:Hr; [done|]. guards.
  destruct (required_desktop (at_key r "required_features")) as [Hd [required Hreq]]; [done|].
  rewrite Hreq in *. destruct (select _ _ _ _ _) as [|out] eqn:Hs; [by intros [=]|].
  destruct (select_all offers (Some required) out Hd Hs) as (mode & p & rest & choices & c & ? & -> & ? & ? & ? & ? & ? & ?).
  intros [= <-]. exists offers, required, mode, p, rest, choices, c. split_and!; done.
Qed.

(** Looking up one of the other names among the selected entries. *)
Lemma rest_lookup (rest : dict) name :
  map fst rest = other_names -> name ∈ other_names ->
  exists v, at_key rest name = Some v /\ (name, v) ∈ rest.
Proof.
  intros Hm Hn. assert (forall l : dict, name ∈ map fst l -> exists v, at_key l name = Some v /\ (name, v) ∈ l) as H.
  { intros l. induction l as [|[k v] l IH]; [by intros ?%elem_of_nil|]. cbn [map fst at_key].
    destruct (String.eqb_spec k name) as [->|Hne]; [intros _; exists v; split; [done|by left]|].
    intros [->|Hin]%elem_of_cons; [done|]. destruct (IH Hin) as (w & ? & ?). exists w. split; [done|by right]. }
  apply H. by rewrite Hm.
Qed.

Lemma launch_desktop D mode :
  PLANKMacEncodingProfile mode = true -> (length D <= 32)%nat ->
  at_key D "schema_version" = Some (VInt 1) -> at_key D "encoding_mode" = mode ->
  PLANKMacMediaContainsProfile (Some (VDict D)) (PLANKMacMediaSelectedProfile "desktop" mode (Some (VDict D))) = true.
Proof.
  intros Hm Hl Hs He. destruct (encoding_mode_string mode Hm) as [s ->].
  unfold PLANKMacMediaSelectedProfile, PLANKMacMediaContainsProfile, as_dict. cbn [String.eqb Ascii.eqb Bool.eqb andb].
  change (PLANKMacMediaProfile "desktop" (Some (VString s))) with
    (Some [("schema_version"%string, VInt 1); ("encoding_mode"%string, VString s)]).
  rewrite (proj2 (Nat.leb_le _ _)) by done. unfold key_matches. cbn [forallb fst snd is_number length Nat.eqb negb andb].
  rewrite Hs, He. cbn. by rewrite String.eqb_refl.
Qed.


(** A client that offers two desktop modes (the host has one of them) and a microphone. *)
Definition example_request : value := VDict
  [("schema_version", VInt 1); ("transport", VString "plank-native/2");
   ("required_features", VArray [VString "input"; VString "audio"; VString "desktop"]);
   ("features", VDict
     [("desktop", VArray [VDict [("schema_version", VInt 1); ("encoding_mode", VString "hevc-8-444-nvenc")];
                          VDict [("schema_version", VInt 1); ("encoding_mode", VString "hevc-10-420-videotoolbox")]]);
      ("audio", VArray [VDict [("schema_version", VInt 1); ("codec", VString "opus"); ("sample_rate", VInt 48000);
                               ("channels", VInt 2); ("packet_duration_ms", VInt 5); ("later", VNull)]]);
      ("input", VArray [VDict [("schema_version", VInt 1); ("keyboard", VBool true); ("mouse", VString "absolute");
                               ("pen", VString "normalized")]]);
      ("microphone", VArray [VDict microphone_v3])])]%string.

Definition example_desktop : dict :=
  [("schema_version", VInt 1); ("encoding_mode", VString "hevc-10-420-videotoolbox"); ("width", VInt 1920);
   ("height", VInt 1080); ("frame_rate", VInt 60); ("bitrate_kbps", VInt 50000)]%string.
Definition example_features : dict :=
  [("desktop", VDict example_desktop);
   ("audio", VDict (default [] (PLANKMacMediaProfile "audio" None))); ("input", VDict (default [] (PLANKMacMediaProfile "input" None)));
   ("clipboard", VNull); ("microphone", VDict microphone_v3); ("camera", VNull)]%string.
Definition example_launch : dict :=
  [("schema_version", VInt 7); ("transport", VString "plank-native/2");
   ("required_features", VArray [VString "input"; VString "audio"; VString "desktop"]);
   ("capture_generation", VString "g"); ("capture_id", VString "1"); ("max_udp_payload_size", VInt 1400);
   ("features", VDict example_features)]%string.

