(* ===== verification/TapBuffer.v ===== *)
(** * TapBuffer: apps/host/macos/media/audio-tap-buffer.h

    The ring of 16 audio blocks between the HAL's real-time callback (producer) and
    the session queue (consumer).  The block fields are plain memory: the ring is
    correct only if the producer never touches a block the consumer reads.  The
    machine of [Atomic] interleaves both threads at every access; the consumer's
    client is the loop of [drain] in media/audio-tap.m, and stopping is its own. *)

From S2P Require Import Prelude.
From S2P Require Import Float32.
From S2P Require Import Atomic.

Definition PLANKTapSlots : Z := 16.
Definition PLANKTapMaxFrames : Z := 8192.

(** The fields of [PLANKTapBuffer], those of block [s] under its index. *)
Inductive loc :=
  | ReadIndex | WriteIndex | Failed | Overruns | Stopped
  | Frames (s : Z) | HostTime (s : Z) | CallbackTime (s : Z) | SampleTime (s : Z)
  | Sample (s i : Z).
#[export] Instance loc_eq_dec : EqDecision loc.
Proof. solve_decision. Defined.

Definition tap_slot_valid (s : Z) : bool := (0 <=? s) && (s <? PLANKTapSlots).
Definition tap_loc_valid (l : loc) : bool :=
  match l with
  | Frames s | HostTime s | CallbackTime s | SampleTime s => tap_slot_valid s
  | Sample s i => tap_slot_valid s && (0 <=? i) && (i <? PLANKTapMaxFrames * 2)
  | _ => true
  end.
#[export] Instance loc_location : Location loc := {| valid_loc := tap_loc_valid |}.

(** The blocks of a new buffer are uninitialised: any values. *)
Definition PLANKTapBufferInit (garbage : mem loc) : mem loc := fun l =>
  match l with ReadIndex | WriteIndex | Failed | Overruns | Stopped => 0 | _ => garbage l end.

(** ** The producer's call *)

(** The loop over the frames; [left] holds both channels when [right] is null. *)
Fixpoint push_samples {A} (fuel : nat) (s : Z) (left : list Z) (right : option (list Z))
    (frames i : Z) (done_ fail : prog loc A) : prog loc A :=
  if i <? frames then
    match fuel with
    | O => Undefined
    | S fuel' =>
        match load left (match right with Some _ => i | None => u32 (i * 2) end),
              match right with Some channel => load channel i | None => load left (u32 (u32 (i * 2) + 1)) end with
        | Some l, Some r =>
            if negb (isfinite l) || negb (isfinite r) then Store Failed 1 fail
            else Store (Sample s (u32 (i * 2))) l
                (Store (Sample s (u32 (u32 (i * 2) + 1))) r
                (push_samples fuel' s left right frames (u32 (i + 1)) done_ fail))
        | _, _ => Undefined
        end
    end
  else done_.

Definition push_refused (left : option (list Z)) (frames hostTime : Z) : bool :=
  match left with None => true | Some _ => false end ||
  (frames =? 0) || (PLANKTapMaxFrames <? frames) || (hostTime =? 0).

Definition PLANKTapPush (left right : option (list Z)) (frames hostTime sampleTime callbackTime : Z)
    : prog loc bool :=
  Load Stopped (fun stopped =>
  if negb (stopped =? 0) then Ret false
  else
    Load WriteIndex (fun write => Load ReadIndex (fun read =>
    match left, push_refused left frames hostTime with
    | Some samples, false =>
        if PLANKTapSlots <=? u32 (write - read)
        then Rmw Overruns (fun n => u32 (n + 1)) (fun _ => Ret false)
        else
          let s := write mod PLANKTapSlots in
          Store (Frames s) frames
          (Store (HostTime s) hostTime
          (Store (SampleTime s) sampleTime
          (Store (CallbackTime s) callbackTime
          (push_samples (Z.to_nat frames) s samples right frames 0
            (Store WriteIndex (u32 (write + 1)) (Ret true)) (Ret false)))))
    | _, _ => Store Failed 1 (Ret false)
    end))).

(** ** The consumer's calls *)

(** The slot of the block the returned pointer points to. *)
Definition PLANKTapPeek : prog loc (option Z) :=
  Load ReadIndex (fun read => Load WriteIndex (fun write =>
  if read =? write then Ret None else Ret (Some (read mod PLANKTapSlots)))).

Definition PLANKTapPop : prog loc unit :=
  Load ReadIndex (fun read => Store ReadIndex (u32 (read + 1)) (Ret tt)).

Definition PLANKTapDiscardOverrun : prog loc Z :=
  Rmw Overruns (fun _ => 0) (fun count =>
  if negb (count =? 0)
  then Load WriteIndex (fun write => Store ReadIndex write (Ret count))
  else Ret count).

(** A block, and the consumer's reading of one through its pointer. *)
Record block := mkBlock {
  b_frames : Z; b_hostTime : Z; b_callbackTime : Z; b_sampleTime : Z; b_samples : list Z }.

Fixpoint load_samples {A} (s i : Z) (n : nat) (acc : list Z) (k : list Z -> prog loc A) : prog loc A :=
  match n with
  | O => k acc
  | S n' => Load (Sample s i) (fun v => load_samples s (i + 1) n' (acc ++ [v]) k)
  end.

Definition use_block (s : Z) : prog loc block :=
  Load (Frames s) (fun frames => Load (HostTime s) (fun host =>
  Load (CallbackTime s) (fun callback => Load (SampleTime s) (fun sample =>
  load_samples s 0 (Z.to_nat (2 * frames)) [] (fun samples =>
  Ret (mkBlock frames host callback sample samples)))))).

(** ** The two threads *)

(** The channels of the frames [i .. i + n - 1], interleaved. *)
Definition channel (left : list Z) (right : option (list Z)) (j : nat) : Z :=
  match right with
  | Some r => if Nat.even j then nth (j / 2) left 0 else nth (j / 2) r 0
  | None => nth j left 0
  end.
Definition interleaved (left : list Z) (right : option (list Z)) (n : nat) : list Z :=
  map (channel left right) (seq 0 n).
Definition pushed_block (left : list Z) (right : option (list Z))
    (frames hostTime sampleTime callbackTime : Z) : block :=
  mkBlock frames hostTime callbackTime sampleTime (interleaved left right (Z.to_nat (2 * frames))).

(** What the HAL hands over: the buffers hold the frames it announces. *)
Definition hal_input (left right : option (list Z)) (frames : Z) : Prop :=
  in_range 32 frames /\
  match left, right with
  | Some l, Some r => frames <= len l /\ frames <= len r
  | Some l, None => frames * 2 <= len l
  | None, _ => True
  end.

(** The producer's state is the list of blocks it was told were accepted. *)
Inductive producer : client loc (list block) :=
  | p_push log left right frames hostTime sampleTime callbackTime :
      hal_input left right frames ->
      producer log bool (PLANKTapPush left right frames hostTime sampleTime callbackTime)
        (fun b => match b, left with
                  | true, Some l => log ++ [pushed_block l right frames hostTime sampleTime callbackTime]
                  | _, _ => log
                  end).

(** The consumer: nothing held, holding the block of a slot, or done reading it;
    [seen] are the blocks it read so far and [clean] says that none was skipped. *)
Inductive consumer_state :=
  | CIdle (seen : list block) (clean : bool)
  | CHold (s : Z) (seen : list block) (clean : bool)
  | CUsed (s : Z) (seen : list block) (clean : bool).

Inductive consumer : client loc consumer_state :=
  | c_discard seen clean :
      consumer (CIdle seen clean) Z PLANKTapDiscardOverrun (fun n => CIdle seen (clean && (n =? 0)))
  | c_peek seen clean :
      consumer (CIdle seen clean) (option Z) PLANKTapPeek
        (fun o => match o with Some s => CHold s seen clean | None => CIdle seen clean end)
  | c_use s seen clean :
      consumer (CHold s seen clean) block (use_block s) (fun b => CUsed s (seen ++ [b]) clean)
  | c_forget s seen clean :
      consumer (CHold s seen clean) unit (Ret tt) (fun _ => CIdle seen clean)
  | c_pop s seen clean :
      consumer (CUsed s seen clean) unit PLANKTapPop (fun _ => CIdle seen clean)
  | c_stop seen clean :
      consumer (CIdle seen clean) unit (Store Stopped 1 (Ret tt)) (fun _ => CIdle seen clean).

(** Ghost state: the published blocks and how many the consumer has left behind. *)
Record tap := mkTap { t_pushed : list block; t_read : Z }.

Definition block_at (m : mem loc) (s : Z) : block :=
  mkBlock (m (Frames s)) (m (HostTime s)) (m (CallbackTime s)) (m (SampleTime s))
    (map (fun j => m (Sample s (Z.of_nat j))) (seq 0 (Z.to_nat (2 * m (Frames s))))).

Definition producer_ghost : ghost_update (L:=loc) tap := fun l _ m g =>
  match l with
  | WriteIndex => mkTap (t_pushed g ++ [block_at m (m WriteIndex mod PLANKTapSlots)]) (t_read g)
  | _ => g
  end.
Definition consumer_ghost : ghost_update (L:=loc) tap := fun l v m g =>
  match l with
  | ReadIndex => mkTap (t_pushed g) (t_read g + u32 (v - m ReadIndex))
  | _ => g
  end.

Definition tap_init garbage : machine (G:=tap) (T1:=list block) (T2:=consumer_state) :=
  mkMachine (PLANKTapBufferInit garbage) (mkTap [] 0) (Idle []) (Idle (CIdle [] true)).
Definition tap_reachable garbage :=
  machine_reachable producer consumer producer_ghost consumer_ghost (tap_init garbage).

(** ** The invariant *)

Definition loc_slot (l : loc) : option Z :=
  match l with
  | Frames s | HostTime s | CallbackTime s | SampleTime s | Sample s _ => Some s
  | _ => None
  end.

Record tap_good (m : mem loc) (g : tap) : Prop := {
  tg_read : m ReadIndex = u32 (t_read g);
  tg_write : m WriteIndex = u32 (len (t_pushed g));
  tg_bounds : 0 <= t_read g <= len (t_pushed g) /\ len (t_pushed g) <= t_read g + 16;
  tg_blocks : forall i b, t_read g <= Z.of_nat i -> t_pushed g !! i = Some b ->
    block_at m (Z.of_nat i mod PLANKTapSlots) = b;
  tg_frames : Forall (fun b => 0 < b_frames b <= 8192) (t_pushed g) }.

(** The slots of the blocks that are published and not yet popped. *)
Definition held (g : tap) (s : Z) : Prop :=
  exists i, t_read g <= i < len (t_pushed g) /\ s = i mod PLANKTapSlots.

Definition producer_loc (l : loc) : Prop := l = WriteIndex \/ loc_slot l <> None.

Definition rely_p : mem loc -> tap -> mem loc -> tap -> Prop := fun m g m' g' =>
  tap_good m g -> tap_good m' g' /\ t_pushed g' = t_pushed g /\ t_read g <= t_read g' /\
    forall l, producer_loc l -> m' l = m l.
Definition rely_c : mem loc -> tap -> mem loc -> tap -> Prop := fun m g m' g' =>
  tap_good m g -> tap_good m' g' /\ t_read g' = t_read g /\ t_pushed g `prefix_of` t_pushed g' /\
    m' ReadIndex = m ReadIndex /\
    forall l s, loc_slot l = Some s -> held g s -> m' l = m l.
Definition guar_p (l : loc) m g m' g' : Prop :=
  rely_c m g m' g' /\ (tap_good m g -> forall s, loc_slot l = Some s -> ~ held g s).
(** The consumer reads block fields of the blocks it holds only. *)
Definition reads_p (l : loc) (m : mem loc) (g : tap) : Prop := True.
Definition reads_c (l : loc) (m : mem loc) (g : tap) : Prop :=
  tap_good m g /\ forall s, loc_slot l = Some s -> held g s.
Definition guar_c (l : loc) m g m' g' : Prop := rely_p m g m' g'.

Lemma held_prefix g g' s :
  t_read g' = t_read g -> t_pushed g `prefix_of` t_pushed g' -> held g s -> held g' s.
Proof.
  intros Hr Hp (i & Hi & ->). exists i. apply prefix_length in Hp. split; [lia|done].
Qed.

Lemma rely_p_refl m g : rely_p m g m g.
Proof. intros H. split_and!; try done; lia. Qed.
Lemma rely_c_refl m g : rely_c m g m g.
Proof. intros H. by split_and!. Qed.

Lemma rely_p_trans m1 g1 m2 g2 m3 g3 :
  rely_p m1 g1 m2 g2 -> rely_p m2 g2 m3 g3 -> rely_p m1 g1 m3 g3.
Proof.
  intros H12 H23 H1. destruct (H12 H1) as (H2 & E & ? & Hl). destruct (H23 H2) as (H3 & E' & ? & Hl').
  split_and!; [done|by rewrite E'|lia|]. intros l Hpl. by rewrite Hl', Hl.
Qed.

Lemma rely_c_trans m1 g1 m2 g2 m3 g3 :
  rely_c m1 g1 m2 g2 -> rely_c m2 g2 m3 g3 -> rely_c m1 g1 m3 g3.
Proof.
  intros H12 H23 H1. destruct (H12 H1) as (H2 & E & Hp & Hr & Hl).
  destruct (H23 H2) as (H3 & E' & Hp' & Hr' & Hl').
  split_and!; [done|congruence|by etrans|congruence|].
  intros l s Hs Hh. rewrite (Hl' l s), (Hl l s); try done. by eapply held_prefix.
Qed.

Lemma block_at_ext m m' s :
  (forall l, loc_slot l = Some s -> m' l = m l) -> block_at m' s = block_at m s.
Proof.
  intros H. unfold block_at. rewrite !H by done. f_equal. apply map_ext. intros j. by apply H.
Qed.

Lemma held_block g m i : tap_good m g -> t_read g <= i < len (t_pushed g) ->
  exists b, t_pushed g !! Z.to_nat i = Some b /\ block_at m (i mod PLANKTapSlots) = b /\
    0 < b_frames b <= 8192 /\ held g (i mod PLANKTapSlots).
Proof.
  intros Hg Hi. pose proof (tg_bounds _ _ Hg) as Hb.
  destruct (lookup_lt_is_Some_2 (t_pushed g) (Z.to_nat i)) as [b Hl]; [lia|].
  exists b. split; [done|]. split.
  { rewrite <- (tg_blocks _ _ Hg (Z.to_nat i) b) by (done || lia). do 2 f_equal. lia. }
  split; [|by exists i]. exact (proj1 (Forall_lookup _ _) (tg_frames _ _ Hg) _ _ Hl).
Qed.

(** A store outside the held blocks and the indices keeps everything. *)
Lemma store_private l v m g :
  l <> ReadIndex -> l <> WriteIndex -> (forall s, loc_slot l = Some s -> ~ held g s) ->
  tap_good m g -> tap_good (upd m l v) g.
Proof.
  intros HR HW Hs [Hr Hw Hb Hbl Hf]. constructor; [by rewrite upd_other..|done| |done].
  intros i b Hi Hl. rewrite <- (Hbl i b Hi Hl). apply block_at_ext. intros l' Hl'.
  apply upd_other. intros ->. apply (Hs _ Hl'). exists (Z.of_nat i).
  apply lookup_lt_Some in Hl. split; [lia|done].
Qed.

Lemma producer_store l v m g :
  l <> ReadIndex -> l <> WriteIndex -> (tap_good m g -> forall s, loc_slot l = Some s -> ~ held g s) ->
  producer_ghost l v m g = g /\ guar_p l m g (upd m l v) g.
Proof.
  intros HR HW Hs. split; [by destruct l|]. split; [|done]. intros Hg.
  split_and!; [by apply store_private; auto|done|done|by apply upd_other|].
  intros l' s Hs' Hh. apply upd_other. intros ->. by apply (Hs Hg s).
Qed.

Lemma consumer_store l v m g :
  l <> ReadIndex -> l <> WriteIndex -> loc_slot l = None ->
  consumer_ghost l v m g = g /\ guar_c l m g (upd m l v) g.
Proof.
  intros HR HW Hs. split; [by destruct l|]. intros Hg.
  split_and!; [apply store_private; by try rewrite Hs|done|lia|].
  intros l' [->|Hl']; apply upd_other; congruence.
Qed.

(** ** The producer *)

Definition inv_p (log : list block) (m : mem loc) (g : tap) : Prop :=
  tap_good m g /\ t_pushed g = log.

(** A push past its guards: the next slot is free, and [F] lists what was stored there. *)
Definition preparing (P : list block) (F : list (loc * Z)) (m : mem loc) (g : tap) : Prop :=
  tap_good m g /\ t_pushed g = P /\ len P - t_read g < 16 /\
  Forall (fun st => producer_loc st.1 /\ m st.1 = st.2) F.

Abbreviation rg_p := (rg rely_p guar_p reads_p producer_ghost).

Lemma inv_p_rely log m g m' g' : rely_p m g m' g' -> inv_p log m g -> inv_p log m' g'.
Proof. intros H [Hg <-]. destruct (H Hg) as (? & ? & _). done. Qed.

Lemma preparing_rely P F m g m' g' :
  rely_p m g m' g' -> preparing P F m g -> preparing P F m' g'.
Proof.
  intros H (Hg & <- & Hlen & HF). destruct (H Hg) as (Hg' & E & Hr & Hl).
  split_and!; [done|done|lia|]. eapply Forall_impl; [exact HF|]. cbn. intros st [Hst <-].
  split; [done|]. by apply Hl.
Qed.

Lemma slot_free P F m g :
  preparing P F m g -> ~ held g (len P mod PLANKTapSlots).
Proof.
  intros (Hg & E & Hlen & _) (i & Hi & Ei). pose proof (tg_bounds _ _ Hg).
  rewrite E in Hi. unfold PLANKTapSlots in Ei. Z.div_mod_to_equations. lia.
Qed.

Lemma rg_put P F l v (k : prog loc bool) Q m g :
  loc_slot l = Some (len P mod PLANKTapSlots) -> valid_loc l = true -> l ∉ F.*1 ->
  (forall m g, preparing P (F ++ [(l, v)]) m g -> rg_p k Q m g) ->
  preparing P F m g -> rg_p (Store l v k) Q m g.
Proof.
  intros Hs Hv HF Hk Hp. split; [done|]. intros m' g' Hr.
  pose proof (preparing_rely _ _ _ _ _ _ Hr Hp) as Hp'. pose proof (slot_free _ _ _ _ Hp') as Hfree.
  destruct (producer_store l v m' g') as [-> Hg];
    [by destruct l|by destruct l|intros _ s; rewrite Hs; by intros [= <-]|].
  split; [done|]. apply Hk. destruct Hp' as (Hgood & E & Hlen & HF').
  destruct (proj1 Hg Hgood) as (Hgood' & _). split_and!; [done..|].
  apply Forall_app. split; [|constructor; [|constructor]].
  - apply Forall_forall. intros st Hst. destruct (proj1 (Forall_forall _ _) HF' _ Hst) as [? <-].
    split; [done|]. apply upd_other. intros ->. apply HF, list_elem_of_fmap. by exists st.
  - cbn. split; [right; congruence|apply upd_same].
Qed.

Lemma rg_private P l v (k : prog loc bool) Q m g :
  l = Failed \/ l = Overruns -> inv_p P m g ->
  (forall m g, inv_p P m g -> rg_p k Q m g) -> rg_p (Store l v k) Q m g.
Proof.
  intros Hl Hp Hk. split; [by destruct Hl as [-> | ->]|]. intros m' g' Hr.
  pose proof (inv_p_rely _ _ _ _ _ Hr Hp) as [Hg E].
  destruct (producer_store l v m' g') as [-> Hgu]; [by destruct Hl as [-> | ->]..|].
  split; [done|]. apply Hk. by destruct (proj1 Hgu Hg) as (? & _).
Qed.

(** What the stores of a push leave in its slot. *)
Definition header_stores (s frames hostTime sampleTime callbackTime : Z) : list (loc * Z) :=
  [(Frames s, frames); (HostTime s, hostTime); (SampleTime s, sampleTime); (CallbackTime s, callbackTime)].
Definition sample_stores (s : Z) (left : list Z) (right : option (list Z)) (n : nat) : list (loc * Z) :=
  map (fun j => (Sample s (Z.of_nat j), channel left right j)) (seq 0 n).

Lemma prepared_block P s left right frames h t c m g :
  0 <= frames ->
  preparing P (header_stores s frames h t c ++ sample_stores s left right (Z.to_nat (2 * frames))) m g ->
  block_at m s = pushed_block left right frames h t c.
Proof.
  intros Hf (_ & _ & _ & HF). unfold header_stores in HF.
  cbn [app] in HF. do 4 (apply Forall_cons in HF as [[_ ?] HF]; cbn in *).
  unfold block_at, pushed_block. f_equal; [done..|].
  unfold interleaved. rewrite H. apply map_ext_in. intros j Hj.
  unfold sample_stores in HF. rewrite Forall_map, Forall_forall in HF.
  destruct (HF j) as [_ Hx]; [by apply list_elem_of_In|]. done.
Qed.

Lemma rg_publish P F b m g :
  0 < b_frames b <= 8192 ->
  (forall m g, preparing P F m g -> block_at m (len P mod PLANKTapSlots) = b) -> preparing P F m g ->
  rg_p (Store WriteIndex (u32 (u32 (len P) + 1)) (Ret true))
    (fun ok => inv_p (if ok then P ++ [b] else P)) m g.
Proof.
  intros Hfr Hblock Hp. split; [done|]. intros m' g' Hr.
  pose proof (preparing_rely _ _ _ _ _ _ Hr Hp) as Hp'. pose proof (Hblock _ _ Hp') as Hb.
  destruct Hp' as (Hg & E & Hlen & _).
  pose proof (tg_bounds _ _ Hg) as Hbd.
  assert (m' WriteIndex mod PLANKTapSlots = len P mod PLANKTapSlots) as Hs.
  { rewrite (tg_write _ _ Hg), E. unfold PLANKTapSlots, wrap. pows. Z.div_mod_to_equations. lia. }
  cbn [producer_ghost]. rewrite Hs, Hb, E.
  assert (forall s, block_at (upd m' WriteIndex (u32 (u32 (len P) + 1))) s = block_at m' s) as Hsame.
  { intros s. apply block_at_ext. intros l Hl. apply upd_other. by intros <-. }
  assert (tap_good (upd m' WriteIndex (u32 (u32 (len P) + 1))) (mkTap (P ++ [b]) (t_read g'))) as Hg'.
  { rewrite E in Hbd. constructor; cbn [t_pushed t_read].
    - rewrite upd_other by done. apply Hg.
    - rewrite upd_same, length_app. cbn. unfold wrap. pows. Z.div_mod_to_equations. lia.
    - rewrite length_app. cbn. lia.
    - intros i b' Hi Hl. rewrite Hsame. apply lookup_app_Some in Hl as [Hl|[Hge Hl]].
      + apply (tg_blocks _ _ Hg); [done|by rewrite E].
      + apply list_lookup_singleton_Some in Hl as [Hi0 <-].
        rewrite <- Hb. f_equal. f_equal. lia.
    - apply Forall_app. split; [rewrite <- E; apply Hg|by constructor]. }
  split; [|split; [done|reflexivity]]. split; [|done]. intros _. cbn. rewrite E. split_and!; try done.
  - by apply prefix_app_r.
  - intros l s Hl _. apply upd_other. by intros <-.
Qed.

Lemma load_nth (l : list Z) (i : nat) : (i < length l)%nat -> load l (Z.of_nat i) = Some (nth i l 0).
Proof. intros H. rewrite load_nat. destruct (nth_lookup_or_length l i 0); [done|lia]. Qed.

Lemma load_channels l r frames (i : nat) :
  hal_input (Some l) r frames -> Z.of_nat i < frames <= PLANKTapMaxFrames ->
  load l (match r with Some _ => Z.of_nat i | None => u32 (Z.of_nat i * 2) end) =
    Some (channel l r (2 * i)) /\
  match r with Some x => load x (Z.of_nat i) | None => load l (u32 (u32 (Z.of_nat i * 2) + 1)) end =
    Some (channel l r (2 * i + 1)).
Proof.
  intros [_ Hin] Hi. unfold PLANKTapMaxFrames in Hi.
  rewrite !(wrap_small 32) by (ranges; try (rewrite Z.mod_small by lia); lia).
  replace (Z.of_nat i * 2) with (Z.of_nat (2 * i)) by lia.
  replace (Z.of_nat (2 * i) + 1) with (Z.of_nat (2 * i + 1)) by lia.
  unfold channel. destruct r as [r|].
  - rewrite !load_nth by lia. rewrite Nat.even_even, Nat.even_odd.
    replace (2 * i / 2)%nat with i by (rewrite Nat.mul_comm, Nat.div_mul; lia).
    replace ((2 * i + 1) / 2)%nat with i; [done|].
    rewrite Nat.add_comm, Nat.mul_comm, Nat.div_add by lia. done.
  - by rewrite !load_nth by lia.
Qed.

Lemma fresh_sample s l r frames h t c n x :
  Z.of_nat n <= x -> Sample s x ∉ (header_stores s frames h t c ++ sample_stores s l r n).*1.
Proof.
  intros Hx. rewrite fmap_app, not_elem_of_app. split.
  - not_listed.
  - unfold sample_stores. rewrite <- list_fmap_compose. intros (j & [= ->] & Hj)%list_elem_of_fmap.
    apply elem_of_seq in Hj. lia.
Qed.

Lemma rg_samples P l r frames h t c fuel n i m g :
  hal_input (Some l) r frames -> 0 < frames <= PLANKTapMaxFrames ->
  frames = Z.of_nat (i + n) -> (n <= fuel)%nat ->
  let s := len P mod PLANKTapSlots in
  preparing P (header_stores s frames h t c ++ sample_stores s l r (2 * i)) m g ->
  rg_p (push_samples fuel s l r frames (Z.of_nat i)
      (Store WriteIndex (u32 (u32 (len P) + 1)) (Ret true)) (Ret false))
    (fun ok => inv_p (if ok then P ++ [pushed_block l r frames h t c] else P)) m g.
Proof.
  intros Hin Hfr. revert fuel i m g. induction n as [|n IH]; intros fuel i m g Hn Hfuel s Hp.
  - assert (push_samples fuel s l r frames (Z.of_nat i)
      (Store WriteIndex (u32 (u32 (len P) + 1)) (Ret true)) (Ret false) =
      Store WriteIndex (u32 (u32 (len P) + 1)) (Ret true)) as ->.
    { destruct fuel; cbn [push_samples]; by rewrite (proj2 (Z.ltb_ge _ _)) by lia. }
    eapply (rg_publish P _ (pushed_block l r frames h t c)); [exact Hfr| |exact Hp]. intros m' g' Hp'. apply (prepared_block P _ _ _ _ _ _ _ _ g'); [lia|].
    replace (Z.to_nat (2 * frames)) with (2 * i)%nat by lia. done.
  - destruct fuel as [|fuel]; [lia|]. cbn [push_samples].
    rewrite (proj2 (Z.ltb_lt _ _)) by lia.
    destruct (load_channels l r frames i Hin ltac:(lia)) as [-> ->].
    destruct (negb (isfinite _) || _).
    { apply (rg_private P); [by left|by destruct Hp as (? & ? & _)|]. by intros. }
    unfold PLANKTapMaxFrames in Hfr.
    rewrite !(wrap_small 32) by (ranges; try (rewrite Z.mod_small by lia); lia).
    assert (forall x, valid_loc (Sample s x) = (0 <=? x) && (x <? 16384)) as Hv.
    { intros x. cbn. unfold tap_slot_valid.
      pose proof (Z.mod_pos_bound (len P) 16). unfold s, PLANKTapSlots, PLANKTapMaxFrames in *. lia. }
    apply (rg_put P (header_stores s frames h t c ++ sample_stores s l r (2 * i)));
      [done|rewrite Hv; lia| | |done].
    { apply fresh_sample; lia. }
    intros m1 g1 Hp1. eapply rg_put; [done|rewrite Hv; lia| | |exact Hp1].
    { rewrite fmap_app, not_elem_of_app. split; [apply fresh_sample; lia|].
      cbn. rewrite list_elem_of_singleton. intros [= ?]. lia. }
    intros m2 g2 Hp2. replace (Z.of_nat i + 1) with (Z.of_nat (S i)) by lia.
    apply IH; [lia|lia|]. fold s.
    replace (2 * S i)%nat with (2 * i + 1 + 1)%nat by lia.
    unfold sample_stores in *. rewrite !seq_app, !map_app. cbn [seq map Nat.add].
    rewrite !app_assoc in *. 
    replace (Z.of_nat (2 * i)) with (Z.of_nat i * 2) by lia.
    replace (Z.of_nat (2 * i + 1)) with (Z.of_nat i * 2 + 1) by lia. exact Hp2.
Qed.

Lemma rg_push P left right frames h t c m g :
  hal_input left right frames -> inv_p P m g ->
  rg_p (PLANKTapPush left right frames h t c)
    (fun b => inv_p (match b, left with
                     | true, Some l => P ++ [pushed_block l right frames h t c]
                     | _, _ => P end)) m g.
Proof.
  intros Hin Hinv. split; [done|]. intros m1 g1 H1. pose proof (inv_p_rely _ _ _ _ _ H1 Hinv) as I1.
  split; [done|].
  destruct (negb _). { by destruct left. }
  split; [done|]. intros m2 g2 H2. pose proof (inv_p_rely _ _ _ _ _ H2 I1) as I2. split; [done|].
  split; [done|]. intros m3 g3 H3. pose proof (inv_p_rely _ _ _ _ _ H3 I2) as I3. split; [done|].
  destruct left as [l|]; [|apply (rg_private P); [by left|done|done]].
  destruct (push_refused (Some l) frames h) eqn:Hr; [apply (rg_private P); [by left|done|done]|].
  unfold push_refused in Hr. guards.
  destruct I2 as [G2 E2], I3 as [G3 E3]. rewrite (tg_write _ _ G2), (tg_read _ _ G3), E2.
  pose proof (tg_bounds _ _ G3) as Hb. rewrite E3 in Hb.
  replace (u32 (u32 (len P) - u32 (t_read g3))) with (len P - t_read g3)
    by (unfold wrap; pows; Z.div_mod_to_equations; lia).
  destruct (Z.leb_spec PLANKTapSlots (len P - t_read g3)) as [Hfull|Hroom].
  { split; [done|]. intros m4 g4 Hr4. pose proof (inv_p_rely _ _ _ _ _ Hr4 (conj G3 E3)) as [G4 E4].
    destruct (producer_store Overruns (u32 (m4 Overruns + 1)) m4 g4) as [-> Hgu]; [done..|].
    split; [done|]. by destruct (proj1 Hgu G4) as (? & _). }
  assert (0 < frames <= PLANKTapMaxFrames) as Hfr by (destruct Hin as [? _]; ranges; lia).
  replace (u32 (len P) mod PLANKTapSlots) with (len P mod PLANKTapSlots)
    by (unfold wrap, PLANKTapSlots; pows; Z.div_mod_to_equations; lia).
  set (s := len P mod PLANKTapSlots).
  assert (tap_slot_valid s = true) as Hv by
    (unfold tap_slot_valid, s, PLANKTapSlots; pose proof (Z.mod_pos_bound (len P) 16); lia).
  assert (preparing P [] m3 g3) as Hp by (split_and!; [done..|]; unfold PLANKTapSlots in *; lia || done).
  revert Hp. eapply (rg_put P); [done|done|not_listed|]. intros m4 g4.
  eapply (rg_put P); [done|done|not_listed|]. intros m5 g5.
  eapply (rg_put P); [done|done|not_listed|]. intros m6 g6.
  eapply (rg_put P); [done|done|not_listed|]. intros m7 g7 Hp.
  apply (rg_samples P l right frames h t c (Z.to_nat frames) (Z.to_nat frames) 0); [done..|lia|lia|].
  exact Hp.
Qed.

(** ** The consumer *)

Definition consumer_seen (seen : list block) (clean : bool) (g : tap) (n : Z) : Prop :=
  seen `sublist_of` take (Z.to_nat n) (t_pushed g) /\
  (clean = true -> seen = take (Z.to_nat n) (t_pushed g)).

Definition inv_c (st : consumer_state) (m : mem loc) (g : tap) : Prop :=
  tap_good m g /\
  match st with
  | CIdle seen clean => consumer_seen seen clean g (t_read g)
  | CHold s seen clean => consumer_seen seen clean g (t_read g) /\
      t_read g < len (t_pushed g) /\ s = t_read g mod PLANKTapSlots
  | CUsed s seen clean => consumer_seen seen clean g (t_read g + 1) /\
      t_read g < len (t_pushed g) /\ s = t_read g mod PLANKTapSlots
  end.

Abbreviation rg_c := (rg rely_c guar_c reads_c consumer_ghost).

Lemma take_prefix {A} (l l' : list A) n : (n <= length l)%nat -> l `prefix_of` l' -> take n l' = take n l.
Proof. intros Hn [k ->]. by apply take_app_le. Qed.

Lemma consumer_seen_mono seen clean g g' n :
  n <= len (t_pushed g) -> t_pushed g `prefix_of` t_pushed g' ->
  consumer_seen seen clean g n -> consumer_seen seen clean g' n.
Proof.
  intros Hn Hp. unfold consumer_seen. by rewrite (take_prefix (t_pushed g) (t_pushed g')) by (done || lia).
Qed.

Lemma inv_c_rely st m g m' g' : inv_c st m g -> rely_c m g m' g' -> inv_c st m' g'.
Proof.
  intros [Hg Hst] Hr. destruct (Hr Hg) as (Hg' & E & Hp & _). split; [done|].
  pose proof (tg_bounds _ _ Hg) as Hb. pose proof (prefix_length _ _ Hp).
  destruct st; [|destruct Hst as (Hst & ? & ->)..]; rewrite E; [|split_and!; [|lia|done]..];
    (eapply consumer_seen_mono; [|exact Hp|exact Hst]); lia.
Qed.

(** Moving the read index forward. *)
Lemma consumer_advance m g v n :
  tap_good m g -> t_read g <= n <= len (t_pushed g) -> v = u32 n ->
  let g' := consumer_ghost ReadIndex v m g in
  g' = mkTap (t_pushed g) n /\ guar_c ReadIndex m g (upd m ReadIndex v) g' /\
  tap_good (upd m ReadIndex v) g'.
Proof.
  intros Hg Hn -> g'. pose proof (tg_bounds _ _ Hg) as Hb.
  assert (g' = mkTap (t_pushed g) n) as ->.
  { unfold g'. cbn. f_equal. rewrite (tg_read _ _ Hg). unfold wrap. pows. Z.div_mod_to_equations. lia. }
  assert (tap_good (upd m ReadIndex (u32 n)) (mkTap (t_pushed g) n)) as Hg'.
  { destruct Hg as [? ? _ Hbl ?]. constructor; cbn; [by rewrite upd_same|by rewrite upd_other|lia| |done].
    intros i b Hi Hl. rewrite <- (Hbl i b) by (done || lia). apply block_at_ext.
    intros l Hl'. apply upd_other. by intros <-. }
  split_and!; [done| |done]. intros _. split_and!; [done|done|cbn; lia|].
  intros l Hl. apply upd_other. intros <-. by destruct Hl.
Qed.

Lemma reads_index l st m g : inv_c st m g -> loc_slot l = None -> reads_c l m g.
Proof. intros [Hg _] Hl. split; [done|]. by rewrite Hl. Qed.

Lemma rg_discard seen clean m g :
  inv_c (CIdle seen clean) m g ->
  rg_c PLANKTapDiscardOverrun (fun n => inv_c (CIdle seen (clean && (n =? 0)))) m g.
Proof.
  intros Hi. split; [done|]. intros m1 g1 H1. pose proof (inv_c_rely _ _ _ _ _ Hi H1) as [G1 S1].
  destruct (consumer_store Overruns 0 m1 g1) as [-> Hgu]; [done..|]. split; [done|].
  destruct (Hgu G1) as (G2 & _). destruct (Z.eqb_spec (m1 Overruns) 0) as [->|Hn]; cbn [negb].
  { split; [done|]. by rewrite andb_true_r. }
  assert (inv_c (CIdle seen clean) (upd m1 Overruns 0) g1) as I2 by done.
  split; [done|]. intros m3 g3 H3. pose proof (inv_c_rely _ _ _ _ _ I2 H3) as I3.
  split; [by eapply reads_index|].
  split; [done|]. intros m4 g4 H4. pose proof (inv_c_rely _ _ _ _ _ I3 H4) as [G4 S4].
  destruct I3 as [G3 S3]. destruct (H4 G3) as (_ & _ & Hp & _). apply prefix_length in Hp.
  pose proof (tg_bounds _ _ G3). pose proof (tg_bounds _ _ G4). destruct (H4 G3) as (_ & E & _).
  destruct (consumer_advance m4 g4 (m3 WriteIndex) (len (t_pushed g3))) as (-> & Hg & G5);
    [done|lia|apply G3|].
  split; [done|]. split; [done|]. cbn [t_pushed t_read]. rewrite (proj2 (Z.eqb_neq _ _) Hn), andb_false_r.
  split; [|done]. destruct S4 as [S4 _]. etrans; [exact S4|].
  cbn. replace (Z.to_nat (t_read g4)) with (Nat.min (Z.to_nat (t_read g4)) (Z.to_nat (len (t_pushed g3)))) by lia.
  rewrite <- take_take. apply sublist_take.
Qed.

Lemma rg_peek seen clean m g :
  inv_c (CIdle seen clean) m g ->
  rg_c PLANKTapPeek
    (fun o => inv_c (match o with Some s => CHold s seen clean | None => CIdle seen clean end)) m g.
Proof.
  intros Hi. split; [done|]. intros m1 g1 H1. pose proof (inv_c_rely _ _ _ _ _ Hi H1) as I1.
  split; [by eapply reads_index|].
  split; [done|]. intros m2 g2 H2. pose proof (inv_c_rely _ _ _ _ _ I1 H2) as I2.
  split; [by eapply reads_index|].
  destruct I1 as [G1 _], I2 as [G2 S2]. destruct (H2 G1) as (_ & E & _).
  rewrite (tg_read _ _ G1), (tg_write _ _ G2), <- E.
  pose proof (tg_bounds _ _ G2). destruct (Z.eqb_spec (u32 (t_read g2)) (u32 (len (t_pushed g2)))) as [Eq|Hne]; [done|].
  split; [done|]. split_and!; [done..| |].
  - destruct (Z.eq_dec (t_read g2) (len (t_pushed g2))) as [E'|]; [by rewrite E' in Hne|lia].
  - unfold wrap, PLANKTapSlots. pows. Z.div_mod_to_equations. lia.
Qed.

Lemma rg_pop s seen clean m g :
  inv_c (CUsed s seen clean) m g -> rg_c PLANKTapPop (fun _ => inv_c (CIdle seen clean)) m g.
Proof.
  intros Hi. split; [done|]. intros m1 g1 H1. pose proof (inv_c_rely _ _ _ _ _ Hi H1) as I1.
  split; [by eapply reads_index|].
  split; [done|]. intros m2 g2 H2. pose proof (inv_c_rely _ _ _ _ _ I1 H2) as I2.
  destruct I1 as [G1 _], I2 as (G2 & S2 & Hlt & _). destruct (H2 G1) as (_ & E & _).
  pose proof (tg_bounds _ _ G2).
  destruct (consumer_advance m2 g2 (u32 (m1 ReadIndex + 1)) (t_read g2 + 1)) as (-> & Hg & G3);
    [done|lia|rewrite (tg_read _ _ G1), E; unfold wrap; pows; Z.div_mod_to_equations; lia|].
  split; [done|]. by split.
Qed.

(** Reading the block that is held. *)
Definition holding s seen clean (b : block) (m : mem loc) (g : tap) : Prop :=
  inv_c (CHold s seen clean) m g /\ t_pushed g !! Z.to_nat (t_read g) = Some b.

Lemma holding_rely s seen clean b m g m' g' :
  rely_c m g m' g' -> holding s seen clean b m g -> holding s seen clean b m' g'.
Proof.
  intros Hr [Hi Hb]. split; [by eapply inv_c_rely|]. destruct (Hr (proj1 Hi)) as (_ & -> & Hp & _).
  by eapply prefix_lookup_Some.
Qed.

Lemma holding_block s seen clean b m g :
  holding s seen clean b m g ->
  block_at m s = b /\ 0 < b_frames b <= 8192 /\ tap_slot_valid s = true.
Proof.
  intros [(Hg & _ & Hlt & ->) Hb]. pose proof (tg_bounds _ _ Hg). split_and!.
  - rewrite <- (tg_blocks _ _ Hg (Z.to_nat (t_read g)) b) by (done || lia). do 2 f_equal. lia.
  - apply (proj1 (Forall_lookup _ _) (tg_frames _ _ Hg) _ _ Hb).
  - apply (proj1 (Forall_lookup _ _) (tg_frames _ _ Hg) _ _ Hb).
  - unfold tap_slot_valid, PLANKTapSlots. pose proof (Z.mod_pos_bound (t_read g) 16). lia.
Qed.

Lemma holding_used s seen clean b m g :
  holding s seen clean b m g -> inv_c (CUsed s (seen ++ [b]) clean) m g.
Proof.
  intros [(Hg & [Hs Hc] & Hlt & Es) Hb]. split; [done|]. split; [|done].
  pose proof (tg_bounds _ _ Hg). apply take_S_r in Hb. unfold consumer_seen.
  replace (Z.to_nat (t_read g + 1)) with (S (Z.to_nat (t_read g))) by lia.
  rewrite Hb. split; [by apply sublist_app|].
  intros E. by rewrite <- Hc.
Qed.

Lemma rg_load_held s seen clean b l A (k : Z -> prog loc A) Q m g :
  loc_slot l = Some s ->   valid_loc l = true -> holding s seen clean b m g ->
  (forall m g, holding s seen clean b m g -> block_at m s = b -> rg_c (k (m l)) Q m g) ->
  rg_c (Load l k) Q m g.
Proof.
  intros Hs Hv Hh Hk. split; [done|]. intros m' g' Hr. pose proof (holding_rely _ _ _ _ _ _ _ _ Hr Hh) as Hh'.
  split.
  { pose proof Hh' as [(Hg & _ & ? & ->) _]. split; [done|]. intros s'. rewrite Hs. intros [= <-].
    exists (t_read g'). split; [lia|done]. }
  apply Hk; [done|]. apply (holding_block _ _ _ _ _ _ Hh').
Qed.

Lemma rg_load_samples s seen clean b Q (k : list Z -> prog loc block) n i acc m g :
  (i + n = Z.to_nat (2 * b_frames b))%nat -> acc = take i (b_samples b) ->
  (forall m g, holding s seen clean b m g -> rg_c (k (b_samples b)) Q m g) ->
  holding s seen clean b m g -> rg_c (load_samples s (Z.of_nat i) n acc k) Q m g.
Proof.
  intros Hn Hacc Hk. revert i acc m g Hn Hacc. induction n as [|n IH]; intros i acc m g Hn -> Hh.
  - cbn. destruct (holding_block _ _ _ _ _ _ Hh) as (Hb & _ & _). rewrite take_ge; [by apply Hk in Hh|].
    rewrite <- Hb. cbn. rewrite length_map, length_seq. rewrite <- Hb in Hn. cbn in Hn. lia.
  - cbn [load_samples]. destruct (holding_block _ _ _ _ _ _ Hh) as (_ & Hf & Hv).
    eapply rg_load_held; [done|cbn; unfold PLANKTapMaxFrames; lia|exact Hh|].
    intros m' g' Hh' Hb. replace (Z.of_nat i + 1) with (Z.of_nat (S i)) by lia.
    apply IH; [lia| |done]. symmetry. apply take_S_r. rewrite <- Hb. cbn [block_at b_samples].
    rewrite <- Hb in Hn. cbn [block_at b_frames] in Hn.
    apply list_lookup_fmap_Some_2 || (rewrite list_lookup_fmap, lookup_seq_lt by lia; done).
Qed.

Lemma rg_use s seen clean m g :
  inv_c (CHold s seen clean) m g ->
  rg_c (use_block s) (fun b => inv_c (CUsed s (seen ++ [b]) clean)) m g.
Proof.
  intros Hi. destruct (lookup_lt_is_Some_2 (t_pushed g) (Z.to_nat (t_read g))) as [b Hb].
  { destruct Hi as (Hg & _ & ? & _). pose proof (tg_bounds _ _ Hg). lia. }
  assert (holding s seen clean b m g) as Hh by by split.
  destruct (holding_block _ _ _ _ _ _ Hh) as (_ & _ & Hv).
  eapply rg_load_held; [done|done|exact Hh|]. intros m1 g1 H1 B1.
  eapply rg_load_held; [done|done|exact H1|]. intros m2 g2 H2 B2.
  eapply rg_load_held; [done|done|exact H2|]. intros m3 g3 H3 B3.
  eapply rg_load_held; [done|done|exact H3|]. intros m4 g4 H4 B4.
  replace (m1 (Frames s)) with (b_frames b) by by rewrite <- B1.
  replace (m2 (HostTime s)) with (b_hostTime b) by by rewrite <- B2.
  replace (m3 (CallbackTime s)) with (b_callbackTime b) by by rewrite <- B3.
  replace (m4 (SampleTime s)) with (b_sampleTime b) by by rewrite <- B4.
  apply (rg_load_samples s seen clean b _ _ _ 0); [done|done| |done].
  intros m5 g5 H5. replace (mkBlock _ _ _ _ _) with b by by destruct b.
  by apply holding_used.
Qed.

(** ** The two threads together *)

Lemma rg_producer : rg_thread producer producer_ghost rely_p guar_p reads_p inv_p.
Proof.
  constructor; [apply rely_p_refl|apply rely_p_trans|intros; by eapply inv_p_rely|].
  intros log A p ret m g Hi Hc. destruct Hc. by apply rg_push.
Qed.

Lemma rg_consumer : rg_thread consumer consumer_ghost rely_c guar_c reads_c inv_c.
Proof.
  constructor; [apply rely_c_refl|apply rely_c_trans|intros; by eapply inv_c_rely|].
  intros st A p ret m g Hi Hc. destruct Hc.
  - by apply rg_discard.
  - by apply rg_peek.
  - by apply rg_use.
  - by destruct Hi as (? & ? & _).
  - by eapply rg_pop.
  - split; [done|]. intros m' g' Hr. pose proof (inv_c_rely _ _ _ _ _ Hi Hr) as [G S].
    destruct (consumer_store Stopped 1 m' g') as [-> Hgu]; [done..|]. split; [done|].
    by destruct (Hgu G) as (? & _).
Qed.

Definition tap_inv := machine_inv producer_ghost consumer_ghost rely_p rely_c guar_p guar_c reads_p reads_c inv_p inv_c.

Lemma tap_invariant garbage c : tap_reachable garbage c -> tap_inv c.
Proof.
  apply (machine_invariant _ _ _ _ _ _ _ _ _ _ _ _ rg_producer rg_consumer).
  - by intros ????? [? _].
  - done.
  - assert (tap_good (PLANKTapBufferInit garbage) (mkTap [] 0)) by (by constructor).
    split; [by split|]. by split.
Qed.

(** ** A push no one interferes with *)

Definition frames_finite (left : list Z) (right : option (list Z)) (frames : Z) : bool :=
  forallb isfinite (interleaved left right (Z.to_nat (2 * frames))).

Definition push_full (m : mem loc) : bool := PLANKTapSlots <=? u32 (m WriteIndex - m ReadIndex).

(** Why a push fails: stopped, a bad argument, a full ring, or a bad sample. *)
Definition push_spec (left right : option (list Z)) (frames hostTime : Z) (m : mem loc)
    : bool * Z * Z :=
  if negb (m Stopped =? 0) then (false, m Failed, m Overruns)
  else match left with
  | Some l =>
      if push_refused left frames hostTime then (false, 1, m Overruns)
      else if push_full m then (false, m Failed, u32 (m Overruns + 1))
      else if frames_finite l right frames then (true, m Failed, m Overruns)
      else (false, 1, m Overruns)
  | None => (false, 1, m Overruns)
  end.

Lemma run_push_samples l r frames s (D F : prog loc bool) fuel n i m b m' :
  hal_input (Some l) r frames -> frames <= PLANKTapMaxFrames ->
  frames = Z.of_nat (i + n) -> (n <= fuel)%nat ->
  run (push_samples fuel s l r frames (Z.of_nat i) D F) m = Some (b, m') ->
  exists m1, (forall l', loc_slot l' = None -> m1 l' = m l') /\
    (if forallb isfinite (map (channel l r) (seq (2 * i) (2 * n)))
     then run D m1 = Some (b, m') else run F (upd m1 Failed 1) = Some (b, m')).
Proof.
  intros Hin Hmax. revert fuel i m. induction n as [|n IH]; intros fuel i m Hn Hfuel Hrun.
  - exists m. split; [done|]. cbn.
    destruct fuel; cbn [push_samples] in Hrun; by rewrite (proj2 (Z.ltb_ge _ _)) in Hrun by lia.
  - destruct fuel as [|fuel]; [lia|]. cbn [push_samples] in Hrun.
    rewrite (proj2 (Z.ltb_lt _ _)) in Hrun by lia.
    destruct (load_channels l r frames i Hin ltac:(lia)) as [E1 E2]. rewrite E1, E2 in Hrun.
    replace (2 * S n)%nat with (S (S (2 * n))) by lia. cbn [seq map forallb].
    replace (S (2 * i)) with (2 * i + 1)%nat by lia. rewrite andb_assoc.
    rewrite <- negb_andb in Hrun. destruct (isfinite _ && isfinite _); cbn [negb andb] in *.
    2: { exists m. by split. }
    cbn [run] in Hrun. repeat (destruct (valid_loc _) in Hrun; [|done]).
    unfold PLANKTapMaxFrames in Hmax. rewrite (wrap_small 32 (Z.of_nat i + 1)) in Hrun by (ranges; lia).
    replace (Z.of_nat i + 1) with (Z.of_nat (S i)) in Hrun by lia.
    edestruct (IH fuel (S i)) as (m1 & Hm1 & H1); [lia|lia|exact Hrun|].
    replace (S (2 * i + 1)) with (2 * S i)%nat by lia.
    exists m1. split; [|exact H1]. intros l' Hl'. rewrite Hm1 by done.
    by rewrite !upd_other by by intros <-.
Qed.

(** ** Properties *)

(** C6: in every interleaving of the callback's and the session queue's memory
    accesses no access is undefined; the producer never stores into the block the
    consumer is reading (two simultaneous accesses
    to one location only ever meet at the atomic fields); and whenever both are
    between calls, the blocks the consumer has read are whole accepted blocks in
    the order they were pushed, each at most once - exactly the accepted ones, from
    the first, as long as no overrun made it skip some. *)
Theorem tap_fifo garbage c :
  tap_reachable garbage c ->
  (not_stuck (mc_1 c) /\ not_stuck (mc_2 c)) /\
  (forall A1 l1 v k1 (ret1 : A1 -> list block) A2 l2 k2 (ret2 : A2 -> consumer_state),
     mc_1 c = Busy (Store l1 v k1) ret1 -> mc_2 c = Busy (Load l2 k2) ret2 ->
     l1 = l2 -> loc_slot l1 = None) /\
  (forall accepted s seen clean,
     mc_1 c = Idle accepted ->
     mc_2 c = Idle (CIdle seen clean) \/ mc_2 c = Idle (CUsed s seen clean) ->
     seen `sublist_of` accepted /\ (clean = true -> seen `prefix_of` accepted)).
Proof.
  intros [I1 I2]%tap_invariant. split_and!; [eapply thread_inv_stuck, I1|eapply thread_inv_stuck, I2| |].
  - intros A1 l1 v k1 ret1 A2 l2 k2 ret2 E1 E2 <-. rewrite E1 in I1. rewrite E2 in I2.
    pose proof (thread_inv_store _ _ _ _ _ _ _ _ _ _ _ _ _ rg_producer I1) as [_ Hfree].
    pose proof (thread_inv_load _ _ _ _ _ _ _ _ _ _ _ _ rg_consumer I2) as [Hg Hheld].
    destruct (loc_slot l1) as [s|] eqn:Es; [|done]. by destruct (Hfree Hg s eq_refl (Hheld s eq_refl)).
  - intros accepted s seen clean E1 E2. rewrite E1 in I1. destruct I1 as [Hg <-].
    assert (exists n, consumer_seen seen clean (mc_ghost c) n) as (n & Hs & Hc).
    { destruct E2 as [E2|E2]; rewrite E2 in I2; destruct I2 as [_ I2]; [by eexists|].
      destruct I2 as [I2 _]. by eexists. }
    split; [etrans; [exact Hs|apply sublist_take]|].
    intros E. rewrite (Hc E). eexists. symmetry. apply take_drop.
Qed.

Lemma tap_fifo_witness :
  let c := mkMachine (PLANKTapBufferInit (fun _ => 7)) (mkTap [] 0)
    (Busy (PLANKTapPush (Some [0; 0]) None 1 5 6 7)
       (fun b : bool => if b then [] ++ [pushed_block [0; 0] None 1 5 6 7] else []))
    (Idle (CIdle [] true)) in
  tap_reachable (fun _ => 7) c /\ not_stuck (mc_1 c).
Proof.
  intros c. assert (tap_reachable (fun _ => 7) c) as Hr.
  { eapply mr_step; [apply mr_refl|]. apply ms_1, ts_call.
    apply (p_push [] (Some [0; 0]) None 1 5 6 7). split; [concrete|cbn; lia]. }
  split; [exact Hr|]. apply (tap_fifo _ _ Hr).
Defined.

(** A push that runs alone on a well-formed ring returns exactly when the
    specification says so - it fails without effect when stopped, flags the ring as
    failed for a bad argument or a sample that is not finite, counts an overrun when
    16 blocks are waiting - and a push that succeeds publishes exactly the
    interleaved frames with their time stamps behind the blocks already there. *)
Theorem tap_push_exact left right frames hostTime sampleTime callbackTime m g :
  hal_input left right frames -> tap_good m g ->
  exists m', run (PLANKTapPush left right frames hostTime sampleTime callbackTime) m =
      Some ((push_spec left right frames hostTime m).1.1, m') /\
    (m' Failed, m' Overruns) =
      ((push_spec left right frames hostTime m).1.2, (push_spec left right frames hostTime m).2) /\
    exists g', tap_good m' g' /\
      t_pushed g' = t_pushed g ++
        (if (push_spec left right frames hostTime m).1.1
         then [pushed_block (default [] left) right frames hostTime sampleTime callbackTime] else []).
Proof.
  intros Hin Hg.
  destruct (rg_run rely_p guar_p reads_p producer_ghost _ _ m g rely_p_refl
    (rg_push (t_pushed g) left right frames hostTime sampleTime callbackTime m g Hin (conj Hg eq_refl)))
    as (b & m' & g' & Hrun & Hg' & Hpush).
  exists m'. assert (b = (push_spec left right frames hostTime m).1.1 /\ (m' Failed, m' Overruns) =
    ((push_spec left right frames hostTime m).1.2, (push_spec left right frames hostTime m).2)) as [Eb ->].
  2: { rewrite <- Eb. split_and!; [done|done|]. exists g'. split; [done|]. rewrite Hpush.
       destruct left as [l|]; [destruct b; cbn; by rewrite ?app_nil_r|].
       assert (b = false) as ->; [|by rewrite app_nil_r].
       rewrite Eb. unfold push_spec. by destruct (negb _). }
  clear Hpush Hg'. revert Hrun. unfold PLANKTapPush, push_spec. rewrite run_load by done.
  destruct (negb _); [by intros [= <- <-]|]. rewrite !run_load by done.
  destruct left as [l|]; [|rewrite run_store by done; intros [= <- <-]; by rewrite upd_same, upd_other].
  destruct (push_refused _ _ _) eqn:Hr;
    [rewrite run_store by done; intros [= <- <-]; by rewrite upd_same, upd_other|].
  fold (push_full m). destruct (push_full m).
  { cbn [run]. change (valid_loc Overruns) with true. intros [= <- <-]. by rewrite upd_same, upd_other. }
  intros Hrun. unfold push_refused in Hr. guards.
  cbn [run] in Hrun. repeat (destruct (valid_loc _) in Hrun; [|done]).
  assert (PLANKTapMaxFrames = 8192) as Hmax by done.
  eapply (run_push_samples _ _ _ _ _ _ _ (Z.to_nat frames) 0) in Hrun as (m1 & Hm1 & Hrun);
    [|done|lia|destruct Hin as [Hin _]; ranges; lia|lia].
  unfold frames_finite, interleaved. replace (Z.to_nat (2 * frames)) with (2 * Z.to_nat frames)%nat by lia.
  change (2 * 0)%nat with 0%nat in Hrun. destruct (forallb _ _).
  - rewrite run_store in Hrun by done. injection Hrun as <- <-.
    by rewrite !upd_other, !Hm1, !upd_other by done.
  - injection Hrun as <- <-. rewrite upd_same, upd_other, Hm1, !upd_other by done. done.
Qed.

Lemma tap_push_exact_witness :
  exists m', run (PLANKTapPush (Some [1; 2]) None 1 5 6 7) (PLANKTapBufferInit (fun _ => 9)) = Some (true, m') /\
    block_at m' 0 = mkBlock 1 5 7 6 [1; 2].
Proof.
  destruct (tap_push_exact (Some [1; 2]) None 1 5 6 7 (PLANKTapBufferInit (fun _ => 9)) (mkTap [] 0))
    as (m' & Hrun & _ & g' & Hg & Hp); [split; [concrete|cbn; lia]|by constructor|].
  exists m'. split; [exact Hrun|]. vm_compute in Hrun. injection Hrun as <-. vm_compute. reflexivity.
Defined.
