(* ===== verification/MicBuffer.v ===== *)
(** * MicBuffer: apps/host/macos/audio-device/microphone-buffer.h, microphone-format.h

    The history of microphone samples addressed by device time: one writer, any
    number of real-time readers that only load.  Every field is a sequentially
    consistent atomic; [Atomic]'s machine interleaves a reader's loads with the
    writer's stores (readers never store, so one reader stands for all of them). *)

From S2P Require Import Prelude.
From S2P Require Import Float32.
From S2P Require Import Atomic.

Definition PLANKMicRate : Z := 48000.
Definition PLANKMicChannels : Z := 2.
Definition PLANKMicPacketFrames : Z := 480.
Definition PLANKMicFrames : Z := 8192.
Definition PLANKMicMaxIO : Z := 8192.

(** The fields of [PLANKMicBuffer], those of sample [s] under its index. *)
Inductive loc := Generation | FirstFrame | Frame (s : Z) | Bits (s : Z).
#[export] Instance loc_eq_dec : EqDecision loc.
Proof. solve_decision. Defined.

Definition mic_slot_valid (s : Z) : bool := (0 <=? s) && (s <? PLANKMicFrames).
Definition mic_loc_valid (l : loc) : bool :=
  match l with Frame s | Bits s => mic_slot_valid s | _ => true end.
#[export] Instance loc_location : Location loc := {| valid_loc := mic_loc_valid |}.

Definition PLANKMicBufferInit : mem loc := fun l => match l with Generation => 2 | _ => 0 end.

(** ** The writer *)

Fixpoint clear_frames {A} (n : nat) (i : Z) (k : prog loc A) : prog loc A :=
  match n with O => k | S n' => Store (Frame i) 0 (clear_frames n' (i + 1) k) end.

Definition PLANKMicBufferReset (firstFrame : Z) : prog loc unit :=
  Rmw Generation (fun g => u64 (g + 1)) (fun _ =>
  Store FirstFrame firstFrame
  (clear_frames (Z.to_nat PLANKMicFrames) 0
  (Rmw Generation (fun g => u64 (g + 1)) (fun _ => Ret tt)))).

(** The two clamped channels of a frame behind the [memcpy] to a [uint64_t]. *)
Definition frame_bits (l r : Z) : Z := clamp_sample l + 2 ^ 32 * clamp_sample r.

Fixpoint write_frames {A} (fuel : nat) (frame : Z) (samples : list Z) (count i : Z) (k : prog loc A) : prog loc A :=
  if i <? count then
    match fuel with
    | O => Undefined
    | S fuel' =>
        match load samples (i * PLANKMicChannels), load samples (i * PLANKMicChannels + 1) with
        | Some l, Some r =>
            let s := u64 (frame + i) mod PLANKMicFrames in
            Store (Frame s) 0
            (Store (Bits s) (frame_bits l r)
            (Store (Frame s) (u64 (frame + i + 1))
            (write_frames fuel' frame samples count (u32 (i + 1)) k)))
        | _, _ => Undefined
        end
    end
  else k.

(** The first loop of a write; [None] reads past the samples. *)
Definition all_finite (samples : list Z) (n : Z) : option bool :=
  forallb isfinite <$> copy_from samples 0 n.

Definition PLANKMicBufferWrite (frame : Z) (samples : option (list Z)) (count : Z) : prog loc bool :=
  match samples with
  | None => Ret false
  | Some samples =>
      if (count =? 0) || (PLANKMicMaxIO <? count) || (UINT64_MAX - count <? frame) then Ret false
      else
        Load FirstFrame (fun first =>
        if frame <? first then Ret false
        else match all_finite samples (count * PLANKMicChannels) with
        | None => Undefined
        | Some false => Ret false
        | Some true => write_frames (Z.to_nat count) frame samples count 0 (Ret true)
        end)
  end.

(** ** The readers *)

Fixpoint read_frames {A} (fuel : nat) (frame first count i : Z) (out : list Z)
    (k : list Z -> prog loc A) : prog loc A :=
  if i <? count then
    match fuel with
    | O => Undefined
    | S fuel' =>
        let position := u64 (frame + i) in
        if position <? first then read_frames fuel' frame first count (u32 (i + 1)) out k
        else
          let s := position mod PLANKMicFrames in
          Load (Frame s) (fun before => Load (Bits s) (fun bits => Load (Frame s) (fun after =>
          if (before =? u64 (position + 1)) && (after =? before) then
            match copy_to out (i * PLANKMicChannels) [u32 bits; u32 (Z.shiftr bits 32)] with
            | Some out => read_frames fuel' frame first count (u32 (i + 1)) out k
            | None => Undefined
            end
          else read_frames fuel' frame first count (u32 (i + 1)) out k)))
    end
  else k out.

Definition silence (out : list Z) (count : Z) : option (list Z) :=
  fill out 0 (count * PLANKMicChannels) 0.

Definition PLANKMicBufferRead (frame : Z) (samples : option (list Z)) (count : Z)
    : prog loc (bool * option (list Z)) :=
  match samples with
  | None => Ret (false, samples)
  | Some out =>
      if PLANKMicMaxIO <? count then Ret (false, samples)
      else match silence out count with
      | None => Undefined
      | Some out =>
          if UINT64_MAX - count <? frame then Ret (true, Some out)
          else
            Load Generation (fun generation =>
            if Z.odd generation then Ret (true, Some out)
            else
              Load FirstFrame (fun first =>
              read_frames (Z.to_nat count) frame first count 0 out (fun out =>
              Load Generation (fun again =>
              if negb (generation =? again)
              then match silence out count with Some out => Ret (true, Some out) | None => Undefined end
              else Ret (true, Some out)))))
      end
  end.

(** ** The writer and a reader *)

(** A frame as published: the session (number of resets before it), its device
    position and its payload. *)
Record published := mkPub { p_session : Z; p_position : Z; p_bits : Z }.

(** What a write call publishes. *)
Definition write_log (session frame : Z) (samples : list Z) (count : Z) : list published :=
  map (fun i => mkPub session (frame + Z.of_nat i)
                  (frame_bits (nth (2 * i) samples 0) (nth (2 * i + 1) samples 0)))
    (seq 0 (Z.to_nat count)).

(** The writer's own account: sessions so far, what it published, and one past the
    highest position of the session. *)
Record writer_state := mkWriter { w_session : Z; w_log : list published; w_top : Z }.

(** The documented contract: positions advance.  A later position of the same slot
    is never overwritten by an earlier one in a session ([micIPCTick] rewrites a
    sliding window of 2400 frames), and there are fewer than 2^62 resets. *)
Inductive writer : client loc writer_state :=
  | w_write n log top frame samples count :
      in_range 64 frame -> in_range 32 count ->
      match samples with Some l => count * 2 <= len l /\ Forall (in_range 32) l | None => True end ->
      top <= frame + PLANKMicFrames ->
      writer (mkWriter n log top) bool (PLANKMicBufferWrite frame samples count)
        (fun b => match b, samples with
                  | true, Some l => mkWriter n (log ++ write_log n frame l count) (Z.max top (frame + count))
                  | _, _ => mkWriter n log top
                  end)
  | w_reset n log top firstFrame :
      in_range 64 firstFrame -> n < 2 ^ 62 ->
      writer (mkWriter n log top) unit (PLANKMicBufferReset firstFrame)
        (fun _ => mkWriter (n + 1) log 0).

(** A reader, and what its last call was asked and left in the caller's buffer. *)
Inductive reader_state :=
  | RNone
  | RDone (frame count : Z) (out : list Z).

Inductive reader : client loc reader_state :=
  | r_read st frame out count :
      in_range 64 frame -> in_range 32 count -> count * 2 <= len out ->
      reader st (bool * option (list Z))%type (PLANKMicBufferRead frame (Some out) count)
        (fun o => match o with (true, Some out) => RDone frame count out | _ => RNone end).

(** Ghost state: the session, what was published, and for every slot the payloads
    stored in this session with the position each was published under (the newest
    may not be published yet). *)
Record mic := mkMic { g_session : Z; g_log : list published; g_hist : Z -> list (Z * option Z) }.

Definition set_hist (h : Z -> list (Z * option Z)) (s : Z) x : Z -> list (Z * option Z) :=
  fun s' => if decide (s' = s) then x else h s'.
Definition label_last (l : list (Z * option Z)) (p : Z) : list (Z * option Z) :=
  match reverse l with [] => [] | (b, _) :: l' => reverse ((b, Some p) :: l') end.

Definition writer_ghost : ghost_update (L:=loc) mic := fun l v m g =>
  match l with
  | Generation => if Z.odd v then mkMic (g_session g + 1) (g_log g) (fun _ => []) else g
  | Bits s => mkMic (g_session g) (g_log g) (set_hist (g_hist g) s (g_hist g s ++ [(v, None)]))
  | Frame s => if v =? 0 then g
      else mkMic (g_session g) (g_log g ++ [mkPub (g_session g) (v - 1) (m (Bits s))])
             (set_hist (g_hist g) s (label_last (g_hist g s) (v - 1)))
  | FirstFrame => g
  end.
Definition reader_ghost : ghost_update (L:=loc) mic := fun _ _ _ g => g.

Definition mic_init : machine (G:=mic) (T1:=writer_state) (T2:=reader_state) :=
  mkMachine PLANKMicBufferInit (mkMic 0 [] (fun _ => [])) (Idle (mkWriter 0 [] 0)) (Idle RNone).
Definition mic_reachable := machine_reachable writer reader writer_ghost reader_ghost mic_init.

(** ** The invariant *)

Definition labelled (h : list (Z * option Z)) : Prop := Forall (fun e => e.2 <> None) h.

(** Labels never decrease along a slot's history, and every labelled payload was published. *)
Record hist_ok (n : Z) (log : list published) (h : list (Z * option Z)) : Prop := {
  ho_sorted : forall i j b1 p1 b2 p2,
    (i <= j)%nat -> h !! i = Some (b1, Some p1) -> h !! j = Some (b2, Some p2) -> p1 <= p2;
  ho_log : forall b p, (b, Some p) ∈ h -> mkPub n p b ∈ log }.

Record mic_good (m : mem loc) (g : mic) : Prop := {
  mg_session : 0 <= g_session g <= 2 ^ 62;
  mg_generation : m Generation = 2 * g_session g + 2 \/ m Generation = 2 * g_session g + 1;
  mg_hist : forall s, hist_ok (g_session g) (g_log g) (g_hist g s);
  mg_bits : forall s, g_hist g s <> [] -> exists o, last (g_hist g s) = Some (m (Bits s), o);
  mg_stamp : Z.even (m Generation) = true -> forall s, mic_slot_valid s = true -> m (Frame s) <> 0 ->
    last (g_hist g s) = Some (m (Bits s), Some (m (Frame s) - 1)) /\ labelled (g_hist g s) }.

(** A history only grows, and keeps its labels. *)
Definition hist_le (h h' : list (Z * option Z)) : Prop :=
  forall i b o, h !! i = Some (b, o) -> exists o', h' !! i = Some (b, o') /\ (o <> None -> o' = o).

Definition rely_r : mem loc -> mic -> mem loc -> mic -> Prop := fun m g m' g' =>
  mic_good m g -> mic_good m' g' /\ g_session g <= g_session g' /\ g_log g `prefix_of` g_log g' /\
    m Generation <= m' Generation /\
    (g_session g' = g_session g -> forall s, hist_le (g_hist g s) (g_hist g' s)).
Definition rely_w : mem loc -> mic -> mem loc -> mic -> Prop := fun m g m' g' => m' = m /\ g' = g.
Definition guar_w (l : loc) : mem loc -> mic -> mem loc -> mic -> Prop := rely_r.
Definition guar_r (l : loc) : mem loc -> mic -> mem loc -> mic -> Prop := rely_w.
Definition reads_any (l : loc) (m : mem loc) (g : mic) : Prop := True.

Lemma hist_le_refl h : hist_le h h.
Proof. intros i b o H. by exists o. Qed.
Lemma hist_le_trans h1 h2 h3 : hist_le h1 h2 -> hist_le h2 h3 -> hist_le h1 h3.
Proof.
  intros H12 H23 i b o H. destruct (H12 _ _ _ H) as (o2 & H2 & E2). destruct (H23 _ _ _ H2) as (o3 & H3 & E3).
  exists o3. split; [done|]. intros Ho. rewrite E3; [by apply E2|]. by rewrite (E2 Ho).
Qed.

Lemma rely_r_refl m g : rely_r m g m g.
Proof. intros H. split_and!; [done|lia|done|lia|]. intros _ s. apply hist_le_refl. Qed.

Lemma rely_r_trans m1 g1 m2 g2 m3 g3 :
  rely_r m1 g1 m2 g2 -> rely_r m2 g2 m3 g3 -> rely_r m1 g1 m3 g3.
Proof.
  intros H12 H23 G1. destruct (H12 G1) as (G2 & ? & ? & ? & Hh). destruct (H23 G2) as (G3 & ? & ? & ? & Hh').
  split_and!; [done|lia|by etrans|lia|]. intros E s. eapply hist_le_trans; [apply Hh|apply Hh']; lia.
Qed.

Lemma rely_w_refl m g : rely_w m g m g.
Proof. done. Qed.
Lemma rely_w_trans m1 g1 m2 g2 m3 g3 : rely_w m1 g1 m2 g2 -> rely_w m2 g2 m3 g3 -> rely_w m1 g1 m3 g3.
Proof. by intros [-> ->] [-> ->]. Qed.

Lemma mic_good_ext m m' g :
  (forall l, l <> FirstFrame -> m' l = m l) -> mic_good m g -> mic_good m' g.
Proof.
  intros H [? Hgen ? Hb Hs]. constructor; [done|by rewrite H|done| |].
  - intros s. rewrite H by done. apply Hb.
  - rewrite !H by done. intros He s. rewrite !H by done. by apply Hs.
Qed.

(** ** The writer's stores *)

Lemma store_first m g v : guar_w FirstFrame m g (upd m FirstFrame v) g.
Proof.
  intros Hg. split_and!; [|lia|done|by rewrite upd_other|intros _ s; apply hist_le_refl].
  eapply mic_good_ext; [|exact Hg]. intros l Hl. apply upd_other. congruence.
Qed.

Lemma store_frame0 m g s :
  mic_good m g -> guar_w (Frame s) m g (upd m (Frame s) 0) g.
Proof.
  intros Hg _. split_and!; [|lia|done|by rewrite upd_other|intros _ s'; apply hist_le_refl].
  destruct Hg as [? ? ? Hb Hs]. constructor; [done|by rewrite upd_other|done| |].
  - intros s'. rewrite upd_other by done. apply Hb.
  - rewrite upd_other by done. intros He s' Hv. rewrite (upd_other _ _ (Bits _)) by done.
    destruct (decide (s' = s)) as [->|Hne]; [by rewrite upd_same|].
    rewrite upd_other by congruence. by apply Hs.
Qed.

Lemma set_hist_same h s x : set_hist h s x s = x.
Proof. unfold set_hist. by rewrite decide_True. Qed.
Lemma set_hist_other h s s' x : s' <> s -> set_hist h s x s' = h s'.
Proof. intros. unfold set_hist. by rewrite decide_False. Qed.

Lemma hist_le_app h x : hist_le h (h ++ [x]).
Proof. intros i b o H. exists o. split; [by apply lookup_app_l_Some|done]. Qed.

Lemma hist_ok_pending n log h b : hist_ok n log h -> hist_ok n log (h ++ [(b, None)]).
Proof.
  intros [Hs Hl]. assert (forall i b' p, (h ++ [(b, None)]) !! i = Some (b', Some p) -> h !! i = Some (b', Some p)) as H.
  { intros i b' p [H|[_ H]]%lookup_app_Some; [done|]. by apply list_lookup_singleton_Some in H as [_ ?]. }
  constructor.
  - intros i j b1 p1 b2 p2 Hij H1%H H2%H. by eapply Hs.
  - intros b' p [i Hi%H]%list_elem_of_lookup. apply Hl. apply list_elem_of_lookup. by exists i.
Qed.

Lemma store_bits m g s v :
  mic_good m g -> m (Frame s) = 0 ->
  let g' := mkMic (g_session g) (g_log g) (set_hist (g_hist g) s (g_hist g s ++ [(v, None)])) in
  writer_ghost (Bits s) v m g = g' /\ guar_w (Bits s) m g (upd m (Bits s) v) g' /\
  mic_good (upd m (Bits s) v) g'.
Proof.
  intros Hg Hz g'. split; [done|].
  assert (mic_good (upd m (Bits s) v) g') as Hg'.
  { destruct Hg as [? ? Hh Hb Hs]. constructor; cbn; [done|by rewrite upd_other| | |].
    - intros s'. destruct (decide (s' = s)) as [->|Hne]; [rewrite set_hist_same|by rewrite set_hist_other].
      by apply hist_ok_pending.
    - intros s'. destruct (decide (s' = s)) as [->|Hne].
      + rewrite set_hist_same, upd_same. intros _. exists None. by rewrite last_snoc.
      + rewrite set_hist_other, upd_other by congruence. apply Hb.
    - rewrite upd_other by done. intros He s' Hv. rewrite (upd_other _ _ (Frame s')) by done.
      destruct (decide (s' = s)) as [->|Hne]; [by rewrite Hz|].
      rewrite set_hist_other, upd_other by congruence. by apply Hs. }
  split; [|done]. intros _. split_and!; [done|cbn; lia|done|by rewrite upd_other|].
  intros _ s'. cbn. destruct (decide (s' = s)) as [->|Hne];
    [rewrite set_hist_same; apply hist_le_app|rewrite set_hist_other by done; apply hist_le_refl].
Qed.

Lemma label_last_snoc h b o p : label_last (h ++ [(b, o)]) p = h ++ [(b, Some p)].
Proof. unfold label_last. rewrite reverse_snoc, reverse_cons, reverse_involutive. done. Qed.

Lemma hist_ok_label n log h b p :
  hist_ok n log h -> (forall b' q, (b', Some q) ∈ h -> q <= p) ->
  hist_ok n (log ++ [mkPub n p b]) (h ++ [(b, Some p)]).
Proof.
  intros [Hs Hl] Hp. constructor.
  - intros i j b1 p1 b2 p2 Hij H1 H2.
    apply lookup_app_Some in H2 as [H2|[Hj H2]].
    + apply lookup_app_Some in H1 as [H1|[Hi H1]]; [by eapply Hs|].
      apply lookup_lt_Some in H2. lia.
    + apply list_lookup_singleton_Some in H2 as [_ [= <- <-]].
      apply lookup_app_Some in H1 as [H1|[Hi H1]].
      * eapply Hp. apply list_elem_of_lookup. by exists i.
      * apply list_lookup_singleton_Some in H1 as [_ [= <- <-]]. lia.
  - intros b' q. rewrite elem_of_app, list_elem_of_singleton. intros [H|[= -> ->]].
    + apply elem_of_app. left. by apply Hl.
    + apply elem_of_app. right. by apply list_elem_of_singleton.
Qed.

Lemma hist_ok_log n log log' h : hist_ok n log h -> log `prefix_of` log' -> hist_ok n log' h.
Proof.
  intros [Hs Hl] [k ->]. constructor; [done|]. intros b p H. apply elem_of_app. left. by apply Hl.
Qed.

Lemma store_frame m g s b p h :
  mic_good m g -> g_hist g s = h ++ [(b, None)] -> labelled h -> m (Bits s) = b ->
  (forall b' q, (b', Some q) ∈ h -> q <= p) -> 0 <= p ->
  let g' := mkMic (g_session g) (g_log g ++ [mkPub (g_session g) p b])
              (set_hist (g_hist g) s (h ++ [(b, Some p)])) in
  writer_ghost (Frame s) (p + 1) m g = g' /\ guar_w (Frame s) m g (upd m (Frame s) (p + 1)) g' /\
  mic_good (upd m (Frame s) (p + 1)) g'.
Proof.
  intros Hg Hh Hlab Hb Hp H0 g'. split.
  { cbn. rewrite (proj2 (Z.eqb_neq _ _)) by lia. unfold g'.
    rewrite Hh, label_last_snoc, Hb. by replace (p + 1 - 1) with p by lia. }
  assert (mic_good (upd m (Frame s) (p + 1)) g') as Hg'.
  { destruct Hg as [? ? Hho Hbits Hs]. constructor; cbn; [done|by rewrite upd_other| | |].
    - intros s'. destruct (decide (s' = s)) as [->|Hne].
      + rewrite set_hist_same. apply hist_ok_label; [|done]. specialize (Hho s). rewrite Hh in Hho.
        destruct Hho as [Hso Hlo]. constructor.
        * intros i j b1 p1 b2 p2 Hij H1 H2. eapply Hso; [exact Hij|by apply lookup_app_l_Some..].
        * intros b' q H'. apply Hlo, elem_of_app. by left.
      + rewrite set_hist_other by done. eapply hist_ok_log; [apply Hho|by apply prefix_app_r].
    - intros s'. rewrite upd_other by done. destruct (decide (s' = s)) as [->|Hne].
      + rewrite set_hist_same. intros _. exists (Some p). by rewrite last_snoc, Hb.
      + rewrite set_hist_other by done. apply Hbits.
    - rewrite upd_other by done. intros He s' Hv. rewrite (upd_other _ _ (Bits s')) by done.
      destruct (decide (s' = s)) as [->|Hne].
      + rewrite set_hist_same, upd_same, last_snoc, Hb. replace (p + 1 - 1) with p by lia.
        intros _. split; [done|]. apply Forall_app. split; [done|]. by constructor.
      + rewrite set_hist_other, upd_other by congruence. by apply Hs. }
  split; [|done]. intros _. split_and!; [done|cbn; lia|by apply prefix_app_r|by rewrite upd_other|].
  intros _ s'. cbn. destruct (decide (s' = s)) as [->|Hne];
    [rewrite set_hist_same, Hh|rewrite set_hist_other by done; apply hist_le_refl].
  intros i b' o [H|[Hi H]]%lookup_app_Some.
  - exists o. split; [by apply lookup_app_l_Some|done].
  - apply list_lookup_singleton_Some in H as [Hi0 [= <- <-]]. exists (Some p).
    split; [|done]. apply lookup_app_Some. right. split; [done|]. by rewrite Hi0.
Qed.

(** ** The writer's calls *)

Definition slot_labels (top s : Z) (h : list (Z * option Z)) : Prop :=
  labelled h /\ forall b p, (b, Some p) ∈ h -> 0 <= p < top /\ p mod PLANKMicFrames = s.

Definition inv_w (st : writer_state) (m : mem loc) (g : mic) : Prop :=
  mic_good m g /\ m Generation = 2 * g_session g + 2 /\
  g_session g = w_session st /\ g_log g = w_log st /\
  forall s, slot_labels (w_top st) s (g_hist g s).

Abbreviation rg_w := (rg rely_w guar_w reads_any writer_ghost).

Definition resetting (n : Z) (log : list published) (k : Z) (m : mem loc) (g : mic) : Prop :=
  mic_good m g /\ m Generation = 2 * n + 1 /\ g_session g = n /\ g_log g = log /\
  (forall s, g_hist g s = []) /\ forall s, 0 <= s < k -> m (Frame s) = 0.

Lemma rg_clear n log (j : nat) i (k : prog loc unit) Q m g :
  Z.of_nat j + i = PLANKMicFrames -> 0 <= i -> resetting n log i m g ->
  (forall m g, resetting n log PLANKMicFrames m g -> rg_w k Q m g) ->
  rg_w (clear_frames j i k) Q m g.
Proof.
  intros Hj Hi0 Hr Hk. revert i m g Hj Hi0 Hr. induction j as [|j IH]; intros i m g Hj Hi0 Hr.
  { apply Hk. by replace PLANKMicFrames with i by lia. }
  cbn [clear_frames]. split; [cbn; unfold mic_slot_valid; lia|]. intros ? ? [-> ->].
  cbn [writer_ghost]. rewrite Z.eqb_refl. destruct Hr as (Hg & Hgen & Hn & Hl & Hh & Hz).
  pose proof (store_frame0 m g i Hg) as Hgu. split; [done|].
  destruct (Hgu Hg) as (Hg' & _). apply IH; [lia|lia|].
  split_and!; [done|by rewrite upd_other|done|done|done|].
  intros s Hs. destruct (decide (s = i)) as [->|Hne]; [by rewrite upd_same|].
  rewrite upd_other by congruence. apply Hz. lia.
Qed.

Lemma rg_reset_frames (j : nat) n log top first m g :
  Z.of_nat j = PLANKMicFrames -> n < 2 ^ 62 -> inv_w (mkWriter n log top) m g ->
  rg_w (Rmw Generation (fun g => u64 (g + 1)) (fun _ => Store FirstFrame first
        (clear_frames j 0 (Rmw Generation (fun g => u64 (g + 1)) (fun _ => Ret tt)))))
    (fun _ => inv_w (mkWriter (n + 1) log 0)) m g.
Proof.
  intros Hj Hn (Hg & Hgen & En & El & Hlab). cbn [w_session w_log w_top] in *. subst n log.
  split; [done|]. intros ? ? [-> ->]. pose proof (mg_session _ _ Hg) as Hs.
  assert (u64 (m Generation + 1) = 2 * (g_session g + 1) + 1) as ->
    by (rewrite wrap_small; unfold in_range; change (2 ^ 62) with 4611686018427387904 in *; pows; lia).
  cbn [writer_ghost]. replace (Z.odd (2 * (g_session g + 1) + 1)) with true
    by (by rewrite Z.add_1_r, Z.odd_succ, Z.even_mul).
  set (m1 := upd m Generation _). set (g1 := mkMic _ _ _).
  assert (mic_good m1 g1) as Hg1.
  { destruct Hg as [? ? Hho Hb Hst]. constructor; cbn.
    - lia.
    - right. unfold m1. rewrite upd_same. lia.
    - intros s. constructor; [done|]. by intros b p ?%elem_of_nil.
    - done.
    - unfold m1. rewrite upd_same. by rewrite Z.add_1_r, Z.even_succ, Z.odd_mul. }
  split. { intros _. split_and!; [done|cbn; lia|done|unfold m1; rewrite upd_same; lia|cbn; lia]. }
  split; [done|]. intros ? ? [-> ->]. pose proof (store_first m1 g1 first) as Hgu. split; [done|].
  destruct (Hgu Hg1) as (Hg2 & _). cbn [writer_ghost].
  eapply (rg_clear (g_session g + 1) (g_log g)); [lia|done| |].
  { split_and!; [done|by rewrite upd_other|done|done|done|lia]. }
  clear -Hs Hn. intros m g' (Hg & Hgen & En & El & Hh & Hz). split; [done|]. intros ? ? [-> ->].
  assert (u64 (m Generation + 1) = 2 * g_session g' + 2) as ->
    by (rewrite wrap_small; unfold in_range; change (2 ^ 62) with 4611686018427387904 in *; pows; lia).
  cbn [writer_ghost]. replace (Z.odd (2 * g_session g' + 2)) with false
    by (by rewrite Z.odd_add, Z.odd_mul).
  assert (mic_good (upd m Generation (2 * g_session g' + 2)) g') as Hg'.
  { destruct Hg as [? ? Hho Hb Hst]. constructor; [done|left; by rewrite upd_same|done| |].
    - intros s. by rewrite Hh.
    - intros _ s Hv. rewrite upd_other by done. unfold mic_slot_valid in Hv. by rewrite Hz by lia. }
  split. { intros _. split_and!; [done|lia|done|rewrite upd_same; lia|intros _ s; apply hist_le_refl]. }
  split_and!; [done|by rewrite upd_same|done|done|]. cbn. intros s. rewrite Hh. split; [by constructor|].
  by intros b p ?%elem_of_nil.
Qed.

Lemma rg_reset n log top first m g :
  n < 2 ^ 62 -> inv_w (mkWriter n log top) m g ->
  rg_w (PLANKMicBufferReset first) (fun _ => inv_w (mkWriter (n + 1) log 0)) m g.
Proof. apply rg_reset_frames. by rewrite Z2Nat.id. Qed.

Lemma rg_write_frame n log top m g frame b (k : prog loc bool) Q :
  let s := frame mod PLANKMicFrames in
  0 <= frame < UINT64_MAX -> top <= frame + PLANKMicFrames ->
  inv_w (mkWriter n log top) m g ->
  (forall m g, inv_w (mkWriter n (log ++ [mkPub n frame b]) (Z.max top (frame + 1))) m g -> rg_w k Q m g) ->
  rg_w (Store (Frame s) 0 (Store (Bits s) b (Store (Frame s) (frame + 1) k))) Q m g.
Proof.
  intros s Hf Htop (Hg & Hgen & En & El & Hlab) Hk. cbn [w_session w_log w_top] in *. subst n log.
  assert (mic_slot_valid s = true) as Hv.
  { unfold mic_slot_valid, s, PLANKMicFrames. pose proof (Z.mod_pos_bound frame 8192). lia. }
  split; [done|]. intros ? ? [-> ->]. pose proof (store_frame0 m g s Hg) as Hgu. split; [done|].
  destruct (Hgu Hg) as (Hg1 & _). cbn [writer_ghost]. rewrite Z.eqb_refl.
  split; [done|]. intros ? ? [-> ->].
  destruct (store_bits (upd m (Frame s) 0) g s b Hg1) as (-> & Hgu2 & Hg2); [apply upd_same|].
  split; [done|]. split; [done|]. intros ? ? [-> ->].
  destruct (Hlab s) as [Hl Hp].
  edestruct (store_frame _ _ s b frame (g_hist g s) Hg2) as (-> & Hgu3 & Hg3);
    [apply set_hist_same|exact Hl|apply upd_same| |lia|].
  { intros b' q Hq. destruct (Hp _ _ Hq) as [? Hs]. unfold s, PLANKMicFrames in *.
    Z.div_mod_to_equations. lia. }
  split; [done|]. apply Hk. cbn [g_session g_log g_hist] in *.
  split_and!; [done|by rewrite !upd_other|done|done|]. cbn [w_top].
  intros s'. cbn. destruct (decide (s' = s)) as [->|Hne].
  - rewrite set_hist_same. split; [apply Forall_app; split; [done|by constructor]|].
    intros b' q. rewrite elem_of_app, list_elem_of_singleton. intros [Hq|[= -> ->]].
    + destruct (Hp _ _ Hq). split; [lia|done].
    + split; [lia|done].
  - rewrite !set_hist_other by done. destruct (Hlab s') as [? Hp']. split; [done|].
    intros b' q Hq. destruct (Hp' _ _ Hq). split; [lia|done].
Qed.

Lemma write_log_app n frame l i :
  write_log n frame l (Z.of_nat (S i)) =
  write_log n frame l (Z.of_nat i) ++
    [mkPub n (frame + Z.of_nat i) (frame_bits (nth (2 * i) l 0) (nth (2 * i + 1) l 0))].
Proof. unfold write_log. rewrite !Nat2Z.id, seq_S, map_app. done. Qed.

Lemma load_frame (l : list Z) count (i : nat) :
  count * 2 <= len l -> Z.of_nat i < count ->
  load l (Z.of_nat i * PLANKMicChannels) = Some (nth (2 * i) l 0) /\
  load l (Z.of_nat i * PLANKMicChannels + 1) = Some (nth (2 * i + 1) l 0).
Proof.
  intros Hl Hi. unfold PLANKMicChannels.
  replace (Z.of_nat i * 2) with (Z.of_nat (2 * i)) by lia.
  replace (Z.of_nat (2 * i) + 1) with (Z.of_nat (2 * i + 1)) by lia.
  rewrite !load_nat.
  destruct (nth_lookup_or_length l (2 * i) 0); [|lia].
  by destruct (nth_lookup_or_length l (2 * i + 1) 0); [|lia].
Qed.

Lemma rg_write_frames n log top frame l count fuel j i m g :
  0 <= frame -> frame + count <= UINT64_MAX -> count * 2 <= len l -> count <= PLANKMicMaxIO ->
  top <= frame + PLANKMicFrames -> count = Z.of_nat (i + j) -> (j <= fuel)%nat ->
  inv_w (mkWriter n (log ++ write_log n frame l (Z.of_nat i)) (Z.max top (frame + Z.of_nat i))) m g ->
  rg_w (write_frames fuel frame l count (Z.of_nat i) (Ret true))
    (fun b : bool => inv_w (if b then mkWriter n (log ++ write_log n frame l count) (Z.max top (frame + count))
                            else mkWriter n log top)) m g.
Proof.
  intros Hf Hmax Hl Hio Htop. unfold PLANKMicMaxIO in Hio.
  revert fuel i m g. induction j as [|j IH]; intros fuel i m g Hc Hfuel Hi.
  { replace count with (Z.of_nat i) by lia.
    destruct fuel; cbn [write_frames]; rewrite Z.ltb_irrefl; done. }
  destruct fuel as [|fuel]; [lia|]. cbn [write_frames]. rewrite (proj2 (Z.ltb_lt _ _)) by lia.
  destruct (load_frame l count i) as [-> ->]; [done|lia|].
  rewrite (wrap_small 64 (frame + Z.of_nat i)), (wrap_small 64 (frame + Z.of_nat i + 1)),
    (wrap_small 32 (Z.of_nat i + 1)) by (ranges; lia).
  eapply rg_write_frame; [ranges; lia| |exact Hi|]; [unfold PLANKMicFrames in *; lia|].
  intros m' g' Hi'. replace (Z.of_nat i + 1) with (Z.of_nat (S i)) by lia.
  apply IH; [lia|lia|]. rewrite write_log_app, app_assoc.
  replace (Z.max top (frame + Z.of_nat (S i)))
    with (Z.max (Z.max top (frame + Z.of_nat i)) (frame + Z.of_nat i + 1)) by lia. done.
Qed.

Lemma inv_w_top n log top top' m g :
  top <= top' -> inv_w (mkWriter n log top) m g -> inv_w (mkWriter n log top') m g.
Proof.
  intros Ht (? & ? & ? & ? & Hl). split_and!; [done..|]. intros s. destruct (Hl s) as [? Hp].
  split; [done|]. intros b p Hb. destruct (Hp _ _ Hb). cbn in *. split; [lia|done].
Qed.

Lemma rg_write n log top frame samples count m g :
  in_range 64 frame -> in_range 32 count ->
  match samples with Some l => count * 2 <= len l /\ Forall (in_range 32) l | None => True end ->
  top <= frame + PLANKMicFrames -> inv_w (mkWriter n log top) m g ->
  rg_w (PLANKMicBufferWrite frame samples count)
    (fun b => inv_w (match b, samples with
       | true, Some l => mkWriter n (log ++ write_log n frame l count) (Z.max top (frame + count))
       | _, _ => mkWriter n log top end)) m g.
Proof.
  intros Hf Hc Hs Htop Hi. unfold PLANKMicBufferWrite. destruct samples as [l|]; [|done].
  destruct Hs as [Hl _]. destruct (_ || _) eqn:Hr; [done|]. guards.
  split; [done|]. intros ? ? [-> ->]. split; [done|]. destruct (frame <? m FirstFrame); [done|].
  unfold all_finite, PLANKMicChannels, PLANKMicMaxIO in *. ranges.
  rewrite copy_from_take by lia. cbn [fmap option_fmap option_map]. destruct (forallb _ _); [|done].
  apply (rg_write_frames n log top frame l count (Z.to_nat count) (Z.to_nat count) 0);
    [ranges; unfold PLANKMicMaxIO, PLANKMicFrames in *; lia..|].
  change (write_log n frame l (Z.of_nat 0)) with (@nil published). rewrite app_nil_r.
  eapply inv_w_top; [|exact Hi]. lia.
Qed.

(** ** The readers *)

(** The part of the buffer that belongs to position [i] of the call. *)
Definition out_frame (out : list Z) (i : nat) : list Z := take 2 (drop (2 * i) out).

Definition delivered (n : Z) (log : list published) (frame : Z) (i : nat) (out : list Z) : Prop :=
  out_frame out i = [0; 0] \/
  exists b, mkPub n (frame + Z.of_nat i) b ∈ log /\ out_frame out i = [u32 b; u32 (Z.shiftr b 32)].

Definition inv_r (st : reader_state) (m : mem loc) (g : mic) : Prop :=
  mic_good m g /\
  match st with
  | RNone => True
  | RDone frame count out => exists n, forall i : nat, Z.of_nat i < count -> delivered n (g_log g) frame i out
  end.

Abbreviation rg_r := (rg rely_r guar_r reads_any reader_ghost).

(** A read that loaded [generation] in session [n]: while the session is still the
    same, the generation is even and what is in the buffer was published in it. *)
Definition reading (n : Z) (frame count : Z) (out : list Z) (m : mem loc) (g : mic) : Prop :=
  mic_good m g /\ n <= g_session g /\
  (g_session g = n -> m Generation = 2 * n + 2 /\
     forall i : nat, Z.of_nat i < count -> delivered n (g_log g) frame i out).

Lemma delivered_prefix n log log' frame i out :
  log `prefix_of` log' -> delivered n log frame i out -> delivered n log' frame i out.
Proof.
  intros [k ->] [H|(b & Hb & H)]; [by left|right]. exists b. split; [|done].
  apply elem_of_app. by left.
Qed.

Lemma reading_rely n frame count out m g m' g' :
  rely_r m g m' g' -> reading n frame count out m g -> reading n frame count out m' g'.
Proof.
  intros Hr (Hg & Hn & Hd). destruct (Hr Hg) as (Hg' & Hs & Hl & Hgen & _). split_and!; [done|lia|].
  intros E. destruct Hd as [Hge Hd]; [lia|]. split.
  - destruct (mg_generation _ _ Hg') as [?|?]; lia.
  - intros i Hi. eapply delivered_prefix; [exact Hl|by apply Hd].
Qed.

Lemma inv_r_rely st m g m' g' : inv_r st m g -> rely_r m g m' g' -> inv_r st m' g'.
Proof.
  intros [Hg Hst] Hr. destruct (Hr Hg) as (Hg' & _ & Hl & _). split; [done|].
  destruct st as [|frame count out]; [done|]. destruct Hst as [n Hd]. exists n.
  intros i Hi. eapply delivered_prefix; [exact Hl|by apply Hd].
Qed.

(** The stamp, payload, stamp check: the payload was published under the position. *)
Lemma stamp_check n s p m1 g1 m2 g2 m3 g3 frame count out1 :
  mic_slot_valid s = true -> 0 <= p ->
  reading n frame count out1 m1 g1 -> rely_r m1 g1 m2 g2 -> rely_r m2 g2 m3 g3 ->
  m1 (Frame s) = p + 1 -> m3 (Frame s) = p + 1 -> g_session g3 = n ->
  mkPub n p (m2 (Bits s)) ∈ g_log g3.
Proof.
  intros Hv Hp (G1 & Hn & H1) R12 R23 E1 E3 En.
  destruct (R12 G1) as (G2 & S2 & L2 & Ge2 & Hh12). destruct (R23 G2) as (G3 & S3 & L3 & Ge3 & Hh23).
  destruct H1 as [Gen1 _]; [lia|].
  assert (m3 Generation = 2 * n + 2) as Gen3 by (destruct (mg_generation _ _ G3); lia).
  destruct (mg_stamp _ _ G1) with (s := s) as [Hl1 _]; [rewrite Gen1; by rewrite Z.even_add, Z.even_mul|done|lia|].
  destruct (mg_stamp _ _ G3) with (s := s) as [Hl3 Hlab]; [rewrite Gen3; by rewrite Z.even_add, Z.even_mul|done|lia|].
  rewrite E1 in Hl1. rewrite E3 in Hl3. replace (p + 1 - 1) with p in * by lia.
  rewrite last_lookup in Hl1, Hl3.
  destruct (Hh12 ltac:(lia) s _ _ _ Hl1) as (o1 & Hl1' & Eo1). rewrite (Eo1 ltac:(done)) in Hl1'.
  destruct (mg_bits _ _ G2 s) as [o2 Hl2]; [by intros E; rewrite E in Hl1'|].
  rewrite last_lookup in Hl2.
  destruct (Hh23 ltac:(lia) s _ _ _ Hl1') as (o1' & Hl1'' & Eo1'). rewrite (Eo1' ltac:(done)) in Hl1''.
  destruct (Hh23 ltac:(lia) s _ _ _ Hl2) as (o3 & Hl2' & _).
  assert (exists q, o3 = Some q) as [q ->].
  { pose proof (proj1 (Forall_lookup _ _) Hlab _ _ Hl2') as H. cbn in H. destruct o3; [eauto|done]. }
  destruct (mg_hist _ _ G3 s) as [Hsort Hlog]. rewrite En in Hlog.
  assert (q = p) as ->.
  { apply Z.le_antisymm.
    - eapply Hsort; [|exact Hl2'|exact Hl3]. apply lookup_lt_Some in Hl2'. lia.
    - eapply Hsort; [|exact Hl1''|exact Hl2'].
      apply lookup_lt_Some in Hl1'. lia. }
  apply Hlog, list_elem_of_lookup. by eexists.
Qed.

(** A copy changes nothing outside its own range. *)
Lemma copied_lookup {A} (out : list A) n src x :
  (n + length src <= length out)%nat -> (x < n \/ n + length src <= x)%nat ->
  (take n out ++ src ++ drop (n + length src) out) !! x = out !! x.
Proof.
  intros Hl [Hx|Hx].
  - rewrite lookup_app_l by (rewrite length_take; lia). by rewrite lookup_take_lt.
  - rewrite lookup_app_r, lookup_app_r by (rewrite ?length_take; lia).
    rewrite lookup_drop, length_take. f_equal. lia.
Qed.

Lemma out_frame_ext out out' j :
  (forall x, (2 * j <= x < 2 * j + 2)%nat -> out' !! x = out !! x) -> out_frame out' j = out_frame out j.
Proof.
  intros H. unfold out_frame. apply list_eq. intros x. destruct (decide (x < 2)%nat).
  - rewrite !lookup_take_lt, !lookup_drop by lia. apply H. lia.
  - rewrite !lookup_take_ge by lia. done.
Qed.

Lemma copy_frame out (i : nat) a b :
  Z.of_nat i * 2 + 2 <= len out ->
  exists out', copy_to out (Z.of_nat i * PLANKMicChannels) [a; b] = Some out' /\
    length out' = length out /\
    out_frame out' i = [a; b] /\ (forall j, j <> i -> out_frame out' j = out_frame out j).
Proof.
  intros Hl. eexists. split; [apply copy_to_Some; unfold PLANKMicChannels; cbn; lia|].
  unfold PLANKMicChannels. replace (Z.to_nat (Z.of_nat i * 2)) with (2 * i)%nat by lia.
  split; [rewrite !length_app, length_take, length_drop; cbn; lia|]. split.
  - unfold out_frame. by rewrite drop_app_length' by (rewrite length_take; lia).
  - intros j Hj. apply out_frame_ext. intros x Hx. apply (copied_lookup out (2 * i) [a; b]); cbn; lia.
Qed.

Lemma reading_deliver n frame count out out' (i : nat) m g :
  (forall j, j <> i -> out_frame out' j = out_frame out j) ->
  (g_session g = n -> delivered n (g_log g) frame i out') ->
  reading n frame count out m g -> reading n frame count out' m g.
Proof.
  intros Hj Hi (Hg & Hn & Hd). split_and!; [done|done|]. intros E. destruct (Hd E) as [? Hd'].
  split; [done|]. intros j Hlt. destruct (decide (j = i)) as [->|Hne]; [by apply Hi|].
  unfold delivered. rewrite Hj by done. by apply Hd'.
Qed.

Lemma rg_read_frames n frame first count fuel j i out (k : list Z -> prog loc (bool * option (list Z))) Q m g :
  0 <= frame -> frame + count <= UINT64_MAX -> count <= PLANKMicMaxIO ->
  count = Z.of_nat (i + j) -> (j <= fuel)%nat -> count * 2 <= len out ->
  reading n frame count out m g ->
  (forall out' m g, length out' = length out -> reading n frame count out' m g -> rg_r (k out') Q m g) ->
  rg_r (read_frames fuel frame first count (Z.of_nat i) out k) Q m g.
Proof.
  intros Hf Hmax Hio. unfold PLANKMicMaxIO in Hio.
  revert fuel i out m g. induction j as [|j IH]; intros fuel i out m g Hc Hfuel Hlen Hr Hk.
  { assert (count = Z.of_nat i) as -> by lia.
    destruct fuel; cbn [read_frames]; rewrite Z.ltb_irrefl; by apply Hk. }
  destruct fuel as [|fuel]; [lia|]. cbn [read_frames]. rewrite (proj2 (Z.ltb_lt _ _)) by lia.
  rewrite (wrap_small 64 (frame + Z.of_nat i)), (wrap_small 32 (Z.of_nat i + 1)) by (ranges; lia).
  replace (Z.of_nat i + 1) with (Z.of_nat (S i)) by lia.
  assert (forall out' m g, length out' = length out -> reading n frame count out' m g ->
    rg_r (read_frames fuel frame first count (Z.of_nat (S i)) out' k) Q m g) as Hnext.
  { intros out' m' g' Hl Hr'. apply IH; [lia|lia|lia|done|]. intros ? ? ? E. apply Hk. congruence. }
  destruct (_ <? first); [by apply Hnext|].
  set (s := (frame + Z.of_nat i) mod PLANKMicFrames).
  assert (mic_slot_valid s = true) as Hv.
  { unfold mic_slot_valid, s, PLANKMicFrames. pose proof (Z.mod_pos_bound (frame + Z.of_nat i) 8192). lia. }
  split; [done|]. intros m1 g1 R1. split; [done|]. split; [done|]. intros m2 g2 R2. split; [done|].
  split; [done|]. intros m3 g3 R3. split; [done|].
  pose proof (reading_rely _ _ _ _ _ _ _ _ R1 Hr) as Hr1.
  assert (reading n frame count out m3 g3) as Hr3
    by (eapply reading_rely; [exact R3|eapply reading_rely; [exact R2|exact Hr1]]).
  destruct (_ && _) eqn:Hst; [|by apply Hnext]. guards.
  destruct (copy_frame out i (u32 (m2 (Bits s))) (u32 (Z.shiftr (m2 (Bits s)) 32))) as (out' & -> & Hl' & Hi' & Hj');
    [lia|]. apply Hnext; [done|]. eapply reading_deliver; [exact Hj'| |exact Hr3].
  intros E. right. exists (m2 (Bits s)). split; [|done].
  rewrite (wrap_small 64 (frame + Z.of_nat i + 1)) in * by (ranges; lia).
  eapply stamp_check; [exact Hv|lia|exact Hr1|exact R2|exact R3|lia|lia|exact E].
Qed.

Lemma silence_ok out count :
  0 <= count -> count * 2 <= len out ->
  exists out', silence out count = Some out' /\ length out' = length out /\
    drop (Z.to_nat (2 * count)) out' = drop (Z.to_nat (2 * count)) out /\
    forall i : nat, Z.of_nat i < count -> out_frame out' i = [0; 0].
Proof.
  intros Hc Hl. unfold silence, fill, PLANKMicChannels. eexists.
  split; [rewrite copy_to_Some; [reflexivity|lia|rewrite length_replicate; lia]|].
  change (Z.to_nat 0) with 0%nat. rewrite take_0, length_replicate, Nat.add_0_l. cbn [app].
  split; [rewrite length_app, ?length_replicate, length_drop; lia|]. split.
  { replace (2 * count) with (count * 2) by lia. by rewrite drop_app_length' by by rewrite length_replicate. }
  intros i Hi.
  unfold out_frame. rewrite drop_app_le; [|rewrite length_replicate; lia].
  rewrite drop_replicate, take_app_le; [|rewrite length_replicate; lia]. rewrite take_replicate.
  by replace (2 `min` (Z.to_nat (count * 2) - 2 * i))%nat with 2%nat by lia.
Qed.

Lemma rg_read frame out count st m g :
  in_range 64 frame -> in_range 32 count -> count * 2 <= len out -> inv_r st m g ->
  rg_r (PLANKMicBufferRead frame (Some out) count)
    (fun o => inv_r (match o with (true, Some out) => RDone frame count out | _ => RNone end)) m g.
Proof.
  intros Hf Hc Hl Hi. unfold PLANKMicBufferRead. destruct (PLANKMicMaxIO <? count) eqn:Hio.
  { split; [apply Hi|done]. }
  destruct (silence_ok out count) as (out1 & -> & Hl1 & _ & Hz); [apply Hc|done|].
  assert (forall n log out2, (forall i : nat, Z.of_nat i < count -> out_frame out2 i = [0; 0]) ->
    forall i : nat, Z.of_nat i < count -> delivered n log frame i out2) as Hsil.
  { intros n log out2 H i Hlt. left. by apply H. }
  destruct (_ <? frame) eqn:Hmax.
  { split; [apply Hi|]. exists 0. by apply Hsil. }
  split; [done|]. intros m1 g1 R1. pose proof (inv_r_rely _ _ _ _ _ Hi R1) as [G1 _]. split; [done|].
  destruct (Z.odd _) eqn:Hodd. { split; [done|]. exists 0. by apply Hsil. }
  assert (m1 Generation = 2 * g_session g1 + 2) as Hgen.
  { destruct (mg_generation _ _ G1) as [E|E]; [done|].
    rewrite E, Z.add_1_r, Z.odd_succ, Z.even_mul in Hodd. done. }
  assert (reading (g_session g1) frame count out1 m1 g1) as Hr by (split_and!; [done|lia|by auto]).
  split; [done|]. intros m2 g2 R2. split; [done|].
  pose proof (reading_rely _ _ _ _ _ _ _ _ R2 Hr) as Hr2.
  apply (rg_read_frames (g_session g1) frame (m2 FirstFrame) count (Z.to_nat count) (Z.to_nat count) 0);
    [ranges; lia|ranges; lia|lia|ranges; lia|lia|lia|done|].
  intros out2 m3 g3 Hl2 Hr3. split; [done|]. intros m4 g4 R4. split; [done|].
  pose proof (reading_rely _ _ _ _ _ _ _ _ R4 Hr3) as (G4 & Hn4 & Hd4).
  destruct (Z.eqb_spec (m1 Generation) (m4 Generation)) as [E|E]; cbn [negb].
  - split; [done|]. exists (g_session g1). apply Hd4.
    pose proof (mg_generation _ _ G4). lia.
  - destruct (silence_ok out2 count) as (out3 & -> & _ & _ & Hz3); [apply Hc|lia|].
    split; [done|]. exists 0. by apply Hsil.
Qed.

(** ** The two together *)

Lemma rg_writer : rg_thread writer writer_ghost rely_w guar_w reads_any inv_w.
Proof.
  constructor; [apply rely_w_refl|apply rely_w_trans|by intros ????? ? [-> ->]|].
  intros st A p ret m g Hi Hc. destruct Hc; [by apply rg_write|by eapply rg_reset].
Qed.

Lemma rg_reader : rg_thread reader reader_ghost rely_r guar_r reads_any inv_r.
Proof.
  constructor; [apply rely_r_refl|apply rely_r_trans|intros; by eapply inv_r_rely|].
  intros st A p ret m g Hi Hc. destruct Hc. by eapply rg_read.
Qed.

Lemma mic_good_init : mic_good PLANKMicBufferInit (mkMic 0 [] (fun _ => [])).
Proof.
  constructor; cbn; [by split|by left| |done|done].
  intros s. constructor; [done|]. by intros b p ?%elem_of_nil.
Qed.

Lemma mic_invariant c : mic_reachable c ->
  machine_inv writer_ghost reader_ghost rely_w rely_r guar_w guar_r reads_any reads_any inv_w inv_r c.
Proof.
  apply (machine_invariant _ _ _ _ _ _ _ _ _ _ _ _ rg_writer rg_reader); [done|done|].
  split; [|by split; [apply mic_good_init|]].
  split_and!; [apply mic_good_init|done..|]. intros s. split; [by constructor|].
  by intros b p ?%elem_of_nil.
Qed.

(** ** Properties *)



(** ** A write, then a read of the same positions *)

Definition frame_bits_at (l : list Z) (i : nat) : Z :=
  frame_bits (nth (2 * i) l 0) (nth (2 * i + 1) l 0).

(** The samples a read delivers for what was written. *)
Definition clamped (l : list Z) (count : Z) : list Z :=
  flat_map (fun i => [u32 (frame_bits_at l i); u32 (Z.shiftr (frame_bits_at l i) 32)])
    (seq 0 (Z.to_nat count)).

Lemma length_clamped l (n : nat) : length (clamped l (Z.of_nat n)) = (2 * n)%nat.
Proof.
  unfold clamped. rewrite Nat2Z.id. generalize (seq 0 n) (length_seq n 0). intros s <-.
  induction s as [|x s IH]; [done|]. cbn [flat_map app length]. rewrite IH. lia.
Qed.

Definition mic_slot (p : Z) : Z := p mod PLANKMicFrames.

Definition written_upto (frame : Z) (l : list Z) (n : nat) (m0 m : mem loc) : Prop :=
  m Generation = m0 Generation /\ m FirstFrame = m0 FirstFrame /\
  forall k : nat, (k < n)%nat ->
    m (Frame (mic_slot (frame + Z.of_nat k))) = frame + Z.of_nat k + 1 /\
    m (Bits (mic_slot (frame + Z.of_nat k))) = frame_bits_at l k.

Lemma mic_slot_ok p : mic_slot_valid (mic_slot p) = true.
Proof. unfold mic_slot_valid, mic_slot, PLANKMicFrames. pose proof (Z.mod_pos_bound p 8192). lia. Qed.

Lemma mic_slot_ne p k i : 0 <= k < i -> i < PLANKMicFrames -> mic_slot (p + k) <> mic_slot (p + i).
Proof. unfold mic_slot, PLANKMicFrames. intros ? ? E. Z.div_mod_to_equations. lia. Qed.

Lemma run_write_frames frame l count fuel j i m0 m :
  0 <= frame -> frame + count <= UINT64_MAX -> count <= PLANKMicMaxIO -> count * 2 <= len l ->
  count = Z.of_nat (i + j) -> (j <= fuel)%nat -> written_upto frame l i m0 m ->
  exists m', run (write_frames fuel frame l count (Z.of_nat i) (Ret true)) m = Some (true, m') /\
    written_upto frame l (Z.to_nat count) m0 m'.
Proof.
  intros Hf Hmax Hio Hl. unfold PLANKMicMaxIO in Hio.
  revert fuel i m. induction j as [|j IH]; intros fuel i m Hc Hfuel Hw.
  { exists m. replace (Z.to_nat count) with i by lia. split; [|done].
    replace count with (Z.of_nat i) by lia. destruct fuel; cbn [write_frames]; by rewrite Z.ltb_irrefl. }
  destruct fuel as [|fuel]; [lia|]. cbn [write_frames]. rewrite (proj2 (Z.ltb_lt _ _)) by lia.
  destruct (load_frame l count i) as [-> ->]; [done|lia|].
  rewrite (wrap_small 64 (frame + Z.of_nat i)), (wrap_small 64 (frame + Z.of_nat i + 1)),
    (wrap_small 32 (Z.of_nat i + 1)) by (ranges; lia).
  fold (mic_slot (frame + Z.of_nat i)). rewrite !run_store by apply mic_slot_ok.
  replace (Z.of_nat i + 1) with (Z.of_nat (S i)) by lia. apply IH; [lia|lia|].
  destruct Hw as (Hg & Hfi & Hk). split_and!; [by rewrite !upd_other|by rewrite !upd_other|].
  intros k Hlt. destruct (decide (k = i)) as [->|Hne].
  - rewrite upd_same, upd_other, upd_same by done. done.
  - pose proof (mic_slot_ne frame (Z.of_nat k) (Z.of_nat i) ltac:(lia) ltac:(unfold PLANKMicFrames; lia)).
    rewrite !upd_other by congruence. apply Hk. lia.
Qed.

Lemma run_read_frames frame first l count fuel j i m0 m out (k : list Z -> prog loc (bool * option (list Z))) :
  first <= frame -> 0 <= frame -> frame + count <= UINT64_MAX -> count * 2 <= len out ->
  count <= PLANKMicMaxIO -> count = Z.of_nat (i + j) -> (j <= fuel)%nat ->
  written_upto frame l (Z.to_nat count) m0 m -> 
  run (read_frames fuel frame first count (Z.of_nat i) (clamped l (Z.of_nat i) ++ drop (2 * i) out) k) m =
  run (k (clamped l count ++ drop (Z.to_nat (2 * count)) out)) m.
Proof.
  intros Hfi Hf Hmax Hl Hio. unfold PLANKMicMaxIO in Hio.
  revert fuel i. induction j as [|j IH]; intros fuel i Hc Hfuel Hw.
  { replace count with (Z.of_nat i) by lia. replace (Z.to_nat (2 * Z.of_nat i)) with (2 * i)%nat by lia.
    destruct fuel; cbn [read_frames]; by rewrite Z.ltb_irrefl. }
  destruct fuel as [|fuel]; [lia|]. cbn [read_frames]. rewrite (proj2 (Z.ltb_lt _ _)) by lia.
  rewrite (wrap_small 64 (frame + Z.of_nat i)), (wrap_small 64 (frame + Z.of_nat i + 1)),
    (wrap_small 32 (Z.of_nat i + 1)) by (ranges; lia).
  rewrite (proj2 (Z.ltb_ge _ _)) by lia. fold (mic_slot (frame + Z.of_nat i)).
  rewrite !run_load by apply mic_slot_ok.
  destruct Hw as (Hg & Hff & Hk). destruct (Hk i) as [-> ->]; [lia|].
  rewrite !Z.eqb_refl. cbn [andb].
  pose proof (length_clamped l i) as Hcl.
  destruct (drop (2 * i) out) as [|a [|b rest]] eqn:Ed;
    [apply (f_equal length) in Ed; rewrite length_drop in Ed; cbn in Ed; lia..|].
  rewrite (copy_to_app _ [a; b] [_; _] rest) by
    (done || (unfold PLANKMicChannels; lia)).
  replace (Z.of_nat i + 1) with (Z.of_nat (S i)) by lia.
  rewrite <- (IH fuel (S i)) by (lia || by split_and!). f_equal. f_equal.
  replace (2 * S i)%nat with (2 * i + 2)%nat by lia. rewrite <- drop_drop, Ed. cbn [drop].
  unfold clamped. rewrite !Nat2Z.id, seq_S, flat_map_app, <- app_assoc. cbn [flat_map app Nat.add].
  done.
Qed.

(** What [PLANKMicBufferWrite] accepts, and a write that runs alone. *)
Definition accepts (first frame : Z) (samples : option (list Z)) (count : Z) : bool :=
  match samples with
  | Some l => negb ((count =? 0) || (PLANKMicMaxIO <? count) || (UINT64_MAX - count <? frame)) &&
      (first <=? frame) && forallb isfinite (take (Z.to_nat (2 * count)) l)
  | None => false
  end.

Lemma mic_run_write frame samples count m :
  in_range 64 frame -> in_range 32 count ->
  match samples with Some l => count * 2 <= len l | None => True end ->
  if accepts (m FirstFrame) frame samples count
  then frame + count <= UINT64_MAX /\ count <= PLANKMicMaxIO /\ m FirstFrame <= frame /\
    exists m', run (PLANKMicBufferWrite frame samples count) m = Some (true, m') /\
      written_upto frame (default [] samples) (Z.to_nat count) m m'
  else run (PLANKMicBufferWrite frame samples count) m = Some (false, m).
Proof.
  intros Hf Hc Hs. unfold PLANKMicBufferWrite, accepts.
  destruct samples as [l|]; [|done]. destruct (_ || _) eqn:Hr; [done|].
  cbn [negb andb default]. rewrite run_load by done. guards.
  rewrite Z.leb_antisym. destruct (frame <? m FirstFrame) eqn:Hff; [done|]. cbn [negb andb].
  unfold all_finite, PLANKMicChannels. rewrite copy_from_take by (ranges; lia).
  replace (Z.to_nat (count * 2)) with (Z.to_nat (2 * count)) by lia. cbn [fmap option_fmap option_map].
  destruct (forallb _ _); [|done]. assert (PLANKMicMaxIO = 8192) as Hio by done.
  split; [lia|]. split; [lia|]. split; [lia|].
  apply (run_write_frames frame l count (Z.to_nat count) (Z.to_nat count) 0 m m);
    [ranges; lia|lia|lia|lia|ranges; lia|lia|split_and!; [done|done|lia]].
Qed.

(** A read, alone, of positions that were written and no reset in progress. *)
Lemma mic_run_read frame l count m m' out :
  in_range 64 frame -> in_range 32 count -> frame + count <= UINT64_MAX -> count <= PLANKMicMaxIO ->
  m FirstFrame <= frame -> count * 2 <= len out -> Z.odd (m Generation) = false ->
  written_upto frame l (Z.to_nat count) m m' ->
  run (PLANKMicBufferRead frame (Some out) count) m' =
    Some (true, Some (clamped l count ++ drop (Z.to_nat (2 * count)) out), m').
Proof.
  intros Hf Hc Hmax Hio Hfirst Hl Hodd Hwr. unfold PLANKMicBufferRead.
  rewrite (proj2 (Z.ltb_ge _ _)) by lia.
  destruct (silence_ok out count) as (out1 & -> & Hl1 & Htail & _); [apply Hc|done|].
  rewrite (proj2 (Z.ltb_ge (UINT64_MAX - count) _)) by lia.
  pose proof Hwr as (Hg' & Hff' & _). rewrite run_load, Hg', Hodd, run_load, Hff' by done.
  change out1 with (clamped l (Z.of_nat 0) ++ drop (2 * 0) out1).
  rewrite (run_read_frames frame _ l count (Z.to_nat count) (Z.to_nat count) 0 m m') by
    (done || ranges; lia).
  rewrite run_load, Hg', Z.eqb_refl by done. cbn [negb run]. by rewrite Htail.
Qed.

(** A write that runs alone is refused exactly for a missing buffer, a frame
    count of zero or beyond the history, positions that would wrap or precede the
    session's first frame, or a sample that is not finite - and then changes nothing.
    Otherwise it succeeds, and while no reset is in progress a read of the same
    positions delivers exactly its samples, each clamped to [-1, 1], and leaves the
    rest of the reader's buffer alone. *)
Theorem mic_write_read frame samples count m out :
  in_range 64 frame -> in_range 32 count ->
  match samples with Some l => count * 2 <= len l | None => True end ->
  count * 2 <= len out -> in_range 64 (m Generation) -> Z.odd (m Generation) = false ->
  let accepted := accepts (m FirstFrame) frame samples count in
  (accepted = false -> run (PLANKMicBufferWrite frame samples count) m = Some (false, m)) /\
  (accepted = true -> exists m',
     run (PLANKMicBufferWrite frame samples count) m = Some (true, m') /\
     run (PLANKMicBufferRead frame (Some out) count) m' =
       Some (true, Some (clamped (default [] samples) count ++ drop (Z.to_nat (2 * count)) out), m')).
Proof.
  intros Hf Hc Hs Hl Hgr Hodd. pose proof (mic_run_write frame samples count m Hf Hc Hs) as Hw.
  cbv zeta. destruct (accepts _ _ _ _); [|by split]. split; [done|]. intros _.
  destruct Hw as (? & ? & ? & m' & Hw & Hwr). exists m'. split; [exact Hw|].
  by apply (mic_run_read frame _ count m).
Qed.

Lemma mic_write_read_witness :
  exists m', run (PLANKMicBufferWrite 8190 (Some [F32_ONE; 3; 1073741824; 5; 6; 7]) 3) PLANKMicBufferInit = Some (true, m') /\
    run (PLANKMicBufferRead 8190 (Some [9; 9; 9; 9; 9; 9; 9]) 3) m' =
      Some (true, Some [F32_ONE; 3; F32_ONE; 5; 6; 7; 9], m').
Proof.
  destruct (mic_write_read 8190 (Some [F32_ONE; 3; 1073741824; 5; 6; 7]) 3 PLANKMicBufferInit
    [9; 9; 9; 9; 9; 9; 9]) as [_ H]; [concrete..|].
  destruct (H eq_refl) as (m' & Hw & Hr). exists m'. split; [exact Hw|exact Hr].
Defined.
