(* ===== verification/HalDriver.v ===== *)
(** * HalDriver: what the two Core Audio drivers share

    apps/host/macos/audio-device/microphone-driver.c and output-driver.c are separate
    plug-ins with the same skeleton: the reference count, the table of clients with the
    count of running ones, the clock anchor, and tables of properties.  This file has
    their vocabulary and the client table, once for both; [MicDriver] and [OutputDriver]
    instantiate it.  Everything that changes the table runs under the driver's mutex,
    so an operation is one step.  Constants and structure sizes of Apple's SDK are
    represented by name: statuses, scopes and selectors are inductive types. *)

From stdpp Require Import gmap.
From Stdlib Require Import SpecFloat.
From S2P Require Import Prelude.
From S2P Require Import Endian.
From S2P Require Import Float32.

Inductive OSStatus :=
  | noErr | BadObjectError | UnknownPropertyError | IllegalOperationError
  | BadPropertySizeError | UnsupportedOperationError | UnsupportedFormatError.
#[export] Instance OSStatus_eq_dec : EqDecision OSStatus.
Proof. solve_decision. Defined.

Inductive HRESULT := S_OK | E_POINTER | E_NOINTERFACE.

(** The IO operations the drivers name. *)
Inductive io_operation := ReadInput | WriteMix | OtherOperation.
#[export] Instance io_operation_eq_dec : EqDecision io_operation.
Proof. solve_decision. Defined.

(** [kAudioObjectPropertyScope...]; other values are [OtherScope]. *)
Inductive scope := Global | Input | Output | OtherScope.
#[export] Instance scope_eq_dec : EqDecision scope.
Proof. solve_decision. Defined.

(** The selectors the drivers name, without their [kAudio...Property] prefixes.  The
    SDK gives device and stream latency the same code: one constructor. *)
Inductive selector :=
  | BaseClass | Class_ | Owner | Name | Manufacturer | OwnedObjects
  | DeviceList | TranslateUIDToDevice | ResourceBundle
  | DeviceUID | ModelUID | TransportType | ClockDomain | DeviceIsAlive | DeviceIsRunning
  | IsHidden | ZeroTimeStampPeriod | NominalSampleRate | AvailableNominalSampleRates
  | ControlList | RelatedDevices
  | DeviceCanBeDefaultDevice | DeviceCanBeDefaultSystemDevice | Latency | SafetyOffset
  | PreferredChannelsForStereo | Streams | VolumeScalar | Mute
  | ControlScope | ControlElement | BooleanValue
  | ScalarValue | DecibelValue | ConvertScalarToDecibels | ConvertDecibelsToScalar | DecibelRange
  | IsActive | Direction | TerminalType | StartingChannel
  | VirtualFormat | PhysicalFormat | AvailableVirtualFormats | AvailablePhysicalFormats
  | DeviceForUID | DefaultInputDevice
  | OtherSelector.
#[export] Instance selector_eq_dec : EqDecision selector.
Proof. solve_decision. Defined.

(** [AudioObjectPropertyAddress]; [kAudioObjectPropertyElementMain] is 0. *)
Record property_address := mkAddress { mSelector : selector; mScope : scope; mElement : Z }.

Definition kAudioObjectUnknown : Z := 0.
Definition kAudioObjectPlugInObject : Z := 1.
Definition PLANKAudioZeroTimeStampPeriod : Z := 15840.

(** [sizeof] of the SDK types. *)
Definition sizeof_UInt32 : Z := 4.
Definition sizeof_Float32 : Z := 4.
Definition sizeof_Float64 : Z := 8.
Definition sizeof_CFStringRef : Z := 8.
Definition sizeof_AudioValueRange : Z := 16.
Definition sizeof_AudioStreamBasicDescription : Z := 40.
Definition sizeof_AudioStreamRangedDescription : Z := 56.

(** Numeric constants of the SDK that the drivers store in answers or compare with. *)
Class AudioSDK := {
  kAudioObjectClassID : Z; kAudioPlugInClassID : Z; kAudioDeviceClassID : Z; kAudioStreamClassID : Z;
  kAudioLevelControlClassID : Z; kAudioBooleanControlClassID : Z;
  kAudioVolumeControlClassID : Z; kAudioMuteControlClassID : Z;
  kAudioObjectPropertyScopeOutput : Z; kAudioDeviceTransportTypeVirtual : Z;
  kAudioStreamTerminalTypeMicrophone : Z; kAudioStreamTerminalTypeSpeaker : Z;
  kAudioFormatLinearPCM : Z; kAudioFormatFlagsNativeFloatPacked : Z;
  sdk_words : Forall (in_range 32) [kAudioFormatLinearPCM; kAudioFormatFlagsNativeFloatPacked] }.

(** The constants as the SDK's documentation lists them (four-character codes), for examples. *)
Definition documented_sdk : AudioSDK.
Proof.
  refine {| kAudioObjectClassID := 1634689642; kAudioPlugInClassID := 1634757735;
    kAudioDeviceClassID := 1633969526; kAudioStreamClassID := 1634956402;
    kAudioLevelControlClassID := 1818588780; kAudioBooleanControlClassID := 1953458028;
    kAudioVolumeControlClassID := 1986817381; kAudioMuteControlClassID := 1836414053;
    kAudioObjectPropertyScopeOutput := 1869968496; kAudioDeviceTransportTypeVirtual := 1986622068;
    kAudioStreamTerminalTypeMicrophone := 1835623282; kAudioStreamTerminalTypeSpeaker := 1936747378;
    kAudioFormatLinearPCM := 1819304813; kAudioFormatFlagsNativeFloatPacked := 9 |}.
  repeat (apply Forall_cons; split); done.
Defined.

(** [AudioStreamBasicDescription] without its reserved word; the rate is a double's pattern. *)
Record stream_format := mkFormat {
  mSampleRate : Z; mFormatID : Z; mFormatFlags : Z; mBytesPerPacket : Z; mFramesPerPacket : Z;
  mBytesPerFrame : Z; mChannelsPerFrame : Z; mBitsPerChannel : Z }.

(** What a property read stores through its [data] pointer: floats and doubles by pattern,
    a string by the object retained for the caller. *)
Inductive property_data :=
  | UInt32s (l : list Z)
  | CFString (s : string)
  | Float32Value (bits : Z)
  | Float64Value (bits : Z)
  | ValueRange (low high : Z)
  | Format (f : stream_format)
  | RangedFormat (f : stream_format) (low high : Z).

Definition data_size (d : property_data) : Z :=
  match d with
  | UInt32s l => sizeof_UInt32 * len l
  | CFString _ => sizeof_CFStringRef
  | Float32Value _ => sizeof_Float32
  | Float64Value _ => sizeof_Float64
  | ValueRange _ _ => sizeof_AudioValueRange
  | Format _ => sizeof_AudioStreamBasicDescription
  | RangedFormat _ _ _ => sizeof_AudioStreamRangedDescription
  end.

(** The 32-bit words of a format in memory order, the rate's 64-bit pattern before them. *)
Definition format_words (f : stream_format) : list Z :=
  [mFormatID f; mFormatFlags f; mBytesPerPacket f; mFramesPerPacket f; mBytesPerFrame f;
   mChannelsPerFrame f; mBitsPerChannel f].

(** The bytes of the values that setters take (little-endian machines). *)
Definition image (d : property_data) : option (list Z) :=
  match d with
  | UInt32s l => Some (concat (map (le_bytes 4) l))
  | Float32Value b => Some (le_bytes 4 b)
  | Float64Value b => Some (le_bytes 8 b)
  | Format f => Some (le_bytes 8 (mSampleRate f) ++ concat (map (le_bytes 4) (format_words f)) ++ le_bytes 4 0)
  | _ => None
  end.

(** A Core Foundation reference behind a qualifier. *)
Inductive cf_ref := NullRef | StringRef (s : string) | OtherRef.

(** The result of a property read: status, what [*actual] holds (null: [None]), what was stored. *)
Record answer := mkAnswer { status : OSStatus; actual : option Z; written : option property_data }.

(** [propertySize]'s result: a status that is not [noErr], or [noErr] and the size. *)
Abbreviation size_result := (OSStatus + Z)%type.

(** Consecutive [if (c) switch (...)] statements whose cases return: the first that has the case. *)
Fixpoint first_case (l : list (bool * option Z)) : size_result :=
  match l with
  | [] => inl UnknownPropertyError
  | (true, Some n) :: _ => inr n
  | _ :: l => first_case l
  end.

Lemma first_case_error l e : first_case l = inl e -> e = UnknownPropertyError.
Proof. induction l as [|[[] [n|]] l IH]; cbn; [by intros [= <-]|done|done|done|done]. Qed.

Notation "a =s? b" := (bool_decide (a = b)) (at level 70) : plank_scope.

Definition read_float64 (data : list Z) (at_ : Z) : option Z := read_le data at_ 8.
Definition read_uint32 (data : list Z) (at_ : Z) : option Z := read_le data at_ 4.

Lemma read_word_here data : 4 <= len data -> exists v, read_uint32 data 0 = Some v.
Proof.
  intros H. unfold read_uint32, read_le. cbn [read_le_loop].
  repeat match goal with |- context [load data ?i] => destruct (load_Some data i) as [? ->]; [lia|]; cbn [mbind option_bind] end.
  by eexists.
Qed.

Lemma read_word_nonneg data v : bytes data -> read_uint32 data 0 = Some v -> 0 <= v.
Proof.
  intros Hb Hv. unfold read_uint32, read_le in Hv. cbn [read_le_loop] in Hv.
  repeat match type of Hv with context [load data ?i] =>
    let E := fresh in let b := fresh "b" in destruct (load data i) as [b|] eqn:E; cbn [mbind option_bind] in Hv; [|done];
    apply load_bytes in E; [|done] end.
  injection Hv as <-. rewrite !Z.lor_nonneg. split_and!; try done; apply wrap_range; lia.
Qed.

(** ** Reference counting *)

Definition retain (driver : bool) (references : Z) : Z * Z :=
  if driver then (u32 (references + 1), u32 (references + 1)) else (0, references).
(** The compare-and-swap loop ends with the value it last read. *)
Definition release (driver : bool) (references : Z) : Z * Z :=
  if negb driver then (0, references)
  else if references =? 0 then (0, references) else (references - 1, references - 1).

(** ** The client table *)

Record client_slot := mkClient { id : Z; used : bool; running_ : bool }.

(** The mutable state of a driver: table, [running], [anchor], [clockSeed], [host]. *)
Record hal := mkHal {
  clients : list client_slot; running : Z; anchor : Z; clockSeed : Z; host : bool }.

Definition MaxClients : nat := 64.
Definition hal_zero : hal := mkHal (replicate MaxClients (mkClient 0 false false)) 0 0 0 false.

(** [initialize]: the first call sets anchor and seed. *)
Definition initialize (driver owner : bool) (now : Z) (h : hal) : OSStatus * hal :=
  if negb driver || negb owner then (IllegalOperationError, h)
  else if negb (host h) then (noErr, mkHal (clients h) (running h) now 1 true) else (noErr, h).

Definition is_client (cid : Z) (c : client_slot) : bool := used c && (id c =? cid).

(** The loop that takes the first free slot. *)
Fixpoint take_slot (cid : Z) (l : list client_slot) : option (list client_slot) :=
  match l with
  | [] => None
  | c :: l' => if negb (used c) then Some (mkClient cid true false :: l')
               else cons c <$> take_slot cid l'
  end.

(** [client] is the identifier behind the info pointer, null is [None]. *)
Definition addClient (driver device : bool) (client : option Z) (h : hal) : OSStatus * hal :=
  match client with
  | Some cid =>
      if negb driver || negb device then (BadObjectError, h)
      else if existsb (is_client cid) (clients h) then (noErr, h)
      else match take_slot cid (clients h) with
      | Some l => (noErr, mkHal l (running h) (anchor h) (clockSeed h) (host h))
      | None => (IllegalOperationError, h)
      end
  | None => (BadObjectError, h)
  end.

(** The first slot of a client, and the table with that slot replaced. *)
Fixpoint on_slot (cid : Z) (f : client_slot -> client_slot) (l : list client_slot)
    : option (client_slot * list client_slot) :=
  match l with
  | [] => None
  | c :: l' => if is_client cid c then Some (c, f c :: l')
               else match on_slot cid f l' with Some (d, l') => Some (d, c :: l') | None => None end
  end.

Definition removeClient (driver device : bool) (client : option Z) (h : hal) : OSStatus * hal :=
  match client with
  | Some cid =>
      if negb driver || negb device then (BadObjectError, h)
      else match on_slot cid (fun c => mkClient (id c) false false) (clients h) with
      | Some (c, l) =>
          (noErr, mkHal l (if running_ c then u32 (running h - 1) else running h)
                    (anchor h) (clockSeed h) (host h))
      | None => (noErr, h)
      end
  | None => (BadObjectError, h)
  end.

(** [changeIO]; the last result tells whether the clock was restarted. *)
Definition changeIO (driver device : bool) (cid : Z) (start : bool) (now : Z) (h : hal) : OSStatus * hal * bool :=
  if negb driver || negb device || negb (host h) then (BadObjectError, h, false)
  else match on_slot cid (fun c => mkClient (id c) (used c) start) (clients h) with
  | None => (IllegalOperationError, h, false)
  | Some (c, l) =>
      if Bool.eqb (running_ c) start then (noErr, h, false)
      else if start then
        let first := running h =? 0 in
        (noErr, mkHal l (u32 (running h + 1)) (if first then now else anchor h)
                  (if first then u64 (clockSeed h + 1) else clockSeed h) (host h), first)
      else (noErr, mkHal l (u32 (running h - 1)) (anchor h) (clockSeed h) (host h), false)
  end.

(** ** The clock *)

(** [floor] of a non-negative double, as a double. *)
Definition double_floor (x : spec_float) : spec_float := double_of_int (unsigned_of_double x).

Definition ticks_per_frame (rate denom numer : Z) : spec_float :=
  double_div (double_mul (double_div (double_of_int 1000000000) (double_of_int rate)) (double_of_int denom))
    (double_of_int numer).

(** [timestamp]: sample time (a whole number of periods), host time and seed. *)
Definition timestamp (driver device outputs : bool) (ticksPerFrame : spec_float) (now : Z) (h : hal)
    : OSStatus * option (spec_float * Z * Z) :=
  if negb driver || negb device || negb outputs || negb (host h) then (IllegalOperationError, None)
  else
    let periods := double_floor (double_div (double_of_int (u64 (now - anchor h)))
                     (double_mul ticksPerFrame (double_of_int PLANKAudioZeroTimeStampPeriod))) in
    let sample := double_mul periods (double_of_int PLANKAudioZeroTimeStampPeriod) in
    (noErr, Some (sample, u64 (anchor h + unsigned_of_double (double_mul sample ticksPerFrame)), clockSeed h)).

(** ** The table is a finite map *)

Definition entries (l : list client_slot) : list (Z * bool) :=
  omap (fun c => if used c then Some (id c, running_ c) else None) l.
Definition table (l : list client_slot) : gmap Z bool := list_to_map (entries l).
Definition running_count (m : gmap Z bool) : nat := size (filter (fun p : Z * bool => p.2 = true) m).

Record hal_wf (h : hal) : Prop := {
  hw_length : length (clients h) = MaxClients;
  hw_ids : NoDup (entries (clients h)).*1;
  hw_idle : Forall (fun c => used c = false -> running_ c = false) (clients h);
  hw_running : running h = Z.of_nat (running_count (table (clients h))) }.

Lemma entries_cons c l : entries (c :: l) = (if used c then [(id c, running_ c)] else []) ++ entries l.
Proof. unfold entries. cbn. by destruct (used c). Qed.

Lemma table_cons c l :
  table (c :: l) = if used c then <[id c := running_ c]> (table l) else table l.
Proof. unfold table. rewrite entries_cons. by destruct (used c). Qed.

Lemma entries_in c l : In c (entries l).*1 <-> is_Some (table l !! c).
Proof.
  unfold table. rewrite <- list_elem_of_In. split.
  - intros H. destruct (list_to_map (M:=gmap Z bool) (entries l) !! c) eqn:E; [by eexists|].
    by apply not_elem_of_list_to_map_2 in E.
  - intros [b H]. destruct (decide (c ∈ (entries l).*1)) as [|Hn]; [done|].
    by rewrite not_elem_of_list_to_map_1 in H.
Qed.

Lemma existsb_client cid l : existsb (is_client cid) l = true <-> is_Some (table l !! cid).
Proof.
  induction l as [|c l IH]; [by split; [|intros [? ?]]|]. cbn [existsb]. rewrite orb_true_iff, IH, table_cons.
  unfold is_client. destruct (used c); cbn [andb].
  - destruct (Z.eqb_spec (id c) cid) as [<-|Hne].
    + rewrite lookup_insert_eq. split; [by eexists|by left].
    + rewrite lookup_insert_ne by done. by split; [intros [|]|right].
  - by split; [intros [|]|right].
Qed.

Lemma take_slot_spec cid l l' :
  take_slot cid l = Some l' -> table l !! cid = None -> NoDup (entries l).*1 ->
  table l' = <[cid := false]> (table l) /\ NoDup (entries l').*1 /\ length l' = length l.
Proof.
  revert l'. induction l as [|c l IH]; intros l' Ht Hc Hnd; [done|]. cbn [take_slot] in Ht.
  rewrite table_cons in *. rewrite entries_cons in Hnd. destruct (used c) eqn:Eu; cbn [negb] in Ht.
  - destruct (take_slot cid l) as [l1|] eqn:E; [|done]. injection Ht as <-.
    cbn [fmap list_fmap app fst] in Hnd. apply NoDup_cons in Hnd as [Hni Hnd].
    assert (id c <> cid) as Hne by (intros E'; by rewrite E', lookup_insert_eq in Hc).
    rewrite lookup_insert_ne in Hc by done. destruct (IH _ eq_refl Hc Hnd) as (Et & Hnd' & Hl).
    rewrite table_cons, Eu, Et, entries_cons, Eu. split_and!; [by rewrite insert_insert_ne| |cbn; by rewrite Hl].
    cbn [fmap list_fmap app fst]. apply NoDup_cons. split; [|done].
    rewrite list_elem_of_In, entries_in, Et, lookup_insert_ne, <- entries_in, <- list_elem_of_In by done. done.
  - injection Ht as <-. rewrite table_cons, entries_cons. cbn [used id running_ app fmap list_fmap fst].
    split_and!; [done| |done]. apply NoDup_cons. split; [|done].
    rewrite list_elem_of_In, entries_in, Hc. by intros [? ?].
Qed.

Lemma take_slot_full cid l :
  take_slot cid l = None <-> Forall (fun c => used c = true) l.
Proof.
  induction l as [|c l IH]; [by split|]. cbn [take_slot]. rewrite Forall_cons, <- IH.
  destruct (used c); cbn [negb]; [|by split; [|intros [? _]]].
  destruct (take_slot cid l); by split; [|intros [_ ?]].
Qed.

Lemma is_client_spec cid c : is_client cid c = true <-> used c = true /\ id c = cid.
Proof. unfold is_client. rewrite andb_true_iff, Z.eqb_eq. done. Qed.

Lemma on_slot_none cid f l : on_slot cid f l = None <-> table l !! cid = None.
Proof.
  induction l as [|c l IH]; [by split|]. cbn [on_slot]. rewrite table_cons. unfold is_client.
  destruct (used c) eqn:Eu; cbn [andb].
  - destruct (Z.eqb_spec (id c) cid) as [<-|Hne]; [by rewrite lookup_insert_eq|].
    rewrite lookup_insert_ne, <- IH by done. by destruct (on_slot cid f l) as [[]|].
  - rewrite <- IH. by destruct (on_slot cid f l) as [[]|].
Qed.

(** Replacing a client's slot, [f] keeping the identifier. *)
Lemma on_slot_spec cid f l c l' :
  on_slot cid f l = Some (c, l') -> (forall c, id (f c) = id c) -> NoDup (entries l).*1 ->
  used c = true /\ id c = cid /\ table l !! cid = Some (running_ c) /\ length l' = length l /\
  table l' = (if used (f c) then <[cid := running_ (f c)]> (table l) else delete cid (table l)) /\
  NoDup (entries l').*1 /\
  (forall P, Forall P l -> P (f c) -> Forall P l') /\ c ∈ l.
Proof.
  intros Ho Hf. revert c l' Ho. induction l as [|d l IH]; intros c l' Ho Hnd; [done|]. cbn [on_slot] in Ho.
  rewrite entries_cons in Hnd. destruct (is_client cid d) eqn:Ec.
  - injection Ho as -> <-. apply is_client_spec in Ec as [Eu <-]. rewrite !table_cons, Eu, Hf in *.
    cbn [app fmap list_fmap fst] in Hnd. apply NoDup_cons in Hnd as [Hni Hnd].
    assert (table l !! id c = None) as Hnone.
    { rewrite list_elem_of_In, entries_in in Hni. by apply eq_None_not_Some. }
    split_and!; try done.
    + by rewrite lookup_insert_eq.
    + destruct (used (f c)); [by rewrite insert_insert_eq|by rewrite delete_insert_id].
    + rewrite entries_cons, Hf. destruct (used (f c)); [|done]. by apply NoDup_cons.
    + intros P [_ HP]%Forall_cons Hc. by constructor.
    + by left.
  - destruct (on_slot cid f l) as [[c1 l1]|] eqn:Eo; [|done]. injection Ho as -> <-.
    assert (NoDup (entries l).*1) as Hnd' by (destruct (used d); [by apply NoDup_cons in Hnd as [_ ?]|done]).
    destruct (IH _ _ eq_refl Hnd') as (Eu & Ei & Et & El & Et' & Hnd1 & HP & Hin).
    rewrite !table_cons, Et'. unfold is_client in Ec.
    split_and!; [done|done| |cbn; by rewrite El| | | |by right].
    + destruct (used d) eqn:Ed; [|done]. rewrite lookup_insert_ne; [done|]. cbn in Ec. lia.
    + destruct (used d) eqn:Ed; [|done]. cbn in Ec.
      destruct (used (f c)); [rewrite insert_insert_ne by lia|rewrite delete_insert_ne by lia]; done.
    + rewrite entries_cons. destruct (used d) eqn:Ed; [|done]. cbn [app fmap list_fmap fst] in *.
      apply NoDup_cons in Hnd as [Hni _]. apply NoDup_cons. split; [|done]. cbn in Ec.
      rewrite list_elem_of_In, entries_in in Hni |- *. rewrite Et'.
      destruct (used (f c)); [rewrite lookup_insert_ne by lia|rewrite lookup_delete_ne by lia]; done.
    + intros P [Hd HPl]%Forall_cons Hc. constructor; [done|]. by apply HP.
Qed.

(** The number of running clients when one entry changes. *)
Lemma running_insert m k (b : bool) :
  Z.of_nat (running_count (<[k := b]> m)) =
  Z.of_nat (running_count m) + (if b then 1 else 0) -
    (match m !! k with Some true => 1 | _ => 0 end).
Proof.
  unfold running_count. destruct (m !! k) as [[]|] eqn:E; destruct b.
  - rewrite map_filter_insert_True by done. rewrite map_size_insert_Some; [lia|].
    exists true. by apply map_lookup_filter_Some.
  - rewrite map_filter_insert_False, map_filter_delete by done.
    assert (is_Some (filter (fun p : Z * bool => p.2 = true) m !! k)) as Hs
      by (exists true; by apply map_lookup_filter_Some).
    rewrite map_size_delete_Some by done.
    destruct (size (filter _ m)) eqn:Es; [|cbn; lia].
    apply map_size_empty_inv in Es. rewrite Es in Hs. by destruct Hs.
  - rewrite map_filter_insert_True by done. rewrite map_size_insert_None; [lia|].
    apply map_lookup_filter_None. right. intros b Hb. assert (b = false) as -> by congruence. done.
  - rewrite map_filter_insert_not' by (try done; intros y Hy; assert (y = false) as -> by congruence; done). lia.
  - rewrite map_filter_insert_True by done. rewrite map_size_insert_None; [lia|].
    apply map_lookup_filter_None. by left.
  - rewrite map_filter_insert_not' by (try done; intros y Hy; congruence). lia.
Qed.

Lemma running_delete m k :
  Z.of_nat (running_count (delete k m)) =
  Z.of_nat (running_count m) - (match m !! k with Some true => 1 | _ => 0 end).
Proof.
  destruct (m !! k) as [b|] eqn:E; [|by rewrite delete_id, Z.sub_0_r].
  pose proof (running_insert (delete k m) k b) as H. rewrite insert_delete_id, lookup_delete_eq in H by done.
  destruct b; lia.
Qed.

Lemma running_le m : (running_count m <= size m)%nat.
Proof. apply map_size_filter. Qed.

Lemma table_size l : NoDup (entries l).*1 -> size (table l) = length (entries l).
Proof. intros Hnd. unfold table. by rewrite map_size_list_to_map. Qed.

Lemma entries_length l : (length (entries l) <= length l)%nat /\
  (length (entries l) = length l <-> Forall (fun c => used c = true) l).
Proof.
  induction l as [|c l [IH1 IH2]]; [done|]. rewrite entries_cons, length_app, Forall_cons, <- IH2.
  destruct (used c); cbn [length]; split; try lia; split; try lia; intros; lia || (destruct_and!; done).
Qed.

Lemma take_slot_idle cid l l' (P : client_slot -> Prop) :
  take_slot cid l = Some l' -> P (mkClient cid true false) -> Forall P l -> Forall P l'.
Proof.
  intros Ht Hp. revert l' Ht. induction l as [|c l IH]; intros l' Ht [Hc Hl]%Forall_cons || intros l' Ht _; [done|].
  cbn [take_slot] in Ht. destruct (used c); cbn [negb] in Ht.
  - destruct (take_slot cid l); [|done]. injection Ht as <-. constructor; [done|]. by apply IH.
  - injection Ht as <-. by constructor.
Qed.

(** ** The specification

    What the table promises: a finite map from client to whether it runs, at most 64
    of them; the clock restarts exactly when the first client starts. *)

Record hal_spec := mkSpec {
  members : gmap Z bool; spec_anchor : Z; spec_seed : Z; spec_host : bool }.

Inductive hal_op :=
  | Initialize (driver owner : bool) (now : Z)
  | AddClient (driver device : bool) (client : option Z)
  | RemoveClient (driver device : bool) (client : option Z)
  | ChangeIO (driver device : bool) (cid : Z) (start : bool) (now : Z).

Definition hal_step (op : hal_op) (h : hal) : OSStatus * hal :=
  match op with
  | Initialize driver owner now => initialize driver owner now h
  | AddClient driver device client => addClient driver device client h
  | RemoveClient driver device client => removeClient driver device client h
  | ChangeIO driver device cid start now => fst (changeIO driver device cid start now h)
  end.

Definition with_members (s : hal_spec) (m : gmap Z bool) : hal_spec :=
  mkSpec m (spec_anchor s) (spec_seed s) (spec_host s).

Definition spec_start (cid now : Z) (s : hal_spec) : hal_spec :=
  let first := bool_decide (running_count (members s) = 0%nat) in
  mkSpec (<[cid := true]> (members s)) (if first then now else spec_anchor s)
    (if first then u64 (spec_seed s + 1) else spec_seed s) (spec_host s).

Definition spec_step (op : hal_op) (s : hal_spec) : OSStatus * hal_spec :=
  match op with
  | Initialize true true now =>
      (noErr, if spec_host s then s else mkSpec (members s) now 1 true)
  | Initialize _ _ _ => (IllegalOperationError, s)
  | AddClient true true (Some cid) =>
      match members s !! cid with
      | Some _ => (noErr, s)
      | None => if (size (members s) <? MaxClients)%nat then (noErr, with_members s (<[cid := false]> (members s)))
                else (IllegalOperationError, s)
      end
  | RemoveClient true true (Some cid) => (noErr, with_members s (delete cid (members s)))
  | AddClient _ _ _ | RemoveClient _ _ _ => (BadObjectError, s)
  | ChangeIO true true cid start now =>
      if spec_host s then
        match members s !! cid, start with
        | None, _ => (IllegalOperationError, s)
        | Some false, true => (noErr, spec_start cid now s)
        | Some true, false => (noErr, with_members s (<[cid := false]> (members s)))
        | _, _ => (noErr, s)
        end
      else (BadObjectError, s)
  | ChangeIO _ _ _ _ _ => (BadObjectError, s)
  end.

Definition abstract (h : hal) : hal_spec := mkSpec (table (clients h)) (anchor h) (clockSeed h) (host h).

(** A sequence of calls: the statuses returned and the state reached. *)
Fixpoint calls {S} (step : hal_op -> S -> OSStatus * S) (ops : list hal_op) (s : S) : list OSStatus * S :=
  match ops with
  | [] => ([], s)
  | op :: ops => let (status, s) := step op s in let (l, s) := calls step ops s in (status :: l, s)
  end.

Lemma zero_table n : entries (replicate n (mkClient 0 false false)) = [].
Proof. induction n as [|n IH]; [done|]. cbn [replicate]. by rewrite entries_cons, IH. Qed.

Lemma hal_zero_wf : hal_wf hal_zero.
Proof.
  unfold hal_zero. split; cbn [clients running].
  - by rewrite length_replicate.
  - rewrite zero_table. constructor.
  - by apply Forall_replicate.
  - unfold table. by rewrite zero_table.
Qed.

Lemma table_bound h : hal_wf h -> (size (table (clients h)) <= MaxClients)%nat.
Proof.
  intros Hw. rewrite table_size by apply Hw. rewrite <- (hw_length _ Hw). apply entries_length.
Qed.

Lemma running_bound h : hal_wf h -> 0 <= running h <= 64.
Proof.
  intros Hw. rewrite (hw_running _ Hw). pose proof (table_bound _ Hw) as H.
  pose proof (running_le (table (clients h))). unfold MaxClients in H. lia.
Qed.

Lemma wf_with h l r a s o :
  hal_wf h -> length l = length (clients h) -> NoDup (entries l).*1 ->
  Forall (fun c => used c = false -> running_ c = false) l ->
  r = Z.of_nat (running_count (table l)) -> hal_wf (mkHal l r a s o).
Proof. intros [Hl Hn Hi Hr] ????. split; cbn [clients running]; congruence || done. Qed.

(** A table is full exactly when its map has 64 members. *)
Lemma full_table cid h :
  hal_wf h -> take_slot cid (clients h) = None <-> size (table (clients h)) = MaxClients.
Proof.
  intros Hw. rewrite take_slot_full, table_size by apply Hw. rewrite <- (hw_length _ Hw).
  symmetry. apply entries_length.
Qed.

Lemma addClient_step cid h :
  hal_wf h ->
  let (status, h') := addClient true true (Some cid) h in
  spec_step (AddClient true true (Some cid)) (abstract h) = (status, abstract h') /\ hal_wf h'.
Proof.
  intros Hw. cbn [addClient negb orb spec_step]. unfold abstract at 1 2 3 4. cbn [members].
  destruct (existsb (is_client cid) (clients h)) eqn:E.
  { apply existsb_client in E as [b ->]. done. }
  assert (table (clients h) !! cid = None) as Hnone.
  { apply eq_None_not_Some. intros H%existsb_client. congruence. }
  rewrite Hnone. destruct (take_slot cid (clients h)) as [l|] eqn:Et; cycle 1.
  { apply full_table in Et; [|done]. rewrite Et. done. }
  assert (size (table (clients h)) < MaxClients)%nat as Hlt.
  { pose proof (table_bound _ Hw). destruct (decide (size (table (clients h)) = MaxClients)) as [Hs|]; [|lia].
    apply (full_table cid) in Hs; [congruence|done]. }
  rewrite (proj2 (Nat.ltb_lt _ _)) by done.
  destruct (take_slot_spec _ _ _ Et Hnone ltac:(apply Hw)) as (Ht & Hnd & Hl).
  unfold with_members, abstract. cbn [clients anchor clockSeed host members spec_anchor spec_seed spec_host].
  rewrite Ht. split; [done|]. apply (wf_with h); try done.
  - eapply take_slot_idle; [done|done|apply Hw].
  - rewrite Ht, running_insert, Hnone, (hw_running _ Hw). lia.
Qed.

Lemma removeClient_step cid h :
  hal_wf h ->
  let (status, h') := removeClient true true (Some cid) h in
  spec_step (RemoveClient true true (Some cid)) (abstract h) = (status, abstract h') /\ hal_wf h'.
Proof.
  intros Hw. cbn [removeClient negb orb spec_step]. unfold with_members, abstract at 1 2 3 4.
  cbn [members spec_anchor spec_seed spec_host].
  destruct (on_slot cid _ (clients h)) as [[c l]|] eqn:E; cycle 1.
  { apply on_slot_none in E. rewrite delete_id by done. done. }
  destruct (on_slot_spec _ _ _ _ _ E ltac:(done) ltac:(apply Hw)) as (_ & _ & Hc & Hl & Ht & Hnd & HP & _).
  cbn [used] in Ht. unfold abstract. cbn [clients anchor clockSeed host]. rewrite Ht. split; [done|].
  apply (wf_with h); try done.
  - apply HP; [apply Hw|done].
  - pose proof (running_bound _ Hw) as Hb. rewrite Ht, running_delete, Hc, <- (hw_running _ Hw).
    pose proof (running_delete (table (clients h)) cid) as Hd. rewrite Hc, <- (hw_running _ Hw) in Hd.
    destruct (running_ c); [|lia]. rewrite wrap_small; ranges; lia.
Qed.

Lemma changeIO_step cid start now h :
  hal_wf h ->
  let '(status, h', _) := changeIO true true cid start now h in
  spec_step (ChangeIO true true cid start now) (abstract h) = (status, abstract h') /\ hal_wf h'.
Proof.
  intros Hw. unfold changeIO. cbn [negb orb spec_step]. unfold abstract at 1 2 3 4 5 6 7.
  cbn [members spec_host]. destruct (host h) eqn:Eh; cbn [negb]; [|done].
  destruct (on_slot cid _ (clients h)) as [[c l]|] eqn:E; cycle 1.
  { apply on_slot_none in E. rewrite E. done. }
  destruct (on_slot_spec _ _ _ _ _ E ltac:(done) ltac:(apply Hw)) as (Hu & _ & Hc & Hl & Ht & Hnd & HP & _).
  cbn [used running_] in Ht. rewrite Hu in Ht. rewrite Hc.
  pose proof (running_bound _ Hw) as Hb.
  pose proof (running_insert (table (clients h)) cid start) as Hi. rewrite Hc, <- Ht, <- (hw_running _ Hw) in Hi.
  assert (Forall (fun c => used c = false -> running_ c = false) l) as Hidle.
  { apply HP; [apply Hw|]. cbn. congruence. }
  assert (bool_decide (running_count (table (clients h)) = 0%nat) = (running h =? 0)) as Hz.
  { rewrite (hw_running _ Hw). destruct (Z.eqb_spec (Z.of_nat (running_count (table (clients h)))) 0);
      [apply bool_decide_eq_true_2|apply bool_decide_eq_false_2]; lia. }
  destruct (running_ c), start; cbn [Bool.eqb]; unfold abstract; rewrite ?Eh; try done.
  - unfold with_members, abstract. cbn [clients anchor clockSeed host members spec_anchor spec_seed spec_host].
    rewrite Ht. split; [done|]. apply (wf_with h); try done. rewrite wrap_small; ranges; lia.
  - unfold spec_start, abstract. cbn [clients anchor clockSeed host members spec_anchor spec_seed spec_host].
    rewrite Ht, Hz. split; [done|]. apply (wf_with h); try done. rewrite wrap_small; ranges; lia.
Qed.

Lemma hal_step_spec op h :
  hal_wf h ->
  let (status, h') := hal_step op h in
  spec_step op (abstract h) = (status, abstract h') /\ hal_wf h'.
Proof.
  intros Hw. destruct op as [[] [] now|[] [] [cid|]|[] [] [cid|]|[] [] cid start now]; try done.
  - cbn [hal_step spec_step initialize negb orb]. unfold initialize, abstract. cbn [negb orb spec_host].
    destruct (host h) eqn:Eh; cbn [negb]; rewrite ?Eh; split; try done. apply (wf_with h); try done; apply Hw.
  - by apply addClient_step.
  - by apply removeClient_step.
  - cbn [hal_step]. pose proof (changeIO_step cid start now h Hw) as H.
    by destruct (changeIO true true cid start now h) as [[] ?].
Qed.

Lemma calls_spec ops h :
  hal_wf h ->
  let (statuses, h') := calls hal_step ops h in
  calls spec_step ops (abstract h) = (statuses, abstract h') /\ hal_wf h'.
Proof.
  revert h. induction ops as [|op ops IH]; intros h Hw; [done|]. cbn [calls].
  pose proof (hal_step_spec op h Hw) as Hs. destruct (hal_step op h) as [status h1].
  destruct Hs as [-> Hw1]. specialize (IH _ Hw1). destruct (calls hal_step ops h1) as [l h2].
  destruct IH as [-> Hw2]. done.
Qed.

(** C9: Whatever sequence of Initialize, AddDeviceClient, RemoveDeviceClient, StartIO
    and StopIO calls the host makes on a freshly loaded driver (null pointers, foreign
    objects, duplicate, unknown and surplus clients included), the array of 64 slots with
    its counter behaves like a finite map from clients to whether they run: the same
    statuses, the same clock anchor and seed (restarted exactly when the first client
    starts), and the counter that DeviceIsRunning and the IO path read is the number of
    running clients: it never wraps, and stopping twice or removing a running client
    leaves it right. *)
Theorem hal_refines ops :
  let (statuses, h) := calls hal_step ops hal_zero in
  calls spec_step ops (mkSpec ∅ 0 0 false) = (statuses, abstract h) /\
  running h = Z.of_nat (running_count (table (clients h))) /\ 0 <= running h <= 64.
Proof.
  pose proof (calls_spec ops _ hal_zero_wf) as H. destruct (calls hal_step ops hal_zero) as [l h].
  destruct H as [H Hw]. split; [|split; [by apply hw_running|by apply running_bound]].
  by rewrite <- H.
Qed.

Example hal_run :
  let ops := [ChangeIO true true 7 true 5; Initialize true true 10; AddClient true true (Some 7);
              AddClient true true (Some 8); ChangeIO true true 7 true 20; ChangeIO true true 8 true 30;
              ChangeIO true true 7 true 35; RemoveClient true true (Some 7); ChangeIO true true 8 false 40;
              ChangeIO true true 8 true 50] in
  let (statuses, h) := calls hal_step ops hal_zero in
  statuses = [BadObjectError; noErr; noErr; noErr; noErr; noErr; noErr; noErr; noErr; noErr] /\
  (running h, anchor h, clockSeed h) = (1, 50, 3).
Proof. vm_compute. done. Qed.
