(* ===== verification/MicDecoder.v ===== *)
(** * MicDecoder: apps/host/macos/media/microphone-decoder.h

    The check of an Opus packet before the platform's decoder sees it, and the
    handling of what the decoder returns.  AudioConverter is not the repository's
    code: one call of [AudioConverterFillComplexBuffer] is a parameter, its documented
    behaviour (it writes inside the buffer it is given) a hypothesis. *)

From S2P Require Import Prelude.
From S2P Require Import Float32.
From S2P Require Import MicBuffer.
From S2P Require Import HalDriver.

(** ** The packet check *)

Definition PLANKMicOpusPacketValid (data : option (list Z)) (size : Z) : option bool :=
  match data with
  | None => Some false
  | Some data =>
      if (size =? 0) || (1275 <? size) then Some false
      else
        d ← load data 0;
        if Z.land d 4 =? 0 then Some false
        else
          let code := Z.land d 3 in
          frames ← (if code =? 0 then Some 1 else if code <? 3 then Some 2
                    else if 2 <=? size then d1 ← load data 1; Some (Z.land d1 63) else Some 0);
          let samples :=
            if negb (Z.land d 128 =? 0) then Z.shiftl 120 (Z.land (Z.shiftr d 3) 3)
            else if Z.land d 96 =? 96 then (if negb (Z.land d 8 =? 0) then 960 else 480)
            else let n := Z.land (Z.shiftr d 3) 3 in if n =? 3 then 2880 else Z.shiftl 480 n in
          Some (negb (frames =? 0) && (u32 (frames * samples) =? 480))
  end.

(** RFC 6716, table 2: samples per frame at 48 kHz of each configuration. *)
Definition opus_frame_samples : list Z :=
  [480; 960; 1920; 2880; 480; 960; 1920; 2880; 480; 960; 1920; 2880;
   480; 960; 480; 960;
   120; 240; 480; 960; 120; 240; 480; 960; 120; 240; 480; 960; 120; 240; 480; 960].

(** RFC 6716, section 3.2: the frame count of a packet. *)
Definition opus_frames (packet : list Z) : Z :=
  match packet with
  | [] => 0
  | toc :: rest =>
      match toc mod 4 with
      | 0 => 1
      | 1 | 2 => 2
      | _ => match rest with [] => 0 | count :: _ => count mod 64 end
      end
  end.

(** The packet's duration in samples and its stereo flag. *)
Definition opus_duration (packet : list Z) : Z :=
  opus_frames packet * nth (Z.to_nat (hd 0 packet / 8)) opus_frame_samples 0.
Definition opus_stereo (packet : list Z) : bool := Z.testbit (hd 0 packet) 2.

(** ** The packet check is the RFC's duration rule *)

Definition toc_samples (d : Z) : Z :=
  if negb (Z.land d 128 =? 0) then Z.shiftl 120 (Z.land (Z.shiftr d 3) 3)
  else if Z.land d 96 =? 96 then (if negb (Z.land d 8 =? 0) then 960 else 480)
  else let n := Z.land (Z.shiftr d 3) 3 in if n =? 3 then 2880 else Z.shiftl 480 n.

Lemma toc_facts d :
  is_byte d ->
  negb (Z.land d 4 =? 0) = Z.testbit d 2 /\ Z.land d 3 = d mod 4 /\
  toc_samples d = nth (Z.to_nat (d / 8)) opus_frame_samples 0 /\ 0 < toc_samples d <= 2880.
Proof.
  intros Hd.
  pose proof (byte_forall (fun d => Bool.eqb (negb (Z.land d 4 =? 0)) (Z.testbit d 2) &&
    (Z.land d 3 =? d mod 4) && (toc_samples d =? nth (Z.to_nat (d / 8)) opus_frame_samples 0) &&
    (0 <? toc_samples d) && (toc_samples d <=? 2880)) d ltac:(vm_compute; reflexivity) Hd) as H.
  cbv beta in H. guards. split_and!; [by apply eqb_prop|lia..].
Qed.

Lemma land_63 b : is_byte b -> Z.land b 63 = b mod 64.
Proof. intros _. change 63 with (Z.ones 6). by rewrite Z.land_ones by lia. Qed.

Lemma packet_valid_spec data size :
  0 <= size <= len data -> bytes data ->
  let packet := take (Z.to_nat size) data in
  PLANKMicOpusPacketValid (Some data) size =
  Some ((0 <? size) && (size <=? 1275) && opus_stereo packet && (opus_duration packet =? 480)).
Proof.
  intros Hs Hb packet. unfold PLANKMicOpusPacketValid.
  destruct ((size =? 0) || _) eqn:Hr; [f_equal; lia|].
  replace ((0 <? size) && (size <=? 1275)) with true by lia. cbn [andb].
  destruct data as [|d rest]; [cbn in Hs; lia|]. apply Forall_cons in Hb as [Hd Hb].
  assert (packet = d :: take (Z.to_nat (size - 1)) rest) as Hp.
  { unfold packet. replace (Z.to_nat size) with (S (Z.to_nat (size - 1))) by lia. done. }
  change (load (d :: rest) 0) with (Some d). cbn [mbind option_bind].
  destruct (toc_facts d Hd) as (Hst & Hc & Htab & Hrange).
  unfold opus_stereo. rewrite Hp. cbn [hd]. rewrite <- Hst.
  destruct (Z.land d 4 =? 0) eqn:E4; [done|]. cbn [negb andb]. fold (toc_samples d).
  unfold opus_duration. cbn [hd opus_frames]. rewrite <- Htab, Hc.
  assert (forall f, 0 <= f < 64 -> Some (negb (f =? 0) && (u32 (f * toc_samples d) =? 480)) =
    Some (f * toc_samples d =? 480)) as Hf.
  { intros f Hf. rewrite wrap_small by (ranges; nia). f_equal. nia. }
  pose proof (Z.mod_pos_bound d 4 ltac:(lia)).
  assert (d mod 4 = 0 \/ d mod 4 = 1 \/ d mod 4 = 2 \/ d mod 4 = 3) as [E|[E|[E|E]]] by lia;
    rewrite E; cbn [Z.eqb Z.ltb Z.compare Pos.compare Pos.compare_cont Pos.eqb mbind option_bind];
    [by apply (Hf 1)|by apply (Hf 2)|by apply (Hf 2)|].
  destruct (Z.leb_spec 2 size) as [H2|H2].
  - destruct rest as [|c rest]; [cbn in Hs; lia|]. apply Forall_cons in Hb as [Hcb _].
    change (load (d :: c :: rest) 1) with (Some c). cbn [mbind option_bind].
    replace (Z.to_nat (size - 1)) with (S (Z.to_nat (size - 2))) by lia. cbn [take].
    rewrite land_63 by done. apply Hf. by apply Z.mod_pos_bound.
  - replace (Z.to_nat (size - 1)) with 0%nat by lia. rewrite take_0. apply (Hf 0). lia.
Qed.
(** C26: the hand-optimised packet check stays in bounds and is the RFC 6716 rule: it
    accepts exactly the packets of 1 to 1275 bytes with the stereo flag whose frame
    count times the table's frame size is 480 samples (10 ms). *)
Theorem opus_packet_exact data size :
  0 <= size <= len data -> bytes data ->
  let packet := take (Z.to_nat size) data in
  PLANKMicOpusPacketValid (Some data) size =
  Some ((0 <? size) && (size <=? 1275) && opus_stereo packet && (opus_duration packet =? 480)).
Proof. apply packet_valid_spec. Qed.

Lemma opus_packet_exact_witness :
  PLANKMicOpusPacketValid (Some [244; 7; 9]) 3 = Some true /\ PLANKMicOpusPacketValid (Some [252; 7]) 2 = Some false.
Proof.
  rewrite !opus_packet_exact by concrete. split; reflexivity.
Defined.

(** ** The decoder *)

(** The packet handed to the converter's callback, and whether it was taken. *)
Record PLANKMicOpusInput := mkInput { input_data : list Z; input_size : Z; supplied : bool }.

(** [PLANKMicOpusProvide] gives the packet once: the status (-7777 is the end of this
    input), the packet count, and the buffer with its description (channels, bytes, data;
    start offset, frames and size of the packet). *)
Definition PLANKMicOpusProvide (input : PLANKMicOpusInput)
    : Z * Z * option (Z * Z * list Z * (Z * Z * Z)) * PLANKMicOpusInput :=
  if supplied input then (-7777, 0, None, input)
  else (0, 1, Some (PLANKMicChannels, input_size input, input_data input, (0, 480, input_size input)),
        mkInput (input_data input) (input_size input) true).

Lemma provide_once data size :
  let '(status, packets, buffer, input) := PLANKMicOpusProvide (mkInput data size false) in
  (status, packets) = (0, 1) /\ supplied input = true /\
  PLANKMicOpusProvide input = (-7777, 0, None, input).
Proof. done. Qed.

(** What one call of the converter reports, and the buffer it leaves. *)
Record conversion := mkConversion {
  cv_status : Z; cv_supplied : bool; cv_frames : Z; cv_bytes : Z; cv_samples : list Z }.

Record PLANKMicDecoder := mkDecoder { converter : bool; priming : bool }.

(** The formats between which the converter is created: 10 ms stereo Opus packets, and
    interleaved floats; [opus] is [kAudioFormatOpus]. *)
Definition decoder_input (opus : Z) : stream_format :=
  mkFormat 4676829883349860352 opus 0 0 480 0 PLANKMicChannels 0.
Definition decoder_output `{AudioSDK} : stream_format :=
  mkFormat 4676829883349860352 kAudioFormatLinearPCM kAudioFormatFlagsNativeFloatPacked
    (PLANKMicChannels * 4) 1 (PLANKMicChannels * 4) PLANKMicChannels 32.

(** [converter_new] is [AudioConverterNew]: whether it succeeds, and whether it sets the
    converter.  A missing decoder is [None]. *)
Definition PLANKMicDecoderCreate `{AudioSDK} (opus : Z) (converter_new : stream_format -> stream_format -> bool * bool)
    (decoder : option PLANKMicDecoder) : bool * option PLANKMicDecoder :=
  match decoder with
  | None => (false, None)
  | Some _ => let (ok, created) := converter_new (decoder_input opus) decoder_output in
              (ok, Some (mkDecoder created true))
  end.

(** [reset] is whether [AudioConverterReset] succeeds. *)
Definition PLANKMicDecoderReset (reset : bool) (decoder : option PLANKMicDecoder) : bool * option PLANKMicDecoder :=
  match decoder with
  | Some d => if negb (converter d) then (false, decoder) else (reset, Some (mkDecoder true true))
  | None => (false, None)
  end.

Definition PLANKMicDecoderDestroy (decoder : option PLANKMicDecoder) : option PLANKMicDecoder :=
  (fun d => if converter d then mkDecoder false (priming d) else d) <$> decoder.

Section decode.
Context (fill_buffer : list Z -> list Z -> conversion).
(** Documented: the samples are written inside the caller's buffer list. *)
Context (fill_buffer_length : forall packet samples,
  length (cv_samples (fill_buffer packet samples)) = length samples).

Definition decode_failed (d : PLANKMicDecoder) (r : conversion) : bool :=
  (negb (cv_status r =? 0) && negb (cv_status r =? -7777)) || negb (cv_supplied r) ||
  (cv_frames r =? 0) || (480 <? cv_frames r) ||
  (negb (priming d) && negb (cv_frames r =? 480)) ||
  negb (cv_bytes r =? cv_frames r * PLANKMicChannels * 4).

(** The start-up silence in front of a short first packet: [memmove], [memset]. *)
Definition right_align (samples : list Z) (frames : Z) : option (list Z) :=
  if frames <? 480 then
    moved ← copy_from samples 0 (frames * PLANKMicChannels);
    samples ← copy_to samples ((480 - frames) * PLANKMicChannels) moved;
    fill samples 0 ((480 - frames) * PLANKMicChannels) 0
  else Some samples.

(** The result, the decoder and the caller's samples; [None] is an undefined access. *)
Definition PLANKMicDecode (decoder : option PLANKMicDecoder) (data : option (list Z)) (size : Z)
    (samples : option (list Z)) : option (bool * option PLANKMicDecoder * option (list Z)) :=
  match decoder, samples with
  | Some d, Some s =>
      if negb (converter d) then Some (false, decoder, samples)
      else
        valid ← PLANKMicOpusPacketValid data size;
        match valid, data with
        | true, Some bytes =>
            packet ← copy_from bytes 0 size;
            let r := fill_buffer packet s in
            if decode_failed d r then Some (false, decoder, Some (cv_samples r))
            else
              s ← right_align (cv_samples r) (cv_frames r);
              finite ← all_finite s (480 * PLANKMicChannels);
              Some (finite, Some (mkDecoder true false), Some s)
        | _, _ => Some (false, decoder, samples)
        end
  | _, _ => Some (false, decoder, samples)
  end.

(** ** What a decode leaves behind *)

Lemma right_align_spec samples frames :
  length samples = 960%nat -> 0 < frames <= 480 ->
  right_align samples frames =
  Some (replicate (Z.to_nat (960 - 2 * frames)) 0 ++ take (Z.to_nat (2 * frames)) samples).
Proof.
  intros Hl Hf. unfold right_align, PLANKMicChannels. destruct (Z.ltb_spec frames 480).
  2: { replace (Z.to_nat (960 - 2 * frames)) with 0%nat by lia. cbn [replicate app].
       by rewrite take_ge by lia. }
  rewrite copy_from_take by lia. cbn [mbind option_bind].
  rewrite copy_to_Some by (rewrite ?length_take; lia). cbn [mbind option_bind].
  unfold fill. rewrite copy_to_Some by
    (rewrite ?length_replicate, ?length_app, ?length_take, ?length_drop; lia).
  change (Z.to_nat 0) with 0%nat. rewrite take_0, length_replicate, Nat.add_0_l. cbn [app].
  replace (Z.to_nat ((480 - frames) * 2)) with (Z.to_nat (960 - 2 * frames)) by lia.
  replace (Z.to_nat (frames * 2)) with (Z.to_nat (2 * frames)) by lia.
  rewrite drop_app_length' by (rewrite length_take; lia).
  rewrite drop_ge by (rewrite length_take; lia). by rewrite app_nil_r.
Qed.

Definition decoded (r : conversion) : list Z :=
  replicate (Z.to_nat (960 - 2 * cv_frames r)) 0 ++ take (Z.to_nat (2 * cv_frames r)) (cv_samples r).

Lemma decode_failed_frames d r : 0 <= cv_frames r -> decode_failed d r = false -> 0 < cv_frames r <= 480.
Proof. unfold decode_failed. intros ? H. guards. lia. Qed.

(** The converter reports a frame count of 32 bits. *)
Context (fill_buffer_frames : forall packet samples, 0 <= cv_frames (fill_buffer packet samples)).

Definition packet_ok (packet : list Z) : bool :=
  (0 <? len packet) && (len packet <=? 1275) && opus_stereo packet && (opus_duration packet =? 480).
Definition answered (d : PLANKMicDecoder) (r : conversion) : bool :=
  ((cv_status r =? 0) || (cv_status r =? -7777)) && cv_supplied r &&
  (0 <? cv_frames r) && (cv_frames r <=? 480) && (priming d || (cv_frames r =? 480)) &&
  (cv_bytes r =? 8 * cv_frames r).
Definition decode_spec (d : PLANKMicDecoder) (packet samples : list Z)
    : bool * option PLANKMicDecoder * option (list Z) :=
  let r := fill_buffer packet samples in
  if negb (converter d) || negb (packet_ok packet) then (false, Some d, Some samples)
  else if answered d r
  then (forallb isfinite (decoded r), Some (mkDecoder true false), Some (decoded r))
  else (false, Some d, Some (cv_samples r)).

(** C27: decoding stays in bounds and reports success exactly when the decoder is
    open, the packet is an admissible one, the converter consumed it and produced at
    most 480 frames with a matching byte count - fewer only while priming - and every
    sample is finite; the caller's 480 frames are then exactly the converter's,
    preceded by silence when the first packet came up short, and priming is over. *)
Theorem mic_decode_exact d data size samples :
  0 <= size <= len data -> bytes data -> length samples = 960%nat ->
  PLANKMicDecode (Some d) (Some data) size (Some samples) =
  Some (decode_spec d (take (Z.to_nat size) data) samples).
Proof using fill_buffer_length fill_buffer_frames.
  intros Hs Hb Hl. unfold PLANKMicDecode, decode_spec.
  destruct (negb (converter d)); [done|]. cbn [orb].
  rewrite packet_valid_spec by done. cbn [mbind option_bind].
  unfold packet_ok. rewrite length_take.
  replace (Z.of_nat (Z.to_nat size `min` length data)) with size by lia.
  destruct (_ && (opus_duration _ =? 480)); [|done]. cbn [negb].
  rewrite copy_from_take by done. cbn [mbind option_bind].
  set (r := fill_buffer _ _).
  assert (decode_failed d r = negb (answered d r)) as Hfail.
  { pose proof (fill_buffer_frames (take (Z.to_nat size) data) samples). fold r in H.
    unfold decode_failed, answered, PLANKMicChannels.
    destruct (cv_supplied r), (priming d); cbn [negb orb andb]; lia. }
  pose proof (decode_failed_frames d r (fill_buffer_frames _ _)) as Hfr.
  rewrite Hfail in Hfr |- *. destruct (answered d r); [|done]. cbn [negb] in *.
  rewrite right_align_spec; [|by unfold r; rewrite fill_buffer_length|by apply Hfr].
  cbn [mbind option_bind]. fold (decoded r).
  assert (length (decoded r) = 960%nat) as Hlen.
  { unfold decoded. rewrite length_app, length_replicate, length_take. unfold r.
    rewrite fill_buffer_length, Hl. specialize (Hfr eq_refl). fold r. lia. }
  unfold all_finite. rewrite copy_from_take by (unfold PLANKMicChannels; lia).
  cbn [fmap option_fmap option_map mbind option_bind]. by rewrite take_ge by (unfold PLANKMicChannels; lia).
Qed.
End decode.

Lemma mic_decode_exact_witness :
  let convert (packet samples : list Z) := mkConversion 0 true 1 8
    (match samples with _ :: _ :: s => 5 :: 6 :: s | s => s end) in
  PLANKMicDecode convert (Some (mkDecoder true true)) (Some [244]) 1 (Some (replicate 960 9)) =
  Some (true, Some (mkDecoder true false), Some (replicate 958 0 ++ [5; 6])).
Proof.
  intros convert.
  assert (forall packet samples, length (cv_samples (convert packet samples)) = length samples) as Hl.
  { intros packet [|x [|y s]]; done. }
  rewrite (mic_decode_exact convert Hl); [vm_compute; reflexivity|done|concrete..].
Defined.
