(* ===== verification/MicQueue.v ===== *)
(** * MicQueue: apps/host/macos/audio-device/microphone-queue.h

    The producer-side queue of decoded microphone frames: bounded, aged by arrival
    time, rendered in blocks of 480 frames with a drift correction of one frame. *)

From Stdlib Require Import SpecFloat.
From S2P Require Import Prelude.
From S2P Require Import Float32.
From S2P Require Import MicBuffer.

Definition PLANKMicQueueFrames : Z := 2880.
Definition PLANKMicTargetFrames : Z := 960.
Definition PLANK_MIC_PCM_MAX_AGE_NS : Z := 100000000.

(** The members of [PLANKMicQueue]; [q_samples] holds both channels of each frame. *)
Record PLANKMicQueue := mkQueue {
  q_samples : list Z;
  q_arrived : list Z;
  q_captured : list Z;
  q_nextSample : Z;
  q_expiredFrames : Z;
  q_discardedFrames : Z;
  q_head : Z;
  q_count : Z;
  q_averageFrames256 : Z;
  q_hasSample : bool;
  q_primed : bool }.

Definition set_arrays (q : PLANKMicQueue) samples arrived captured : PLANKMicQueue :=
  mkQueue samples arrived captured (q_nextSample q) (q_expiredFrames q) (q_discardedFrames q)
    (q_head q) (q_count q) (q_averageFrames256 q) (q_hasSample q) (q_primed q).
Definition set_position (q : PLANKMicQueue) head count : PLANKMicQueue :=
  mkQueue (q_samples q) (q_arrived q) (q_captured q) (q_nextSample q) (q_expiredFrames q)
    (q_discardedFrames q) head count (q_averageFrames256 q) (q_hasSample q) (q_primed q).
Definition set_prime (q : PLANKMicQueue) primed average : PLANKMicQueue :=
  mkQueue (q_samples q) (q_arrived q) (q_captured q) (q_nextSample q) (q_expiredFrames q)
    (q_discardedFrames q) (q_head q) (q_count q) average (q_hasSample q) primed.
Definition set_next (q : PLANKMicQueue) has next : PLANKMicQueue :=
  mkQueue (q_samples q) (q_arrived q) (q_captured q) next (q_expiredFrames q)
    (q_discardedFrames q) (q_head q) (q_count q) (q_averageFrames256 q) has (q_primed q).
Definition add_expired (q : PLANKMicQueue) n : PLANKMicQueue :=
  mkQueue (q_samples q) (q_arrived q) (q_captured q) (q_nextSample q) (u64 (q_expiredFrames q + n))
    (q_discardedFrames q) (q_head q) (q_count q) (q_averageFrames256 q) (q_hasSample q) (q_primed q).
Definition add_discarded (q : PLANKMicQueue) n : PLANKMicQueue :=
  mkQueue (q_samples q) (q_arrived q) (q_captured q) (q_nextSample q) (q_expiredFrames q)
    (u64 (q_discardedFrames q + n)) (q_head q) (q_count q) (q_averageFrames256 q) (q_hasSample q) (q_primed q).

(** A queue of zeroed storage. *)
Definition queue_zero : PLANKMicQueue :=
  mkQueue (replicate (Z.to_nat (PLANKMicQueueFrames * PLANKMicChannels)) 0)
    (replicate (Z.to_nat PLANKMicQueueFrames) 0) (replicate (Z.to_nat PLANKMicQueueFrames) 0)
    0 0 0 0 0 0 false false.

(** The array index of the [i]-th frame from the head. *)
Definition ring (q : PLANKMicQueue) (i : Z) : Z := u32 (q_head q + i) mod PLANKMicQueueFrames.

(** The stores to one frame of the three arrays. *)
Definition set_frame (q : PLANKMicQueue) (frame left right arrived captured : Z) : option PLANKMicQueue :=
  samples ← copy_to (q_samples q) (frame * PLANKMicChannels) [left; right];
  arr ← store (q_arrived q) frame arrived;
  cap ← store (q_captured q) frame captured;
  Some (set_arrays q samples arr cap).

Fixpoint discard_loop (n : nat) (i : Z) (q : PLANKMicQueue) : option PLANKMicQueue :=
  match n with
  | O => Some q
  | S n' => q ← set_frame q (ring q i) 0 0 0 0; discard_loop n' (i + 1) q
  end.

Definition PLANKMicQueueDiscard (q : PLANKMicQueue) (count : Z) : option PLANKMicQueue :=
  q ← discard_loop (Z.to_nat count) 0 q;
  Some (set_position q (ring q count) (u32 (q_count q - count))).

Definition PLANKMicQueueFlush (q : PLANKMicQueue) : option PLANKMicQueue :=
  q ← PLANKMicQueueDiscard q (q_count q);
  Some (set_prime (set_position q 0 (q_count q)) false 0).

Definition PLANKMicQueueClear (q : PLANKMicQueue) : option PLANKMicQueue :=
  q ← PLANKMicQueueFlush q; Some (set_next q false 0).

Fixpoint expire_loop (fuel : nat) (q : PLANKMicQueue) (now expired : Z) : option Z :=
  if expired <? q_count q then
    match fuel with
    | O => None
    | S fuel' =>
        arrived ← load (q_arrived q) (ring q expired);
        if (arrived <=? now) && (u64 (now - arrived) <? PLANK_MIC_PCM_MAX_AGE_NS) then Some expired
        else expire_loop fuel' q now (expired + 1)
    end
  else Some expired.

Definition PLANKMicQueueExpire (q : PLANKMicQueue) (now : Z) : option PLANKMicQueue :=
  back ← (if negb (q_count q =? 0)
          then newest ← load (q_arrived q) (ring q (q_count q - 1)); Some (now <? newest)
          else Some false);
  if back : bool then PLANKMicQueueFlush (add_expired q (q_count q))
  else
    expired ← expire_loop (Z.to_nat (q_count q)) q now 0;
    if negb (expired =? 0) then
      q ← PLANKMicQueueDiscard q expired;
      Some (set_prime (add_expired q expired) false (q_averageFrames256 q))
    else Some q.

(** [queue->count++] behind the tail, with the frame's contents. *)
Definition append_frame (q : PLANKMicQueue) (left right arrived captured : Z) : option PLANKMicQueue :=
  q ← set_frame q (ring q (q_count q)) left right arrived captured;
  Some (set_position q (q_head q) (u32 (q_count q + 1))).

Fixpoint append_silence (n : nat) (now : Z) (q : PLANKMicQueue) : option PLANKMicQueue :=
  match n with
  | O => Some q
  | S n' => q ← append_frame q 0 0 now 0; append_silence n' now q
  end.

Fixpoint append_samples (n : nat) (i : Z) (samples : list Z) (captureTime now : Z) (q : PLANKMicQueue)
    : option PLANKMicQueue :=
  match n with
  | O => Some q
  | S n' =>
      left ← load samples (i * PLANKMicChannels);
      right ← load samples (i * PLANKMicChannels + 1);
      q ← append_frame q (clamp_sample left) (clamp_sample right) now
            (if negb (captureTime =? 0)
             then u64 (captureTime + u64 (i * 1000000000) / PLANKMicRate) else 0);
      append_samples n' (i + 1) samples captureTime now q
  end.

Definition submit_refused (q : PLANKMicQueue) (count sampleTime captureTime : Z) : bool :=
  (INT64_MAX - 10000000 <? captureTime) || negb (count =? PLANKMicPacketFrames) ||
  negb (sampleTime mod PLANKMicPacketFrames =? 0) || (UINT64_MAX - count <? sampleTime) ||
  (q_hasSample q && (sampleTime <? q_nextSample q)).

Definition PLANKMicQueueSubmitTimed (q : PLANKMicQueue) (samples : option (list Z))
    (count sampleTime captureTime now : Z) : option (bool * PLANKMicQueue) :=
  match samples with
  | None => Some (false, q)
  | Some samples =>
      if submit_refused q count sampleTime captureTime then Some (false, q)
      else
        finite ← all_finite samples (count * PLANKMicChannels);
        if negb finite then Some (false, q)
        else
          q ← PLANKMicQueueExpire q now;
          q ← (if q_hasSample q && negb (sampleTime =? q_nextSample q) then
                 let missing := u64 (sampleTime - q_nextSample q) in
                 if (missing <=? 2 * PLANKMicPacketFrames) &&
                    (u64 (u64 (q_count q + missing) + count) <=? PLANKMicQueueFrames)
                 then append_silence (Z.to_nat missing) now q
                 else PLANKMicQueueFlush q
               else Some q);
          let q := set_next q true (u64 (sampleTime + count)) in
          q ← (if PLANKMicQueueFrames <? u32 (q_count q + count) then
                 let discard := u32 (q_count q + count - PLANKMicQueueFrames) in
                 q ← PLANKMicQueueDiscard q discard; Some (add_discarded q discard)
               else Some q);
          q ← append_samples (Z.to_nat count) 0 samples captureTime now q;
          Some (true, q)
  end.

Definition PLANKMicQueueSubmit (q : PLANKMicQueue) (samples : option (list Z)) (count sampleTime now : Z)
    : option (bool * PLANKMicQueue) :=
  PLANKMicQueueSubmitTimed q samples count sampleTime 0 now.

(** ** Rendering *)

(** The interpolation between two samples at distance [offset - a]. *)
Definition interpolate (sample_a sample_b : Z) (fraction : spec_float) : Z :=
  float_of_double (double_add
    (double_mul (double_of_float sample_a) (double_sub (double_of_int 1) fraction))
    (double_mul (double_of_float sample_b) fraction)).

Definition render_offset (i consume : Z) : spec_float :=
  double_div (double_mul (double_of_int i) (double_of_int consume)) (double_of_int PLANKMicPacketFrames).

Fixpoint render_loop (n : nat) (i : Z) (q : PLANKMicQueue) (consume : Z) (output : list Z) : option (list Z) :=
  match n with
  | O => Some output
  | S n' =>
      let offset := render_offset i consume in
      let a := unsigned_of_double offset in
      let b := if a + 1 <? consume then a + 1 else consume - 1 in
      let fraction := double_sub offset (double_of_int a) in
      la ← load (q_samples q) (ring q a * PLANKMicChannels);
      lb ← load (q_samples q) (ring q b * PLANKMicChannels);
      ra ← load (q_samples q) (ring q a * PLANKMicChannels + 1);
      rb ← load (q_samples q) (ring q b * PLANKMicChannels + 1);
      output ← copy_to output (i * PLANKMicChannels) [interpolate la lb fraction; interpolate ra rb fraction];
      render_loop n' (i + 1) q consume output
  end.

(** The loop over the capture times: 0 when they are not continuous. *)
Fixpoint capture_loop (n : nat) (i : Z) (q : PLANKMicQueue) (captureTime : Z) : option Z :=
  match n with
  | O => Some captureTime
  | S n' =>
      before ← load (q_captured q) (ring q (i - 1));
      after ← load (q_captured q) (ring q i);
      if (before =? 0) || (after <=? before) || (2000000 <? u64 (after - before)) then Some 0
      else capture_loop n' (i + 1) q captureTime
  end.

Definition render_consume (average count : Z) : Z :=
  let low := (PLANKMicTargetFrames + PLANKMicPacketFrames) * 256 in
  let high := (PLANKMicTargetFrames + 3 * PLANKMicPacketFrames / 2) * 256 in
  let consume := if high <? average then 481 else if average <? low then 479 else 480 in
  if count <? consume then count else consume.

(** The result, the queue, the caller's block and the capture time behind its pointer. *)
Definition PLANKMicQueueRenderTimed (q : PLANKMicQueue) (now : Z) (output : list Z) (captureTime : option Z)
    : option (bool * PLANKMicQueue * list Z * option Z) :=
  let captureTime := match captureTime with Some _ => Some 0 | None => None end in
  output ← fill output 0 (PLANKMicPacketFrames * PLANKMicChannels) 0;
  q ← PLANKMicQueueExpire q now;
  let q := if negb (q_primed q) && (PLANKMicTargetFrames <=? q_count q)
           then set_prime q true (q_count q * 256) else q in
  if negb (q_primed q) || (q_count q <? 479)
  then Some (false, set_prime q false (q_averageFrames256 q), output, captureTime)
  else
    let average := q_averageFrames256 q + (q_count q * 256 - q_averageFrames256 q) ÷ 32 in
    let q := set_prime q (q_primed q) average in
    let consume := render_consume average (q_count q) in
    output ← render_loop (Z.to_nat PLANKMicPacketFrames) 0 q consume output;
    captureTime ← match captureTime with
      | None => Some None
      | Some _ =>
          first ← load (q_captured q) (q_head q);
          Some <$> capture_loop (Z.to_nat (consume - 1)) 1 q first
      end;
    q ← PLANKMicQueueDiscard q consume;
    Some (true, q, output, captureTime).

Definition PLANKMicQueueRender (q : PLANKMicQueue) (now : Z) (output : list Z)
    : option (bool * PLANKMicQueue * list Z * option Z) :=
  PLANKMicQueueRenderTimed q now output None.

(** ** The specification: a queue of frames *)

Record frame := mkFrame { f_left : Z; f_right : Z; f_arrived : Z; f_captured : Z }.
Definition zero_frame : frame := mkFrame 0 0 0 0.

Record pcm := mkPcm {
  p_frames : list frame; p_next : Z; p_has : bool;
  p_primed : bool; p_average : Z; p_expired : Z; p_discarded : Z }.

Definition with_frames (p : pcm) fs : pcm :=
  mkPcm fs (p_next p) (p_has p) (p_primed p) (p_average p) (p_expired p) (p_discarded p).
Definition with_prime (p : pcm) primed average : pcm :=
  mkPcm (p_frames p) (p_next p) (p_has p) primed average (p_expired p) (p_discarded p).
Definition with_expired (p : pcm) n : pcm :=
  mkPcm (p_frames p) (p_next p) (p_has p) (p_primed p) (p_average p) (u64 (p_expired p + n)) (p_discarded p).
Definition with_discarded (p : pcm) n : pcm :=
  mkPcm (p_frames p) (p_next p) (p_has p) (p_primed p) (p_average p) (p_expired p) (u64 (p_discarded p + n)).
Definition with_next (p : pcm) has next : pcm :=
  mkPcm (p_frames p) next has (p_primed p) (p_average p) (p_expired p) (p_discarded p).

Definition pcm_flush (p : pcm) : pcm := with_prime (with_frames p []) false 0.
Definition pcm_clear (p : pcm) : pcm := with_next (pcm_flush p) false 0.

Definition fresh (now : Z) (f : frame) : bool :=
  (f_arrived f <=? now) && (now - f_arrived f <? PLANK_MIC_PCM_MAX_AGE_NS).

(** The frames from the first fresh one on. *)
Fixpoint drop_stale (now : Z) (fs : list frame) : list frame :=
  match fs with
  | [] => []
  | f :: fs' => if fresh now f then fs else drop_stale now fs'
  end.

Definition pcm_expire (p : pcm) (now : Z) : pcm :=
  match last (p_frames p) with
  | Some newest =>
      if now <? f_arrived newest then pcm_flush (with_expired p (len (p_frames p)))
      else
        let kept := drop_stale now (p_frames p) in
        if (length kept =? length (p_frames p))%nat then p
        else with_prime (with_expired (with_frames p kept) (len (p_frames p) - len kept)) false (p_average p)
  | None => p
  end.

(** ** The ring represents the queue *)

Definition frame_at (q : PLANKMicQueue) (j : Z) : frame :=
  let n := Z.to_nat j in
  mkFrame (nth (2 * n) (q_samples q) 0) (nth (2 * n + 1) (q_samples q) 0)
    (nth n (q_arrived q) 0) (nth n (q_captured q) 0).
Definition ring_at (q : PLANKMicQueue) (i : Z) : frame := frame_at q ((q_head q + i) mod PLANKMicQueueFrames).
Definition queued (q : PLANKMicQueue) : list frame :=
  map (fun i => ring_at q (Z.of_nat i)) (seq 0 (Z.to_nat (q_count q))).

Definition abs (q : PLANKMicQueue) : pcm :=
  mkPcm (queued q) (q_nextSample q) (q_hasSample q) (q_primed q) (q_averageFrames256 q)
    (q_expiredFrames q) (q_discardedFrames q).

Record shape (q : PLANKMicQueue) : Prop := {
  qw_samples : len (q_samples q) = PLANKMicQueueFrames * PLANKMicChannels;
  qw_arrived : len (q_arrived q) = PLANKMicQueueFrames;
  qw_captured : len (q_captured q) = PLANKMicQueueFrames;
  qw_head : 0 <= q_head q < PLANKMicQueueFrames;
  qw_count : 0 <= q_count q <= PLANKMicQueueFrames }.

(** Frames outside the queue are cleared: no old speech stays in memory. *)
Record queue_wf (q : PLANKMicQueue) : Prop := {
  qw_shape : shape q;
  qw_average : 0 <= q_averageFrames256 q <= PLANKMicQueueFrames * 256;
  qw_cleared : forall i, q_count q <= i < PLANKMicQueueFrames -> ring_at q i = zero_frame }.

(** The same except for the arrays. *)
Definition same_state (q q' : PLANKMicQueue) : Prop :=
  exists samples arrived captured, q' = set_arrays q samples arrived captured /\
    length samples = length (q_samples q) /\ length arrived = length (q_arrived q) /\
    length captured = length (q_captured q).

Lemma nth_insert (l : list Z) i j x :
  (i < length l)%nat -> nth j (<[i := x]> l) 0 = if decide (j = i) then x else nth j l 0.
Proof.
  intros Hi. rewrite !nth_lookup. case_decide as E.
  - subst j. by rewrite list_lookup_insert_eq.
  - by rewrite list_lookup_insert_ne.
Qed.

Lemma copy_to_pair (l : list Z) (n : nat) a b :
  (2 * n + 2 <= length l)%nat ->
  copy_to l (Z.of_nat n * 2) [a; b] = Some (<[(2 * n)%nat := a]> (<[(2 * n + 1)%nat := b]> l)).
Proof.
  intros Hl. rewrite copy_to_Some by (cbn; lia). f_equal.
  replace (Z.to_nat (Z.of_nat n * 2)) with (2 * n)%nat by lia. apply list_eq. intros x.
  destruct (decide (x = 2 * n)%nat) as [->|H1].
  { rewrite list_lookup_insert_eq by (rewrite length_insert; lia).
    apply list_lookup_middle. rewrite length_take. lia. }
  rewrite list_lookup_insert_ne by done. destruct (decide (x = 2 * n + 1)%nat) as [->|H2].
  { rewrite list_lookup_insert_eq by lia. rewrite lookup_app_r by (rewrite length_take; lia).
    rewrite length_take. by replace (2 * n + 1 - _)%nat with 1%nat by lia. }
  rewrite list_lookup_insert_ne by done. apply (copied_lookup l (2 * n) [a; b]); cbn; lia.
Qed.

Lemma set_frame_spec q j l r a c :
  shape q -> 0 <= j < PLANKMicQueueFrames ->
  exists q', set_frame q j l r a c = Some q' /\ same_state q q' /\
    frame_at q' j = mkFrame l r a c /\
    forall k, 0 <= k -> k <> j -> frame_at q' k = frame_at q k.
Proof.
  intros Hw Hj. destruct Hw as [Hs Ha Hc _ _]. unfold PLANKMicQueueFrames, PLANKMicChannels in *.
  unfold set_frame, PLANKMicChannels.
  replace (j * 2) with (Z.of_nat (Z.to_nat j) * 2) by lia. rewrite copy_to_pair by lia.
  rewrite !store_Some by lia. cbn [mbind option_bind]. eexists. split; [reflexivity|]. split_and!.
  - eexists _, _, _. split; [reflexivity|]. by rewrite !length_insert.
  - unfold frame_at. cbn [set_arrays q_samples q_arrived q_captured].
    rewrite !nth_insert by (rewrite ?length_insert; lia). repeat case_decide; try lia; done.
  - intros k Hk Hne. unfold frame_at. cbn [set_arrays q_samples q_arrived q_captured].
    rewrite !nth_insert by (rewrite ?length_insert; lia). repeat case_decide; try lia; done.
Qed.

Lemma ring_mod q i : shape q -> 0 <= i <= PLANKMicQueueFrames ->
  ring q i = (q_head q + i) mod PLANKMicQueueFrames /\ 0 <= ring q i < PLANKMicQueueFrames.
Proof.
  intros Hw Hi. pose proof (qw_head _ Hw). unfold ring, PLANKMicQueueFrames in *.
  rewrite wrap_small by (ranges; lia). split; [done|]. by apply Z.mod_pos_bound.
Qed.

Lemma ring_inj h i j :
  0 <= i < PLANKMicQueueFrames -> 0 <= j < PLANKMicQueueFrames ->
  (h + i) mod PLANKMicQueueFrames = (h + j) mod PLANKMicQueueFrames -> i = j.
Proof. unfold PLANKMicQueueFrames. intros. Z.div_mod_to_equations. lia. Qed.

Lemma same_state_refl q : same_state q q.
Proof. exists (q_samples q), (q_arrived q), (q_captured q). by destruct q. Qed.

Lemma same_state_trans q1 q2 q3 : same_state q1 q2 -> same_state q2 q3 -> same_state q1 q3.
Proof.
  intros (s1 & a1 & c1 & -> & ? & ? & ?) (s2 & a2 & c2 & -> & ? & ? & ?). cbn in *.
  exists s2, a2, c2. split_and!; [done|congruence..].
Qed.

Lemma same_state_shape q q' : same_state q q' -> shape q -> shape q'.
Proof. intros (s & a & c & -> & ? & ? & ?) [? ? ? ? ?]. constructor; cbn; [congruence..|done|done]. Qed.

Lemma discard_loop_spec n i q :
  shape q -> 0 <= i -> i + Z.of_nat n <= PLANKMicQueueFrames ->
  exists q', discard_loop n i q = Some q' /\ same_state q q' /\
    forall j, 0 <= j < PLANKMicQueueFrames ->
      ring_at q' j = if (i <=? j) && (j <? i + Z.of_nat n) then zero_frame else ring_at q j.
Proof.
  revert i q. induction n as [|n IH]; intros i q Hs Hi Hn.
  { exists q. split_and!; [done|apply same_state_refl|]. intros j Hj. by rewrite (proj2 (andb_false_iff _ _)) by lia. }
  cbn [discard_loop]. destruct (ring_mod q i Hs ltac:(lia)) as [Er Hr].
  destruct (set_frame_spec q (ring q i) 0 0 0 0 Hs Hr) as (q1 & -> & Hq1 & Hnew & Hold).
  cbn [mbind option_bind]. pose proof (same_state_shape _ _ Hq1 Hs) as Hs1.
  destruct (IH (i + 1) q1 Hs1) as (q' & -> & Hq' & Hat); [lia|lia|].
  exists q'. split_and!; [done|by eapply same_state_trans|]. intros j Hj. rewrite Hat by done.
  assert (ring_at q1 j = if decide (j = i) then zero_frame else ring_at q j) as ->.
  { unfold ring_at. destruct Hq1 as (s & a & c & -> & _). cbn [set_arrays q_head].
    case_decide as E; [by subst j; rewrite <- Er|]. apply Hold.
    - by apply Z.mod_pos_bound.
    - rewrite Er. intros E'%ring_inj; [done|lia|lia]. }
  case_decide; [subst j|]; repeat case_match; try done; exfalso; lia.
Qed.

Lemma ring_at_shift q head count n i :
  head = (q_head q + n) mod PLANKMicQueueFrames ->
  ring_at (set_position q head count) i = ring_at q (n + i).
Proof.
  intros ->. unfold ring_at. cbn [set_position q_head]. unfold PLANKMicQueueFrames.
  rewrite Zplus_mod_idemp_l. unfold frame_at. cbn [set_position q_samples q_arrived q_captured].
  by rewrite <- Z.add_assoc.
Qed.

Lemma ring_at_wrap q i : ring_at q (i + PLANKMicQueueFrames) = ring_at q i.
Proof.
  unfold ring_at, PLANKMicQueueFrames. rewrite Z.add_assoc.
  by rewrite <- (Z.mul_1_l 2880) at 1; rewrite Z_mod_plus_full.
Qed.

(** Every operation answers with a well-formed queue that represents [p]. *)
Definition becomes (r : option PLANKMicQueue) (p : pcm) : Prop :=
  exists q, r = Some q /\ queue_wf q /\ abs q = p.

Lemma becomes_bind r p (k : PLANKMicQueue -> option PLANKMicQueue) p' :
  becomes r p -> (forall q, queue_wf q -> abs q = p -> becomes (k q) p') -> becomes (r ≫= k) p'.
Proof. intros (q & -> & Hw & Hq) H. by apply H. Qed.

Lemma queued_length q : queue_wf q -> len (queued q) = q_count q.
Proof.
  intros Hw. unfold queued. rewrite length_map, length_seq. pose proof (qw_count _ (qw_shape _ Hw)). lia.
Qed.

Lemma seq_from n k : seq n k = map (Nat.add n) (seq 0 k).
Proof.
  apply list_eq. intros i. rewrite list_lookup_fmap. destruct (decide (i < k)%nat).
  - by rewrite !lookup_seq_lt.
  - by rewrite !lookup_seq_ge by lia.
Qed.

Lemma discard_spec q n :
  queue_wf q -> 0 <= n <= q_count q ->
  becomes (PLANKMicQueueDiscard q n) (with_frames (abs q) (drop (Z.to_nat n) (queued q))).
Proof.
  intros Hw Hn. pose proof (qw_shape _ Hw) as Hs. pose proof (qw_count _ Hs) as Hc.
  unfold PLANKMicQueueDiscard.
  destruct (discard_loop_spec (Z.to_nat n) 0 q Hs) as (q1 & -> & Hq1 & Hat); [lia|lia|].
  cbn [mbind option_bind]. pose proof (same_state_shape _ _ Hq1 Hs) as Hs1.
  destruct (ring_mod q1 n Hs1) as [Er Hr]; [lia|].
  assert (q_count q1 = q_count q /\ q_averageFrames256 q1 = q_averageFrames256 q) as [Ec Eav]
    by (by destruct Hq1 as (s & a & c & -> & _)).
  rewrite Ec, wrap_small by (unfold PLANKMicQueueFrames in *; ranges; lia).
  eexists. split; [reflexivity|]. split.
  - constructor; [|cbn; rewrite Eav; apply Hw|].
    + destruct Hs1. constructor; cbn; try done. lia.
    + cbn. intros i Hi. rewrite (ring_at_shift _ _ _ n) by done.
      destruct (Z.ltb_spec (n + i) PLANKMicQueueFrames).
      * rewrite Hat by lia. case_match; [done|]. apply (qw_cleared _ Hw). lia.
      * replace (n + i) with (n + i - PLANKMicQueueFrames + PLANKMicQueueFrames) by lia.
        rewrite ring_at_wrap, Hat by lia. case_match; [done|]. lia.
  - assert (queued (set_position q1 (ring q1 n) (q_count q - n)) = drop (Z.to_nat n) (queued q)) as Hqd.
    { unfold queued. cbn [set_position q_count]. rewrite skipn_map, skipn_seq.
      replace (Z.to_nat (q_count q) - Z.to_nat n)%nat with (Z.to_nat (q_count q - n)) by lia.
      rewrite Nat.add_0_l, (seq_from (Z.to_nat n)), map_map. apply map_ext_in. intros i Hi%in_seq.
      rewrite (ring_at_shift _ _ _ n), Hat by (done || lia).
      rewrite (proj2 (andb_false_iff _ _)) by lia. f_equal. lia. }
    unfold abs at 1. rewrite Hqd. by destruct Hq1 as (s & a & c & -> & _).
Qed.

Lemma append_spec q l r a c :
  queue_wf q -> q_count q < PLANKMicQueueFrames ->
  becomes (append_frame q l r a c) (with_frames (abs q) (queued q ++ [mkFrame l r a c])).
Proof.
  intros Hw Hlt. pose proof (qw_shape _ Hw) as Hs. pose proof (qw_count _ Hs) as Hc.
  destruct (ring_mod q (q_count q) Hs ltac:(lia)) as [Er Hr].
  unfold append_frame. destruct (set_frame_spec q _ l r a c Hs Hr) as (q1 & -> & Hq1 & Hnew & Hold).
  cbn [mbind option_bind]. pose proof (same_state_shape _ _ Hq1 Hs) as Hs1.
  assert (forall j, 0 <= j < PLANKMicQueueFrames ->
    ring_at q1 j = if decide (j = q_count q) then mkFrame l r a c else ring_at q j) as Hat.
  { intros j Hj. unfold ring_at. destruct Hq1 as (s & b & d & -> & _). cbn [set_arrays q_head].
    case_decide as E; [by subst j; rewrite <- Er|]. apply Hold; [by apply Z.mod_pos_bound|].
    rewrite Er. intros E'%ring_inj; [done|lia|lia]. }
  assert (q_count q1 = q_count q /\ q_averageFrames256 q1 = q_averageFrames256 q /\ q_head q1 = q_head q) as (Ec & Eav & Eh)
    by (by destruct Hq1 as (s & b & d & -> & _)).
  rewrite Ec, wrap_small by (unfold PLANKMicQueueFrames in *; ranges; lia).
  assert (forall i, ring_at (set_position q1 (q_head q1) (q_count q + 1)) i = ring_at q1 i) as Hpos
    by done.
  eexists. split; [reflexivity|]. split.
  - constructor; [|cbn; rewrite Eav; apply Hw|].
    + destruct Hs1. constructor; cbn; try done. lia.
    + cbn. intros i Hi. rewrite Hpos, Hat by lia. case_decide; [lia|]. apply (qw_cleared _ Hw). lia.
  - assert (queued (set_position q1 (q_head q1) (q_count q + 1)) = queued q ++ [mkFrame l r a c]) as Hqd.
    { unfold queued. cbn [set_position q_count].
      replace (Z.to_nat (q_count q + 1)) with (S (Z.to_nat (q_count q))) by lia.
      rewrite seq_S, map_app. f_equal.
      - apply map_ext_in. intros i Hi%in_seq. rewrite Hpos, Hat by lia. case_decide; [lia|done].
      - cbn [map]. rewrite Nat.add_0_l, Hpos, Hat by lia. case_decide; [done|lia]. }
    unfold abs at 1. rewrite Hqd. by destruct Hq1 as (s & b & d & -> & _).
Qed.

(** Changes of the scalars. *)
Lemma prime_wf q primed average :
  queue_wf q -> 0 <= average <= PLANKMicQueueFrames * 256 ->
  queue_wf (set_prime q primed average) /\ abs (set_prime q primed average) = with_prime (abs q) primed average.
Proof. intros [[? ? ? ? ?] ? ?] Ha. split; [constructor; [by constructor|done|done]|done]. Qed.
Lemma next_wf q has next :
  queue_wf q -> queue_wf (set_next q has next) /\ abs (set_next q has next) = with_next (abs q) has next.
Proof. intros [[? ? ? ? ?] ? ?]. split; [constructor; [by constructor|done|done]|done]. Qed.
Lemma expired_wf q n :
  queue_wf q -> queue_wf (add_expired q n) /\ abs (add_expired q n) = with_expired (abs q) n.
Proof. intros [[? ? ? ? ?] ? ?]. split; [constructor; [by constructor|done|done]|done]. Qed.
Lemma discarded_wf q n :
  queue_wf q -> queue_wf (add_discarded q n) /\ abs (add_discarded q n) = with_discarded (abs q) n.
Proof. intros [[? ? ? ? ?] ? ?]. split; [constructor; [by constructor|done|done]|done]. Qed.

Lemma flush_spec q : queue_wf q -> becomes (PLANKMicQueueFlush q) (pcm_flush (abs q)).
Proof.
  intros Hw. pose proof (qw_count _ (qw_shape _ Hw)) as Hc. unfold PLANKMicQueueFlush.
  eapply becomes_bind; [apply discard_spec; [done|lia]|]. intros q1 Hw1 E.
  rewrite drop_ge in E by (pose proof (queued_length q Hw); lia).
  assert (q_count q1 = 0) as Hz.
  { rewrite <- queued_length by done. apply (f_equal p_frames) in E. cbn in E. by rewrite E. }
  assert (forall i, ring_at q1 i = zero_frame) as Hall.
  { intros i. pose proof (Z.mod_pos_bound i PLANKMicQueueFrames ltac:(done)).
    rewrite <- (qw_cleared _ Hw1 (i mod PLANKMicQueueFrames)) by lia. unfold ring_at, PLANKMicQueueFrames.
    by rewrite Zplus_mod_idemp_r. }
  assert (queue_wf (set_position q1 0 (q_count q1))) as Hw2.
  { destruct Hw1 as [[? ? ? ? ?] ? ?]. constructor; [by constructor|done|].
    intros i Hi. cbn in Hi. rewrite <- (Hall (i - q_head q1)).
    unfold ring_at. cbn [set_position q_head]. unfold frame_at. cbn [set_position q_samples q_arrived q_captured].
    by replace (q_head q1 + (i - q_head q1)) with (0 + i) by lia. }
  destruct (prime_wf _ false 0 Hw2) as [Hw3 E3]; [done|].
  assert (abs (set_position q1 0 (q_count q1)) = abs q1) as Epos.
  { unfold abs, queued. cbn [set_position q_count]. by rewrite Hz. }
  eexists. split; [reflexivity|]. split; [done|]. by rewrite E3, Epos, E.
Qed.

Lemma clear_spec q : queue_wf q -> becomes (PLANKMicQueueClear q) (pcm_clear (abs q)).
Proof.
  intros Hw. eapply becomes_bind; [by apply flush_spec|]. intros q1 Hw1 E.
  destruct (next_wf q1 false 0 Hw1) as [? E1]. eexists. split; [reflexivity|]. split; [done|].
  by rewrite E1, E.
Qed.

(** ** Expiry *)

Lemma load_arrived q i :
  queue_wf q -> 0 <= i <= PLANKMicQueueFrames -> load (q_arrived q) (ring q i) = Some (f_arrived (ring_at q i)).
Proof.
  intros Hw Hi. destruct (ring_mod q i (qw_shape _ Hw) Hi) as [Er Hr].
  destruct (load_Some (q_arrived q) (ring q i)) as [v Hv].
  { rewrite (qw_arrived _ (qw_shape _ Hw)). lia. }
  rewrite Hv. f_equal. unfold ring_at. rewrite <- Er. unfold frame_at. cbn.
  apply load_inv in Hv as [_ Hv]. by rewrite nth_lookup, Hv.
Qed.

Lemma queued_at q i :
  queue_wf q -> 0 <= i < q_count q -> queued q !! Z.to_nat i = Some (ring_at q i).
Proof.
  intros Hw Hi. unfold queued. rewrite list_lookup_fmap, lookup_seq_lt by lia. cbn. do 2 f_equal. lia.
Qed.

Lemma drop_stale_le now fs : (length (drop_stale now fs) <= length fs)%nat.
Proof. induction fs as [|f fs IH]; cbn; [done|]. destruct (fresh now f); cbn; lia. Qed.

Lemma drop_stale_drop now fs :
  drop_stale now fs = drop (length fs - length (drop_stale now fs)) fs.
Proof.
  induction fs as [|f fs IH]; [done|]. cbn. destruct (fresh now f); cbn [length].
  - by rewrite Nat.sub_diag.
  - pose proof (drop_stale_le now fs). by rewrite Nat.sub_succ_l.
Qed.

Lemma expire_loop_spec q now fuel expired :
  queue_wf q -> in_range 64 now -> Forall (fun f => in_range 64 (f_arrived f)) (queued q) ->
  0 <= expired <= q_count q -> q_count q - expired <= Z.of_nat fuel ->
  expire_loop fuel q now expired =
  Some (q_count q - len (drop_stale now (drop (Z.to_nat expired) (queued q)))).
Proof.
  intros Hw Hn Hf. pose proof (qw_count _ (qw_shape _ Hw)) as Hc.
  revert expired. induction fuel as [|fuel IH]; intros expired He Hfuel; cbn [expire_loop].
  { rewrite (proj2 (Z.ltb_ge _ _)) by lia. rewrite drop_ge by (pose proof (queued_length q Hw); lia).
    cbn. f_equal. lia. }
  destruct (Z.ltb_spec expired (q_count q)).
  2: { rewrite drop_ge by (pose proof (queued_length q Hw); lia). cbn. f_equal. lia. }
  rewrite load_arrived by (done || lia). cbn [mbind option_bind].
  pose proof (queued_at q expired Hw ltac:(lia)) as Hat. pose proof (Forall_lookup_1 _ _ _ _ Hf Hat) as Ha.
  rewrite (drop_S _ _ _ Hat). cbn [drop_stale].
  replace ((f_arrived (ring_at q expired) <=? now) && (u64 (now - f_arrived (ring_at q expired)) <? PLANK_MIC_PCM_MAX_AGE_NS))
    with (fresh now (ring_at q expired)).
  2: { unfold fresh, PLANK_MIC_PCM_MAX_AGE_NS. destruct (Z.leb_spec (f_arrived (ring_at q expired)) now); [|done].
       by rewrite wrap_small by (ranges; lia). }
  destruct (fresh now _).
  - f_equal. cbn [length]. rewrite length_drop. pose proof (queued_length q Hw). lia.
  - rewrite IH by lia. by replace (Z.to_nat (expired + 1)) with (S (Z.to_nat expired)) by lia.
Qed.

Lemma last_queued q : queue_wf q -> 0 < q_count q -> last (queued q) = Some (ring_at q (q_count q - 1)).
Proof.
  intros Hw Hc. rewrite last_lookup. rewrite <- queued_at by (done || lia).
  f_equal. pose proof (queued_length q Hw). lia.
Qed.

Definition frame_times (f : frame) : Prop := in_range 64 (f_arrived f) /\ in_range 64 (f_captured f).
Definition times_ok (p : pcm) : Prop := Forall frame_times (p_frames p).

Lemma expire_spec q now :
  queue_wf q -> in_range 64 now -> times_ok (abs q) ->
  becomes (PLANKMicQueueExpire q now) (pcm_expire (abs q) now).
Proof.
  intros Hw Hn Ht. pose proof (qw_count _ (qw_shape _ Hw)) as Hc. unfold PLANKMicQueueExpire, pcm_expire.
  pose proof (queued_length q Hw) as Hlen. cbn [p_frames abs].
  destruct (Z.eqb_spec (q_count q) 0) as [Hz|Hz]; cbn [negb mbind option_bind].
  - replace (last (queued q)) with (@None frame) by (by destruct (queued q); [|cbn in Hlen; lia]).
    rewrite Hz. change (Z.to_nat 0) with 0%nat. cbn [expire_loop]. rewrite Hz. cbn. by exists q.
  - rewrite last_queued by (done || lia). rewrite load_arrived by (done || lia). cbn [mbind option_bind].
    destruct (now <? _).
    + rewrite Hlen. destruct (expired_wf q (q_count q) Hw) as [Hw1 E1]. rewrite <- E1.
      by apply flush_spec.
    + rewrite (expire_loop_spec q now) by
        (done || lia || (eapply Forall_impl; [exact Ht|by intros ? [? _]])). cbn [mbind option_bind].
      change (Z.to_nat 0) with 0%nat. rewrite drop_0.
      pose proof (drop_stale_le now (queued q)) as Hle.
      destruct (Nat.eqb_spec (length (drop_stale now (queued q))) (length (queued q))) as [E|E].
      { replace (q_count q - len (drop_stale now (queued q)) =? 0) with true by lia. by exists q. }
      replace (q_count q - len (drop_stale now (queued q)) =? 0) with false by lia. cbn [negb].
      eapply becomes_bind; [apply discard_spec; [done|lia]|]. intros q1 Hw1 E1.
      destruct (expired_wf q1 (q_count q - len (drop_stale now (queued q))) Hw1) as [Hw2 E2].
      assert (q_averageFrames256 q1 = q_averageFrames256 q) as Eav by (by apply (f_equal p_average) in E1).
      destruct (prime_wf _ false (q_averageFrames256 q1) Hw2) as [Hw3 E3]; [apply Hw1|].
      eexists. split; [reflexivity|]. split; [done|]. rewrite E3, E2, E1, Hlen, Eav.
      replace (Z.to_nat (q_count q - len (drop_stale now (queued q)))) with
        (length (queued q) - length (drop_stale now (queued q)))%nat by lia.
      by rewrite <- drop_stale_drop.
Qed.

Lemma expire_times p now : times_ok p -> times_ok (pcm_expire p now).
Proof.
  intros Ht. unfold pcm_expire. destruct (last _) as [f|]; [|done].
  destruct (now <? _); [by constructor|]. destruct (_ =? _)%nat; [done|].
  unfold times_ok. cbn. rewrite drop_stale_drop. by apply Forall_drop.
Qed.

(** ** Submission *)

Definition new_frame (samples : list Z) (captureTime now : Z) (i : nat) : frame :=
  mkFrame (clamp_sample (nth (2 * i) samples 0)) (clamp_sample (nth (2 * i + 1) samples 0)) now
    (if captureTime =? 0 then 0 else captureTime + Z.of_nat i * 1000000000 / PLANKMicRate).

Definition pcm_fill (p : pcm) (sampleTime now : Z) : pcm :=
  if p_has p && negb (sampleTime =? p_next p) then
    let missing := sampleTime - p_next p in
    if (missing <=? 960) && (len (p_frames p) + missing + 480 <=? PLANKMicQueueFrames)
    then with_frames p (p_frames p ++ replicate (Z.to_nat missing) (mkFrame 0 0 now 0))
    else pcm_flush p
  else p.

Definition pcm_overflow (p : pcm) : pcm :=
  let surplus := len (p_frames p) + 480 - PLANKMicQueueFrames in
  if 0 <? surplus then with_discarded (with_frames p (drop (Z.to_nat surplus) (p_frames p))) surplus else p.

Definition pcm_submit (p : pcm) (samples : option (list Z)) (count sampleTime captureTime now : Z) : bool * pcm :=
  match samples with
  | Some l =>
      if (count =? 480) && (captureTime <=? INT64_MAX - 10000000) && (sampleTime mod 480 =? 0) &&
         (sampleTime + 480 <=? UINT64_MAX) && negb (p_has p && (sampleTime <? p_next p)) &&
         forallb isfinite (take 960 l)
      then
        let p := pcm_overflow (with_next (pcm_fill (pcm_expire p now) sampleTime now) true (sampleTime + 480)) in
        (true, with_frames p (p_frames p ++ map (new_frame l captureTime now) (seq 0 480)))
      else (false, p)
  | None => (false, p)
  end.

Lemma expire_suffix p now : exists dropped, p_frames p = dropped ++ p_frames (pcm_expire p now).
Proof.
  unfold pcm_expire. destruct (last _); [|by exists []].
  destruct (now <? _); [exists (p_frames p); by rewrite app_nil_r|].
  destruct (_ =? _)%nat; [by exists []|]. cbn. rewrite drop_stale_drop. eexists. symmetry. apply take_drop.
Qed.

Lemma expire_keeps p now : p_has (pcm_expire p now) = p_has p /\ p_next (pcm_expire p now) = p_next p /\
  (length (p_frames (pcm_expire p now)) <= length (p_frames p))%nat.
Proof.
  unfold pcm_expire. destruct (last _); [|done]. destruct (now <? _); [cbn; split_and!; [done..|lia]|].
  destruct (_ =? _)%nat; [done|]. cbn. split_and!; [done..|apply drop_stale_le].
Qed.

Lemma append_silence_spec n now q :
  queue_wf q -> q_count q + Z.of_nat n <= PLANKMicQueueFrames ->
  becomes (append_silence n now q) (with_frames (abs q) (queued q ++ replicate n (mkFrame 0 0 now 0))).
Proof.
  revert q. induction n as [|n IH]; intros q Hw Hn; cbn [append_silence replicate].
  { exists q. rewrite app_nil_r. by split_and!. }
  eapply becomes_bind; [apply append_spec; [done|lia]|]. intros q1 Hw1 E1.
  assert (queued q1 = queued q ++ [mkFrame 0 0 now 0]) as Eq1 by (by apply (f_equal p_frames) in E1).
  assert (q_count q1 = q_count q + 1) as Ec.
  { rewrite <- !queued_length by done. rewrite Eq1, length_app. cbn. lia. }
  rewrite cons_middle, app_assoc, <- Eq1.
  destruct (IH q1 Hw1 ltac:(lia)) as (q2 & E2 & Hw2 & Ea2). exists q2. split_and!; [done..|].
  rewrite Ea2, E1. done.
Qed.

Lemma append_samples_spec n i samples captureTime now q :
  queue_wf q -> q_count q + Z.of_nat n <= PLANKMicQueueFrames ->
  (2 * (i + n) <= length samples)%nat -> (i + n <= 480)%nat -> 0 <= captureTime <= INT64_MAX - 10000000 ->
  becomes (append_samples n (Z.of_nat i) samples captureTime now q)
    (with_frames (abs q) (queued q ++ map (new_frame samples captureTime now) (seq i n))).
Proof.
  intros Hw Hn Hl Hi Hc. revert i q Hw Hn Hl Hi. induction n as [|n IH]; intros i q Hw Hn Hl Hi; cbn [append_samples seq map].
  { exists q. rewrite app_nil_r. by split_and!. }
  destruct (load_frame samples (Z.of_nat (i + S n)) i) as [-> ->]; [lia|lia|]. cbn [mbind option_bind].
  assert ((if negb (captureTime =? 0) then u64 (captureTime + u64 (Z.of_nat i * 1000000000) / PLANKMicRate) else 0)
    = f_captured (new_frame samples captureTime now i)) as ->.
  { unfold new_frame, PLANKMicRate. cbn [f_captured]. destruct (captureTime =? 0); [done|]. cbn [negb].
    rewrite (wrap_small 64 (Z.of_nat i * 1000000000)) by (ranges; lia).
    apply wrap_small. ranges. Z.div_mod_to_equations. lia. }
  eapply becomes_bind; [apply append_spec; [done|lia]|]. intros q1 Hw1 E1.
  assert (queued q1 = queued q ++ [new_frame samples captureTime now i]) as Eq1 by (by apply (f_equal p_frames) in E1).
  assert (q_count q1 = q_count q + 1) as Ec.
  { rewrite <- !queued_length by done. rewrite Eq1, length_app. cbn. lia. }
  rewrite cons_middle, app_assoc, <- Eq1. replace (Z.of_nat i + 1) with (Z.of_nat (S i)) by lia.
  destruct (IH (S i) q1 Hw1 ltac:(lia) ltac:(lia) ltac:(lia)) as (q2 & E2 & Hw2 & Ea2). exists q2. split_and!; [done..|].
  rewrite Ea2, E1. done.
Qed.

Lemma abs_count q : queue_wf q -> len (p_frames (abs q)) = q_count q.
Proof. apply queued_length. Qed.

Lemma fill_spec q sampleTime now :
  queue_wf q -> in_range 64 sampleTime -> in_range 64 (q_nextSample q) ->
  (q_hasSample q = true -> q_nextSample q <= sampleTime) ->
  becomes (if q_hasSample q && negb (sampleTime =? q_nextSample q) then
             let missing := u64 (sampleTime - q_nextSample q) in
             if (missing <=? 2 * PLANKMicPacketFrames) &&
                (u64 (u64 (q_count q + missing) + 480) <=? PLANKMicQueueFrames)
             then append_silence (Z.to_nat missing) now q
             else PLANKMicQueueFlush q
           else Some q) (pcm_fill (abs q) sampleTime now).
Proof.
  intros Hw Hs Hn Hle. unfold pcm_fill. change (p_has (abs q)) with (q_hasSample q).
  change (p_next (abs q)) with (q_nextSample q). rewrite abs_count by done.
  pose proof (qw_count _ (qw_shape _ Hw)) as Hc.
  destruct (q_hasSample q); [|by exists q]. cbn [andb]. destruct (negb _); [|by exists q].
  specialize (Hle eq_refl). cbv zeta. rewrite (wrap_small 64 (sampleTime - _)) by (ranges; lia).
  unfold PLANKMicPacketFrames, PLANKMicQueueFrames in *. change (2 * 480) with 960.
  destruct (Z.leb_spec (sampleTime - q_nextSample q) 960); [|by apply flush_spec].
  rewrite (wrap_small 64 (q_count q + _)), wrap_small by (ranges; lia). cbn [andb].
  replace (q_count q + (sampleTime - q_nextSample q) + 480) with (q_count q + (sampleTime - q_nextSample q) + 480) by lia.
  destruct (Z.leb_spec (q_count q + (sampleTime - q_nextSample q) + 480) 2880); [|by apply flush_spec].
  apply append_silence_spec; [done|]. unfold PLANKMicQueueFrames. lia.
Qed.

Lemma overflow_spec q :
  queue_wf q ->
  becomes (if PLANKMicQueueFrames <? u32 (q_count q + 480) then
             let discard := u32 (q_count q + 480 - PLANKMicQueueFrames) in
             q ← PLANKMicQueueDiscard q discard; Some (add_discarded q discard)
           else Some q) (pcm_overflow (abs q)).
Proof.
  intros Hw. unfold pcm_overflow. rewrite abs_count by done. pose proof (qw_count _ (qw_shape _ Hw)) as Hc.
  unfold PLANKMicQueueFrames in *. rewrite (wrap_small 32 (q_count q + 480)) by (ranges; lia).
  destruct (Z.ltb_spec 2880 (q_count q + 480)); [|by rewrite (proj2 (Z.ltb_ge _ _)) by lia; exists q].
  rewrite (proj2 (Z.ltb_lt _ _)) by lia. cbv zeta. rewrite wrap_small by (ranges; lia).
  eapply becomes_bind; [apply discard_spec; [done|lia]|]. intros q1 Hw1 E1.
  destruct (discarded_wf q1 (q_count q + 480 - 2880) Hw1) as [Hw2 E2].
  eexists. split; [reflexivity|]. split; [done|]. by rewrite E2, E1.
Qed.

Lemma overflow_room p : len (p_frames p) <= PLANKMicQueueFrames ->
  len (p_frames (pcm_overflow p)) + 480 <= PLANKMicQueueFrames.
Proof.
  unfold pcm_overflow. intros H. destruct (Z.ltb_spec 0 (len (p_frames p) + 480 - PLANKMicQueueFrames)); [|lia].
  cbn. rewrite length_drop. unfold PLANKMicQueueFrames in *. lia.
Qed.

Lemma submit_spec q samples count sampleTime captureTime now :
  queue_wf q -> times_ok (abs q) -> in_range 64 (q_nextSample q) ->
  in_range 32 count -> in_range 64 sampleTime -> in_range 64 captureTime -> in_range 64 now ->
  match samples with Some l => 2 * count <= len l | None => True end ->
  exists q', PLANKMicQueueSubmitTimed q samples count sampleTime captureTime now =
      Some ((pcm_submit (abs q) samples count sampleTime captureTime now).1, q') /\
    queue_wf q' /\ abs q' = (pcm_submit (abs q) samples count sampleTime captureTime now).2.
Proof.
  intros Hw Ht Hnx Hc Hs Hcap Hn Hl. unfold PLANKMicQueueSubmitTimed, pcm_submit.
  destruct samples as [l|]; [|by exists q]. change (p_has (abs q)) with (q_hasSample q).
  change (p_next (abs q)) with (q_nextSample q).
  assert (submit_refused q count sampleTime captureTime =
    negb ((count =? 480) && (captureTime <=? INT64_MAX - 10000000) && (sampleTime mod 480 =? 0) &&
      (sampleTime + 480 <=? UINT64_MAX) && negb (q_hasSample q && (sampleTime <? q_nextSample q)))) as Href.
  { unfold submit_refused, PLANKMicPacketFrames. destruct (q_hasSample q && _), (sampleTime mod 480 =? 0);
      cbn [negb andb orb]; lia. }
  rewrite Href. destruct (_ && negb (q_hasSample q && _)) eqn:Hok; [|by exists q]. cbn [negb andb].
  guards. assert (count = 480) as -> by lia.
  unfold all_finite, PLANKMicChannels. rewrite copy_from_take by lia. cbn [fmap option_fmap option_map mbind option_bind].
  change (Z.to_nat (480 * 2)) with 960%nat. destruct (forallb _ _); [|by exists q]. cbn [negb].
  destruct (expire_keeps (abs q) now) as (Ehas & Enext & _).
  assert (becomes (q ← PLANKMicQueueExpire q now;
    q ← (if q_hasSample q && negb (sampleTime =? q_nextSample q) then
           let missing := u64 (sampleTime - q_nextSample q) in
           if (missing <=? 2 * PLANKMicPacketFrames) &&
              (u64 (u64 (q_count q + missing) + 480) <=? PLANKMicQueueFrames)
           then append_silence (Z.to_nat missing) now q
           else PLANKMicQueueFlush q
         else Some q);
    let q := set_next q true (u64 (sampleTime + 480)) in
    q ← (if PLANKMicQueueFrames <? u32 (q_count q + 480) then
           let discard := u32 (q_count q + 480 - PLANKMicQueueFrames) in
           q ← PLANKMicQueueDiscard q discard; Some (add_discarded q discard)
         else Some q);
    append_samples (Z.to_nat 480) 0 l captureTime now q)
    (let p := pcm_overflow (with_next (pcm_fill (pcm_expire (abs q) now) sampleTime now) true (sampleTime + 480)) in
     with_frames p (p_frames p ++ map (new_frame l captureTime now) (seq 0 480)))) as Hb.
  { eapply becomes_bind; [by apply expire_spec|]. intros q1 Hw1 E1.
    assert (q_hasSample q1 = q_hasSample q /\ q_nextSample q1 = q_nextSample q) as [Eh1 En1].
    { split; [change (p_has (abs q1) = p_has (abs q))|change (p_next (abs q1) = p_next (abs q))]; by rewrite E1. }
    eapply becomes_bind; [apply fill_spec; [done|done|by rewrite En1|rewrite Eh1, En1; destruct (q_hasSample q); [lia|done]]|].
    intros q2 Hw2 E2. cbv zeta. destruct (next_wf q2 true (u64 (sampleTime + 480)) Hw2) as [Hw3 E3].
    rewrite E1 in E2. rewrite E2, (wrap_small 64 (sampleTime + 480)) in E3 by (ranges; lia).
    rewrite (wrap_small 64 (sampleTime + 480)) in * by (ranges; lia). rewrite <- E3.
    eapply becomes_bind; [by apply overflow_spec|]. intros q4 Hw4 E4. rewrite <- E4.
    apply (append_samples_spec 480 0); [done| |lia|lia|ranges; lia].
    rewrite <- abs_count by done. rewrite E4. apply overflow_room.
    rewrite abs_count by done. apply (qw_count _ (qw_shape _ Hw3)). }
  destruct Hb as (q' & Hrun & Hw' & Eq'). exists q'. split; [|by split].
  revert Hrun. destruct (PLANKMicQueueExpire q now) as [q1|]; [|done]. cbn [mbind option_bind].
  destruct (if q_hasSample q1 && _ then _ else _) as [q2|]; [|done]. cbn [mbind option_bind]. cbv zeta.
  destruct (if PLANKMicQueueFrames <? _ then _ else _) as [q3|]; [|done]. cbn [mbind option_bind].
  by intros ->.
Qed.

(** ** Rendering *)

(** Output frame [i] of a block that consumes [consume] frames: linear interpolation
    between two neighbours, at the rate of the correction. *)
Definition rendered (fs : list frame) (consume : Z) (i : nat) : list Z :=
  let a := Z.of_nat i * consume / 480 in
  let b := Z.min (a + 1) (consume - 1) in
  let fraction := double_sub (render_offset (Z.of_nat i) consume) (double_of_int a) in
  let fa := nth (Z.to_nat a) fs zero_frame in
  let fb := nth (Z.to_nat b) fs zero_frame in
  [interpolate (f_left fa) (f_left fb) fraction; interpolate (f_right fa) (f_right fb) fraction].

(** Capture times that advance by at most 2 ms from frame to frame. *)
Fixpoint continuous (fs : list frame) : bool :=
  match fs with
  | f :: (g :: _) as rest =>
      negb (f_captured f =? 0) && (f_captured f <? f_captured g) &&
      (f_captured g - f_captured f <=? 2000000) && continuous rest
  | _ => true
  end.

Definition pcm_primed (p : pcm) : pcm :=
  if negb (p_primed p) && (960 <=? len (p_frames p)) then with_prime p true (len (p_frames p) * 256) else p.

(** The result, the queue, the 960 samples of the block and its capture time. *)
Definition pcm_render (p : pcm) (now : Z) : bool * pcm * list Z * Z :=
  let p := pcm_primed (pcm_expire p now) in
  if negb (p_primed p) || (len (p_frames p) <? 479)
  then (false, with_prime p false (p_average p), replicate 960 0, 0)
  else
    let average := p_average p + (len (p_frames p) * 256 - p_average p) ÷ 32 in
    let consume := render_consume average (len (p_frames p)) in
    (true,
     with_frames (with_prime p true average) (drop (Z.to_nat consume) (p_frames p)),
     flat_map (rendered (p_frames p) consume) (seq 0 480),
     if continuous (take (Z.to_nat consume) (p_frames p))
     then f_captured (hd zero_frame (p_frames p)) else 0).

Lemma offset_index (i consume : Z) :
  0 <= i < 480 -> 479 <= consume <= 481 ->
  unsigned_of_double (render_offset i consume) = i * consume / 480.
Proof.
  intros Hi Hc.
  assert (forallb (fun c => forallb (fun i => unsigned_of_double (render_offset (Z.of_nat i) c) =? Z.of_nat i * c / 480)
    (seq 0 480)) [479; 480; 481] = true) as H by (vm_compute; reflexivity).
  rewrite forallb_forall in H. specialize (H consume ltac:(cbn; lia)). rewrite forallb_forall in H.
  specialize (H (Z.to_nat i)). rewrite in_seq in H. specialize (H ltac:(lia)).
  rewrite Z2Nat.id in H by lia. lia.
Qed.

Lemma queue_load_channels q i :
  queue_wf q -> 0 <= i <= PLANKMicQueueFrames ->
  load (q_samples q) (ring q i * PLANKMicChannels) = Some (f_left (ring_at q i)) /\
  load (q_samples q) (ring q i * PLANKMicChannels + 1) = Some (f_right (ring_at q i)).
Proof.
  intros Hw Hi. destruct (ring_mod q i (qw_shape _ Hw) Hi) as [Er Hr].
  pose proof (qw_samples _ (qw_shape _ Hw)) as Hs. unfold PLANKMicChannels in *.
  unfold ring_at. rewrite <- Er. unfold frame_at. cbn [f_left f_right].
  destruct (load_frame (q_samples q) (ring q i + 1) (Z.to_nat (ring q i))) as [H1 H2]; [lia|lia|].
  unfold PLANKMicChannels in *. rewrite Z2Nat.id in * by lia. by rewrite H1, H2.
Qed.

Lemma load_captured q i :
  queue_wf q -> 0 <= i <= PLANKMicQueueFrames -> load (q_captured q) (ring q i) = Some (f_captured (ring_at q i)).
Proof.
  intros Hw Hi. destruct (ring_mod q i (qw_shape _ Hw) Hi) as [Er Hr].
  destruct (load_Some (q_captured q) (ring q i)) as [v Hv].
  { rewrite (qw_captured _ (qw_shape _ Hw)). lia. }
  rewrite Hv. f_equal. unfold ring_at. rewrite <- Er. unfold frame_at. cbn.
  apply load_inv in Hv as [_ Hv]. by rewrite nth_lookup, Hv.
Qed.

Lemma nth_queued q i : queue_wf q -> 0 <= i < q_count q -> nth (Z.to_nat i) (queued q) zero_frame = ring_at q i.
Proof. intros Hw Hi. apply nth_lookup_Some. by apply queued_at. Qed.

Lemma length_rendered fs consume l : length (flat_map (rendered fs consume) l) = (2 * length l)%nat.
Proof. induction l as [|x l IH]; [done|]. cbn [flat_map]. rewrite length_app, IH. cbn. lia. Qed.

Lemma render_loop_spec q consume n (i : nat) out :
  queue_wf q -> 479 <= consume <= 481 -> consume <= q_count q -> (i + n = 480)%nat -> length out = 960%nat ->
  render_loop n (Z.of_nat i) q consume (flat_map (rendered (queued q) consume) (seq 0 i) ++ drop (2 * i) out) =
  Some (flat_map (rendered (queued q) consume) (seq 0 480)).
Proof.
  intros Hw Hc Hcount. pose proof (qw_count _ (qw_shape _ Hw)) as Hq.
  revert i. induction n as [|n IH]; intros i Hi Hl; cbn [render_loop].
  { replace i with 480%nat by lia. rewrite drop_ge by lia. by rewrite app_nil_r. }
  set (a := Z.of_nat i * consume / 480). cbv zeta.
  rewrite offset_index by lia. fold a.
  assert (0 <= a /\ a < consume) as Ha by (unfold a; Z.div_mod_to_equations; nia).
  assert ((if a + 1 <? consume then a + 1 else consume - 1) = Z.min (a + 1) (consume - 1)) as ->
    by (destruct (Z.ltb_spec (a + 1) consume); lia).
  destruct (queue_load_channels q a Hw) as [-> ->]; [lia|].
  destruct (queue_load_channels q (Z.min (a + 1) (consume - 1)) Hw) as [-> ->]; [lia|].
  cbn [mbind option_bind].
  assert (length (flat_map (rendered (queued q) consume) (seq 0 i)) = (2 * i)%nat) as Hcl
    by by rewrite length_rendered, length_seq.
  destruct (drop (2 * i) out) as [|x [|y rest]] eqn:Ed;
    [apply (f_equal length) in Ed; rewrite length_drop in Ed; cbn in Ed; lia..|].
  rewrite (copy_to_app _ [x; y] [_; _] rest) by (done || (unfold PLANKMicChannels; lia)).
  cbn [mbind option_bind]. replace (Z.of_nat i + 1) with (Z.of_nat (S i)) by lia.
  rewrite <- (IH (S i)) by lia. f_equal.
  replace (2 * S i)%nat with (2 * i + 2)%nat by lia. rewrite <- drop_drop, Ed. cbn [drop].
  rewrite seq_S, flat_map_app, <- app_assoc. cbn [flat_map app Nat.add]. do 2 f_equal.
  unfold rendered. fold a. by rewrite !nth_queued by (done || lia).
Qed.

Lemma capture_loop_spec q n i time :
  queue_wf q -> times_ok (abs q) -> 1 <= i -> i + Z.of_nat n <= q_count q ->
  capture_loop n i q time =
  Some (if continuous (take (S n) (drop (Z.to_nat (i - 1)) (queued q))) then time else 0).
Proof.
  intros Hw Ht. pose proof (qw_count _ (qw_shape _ Hw)) as Hq.
  revert i. induction n as [|n IH]; intros i Hi Hn; cbn [capture_loop].
  { by destruct (drop _ _). }
  rewrite !load_captured by (done || lia). cbn [mbind option_bind].
  pose proof (queued_at q (i - 1) Hw ltac:(lia)) as H0. pose proof (queued_at q i Hw ltac:(lia)) as H1.
  pose proof (Forall_lookup_1 _ _ _ _ Ht H0) as [_ C0]. pose proof (Forall_lookup_1 _ _ _ _ Ht H1) as [_ C1].
  rewrite (drop_S _ _ _ H0). replace (S (Z.to_nat (i - 1))) with (Z.to_nat i) by lia.
  rewrite (drop_S _ _ _ H1). cbn [take continuous].
  assert ((f_captured (ring_at q (i - 1)) =? 0) || (f_captured (ring_at q i) <=? f_captured (ring_at q (i - 1))) ||
    (2000000 <? u64 (f_captured (ring_at q i) - f_captured (ring_at q (i - 1)))) =
    negb (negb (f_captured (ring_at q (i - 1)) =? 0) && (f_captured (ring_at q (i - 1)) <? f_captured (ring_at q i)) &&
      (f_captured (ring_at q i) - f_captured (ring_at q (i - 1)) <=? 2000000))) as ->.
  { destruct (Z.ltb_spec (f_captured (ring_at q (i - 1))) (f_captured (ring_at q i)));
      [rewrite wrap_small by (ranges; lia)|]; lia. }
  destruct (_ && (_ <=? 2000000)); [|done]. cbn [negb andb].
  rewrite IH by lia. replace (Z.to_nat (i + 1 - 1)) with (Z.to_nat i) by lia.
  rewrite (drop_S _ _ _ H1). done.
Qed.

Lemma average_range a b m : 0 <= a <= m -> 0 <= b <= m -> 0 <= a + (b - a) ÷ 32 <= m.
Proof.
  intros Ha Hb. destruct (Z.le_ge_cases a b).
  - rewrite Z.quot_div_nonneg by lia. Z.div_mod_to_equations. lia.
  - replace (b - a) with (- (a - b)) by lia. rewrite Z.quot_opp_l, Z.quot_div_nonneg by lia.
    Z.div_mod_to_equations. lia.
Qed.

Lemma render_spec q now output captureTime :
  queue_wf q -> times_ok (abs q) -> in_range 64 now -> length output = 960%nat ->
  let r := pcm_render (abs q) now in
  exists q', PLANKMicQueueRenderTimed q now output captureTime =
      Some (r.1.1.1, q', r.1.2, match captureTime with Some _ => Some r.2 | None => None end) /\
    queue_wf q' /\ abs q' = r.1.1.2.
Proof.
  intros Hw Ht Hn Ho r. unfold PLANKMicQueueRenderTimed.
  assert (fill output 0 (PLANKMicPacketFrames * PLANKMicChannels) 0 = Some (replicate 960 0)) as ->.
  { unfold fill. change (Z.to_nat (PLANKMicPacketFrames * PLANKMicChannels)) with 960%nat.
    rewrite copy_to_Some by (rewrite ?length_replicate; lia). change (Z.to_nat 0) with 0%nat.
    rewrite take_0, length_replicate, drop_ge, app_nil_r by lia. done. }
  cbn [mbind option_bind].
  destruct (expire_spec q now Hw Hn Ht) as (q1 & -> & Hw1 & E1). cbn [mbind option_bind].
  pose proof (qw_count _ (qw_shape _ Hw1)) as Hc1.
  set (q2 := if negb (q_primed q1) && _ then _ else q1).
  assert (queue_wf q2 /\ abs q2 = pcm_primed (abs q1)) as [Hw2 E2].
  { unfold q2, pcm_primed. rewrite abs_count by done. change (p_primed (abs q1)) with (q_primed q1).
    change (960 <=? q_count q1) with (PLANKMicTargetFrames <=? q_count q1).
    destruct (negb _ && _); [|done]. apply prime_wf; [done|]. unfold PLANKMicQueueFrames in *. lia. }
  assert (times_ok (abs q2)) as Ht2.
  { rewrite E2, E1. pose proof (expire_times (abs q) now Ht) as H. unfold pcm_primed.
    destruct (negb (p_primed _) && _); exact H. }
  unfold r, pcm_render. rewrite <- E1, <- E2. rewrite abs_count by done.
  change (p_primed (abs q2)) with (q_primed q2). change (p_average (abs q2)) with (q_averageFrames256 q2).
  destruct (negb _ || _) eqn:Hlow.
  { destruct (prime_wf q2 false (q_averageFrames256 q2) Hw2) as [Hw3 E3]; [apply Hw2|].
    eexists. split; [|by split]. by destruct captureTime. }
  guards. pose proof (qw_count _ (qw_shape _ Hw2)) as Hc2. cbn [fst snd].
  set (average := q_averageFrames256 q2 + _).
  assert (0 <= average <= PLANKMicQueueFrames * 256) as Hav
    by (apply average_range; [apply Hw2|unfold PLANKMicQueueFrames in *; lia]).
  destruct (prime_wf q2 (q_primed q2) average Hw2 Hav) as [Hw3 E3].
  set (q3 := set_prime q2 (q_primed q2) average) in *.
  set (consume := render_consume average (q_count q3)).
  assert (479 <= consume <= 481 /\ consume <= q_count q2) as [Hcons Hle].
  { unfold consume, render_consume. change (q_count q3) with (q_count q2). repeat case_match; lia. }
  change (Z.to_nat PLANKMicPacketFrames) with 480%nat.
  assert (render_loop 480 0 q3 consume (replicate 960 0) =
    Some (flat_map (rendered (queued q3) consume) (seq 0 480))) as ->
    by exact (render_loop_spec q3 consume 480 0 (replicate 960 0) Hw3 Hcons Hle eq_refl eq_refl).
  cbn [mbind option_bind]. change (queued q3) with (queued q2).
  destruct (discard_spec q3 consume Hw3) as (q4 & Hd & Hw4 & E4); [change (q_count q3) with (q_count q2); lia|].
  exists q4. split; [|split; [done|]].
  - destruct captureTime; [|cbn [mbind option_bind]; by rewrite Hd].
    replace (q_head q3) with (ring q3 0).
    2: { destruct (ring_mod q3 0 (qw_shape _ Hw3)) as [-> _]; [unfold PLANKMicQueueFrames; lia|].
         rewrite Z.add_0_r. apply Z.mod_small. apply (qw_head _ (qw_shape _ Hw3)). }
    rewrite load_captured by (done || lia). cbn [mbind option_bind].
    rewrite capture_loop_spec by (done || change (q_count q3) with (q_count q2); lia).
    cbn [fmap option_fmap option_map mbind option_bind]. rewrite Hd. cbn [mbind option_bind].
    change (Z.to_nat (1 - 1)) with 0%nat. rewrite drop_0.
    replace (S (Z.to_nat (consume - 1))) with (Z.to_nat consume) by lia.
    change (queued q3) with (queued q2).
    replace (f_captured (ring_at q3 0)) with (f_captured (hd zero_frame (queued q2))).
    2: { change (ring_at q3 0) with (ring_at q2 0). pose proof (queued_at q2 0 Hw2 ltac:(lia)) as H'.
         destruct (queued q2); [done|]. by injection H' as ->. }
    done.
  - rewrite E4, E3. change (q_primed q2) with (p_primed (abs q2)).
    unfold with_prime, with_frames. cbn. by replace (q_primed q2) with true by by destruct (q_primed q2).
Qed.

(** ** Runs of the producer *)

Inductive queue_op :=
  | Submit (samples : option (list Z)) (count sampleTime captureTime now : Z)
  | Render (now : Z) (output : list Z) (captureTime : option Z)
  | Expire (now : Z)
  | Flush
  | Clear.

(** Machine-width arguments; the buffers hold what their types and counts say. *)
Definition op_ok (op : queue_op) : Prop :=
  match op with
  | Submit samples count sampleTime captureTime now =>
      in_range 32 count /\ in_range 64 sampleTime /\ in_range 64 captureTime /\ in_range 64 now /\
      match samples with Some l => 2 * count <= len l | None => True end
  | Render now output _ => in_range 64 now /\ length output = 960%nat
  | Expire now => in_range 64 now
  | _ => True
  end.

Definition run_op (op : queue_op) (q : PLANKMicQueue) : option PLANKMicQueue :=
  match op with
  | Submit samples count sampleTime captureTime now =>
      snd <$> PLANKMicQueueSubmitTimed q samples count sampleTime captureTime now
  | Render now output captureTime =>
      (fun r => r.1.1.2) <$> PLANKMicQueueRenderTimed q now output captureTime
  | Expire now => PLANKMicQueueExpire q now
  | Flush => PLANKMicQueueFlush q
  | Clear => PLANKMicQueueClear q
  end.

Definition pcm_op (op : queue_op) (p : pcm) : pcm :=
  match op with
  | Submit samples count sampleTime captureTime now => (pcm_submit p samples count sampleTime captureTime now).2
  | Render now _ _ => (pcm_render p now).1.1.2
  | Expire now => pcm_expire p now
  | Flush => pcm_flush p
  | Clear => pcm_clear p
  end.

Definition run_ops (ops : list queue_op) : option PLANKMicQueue :=
  foldl (fun r op => r ≫= run_op op) (Some queue_zero) ops.
Definition pcm_ops (ops : list queue_op) : pcm := foldl (fun p op => pcm_op op p) (abs queue_zero) ops.

(** Arrival times never decrease along the queue, whatever the clock did. *)
Fixpoint sorted_arrivals (fs : list frame) : Prop :=
  match fs with
  | f :: fs' => Forall (fun g => f_arrived f <= f_arrived g) fs' /\ sorted_arrivals fs'
  | [] => True
  end.

Record pcm_ok (p : pcm) : Prop := {
  po_times : times_ok p;
  po_next : in_range 64 (p_next p);
  po_sorted : sorted_arrivals (p_frames p) }.

Lemma sorted_drop fs n : sorted_arrivals fs -> sorted_arrivals (drop n fs).
Proof. revert n. induction fs as [|f fs IH]; intros [|n]; cbn; try done. intros [_ H]. by apply IH. Qed.

Lemma sorted_app fs gs :
  sorted_arrivals fs -> sorted_arrivals gs ->
  Forall (fun f => Forall (fun g => f_arrived f <= f_arrived g) gs) fs -> sorted_arrivals (fs ++ gs).
Proof.
  induction fs as [|f fs IH]; [done|]. cbn. intros [Hf Hfs] Hgs [Hfg Hrest]%Forall_cons.
  split; [by apply Forall_app|by apply IH].
Qed.

Lemma sorted_same now fs : Forall (fun f => f_arrived f = now) fs -> sorted_arrivals fs.
Proof.
  induction fs as [|f fs IH]; [done|]. intros [Hf Hfs]%Forall_cons. cbn. split; [|by apply IH].
  eapply Forall_impl; [exact Hfs|]. cbn. intros g ->. lia.
Qed.

Lemma sorted_last fs f : sorted_arrivals fs -> last fs = Some f -> Forall (fun g => f_arrived g <= f_arrived f) fs.
Proof.
  intros Hs Hl. induction fs as [|g fs IH]; [done|]. destruct Hs as [Hg Hs].
  destruct fs as [|h fs]; [injection Hl as ->; repeat constructor; lia|].
  rewrite last_cons_cons in Hl. constructor; [|by apply IH].
  rewrite Forall_forall in Hg. apply Hg. by apply last_Some_elem_of.
Qed.

(** After an expiry at [now] nothing in the queue arrived later than [now]. *)
Lemma expire_past p now :
  sorted_arrivals (p_frames p) -> Forall (fun f => f_arrived f <= now) (p_frames (pcm_expire p now)).
Proof.
  intros Hs. unfold pcm_expire. destruct (last (p_frames p)) as [f|] eqn:El.
  2: { apply last_None in El. rewrite El. constructor. }
  destruct (Z.ltb_spec now (f_arrived f)); [constructor|].
  assert (Forall (fun g => f_arrived g <= now) (p_frames p)) as Hall.
  { eapply Forall_impl; [by apply sorted_last|]. cbn. intros g Hg. lia. }
  destruct (_ =? _)%nat; [done|]. cbn. rewrite drop_stale_drop. by apply Forall_drop.
Qed.

Lemma expire_fresh p now :
  sorted_arrivals (p_frames p) -> Forall (fun f => fresh now f = true) (p_frames (pcm_expire p now)).
Proof.
  intros Hs. pose proof (expire_past p now Hs) as Hpast.
  unfold pcm_expire in *. destruct (last (p_frames p)) as [f|] eqn:El.
  2: { apply last_None in El. rewrite El. constructor. }
  destruct (now <? f_arrived f); [constructor|].
  assert (Forall (fun f => fresh now f = true) (drop_stale now (p_frames p))) as Hd.
  { clear El f. assert (Forall (fun f => f_arrived f <= now) (drop_stale now (p_frames p))) as Hp.
    { destruct (Nat.eqb_spec (length (drop_stale now (p_frames p))) (length (p_frames p))) as [E|E]; [|exact Hpast].
      rewrite drop_stale_drop, E, Nat.sub_diag. exact Hpast. }
    clear Hpast. revert Hs Hp. generalize (p_frames p) as fs.
    induction fs as [|f fs IH]; [done|]. cbn. intros [Hf Hs].
    destruct (fresh now f) eqn:Efr; [|by apply IH]. intros [_ Hp]%Forall_cons. constructor; [done|].
    apply Forall_forall. intros g Hg. rewrite Forall_forall in Hf, Hp.
    specialize (Hf g Hg). specialize (Hp g Hg). unfold fresh in *. guards. cbn in *. lia. }
  destruct (Nat.eqb_spec (length (drop_stale now (p_frames p))) (length (p_frames p))) as [E|E]; [|exact Hd].
  by rewrite drop_stale_drop, E, Nat.sub_diag in Hd.
Qed.

Lemma expire_ok p now : pcm_ok p -> pcm_ok (pcm_expire p now).
Proof.
  intros [Ht Hn Hs]. constructor; [by apply expire_times| |].
  - by destruct (expire_keeps p now) as (_ & -> & _).
  - unfold pcm_expire. destruct (last _); [|done]. destruct (now <? _); [done|].
    destruct (_ =? _)%nat; [done|]. cbn. rewrite drop_stale_drop. by apply sorted_drop.
Qed.

Lemma new_frames_ok l captureTime now :
  in_range 64 now -> 0 <= captureTime <= INT64_MAX - 10000000 ->
  Forall (fun f => f_arrived f = now /\ frame_times f) (map (new_frame l captureTime now) (seq 0 480)).
Proof.
  intros Hn Hc. apply Forall_map, Forall_forall. intros i Hi%elem_of_seq. unfold frame_times. cbn.
  split; [done|]. split; [done|]. destruct (captureTime =? 0); [done|].
  unfold PLANKMicRate. ranges. Z.div_mod_to_equations. lia.
Qed.

Lemma append_ok p gs now :
  pcm_ok p -> Forall (fun f => f_arrived f <= now) (p_frames p) ->
  Forall (fun f => f_arrived f = now /\ frame_times f) gs -> pcm_ok (with_frames p (p_frames p ++ gs)).
Proof.
  intros [Ht Hn Hs] Hp Hg. constructor; cbn; [|done|].
  - apply Forall_app. split; [done|]. eapply Forall_impl; [exact Hg|]. by intros f [_ ?].
  - apply sorted_app; [done|apply (sorted_same now); eapply Forall_impl; [exact Hg|]; by intros f [? _]|].
    eapply Forall_impl; [exact Hp|]. cbn. intros f Hf. eapply Forall_impl; [exact Hg|]. cbn. intros g [-> _]. done.
Qed.

Lemma submit_ok p samples count sampleTime captureTime now :
  pcm_ok p -> in_range 64 sampleTime -> in_range 64 captureTime -> in_range 64 now ->
  pcm_ok (pcm_submit p samples count sampleTime captureTime now).2.
Proof.
  intros Hp Hst Hct Hn. unfold pcm_submit. destruct samples as [l|]; [|done].
  destruct (_ && forallb _ _) eqn:Hok; [|done]. guards. cbn [snd].
  pose proof (expire_ok p now Hp) as He. pose proof (expire_past p now (po_sorted _ Hp)) as Hpast.
  set (p1 := pcm_expire p now) in *.
  assert (pcm_ok (pcm_fill p1 sampleTime now) /\
    Forall (fun f => f_arrived f <= now) (p_frames (pcm_fill p1 sampleTime now))) as [Hf Hfp].
  { unfold pcm_fill. destruct (p_has p1 && _); [|split; [exact He|exact Hpast]]. destruct ((_ <=? 960) && _).
    - assert (forall n, Forall (fun f => f_arrived f = now /\ frame_times f) (replicate n (mkFrame 0 0 now 0))) as Hrep.
      { intros n. apply Forall_replicate. split; [done|]. split; [exact Hn|split; cbn; lia]. }
      split; [by eapply append_ok|]. cbn. apply Forall_app. split; [done|].
      eapply Forall_impl; [apply Hrep|]. cbn. intros f [-> _]. done.
    - split; [|constructor]. constructor; [by constructor|apply He|done]. }
  set (p2 := with_next (pcm_fill p1 sampleTime now) true (sampleTime + 480)).
  assert (pcm_ok p2) as Hp2.
  { destruct Hf as [? ? ?]. constructor; [done| |done]. cbn. ranges. lia. }
  assert (pcm_ok (pcm_overflow p2) /\ Forall (fun f => f_arrived f <= now) (p_frames (pcm_overflow p2))) as [Hp3 Hp3p].
  { unfold pcm_overflow. destruct (0 <? _); [|split; [exact Hp2|exact Hfp]]. destruct Hp2 as [? ? ?]. split; [constructor; cbn|].
    - by apply Forall_drop.
    - done.
    - by apply sorted_drop.
    - cbn. by apply Forall_drop. }
  eapply append_ok; [exact Hp3|exact Hp3p|]. apply new_frames_ok; [done|]. ranges. lia.
Qed.

Lemma render_ok p now : pcm_ok p -> pcm_ok (pcm_render p now).1.1.2.
Proof.
  intros Hp. unfold pcm_render. pose proof (expire_ok p now Hp) as He.
  set (p1 := pcm_expire p now) in *.
  assert (pcm_ok (pcm_primed p1)) as H1.
  { unfold pcm_primed. destruct (_ && _); [|done]. destruct He. by constructor. }
  destruct H1 as [Ht Hn Hs]. destruct (_ || _); cbn [fst snd]; [by constructor|].
  constructor; cbn; [by apply Forall_drop|done|by apply sorted_drop].
Qed.

Lemma op_preserves op p : op_ok op -> pcm_ok p -> pcm_ok (pcm_op op p).
Proof.
  intros Hop Hp. destruct op; cbn.
  - apply submit_ok; [done|apply Hop..].
  - by apply render_ok.
  - by apply expire_ok.
  - constructor; [by constructor|apply Hp|done].
  - constructor; [by constructor|done|done].
Qed.

Lemma run_op_spec op q :
  op_ok op -> queue_wf q -> pcm_ok (abs q) -> becomes (run_op op q) (pcm_op op (abs q)).
Proof.
  intros Hop Hw Hp. destruct op; cbn [run_op pcm_op].
  - destruct Hop as (? & ? & ? & ? & ?).
    destruct (submit_spec q samples count sampleTime captureTime now) as (q' & -> & Hw' & E);
      [done|apply Hp|apply Hp|done..|]. exists q'. by split_and!.
  - destruct Hop as [? ?].
    destruct (render_spec q now output captureTime) as (q' & -> & Hw' & E); [done|apply Hp|done..|].
    exists q'. by split_and!.
  - apply expire_spec; [done|done|apply Hp].
  - by apply flush_spec.
  - by apply clear_spec.
Qed.

Lemma nth_zeroes n k : nth k (replicate n 0) 0 = 0.
Proof. revert k. induction n as [|n IH]; intros [|k]; cbn; done. Qed.

Lemma queue_zero_wf : queue_wf queue_zero /\ pcm_ok (abs queue_zero).
Proof.
  split; [|constructor; [by constructor|done|done]]. constructor; [|done|].
  - constructor; try done; cbn [queue_zero q_samples q_arrived q_captured]; rewrite length_replicate; done.
  - intros i _. unfold ring_at, frame_at. cbn [queue_zero q_samples q_arrived q_captured].
    by rewrite !nth_zeroes.
Qed.

Lemma run_ops_spec ops :
  Forall op_ok ops -> becomes (run_ops ops) (pcm_ops ops) /\ pcm_ok (pcm_ops ops).
Proof.
  intros Hops. unfold run_ops, pcm_ops.
  assert (forall r p, becomes r p -> pcm_ok p ->
    becomes (foldl (fun r op => r ≫= run_op op) r ops) (foldl (fun p op => pcm_op op p) p ops) /\
    pcm_ok (foldl (fun p op => pcm_op op p) p ops)) as H.
  { induction Hops as [|op ops Hop Hops IH]; intros r p Hr Hp; [done|]. cbn [foldl]. apply IH.
    - eapply becomes_bind; [exact Hr|]. intros q Hw <-. by apply run_op_spec.
    - by apply op_preserves. }
  destruct queue_zero_wf as [Hw Hp]. apply H; [|done]. by exists queue_zero.
Qed.

(** ** Properties *)

(** C8: from zeroed storage, any sequence of submissions, renders, expiries, flushes and
    clears stays in bounds and keeps the three arrays, head and count a representation of
    a plain queue of frames: every operation's result and effect are those of the
    specification - the gap filling, overflow, ageing and drift correction included - and
    every array slot outside the queue is cleared, so that no discarded speech remains. *)
Theorem mic_queue_refines ops :
  Forall op_ok ops ->
  exists q, run_ops ops = Some q /\ queue_wf q /\ abs q = pcm_ops ops /\
    (forall samples count sampleTime captureTime now,
       op_ok (Submit samples count sampleTime captureTime now) ->
       (fun r => (r.1, abs r.2)) <$> PLANKMicQueueSubmitTimed q samples count sampleTime captureTime now =
       Some (pcm_submit (pcm_ops ops) samples count sampleTime captureTime now)) /\
    (forall now output captureTime,
       op_ok (Render now output captureTime) ->
       (fun r => (r.1.1.1, abs r.1.1.2, r.1.2, r.2)) <$> PLANKMicQueueRenderTimed q now output captureTime =
       let '(result, p, block, capture) := pcm_render (pcm_ops ops) now in
       Some (result, p, block, match captureTime with Some _ => Some capture | None => None end)).
Proof.
  intros Hops. destruct (run_ops_spec ops Hops) as [(q & Hrun & Hw & Eq) Hok].
  exists q. rewrite <- Eq in *. split_and!; [done..| |].
  - intros samples count sampleTime captureTime now (? & ? & ? & ? & ?).
    destruct (submit_spec q samples count sampleTime captureTime now) as (q' & -> & Hw' & E);
      [done|apply Hok|apply Hok|done..|]. cbn [fmap option_fmap option_map fst snd].
    rewrite E. by destruct (pcm_submit _ _ _ _ _ _).
  - intros now output captureTime [? ?].
    destruct (render_spec q now output captureTime) as (q' & -> & Hw' & E); [done|apply Hok|done..|].
    cbn [fmap option_fmap option_map fst snd]. rewrite E. by destruct (pcm_render _ _) as [[[? ?] ?] ?].
Qed.

Definition example_op : queue_op := Submit (Some (replicate 960 F32_ONE)) 480 0 5 7.

Lemma mic_queue_refines_witness :
  exists q, run_ops [example_op; Render 8 (replicate 960 0) (Some 3)] = Some q /\
    abs q = pcm_ops [example_op; Render 8 (replicate 960 0) (Some 3)] /\
    length (p_frames (abs q)) = 480%nat.
Proof.
  destruct (mic_queue_refines [example_op; Render 8 (replicate 960 0) (Some 3)]) as (q & Hq & _ & E & _).
  { repeat constructor; try done; cbn; concrete. }
  exists q. split; [exact Hq|]. split; [exact E|]. rewrite E. vm_compute. reflexivity.
Defined.


