(* ===== verification/MicIPC.v ===== *)
(** * MicIPC: apps/host/macos/audio-device/microphone-driver-ipc.h, microphone-link.h

    The microphone plug-in's control side.  A root broker hands the driver a shared region
    ([PLANKMicLink]) that an unprivileged producer writes; every 5 ms the control queue
    copies samples from it into the driver's private history and moves the input gate (a
    lease and a deadline) that real-time reads check.  The region belongs to someone else:
    a load from it yields any value ([Atomic.always]). *)

From Stdlib Require Import SpecFloat.
From S2P Require Import Prelude.
From S2P Require Import Float32.
From S2P Require Import Atomic.
From S2P Require Import MicBuffer.

Definition PLANKMicLinkVersion : Z := 2.

(** The fields of [PLANKMicLink] after [version]. *)
Inductive link_loc :=
  | ClockSequence | Anchor | Seed | Running | ProducerSeed | Deadline | TicksPerFrame
  | Samples (l : loc).
#[export] Instance link_loc_eq_dec : EqDecision link_loc.
Proof. solve_decision. Defined.
Definition link_loc_valid (l : link_loc) : bool := match l with Samples l => mic_loc_valid l | _ => true end.
#[export] Instance link_location : Location link_loc := {| valid_loc := link_loc_valid |}.

(** [sizeof(PLANKMicLink)]: 64 bytes of fields, then the history of 16-byte samples. *)
Definition sizeof_PLANKMicLink : Z := 64 + 16 + 16 * PLANKMicFrames.
Definition PLANKMicLinkBytes (page : Z) : Z :=
  if page =? 0 then 0 else (sizeof_PLANKMicLink + page - 1) / page * page.
(** The version and the other fields of a fresh region. *)
Definition PLANKMicLinkInit : Z * mem link_loc :=
  (PLANKMicLinkVersion, fun l => match l with Samples l => PLANKMicBufferInit l | _ => 0 end).

(** The static variables; [micLink] tells whether a region is mapped. *)
Record ipc := mkIpc {
  micControlQueue : bool; micControlPeer : bool; micLink : bool; micLinkBytes : Z;
  micLease : Z; micBrokerDeadline : Z; micConnectAt : Z; micCopiedSeed : Z; micCopiedGeneration : Z;
  micInputDeadline : Z; micInputLease : Z; history : mem loc }.

Definition ipc_zero (m : mem loc) : ipc := mkIpc false false false 0 0 0 0 0 0 0 0 m.

Definition set_peer (s : ipc) (peer : bool) (at_ : Z) : ipc :=
  mkIpc (micControlQueue s) peer (micLink s) (micLinkBytes s) (micLease s) (micBrokerDeadline s) at_
    (micCopiedSeed s) (micCopiedGeneration s) (micInputDeadline s) (micInputLease s) (history s).
Definition set_deadline (s : ipc) (deadline : Z) : ipc :=
  mkIpc (micControlQueue s) (micControlPeer s) (micLink s) (micLinkBytes s) (micLease s) (micBrokerDeadline s)
    (micConnectAt s) (micCopiedSeed s) (micCopiedGeneration s) deadline (micInputLease s) (history s).
Definition set_broker (s : ipc) (deadline : Z) : ipc :=
  mkIpc (micControlQueue s) (micControlPeer s) (micLink s) (micLinkBytes s) (micLease s) deadline
    (micConnectAt s) (micCopiedSeed s) (micCopiedGeneration s) (micInputDeadline s) (micInputLease s) (history s).
Definition set_history (s : ipc) (m : mem loc) : ipc :=
  mkIpc (micControlQueue s) (micControlPeer s) (micLink s) (micLinkBytes s) (micLease s) (micBrokerDeadline s)
    (micConnectAt s) (micCopiedSeed s) (micCopiedGeneration s) (micInputDeadline s) (micInputLease s) m.

(** [None] would be an access outside the private history. *)
Definition micDropLink (s : ipc) : option ipc :=
  '(_, m) ← run (PLANKMicBufferReset 0) (history s);
  Some (mkIpc (micControlQueue s) (micControlPeer s) false (micLinkBytes s) 0 0 (micConnectAt s) 0 0 0 0 m).

(** ** Messages of the broker *)

(** An item of a message: an unsigned word, a shared memory object (what mapping it
    yields: nothing, or its size and the version word at its start), or something else. *)
Inductive xpc_item := XWord (v : Z) | XShmem (mapping : option (Z * Z)) | XOther.
(** An event of the connection: an error, a dictionary, or another object. *)
Inductive xpc_event := XError | XDictionary (items : list (string * xpc_item)) | XObject.

Fixpoint xpc_value (items : list (string * xpc_item)) (key : string) : option xpc_item :=
  match items with
  | [] => None
  | (k, v) :: items => if String.eqb k key then Some v else xpc_value items key
  end.

Definition micWord (items : list (string * xpc_item)) (key : string) : option Z :=
  match xpc_value items key with Some (XWord v) => Some v | _ => None end.

(** [(uint64_t)] of a non-negative double, modulo 2^64. *)
Definition to_u64 (x : spec_float) : Z := u64 (unsigned_of_double x).

Section ipc.
Context (ticksPerFrame : spec_float).

(** Two seconds, one second and half a second in ticks. *)
Definition two_seconds : Z :=
  to_u64 (double_mul (double_mul ticksPerFrame (double_of_int PLANKMicRate)) (double_of_int 2)).
Definition one_second : Z := to_u64 (double_mul ticksPerFrame (double_of_int PLANKMicRate)).
Definition half_second : Z :=
  to_u64 (double_div (double_mul ticksPerFrame (double_of_int PLANKMicRate)) (double_of_int 2)).

(** What the handler does with an event: close the connection, or answer [accepted]. *)
Inductive outcome := Ignored | Closed | Replied (accepted : bool).

(** The handler of [micConnect]: [current] is whether the event is for the current
    peer, [euid] the sender's, [reply] whether a reply could be made. *)
Definition micMessage (current : bool) (euid : Z) (reply : bool) (now : Z) (message : xpc_event) (s : ipc)
    : option (outcome * ipc) :=
  if negb current then Some (Ignored, s)
  else match message with
  | XError => s ← micDropLink s; Some (Closed, set_peer s false (micConnectAt s))
  | XObject => s ← micDropLink s; Some (Closed, s)
  | XDictionary items =>
      match (if euid =? 0 then micWord items "version" else None), micWord items "operation", micWord items "lease" with
      | Some version, Some operation, Some lease =>
          if negb (version =? PLANKMicLinkVersion) || (lease =? 0) || negb reply
          then s ← micDropLink s; Some (Closed, s)
          else
            let n := len items in
            if (operation =? 1) && (n =? 4) then
              match xpc_value items "memory" with
              | Some (XShmem (Some (size, version))) =>
                  if (size =? micLinkBytes s) && (version =? PLANKMicLinkVersion) then
                    s ← micDropLink s;
                    Some (Replied true,
                      mkIpc (micControlQueue s) (micControlPeer s) true (micLinkBytes s) lease (u64 (now + two_seconds))
                        (micConnectAt s) (micCopiedSeed s) (micCopiedGeneration s) (micInputDeadline s) lease (history s))
                  else Some (Replied false, s)
              | _ => Some (Replied false, s)
              end
            else if (operation =? 2) && (n =? 3) && (lease =? micLease s) then
              Some (Replied true, set_broker s (u64 (now + two_seconds)))
            else if (operation =? 3) && (n =? 3) then
              s ← (if lease =? micLease s then micDropLink s else Some s);
              Some (Replied true, s)
            else Some (Replied false, s)
      | _, _, _ => s ← micDropLink s; Some (Closed, s)
      end
  end.

(** ** The control queue's timer *)

Definition sanitize (f : Z) : Z := if isfinite f then clamp_sample f else 0.

(** One block: a read of the shared history, sanitized into the private one. *)
Definition copy_block (frame : Z) (s : ipc) : prog link_loc ipc :=
  bind (within Samples (PLANKMicBufferRead frame
                         (Some (replicate (Z.to_nat (PLANKMicPacketFrames * PLANKMicChannels)) 0)) PLANKMicPacketFrames))
    (fun r => match snd r with
              | Some samples =>
                  match run (PLANKMicBufferWrite frame (Some (map sanitize samples)) PLANKMicPacketFrames) (history s) with
                  | Some (_, m) => Ret (set_history s m)
                  | None => Undefined
                  end
              | None => Undefined
              end).

Fixpoint copy_blocks (n : nat) (frame : Z) (s : ipc) : prog link_loc ipc :=
  match n with
  | O => Ret s
  | S n => bind (copy_block frame s) (copy_blocks n (u64 (frame + PLANKMicPacketFrames)))
  end.

(** The first of the five copied positions: the packet before the current one. *)
Definition first_frame (now base : Z) : Z :=
  let frame := to_u64 (double_div (double_of_int (u64 (now - base))) ticksPerFrame) in
  let frame := frame / PLANKMicPacketFrames * PLANKMicPacketFrames in
  if PLANKMicPacketFrames <=? frame then frame - PLANKMicPacketFrames else frame.

(** A new clock or a new producer generation closes the gate and empties the history. *)
Definition resynchronise (seed generation : Z) (s : ipc) : option ipc :=
  if negb (seed =? micCopiedSeed s) || negb (generation =? micCopiedGeneration s) then
    '(_, m) ← run (PLANKMicBufferReset 0) (history s);
    Some (mkIpc (micControlQueue s) (micControlPeer s) (micLink s) (micLinkBytes s) (micLease s) (micBrokerDeadline s)
            (micConnectAt s) seed generation 0 (micInputLease s) m)
  else Some s.

(** [base], [seed] and [active] are the driver's clock anchor, clock seed and count of running clients. *)
Definition micIPCTick (now base seed active : Z) (s : ipc) : prog link_loc ipc :=
  let s := if negb (micControlPeer s) && (micConnectAt s <=? now) then set_peer s true (u64 (now + one_second)) else s in
  if negb (micLink s) then Ret s
  else if micBrokerDeadline s <=? now then
    match micDropLink s with Some s => Ret s | None => Undefined end
  else
    Rmw ClockSequence (fun v => u64 (v + 1)) (fun _ =>
    Store Anchor base (Store Seed seed (Store Running active
    (Rmw ClockSequence (fun v => u64 (v + 1)) (fun _ =>
    Load (Samples Generation) (fun generation =>
    match resynchronise seed generation s with
    | None => Undefined
    | Some s =>
        Load Deadline (fun deadline =>
        if (active =? 0) || (now <? base) || (deadline <=? now) then Ret (set_deadline s 0)
        else
          Load ProducerSeed (fun producer =>
          if negb (producer =? seed) then Ret (set_deadline s 0)
          else
            bind (copy_blocks 5 (first_frame now base) s) (fun s =>
            Ret (set_deadline s (Z.min (Z.min deadline (u64 (now + half_second))) (micBrokerDeadline s)))))
        )
    end)))))).
End ipc.

(** [micIPCInitialize]; [page] is the system's page size. *)
Definition micIPCInitialize (page : Z) (s : ipc) : ipc :=
  if micControlQueue s || (page <=? 0) then s
  else mkIpc true (micControlPeer s) (micLink s) (PLANKMicLinkBytes page) (micLease s) (micBrokerDeadline s)
         (micConnectAt s) (micCopiedSeed s) (micCopiedGeneration s) (micInputDeadline s) (micInputLease s) (history s).

(** ** The real-time side *)

(** What an IO thread loads. *)
Inductive io_loc := InputLease | InputDeadline | History (l : loc).
#[export] Instance io_loc_eq_dec : EqDecision io_loc.
Proof. solve_decision. Defined.
#[export] Instance io_location : Location io_loc :=
  {| valid_loc := fun l => match l with History l => mic_loc_valid l | _ => true end |}.

(** [now] and [later] are the two readings of the clock; a call may leave [samples] as it is. *)
Definition micIPCRead (now later frame : Z) (samples : list Z) (count : Z) : prog io_loc (option (list Z)) :=
  Load InputLease (fun lease =>
  if lease =? 0 then Ret (Some samples)
  else
    Load InputDeadline (fun deadline =>
    if deadline <=? now then Ret (Some samples)
    else
      bind (within History (PLANKMicBufferRead frame (Some samples) count)) (fun r =>
      match snd r with
      | None => Undefined
      | Some samples =>
          let muted := match silence samples count with Some s => Ret (Some s) | None => Undefined end in
          Load InputLease (fun again =>
          if negb (lease =? again) then muted
          else Load InputDeadline (fun deadline => if deadline <=? later then muted else Ret (Some samples)))
      end))).

(** ** Reads of someone else's history *)

Lemma Forall_copy_to {A} (P : A -> Prop) buf i src buf' :
  Forall P buf -> Forall P src -> copy_to buf i src = Some buf' -> Forall P buf'.
Proof.
  unfold copy_to. destruct (0 <=? i); [|done]. generalize (Z.to_nat i) as n. clear i.
  intros n. revert n src buf'. induction buf as [|b buf IH]; intros [|n] [|s src] buf' Hb Hs; cbn; intros H; simplify_eq; try done;
    apply fmap_Some in H as [t [Ht ->]]; apply Forall_cons in Hb as [? ?];
    pose proof Hs as Hs'; try (apply Forall_cons in Hs' as [? ?]); apply Forall_cons; (split; [done|]);
    (by eapply IH; [|exact Hs|]) || by eapply IH.
Qed.

Section reads.
Context (known : loc -> Z -> Prop) (P : Z -> Prop).
Context (known_bits : forall s v, known (Bits s) v -> P (u32 v) /\ P (u32 (Z.shiftr v 32))) (known_zero : P 0).

Lemma always_read_frames frame first count fuel j i out (k : list Z -> prog loc (bool * option (list Z))) Q :
  count = Z.of_nat (i + j) -> (j <= fuel)%nat -> count <= PLANKMicMaxIO -> count * 2 <= len out -> Forall P out ->
  (forall out', length out' = length out -> Forall P out' -> always known (k out') Q) ->
  always known (read_frames fuel frame first count (Z.of_nat i) out k) Q.
Proof using known_bits.
  intros Hc Hfuel Hio Hl Hp Hk. unfold PLANKMicMaxIO in Hio. revert fuel i out Hc Hfuel Hl Hp Hk.
  induction j as [|j IH]; intros fuel i out Hc Hfuel Hl Hp Hk.
  { replace count with (Z.of_nat i) by lia. destruct fuel; cbn [read_frames]; rewrite Z.ltb_irrefl; by apply Hk. }
  destruct fuel as [|fuel]; [lia|]. cbn [read_frames]. rewrite (proj2 (Z.ltb_lt _ _)) by lia.
  rewrite (wrap_small 32 (Z.of_nat i + 1)) by (ranges; lia).
  replace (Z.of_nat i + 1) with (Z.of_nat (S i)) by lia.
  destruct (_ <? first); [apply (IH fuel (S i)); done || lia|].
  pose proof (mic_slot_ok (u64 (frame + Z.of_nat i))) as Hs. cbn [always valid_loc loc_location mic_loc_valid].
  split; [exact Hs|]. intros before _. split; [exact Hs|]. intros bits Hbits. split; [exact Hs|]. intros after _.
  destruct (_ && _); [|apply (IH fuel (S i)); done || lia].
  destruct (copy_to out (Z.of_nat i * PLANKMicChannels) [u32 bits; u32 (Z.shiftr bits 32)]) as [out'|] eqn:E; cycle 1.
  { unfold PLANKMicChannels in E. rewrite copy_to_Some in E by (cbn; lia). done. }
  pose proof (copy_to_length _ _ _ _ E) as Hlen. destruct (known_bits _ _ Hbits) as [H1 H2].
  assert (Forall P out') as Hp'. { eapply Forall_copy_to; [exact Hp| |exact E]. by repeat constructor. }
  apply (IH fuel (S i)); rewrite ?Hlen; done || lia.
Qed.

Lemma silence_P out count :
  0 <= count -> count * 2 <= len out -> Forall P out ->
  exists out', silence out count = Some out' /\ length out' = length out /\ Forall P out'.
Proof using known_zero.
  intros Hc Hl Hp. destruct (silence_ok out count Hc Hl) as (out' & E & Hl' & _). exists out'.
  split_and!; [done|done|]. eapply Forall_copy_to; [exact Hp| |exact E]. by apply Forall_replicate.
Qed.

(** Whatever the writer does, a read ends in bounds and delivers only known samples. *)
Lemma always_read frame out count :
  0 <= count <= PLANKMicMaxIO -> count * 2 <= len out -> Forall P out ->
  always known (PLANKMicBufferRead frame (Some out) count)
    (fun r => exists out', snd r = Some out' /\ length out' = length out /\ Forall P out').
Proof using known_bits known_zero.
  intros Hc Hl Hp. unfold PLANKMicBufferRead. rewrite (proj2 (Z.ltb_ge _ _)) by lia.
  destruct (silence_P out count) as (out1 & -> & Hl1 & Hp1); [lia|done..|].
  destruct (_ <? frame); [by exists out1|]. cbn [always]. split; [done|]. intros generation _.
  destruct (Z.odd generation); [by exists out1|]. split; [done|]. intros first _.
  apply (always_read_frames _ _ _ _ (Z.to_nat count) 0); rewrite ?Hl1; try done; try lia.
  intros out2 Hl2 Hp2. cbn [always]. split; [done|]. intros again _.
  destruct (negb _); [|exists out2; split_and!; [done|congruence|done]].
  destruct (silence_P out2 count) as (out3 & -> & Hl3 & Hp3); [lia|lia|done|]. exists out3. split_and!; [done|congruence|done].
Qed.
End reads.

(** ** The private history holds only sane samples *)

(** A finite sample in [-1, 1], and a payload of two of them. *)
Definition sane (f : Z) : Prop := isfinite f = true /\ key F32_MINUS_ONE <= key f <= key F32_ONE.
Definition sane_bits (v : Z) : Prop := sane (u32 v) /\ sane (u32 (Z.shiftr v 32)).
Definition sane_history (m : mem loc) : Prop := forall s, sane_bits (m (Bits s)).

Lemma sane_zero : sane 0.
Proof. split; [done|]. vm_compute. split; discriminate. Qed.

Lemma clamp_sane f : in_range 32 f -> isfinite f = true -> in_range 32 (clamp_sample f) /\ sane (clamp_sample f).
Proof. intros Hr Hf. destruct (clamp_range f Hr Hf) as (? & ? & ?). by split; [|split]. Qed.

Lemma sanitize_ok f : in_range 32 f -> in_range 32 (sanitize f) /\ isfinite (sanitize f) = true.
Proof.
  intros Hr. unfold sanitize. destruct (isfinite f) eqn:Hf; [|by split].
  destruct (clamp_sane f Hr Hf) as [? [? _]]. done.
Qed.

Lemma frame_bits_sane l r :
  in_range 32 l -> isfinite l = true -> in_range 32 r -> isfinite r = true -> sane_bits (frame_bits l r).
Proof.
  intros Hl Hfl Hr Hfr. destruct (clamp_sane l Hl Hfl) as [Hcl Hsl]. destruct (clamp_sane r Hr Hfr) as [Hcr Hsr].
  unfold sane_bits, frame_bits. revert Hsl Hsr Hcl Hcr. generalize (clamp_sample l) (clamp_sample r). intros a b Ha Hb Hra Hrb.
  replace (u32 (a + 2 ^ 32 * b)) with a by (ranges; Z.div_mod_to_equations; lia).
  rewrite Z.shiftr_div_pow2 by lia. replace ((a + 2 ^ 32 * b) / 2 ^ 32) with b by (ranges; Z.div_mod_to_equations; lia).
  rewrite wrap_small by done. done.
Qed.

(** The stores of a write or a reset, on a memory where nothing else happens. *)
Lemma sane_upd m l v : sane_history m -> (match l with Bits _ => sane_bits v | _ => True end) -> sane_history (upd m l v).
Proof.
  intros Hm Hv s. destruct (decide (l = Bits s)) as [->|Hne]; [by rewrite upd_same|by rewrite upd_other].
Qed.

Lemma run_clear_frames {A} (n : nat) i (k : prog loc A) m :
  0 <= i -> i + Z.of_nat n <= PLANKMicFrames -> sane_history m ->
  exists m', run (clear_frames n i k) m = run k m' /\ sane_history m'.
Proof.
  revert i m. induction n as [|n IH]; intros i m Hi Hn Hm; [by exists m|]. cbn [clear_frames].
  rewrite run_store. 2: { cbn. unfold mic_slot_valid. lia. }
  apply (IH (i + 1)); [lia|lia|by apply sane_upd].
Qed.

Lemma run_reset m : sane_history m -> exists m', run (PLANKMicBufferReset 0) m = Some (tt, m') /\ sane_history m'.
Proof.
  intros Hm. unfold PLANKMicBufferReset. cbn [run valid_loc loc_location mic_loc_valid].
  destruct (run_clear_frames (Z.to_nat PLANKMicFrames) 0
    (Rmw Generation (fun g => u64 (g + 1)) (fun _ => Ret tt)) (upd (upd m Generation (u64 (m Generation + 1))) FirstFrame 0))
    as (m' & -> & Hm'); [done|done|apply sane_upd; [by apply sane_upd|done]|].
  eexists. split; [reflexivity|]. by apply sane_upd.
Qed.

Lemma run_write_sane fuel frame l count i m b m' :
  Forall (fun f => in_range 32 f /\ isfinite f = true) l -> sane_history m ->
  run (write_frames fuel frame l count i (Ret true)) m = Some (b, m') -> sane_history m'.
Proof.
  intros Hl. revert i m. induction fuel as [|fuel IH]; intros i m Hm; cbn [write_frames].
  { destruct (i <? count); [done|]. by intros [= _ <-]. }
  destruct (i <? count); [|by intros [= _ <-]].
  destruct (load l (i * PLANKMicChannels)) as [x|] eqn:Ex; [|done].
  destruct (load l (i * PLANKMicChannels + 1)) as [y|] eqn:Ey; [|done].
  apply load_inv in Ex as [_ Ex]. apply load_inv in Ey as [_ Ey].
  destruct (Forall_lookup_1 _ _ _ _ Hl Ex) as [? ?]. destruct (Forall_lookup_1 _ _ _ _ Hl Ey) as [? ?].
  fold (mic_slot (u64 (frame + i))). rewrite !run_store by apply mic_slot_ok.
  apply IH. apply sane_upd; [|done]. apply sane_upd; [|by apply frame_bits_sane]. by apply sane_upd.
Qed.

Lemma run_private_write frame l m :
  in_range 64 frame -> len l = PLANKMicPacketFrames * PLANKMicChannels ->
  Forall (fun f => in_range 32 f /\ isfinite f = true) l -> sane_history m ->
  exists b m', run (PLANKMicBufferWrite frame (Some l) PLANKMicPacketFrames) m = Some (b, m') /\ sane_history m'.
Proof.
  intros Hf Hlen Hl Hm. unfold PLANKMicPacketFrames, PLANKMicChannels in *.
  pose proof (mic_run_write frame (Some l) 480 m Hf ltac:(done) ltac:(cbn; lia)) as Hw.
  destruct (accepts _ _ _ _) eqn:Ha; [|by exists false, m].
  destruct Hw as (_ & _ & _ & m' & Hw & _). exists true, m'. split; [done|].
  revert Hw. unfold PLANKMicBufferWrite. destruct (_ || _); [by intros [=]|]. rewrite run_load by done.
  destruct (_ <? _); [by intros [=]|]. destruct (all_finite _ _) as [[]|]; [|by intros [=]|done].
  by apply run_write_sane.
Qed.

(** ** The gate *)

(** The shared region yields anything. *)
Definition anything {L} (l : L) (v : Z) : Prop := in_range 64 v.

(** The deadlines the broker granted to the current lease; none without a lease. *)
Definition grants_after (s s' : ipc) (grants : list Z) : list Z :=
  if micLease s' =? 0 then []
  else if (micLease s' =? micLease s) && (micBrokerDeadline s' =? micBrokerDeadline s) then grants
  else micBrokerDeadline s' :: (if micLease s' =? micLease s then grants else []).

Record gate (s : ipc) (grants : list Z) (limit : Z) : Prop := {
  gt_sane : sane_history (history s);
  gt_lease : micInputLease s = micLease s;
  gt_linked : micLink s = false -> micLease s = 0 /\ micInputDeadline s = 0;
  gt_lease_linked : micLink s = true -> micLease s <> 0 /\ micBrokerDeadline s ∈ grants;
  gt_granted : micInputDeadline s <> 0 -> exists g, g ∈ grants /\ micInputDeadline s <= g;
  gt_broker : 0 <= micBrokerDeadline s;
  gt_limit : 0 <= micInputDeadline s <= limit }.

Ltac fields := cbn [micLease micBrokerDeadline micInputLease micLink micInputDeadline history].

Lemma drop_gate s limit :
  sane_history (history s) -> 0 <= limit -> exists s', micDropLink s = Some s' /\ micLease s' = 0 /\ gate s' [] limit.
Proof.
  intros Hs Hlim. unfold micDropLink. destruct (run_reset _ Hs) as (m' & -> & Hm'). cbn [mbind option_bind].
  eexists. split; [reflexivity|]. split; [done|]. split; cbn; try done; lia.
Qed.

Section gate.
Context (ticksPerFrame : spec_float).

Lemma first_frame_range now base : in_range 64 (first_frame ticksPerFrame now base).
Proof.
  unfold first_frame. pose proof (wrap_range 64 (unsigned_of_double (double_div (double_of_int (u64 (now - base))) ticksPerFrame))
    ltac:(lia)) as Hr. fold (to_u64 (double_div (double_of_int (u64 (now - base))) ticksPerFrame)) in Hr.
  set (f := to_u64 _) in *. clearbody f. unfold PLANKMicPacketFrames. ranges. destruct (Z.leb_spec 480 (f / 480 * 480));
    Z.div_mod_to_equations; lia.
Qed.

Lemma copy_block_sane frame s :
  in_range 64 frame -> sane_history (history s) ->
  always anything (copy_block frame s) (fun s' => exists m, s' = set_history s m /\ sane_history m).
Proof.
  intros Hf Hs. apply always_bind, (always_within Samples anything); [done|done|].
  eapply always_mono; [|apply (always_read anything (in_range 32));
    [intros s' v _; split; apply wrap_range; lia|done|done|done|by apply Forall_replicate]].
  intros [b o] (out & -> & Hlen & Hout). cbn [snd]. rewrite length_replicate in Hlen.
  destruct (run_private_write frame (map sanitize out) (history s)) as (b' & m & -> & Hm); [done| | |done|].
  - rewrite length_map, Hlen. done.
  - apply Forall_forall. intros x Hx. apply list_elem_of_fmap in Hx as (y & -> & Hy).
    rewrite Forall_forall in Hout. apply sanitize_ok, Hout, Hy.
  - by exists m.
Qed.

Lemma copy_blocks_sane n frame s :
  in_range 64 frame -> sane_history (history s) ->
  always anything (copy_blocks n frame s) (fun s' => exists m, s' = set_history s m /\ sane_history m).
Proof.
  revert frame s. induction n as [|n IH]; intros frame s Hf Hs; cbn [copy_blocks].
  { exists (history s). by destruct s. }
  apply always_bind. eapply always_mono; [|by apply copy_block_sane]. intros s' (m & -> & Hm).
  eapply always_mono; [|apply IH; [by apply wrap_range|done]]. intros s'' (m' & -> & Hm'). by exists m'.
Qed.

Lemma set_deadline_gate s s' grants limit d :
  gate s grants limit -> micLease s' = micLease s -> micLink s' = micLink s -> micInputLease s' = micInputLease s ->
  micBrokerDeadline s' = micBrokerDeadline s -> sane_history (history s') -> micLink s = true ->
  forall limit', micInputDeadline s' = d -> 0 <= d <= limit' -> (d <> 0 -> d <= micBrokerDeadline s) -> gate s' grants limit'.
Proof.
  intros [Hs Hl Hn Hk Hg Hbr Hb] El Ek Ei Eb Hs' Hlink limit' Ed Hd Hdb.
  destruct (Hk Hlink) as [Hne Hin]. split; rewrite ?El, ?Ek, ?Ei, ?Eb, ?Ed; try done.
  - by rewrite Hlink.
  - intros Hd0. exists (micBrokerDeadline s). by split; [|apply Hdb].
Qed.

Lemma grants_same s s' grants limit :
  gate s grants limit -> micLink s = true -> micLease s' = micLease s -> micBrokerDeadline s' = micBrokerDeadline s ->
  grants_after s s' grants = grants.
Proof.
  intros Hg Hl El Eb. unfold grants_after. destruct (gt_lease_linked _ _ _ Hg Hl) as [Hne _].
  rewrite El, Eb, !Z.eqb_refl. cbn. by rewrite (proj2 (Z.eqb_neq _ _) Hne).
Qed.

Lemma resynchronise_spec seed generation s :
  sane_history (history s) ->
  exists s1, resynchronise seed generation s = Some s1 /\ sane_history (history s1) /\
    micLease s1 = micLease s /\ micLink s1 = micLink s /\ micInputLease s1 = micInputLease s /\
    micBrokerDeadline s1 = micBrokerDeadline s.
Proof.
  intros Hs. unfold resynchronise. destruct (_ || _); [|by exists s].
  destruct (run_reset _ Hs) as (m & -> & Hm). cbn [mbind option_bind]. by eexists.
Qed.

(** A tick, whatever the region holds. *)
Lemma tick_gate now base seed active s grants limit :
  gate s grants limit ->
  always anything (micIPCTick ticksPerFrame now base seed active s)
    (fun s' => gate s' (grants_after s s' grants) (u64 (now + half_second ticksPerFrame))).
Proof.
  intros Hg. unfold micIPCTick.
  set (s0 := if negb (micControlPeer s) && (micConnectAt s <=? now) then _ else s).
  assert (gate s0 grants limit) as Hg0 by (unfold s0; destruct (_ && _); [by destruct Hg; split|done]).
  assert (micLease s0 = micLease s /\ micBrokerDeadline s0 = micBrokerDeadline s) as [El Eb]
    by (unfold s0; destruct (_ && _); done).
  assert (forall s', grants_after s s' grants = grants_after s0 s' grants) as Hga by (intros; unfold grants_after; by rewrite El, Eb).
  clearbody s0. pose proof (wrap_range 64 (now + half_second ticksPerFrame) ltac:(lia)) as [Hcap _].
  destruct (micLink s0) eqn:Hlink; cbn [negb].
  2: { destruct (gt_linked _ _ _ Hg0 Hlink) as [Hl0 Hd0]. cbn [always]. rewrite Hga.
       unfold grants_after. rewrite Hl0. cbn. destruct Hg0. split; try done; rewrite ?Hlink, ?Hd0; done. }
  destruct (micBrokerDeadline s0 <=? now) eqn:Hexp.
  { destruct (drop_gate s0 (u64 (now + half_second ticksPerFrame))) as (s' & -> & Hl & Hg'); [apply Hg0|apply Hcap|].
    cbn [always]. unfold grants_after. by rewrite Hl. }
  cbn [always valid_loc link_location link_loc_valid mic_loc_valid].
  split; [done|]. intros _ _. split; [done|]. split; [done|]. split; [done|]. split; [done|]. intros _ _.
  split; [done|]. intros generation _.
  destruct (resynchronise_spec seed generation s0) as (s1 & -> & Hs1 & El1 & Ek1 & Ei1 & Eb1); [apply Hg0|].
  cbn [always]. split; [done|]. intros deadline Hd.
  assert (forall s' d, micLease s' = micLease s0 -> micLink s' = micLink s0 -> micInputLease s' = micInputLease s0 ->
    micBrokerDeadline s' = micBrokerDeadline s0 -> sane_history (history s') -> micInputDeadline s' = d ->
    0 <= d <= u64 (now + half_second ticksPerFrame) -> (d <> 0 -> d <= micBrokerDeadline s0) ->
    gate s' (grants_after s s' grants) (u64 (now + half_second ticksPerFrame))) as Hclose.
  { intros s' d ? ? ? ? ? Ed ? ?. rewrite Hga, (grants_same s0 s' grants limit) by done.
    by eapply (set_deadline_gate s0 s' grants limit d). }
  destruct (_ || (deadline <=? now)); [by apply (Hclose _ 0)|].
  cbn [always]. split; [done|]. intros producer _. destruct (negb _); [by apply (Hclose _ 0)|].
  apply always_bind. eapply always_mono; [|apply (copy_blocks_sane 5); [apply first_frame_range|done]].
  intros s2 (m & -> & Hm). cbn [always].
  apply (Hclose _ (Z.min (Z.min deadline (u64 (now + half_second ticksPerFrame))) (micBrokerDeadline s1))); try done.
  - rewrite Eb1. destruct Hd as [Hd _]. pose proof (gt_broker _ _ _ Hg0). lia.
  - intros _. rewrite Eb1. lia.
Qed.

Lemma new_grant (d : Z) grants : d ∈ d :: grants.
Proof. by left. Qed.

Lemma unlinked_gate s grants limit limit' :
  gate s grants limit -> micLink s = false -> 0 <= limit' -> gate s [] limit'.
Proof.
  intros Hg E Hlim. destruct (gt_linked _ _ _ Hg E) as [Hl Hd].
  split; rewrite ?E, ?Hd; try done; apply Hg.
Qed.

Lemma same_gate s grants limit : gate s grants limit -> gate s (grants_after s s grants) limit.
Proof.
  intros Hg. destruct (micLink s) eqn:E; [by rewrite (grants_same s s grants limit)|].
  destruct (gt_linked _ _ _ Hg E) as [Hl _]. unfold grants_after. rewrite Hl.
  apply (unlinked_gate s grants limit); try done. destruct (gt_limit _ _ _ Hg). lia.
Qed.

(** A message, whatever it holds, never fails. *)
Lemma message_gate current euid reply now message s grants limit :
  gate s grants limit ->
  exists o s', micMessage ticksPerFrame current euid reply now message s = Some (o, s') /\
    gate s' (grants_after s s' grants) limit.
Proof.
  intros Hg. pose proof (drop_gate s limit ltac:(apply Hg)) as Hdrop.
  destruct Hdrop as (s1 & Hs1 & Hl1 & Hg1); [destruct (gt_limit _ _ _ Hg); lia|].
  assert (grants_after s s1 grants = []) as Hga1 by (unfold grants_after; by rewrite Hl1).
  pose proof (same_gate s grants limit Hg) as Hsame.
  unfold micMessage. remember (micDropLink s) as dropped eqn:Hdropped. clear Hdropped.
  destruct (negb current); [by eexists _, _|].
  destruct message as [|items|]; rewrite Hs1; cbn [mbind option_bind].
  { eexists _, _. split; [reflexivity|]. destruct Hg1. unfold grants_after. cbn. rewrite Hl1. cbn. by split. }
  2: { eexists _, _. split; [reflexivity|]. by rewrite Hga1. }
  assert (exists o s', Some (Closed, s1) = Some (o, s') /\ gate s' (grants_after s s' grants) limit) as Hclosed
    by (eexists _, _; split; [reflexivity|by rewrite Hga1]).
  destruct (if euid =? 0 then _ else _) as [version|]; [|done].
  destruct (micWord items "operation") as [operation|]; [|done].
  destruct (micWord items "lease") as [lease|]; [|done].
  destruct (_ || negb reply) eqn:Hbad; [done|]. guards.
  assert (lease <> 0) as Hlease by lia.
  destruct ((operation =? 1) && _).
  { destruct (xpc_value items "memory") as [[|[[size v]|]|]|]; try (by eexists _, _).
    destruct (_ && _); [|by eexists _, _]. eexists _, _. split; [reflexivity|].
    unfold grants_after. cbn [micLease micBrokerDeadline]. rewrite (proj2 (Z.eqb_neq lease 0)) by done.
    assert (micInputDeadline s1 = 0) as Hd1.
    { destruct (Z.eq_dec (micInputDeadline s1) 0) as [|Hne]; [done|].
      destruct (gt_granted _ _ _ Hg1 Hne) as (g & Hin%elem_of_nil & _). done. }
    pose proof (wrap_range 64 (now + two_seconds ticksPerFrame) ltac:(lia)) as [Hw _].
    destruct Hg1 as [Hs _ _ _ _ _ Hlim]. rewrite Hd1 in Hlim.
    destruct ((lease =? micLease s) && _) eqn:Esame.
    - apply andb_true_iff in Esame as [El%Z.eqb_eq Eb%Z.eqb_eq]. split; fields; rewrite ?Hd1; try done.
      intros _. split; [done|]. destruct (micLink s) eqn:Hlink.
      + rewrite Eb. by apply (gt_lease_linked _ _ _ Hg).
      + destruct (gt_linked _ _ _ Hg Hlink). congruence.
    - split; fields; rewrite ?Hd1; try done. intros _. split; [done|apply new_grant]. }
  destruct ((operation =? 2) && _ && _) eqn:Hrenew.
  { apply andb_true_iff in Hrenew as [_ El%Z.eqb_eq]. subst lease. eexists _, _. split; [reflexivity|].
    destruct (micLink s) eqn:Hlink; [|destruct (gt_linked _ _ _ Hg Hlink); congruence].
    pose proof (wrap_range 64 (now + two_seconds ticksPerFrame) ltac:(lia)) as [Hw _].
    unfold grants_after, set_broker. cbn [micLease micBrokerDeadline]. rewrite (proj2 (Z.eqb_neq (micLease s) 0)), Z.eqb_refl by done.
    cbn [andb]. destruct Hg as [Hs Hl Hn Hk Hgr Hb Hlim].
    destruct (Z.eqb_spec (u64 (now + two_seconds ticksPerFrame)) (micBrokerDeadline s)) as [Eb|Eb].
    - split; fields; rewrite ?Hlink, ?Eb; try done. intros _. by apply Hk.
    - split; fields; rewrite ?Hlink; try done.
      + intros _. split; [by apply Hk|apply new_grant].
      + intros Hd. destruct (Hgr Hd) as (g & Hin & Hle). exists g. split; [by right|done]. }
  destruct ((operation =? 3) && _); [|by eexists _, _].
  destruct (lease =? micLease s).
  - cbn [mbind option_bind]. eexists _, _. split; [reflexivity|by rewrite Hga1].
  - cbn [mbind option_bind]. by eexists _, _.
Qed.

(** The driver's runs: the timer and the connection's events, in any order. *)
Inductive ipc_reachable : ipc -> list Z -> Z -> Prop :=
  | reach_init m : sane_history m -> ipc_reachable (ipc_zero m) [] 0
  | reach_initialize page s grants limit :
      ipc_reachable s grants limit -> ipc_reachable (micIPCInitialize page s) grants limit
  | reach_message current euid reply now message o s s' grants limit :
      ipc_reachable s grants limit ->
      micMessage ticksPerFrame current euid reply now message s = Some (o, s') ->
      ipc_reachable s' (grants_after s s' grants) limit
  | reach_tick now base seed active s s' grants limit :
      ipc_reachable s grants limit ->
      possible anything (micIPCTick ticksPerFrame now base seed active s) s' ->
      ipc_reachable s' (grants_after s s' grants) (u64 (now + half_second ticksPerFrame)).

Lemma reachable_gate s grants limit : ipc_reachable s grants limit -> gate s grants limit.
Proof.
  induction 1 as [m Hm|page s grants limit _ IH|current euid reply now message o s s' grants limit _ IH Hmsg|
                  now base seed active s s' grants limit _ IH Htick].
  - split; cbn; try done; lia.
  - unfold micIPCInitialize. destruct (_ || _); [done|]. destruct IH. by split.
  - destruct (message_gate current euid reply now message s grants limit IH) as (o' & s1 & E & Hg).
    rewrite E in Hmsg. by injection Hmsg as -> ->.
  - by apply (always_possible anything _ _ _ (tick_gate now base seed active s grants limit IH)).
Qed.
End gate.


Lemma init_sane : sane_history PLANKMicBufferInit.
Proof. intros s. split; apply sane_zero. Qed.


(** ** Real-time reads *)

(** What a reader may load while the control queue runs: sane payloads, any other words. *)
Definition io_known (l : io_loc) (v : Z) : Prop :=
  match l with History (Bits _) => sane_bits v | _ => in_range 64 v end.
Definition hist_known (l : loc) (v : Z) : Prop := io_known (History l) v.

Lemma always_gated_read (known : io_loc -> Z -> Prop) now later frame out count P :
  (forall l v, known l v -> io_known l v) ->
  0 <= count <= PLANKMicMaxIO -> count * 2 <= len out -> Forall sane out ->
  (forall o, length o = length out -> Forall sane o ->
     always known (Load InputLease (fun again => Load InputDeadline (fun deadline => Ret (again, deadline))))
       (fun r => later < snd r -> P (Some o))) ->
  P (Some out) ->
  (forall o, length o = length out -> Forall sane o ->
     match silence o count with Some o => Forall sane o -> P (Some o) | None => True end) ->
  always known (micIPCRead now later frame out count) P.
Proof.
  intros Hk Hc Hl Ho Hlast Hsame Hmute. unfold micIPCRead. cbn [always]. split; [done|]. intros lease _.
  destruct (lease =? 0); [done|]. cbn [always]. split; [done|]. intros deadline _. destruct (deadline <=? now); [done|].
  apply always_bind, (always_within History (fun l v => hist_known l v)); [done|intros l v; apply (Hk (History l))|].
  eapply always_mono; [|apply (always_read hist_known sane); [by intros s v|apply sane_zero|done|done|done]].
  intros r (o & -> & Hlo & Hso). 
  destruct (silence_P sane sane_zero o count) as (z & Ez & Hlz & Hz); [lia|lia|done|].
  pose proof (Hmute o Hlo Hso) as Hmuted. rewrite Ez in Hmuted. cbn [always]. rewrite Ez. split; [done|].
  intros again Hagain. destruct (negb _); [by apply Hmuted|]. cbn [always]. split; [done|]. intros d Hd.
  destruct (Z.leb_spec d later); [by apply Hmuted|]. cbn [always].
  specialize (Hlast o Hlo Hso). cbn [always] in Hlast. destruct Hlast as [_ Hlast].
  destruct (Hlast again Hagain) as [_ Hlast']. by apply (Hlast' d Hd).
Qed.

(** The real-time read behind the gate, whatever the control queue does meanwhile:
    into the zeroed buffer of an IO call it delivers, in bounds and without a loop that
    depends on anyone else, only finite samples in [-1, 1]; and when the input deadline has
    passed by the second reading of the clock it delivers nothing but silence. *)
Theorem mic_ipc_read_sane now later frame count :
  0 <= count <= PLANKMicMaxIO ->
  let zeros := replicate (Z.to_nat (2 * count)) 0 in
  always io_known (micIPCRead now later frame zeros count)
    (fun r => exists out, r = Some out /\ length out = length zeros /\ Forall sane out) /\
  always (fun l v => io_known l v /\ (l = InputDeadline -> v <= later)) (micIPCRead now later frame zeros count)
    (fun r => r = Some zeros).
Proof.
  intros Hc zeros. assert (length zeros = Z.to_nat (2 * count)) as Hlen by apply length_replicate.
  assert (Forall sane zeros) as Hz by (by apply Forall_replicate, sane_zero). split.
  - apply always_gated_read; try done; [lia| | |].
    + intros o Hlo Ho. cbn [always]. split; [done|]. intros again _. split; [done|]. intros d _ _. by exists o.
    + by exists zeros.
    + intros o Hlo Ho. destruct (silence_P sane sane_zero o count) as (z & -> & Hlz & Hzz); [lia|lia|done|].
      intros _. exists z. split_and!; [done|congruence|done].
  - apply always_gated_read; try done; [by intros l v [? _]|lia| |].
    + intros o Hlo Ho. cbn [always]. split; [done|]. intros again _. split; [done|]. intros d [_ Hd] Hlt.
      specialize (Hd eq_refl). cbn in Hlt. lia.
    + intros o Hlo Ho. unfold silence, fill, PLANKMicChannels. rewrite copy_to_Some by (rewrite ?length_replicate; lia).
      intros _. change (Z.to_nat 0) with 0%nat. rewrite take_0, length_replicate, Nat.add_0_l. cbn [app].
      rewrite drop_ge, app_nil_r by lia. unfold zeros. by replace (count * 2) with (2 * count) by lia.
Qed.

Lemma mic_ipc_read_sane_witness :
  always (fun l v => io_known l v /\ (l = InputDeadline -> v <= 50)) (micIPCRead 10 50 480 [0; 0; 0; 0] 2)
    (fun r => r = Some [0; 0; 0; 0]).
Proof. exact (proj2 (mic_ipc_read_sane 10 50 480 2 ltac:(done))). Defined.
