(* ===== verification/MicDriver.v ===== *)
(** * MicDriver: apps/host/macos/audio-device/microphone-driver.c

    The input-only Core Audio plug-in: its property tables (existence, size, value,
    setters), and its operations, which are [HalDriver]'s on the microphone's device.  A
    driver reference is the flag telling whether it is the plug-in's own. *)

From Stdlib Require Import SpecFloat.
From S2P Require Import Prelude.
From S2P Require Import Endian.
From S2P Require Import Float32.
From S2P Require Import Atomic.
From S2P Require Import MicBuffer.
From S2P Require Import HalDriver.

Definition MicDevice : Z := 2.
Definition MicStream : Z := 3.
Definition PLANK_MIC_DEVICE_NAME : string := "PLANK Microphone".
Definition PLANK_MIC_DEVICE_UID : string := "la.instinctual.PLANK.Microphone".
Definition PLANK_MIC_MODEL_UID : string := "la.instinctual.PLANK.Microphone.Model".

Section driver.
Context `{AudioSDK}.

(** [PLANKMicRate] as a double's pattern. *)
Definition mic_rate : Z := 4676829883349860352.

Definition micFormat : stream_format :=
  mkFormat mic_rate kAudioFormatLinearPCM kAudioFormatFlagsNativeFloatPacked
    (PLANKMicChannels * 4) 1 (PLANKMicChannels * 4) PLANKMicChannels 32.

Definition objectExists (object : Z) : bool :=
  (object =? kAudioObjectPlugInObject) || (object =? MicDevice) || (object =? MicStream).

(** [kAudioObjectPropertyElementMain] is 0.  [size] tells whether the result pointer is there. *)
Definition propertySize (object : Z) (address : option property_address) (size : bool) : size_result :=
  match address with
  | None => inl BadObjectError
  | Some address =>
      if negb size || negb (objectExists object) then inl BadObjectError
      else if negb (mElement address =? 0) then inl UnknownPropertyError
      else
        let global := mScope address =s? Global in
        let input := mScope address =s? Input in
        let output := mScope address =s? Output in
        if negb global && negb input && negb output then inl UnknownPropertyError
        else
          let selector := mSelector address in
          first_case
            [ (global, match selector with
                | BaseClass | Class_ | Owner => Some sizeof_UInt32
                | Name | Manufacturer => Some sizeof_CFStringRef
                | OwnedObjects => Some (if object =? MicStream then 0 else sizeof_UInt32)
                | _ => None
                end);
              ((object =? kAudioObjectPlugInObject) && global, match selector with
                | DeviceList | TranslateUIDToDevice => Some sizeof_UInt32
                | ResourceBundle => Some sizeof_CFStringRef
                | _ => None
                end);
              ((object =? MicDevice) && global, match selector with
                | DeviceUID | ModelUID => Some sizeof_CFStringRef
                | TransportType | ClockDomain | DeviceIsAlive | DeviceIsRunning
                | IsHidden | ZeroTimeStampPeriod => Some sizeof_UInt32
                | NominalSampleRate => Some sizeof_Float64
                | AvailableNominalSampleRates => Some sizeof_AudioValueRange
                | ControlList => Some 0
                | RelatedDevices => Some sizeof_UInt32
                | _ => None
                end);
              ((object =? MicDevice) && (input || output), match selector with
                | DeviceCanBeDefaultDevice | DeviceCanBeDefaultSystemDevice
                | Latency | SafetyOffset => Some sizeof_UInt32
                | PreferredChannelsForStereo => if input then Some (sizeof_UInt32 * 2) else None
                | Streams | OwnedObjects => Some (if input then sizeof_UInt32 else 0)
                | _ => None
                end);
              ((object =? MicDevice) && global && (selector =s? Streams), Some sizeof_UInt32);
              ((object =? MicStream) && global, match selector with
                | IsActive | Direction | TerminalType | StartingChannel | Latency => Some sizeof_UInt32
                | VirtualFormat | PhysicalFormat => Some sizeof_AudioStreamBasicDescription
                | AvailableVirtualFormats | AvailablePhysicalFormats => Some sizeof_AudioStreamRangedDescription
                | _ => None
                end) ]
  end.

Definition has (driver : bool) (object : Z) (address : option property_address) : bool :=
  driver && match propertySize object address true with inr _ => true | inl _ => false end.

(** The status and what [*result] holds ([None] when the pointer is null). *)
Definition settable (driver : bool) (object : Z) (address : option property_address) (result : bool)
    : OSStatus * option bool :=
  if negb result then (IllegalOperationError, None)
  else if negb (has driver object address) then (UnknownPropertyError, Some false)
  else match address with
  | None => (noErr, Some false)
  | Some address =>
      let selector := mSelector address in
      (noErr, Some
        (((object =? MicDevice) && (selector =s? NominalSampleRate)) ||
         ((object =? MicStream) && ((selector =s? VirtualFormat) || (selector =s? PhysicalFormat) ||
                                    (selector =s? IsActive)))))
  end.

Definition sizeOf (driver : bool) (object : Z) (address : option property_address) (result : bool) : size_result :=
  if driver then propertySize object address result else inl BadObjectError.

(** The stored value: [value] after the switch, or what a case stores itself. *)
Definition property_value (object : Z) (address : property_address) (running : Z) : OSStatus + property_data :=
  match mSelector address with
  | BaseClass => inr (UInt32s [kAudioObjectClassID])
  | Class_ => inr (UInt32s [if object =? MicDevice then kAudioDeviceClassID
                            else if object =? MicStream then kAudioStreamClassID else kAudioPlugInClassID])
  | Owner => inr (UInt32s [if object =? MicDevice then kAudioObjectPlugInObject
                           else if object =? MicStream then MicDevice else kAudioObjectUnknown])
  | Name => inr (CFString PLANK_MIC_DEVICE_NAME)
  | Manufacturer => inr (CFString "PLANK")
  | OwnedObjects => inr (UInt32s [if object =? MicDevice then MicStream else MicDevice])
  | DeviceList | RelatedDevices => inr (UInt32s [MicDevice])
  | ResourceBundle => inr (CFString EmptyString)
  | DeviceUID => inr (CFString PLANK_MIC_DEVICE_UID)
  | ModelUID => inr (CFString PLANK_MIC_MODEL_UID)
  | TransportType => inr (UInt32s [kAudioDeviceTransportTypeVirtual])
  | ClockDomain | IsHidden | Latency | SafetyOffset | DeviceCanBeDefaultSystemDevice => inr (UInt32s [0])
  | DeviceIsAlive | IsActive | Direction | StartingChannel => inr (UInt32s [1])
  | DeviceIsRunning => inr (UInt32s [if running =? 0 then 0 else 1])
  | DeviceCanBeDefaultDevice => inr (UInt32s [if mScope address =s? Input then 1 else 0])
  | ZeroTimeStampPeriod => inr (UInt32s [PLANKAudioZeroTimeStampPeriod])
  | NominalSampleRate => inr (Float64Value mic_rate)
  | AvailableNominalSampleRates => inr (ValueRange mic_rate mic_rate)
  | Streams => inr (UInt32s [MicStream])
  | PreferredChannelsForStereo => inr (UInt32s [1; 2])
  | TerminalType => inr (UInt32s [kAudioStreamTerminalTypeMicrophone])
  | VirtualFormat | PhysicalFormat => inr (Format micFormat)
  | AvailableVirtualFormats | AvailablePhysicalFormats => inr (RangedFormat micFormat mic_rate mic_rate)
  | _ => inl UnknownPropertyError
  end.

(** [TranslateUIDToDevice], the case that reads the qualifier. *)
Definition translate (qualifierSize : Z) (qualifier : option cf_ref) : OSStatus + property_data :=
  match qualifier with
  | Some uid =>
      if negb (qualifierSize =? sizeof_CFStringRef) then inl BadPropertySizeError
      else inr (UInt32s [match uid with
                         | StringRef s => if String.eqb s PLANK_MIC_DEVICE_UID then MicDevice else kAudioObjectUnknown
                         | _ => kAudioObjectUnknown
                         end])
  | None => inl BadPropertySizeError
  end.

Definition get (driver : bool) (object : Z) (address : option property_address) (qualifierSize : Z)
    (qualifier : option cf_ref) (capacity : Z) (actual data : bool) (running : Z) : answer :=
  if negb actual then mkAnswer IllegalOperationError None None
  else match sizeOf driver object address true with
  | inl status => mkAnswer status (Some 0) None
  | inr needed =>
      if (capacity <? needed) || (negb (needed =? 0) && negb data) then mkAnswer BadPropertySizeError (Some 0) None
      else if needed =? 0 then mkAnswer noErr (Some 0) None
      else match address with
      | None => mkAnswer BadObjectError (Some 0) None
      | Some address =>
          match (if mSelector address =s? TranslateUIDToDevice then translate qualifierSize qualifier
                 else property_value object address running) with
          | inl status => mkAnswer status (Some needed) None
          | inr d => mkAnswer noErr (Some needed) (Some d)
          end
      end
  end.

(** Whether a format read at the start of [data] is [micFormat]. *)
Definition same_format (data : list Z) : option bool :=
  data ← copy_from data 0 sizeof_AudioStreamBasicDescription;
  rate ← read_float64 data 0; id ← read_uint32 data 8; flags ← read_uint32 data 12;
  packet ← read_uint32 data 16; frames ← read_uint32 data 20; frame ← read_uint32 data 24;
  channels ← read_uint32 data 28; bits ← read_uint32 data 32;
  Some (double_equal rate mic_rate && (id =? mFormatID micFormat) && (flags =? mFormatFlags micFormat) &&
        (packet =? mBytesPerPacket micFormat) && (frames =? 1) && (frame =? PLANKMicChannels * 4) &&
        (channels =? PLANKMicChannels) && (bits =? 32)).

(** [None] is a read outside the caller's [data]. *)
Definition set (driver : bool) (object : Z) (address : option property_address) (size : Z) (data : option (list Z))
    : option OSStatus :=
  match settable driver object address true, address with
  | (noErr, Some true), Some a =>
      match propertySize object address true, data with
      | inr needed, Some data =>
          if negb (size =? needed) then Some BadPropertySizeError
          else if mSelector a =s? NominalSampleRate then
            rate ← read_float64 data 0;
            Some (if double_equal rate mic_rate then noErr else UnsupportedFormatError)
          else if mSelector a =s? IsActive then
            active ← read_uint32 data 0;
            Some (if active =? 1 then noErr else UnsupportedOperationError)
          else
            same ← same_format data;
            Some (if same : bool then noErr else UnsupportedFormatError)
      | _, _ => Some BadPropertySizeError
      end
  | (noErr, _), _ => Some UnsupportedOperationError
  | (status, _), _ => Some status
  end.

(** ** The plug-in's object and its clients *)

(** The static variables besides the property constants. *)
Record mic_driver := mkDriver {
  core : hal; references : Z; ticksPerFrame : spec_float; micBuffer : mem loc }.

Definition with_core (d : mic_driver) (h : hal) : mic_driver :=
  mkDriver h (references d) (ticksPerFrame d) (micBuffer d).

Definition load_driver : mic_driver := mkDriver hal_zero 1 (S754_zero false) (fun _ => 0).

(** [query]; [uuid] tells whether the requested interface is one of the two supported.
    The result is the status and the pointer stored (null: false; no store: [None]). *)
Definition query (driver uuid result : bool) (d : mic_driver) : HRESULT * option bool * mic_driver :=
  if negb result then (E_POINTER, None, d)
  else if negb driver then (E_NOINTERFACE, Some false, d)
  else if negb uuid then (E_NOINTERFACE, Some false, d)
  else (S_OK, Some true, mkDriver (core d) (u32 (references d + 1)) (ticksPerFrame d) (micBuffer d)).

Definition retain (driver : bool) (d : mic_driver) : Z * mic_driver :=
  let (value, references) := HalDriver.retain driver (references d) in
  (value, mkDriver (core d) references (ticksPerFrame d) (micBuffer d)).

Definition release (driver : bool) (d : mic_driver) : Z * mic_driver :=
  let (value, references) := HalDriver.release driver (references d) in
  (value, mkDriver (core d) references (ticksPerFrame d) (micBuffer d)).

(** [type] tells whether the type asked for is [kAudioServerPlugInTypeUUID]. *)
Definition PLANKMicrophoneFactory (type : bool) : bool := type.

(** [denom] and [numer] are the machine's timebase. *)
Definition initialize (driver owner : bool) (denom numer now : Z) (d : mic_driver) : OSStatus * mic_driver :=
  let (status, h) := HalDriver.initialize driver owner now (core d) in
  (status, if bool_decide (status = noErr) && negb (host (core d))
           then mkDriver h (references d) (ticks_per_frame PLANKMicRate denom numer) PLANKMicBufferInit
           else with_core d h).

(** Device creation: the status and the object stored when [result] is there. *)
Definition create (result : bool) : OSStatus * option Z :=
  (UnsupportedOperationError, if result then Some kAudioObjectUnknown else None).
Definition destroy : OSStatus := UnsupportedOperationError.

Definition addClient (driver : bool) (device : Z) (info : option Z) (d : mic_driver) : OSStatus * mic_driver :=
  let (status, h) := HalDriver.addClient driver (device =? MicDevice) info (core d) in (status, with_core d h).

Definition removeClient (driver : bool) (device : Z) (info : option Z) (d : mic_driver) : OSStatus * mic_driver :=
  let (status, h) := HalDriver.removeClient driver (device =? MicDevice) info (core d) in (status, with_core d h).

Definition configuration (driver : bool) (device : Z) : OSStatus :=
  if driver && (device =? MicDevice) then UnsupportedOperationError else BadObjectError.

(** Starting the first client also empties the sample history. *)
Definition changeIO (driver : bool) (device client : Z) (start : bool) (now : Z) (d : mic_driver)
    : option (OSStatus * mic_driver) :=
  let '(status, h, restarted) := HalDriver.changeIO driver (device =? MicDevice) client start now (core d) in
  if restarted : bool then
    '(_, history) ← run (PLANKMicBufferReset 0) (micBuffer d);
    Some (status, mkDriver h (references d) (ticksPerFrame d) history)
  else Some (status, with_core d h).

Definition startIO (driver : bool) (device client now : Z) (d : mic_driver) : option (OSStatus * mic_driver) :=
  changeIO driver device client true now d.
Definition stopIO (driver : bool) (device client now : Z) (d : mic_driver) : option (OSStatus * mic_driver) :=
  changeIO driver device client false now d.

Definition timestamp (driver : bool) (device : Z) (outputs : bool) (now : Z) (d : mic_driver)
    : OSStatus * option (spec_float * Z * Z) :=
  HalDriver.timestamp driver (device =? MicDevice) outputs (ticksPerFrame d) now (core d).

(** ** Input *)

(** [*will] and [*inPlace]. *)
Definition willIO (driver : bool) (device : Z) (operation : io_operation) (outputs : bool)
    : OSStatus * option (bool * bool) :=
  if negb driver || negb (device =? MicDevice) || negb outputs then (BadObjectError, None)
  else (noErr, Some (bool_decide (operation = ReadInput), true)).

Definition boundaryIO (driver : bool) (device frames : Z) : OSStatus :=
  if driver && (device =? MicDevice) && (frames <=? PLANKMicMaxIO) then noErr else IllegalOperationError.

(** The guards of [performIO] after its [memset]: [position] is [mInputTime.mSampleTime],
    [valid] its flag; the bound is the double of 2^63 - 1, which is 2^63. *)
Definition sample_position (valid : bool) (position : spec_float) : option Z :=
  match position with
  | S754_nan | S754_infinity _ => None
  | _ => if negb valid || SFltb position (S754_zero false) || SFltb (double_of_int (UINT64_MAX / 2)) position
         then None else Some (unsigned_of_double position)
  end.

(** [read] is the build's reader of the history: [PLANKMicBufferRead], or the gated
    [micIPCRead]; [main] is the caller's buffer and [active] the value of [running]. *)
Definition performIO {L} (read : Z -> list Z -> Z -> prog L (option (list Z)))
    (driver : bool) (device stream : Z) (operation : io_operation) (frames : Z)
    (cycle : option (bool * spec_float)) (main : option (list Z)) (active : Z)
    : prog L (OSStatus * option (list Z)) :=
  match main, cycle with
  | Some out, Some (valid, position) =>
      if negb driver || negb (device =? MicDevice) || negb (stream =? MicStream) ||
         negb (bool_decide (operation = ReadInput)) || (PLANKMicMaxIO <? frames)
      then Ret (IllegalOperationError, main)
      else match fill out 0 (frames * PLANKMicChannels) 0 with
      | None => Undefined
      | Some out =>
          match sample_position valid position with
          | None => Ret (noErr, Some out)
          | Some frame =>
              if active =? 0 then Ret (noErr, Some out)
              else bind (read frame out frames) (fun out => Ret (noErr, out))
          end
      end
  | _, _ => Ret (IllegalOperationError, main)
  end.
(** ** Property reads *)

(** The objects of the driver. *)
Lemma mic_object_cases object :
  objectExists object = true -> object = 1 \/ object = 2 \/ object = 3.
Proof. unfold objectExists. rewrite !orb_true_iff, !Z.eqb_eq. tauto. Qed.

Lemma mic_property_error object address size e : propertySize object address size = inl e -> e <> noErr.
Proof.
  unfold propertySize. destruct address as [address|]; [|by intros [= <-]].
  destruct (_ || _); [by intros [= <-]|]. destruct (negb _); [by intros [= <-]|].
  destruct (_ && _); [by intros [= <-]|]. by intros ->%first_case_error.
Qed.

(** A property that has a size has a value of that size, unless the size is zero. *)
Lemma mic_sized_value object address qualifierSize qualifier running needed :
  propertySize object (Some address) true = inr needed ->
  0 <= needed <= sizeof_AudioStreamRangedDescription /\
  (needed <> 0 ->
   match (if mSelector address =s? TranslateUIDToDevice then translate qualifierSize qualifier
          else property_value object address running) with
   | inl e => mSelector address = TranslateUIDToDevice /\ e = BadPropertySizeError /\
              (qualifierSize <> sizeof_CFStringRef \/ qualifier = None)
   | inr d => data_size d = needed
   end).
Proof.
  unfold propertySize. destruct (objectExists object) eqn:Ho; cbn [negb orb]; [|done].
  destruct address as [selector scope element]. cbn [mElement mScope mSelector].
  destruct (element =? 0); cbn [negb]; [|done].
  apply mic_object_cases in Ho as [->|[->| ->]];
    destruct scope, selector; cbn; intros [= <-]; (split; [done|]);
    try done; intros _; change (TranslateUIDToDevice =s? TranslateUIDToDevice) with true;
    (destruct qualifier as [uid|]; cbn; [|by auto]);
    unfold sizeof_CFStringRef in *; destruct (Z.eqb_spec qualifierSize 8); cbn; auto.
Qed.

End driver.

(** C29: GetPropertyData against the table of sizes, for every object, address,
    qualifier and capacity.  A property the driver does not have fails with the status of
    GetPropertyDataSize and an actual size of zero.  One it has answers with exactly the
    announced number of bytes, of at most 56, when the buffer has room for them (nothing
    when the size is zero), and with a size error otherwise; the only other failure is a
    UID translation without its qualifier.  No property is announced and then refused as unknown. *)
Theorem mic_property_exact `{AudioSDK} driver object address qualifierSize qualifier capacity data running :
  let a := get driver object address qualifierSize qualifier capacity true data running in
  match sizeOf driver object address true with
  | inl e => a = mkAnswer e (Some 0) None /\ has driver object address = false /\ e <> noErr
  | inr needed =>
      has driver object address = true /\ 0 <= needed <= 56 /\
      if (capacity <? needed) || (negb (needed =? 0) && negb data)
      then a = mkAnswer BadPropertySizeError (Some 0) None
      else if needed =? 0 then a = mkAnswer noErr (Some 0) None
      else (exists d, a = mkAnswer noErr (Some needed) (Some d) /\ data_size d = needed) \/
           (a = mkAnswer BadPropertySizeError (Some needed) None /\
            (qualifierSize <> sizeof_CFStringRef \/ qualifier = None) /\
            option_map mSelector address = Some TranslateUIDToDevice)
  end.
Proof.
  cbv zeta. unfold get, sizeOf, has. cbn [negb]. destruct driver; cbn [andb]; [|done].
  destruct (propertySize object address true) as [e|needed] eqn:Hs.
  { split_and!; [done|done|]. apply mic_property_error in Hs. done. }
  destruct address as [address|]; [|done].
  destruct (mic_sized_value object address qualifierSize qualifier running needed Hs) as [Hn Hv].
  split_and!; [done|apply Hn|apply Hn|]. destruct (_ || _); [done|].
  destruct (Z.eqb_spec needed 0) as [->|Hne]; [done|]. specialize (Hv Hne).
  destruct (if mSelector address =s? TranslateUIDToDevice then translate qualifierSize qualifier
            else property_value object address running) as [e|d]; [|left; by exists d].
  destruct Hv as (Ht & -> & Hq). right. cbn. by rewrite Ht.
Qed.

(** ** Property writes *)

Lemma le_value_eq l v : bytes l -> in_range (8 * len l) v -> (le_value l = v <-> l = le_bytes (length l) v).
Proof.
  intros Hl Hv. split.
  - intros <-. by rewrite le_bytes_value.
  - intros E. rewrite E at 1. by apply le_value_bytes.
Qed.

(** Data of a format's size: eight bytes of rate, then eight words. *)
Definition is_word (l : list Z) : Prop := length l = 4%nat /\ bytes l.

Lemma concat_words ls : Forall is_word ls -> length (concat ls) = (4 * length ls)%nat.
Proof.
  induction 1 as [|l ls [Hl _] _ IH]; [done|]. cbn [concat length]. rewrite length_app, Hl, IH. lia.
Qed.

Lemma words_of data (n : nat) :
  bytes data -> length data = (4 * n)%nat ->
  exists ls, data = concat ls /\ Forall is_word ls /\ length ls = n.
Proof.
  revert data. induction n as [|n IH]; intros data Hb Hl.
  { exists []. apply nil_length_inv in Hl as ->. done. }
  destruct (IH (drop 4 data)) as (ls & E & Hls & Hn); [by apply Forall_drop|rewrite length_drop; lia|].
  exists (take 4 data :: ls). cbn [concat length]. rewrite <- E, take_drop. split_and!; [done| |lia].
  apply Forall_cons. split; [|done]. split; [rewrite length_take; lia|by apply Forall_take].
Qed.

Lemma read_word rate ls (k : nat) l i :
  Forall is_word ls -> ls !! k = Some l -> i = len rate + 4 * Z.of_nat k ->
  read_le (rate ++ concat ls) i 4 = Some (le_value l).
Proof.
  intros Hls Hk ->. pose proof (take_drop_middle _ _ _ Hk) as E. rewrite <- E in Hls |- *.
  apply Forall_app in Hls as [Hpre Hls]. apply Forall_cons in Hls as [[Hl Hb] _].
  rewrite concat_app, app_assoc. cbn [concat]. apply read_le_app; [done|done|lia|].
  apply lookup_lt_Some in Hk. rewrite length_app, concat_words, length_take by done. lia.
Qed.

Lemma words_equal ls vs :
  Forall is_word ls -> Forall (in_range 32) vs -> length ls = length vs ->
  concat ls = concat (map (le_bytes 4) vs) <-> Forall2 (fun l v => le_value l = v) ls vs.
Proof.
  intros Hls. revert vs. induction Hls as [|l ls [Hl Hb] Hls IH]; intros [|v vs] Hvs Hn; try done.
  apply Forall_cons in Hvs as [Hv Hvs]. cbn [map concat]. rewrite Forall2_cons, <- IH by (done || (cbn in Hn; lia)).
  rewrite (le_value_eq l v), Hl by (rewrite ?Hl; done). split.
  - intros E. apply app_inj_1 in E; [done|]. by rewrite Hl, le_bytes_length.
  - by intros [-> ->].
Qed.

Lemma double_equal_rate b : double_equal b mic_rate = (b =? mic_rate).
Proof.
  unfold double_equal. change (double_isnan mic_rate) with false. change (mic_rate mod 2 ^ 63 =? 0) with false.
  rewrite andb_false_r, orb_false_r, andb_true_r. destruct (Z.eqb_spec b mic_rate) as [->|]; [done|apply andb_false_r].
Qed.

Lemma same_format_spec `{AudioSDK} data :
  bytes data -> length data = 40%nat ->
  same_format data = Some (bool_decide
    (take 36 data = le_bytes 8 mic_rate ++ concat (map (le_bytes 4) (format_words micFormat)))).
Proof.
  intros Hb Hl. unfold same_format, sizeof_AudioStreamBasicDescription.
  rewrite copy_from_take by lia. change (Z.to_nat 40) with 40%nat. rewrite firstn_all2 by lia. cbn [mbind option_bind].
  rewrite <- (take_drop 8 data) in Hb |- *. apply Forall_app in Hb as [Hbr Hb].
  destruct (words_of (drop 8 data) 8) as (ls & -> & Hls & Hn); [done|rewrite length_drop; lia|].
  assert (length (take 8 data) = 8%nat) as Hlr by (rewrite length_take; lia).
  set (rate := take 8 data) in *. clearbody rate. clear Hl Hb data.
  unfold read_float64, read_uint32.
  assert (read_le (rate ++ concat ls) 0 8 = Some (le_value rate)) as -> by (by apply (read_le_app [])).
  do 8 (destruct ls as [|? ls]; [done|]). destruct ls; [|done].
  cbn [mbind option_bind].
  rewrite !(read_word rate _ 0 _ 8 Hls), !(read_word rate _ 1 _ 12 Hls), !(read_word rate _ 2 _ 16 Hls),
    !(read_word rate _ 3 _ 20 Hls), !(read_word rate _ 4 _ 24 Hls), !(read_word rate _ 5 _ 28 Hls),
    !(read_word rate _ 6 _ 32 Hls) by (reflexivity || lia).
  cbn [mbind option_bind]. f_equal. rewrite double_equal_rate.
  apply eq_true_iff_eq. rewrite bool_decide_eq_true, !andb_true_iff, !Z.eqb_eq.
  change [l; l0; l1; l2; l3; l4; l5; l6] with ([l; l0; l1; l2; l3; l4; l5] ++ [l6]) in *.
  apply Forall_app in Hls as [Hls _]. rewrite concat_app, app_assoc, take_app_length'.
  2: { rewrite length_app, concat_words, Hlr by done. done. }
  rewrite le_value_eq, Hlr by (rewrite ?Hlr; done).
  pose proof sdk_words as Hsdk. apply Forall_cons in Hsdk as [H1 Hsdk]. apply Forall_cons in Hsdk as [H2 _].
  assert (Forall (in_range 32) (format_words micFormat)) as Hr.
  { unfold format_words, micFormat. cbn [mFormatID mFormatFlags mBytesPerPacket mFramesPerPacket mBytesPerFrame
      mChannelsPerFrame mBitsPerChannel]. repeat (apply Forall_cons; split); done. }
  pose proof (words_equal [l; l0; l1; l2; l3; l4; l5] (format_words micFormat) Hls Hr eq_refl) as Hw.
  unfold format_words in Hw at 2. rewrite !Forall2_cons in Hw. split.
  - intros. destruct_and!. subst rate. f_equal. apply Hw. split_and!; done.
  - intros E. apply app_inj_1 in E as [-> E]; [|done]. apply Hw in E. destruct_and!. split_and!; done.
Qed.

(** The properties that have setters. *)
Lemma settable_inv `{AudioSDK} driver object a :
  settable driver object (Some a) true = (noErr, Some true) ->
  driver = true /\
  ((object = MicDevice /\ mSelector a = NominalSampleRate) \/
   (object = MicStream /\ (mSelector a = VirtualFormat \/ mSelector a = PhysicalFormat \/ mSelector a = IsActive))) /\
  exists needed, propertySize object (Some a) true = inr needed /\
    needed = match mSelector a with NominalSampleRate => 8 | IsActive => 4 | _ => 40 end.
Proof.
  unfold settable, has. cbn [negb]. destruct driver; cbn [andb negb]; [|done].
  destruct (propertySize object (Some a) true) as [|needed] eqn:Hs; cbn [negb]; [done|]. intros [= Hw].
  split; [done|].
  apply orb_true_iff in Hw as [Hw|Hw]; apply andb_true_iff in Hw as [Ho%Z.eqb_eq Hw]; subst object.
  - apply bool_decide_eq_true in Hw. split; [by left|]. exists needed. split; [done|]. rewrite Hw.
    destruct a as [sel sc el]. cbn in Hw. subst sel. revert Hs. unfold propertySize. cbn.
    destruct (el =? 0), sc; vm_compute; congruence.
  - rewrite !orb_true_iff, !bool_decide_eq_true in Hw. split; [right; tauto|]. exists needed. split; [done|].
    destruct a as [sel sc el]. cbn [mSelector] in *. revert Hs. unfold propertySize. cbn [mElement mScope mSelector].
    destruct (el =? 0); [|done]. destruct Hw as [[-> | ->]| ->]; destruct sc; vm_compute; congruence.
Qed.

Lemma double_rate_spec data :
  bytes data -> length data = 8%nat ->
  exists v, read_float64 data 0 = Some v /\ (double_equal v mic_rate = true <-> data = le_bytes 8 mic_rate).
Proof.
  intros Hb Hl. exists (le_value data). split.
  - unfold read_float64. rewrite <- (app_nil_r data) at 1. by apply (read_le_app []).
  - rewrite double_equal_rate, Z.eqb_eq, le_value_eq, Hl by (rewrite ?Hl; done). done.
Qed.

Lemma uint32_spec data v :
  bytes data -> length data = 4%nat -> in_range 32 v ->
  exists w, read_uint32 data 0 = Some w /\ (w = v <-> data = le_bytes 4 v).
Proof.
  intros Hb Hl Hv. exists (le_value data). split.
  - unfold read_uint32. rewrite <- (app_nil_r data) at 1. apply (read_le_app []); done || lia.
  - rewrite le_value_eq, Hl by (rewrite ?Hl; done). done.
Qed.

(** The outcome of a write of format-sized data. *)
Lemma format_written `{AudioSDK} data :
  bytes data -> length data = 40%nat ->
  exists d img st, @inr OSStatus _ (Format micFormat) = inr d /\ image d = Some img /\
    (same ← same_format data; Some (if same : bool then noErr else UnsupportedFormatError)) = Some st /\
    (st = noErr <-> len data = len img /\ take 36 data = take 36 img).
Proof.
  intros Hb Hl. eexists _, _, _. split; [reflexivity|]. split; [reflexivity|].
  rewrite (same_format_spec data Hb Hl). cbn [mbind option_bind]. split; [reflexivity|].
  rewrite Hl. rewrite app_assoc, (take_app_length' _ _ 36) by reflexivity.
  destruct (bool_decide _) eqn:E; [apply bool_decide_eq_true in E|apply bool_decide_eq_false in E]; by split; [|intros [_ ?]].
Qed.

(** SetPropertyData changes nothing and says so: a property that is not settable is
    refused (an unknown one as unknown), and a settable one (sample rate, the stream's
    formats, its activation) accepts exactly the bytes that GetPropertyData returns for it,
    a format's reserved word aside; any other size or value is refused.  The caller's data
    are never read beyond the size it gave. *)
Theorem mic_set_exact `{AudioSDK} driver object a size data running :
  bytes data -> len data = size ->
  match settable driver object (Some a) true with
  | (noErr, Some true) =>
      exists d img st, property_value object a running = inr d /\ image d = Some img /\
        set driver object (Some a) size (Some data) = Some st /\
        (st = noErr <-> len data = len img /\ take 36 data = take 36 img)
  | (noErr, _) => set driver object (Some a) size (Some data) = Some UnsupportedOperationError
  | (e, _) => set driver object (Some a) size (Some data) = Some e /\ e = UnknownPropertyError
  end.
Proof.
  intros Hb Hsz. unfold set. destruct (settable driver object (Some a) true) as [st w] eqn:Hset.
  destruct w as [[]|]; cycle 1.
  { unfold settable in Hset. cbn [negb] in Hset. destruct (has _ _ _); cbn [negb] in Hset; by simplify_eq. }
  { unfold settable in Hset. cbn [negb] in Hset. destruct (has _ _ _); done. }
  assert (st = noErr) as ->.
  { unfold settable in Hset. cbn [negb] in Hset. destruct (has _ _ _); by injection Hset. }
  apply settable_inv in Hset as (_ & Hsel & needed & -> & Hn). unfold property_value.
  destruct a as [sel sc el]. cbn [mSelector mScope] in *.
  destruct (Z.eqb_spec size needed) as [Hz|Hz]; cycle 1.
  { destruct Hsel as [[-> ->]|[-> [->|[->| ->]]]]; subst needed;
      (eexists _, _, _; split; [reflexivity|]; split; [reflexivity|]; split; [reflexivity|]);
      (split; [done|]); intros [Hl _]; cbn in Hl; lia. }
  cbn [negb]. rewrite <- Hsz in Hz.
  destruct Hsel as [[-> ->]|[-> [Hs|[Hs|Hs]]]]; try (rewrite Hs in *; clear Hs); subst needed.
  - destruct (double_rate_spec data Hb) as (v & Hr & Hv); [lia|].
    change (NominalSampleRate =s? NominalSampleRate) with true. cbv iota. rewrite Hr.
    eexists _, _, _. split; [reflexivity|]. split; [reflexivity|]. split; [reflexivity|].
    rewrite (firstn_all2 data) by lia. split.
    + destruct (double_equal v mic_rate); [|done]. intros _. by rewrite (proj1 Hv eq_refl).
    + intros [_ E]. by rewrite (proj2 Hv E).
  - apply (format_written data); done || lia.
  - apply (format_written data); done || lia.
  - destruct (uint32_spec data 1 Hb) as (v & Hr & Hv); [lia|done|].
    change (IsActive =s? NominalSampleRate) with false. change (IsActive =s? IsActive) with true. cbv iota. rewrite Hr.
    eexists _, _, _. split; [reflexivity|]. split; [reflexivity|]. split; [reflexivity|].
    rewrite (firstn_all2 data) by lia. split.
    + destruct (Z.eqb_spec v 1) as [Hv1|]; [|done]. intros _. by rewrite (proj1 Hv Hv1).
    + intros [_ E]. by rewrite (proj2 Hv E).
Qed.

Lemma mic_set_exact_witness :
  exists d img st, property_value (H := documented_sdk) MicStream (mkAddress IsActive Global 0) 0 = inr d /\
    image d = Some img /\
    set (H := documented_sdk) true MicStream (Some (mkAddress IsActive Global 0)) 4 (Some [1; 0; 0; 0]) = Some st /\
    (st = noErr <-> len [1; 0; 0; 0] = len img /\ take 36 [1; 0; 0; 0] = take 36 img).
Proof.
  apply (mic_set_exact (H := documented_sdk) true MicStream (mkAddress IsActive Global 0) 4 [1; 0; 0; 0] 0); concrete.
Defined.

(** ** Input *)

(** The build without the broker reads the history directly. *)
Definition direct_read (frame : Z) (out : list Z) (frames : Z) : prog loc (option (list Z)) :=
  bind (PLANKMicBufferRead frame (Some out) frames) (fun r => Ret (snd r)).

Lemma digits_bound m : Z.pos m < 2 ^ Z.pos (digits2_pos m).
Proof.
  induction m as [m IH|m IH|]; cbn [digits2_pos]; [| |done];
    rewrite Pos2Z.inj_succ, Z.pow_succ_r by lia; lia.
Qed.

Lemma shiftl_11 (m : positive) : Z.pos m <= 4503599627370496 -> 0 <= Z.shiftl (Z.pos m) 11 <= 2 ^ 63.
Proof. intros Hm. rewrite Z.shiftl_mul_pow2 by lia. lia. Qed.

(** A position in range becomes a frame number of at most 2^63. *)
Lemma sample_position_range valid position frame :
  valid_binary 53 1024 position = true -> sample_position valid position = Some frame -> 0 <= frame <= 2 ^ 63.
Proof.
  intros Hb. unfold sample_position. destruct position as [s| | |s m e]; try done.
  - destruct (_ || _); [done|]. intros [= <-]. cbn. lia.
  - destruct (negb valid); [done|]. cbn [orb]. destruct s; [done|].
    change (double_of_int (UINT64_MAX / 2)) with (S754_finite false 4503599627370496 11).
    cbn [SFltb SFcompare orb unsigned_of_double] in *. unfold SFltb. cbn [SFcompare].
    apply andb_true_iff in Hb as [Hc _]. apply Z.eqb_eq in Hc. unfold SpecFloat.fexp in Hc.
    assert (Z.pos m < 2 ^ 53) as Hm.
    { eapply Z.lt_le_trans; [apply digits_bound|]. apply Z.pow_le_mono_r; lia. }
    destruct (Z.compare_spec 11 e) as [<-|Hlt|Hgt]; cbv iota.
    + change (Pos.compare_cont Eq 4503599627370496 m) with (Pos.compare 4503599627370496 m).
      destruct (Pos.compare 4503599627370496 m) eqn:E; [|discriminate|];
        intros H; injection H as <-; apply shiftl_11.
      * apply Pos.compare_eq in E. subst m. apply Z.le_refl.
      * apply Pos.compare_gt_iff in E. apply Z.lt_le_incl. exact E.
    + done.
    + intros [= <-]. destruct (Z.le_gt_cases 0 e).
      * rewrite Z.shiftl_mul_pow2 by lia. split; [lia|].
        transitivity (2 ^ 53 * 2 ^ 10); [|done].
        apply Z.mul_le_mono_nonneg; [lia|lia|apply Z.pow_nonneg; lia|apply Z.pow_le_mono_r; lia].
      * rewrite <- (Z.opp_involutive e), <- Z.shiftr_opp_r, Z.opp_involutive, Z.shiftr_div_pow2 by lia.
        pose proof (Z.pow_pos_nonneg 2 (- e)). split; [apply Z.div_pos; lia|]. transitivity (Z.pos m); [|lia].
        apply Z.div_le_upper_bound; nia.
Qed.

Definition io_admitted (driver : bool) (device stream : Z) (operation : io_operation) : bool :=
  driver && (device =? MicDevice) && (stream =? MicStream) && bool_decide (operation = ReadInput).


