(* ===== verification/OutputDriver.v ===== *)
(** * OutputDriver: apps/host/macos/audio-device/output-driver.c, output-format.h

    The output-only Core Audio plug-in: a silent device whose final mix is discarded, with
    a volume and a mute control.  Its client table and clock are [HalDriver]'s; this file
    has its property tables, its controls and the notifications they send to the host. *)

From Stdlib Require Import SpecFloat.
From S2P Require Import Prelude.
From S2P Require Import Endian.
From S2P Require Import Float32.
From S2P Require Import HalDriver.

Definition OutputDevice : Z := 2.
Definition OutputStream : Z := 3.
Definition OutputVolume : Z := 4.
Definition OutputMute : Z := 5.
Definition PLANK_OUTPUT_DEVICE_NAME : string := "PLANK Output".
Definition PLANK_OUTPUT_DEVICE_UID : string := "la.instinctual.PLANK.Output".
Definition PLANK_OUTPUT_MODEL_UID : string := "la.instinctual.PLANK.Output.Model".
Definition PLANKOutputRate : Z := 48000.
Definition PLANKOutputChannels : Z := 2.
Definition PLANKOutputMaxIO : Z := 8192.

(** [outputGain] (a float's pattern) and [outputMute]. *)
Record levels := mkLevels { outputGain : Z; outputMute : Z }.

(** A call of the host's [PropertiesChanged]: the object and the addresses. *)
Definition notification : Type := Z * list property_address.

Section driver.
(** [log10f] and [powf] of the C library on patterns. *)
Context `{AudioSDK} (log10f : Z -> Z) (powf : Z -> Z -> Z).

Definition output_rate : Z := 4676829883349860352.
Definition minus_96_double : Z := 13859827853232701440.
(** The literals -96, 20, 10 and 0.000015848932f. *)
Definition minus_96 : Z := 3267362816.
Definition twenty : Z := 1101004800.
Definition ten : Z := 1092616192.
Definition quietest : Z := 931459923.

Definition outputFormat : stream_format :=
  mkFormat output_rate kAudioFormatLinearPCM kAudioFormatFlagsNativeFloatPacked
    (PLANKOutputChannels * 4) 1 (PLANKOutputChannels * 4) PLANKOutputChannels 32.

Definition objectExists (object : Z) : bool :=
  (object =? kAudioObjectPlugInObject) || (object =? OutputDevice) || (object =? OutputStream) ||
  (object =? OutputVolume) || (object =? OutputMute).

Definition propertySize (object : Z) (address : option property_address) (size : bool) : size_result :=
  match address with
  | None => inl BadObjectError
  | Some address =>
      if negb size || negb (objectExists object) then inl BadObjectError
      else if negb (mElement address =? 0) then inl UnknownPropertyError
      else
        let global := mScope address =s? Global in
        let input := mScope address =s? Input in
        let output := mScope address =s? Output in
        if negb global && negb input && negb output then inl UnknownPropertyError
        else
          let selector := mSelector address in
          first_case
            [ (global, match selector with
                | BaseClass | Class_ | Owner => Some sizeof_UInt32
                | Name | Manufacturer => Some sizeof_CFStringRef
                | OwnedObjects => Some (if object =? OutputDevice then 3 * sizeof_UInt32
                                        else if object =? kAudioObjectPlugInObject then sizeof_UInt32 else 0)
                | _ => None
                end);
              ((object =? kAudioObjectPlugInObject) && global, match selector with
                | DeviceList | TranslateUIDToDevice => Some sizeof_UInt32
                | ResourceBundle => Some sizeof_CFStringRef
                | _ => None
                end);
              ((object =? OutputDevice) && global, match selector with
                | DeviceUID | ModelUID => Some sizeof_CFStringRef
                | TransportType | ClockDomain | DeviceIsAlive | DeviceIsRunning
                | IsHidden | ZeroTimeStampPeriod => Some sizeof_UInt32
                | NominalSampleRate => Some sizeof_Float64
                | AvailableNominalSampleRates => Some sizeof_AudioValueRange
                | ControlList => Some (2 * sizeof_UInt32)
                | RelatedDevices => Some sizeof_UInt32
                | _ => None
                end);
              ((object =? OutputDevice) && (input || output), match selector with
                | DeviceCanBeDefaultDevice | DeviceCanBeDefaultSystemDevice
                | Latency | SafetyOffset => Some sizeof_UInt32
                | PreferredChannelsForStereo => if output then Some (sizeof_UInt32 * 2) else None
                | Streams | OwnedObjects => Some (if output then sizeof_UInt32 else 0)
                | _ => None
                end);
              ((object =? OutputDevice) && global && (selector =s? Streams), Some sizeof_UInt32);
              ((object =? OutputDevice) && output, match selector with
                | VolumeScalar => Some sizeof_Float32
                | Mute => Some sizeof_UInt32
                | _ => None
                end);
              (((object =? OutputVolume) || (object =? OutputMute)) && global, match selector with
                | ControlScope | ControlElement => Some sizeof_UInt32
                | BooleanValue => if object =? OutputMute then Some sizeof_UInt32 else None
                | ScalarValue | DecibelValue | ConvertScalarToDecibels | ConvertDecibelsToScalar =>
                    if object =? OutputVolume then Some sizeof_Float32 else None
                | DecibelRange => if object =? OutputVolume then Some sizeof_AudioValueRange else None
                | _ => None
                end);
              ((object =? OutputStream) && global, match selector with
                | IsActive | Direction | TerminalType | StartingChannel | Latency => Some sizeof_UInt32
                | VirtualFormat | PhysicalFormat => Some sizeof_AudioStreamBasicDescription
                | AvailableVirtualFormats | AvailablePhysicalFormats => Some sizeof_AudioStreamRangedDescription
                | _ => None
                end) ]
  end.

Definition has (driver : bool) (object : Z) (address : option property_address) : bool :=
  driver && match propertySize object address true with inr _ => true | inl _ => false end.

Definition settable (driver : bool) (object : Z) (address : option property_address) (result : bool)
    : OSStatus * option bool :=
  if negb result then (IllegalOperationError, None)
  else if negb (has driver object address) then (UnknownPropertyError, Some false)
  else match address with
  | None => (noErr, Some false)
  | Some address =>
      let selector := mSelector address in
      (noErr, Some
        (((object =? OutputDevice) && ((selector =s? NominalSampleRate) || (selector =s? VolumeScalar) ||
                                       (selector =s? Mute))) ||
         ((object =? OutputVolume) && ((selector =s? ScalarValue) || (selector =s? DecibelValue))) ||
         ((object =? OutputMute) && (selector =s? BooleanValue)) ||
         ((object =? OutputStream) && ((selector =s? VirtualFormat) || (selector =s? PhysicalFormat) ||
                                       (selector =s? IsActive)))))
  end.

Definition sizeOf (driver : bool) (object : Z) (address : option property_address) (result : bool) : size_result :=
  if driver then propertySize object address result else inl BadObjectError.

(** The decibels of a gain, and back. *)
Definition decibels (gain : Z) : Z := float_mul twenty (log10f (fmaxf quietest gain)).
Definition scalar (db : Z) : Z := powf ten (float_div db twenty).

(** The two conversion properties: their input is what the caller left in its buffer. *)
Definition convert (selector : selector) (input : Z) : OSStatus + property_data :=
  if negb (isfinite input) then inl IllegalOperationError
  else inr (Float32Value
    (if selector =s? ConvertScalarToDecibels then decibels (fminf F32_ONE input)
     else scalar (fminf 0 (fmaxf minus_96 input)))).

Definition property_value (object : Z) (address : property_address) (running : Z) (l : levels) : OSStatus + property_data :=
  match mSelector address with
  | BaseClass => inr (UInt32s [if object =? OutputVolume then kAudioLevelControlClassID
                               else if object =? OutputMute then kAudioBooleanControlClassID else kAudioObjectClassID])
  | Class_ => inr (UInt32s [if object =? OutputDevice then kAudioDeviceClassID
                            else if object =? OutputStream then kAudioStreamClassID
                            else if object =? OutputVolume then kAudioVolumeControlClassID
                            else if object =? OutputMute then kAudioMuteControlClassID else kAudioPlugInClassID])
  | Owner => inr (UInt32s [if object =? OutputDevice then kAudioObjectPlugInObject
                           else if negb (object =? kAudioObjectPlugInObject) then OutputDevice else kAudioObjectUnknown])
  | Name => inr (CFString PLANK_OUTPUT_DEVICE_NAME)
  | Manufacturer => inr (CFString "PLANK")
  | ControlList => inr (UInt32s [OutputVolume; OutputMute])
  | ControlScope => inr (UInt32s [kAudioObjectPropertyScopeOutput])
  | ControlElement => inr (UInt32s [0])
  | BooleanValue | Mute => inr (UInt32s [outputMute l])
  | ScalarValue | VolumeScalar => inr (Float32Value (outputGain l))
  | DecibelValue => inr (Float32Value (fmaxf minus_96 (decibels (outputGain l))))
  | DecibelRange => inr (ValueRange minus_96_double 0)
  | DeviceList | RelatedDevices => inr (UInt32s [OutputDevice])
  | ResourceBundle => inr (CFString EmptyString)
  | DeviceUID => inr (CFString PLANK_OUTPUT_DEVICE_UID)
  | ModelUID => inr (CFString PLANK_OUTPUT_MODEL_UID)
  | TransportType => inr (UInt32s [kAudioDeviceTransportTypeVirtual])
  | ClockDomain | IsHidden | Latency | SafetyOffset => inr (UInt32s [0])
  | DeviceIsAlive | IsActive | StartingChannel => inr (UInt32s [1])
  | Direction => inr (UInt32s [0])
  | DeviceIsRunning => inr (UInt32s [if running =? 0 then 0 else 1])
  | DeviceCanBeDefaultDevice | DeviceCanBeDefaultSystemDevice =>
      inr (UInt32s [if mScope address =s? Output then 1 else 0])
  | ZeroTimeStampPeriod => inr (UInt32s [PLANKAudioZeroTimeStampPeriod])
  | NominalSampleRate => inr (Float64Value output_rate)
  | AvailableNominalSampleRates => inr (ValueRange output_rate output_rate)
  | Streams => inr (UInt32s [OutputStream])
  | PreferredChannelsForStereo => inr (UInt32s [1; 2])
  | TerminalType => inr (UInt32s [kAudioStreamTerminalTypeSpeaker])
  | VirtualFormat | PhysicalFormat => inr (Format outputFormat)
  | AvailableVirtualFormats | AvailablePhysicalFormats => inr (RangedFormat outputFormat output_rate output_rate)
  | _ => inl UnknownPropertyError
  end.

(** [OwnedObjects]: the device copies the first [needed] bytes of its three objects. *)
Definition owned_objects (object needed : Z) : property_data :=
  if object =? OutputDevice
  then UInt32s (take (Z.to_nat (needed / sizeof_UInt32)) [OutputStream; OutputVolume; OutputMute])
  else UInt32s [OutputDevice].

Definition translate (qualifierSize : Z) (qualifier : option cf_ref) : OSStatus + property_data :=
  match qualifier with
  | Some uid =>
      if negb (qualifierSize =? sizeof_CFStringRef) then inl BadPropertySizeError
      else inr (UInt32s [match uid with
                         | StringRef s => if String.eqb s PLANK_OUTPUT_DEVICE_UID then OutputDevice else kAudioObjectUnknown
                         | _ => kAudioObjectUnknown
                         end])
  | None => inl BadPropertySizeError
  end.

(** The switch over the selectors; [data] is the caller's buffer, [None] a read outside it. *)
Definition property_answer (object : Z) (address : property_address) (qualifierSize : Z) (qualifier : option cf_ref)
    (data : option (list Z)) (running : Z) (l : levels) (needed : Z) : option (OSStatus + property_data) :=
  match mSelector address with
  | TranslateUIDToDevice => Some (translate qualifierSize qualifier)
  | OwnedObjects => Some (inr (owned_objects object needed))
  | ConvertScalarToDecibels | ConvertDecibelsToScalar =>
      data ← data; input ← read_uint32 data 0; Some (convert (mSelector address) input)
  | _ => Some (property_value object address running l)
  end.

Definition get (driver : bool) (object : Z) (address : option property_address) (qualifierSize : Z)
    (qualifier : option cf_ref) (capacity : Z) (actual : bool) (data : option (list Z)) (running : Z) (l : levels)
    : option answer :=
  if negb actual then Some (mkAnswer IllegalOperationError None None)
  else match sizeOf driver object address true with
  | inl status => Some (mkAnswer status (Some 0) None)
  | inr needed =>
      if (capacity <? needed) || (negb (needed =? 0) && match data with None => true | _ => false end)
      then Some (mkAnswer BadPropertySizeError (Some 0) None)
      else if needed =? 0 then Some (mkAnswer noErr (Some 0) None)
      else match address with
      | None => Some (mkAnswer BadObjectError (Some 0) None)
      | Some address =>
          result ← property_answer object address qualifierSize qualifier data running l needed;
          Some match result with
          | inl status => mkAnswer status (Some needed) None
          | inr d => mkAnswer noErr (Some needed) (Some d)
          end
      end
  end.

Definition same_format (data : list Z) : option bool :=
  data ← copy_from data 0 sizeof_AudioStreamBasicDescription;
  rate ← read_float64 data 0; id ← read_uint32 data 8; flags ← read_uint32 data 12;
  packet ← read_uint32 data 16; frames ← read_uint32 data 20; frame ← read_uint32 data 24;
  channels ← read_uint32 data 28; bits ← read_uint32 data 32;
  Some (double_equal rate output_rate && (id =? mFormatID outputFormat) && (flags =? mFormatFlags outputFormat) &&
        (packet =? mBytesPerPacket outputFormat) && (frames =? 1) && (frame =? PLANKOutputChannels * 4) &&
        (channels =? PLANKOutputChannels) && (bits =? 32)).

(** A new gain: a scalar in [0, 1], or decibels in [-96, 0]; [None] is refused. *)
Definition new_gain (selector : selector) (value : Z) : option Z :=
  if negb (isfinite value) then None
  else
    if (selector =s? DecibelValue) && (float_lt value minus_96 || float_lt 0 value) then None
    else
      let value := if selector =s? DecibelValue then scalar value else value in
      if float_lt value 0 || float_lt F32_ONE value then None else Some value.

(** The notifications of a changed control: its own values, then the device's. *)
Definition changes (gain host : bool) : list notification :=
  if host then
    [(if gain then OutputVolume else OutputMute,
      if gain then [mkAddress ScalarValue Global 0; mkAddress DecibelValue Global 0]
      else [mkAddress BooleanValue Global 0]);
     (OutputDevice, [mkAddress (if gain then VolumeScalar else Mute) Output 0])]
  else [].

Definition set (driver : bool) (object : Z) (address : option property_address) (size : Z) (data : option (list Z))
    (host : bool) (l : levels) : option (OSStatus * levels * list notification) :=
  match settable driver object address true, address with
  | (noErr, Some true), Some a =>
      match propertySize object address true, data with
      | inr needed, Some data =>
          let selector := mSelector a in
          if negb (size =? needed) then Some (BadPropertySizeError, l, [])
          else if (selector =s? VolumeScalar) || (selector =s? ScalarValue) || (selector =s? DecibelValue) then
            value ← read_uint32 data 0;
            Some match new_gain selector value with
            | Some value => (noErr, mkLevels value (outputMute l), changes true host)
            | None => (IllegalOperationError, l, [])
            end
          else if (selector =s? Mute) || (selector =s? BooleanValue) then
            value ← read_uint32 data 0;
            Some (if 1 <? value then (IllegalOperationError, l, [])
                  else (noErr, mkLevels (outputGain l) value, changes false host))
          else if selector =s? NominalSampleRate then
            rate ← read_float64 data 0;
            Some (if double_equal rate output_rate then noErr else UnsupportedFormatError, l, [])
          else if selector =s? IsActive then
            active ← read_uint32 data 0;
            Some (if active =? 1 then noErr else UnsupportedOperationError, l, [])
          else
            same ← same_format data;
            Some (if same : bool then noErr else UnsupportedFormatError, l, [])
      | _, _ => Some (BadPropertySizeError, l, [])
      end
  | (noErr, _), _ => Some (UnsupportedOperationError, l, [])
  | (status, _), _ => Some (status, l, [])
  end.
End driver.

(** ** The plug-in's object and its clients *)

Record output_driver := mkDriver {
  core : hal; references : Z; ticksPerFrame : spec_float; controls : levels }.

Definition with_core (d : output_driver) (h : hal) : output_driver :=
  mkDriver h (references d) (ticksPerFrame d) (controls d).

(** The plug-in as loaded: full gain, not muted. *)
Definition load_driver : output_driver := mkDriver hal_zero 1 (S754_zero false) (mkLevels F32_ONE 0).

Definition query (driver uuid result : bool) (d : output_driver) : HRESULT * option bool * output_driver :=
  if negb result then (E_POINTER, None, d)
  else if negb driver then (E_NOINTERFACE, Some false, d)
  else if negb uuid then (E_NOINTERFACE, Some false, d)
  else (S_OK, Some true, mkDriver (core d) (u32 (references d + 1)) (ticksPerFrame d) (controls d)).

Definition retain (driver : bool) (d : output_driver) : Z * output_driver :=
  let (value, references) := HalDriver.retain driver (references d) in
  (value, mkDriver (core d) references (ticksPerFrame d) (controls d)).

Definition release (driver : bool) (d : output_driver) : Z * output_driver :=
  let (value, references) := HalDriver.release driver (references d) in
  (value, mkDriver (core d) references (ticksPerFrame d) (controls d)).

Definition PLANKOutputFactory (type : bool) : bool := type.

Definition initialize (driver owner : bool) (denom numer now : Z) (d : output_driver) : OSStatus * output_driver :=
  let (status, h) := HalDriver.initialize driver owner now (core d) in
  (status, if bool_decide (status = noErr) && negb (host (core d))
           then mkDriver h (references d) (ticks_per_frame PLANKOutputRate denom numer) (controls d)
           else with_core d h).

Definition create (result : bool) : OSStatus * option Z :=
  (UnsupportedOperationError, if result then Some kAudioObjectUnknown else None).
Definition destroy : OSStatus := UnsupportedOperationError.

Definition addClient (driver : bool) (device : Z) (info : option Z) (d : output_driver) : OSStatus * output_driver :=
  let (status, h) := HalDriver.addClient driver (device =? OutputDevice) info (core d) in (status, with_core d h).

Definition removeClient (driver : bool) (device : Z) (info : option Z) (d : output_driver) : OSStatus * output_driver :=
  let (status, h) := HalDriver.removeClient driver (device =? OutputDevice) info (core d) in (status, with_core d h).

Definition configuration (driver : bool) (device : Z) : OSStatus :=
  if driver && (device =? OutputDevice) then UnsupportedOperationError else BadObjectError.

Definition changeIO (driver : bool) (device client : Z) (start : bool) (now : Z) (d : output_driver)
    : OSStatus * output_driver :=
  let '(status, h, _) := HalDriver.changeIO driver (device =? OutputDevice) client start now (core d) in
  (status, with_core d h).

Definition startIO (driver : bool) (device client now : Z) (d : output_driver) : OSStatus * output_driver :=
  changeIO driver device client true now d.
Definition stopIO (driver : bool) (device client now : Z) (d : output_driver) : OSStatus * output_driver :=
  changeIO driver device client false now d.

Definition timestamp (driver : bool) (device : Z) (outputs : bool) (now : Z) (d : output_driver)
    : OSStatus * option (spec_float * Z * Z) :=
  HalDriver.timestamp driver (device =? OutputDevice) outputs (ticksPerFrame d) now (core d).

(** ** Output *)

Definition willIO (driver : bool) (device : Z) (operation : io_operation) (outputs : bool)
    : OSStatus * option (bool * bool) :=
  if negb driver || negb (device =? OutputDevice) || negb outputs then (BadObjectError, None)
  else (noErr, Some (bool_decide (operation = WriteMix), true)).

Definition boundaryIO (driver : bool) (device frames : Z) : OSStatus :=
  if driver && (device =? OutputDevice) && (frames <=? PLANKOutputMaxIO) then noErr else IllegalOperationError.

(** The mix is accepted and discarded. *)
Definition performIO (driver : bool) (device stream : Z) (operation : io_operation) (frames : Z)
    (main cycle : bool) : OSStatus :=
  if negb driver || negb (device =? OutputDevice) || negb (stream =? OutputStream) ||
     negb (bool_decide (operation = WriteMix)) || (PLANKOutputMaxIO <? frames) || negb main || negb cycle
  then IllegalOperationError else noErr.

(** ** Property reads *)

Lemma objectExists_spec object :
  objectExists object = true -> object = 1 \/ object = 2 \/ object = 3 \/ object = 4 \/ object = 5.
Proof. unfold objectExists. rewrite !orb_true_iff, !Z.eqb_eq. tauto. Qed.

Lemma property_error object address size e : propertySize object address size = inl e -> e <> noErr.
Proof.
  unfold propertySize. destruct address as [address|]; [|by intros [= <-]].
  destruct (_ || _); [by intros [= <-]|]. destruct (negb _); [by intros [= <-]|].
  destruct (_ && _); [by intros [= <-]|]. by intros ->%first_case_error.
Qed.

(** The failures after the size was found. *)
Definition late_error (s : selector) (qualifierSize : Z) (qualifier : option cf_ref) (e : OSStatus) : Prop :=
  (e = BadPropertySizeError /\ s = TranslateUIDToDevice /\ (qualifierSize <> sizeof_CFStringRef \/ qualifier = None)) \/
  (e = IllegalOperationError /\ (s = ConvertScalarToDecibels \/ s = ConvertDecibelsToScalar)).

Lemma translate_size qualifierSize qualifier :
  match translate qualifierSize qualifier with
  | inr d => data_size d = 4
  | inl e => late_error TranslateUIDToDevice qualifierSize qualifier e
  end.
Proof.
  unfold translate, late_error. destruct qualifier as [uid|]; [|by left; auto].
  destruct (Z.eqb_spec qualifierSize sizeof_CFStringRef); cbn; [done|by left; auto].
Qed.

Section properties.
Context `{AudioSDK} (log10f : Z -> Z) (powf : Z -> Z -> Z).

Lemma sized_value object address running l needed :
  propertySize object (Some address) true = inr needed ->
  0 <= needed <= sizeof_AudioStreamRangedDescription /\
  (needed <> 0 ->
   match mSelector address with
   | TranslateUIDToDevice | ConvertScalarToDecibels | ConvertDecibelsToScalar => needed = 4
   | OwnedObjects => data_size (owned_objects object needed) = needed
   | _ => exists d, property_value log10f object address running l = inr d /\ data_size d = needed
   end).
Proof.
  unfold propertySize. destruct (objectExists object) eqn:Ho; cbn [negb orb]; [|done].
  destruct address as [selector scope element]. cbn [mElement mScope mSelector].
  destruct (element =? 0); cbn [negb]; [|done].
  apply objectExists_spec in Ho as [->|[->|[->|[->| ->]]]];
    destruct scope, selector; cbn; intros [= <-]; (split; [done|]);
    try done; intros _; try (eexists; split; [reflexivity|reflexivity]).
Qed.
Lemma convert_size s input qualifierSize qualifier :
  s = ConvertScalarToDecibels \/ s = ConvertDecibelsToScalar ->
  match convert log10f powf s input with
  | inr d => data_size d = 4
  | inl e => late_error s qualifierSize qualifier e
  end.
Proof. intros Hs. unfold convert, late_error. destruct (negb _); [by right|done]. Qed.

(** A property that has a size answers with that many bytes. *)
Lemma sized_answer object address qualifierSize qualifier data running l needed :
  propertySize object (Some address) true = inr needed -> needed <> 0 -> needed <= len data ->
  exists r, property_answer log10f powf object address qualifierSize qualifier (Some data) running l needed = Some r /\
    match r with
    | inr d => data_size d = needed
    | inl e => late_error (mSelector address) qualifierSize qualifier e
    end.
Proof.
  intros Hs Hne Hlen. destruct (sized_value object address running l needed Hs) as [_ Hv]. specialize (Hv Hne).
  unfold property_answer. destruct (mSelector address) eqn:Hsel;
    try (destruct Hv as (d & -> & Hd); eexists; split; [reflexivity|done]).
  - eexists. split; [reflexivity|done].
  - subst needed. eexists. split; [reflexivity|]. apply translate_size.
  - destruct (read_word_here data ltac:(lia)) as [input Hin]. cbn [mbind option_bind]. rewrite Hin. cbn [mbind option_bind].
    eexists. split; [reflexivity|]. subst needed. apply convert_size. auto.
  - destruct (read_word_here data ltac:(lia)) as [input Hin]. cbn [mbind option_bind]. rewrite Hin. cbn [mbind option_bind].
    eexists. split; [reflexivity|]. subst needed. apply convert_size. auto.
Qed.
End properties.

(** C31: GetPropertyData of the output driver against its table of sizes, for every
    object, address, qualifier and capacity: a missing property fails with the status of
    GetPropertyDataSize and an actual size of zero; a present one answers with exactly the
    announced bytes, at most 56, when they fit, and with a size error otherwise.  The only
    later failures are a UID translation without its qualifier and the conversion of a value
    that is not finite.  The caller's buffer is never read beyond its capacity. *)
Theorem output_property_exact `{AudioSDK} log10f powf driver object address qualifierSize qualifier capacity data running l :
  len (default [] data) = capacity ->
  exists a, get log10f powf driver object address qualifierSize qualifier capacity true data running l = Some a /\
  match sizeOf driver object address true with
  | inl e => a = mkAnswer e (Some 0) None /\ has driver object address = false /\ e <> noErr
  | inr needed =>
      has driver object address = true /\ 0 <= needed <= 56 /\
      if capacity <? needed then a = mkAnswer BadPropertySizeError (Some 0) None
      else if needed =? 0 then a = mkAnswer noErr (Some 0) None
      else match written a with
           | Some d => a = mkAnswer noErr (Some needed) (Some d) /\ data_size d = needed
           | None => actual a = Some needed /\
               exists s, mSelector <$> address = Some s /\ late_error s qualifierSize qualifier (status a)
           end
  end.
Proof.
  intros Hdata. unfold get, sizeOf, has. cbn [negb]. destruct driver; cbn [andb]; [|by eexists].
  destruct (propertySize object address true) as [e|needed] eqn:Hs.
  { eexists. split_and!; [reflexivity|done|done|]. by apply property_error in Hs. }
  destruct address as [address|]; [|done].
  destruct (sized_value log10f object address running l needed Hs) as [Hn _].
  destruct (Z.ltb_spec capacity needed); cbn [orb]. { eexists. split_and!; done || apply Hn. }
  destruct (Z.eqb_spec needed 0) as [->|Hne]. { eexists. by split_and!. }
  destruct data as [data|]; cbn [negb andb] in *; simpl in Hdata; [|destruct Hn; lia].
  destruct (sized_answer log10f powf object address qualifierSize qualifier data running l needed Hs Hne ltac:(lia))
    as (r & -> & Hr). cbn [mbind option_bind].
  eexists. split; [reflexivity|]. split; [done|]. split; [apply Hn|].
  destruct r; cbn [written actual status]; [|done]. split; [done|]. by exists (mSelector address).
Qed.

Lemma output_property_exact_witness :
  exists a, get (H := documented_sdk) (fun x => x) (fun x _ => x) true OutputVolume
    (Some (mkAddress ConvertDecibelsToScalar Global 0)) 0 None 4 true (Some [0; 0; 192; 127]) 1 (mkLevels F32_ONE 0) = Some a /\
  match written a with
  | Some d => a = mkAnswer noErr (Some 4) (Some d) /\ data_size d = 4
  | None => actual a = Some 4 /\
      exists s, Some ConvertDecibelsToScalar = Some s /\ late_error s 0 None (status a)
  end.
Proof.
  destruct (output_property_exact (H := documented_sdk) (fun x => x) (fun x _ => x) true OutputVolume
    (Some (mkAddress ConvertDecibelsToScalar Global 0)) 0 None 4 (Some [0; 0; 192; 127]) 1 (mkLevels F32_ONE 0) eq_refl)
    as (a & Ha & Hspec).
  exists a. split; [exact Ha|]. exact (proj2 (proj2 Hspec)).
Defined.

(** ** The controls *)

(** A gain in [0, 1] that is a number, and a flag. *)
Definition levels_ok (l : levels) : Prop :=
  isnan (outputGain l) = false /\ 0 <= key (outputGain l) <= key F32_ONE /\ (outputMute l = 0 \/ outputMute l = 1).

Definition is_gain (s : selector) : bool :=
  match s with VolumeScalar | ScalarValue | DecibelValue => true | _ => false end.
Definition is_mute (s : selector) : bool := match s with Mute | BooleanValue => true | _ => false end.

Lemma float_lt_key a b : isnan a = false -> isnan b = false -> float_lt a b = (key a <? key b).
Proof. intros Ha Hb. unfold float_lt. by rewrite Ha, Hb. Qed.

Lemma new_gain_ok powf s value g :
  (forall x, isnan (powf ten x) = false) -> new_gain powf s value = Some g ->
  isnan g = false /\ 0 <= key g <= key F32_ONE /\ isfinite value = true /\
  g = (if s =s? DecibelValue then scalar powf value else value).
Proof.
  intros Hp. unfold new_gain. destruct (isfinite value) eqn:Hf; cbn [negb]; [|done].
  destruct (_ && _); [done|]. set (g' := if s =s? DecibelValue then _ else _).
  assert (isnan g' = false) as Hn.
  { unfold g'. destruct (s =s? DecibelValue); [apply Hp|by apply finite_not_nan]. }
  rewrite !float_lt_key by done. change (key 0) with 0.
  destruct (Z.ltb_spec (key g') 0); [done|]. destruct (Z.ltb_spec (key F32_ONE) (key g')); [done|].
  intros [= <-]. split_and!; done || lia.
Qed.

(** A scalar in range is taken as it is. *)
Lemma new_gain_scalar powf s value :
  s <> DecibelValue -> isfinite value = true -> 0 <= key value <= key F32_ONE -> new_gain powf s value = Some value.
Proof.
  intros Hs Hf Hk. unfold new_gain. rewrite Hf. cbn [negb]. rewrite bool_decide_eq_false_2 by done. cbn [andb].
  rewrite !float_lt_key by (try apply finite_not_nan; done). change (key 0) with 0.
  by rewrite (proj2 (Z.ltb_ge (key value) 0)), (proj2 (Z.ltb_ge (key F32_ONE) (key value))) by lia.
Qed.

Lemma settable_size `{AudioSDK} driver object a :
  settable driver object (Some a) true = (noErr, Some true) ->
  exists needed, propertySize object (Some a) true = inr needed /\
    (is_gain (mSelector a) || is_mute (mSelector a) || (mSelector a =s? IsActive) = true /\ needed = 4 \/
     mSelector a = NominalSampleRate /\ needed = 8 \/
     is_gain (mSelector a) = false /\ is_mute (mSelector a) = false /\ needed = 40).
Proof.
  unfold settable, has. cbn [negb]. destruct driver; cbn [andb negb]; [|done].
  destruct (propertySize object (Some a) true) as [|needed] eqn:Hs; cbn [negb]; [done|]. intros [= Hw].
  exists needed. split; [done|]. destruct a as [sel sc el]. cbn [mSelector] in *. revert Hs.
  unfold propertySize. destruct (objectExists object) eqn:Ho; cbn [negb orb]; [|done]. cbn [mElement mScope mSelector].
  destruct (el =? 0); cbn [negb]; [|done].
  apply objectExists_spec in Ho as [->|[->|[->|[->| ->]]]];
    destruct sel; vm_compute in Hw; try discriminate Hw; destruct sc; vm_compute; intros Hs;
    first [discriminate Hs | injection Hs as <-]; auto.
Qed.

Lemma format_read `{AudioSDK} data : length data = 40%nat -> exists b, same_format data = Some b.
Proof.
  intros Hl. unfold same_format, sizeof_AudioStreamBasicDescription.
  rewrite copy_from_take by lia. rewrite firstn_all2 by lia. cbn [mbind option_bind].
  do 40 (destruct data as [|? data]; [done|]). by eexists.
Qed.
Section sets.
Context `{AudioSDK} (l0 : levels).

(** A write of a fixed property returns a status and nothing else. *)
Lemma fixed_write needed data s :
  needed = len data ->
  (false || false || (s =s? IsActive) = true /\ needed = 4 \/ s = NominalSampleRate /\ needed = 8 \/
   false = false /\ false = false /\ needed = 40) ->
  exists st,
    (if s =s? NominalSampleRate then
       rate ← read_float64 data 0;
       Some (if double_equal rate output_rate then noErr else UnsupportedFormatError, l0, @nil notification)
     else if s =s? IsActive then
       active ← read_uint32 data 0;
       Some (if active =? 1 then noErr else UnsupportedOperationError, l0, [])
     else
       same ← same_format data;
       Some (if same : bool then noErr else UnsupportedFormatError, l0, [])) = Some (st, l0, []).
Proof.
  intros Hl Hn. cbn [orb] in Hn.
  destruct (bool_decide_reflect (s = NominalSampleRate)) as [->|Hr].
  - destruct Hn as [[Hs _]|[[_ ->]|(_ & _ & ->)]]; [done| |].
    + do 8 (destruct data as [|? data]; [cbn in Hl; lia|]). by eexists.
    + do 8 (destruct data as [|? data]; [cbn in Hl; lia|]). by eexists.
  - destruct (bool_decide_reflect (s = IsActive)) as [->|Ha].
    + destruct (read_word_here data) as [v ->]; [destruct Hn as [[_ ->]|[[? _]|(_ & _ & ->)]]; [lia|done|lia]|]. by eexists.
    + destruct Hn as [[Hs _]|[[? _]|(_ & _ & ->)]]; [done|done|].
      destruct (format_read data) as [b ->]; [lia|]. by eexists.
Qed.
End sets.


(** The loaded plug-in's controls satisfy the invariant. *)
Lemma load_driver_levels : levels_ok (controls load_driver).
Proof. split; [done|]. split; [|by left]. vm_compute. done. Qed.

