(* ===== verification/DeviceQueries.v ===== *)
(** * DeviceQueries: apps/host/macos/media/audio-output-volume.h,
    apps/host/macos/audio-device/microphone-selection.h

    The host's questions to Core Audio: the gains of the output device that its tap applies,
    and whether a device is the current microphone plug-in.  The audio server is a parameter;
    the properties ask the questions of the two plug-ins themselves ([MicDriver], [OutputDriver]). *)

From S2P Require Import Prelude.
From S2P Require Import Endian.
From S2P Require Import Float32.
From S2P Require Import MicBuffer.
From S2P Require Import HalDriver.
From S2P Require Import MicDriver.
From S2P Require Import OutputDriver.

(** The audio server: whether an object has a property, and what reading it stores
    ([None]: a status that is not [noErr]); the data's size is the actual size. *)
Class AudioServer := {
  has_property : Z -> property_address -> bool;
  get_property : Z -> property_address -> option property_data;
  device_for_uid : string -> option Z;
  set_default_input : Z -> bool }.

Section queries.
Context `{AudioSDK} `{AudioServer}.

(** ** Output gains *)

(** [PLANKOutputValue] into a variable that holds [value]: whether the read is good, the
    variable, and [*present]. *)
Definition PLANKOutputValue (device : Z) (selector : selector) (channel : Z) (value : property_data) (bytes : Z)
    : bool * property_data * bool :=
  let address := mkAddress selector Output channel in
  if negb (has_property device address) then (true, value, false)
  else match get_property device address with
  | Some d => (data_size d =? bytes, if data_size d =? bytes then d else value, true)
  | None => (false, value, true)
  end.

(** What a [Float32] or [UInt32] variable holds after such a read. *)
Definition word_value (d : property_data) : Z :=
  match d with Float32Value b => b | UInt32s (w :: _) => w | _ => 0 end.
Definition two_words (d : property_data) : list Z := match d with UInt32s [a; b] => [a; b] | _ => [0; 0] end.

Definition volume_refused (volume : Z) : bool :=
  negb (isfinite volume) || float_lt volume 0 || float_lt F32_ONE volume.

(** One channel: [None] is the loop's [return NO]. *)
Definition channel_gain (device : Z) (master : Z) (hasMaster : bool) (mute channel : Z) : option Z :=
  let '(ok, volume, _) :=
    if hasMaster then (true, Float32Value master, true)
    else PLANKOutputValue device VolumeScalar channel (Float32Value master) 4 in
  if negb ok then None
  else
    let '(ok, channelMute, _) := PLANKOutputValue device Mute channel (UInt32s [0]) 4 in
    if negb ok || volume_refused (word_value volume) then None
    else Some (if negb (mute =? 0) || negb (word_value channelMute =? 0) then 0 else word_value volume).

(** The result and [gains]. *)
Definition PLANKOutputGains (device : Z) : bool * list Z :=
  if device =? 0 then (false, [0; 0])
  else
    let '(ok, master, hasMaster) := PLANKOutputValue device VolumeScalar 0 (Float32Value F32_ONE) 4 in
    if negb ok || volume_refused (word_value master) then (false, [0; 0])
    else
      let '(ok, mute, _) := PLANKOutputValue device Mute 0 (UInt32s [0]) 4 in
      if negb ok then (false, [0; 0])
      else
        let '(ok, channels, _) := PLANKOutputValue device PreferredChannelsForStereo 0 (UInt32s [1; 2]) 8 in
        if negb ok then (false, [0; 0])
        else
          match two_words channels with
          | [c1; c2] =>
              match channel_gain device (word_value master) hasMaster (word_value mute) c1,
                    channel_gain device (word_value master) hasMaster (word_value mute) c2 with
              | Some l, Some r => (true, [l; r])
              | _, _ => (false, [0; 0])
              end
          | _ => (false, [0; 0])
          end.

(** ** The microphone's selection *)

Definition PLANKMicDeviceForUID (uid : option string) : Z :=
  match uid with
  | None | Some EmptyString => kAudioObjectUnknown
  | Some s => default kAudioObjectUnknown (device_for_uid s)
  end.

Definition kAudioObjectSystemObject : Z := 1.

Definition PLANKMicDefaultInput : Z :=
  match get_property kAudioObjectSystemObject (mkAddress DefaultInputDevice Global 0) with
  | Some d => word_value d
  | None => kAudioObjectUnknown
  end.

Definition current_format (f : stream_format) : bool :=
  double_equal (mSampleRate f) mic_rate && (mFormatID f =? kAudioFormatLinearPCM) &&
  (mFormatFlags f =? kAudioFormatFlagsNativeFloatPacked) && (mChannelsPerFrame f =? PLANKMicChannels) &&
  (mBitsPerChannel f =? 32) && (mFramesPerPacket f =? 1) && (mBytesPerFrame f =? PLANKMicChannels * 4) &&
  (mBytesPerPacket f =? mBytesPerFrame f).

Definition PLANKMicDeviceHasCurrentFormat (device : Z) : bool :=
  if device =? 0 then false
  else match get_property device (mkAddress Streams Input 0) with
  | None => false
  | Some d =>
      let stream := word_value d in
      if negb (data_size d =? 4) || (stream =? 0) then false
      else match get_property stream (mkAddress VirtualFormat Global 0) with
      | Some (Format f) => current_format f
      | _ => false
      end
  end.

Definition PLANKMicDeviceUID (device : Z) : option string :=
  if device =? 0 then None
  else match get_property device (mkAddress DeviceUID Global 0) with
  | Some (CFString s) => Some s
  | _ => None
  end.

Definition PLANKMicSetDefaultInput (device : Z) : bool := set_default_input device.
End queries.

(** ** Gains are gains *)

Lemma volume_accepted v : volume_refused v = false -> isnan v = false /\ 0 <= key v <= key F32_ONE.
Proof.
  unfold volume_refused. intros [[Hf H0]%orb_false_iff H1]%orb_false_iff. apply negb_false_iff in Hf.
  pose proof (finite_not_nan v Hf) as Hn. rewrite (float_lt_key v 0) in H0 by done.
  rewrite (float_lt_key F32_ONE v) in H1 by done. change (key 0) with 0 in H0.
  split; [done|]. apply Z.ltb_ge in H0, H1. by split.
Qed.

Definition is_gain_value (g : Z) : Prop := isnan g = false /\ 0 <= key g <= key F32_ONE.

Lemma gain_zero : is_gain_value 0.
Proof. split; [reflexivity|]. vm_compute. split; discriminate. Qed.

Lemma channel_gain_ok `{AudioServer} device master hasMaster mute channel g :
  channel_gain device master hasMaster mute channel = Some g -> is_gain_value g.
Proof.
  unfold channel_gain. destruct (if hasMaster then _ else _) as [[ok volume] ?]. destruct (negb ok); [done|].
  destruct (PLANKOutputValue device Mute channel (UInt32s [0]) 4) as [[ok' m] ?].
  destruct (_ || volume_refused _) eqn:Hv; [done|]. apply orb_false_iff in Hv as [_ Hv]. intros Hg. injection Hg as <-.
  destruct (negb (mute =? 0) || _); [apply gain_zero|exact (volume_accepted _ Hv)].
Qed.

(** The answers of the output plug-in as the audio server passes them on: one address of
    the main element, no qualifier, a buffer of the announced size. *)
Definition output_server `{AudioSDK} log10f powf (running : Z) (l : levels) : AudioServer :=
  {| has_property := fun object a => OutputDriver.has true object (Some a);
     get_property := fun object a =>
       match OutputDriver.sizeOf true object (Some a) true with
       | inr n =>
           a ← OutputDriver.get log10f powf true object (Some a) 0 None n true
                 (Some (replicate (Z.to_nat n) 0)) running l;
           written a
       | inl _ => None
       end;
     device_for_uid := fun _ => None;
     set_default_input := fun _ => false |}.

Definition mic_server `{AudioSDK} (running : Z) : AudioServer :=
  {| has_property := fun object a => MicDriver.has true object (Some a);
     get_property := fun object a =>
       match MicDriver.sizeOf true object (Some a) true with
       | inr n => written (MicDriver.get true object (Some a) 0 None n true true running)
       | inl _ => None
       end;
     device_for_uid := fun s => if String.eqb s PLANK_MIC_DEVICE_UID then Some MicDevice else None;
     set_default_input := fun device => device =? MicDevice |}.

(** The host's questions and the plug-ins' answers.  Whatever an audio server answers,
    [PLANKOutputGains] yields two numbers in [0, 1], both zero when it fails.  Asked about the
    output plug-in with a finite gain in [0, 1] it yields that gain on both channels, or zero
    when the plug-in is muted.  The microphone plug-in is found by its UID, is recognised as
    having the current format, and reports that UID. *)
Theorem queries_match_drivers `{AudioSDK} :
  (forall (server : AudioServer) device ok gains, PLANKOutputGains (H0 := server) device = (ok, gains) ->
     exists a b, gains = [a; b] /\ is_gain_value a /\ is_gain_value b /\ (ok = false -> a = 0 /\ b = 0)) /\
  (forall log10f powf running l, isfinite (outputGain l) = true -> 0 <= key (outputGain l) <= key F32_ONE ->
     let g := if outputMute l =? 0 then outputGain l else 0 in
     PLANKOutputGains (H0 := output_server log10f powf running l) OutputDevice = (true, [g; g])) /\
  (forall running, let server := mic_server running in
     PLANKMicDeviceForUID (Some PLANK_MIC_DEVICE_UID) = MicDevice /\
     PLANKMicDeviceHasCurrentFormat MicDevice = true /\
     PLANKMicDeviceUID MicDevice = Some PLANK_MIC_DEVICE_UID).
Proof.
  split; [|split].
  - intros server device ok gains. pose proof gain_zero as Hz.
    assert ((false, [0; 0]) = (ok, gains) -> exists a b, gains = [a; b] /\ is_gain_value a /\ is_gain_value b /\
              (ok = false -> a = 0 /\ b = 0)) as Hfail by (intros [= <- <-]; exists 0, 0; split_and!; exact Hz || done).
    unfold PLANKOutputGains. destruct (device =? 0); [exact Hfail|].
    destruct (PLANKOutputValue _ _ _ _ _) as [[ok1 master] hasMaster]. destruct (_ || _); [exact Hfail|].
    destruct (PLANKOutputValue _ _ _ _ _) as [[ok2 mute] ?]. destruct (negb ok2); [exact Hfail|].
    destruct (PLANKOutputValue _ _ _ _ _) as [[ok3 channels] ?]. destruct (negb ok3); [exact Hfail|].
    destruct (two_words channels) as [|c1 [|c2 [|? ?]]]; try exact Hfail.
    destruct (channel_gain _ _ _ _ c1) as [g1|] eqn:Ea; [|exact Hfail].
    destruct (channel_gain _ _ _ _ c2) as [g2|] eqn:Eb; [|exact Hfail].
    intros [= <- <-]. exists g1, g2. apply channel_gain_ok in Ea, Eb. split; [done|]. split; [exact Ea|]. split; [exact Eb|done].
  - intros log10f powf running l Hf Hk g. set (server := output_server log10f powf running l).
    assert (PLANKOutputValue (H0 := server) OutputDevice VolumeScalar 0 (Float32Value F32_ONE) 4
            = (true, Float32Value (outputGain l), true)) as E1 by reflexivity.
    assert (forall c, PLANKOutputValue (H0 := server) OutputDevice Mute c (UInt32s [0]) 4 =
              if c =? 0 then (true, UInt32s [outputMute l], true) else (true, UInt32s [0], false)) as E2.
    { intros c. unfold PLANKOutputValue, server. cbn [has_property get_property output_server].
      unfold OutputDriver.has, OutputDriver.sizeOf, OutputDriver.propertySize. cbn [mElement andb].
      destruct (c =? 0) eqn:Ec; [|reflexivity]. apply Z.eqb_eq in Ec as ->. reflexivity. }
    assert (PLANKOutputValue (H0 := server) OutputDevice PreferredChannelsForStereo 0 (UInt32s [1; 2]) 8
            = (true, UInt32s [1; 2], true)) as E3 by reflexivity.
    assert (volume_refused (outputGain l) = false) as Hv.
    { unfold volume_refused. pose proof (finite_not_nan _ Hf). rewrite Hf, !float_lt_key by done. change (key 0) with 0.
      cbn [negb orb]. apply orb_false_iff. split; apply Z.ltb_ge; apply Hk. }
    unfold PLANKOutputGains. rewrite E1, (E2 0), E3. cbn [negb orb word_value two_words Z.eqb OutputDevice].
    rewrite Hv. unfold channel_gain. rewrite !E2. cbn [negb orb word_value Z.eqb Pos.eqb]. rewrite Hv. unfold g.
    by destruct (outputMute l =? 0).
  - intros running server. split; [reflexivity|]. split; [|reflexivity].
    assert (get_property (AudioServer := server) MicDevice (mkAddress Streams Input 0) = Some (UInt32s [MicStream])) as E1
      by reflexivity.
    assert (get_property (AudioServer := server) MicStream (mkAddress VirtualFormat Global 0) = Some (Format micFormat)) as E2
      by reflexivity.
    unfold PLANKMicDeviceHasCurrentFormat. rewrite E1. cbn [word_value data_size MicDevice MicStream Z.eqb Pos.eqb].
    rewrite E2. unfold current_format, micFormat. cbn [mSampleRate mFormatID mFormatFlags mChannelsPerFrame mBitsPerChannel
      mFramesPerPacket mBytesPerFrame mBytesPerPacket]. rewrite !Z.eqb_refl. reflexivity.
Qed.

Lemma queries_match_drivers_witness :
  PLANKOutputGains (H0 := output_server (H := documented_sdk) (fun x => x) (fun x _ => x) 1 (mkLevels 1056964608 0))
    OutputDevice = (true, [1056964608; 1056964608]).
Proof.
  apply (proj1 (proj2 (queries_match_drivers (H := documented_sdk))) (fun x => x) (fun x _ => x) 1 (mkLevels 1056964608 0));
    [reflexivity|vm_compute; split; discriminate].
Defined.
