(* ===== verification/CameraLink.v ===== *)
(** * CameraLink: apps/host/macos/camera-device/camera-link.h

    The shared-memory ring of three camera slots: the producer process writes each
    record under a per-slot sequence stamp (a seqlock), the consumer process copies
    a record and keeps the copy only if the stamp is still the one it expected.

    Every field the two processes share is a sequentially consistent atomic, so a
    call is a program of single loads and stores ([prog]), and the two processes
    interleave at each of them ([step]).  The state a process keeps privately
    (serial, cursor) is an argument and a result of its calls. *)

From S2P Require Import Prelude.
From S2P Require Import Endian.
From S2P Require Import Atomic.
From S2P Require Import CameraWire.

Definition PLANKCameraLinkVersion : Z := 2.
Definition PLANKCameraSlots : Z := 3.
Definition PLANKCameraRecordBytes : Z := PLANK_CAMERA_HEADER_BYTES + PLANK_CAMERA_MAX_FRAME_BYTES.
Definition PLANKCameraRecordWords : Z := (PLANKCameraRecordBytes + 7) / 8.
Definition PLANK_CAMERA_MAX_AGE_NS : Z := 150000000.

(** ** Shared memory *)

(** The atomic fields of [PLANKCameraLink], those of slot [s] under its index. *)
Inductive loc :=
  | Version | Published | KeyRequest
  | Stamp (s : Z) | Size (s : Z) | HostTime (s : Z) | Arrived (s : Z)
  | Word (s w : Z).
#[export] Instance loc_eq_dec : EqDecision loc.
Proof. solve_decision. Defined.

Definition valid_slot (s : Z) : bool := (0 <=? s) && (s <? PLANKCameraSlots).
Definition camera_loc_valid (l : loc) : bool :=
  match l with
  | Version | Published | KeyRequest => true
  | Stamp s | Size s | HostTime s | Arrived s => valid_slot s
  | Word s w => valid_slot s && (0 <=? w) && (w <? PLANKCameraRecordWords)
  end.

#[export] Instance loc_location : Location loc := {| valid_loc := camera_loc_valid |}.

Definition PLANKCameraLinkInit : mem loc :=
  fun l => match l with Version => PLANKCameraLinkVersion | _ => 0 end.

(** [sizeof(PLANKCameraLink)] is [bytes]; 64-bit [size_t]. *)
Definition PLANKCameraLinkBytes (bytes page : Z) : Z :=
  if negb (page =? 0) && (page <=? UINT64_MAX - bytes)
  then u64 (u64 (bytes + page - 1) / page * page) else 0.

(** ** The producer *)

Definition write_refused (serial size hostTime arrived : Z) : bool :=
  (size <=? PLANK_CAMERA_HEADER_BYTES) || (PLANKCameraRecordBytes <? size) ||
  (hostTime =? 0) || (arrived =? 0) || (UINT64_MAX / 2 - 1 <=? serial).

(** The loop over the record's words; [word] is zeroed before each [memcpy], and
    the hosts are little-endian. *)
Fixpoint write_words {A} (fuel : nat) (s : Z) (record : list Z) (size offset : Z) (k : prog loc A)
    : prog loc A :=
  if offset <? size then
    match fuel with
    | O => Undefined
    | S fuel' =>
        let bytes := if size - offset <? 8 then size - offset else 8 in
        match copy_from record offset bytes with
        | None => Undefined
        | Some b => Store (Word s (offset / 8)) (le_value b)
                      (write_words fuel' s record size (offset + 8) k)
        end
    end
  else k.

(** A null pointer is [None] ([false] for [link]); the result is the returned
    [bool] and the object behind [serial]. *)
Definition PLANKCameraLinkWriteTimed (link : bool) (serial : option Z) (record : option (list Z))
    (size hostTime arrived : Z) : prog loc (bool * option Z) :=
  match link, serial, record with
  | true, Some n, Some r =>
      if write_refused n size hostTime arrived then Ret (false, serial)
      else
        let next := u64 (n + 1) in
        let s := (next - 1) mod PLANKCameraSlots in
        Store (Stamp s) (Z.lor (u64 (Z.shiftl next 1)) 1)
        (Store (Size s) size
        (Store (HostTime s) hostTime
        (Store (Arrived s) arrived
        (write_words (Z.to_nat size) s r size 0
        (Store (Stamp s) (u64 (Z.shiftl next 1))
        (Store Published next
        (Ret (true, Some next))))))))
  | _, _, _ => Ret (false, serial)
  end.

Definition PLANKCameraLinkWrite (link : bool) (serial : option Z) (record : option (list Z))
    (size hostTime : Z) : prog loc (bool * option Z) :=
  PLANKCameraLinkWriteTimed link serial record size hostTime hostTime.

(** ** The consumer *)

(** What a read returns and leaves behind its pointers. *)
Record ReadOut := mkOut {
  ro_result : Z;
  ro_cursor : option Z;
  ro_record : option (list Z);
  ro_size : option Z;
  ro_hostTime : option Z;
  ro_arrivalTime : option Z }.

Definition snapshot_refused (count time arrived capacity now : Z) : bool :=
  (count <=? PLANK_CAMERA_HEADER_BYTES) || (PLANKCameraRecordBytes <? count) ||
  (capacity <? count) ||
  (time =? 0) || (INT64_MAX <? time) || (arrived =? 0) || (now <? arrived) ||
  (PLANK_CAMERA_MAX_AGE_NS <? now - arrived) ||
  (if now <? time then 100000000 <? time - now else PLANK_CAMERA_MAX_AGE_NS <? now - time).

Fixpoint read_words {A} (fuel : nat) (s : Z) (count offset : Z) (record : list Z)
    (k : list Z -> prog loc A) : prog loc A :=
  if offset <? count then
    match fuel with
    | O => Undefined
    | S fuel' =>
        Load (Word s (offset / 8)) (fun word =>
        let bytes := if count - offset <? 8 then count - offset else 8 in
        match copy_to record offset (le_bytes (Z.to_nat bytes) word) with
        | None => Undefined
        | Some record => read_words fuel' s count (offset + 8) record k
        end)
    end
  else k record.

Definition PLANKCameraLinkReadTimed (link : bool) (cursor : option Z) (record : option (list Z))
    (capacity : Z) (size hostTime arrivalTime : option Z) (now : Z) : prog loc ReadOut :=
  match link, cursor, record, size, hostTime with
  | true, Some c, Some r, Some _, Some _ =>
      let stop result cursor record := Ret (mkOut result (Some cursor) (Some record) (Some 0) (Some 0) arrivalTime) in
      Load Published (fun published =>
      if published =? c then stop 0 c r
      else if (published <? c) || (UINT64_MAX / 2 <=? published) then stop (-1) c r
      else if PLANKCameraSlots <? published - c then stop (-1) (published - 1) r
      else
        let next := u64 (c + 1) in
        let s := (next - 1) mod PLANKCameraSlots in
        Load (Stamp s) (fun stamp =>
        if negb (stamp =? u64 (Z.shiftl next 1)) then stop (-1) next r
        else
          Load (Size s) (fun count => Load (HostTime s) (fun time => Load (Arrived s) (fun arrived =>
          if snapshot_refused count time arrived capacity now then stop (-1) next r
          else
            read_words (Z.to_nat count) s count 0 r (fun r =>
            Load (Stamp s) (fun stamp =>
            if negb (stamp =? u64 (Z.shiftl next 1)) then stop (-1) next r
            else Ret (mkOut 1 (Some next) (Some r) (Some count) (Some time)
                        (match arrivalTime with Some _ => Some arrived | None => None end)))))))))
  | _, _, _, _, _ => Ret (mkOut (-1) cursor record size hostTime arrivalTime)
  end.

Definition PLANKCameraLinkRead (link : bool) (cursor : option Z) (record : option (list Z))
    (capacity : Z) (size hostTime : option Z) (now : Z) : prog loc ReadOut :=
  PLANKCameraLinkReadTimed link cursor record capacity size hostTime None now.

(** ** The two processes *)

(** A record the producer was asked to send. *)
Record entry := mkEntry { e_record : list Z; e_hostTime : Z; e_arrived : Z }.

(** [log] is the list of accepted write calls: entry [i] has serial [i + 1]. *)
Record config := mkConfig {
  c_mem : mem loc;
  c_log : list entry;
  c_serial : Z;
  c_writer : option (prog loc (bool * option Z));
  c_reader : option (prog loc ReadOut) }.

Definition init : config := mkConfig PLANKCameraLinkInit [] 0 None None.

Inductive step : config -> config -> Prop :=
  | step_write m log n rd r size h a :
      size <= len r -> bytes r -> in_range 64 h -> in_range 64 a ->
      step (mkConfig m log n None rd)
           (mkConfig m (if write_refused n size h a then log
                        else log ++ [mkEntry (take (Z.to_nat size) r) h a]) n
              (Some (PLANKCameraLinkWriteTimed true (Some n) (Some r) size h a)) rd)
  | step_store m log n l v k rd :
      valid_loc l = true ->
      step (mkConfig m log n (Some (Store l v k)) rd) (mkConfig (upd m l v) log n (Some k) rd)
  | step_written m log n b n' rd :
      step (mkConfig m log n (Some (Ret (b, Some n'))) rd) (mkConfig m log n' None rd)
  | step_read m log n wr c r capacity size hostTime arrivalTime now :
      in_range 64 c -> capacity <= len r -> in_range 64 now ->
      step (mkConfig m log n wr None)
           (mkConfig m log n wr (Some (PLANKCameraLinkReadTimed true (Some c) (Some r) capacity
                                         (Some size) (Some hostTime) arrivalTime now)))
  | step_load m log n wr l k :
      valid_loc l = true ->
      step (mkConfig m log n wr (Some (Load l k))) (mkConfig m log n wr (Some (k (m l))))
  | step_returned m log n wr out :
      step (mkConfig m log n wr (Some (Ret out))) (mkConfig m log n wr None).

Inductive reachable : config -> Prop :=
  | reachable_init : reachable init
  | reachable_step c c' : reachable c -> step c c' -> reachable c'.

(** ** The producer's call as a list of stores *)

Definition slot_of (serial : Z) : Z := (serial - 1) mod 3.
Definition word_of (r : list Z) (w : nat) : Z := le_value (take 8 (drop (8 * w) r)).
Definition words_count (size : Z) : nat := Z.to_nat ((size + 7) / 8).
Definition word_stores (s : Z) (r : list Z) (w n : nat) : list (loc * Z) :=
  map (fun w => (Word s (Z.of_nat w), word_of r w)) (seq w n).
Definition data_stores (s : Z) (e : entry) : list (loc * Z) :=
  (Size s, len (e_record e)) :: (HostTime s, e_hostTime e) :: (Arrived s, e_arrived e) ::
  word_stores s (e_record e) 0 (words_count (len (e_record e))).
Definition write_stores (next : Z) (e : entry) : list (loc * Z) :=
  (Stamp (slot_of next), 2 * next + 1) :: data_stores (slot_of next) e ++
  [(Stamp (slot_of next), 2 * next); (Published, next)].

Record good_entry (e : entry) : Prop := {
  ge_bytes : bytes (e_record e);
  ge_size : 64 < len (e_record e) <= PLANKCameraRecordBytes;
  ge_host : 0 < e_hostTime e < 2 ^ 64;
  ge_arrived : 0 < e_arrived e < 2 ^ 64 }.

Lemma slot_of_range n : 0 <= slot_of n < 3.
Proof. apply Z.mod_pos_bound. lia. Qed.

Lemma slot_of_valid n : valid_slot (slot_of n) = true.
Proof. pose proof (slot_of_range n). unfold valid_slot, PLANKCameraSlots. lia. Qed.

Lemma take_chunk {A} (r : list A) (size w b : nat) :
  b = Nat.min 8 (size - 8 * w) -> (size <= length r)%nat ->
  take 8 (drop (8 * w) (take size r)) = take b (drop (8 * w) r).
Proof.
  intros -> Hs. rewrite skipn_firstn_comm, take_take. done.
Qed.

Lemma copy_from_Some {A} (r : list A) i n :
  0 <= i -> 0 <= n -> i + n <= len r ->
  copy_from r i n = Some (take (Z.to_nat n) (drop (Z.to_nat i) r)).
Proof.
  intros Hi Hn Hl. rewrite <- (take_drop (Z.to_nat i) r) at 1.
  rewrite <- (take_drop (Z.to_nat n) (drop (Z.to_nat i) r)) at 1.
  apply copy_from_app; rewrite ?length_take, ?length_drop; lia.
Qed.

Lemma write_words_stores {A} n fuel s r size w (k : prog loc A) :
  0 <= size <= len r -> (w + n = words_count size)%nat -> (n <= fuel)%nat ->
  write_words fuel s r size (8 * Z.of_nat w) k =
  stores_prog (word_stores s (take (Z.to_nat size) r) w n) k.
Proof.
  intros Hs. unfold words_count. revert fuel w. induction n as [|n IH]; intros fuel w Hw Hf.
  - destruct fuel; cbn [write_words]; rewrite (proj2 (Z.ltb_ge _ _)); try done;
      Z.div_mod_to_equations; lia.
  - destruct fuel as [|fuel]; [lia|]. cbn [write_words].
    assert (8 * Z.of_nat w < size) by (Z.div_mod_to_equations; lia).
    rewrite (proj2 (Z.ltb_lt _ _)) by done.
    rewrite copy_from_Some by (repeat case_match; lia).
    unfold word_stores. cbn [seq map stores_prog].
    replace (8 * Z.of_nat w / 8) with (Z.of_nat w) by (Z.div_mod_to_equations; lia).
    replace (8 * Z.of_nat w + 8) with (8 * Z.of_nat (S w)) by lia.
    rewrite IH by lia. unfold word_stores, word_of. f_equal.
    rewrite (take_chunk r (Z.to_nat size) w (Z.to_nat (if size - 8 * Z.of_nat w <? 8
      then size - 8 * Z.of_nat w else 8))) by (try case_match; lia).
    do 3 f_equal. lia.
Qed.

Lemma stamp_odd n : 0 <= n -> 2 * n + 1 < 2 ^ 64 -> Z.lor (u64 (Z.shiftl n 1)) 1 = 2 * n + 1.
Proof.
  intros. rewrite (wrap_small 64) by (rewrite Z.shiftl_mul_pow2 by lia; ranges; lia).
  rewrite lor_shiftl_add by lia. lia.
Qed.

Lemma stamp_even n : 0 <= n -> 2 * n < 2 ^ 64 -> u64 (Z.shiftl n 1) = 2 * n.
Proof. intros. rewrite Z.shiftl_mul_pow2 by lia. rewrite wrap_small; ranges; lia. Qed.

Lemma write_accepted n r size h a :
  0 <= n -> size <= len r -> bytes r -> in_range 64 h -> in_range 64 a ->
  write_refused n size h a = false ->
  good_entry (mkEntry (take (Z.to_nat size) r) h a) /\ n + 1 < UINT64_MAX / 2 /\
  PLANKCameraLinkWriteTimed true (Some n) (Some r) size h a =
    stores_prog (write_stores (n + 1) (mkEntry (take (Z.to_nat size) r) h a))
      (Ret (true, Some (n + 1))).
Proof.
  intros Hn Hs Hb Hh Ha Hr. unfold PLANKCameraLinkWriteTimed. rewrite Hr.
  unfold write_refused in Hr. guards.
  assert (PLANK_CAMERA_HEADER_BYTES = 64) as Hh64 by done.
  assert (n + 1 < UINT64_MAX / 2) as Hn1 by lia.
  assert (UINT64_MAX / 2 = 9223372036854775807) as Hmax by done.
  assert (len (take (Z.to_nat size) r) = size) as Hlen by (rewrite length_take; lia).
  split_and!; [|done|].
  { constructor; cbn [e_record e_hostTime e_arrived]; [by apply Forall_take|lia|ranges; lia..]. }
  rewrite (wrap_small 64 (n + 1)) by (ranges; lia).
  rewrite stamp_odd, stamp_even by (ranges; lia).
  fold (slot_of (n + 1)). unfold write_stores, data_stores. cbn [e_record e_hostTime e_arrived stores_prog app].
  rewrite Hlen, stores_prog_app. cbn [stores_prog].
  change 0 with (8 * Z.of_nat 0) at 1.
  rewrite (write_words_stores (words_count size)) by
    (unfold words_count; Z.div_mod_to_equations; lia).
  done.
Qed.

Definition loc_slot (l : loc) : option Z :=
  match l with
  | Stamp s | Size s | HostTime s | Arrived s | Word s _ => Some s
  | _ => None
  end.

(** The data stores touch the slot's data fields only, each once. *)
Lemma data_stores_locs s e :
  Forall (fun st => loc_slot st.1 = Some s /\ st.1 <> Stamp s) (data_stores s e).
Proof.
  unfold data_stores, word_stores. repeat (constructor; [done|]).
  apply Forall_map, Forall_forall. done.
Qed.

Lemma data_stores_NoDup s e : NoDup (map fst (data_stores s e)).
Proof.
  unfold data_stores, word_stores. cbn [map fst]. rewrite map_map. cbn [fst].
  repeat (apply NoDup_cons; split;
    [intros H; repeat (apply elem_of_cons in H as [H|H]; [discriminate H|]);
     apply list_elem_of_fmap in H as (? & ? & _); done|]).
  apply NoDup_fmap_2; [|apply NoDup_ListNoDup, seq_NoDup].
  intros x y [= E]. lia.
Qed.

(** The data fields of slot [s] are those of [e]. *)
Definition holds (m : mem loc) (s : Z) (e : entry) : Prop :=
  m (Size s) = len (e_record e) /\ m (HostTime s) = e_hostTime e /\ m (Arrived s) = e_arrived e /\
  forall w : nat, (8 * w < length (e_record e))%nat -> m (Word s (Z.of_nat w)) = word_of (e_record e) w.

Lemma holds_data_stores m s e : holds (apply_stores (data_stores s e) m) s e.
Proof.
  pose proof (data_stores_NoDup s e) as Hnd.
  split_and!; [apply apply_stores_in; [done|]..|].
  - unfold data_stores. apply elem_of_cons. by left.
  - unfold data_stores. apply elem_of_cons; right. apply elem_of_cons. by left.
  - unfold data_stores. do 2 (apply elem_of_cons; right). apply elem_of_cons. by left.
  - intros w Hw. apply apply_stores_in; [done|]. unfold data_stores.
    do 3 (apply elem_of_cons; right). apply list_elem_of_fmap. exists w. split; [done|].
    apply elem_of_seq. unfold words_count. Z.div_mod_to_equations; lia.
Qed.

Lemma holds_frame m m' s e :
  (forall l, loc_slot l = Some s -> l <> Stamp s -> m' l = m l) -> holds m s e -> holds m' s e.
Proof.
  intros Hf (H1 & H2 & H3 & H4). split_and!; [rewrite Hf; done..|].
  intros w Hw. rewrite Hf by done. by apply H4.
Qed.

(** ** The invariant of the shared memory *)

(** The order in which the stamps of a slot appear: 2n+1 (being written) comes
    just before 2n (complete). *)
Definition rank (stamp : Z) : Z := stamp + 1 - 2 * (stamp mod 2).

Lemma rank_odd n : rank (2 * n + 1) = 2 * n.
Proof. unfold rank. Z.div_mod_to_equations. lia. Qed.
Lemma rank_even n : rank (2 * n) = 2 * n + 1.
Proof. unfold rank. Z.div_mod_to_equations. lia. Qed.
Lemma rank_inj a b : rank a = rank b -> a = b.
Proof. unfold rank. Z.div_mod_to_equations. lia. Qed.

(** A slot whose stamp says "record [k], complete" holds record [k]. *)
Definition consistent (m : mem loc) (log : list entry) : Prop :=
  forall k, 1 <= k -> m (Stamp (slot_of k)) = 2 * k ->
    exists e, log !! Z.to_nat (k - 1) = Some e /\ good_entry e /\ holds m (slot_of k) e.

Record idle (m : mem loc) (log : list entry) : Prop := {
  idle_published : m Published = len log;
  idle_bound : forall s, 0 <= s < 3 -> rank (m (Stamp s)) <= 2 * len log + 1;
  idle_consistent : consistent m log;
  idle_recent : forall i : nat, (i < length log)%nat -> (length log <= i + 3)%nat ->
    m (Stamp (slot_of (Z.of_nat i + 1))) = 2 * (Z.of_nat i + 1);
  idle_log : len log < UINT64_MAX / 2 }.

(** How the shared memory may change while a reader is at work. *)
Definition future (m : mem loc) (log : list entry) (m' : mem loc) (log' : list entry) : Prop :=
  (exists more, log' = log ++ more) /\
  forall s, 0 <= s < 3 -> rank (m (Stamp s)) <= rank (m' (Stamp s)).

Lemma future_refl m log : future m log m log.
Proof. split; [exists []; by rewrite app_nil_r|done]. Qed.

Lemma future_trans m1 l1 m2 l2 m3 l3 :
  future m1 l1 m2 l2 -> future m2 l2 m3 l3 -> future m1 l1 m3 l3.
Proof.
  intros [[x ->] H1] [[y ->] H2]. split; [exists (x ++ y); by rewrite app_assoc|].
  intros s Hs. specialize (H1 s Hs). specialize (H2 s Hs). lia.
Qed.

(** A call in progress: [done_] of its stores are in memory. *)
Definition writing (m : mem loc) (log0 : list entry) (e : entry) (done_ rest : list (loc * Z)) : Prop :=
  exists m0, idle m0 log0 /\ m = apply_stores done_ m0 /\ good_entry e /\
    len log0 + 1 < UINT64_MAX / 2 /\ write_stores (len log0 + 1) e = done_ ++ rest.

Lemma write_stores_split next e done_ rest :
  write_stores next e = done_ ++ rest ->
  done_ = [] \/
  (exists d, done_ = (Stamp (slot_of next), 2 * next + 1) :: d /\
             exists d', data_stores (slot_of next) e = d ++ d') \/
  exists tail, done_ = (Stamp (slot_of next), 2 * next + 1) :: data_stores (slot_of next) e ++
                 (Stamp (slot_of next), 2 * next) :: tail /\
               (tail = [] /\ rest = [(Published, next)] \/ tail = [(Published, next)] /\ rest = []).
Proof.
  unfold write_stores. generalize (data_stores (slot_of next) e) as ds. intros ds H.
  destruct done_ as [|st d]; [by left|right]. injection H as <- H.
  destruct (decide (length d <= length ds)%nat) as [Hl|Hl].
  - left. exists d. split; [done|]. exists (drop (length d) ds).
    apply (f_equal (take (length d))) in H.
    rewrite take_app_length, take_app_le in H by lia. rewrite <- H at 1. by rewrite take_drop.
  - right. apply (f_equal (take (length d))) in H as Ht. apply (f_equal (drop (length d))) in H as Hd.
    rewrite take_app_length in Ht. rewrite drop_app_length in Hd.
    rewrite take_app_ge in Ht by lia. rewrite drop_app_ge in Hd by lia.
    remember (length d - length ds)%nat as n eqn:En. clear H.
    destruct n as [|[|[|n]]]; [lia|..]; cbn in Ht, Hd; rewrite ?drop_nil, ?take_nil in *;
      subst d rest; eexists; (split; [reflexivity|tauto]).
Qed.

Lemma consistent_extend m m0 log more s :
  (forall l s', loc_slot l = Some s' -> s' <> s -> m l = m0 l) ->
  consistent m0 log ->
  (forall k, 1 <= k -> slot_of k = s -> m (Stamp s) = 2 * k ->
    exists e, (log ++ more) !! Z.to_nat (k - 1) = Some e /\ good_entry e /\ holds m s e) ->
  consistent m (log ++ more).
Proof.
  intros Hf Hc Hs k Hk Hst. destruct (decide (slot_of k = s)) as [<-|Hne]; [by apply Hs|].
  rewrite (Hf _ (slot_of k)) in Hst by done.
  destruct (Hc k Hk Hst) as (e & He & Hg & Hh). exists e. split_and!; [|done|].
  - by apply lookup_app_l_Some.
  - eapply holds_frame; [|done]. intros l Hl _. by apply (Hf _ (slot_of k)).
Qed.

Lemma write_stores_locs next e :
  Forall (fun st => loc_slot st.1 = Some (slot_of next) \/ st.1 = Published) (write_stores next e).
Proof.
  unfold write_stores. constructor; [by left|]. apply Forall_app. split.
  - eapply Forall_impl; [apply data_stores_locs|]. intros st [? _]. by left.
  - repeat constructor; tauto.
Qed.

Lemma writing_other m0 d next e rest l s' :
  write_stores next e = d ++ rest -> loc_slot l = Some s' -> s' <> slot_of next ->
  apply_stores d m0 l = m0 l.
Proof.
  intros Hw Hl Hne. apply apply_stores_other.
  pose proof (write_stores_locs next e) as H. rewrite Hw in H. apply Forall_app in H as [H _].
  eapply Forall_impl; [exact H|]. intros [a v] [E|E] <-; cbn in *; [congruence|by subst].
Qed.

(** Stamp of the slot being written. *)
Lemma data_keep_stamp m s e d d' :
  data_stores s e = d ++ d' -> apply_stores d m (Stamp s) = m (Stamp s).
Proof.
  intros Hd. apply apply_stores_other. pose proof (data_stores_locs s e) as H.
  rewrite Hd in H. apply Forall_app in H as [H _].
  eapply Forall_impl; [exact H|]. by intros [a v] [_ ?].
Qed.

Lemma writing_phase m log0 e d rest :
  writing m log0 e d rest -> let next := len log0 + 1 in
  let s := slot_of next in
  (d = [] /\ idle m log0) \/
  (m (Stamp s) = 2 * next + 1) \/
  (m (Stamp s) = 2 * next /\ holds m s e /\
   (rest = [(Published, next)] \/ rest = [] /\ m Published = next)).
Proof.
  intros (m0 & Hi & -> & Hg & _ & Hw). cbn zeta.
  apply write_stores_split in Hw as [->|[(d0 & -> & d' & Hd)|(tl & -> & Htl)]]; [by left|right..].
  - left. cbn. change (foldl _ ?m0 d0) with (apply_stores d0 m0).
    rewrite (data_keep_stamp _ _ _ _ _ Hd). apply upd_same.
  - right. set (next := len log0 + 1) in *. set (s := slot_of next) in *.
    change ((Stamp s, 2 * next + 1) :: data_stores s e ++ (Stamp s, 2 * next) :: tl)
      with (([(Stamp s, 2 * next + 1)] ++ data_stores s e) ++ ([(Stamp s, 2 * next)] ++ tl)).
    rewrite !apply_stores_app. set (m1 := apply_stores [_] m0).
    assert (apply_stores tl (apply_stores [(Stamp s, 2 * next)] (apply_stores (data_stores s e) m1)) =
      (if decide (tl = []) then fun m => m else fun m => upd m Published next)
        (upd (apply_stores (data_stores s e) m1) (Stamp s) (2 * next))) as ->.
    { destruct Htl as [[-> _]|[-> _]]; done. }
    split_and!.
    + case_decide; [|rewrite upd_other by done]; apply upd_same.
    + eapply holds_frame; [|apply (holds_data_stores m1)]. intros l Hl Hne.
      case_decide; [|rewrite (upd_other _ Published) by (intros <-; done)];
        by rewrite upd_other by congruence.
    + destruct Htl as [[-> ->]|[-> ->]]; [by left|right]. split; [done|]. apply upd_same.
Qed.

Lemma writing_frame m log0 e d rest :
  writing m log0 e d rest -> exists m0, idle m0 log0 /\ good_entry e /\
    len log0 + 1 < UINT64_MAX / 2 /\
    forall l s', loc_slot l = Some s' -> s' <> slot_of (len log0 + 1) -> m l = m0 l.
Proof.
  intros (m0 & Hi & -> & Hg & Hn & Hw). exists m0. split_and!; [done..|].
  intros. by eapply writing_other.
Qed.

Lemma log_last (log0 : list entry) e k :
  k = len log0 + 1 -> (log0 ++ [e]) !! Z.to_nat (k - 1) = Some e.
Proof. intros ->. replace (Z.to_nat _) with (length log0) by lia. by apply list_lookup_middle. Qed.

Lemma writing_consistent m log0 e d rest :
  writing m log0 e d rest -> consistent m (log0 ++ [e]).
Proof.
  intros Hw. pose proof (writing_phase _ _ _ _ _ Hw) as Hp. cbn zeta in Hp.
  apply writing_frame in Hw as (m0 & Hi & Hg & Hn & Hf).
  eapply consistent_extend; [exact Hf|apply Hi|]. intros k Hk Hs Hst.
  destruct Hp as [[_ Hm]|[Ho|(He & Hh & _)]].
  - rewrite <- Hs in Hst. destruct (idle_consistent _ _ Hm k Hk Hst) as (e' & Hl & ? & ?).
    exists e'. rewrite <- Hs. split_and!; [|done..]. by apply lookup_app_l_Some.
  - lia.
  - exists e. assert (k = len log0 + 1) by lia. split_and!; [by apply log_last|done..].
Qed.

Lemma slot_of_shift a b : 0 <= a < b -> b < a + 3 -> slot_of a <> slot_of b.
Proof. unfold slot_of. intros. Z.div_mod_to_equations. lia. Qed.

Lemma writing_done m log0 e d : writing m log0 e d [] -> idle m (log0 ++ [e]).
Proof.
  intros Hw. pose proof (writing_consistent _ _ _ _ _ Hw) as Hc.
  pose proof (writing_phase _ _ _ _ _ Hw) as Hp. cbn zeta in Hp.
  destruct Hp as [[-> Hm]|Hp].
  { destruct Hw as (? & _ & _ & _ & _ & Hw). done. }
  assert (m (Stamp (slot_of (len log0 + 1))) = 2 * (len log0 + 1) /\ m Published = len log0 + 1) as [Hs Hpub].
  { destruct Hp as [Ho|(Hs & _ & [H|[_ H]])]; [|done|done].
    exfalso. destruct Hw as (m0 & _ & -> & _ & _ & Hw). rewrite app_nil_r in Hw. subst d.
    unfold write_stores in Ho. rewrite app_comm_cons, apply_stores_app in Ho.
    cbn in Ho. rewrite upd_other, upd_same in Ho by done. lia. }
  apply writing_frame in Hw as (m0 & Hi & Hg & Hn & Hf).
  split.
  - rewrite Hpub, length_app. cbn. lia.
  - intros s Hr. rewrite length_app, Nat2Z.inj_add. cbn [length].
    destruct (decide (s = slot_of (len log0 + 1))) as [->|Hne].
    + rewrite Hs, rank_even. lia.
    + rewrite (Hf _ s) by done. pose proof (idle_bound _ _ Hi s Hr). lia.
  - done.
  - intros i Hi1 Hi2. rewrite length_app in *. cbn [length] in *.
    destruct (decide (i = length log0)) as [->|]; [done|].
    rewrite (Hf _ (slot_of (Z.of_nat i + 1))); [|done|apply slot_of_shift; lia].
    apply (idle_recent _ _ Hi); lia.
  - rewrite length_app. cbn. lia.
Qed.

(** One more store of the call. *)
Lemma writing_step m log0 e d l v rest :
  writing m log0 e d ((l, v) :: rest) ->
  writing (upd m l v) log0 e (d ++ [(l, v)]) rest /\
  future m (log0 ++ [e]) (upd m l v) (log0 ++ [e]).
Proof.
  intros Hw. pose proof (writing_phase _ _ _ _ _ Hw) as Hp. cbn zeta in Hp.
  assert (writing (upd m l v) log0 e (d ++ [(l, v)]) rest) as Hw'.
  { destruct Hw as (m0 & Hi & -> & Hg & Hn & Hw). exists m0. split_and!; try done.
    - by rewrite apply_stores_app.
    - by rewrite Hw, <- app_assoc. }
  split; [done|]. split; [exists []; by rewrite app_nil_r|]. intros s Hs.
  pose proof (writing_phase _ _ _ _ _ Hw') as Hp'. cbn zeta in Hp'.
  assert (d ++ [(l, v)] <> []) as Hne by by destruct d.
  destruct (decide (s = slot_of (len log0 + 1))) as [->|Hds].
  - assert (rank (m (Stamp (slot_of (len log0 + 1)))) <= 2 * (len log0 + 1)
      \/ m (Stamp (slot_of (len log0 + 1))) = 2 * (len log0 + 1)) as Hm.
    { destruct Hp as [[_ Hi]|[-> |[-> _]]].
      - left. pose proof (idle_bound _ _ Hi _ Hs). lia.
      - left. rewrite rank_odd. lia.
      - by right. }
    destruct Hp' as [[H _]|[Ho|[He _]]]; [done|rewrite Ho, rank_odd|rewrite He, rank_even].
    + destruct Hm as [Hm|Hm]; [lia|]. exfalso.
      destruct Hp as [[_ Hi]|[Ho'|[_ (_ & [H|[H _]])]]]; [| |injection H as -> -> ->|done].
      * pose proof (idle_bound _ _ Hi _ Hs) as Hb. rewrite Hm, rank_even in Hb. lia.
      * lia.
      * rewrite upd_other in Ho by done. lia.
    + destruct Hm as [Hm|Hm]; [lia|]. rewrite Hm, rank_even. lia.
  - rewrite upd_other; [lia|]. intros ->.
    destruct Hw as (m0 & _ & _ & _ & _ & Hw).
    pose proof (write_stores_locs (len log0 + 1) e) as H. rewrite Hw in H.
    apply Forall_app in H as [_ H]. apply Forall_cons in H as [[H|H] _]; [|done].
    injection H as H. done.
Qed.

(** ** What a reader can rely on *)

Abbreviation wp := (Atomic.wp consistent future).


(** What one record looks like in the caller's buffer after [offset] bytes. *)
Definition copied (r record : list Z) (buf : list Z) (offset : Z) : Prop :=
  buf = take (Z.to_nat offset) record ++ drop (Z.to_nat offset) r.

(** Either the slot moved on, or it still holds record [k] and [P] holds. *)
Definition unless_moved (m : mem loc) (k : Z) (P : Prop) : Prop :=
  rank (m (Stamp (slot_of k))) > 2 * k + 1 \/ P.

Lemma unless_moved_future m log m' log' k (P P' : Prop) :
  future m log m' log' -> unless_moved m k P ->
  (m' (Stamp (slot_of k)) = 2 * k -> P -> P') ->
  2 * k + 1 <= rank (m (Stamp (slot_of k))) ->
  unless_moved m' k P' /\ 2 * k + 1 <= rank (m' (Stamp (slot_of k))).
Proof.
  intros [_ Hf] Hu HP Hr. specialize (Hf _ (slot_of_range k)). split; [|lia].
  destruct (decide (rank (m' (Stamp (slot_of k))) > 2 * k + 1)) as [|Hle]; [by left|right].
  destruct Hu as [?|H]; [lia|]. apply HP; [|done]. apply rank_inj. rewrite rank_even. lia.
Qed.

Lemma copied_step (r rec buf : list Z) (o n : nat) :
  (o + n <= length rec)%nat -> (length rec <= length r)%nat ->
  copied r rec buf (Z.of_nat o) ->
  copy_to buf (Z.of_nat o) (take n (drop o rec)) =
    Some (take (o + n) rec ++ drop (o + n) r).
Proof.
  unfold copied. rewrite Nat2Z.id. intros Ho Hl ->.
  assert (length (take n (drop o rec)) = n) as Hn by (rewrite length_take, length_drop; lia).
  assert (length (take o rec) = o) as Ht by (rewrite length_take; lia).
  rewrite copy_to_Some by (rewrite ?length_app, ?length_drop, ?Hn, ?Ht; lia).
  rewrite Nat2Z.id, Hn. f_equal.
  rewrite take_app_length' by done. rewrite app_assoc. f_equal.
  - by rewrite take_take_drop.
  - rewrite drop_app_ge by lia. rewrite Ht, drop_drop. f_equal. lia.
Qed.

Section read_words.
Context (k : Z) (e : entry) (r : list Z) (count : Z).
Context (Hk : 1 <= k) (He : good_entry e).
Context (Hcount : 64 < count <= PLANKCameraRecordBytes) (Hfit : count <= len r).

(** The reader's view between two words, the copy having reached [offset]. *)
Definition reading (m : mem loc) (log : list entry) (buf : list Z) (offset : Z) : Prop :=
  log !! Z.to_nat (k - 1) = Some e /\ 2 * k + 1 <= rank (m (Stamp (slot_of k))) /\
  length buf = length r /\
  unless_moved m k (count = len (e_record e) /\ copied r (e_record e) buf offset).

Lemma log_future m log m' log' : future m log m' log' ->
  log !! Z.to_nat (k - 1) = Some e -> log' !! Z.to_nat (k - 1) = Some e.
Proof. intros [[more ->] _] H. by apply lookup_app_l_Some. Qed.

Lemma consistent_holds m log :
  consistent m log -> log !! Z.to_nat (k - 1) = Some e -> m (Stamp (slot_of k)) = 2 * k ->
  holds m (slot_of k) e.
Proof. intros Hc Hl Hs. destruct (Hc k Hk Hs) as (e' & He' & _ & ?). congruence. Qed.

Lemma reading_word m log buf o m' log' :
  reading m log buf o -> consistent m' log' -> future m log m' log' ->
  0 <= o < count -> o mod 8 = 0 ->
  exists buf', copy_to buf o (le_bytes (Z.to_nat (if count - o <? 8 then count - o else 8))
                                (m' (Word (slot_of k) (o / 8)))) = Some buf' /\
    reading m' log' buf' (Z.min (o + 8) count).
Proof.
  intros (Hl & Hrk & Hbl & Hu) Hc Hf Ho Hm.
  set (n := Z.to_nat (if count - o <? 8 then count - o else 8)).
  assert (Z.of_nat n = Z.min (o + 8) count - o) as Hn by (unfold n; case_match; lia).
  set (word := m' (Word (slot_of k) (o / 8))).
  assert (exists buf', copy_to buf o (le_bytes n word) = Some buf') as [buf' Hb].
  { rewrite copy_to_Some by (rewrite ?le_bytes_length; lia). eauto. }
  exists buf'. split; [done|]. apply copy_to_length in Hb as Hbl'.
  pose proof (log_future _ _ _ _ Hf Hl) as Hl'.
  destruct (unless_moved_future _ _ _ _ k _
    (count = len (e_record e) /\ copied r (e_record e) buf' (Z.min (o + 8) count)) Hf Hu) as [Hu' Hrk'];
    [|done|].
  2: { split_and!; [done|done|by rewrite Hbl'|done]. }
  intros Hst [Hcl Hcp]. split; [done|].
  destruct (consistent_holds _ _ Hc Hl' Hst) as (_ & _ & _ & Hw).
  specialize (Hw (Z.to_nat (o / 8))).
  assert (8 * Z.to_nat (o / 8) = Z.to_nat o)%nat as E8 by (Z.div_mod_to_equations; lia).
  unfold word_of in Hw. rewrite E8 in Hw.
  rewrite Z2Nat.id in Hw by (Z.div_mod_to_equations; lia).
  assert (take 8 (drop (Z.to_nat o) (e_record e)) = take n (drop (Z.to_nat o) (e_record e))) as Etk.
  { destruct (decide (n = 8%nat)) as [->|]; [done|].
    rewrite !take_ge; [done|rewrite length_drop..]; lia. }
  unfold word in Hb. rewrite Hw in Hb by lia. rewrite Etk in Hb.
  assert (length (take n (drop (Z.to_nat o) (e_record e))) = n) as Hlen
    by (rewrite length_take, length_drop; lia).
  rewrite <- Hlen in Hb at 1. rewrite le_bytes_value in Hb
    by (apply Forall_take, Forall_drop, He).
  rewrite <- (Z2Nat.id o) in Hcp by lia. rewrite <- (Z2Nat.id o) in Hb at 1 by lia.
  rewrite (copied_step r) in Hb by (done || lia). injection Hb as <-.
  unfold copied. by replace (Z.to_nat (Z.min (o + 8) count)) with (Z.to_nat o + n)%nat by lia.
Qed.

Lemma wp_read_words {A} fuel (K : list Z -> prog loc A) (Q : A -> list entry -> Prop) m log buf o :
  reading m log buf (Z.min o count) -> 0 <= o <= count + 7 -> o mod 8 = 0 ->
  count - o <= Z.of_nat fuel ->
  (forall m' log' buf', future m log m' log' -> reading m' log' buf' count -> wp (K buf') Q m' log') ->
  wp (read_words fuel (slot_of k) count o buf K) Q m log.
Proof.
  revert m log buf o. induction fuel as [|fuel IH]; intros m log buf o Hr Ho Hm Hf HK;
    cbn [read_words]; destruct (Z.ltb_spec o count) as [Hlt|Hge]; try lia.
  1, 3: rewrite Z.min_r in Hr by lia; apply (HK m log); [apply future_refl|done].
  cbn [wp]. split.
  { cbn. rewrite slot_of_valid. unfold PLANKCameraRecordWords. Z.div_mod_to_equations. lia. }
  intros m' log' Hc Hf'. rewrite Z.min_l in Hr by lia.
  destruct (reading_word m log buf o m' log') as (buf' & -> & Hr'); [done..|lia|done|].
  apply IH; [done|Z.div_mod_to_equations; lia|Z.div_mod_to_equations; lia|lia|].
  intros m2 log2 buf2 Hf2 Hr2. apply HK; [|done]. by eapply future_trans.
Qed.

Lemma run_read_words {A} fuel (K : list Z -> prog loc A) m log buf o :
  consistent m log ->
  reading m log buf (Z.min o count) -> 0 <= o <= count + 7 -> o mod 8 = 0 ->
  count - o <= Z.of_nat fuel ->
  exists buf', reading m log buf' count /\
    run (read_words fuel (slot_of k) count o buf K) m = run (K buf') m.
Proof.
  intros Hc. revert buf o. induction fuel as [|fuel IH]; intros buf o Hr Ho Hm Hf;
    cbn [read_words]; destruct (Z.ltb_spec o count) as [Hlt|Hge]; try lia.
  1, 3: rewrite Z.min_r in Hr by lia; by exists buf.
  cbn [run]. 
  assert (valid_loc (Word (slot_of k) (o / 8)) = true) as ->.
  { cbn. rewrite slot_of_valid. unfold PLANKCameraRecordWords. Z.div_mod_to_equations. lia. }
  rewrite Z.min_l in Hr by lia.
  destruct (reading_word m log buf o m log) as (buf' & -> & Hr'); [done|done|apply future_refl|lia|done|].
  apply IH; [done|Z.div_mod_to_equations; lia|Z.div_mod_to_equations; lia|lia].
Qed.
End read_words.

(** What a read may return, given the producer's log when it returns. *)
Definition read_ok (c : Z) (r : list Z) (capacity : Z) (arrivalTime : option Z) (now : Z)
    (out : ReadOut) (log : list entry) : Prop :=
  (ro_result out = 1 /\ exists e, log !! Z.to_nat c = Some e /\
     ro_cursor out = Some (c + 1) /\ ro_size out = Some (len (e_record e)) /\
     ro_record out = Some (e_record e ++ drop (length (e_record e)) r) /\
     ro_hostTime out = Some (e_hostTime e) /\
     ro_arrivalTime out = (match arrivalTime with Some _ => Some (e_arrived e) | None => None end) /\
     len (e_record e) <= capacity /\
     e_arrived e <= now <= e_arrived e + PLANK_CAMERA_MAX_AGE_NS) \/
  ((ro_result out = 0 \/ ro_result out = -1) /\ ro_size out = Some 0 /\ ro_hostTime out = Some 0 /\
   ro_arrivalTime out = arrivalTime).

Lemma read_ok_extend c r capacity at_ now out log more :
  read_ok c r capacity at_ now out log -> read_ok c r capacity at_ now out (log ++ more).
Proof.
  intros [(H & e & He & Hrest)|H]; [left|by right]. split; [done|]. exists e.
  split; [by apply lookup_app_l_Some|done].
Qed.

(** A slot seen complete either has moved on or still reads as record [k]. *)
Lemma load_field k e m log m' log' l v :
  1 <= k -> log !! Z.to_nat (k - 1) = Some e -> 2 * k + 1 <= rank (m (Stamp (slot_of k))) ->
  consistent m' log' -> future m log m' log' ->
  (holds m' (slot_of k) e -> m' l = v) ->
  unless_moved m' k (m' l = v) /\ 2 * k + 1 <= rank (m' (Stamp (slot_of k))).
Proof.
  intros Hk Hl Hr Hc Hf Hv.
  destruct (unless_moved_future m log m' log' k True (m' l = v) Hf) as [H1 H2]; [by right| |done|done].
  intros Hst _. apply Hv. eapply consistent_holds; [done|exact Hc| |done].
  by eapply log_future.
Qed.

(** What the reader knows of the header fields it loaded. *)
Lemma unless_moved_mono m log m' log' k P :
  future m log m' log' -> unless_moved m k P -> unless_moved m' k P.
Proof.
  intros [_ Hf] [H|H]; [left|by right]. specialize (Hf _ (slot_of_range k)). lia.
Qed.

Lemma unless_moved_end m log m' log' k P :
  future m log m' log' -> unless_moved m k P -> m' (Stamp (slot_of k)) = 2 * k -> P.
Proof.
  intros [_ Hf] [H|H] Hs; [|done]. specialize (Hf _ (slot_of_range k)).
  rewrite Hs, rank_even in Hf. lia.
Qed.

Lemma wp_read c r capacity size hostTime at_ now m log :
  in_range 64 c -> capacity <= len r ->
  wp (PLANKCameraLinkReadTimed true (Some c) (Some r) capacity (Some size) (Some hostTime) at_ now)
     (read_ok c r capacity at_ now) m log.
Proof.
  intros Hc Hcap. cbn [PLANKCameraLinkReadTimed wp].
  assert (forall res cur rec log', res = 0 \/ res = -1 ->
    read_ok c r capacity at_ now (mkOut res (Some cur) (Some rec) (Some 0) (Some 0) at_) log') as Hstop.
  { intros. right. by split_and!. }
  split; [done|]. intros m1 log1 _ _. set (published := m1 Published).
  destruct (published =? c) eqn:E1; [apply Hstop; tauto|].
  destruct ((published <? c) || (UINT64_MAX / 2 <=? published)) eqn:E2; [apply Hstop; tauto|].
  destruct (PLANKCameraSlots <? published - c); [apply Hstop; tauto|].
  assert (UINT64_MAX / 2 = 9223372036854775807) as Hmax by done.
  assert (0 <= c < 2 ^ 63) as Hc63 by (ranges; lia).
  assert (u64 (c + 1) = c + 1) as -> by (apply wrap_small; ranges; lia).
  set (k := c + 1). change ((k - 1) mod PLANKCameraSlots) with (slot_of k).
  rewrite stamp_even by (unfold k; ranges; lia).
  cbn [wp]. split; [apply slot_of_valid|]. intros m2 log2 Hc2 _.
  destruct (m2 (Stamp (slot_of k)) =? 2 * k) eqn:E3; cbn [negb]; [|apply Hstop; tauto].
  apply Z.eqb_eq in E3.
  destruct (Hc2 k ltac:(unfold k; lia) E3) as (e & Hl2 & Hg & _).
  assert (2 * k + 1 <= rank (m2 (Stamp (slot_of k)))) as Hr2 by (rewrite E3, rank_even; lia).
  cbn [wp]. split; [apply slot_of_valid|]. intros m3 log3 Hc3 Hf3.
  destruct (load_field k e m2 log2 m3 log3 (Size (slot_of k)) (len (e_record e))) as [U3 Hr3];
    [unfold k; lia|done..|by intros (? & _)|].
  pose proof (log_future k e _ _ _ _ Hf3 Hl2) as Hl3.
  cbn [wp]. split; [apply slot_of_valid|]. intros m4 log4 Hc4 Hf4.
  destruct (load_field k e m3 log3 m4 log4 (HostTime (slot_of k)) (e_hostTime e)) as [U4 Hr4];
    [unfold k; lia|done..|by intros (_ & ? & _)|].
  pose proof (log_future k e _ _ _ _ Hf4 Hl3) as Hl4.
  cbn [wp]. split; [apply slot_of_valid|]. intros m5 log5 Hc5 Hf5.
  destruct (load_field k e m4 log4 m5 log5 (Arrived (slot_of k)) (e_arrived e)) as [U5 Hr5];
    [unfold k; lia|done..|by intros (_ & _ & ? & _)|].
  pose proof (log_future k e _ _ _ _ Hf5 Hl4) as Hl5.
  set (count := m3 (Size (slot_of k))) in *. set (time := m4 (HostTime (slot_of k))) in *.
  set (arrived := m5 (Arrived (slot_of k))) in *.
  destruct (snapshot_refused count time arrived capacity now) eqn:E4; [apply Hstop; tauto|].
  unfold snapshot_refused in E4. guards.
  assert (PLANK_CAMERA_HEADER_BYTES = 64) as Hh64 by done.
  pose proof (future_trans _ _ _ _ _ _ Hf4 Hf5) as Hf35.
  apply (wp_read_words k e r count) with (o := 0).
  - unfold k; lia.
  - done.
  - lia.
  - lia.
  - split_and!; [done|done|done|].
    destruct (unless_moved_mono _ _ _ _ _ _ Hf35 U3) as [?|?]; [by left|right].
    split; [done|]. rewrite Z.min_l by lia. done.
  - lia.
  - done.
  - lia.
  - intros m6 log6 buf Hf6 (Hl6 & Hr6 & Hbl & U6). cbn [wp]. split; [apply slot_of_valid|].
    intros m7 log7 Hc7 Hf7.
    destruct (m7 (Stamp (slot_of k)) =? 2 * k) eqn:E7; cbn [negb wp]; [|apply Hstop; tauto].
    apply Z.eqb_eq in E7.
    destruct (unless_moved_end _ _ _ _ _ _ Hf7 U6 E7) as [Ecount Ecp].
    pose proof (unless_moved_end _ _ _ _ _ _ (future_trans _ _ _ _ _ _ Hf5
      (future_trans _ _ _ _ _ _ Hf6 Hf7)) U4 E7) as Etime.
    pose proof (unless_moved_end _ _ _ _ _ _ (future_trans _ _ _ _ _ _ Hf6 Hf7) U5 E7) as Earr.
    left. split; [done|]. exists e. cbn [ro_cursor ro_size ro_record ro_hostTime ro_arrivalTime].
    unfold copied in Ecp. rewrite Ecount, Nat2Z.id, firstn_all in Ecp.
    pose proof (log_future k e _ _ _ _ Hf7 Hl6) as Hl7. unfold k in Hl7.
    replace (c + 1 - 1) with c in Hl7 by lia.
    split_and!; [done|done|congruence|congruence|congruence|by rewrite Earr|lia|lia|lia].
Qed.

#[local] Arguments write_refused : simpl never.
#[local] Arguments PLANKCameraLinkWriteTimed : simpl never.
#[local] Arguments PLANKCameraLinkReadTimed : simpl never.
#[local] Arguments write_stores : simpl never.

(** ** The invariant of the two processes *)

Definition writer_inv (c : config) : Prop :=
  match c_writer c with
  | None => idle (c_mem c) (c_log c) /\ c_serial c = len (c_log c)
  | Some p =>
      (exists b, p = Ret (b, Some (len (c_log c))) /\ idle (c_mem c) (c_log c)) \/
      (exists log0 e done_ st rest, c_log c = log0 ++ [e] /\
         writing (c_mem c) log0 e done_ (st :: rest) /\
         p = stores_prog (st :: rest) (Ret (true, Some (len log0 + 1))))
  end.

Definition reader_inv (c : config) : Prop :=
  match c_reader c with
  | None => True
  | Some p => exists cursor r capacity at_ now,
      wp p (read_ok cursor r capacity at_ now) (c_mem c) (c_log c)
  end.

Lemma idle_init : idle PLANKCameraLinkInit [].
Proof.
  split; try done.
  - intros k Hk H. cbn in H. lia.
  - cbn. lia.
Qed.

Lemma writer_consistent c : writer_inv c -> consistent (c_mem c) (c_log c).
Proof.
  unfold writer_inv. destruct (c_writer c) as [p|]; [|intros [? _]; by apply idle_consistent].
  intros [(b & _ & Hi)|(log0 & e & d & st & rest & -> & Hw & _)].
  - by apply idle_consistent.
  - by eapply writing_consistent.
Qed.

Lemma idle_writing m log e :
  idle m log -> good_entry e -> len log + 1 < UINT64_MAX / 2 ->
  writing m log e [] (write_stores (len log + 1) e).
Proof. intros. exists m. by split_and!. Qed.

Lemma writer_step c c' :
  writer_inv c -> step c c' ->
  writer_inv c' /\ future (c_mem c) (c_log c) (c_mem c') (c_log c').
Proof.
  intros Hi Hstep. inversion Hstep; subst; unfold writer_inv in *; cbn in *.
  - destruct Hi as [Hi ->]. destruct (write_refused (len log) size h a) eqn:Hr.
    + split; [|apply future_refl]. left. exists false. split; [|done].
      unfold PLANKCameraLinkWriteTimed. by rewrite Hr.
    + destruct (write_accepted (len log) r size h a) as (Hg & Hn & Hp); [lia|done..|].
      rewrite Hp. split.
      * right. eexists log, _, [], _, _. split; [done|]. split; [by apply idle_writing|done].
      * split; [eauto|done].
  - destruct Hi as [(b & ? & _)|(log0 & e & d & [l' v'] & rest & -> & Hw & Hp)]; [done|].
    cbn [stores_prog] in Hp. injection Hp as -> -> ->.
    destruct (writing_step _ _ _ _ _ _ _ Hw) as [Hw' Hf]. split; [|done].
    destruct rest as [|st rest].
    + left. exists true. rewrite length_app, Nat2Z.inj_add. cbn. split; [done|].
      by eapply writing_done.
    + right. by exists log0, e, (d ++ [(l', v')]), st, rest.
  - destruct Hi as [(b' & [= -> ->] & Hi)|(log0 & e & d & [l' v'] & rest & -> & Hw & Hp)]; [|done].
    split; [done|apply future_refl].
  - split; [done|apply future_refl].
  - split; [done|apply future_refl].
  - split; [done|apply future_refl].
Qed.

Lemma invariant c : reachable c -> writer_inv c /\ reader_inv c.
Proof.
  induction 1 as [|c c' Hr [Hw Hrd] Hstep].
  { split; [split; [apply idle_init|done]|done]. }
  pose proof (writer_consistent _ Hw) as Hc.
  destruct (writer_step _ _ Hw Hstep) as [Hw' Hf]. split; [done|].
  assert (forall p, c_reader c = Some p -> c_reader c' = Some p -> reader_inv c') as Hkeep.
  { intros p E E'. unfold reader_inv in *. rewrite E in Hrd. rewrite E'.
    destruct Hrd as (cu & r & cap & at_ & now & Hwp). exists cu, r, cap, at_, now.
    eapply (wp_future consistent future future_trans); [|exact Hf|done].
    destruct Hf as [[more ->] _]. intros. by apply read_ok_extend. }
  inversion Hstep; subst; cbn in *.
  1-3: destruct rd as [p|]; [by apply (Hkeep p)|done].
  - exists c0, r, capacity, arrivalTime, now. by apply wp_read.
  - unfold reader_inv in *. cbn in *. destruct Hrd as (cu & r & cap & at_ & nw & [_ Hwp]).
    exists cu, r, cap, at_, nw. apply Hwp; [done|apply future_refl].
  - done.
Qed.

(** ** A read while no write is in progress *)

Definition camera_read_spec (log : list entry) (c : Z) (r : list Z) (capacity : Z)
    (arrivalTime : option Z) (now : Z) : ReadOut :=
  let n := len log in
  let stop result cursor := mkOut result (Some cursor) (Some r) (Some 0) (Some 0) arrivalTime in
  if n =? c then stop 0 c
  else if n <? c then stop (-1) c
  else if 3 <? n - c then stop (-1) (n - 1)
  else match log !! Z.to_nat c with
  | None => stop (-1) c
  | Some e =>
      let size := len (e_record e) in
      if snapshot_refused size (e_hostTime e) (e_arrived e) capacity now then stop (-1) (c + 1)
      else mkOut 1 (Some (c + 1)) (Some (e_record e ++ drop (length (e_record e)) r)) (Some size)
             (Some (e_hostTime e))
             (match arrivalTime with Some _ => Some (e_arrived e) | None => None end)
  end.

Lemma run_read m log c r capacity size hostTime at_ now :
  idle m log -> in_range 64 c -> capacity <= len r ->
  run (PLANKCameraLinkReadTimed true (Some c) (Some r) capacity (Some size) (Some hostTime) at_ now) m
  = Some (camera_read_spec log c r capacity at_ now, m).
Proof.
  intros Hi Hc Hcap. unfold PLANKCameraLinkReadTimed, camera_read_spec.
  pose proof (idle_log _ _ Hi) as Hn. assert (UINT64_MAX / 2 = 9223372036854775807) as Hmax by done.
  rewrite run_load by done. rewrite (idle_published _ _ Hi).
  destruct (Z.eqb_spec (len log) c); [done|]. destruct (Z.ltb_spec (len log) c); [done|].
  rewrite (proj2 (Z.leb_gt (UINT64_MAX / 2) _)) by lia. cbn [orb].
  change PLANKCameraSlots with 3. destruct (Z.ltb_spec 3 (len log - c)); [done|].
  assert (0 <= c) by (ranges; lia).
  assert (u64 (c + 1) = c + 1) as -> by (apply wrap_small; ranges; lia).
  set (k := c + 1). change ((k - 1) mod 3) with (slot_of k).
  rewrite stamp_even by (unfold k; ranges; lia).
  assert (m (Stamp (slot_of k)) = 2 * k) as Hst.
  { pose proof (idle_recent _ _ Hi (Z.to_nat c)) as H'. rewrite Z2Nat.id in H' by lia.
    apply H'; lia. }
  destruct (idle_consistent _ _ Hi k ltac:(unfold k; lia) Hst) as (e & Hl & Hg & Hh).
  assert (k - 1 = c) as Ekc by (unfold k; lia). rewrite Ekc in Hl. rewrite Hl.
  rewrite run_load by apply slot_of_valid. rewrite Hst, Z.eqb_refl. cbn [negb].
  rewrite !run_load by apply slot_of_valid.
  pose proof Hh as (Hsz & Hht & Har & _). rewrite Hsz, Hht, Har.
  destruct (snapshot_refused _ _ _ _ _) eqn:E; [done|]. unfold snapshot_refused in E. guards.
  assert (PLANK_CAMERA_HEADER_BYTES = 64) as Hh64 by done.
  assert (reading k e r (len (e_record e)) m log r (Z.min 0 (len (e_record e)))) as Hr0.
  { rewrite Z.min_l by lia. split_and!; [by rewrite Ekc|rewrite Hst, rank_even; lia|done|by right]. }
  match goal with |- run (read_words ?f ?s ?n ?o ?b ?K) m = _ =>
    destruct (run_read_words k e r n ltac:(unfold k; lia) Hg ltac:(lia) ltac:(lia) f K m log b o
      (idle_consistent _ _ Hi) Hr0 ltac:(lia) eq_refl ltac:(lia)) as (buf & Hrd & ->) end.
  rewrite run_load by apply slot_of_valid. rewrite Hst, Z.eqb_refl. cbn [negb run].
  destruct Hrd as (_ & _ & _ & [Hbad|[_ Hcp]]); [rewrite Hst, rank_even in Hbad; lia|].
  unfold copied in Hcp. rewrite Nat2Z.id, firstn_all in Hcp. by subst buf.
Qed.

Lemma write_stores_valid next e :
  good_entry e -> Forall (fun st => valid_loc st.1 = true) (write_stores next e).
Proof.
  intros [_ Hs _ _]. pose proof (slot_of_valid next) as Hv. unfold write_stores, data_stores, word_stores.
  constructor; [done|]. apply Forall_app. split; [|by repeat constructor].
  repeat (constructor; [done|]). apply Forall_map, Forall_forall. intros w Hw.
  apply elem_of_seq in Hw. cbn. rewrite Hv. unfold words_count in Hw.
  change PLANKCameraRecordWords with ((PLANKCameraRecordBytes + 7) / 8).
  Z.div_mod_to_equations. lia.
Qed.

Lemma run_write m log r size h a :
  idle m log -> size <= len r -> bytes r -> in_range 64 h -> in_range 64 a ->
  write_refused (len log) size h a = false ->
  exists m', run (PLANKCameraLinkWriteTimed true (Some (len log)) (Some r) size h a) m
      = Some ((true, Some (len log + 1)), m') /\
    idle m' (log ++ [mkEntry (take (Z.to_nat size) r) h a]).
Proof.
  intros Hi Hs Hb Hh Ha Hr.
  destruct (write_accepted (len log) r size h a) as (Hg & Hn & ->); [lia|done..|].
  eexists. split; [by rewrite run_stores by (by apply write_stores_valid)|].
  apply (writing_done _ _ _ (write_stores (len log + 1) (mkEntry (take (Z.to_nat size) r) h a))).
  exists m. rewrite app_nil_r. by split_and!.
Qed.

(** ** Properties *)



(** C5: whenever no write is in progress, a complete read returns exactly what the
    specification over the producer's log says: 0 when the reader is up to date, -1
    and a jump to the newest record when more than three are unread, otherwise the
    next record in order (refused when stale or too big for the caller's buffer);
    and a complete write of an admissible record appends it, so that a reader that
    had everything else is handed precisely that record. *)
Theorem camera_link_fifo c r capacity size0 host0 arrivalTime now record size hostTime arrived :
  reachable c -> c_writer c = None ->
  capacity <= len r -> size <= len record -> bytes record ->
  in_range 64 hostTime -> in_range 64 arrived ->
  write_refused (c_serial c) size hostTime arrived = false ->
  (forall cursor, in_range 64 cursor ->
     run (PLANKCameraLinkReadTimed true (Some cursor) (Some r) capacity (Some size0) (Some host0)
            arrivalTime now) (c_mem c)
     = Some (camera_read_spec (c_log c) cursor r capacity arrivalTime now, c_mem c)) /\
  exists m', run (PLANKCameraLinkWriteTimed true (Some (c_serial c)) (Some record) size hostTime arrived)
                 (c_mem c) = Some ((true, Some (c_serial c + 1)), m') /\
    run (PLANKCameraLinkReadTimed true (Some (c_serial c)) (Some r) capacity (Some size0) (Some host0)
           arrivalTime now) m'
    = Some (if snapshot_refused size hostTime arrived capacity now
            then mkOut (-1) (Some (c_serial c + 1)) (Some r) (Some 0) (Some 0) arrivalTime
            else mkOut 1 (Some (c_serial c + 1))
                   (Some (take (Z.to_nat size) record ++ drop (Z.to_nat size) r)) (Some size)
                   (Some hostTime)
                   (match arrivalTime with Some _ => Some arrived | None => None end), m').
Proof.
  intros [Hw _]%invariant Hnone Hcap Hs Hb Hh Ha Hr. unfold writer_inv in Hw. rewrite Hnone in Hw.
  destruct Hw as [Hi Hser]. rewrite Hser in *. split; [intros; by apply run_read|].
  destruct (run_write _ _ record size hostTime arrived Hi) as (m' & Hm & Hi'); [done..|].
  exists m'. split; [done|].
  assert (64 < size) as H64 by (unfold write_refused in Hr; guards;
    assert (PLANK_CAMERA_HEADER_BYTES = 64) by done; lia).
  pose proof (idle_log _ _ Hi) as Hn. assert (UINT64_MAX / 2 = 9223372036854775807) as Hmax by done.
  rewrite (run_read _ _ _ _ _ _ _ _ _ Hi') by (done || ranges; lia).
  unfold camera_read_spec. rewrite length_app, Nat2Z.inj_add. cbn [length].
  change (Z.of_nat 1) with 1.
  rewrite (proj2 (Z.eqb_neq _ _)), (proj2 (Z.ltb_ge _ _)), (proj2 (Z.ltb_ge 3 _)) by lia.
  rewrite Nat2Z.id, list_lookup_middle by done. cbn [e_record e_hostTime e_arrived].
  rewrite length_take, Nat.min_l by lia. rewrite Z2Nat.id by lia. done.
Qed.

Lemma camera_link_fifo_witness :
  exists m', run (PLANKCameraLinkWriteTimed true (Some 0) (Some (replicate 65 7)) 65 5 6) (c_mem init)
    = Some ((true, Some 1), m') /\
    run (PLANKCameraLinkReadTimed true (Some 0) (Some (replicate 66 0)) 66 (Some 9) (Some 9) (Some 9) 10) m'
    = Some (mkOut 1 (Some 1) (Some (replicate 65 7 ++ [0])) (Some 65) (Some 5) (Some 6), m').
Proof.
  destruct (camera_link_fifo init (replicate 66 0) 66 9 9 (Some 9) 10 (replicate 65 7) 65 5 6
    reachable_init) as (_ & m' & Hw & Hrd); [concrete..|].
  exists m'. split; [exact Hw|exact Hrd].
Defined.
