(* ===== verification/CameraPayload.v ===== *)
(** * CameraPayload: apps/host/macos/media/native-camera-payload.h

    The framing checks on untrusted camera bytes before they reach Core Media:
    an Annex B H.264 access unit is split into NAL units, a baseline JPEG is
    walked marker by marker. *)

From Stdlib Require Import Btauto.
From S2P Require Import Prelude.
From S2P Require Import Endian.
From S2P Require Import CameraWire.

Definition PLANKCameraMaxNALs : Z := 64.
Definition PLANKCameraMaxParameterBytes : Z := 4096.

Record PLANKCameraNAL := mkNAL { nal_offset : Z; nal_size : Z; nal_type : Z }.

(** [nals] is the array of 64 elements, of which the first [count] are in use. *)
Record PLANKCameraPayload := mkPayload {
  pl_nals : list PLANKCameraNAL;
  pl_count : Z;
  pl_sps : Z;
  pl_pps : Z;
  pl_independent : bool }.

(** The result zeroed by [memset]. *)
Definition payload_zero : PLANKCameraPayload :=
  mkPayload (replicate (Z.to_nat PLANKCameraMaxNALs) (mkNAL 0 0 0)) 0 0 0 false.

(** [None] is an access outside the bytes. *)
Definition PLANKCameraStartCode (bytes : list Z) (size at_ : Z) : option Z :=
  if (size <? at_) || (size - at_ <? 3) then Some 0
  else
    b0 ← load bytes at_;
    if negb (b0 =? 0) then Some 0
    else
      b1 ← load bytes (at_ + 1);
      if negb (b1 =? 0) then Some 0
      else
        b2 ← load bytes (at_ + 2);
        if b2 =? 1 then Some 3
        else if (4 <=? size - at_) && (b2 =? 0) then
          b3 ← load bytes (at_ + 3); Some (if b3 =? 1 then 4 else 0)
        else Some 0.

(** [while (end < size && !PLANKCameraStartCode(bytes, size, end)) end++;] *)
Fixpoint nal_end (fuel : nat) (bytes : list Z) (size end_ : Z) : option Z :=
  if end_ <? size then
    match fuel with
    | O => None
    | S fuel' =>
        code ← PLANKCameraStartCode bytes size end_;
        if code =? 0 then nal_end fuel' bytes size (end_ + 1) else Some end_
    end
  else Some end_.

(** [while (end > begin && bytes[end-1] == 0) end--;] *)
Fixpoint trim_zeros (fuel : nat) (bytes : list Z) (begin_ end_ : Z) : option Z :=
  if begin_ <? end_ then
    match fuel with
    | O => None
    | S fuel' =>
        b ← load bytes (end_ - 1);
        if b =? 0 then trim_zeros fuel' bytes begin_ (end_ - 1) else Some end_
    end
  else Some end_.

(** The checks on one NAL unit; [None] is [return false], otherwise the updated
    [sps] and [pps] indices. *)
Definition nal_refused (first type size : Z) : bool :=
  negb (Z.land first 0x80 =? 0) ||
  (negb (type =? 1) && negb (type =? 5) && ((type <? 6) || (12 <? type))) ||
  (((type =? 1) || (type =? 5) || (type =? 7) || (type =? 8)) && (size <? 2)).

Definition parameter_refused (dependent : bool) (result : PLANKCameraPayload) (index size : Z) : bool :=
  dependent || pl_independent result || negb (index =? PLANKCameraMaxNALs) ||
  (PLANKCameraMaxParameterBytes <? size).

(** One NAL unit of [type] at [begin_] of [size] bytes is recorded. *)
Definition record_nal (result : PLANKCameraPayload) (begin_ size type : Z) : option PLANKCameraPayload :=
  nals ← store (pl_nals result) (pl_count result) (mkNAL begin_ size type);
  Some (mkPayload nals (pl_count result + 1)
          (if type =? 7 then pl_count result else pl_sps result)
          (if type =? 8 then pl_count result else pl_pps result)
          (if type =? 5 then true else pl_independent result)).

Fixpoint avc_loop (fuel : nat) (bytes : list Z) (size at_ adapted : Z) (dependent : bool)
    (result : PLANKCameraPayload) : option (bool * PLANKCameraPayload) :=
  if negb (at_ <? size) then
    Some (negb (pl_count result =? 0) && negb (eqb dependent (pl_independent result)) &&
          (negb (pl_independent result) ||
           ((pl_sps result <? pl_count result) && (pl_pps result <? pl_count result))), result)
  else
  match fuel with
  | O => None
  | S fuel' =>
      prefix_ ← PLANKCameraStartCode bytes size at_;
      stop_if (prefix_ =? 0) || (pl_count result =? PLANKCameraMaxNALs) with Some (false, result);
      let begin_ := at_ + prefix_ in
      next ← nal_end (Z.to_nat size) bytes size begin_;
      end_ ← trim_zeros (Z.to_nat size) bytes begin_ next;
      stop_if end_ =? begin_ with Some (false, result);
      first ← load bytes begin_;
      let type := Z.land first 31 in
      let n := end_ - begin_ in
      stop_if nal_refused first type n with Some (false, result);
      stop_if ((type =? 7) || (type =? 8)) &&
              parameter_refused dependent result
                (if type =? 7 then pl_sps result else pl_pps result) n
      with Some (false, result);
      result ← record_nal result begin_ n type;
      let adapted := adapted + 4 + end_ - begin_ in
      stop_if PLANK_CAMERA_MAX_FRAME_BYTES <? adapted with Some (false, result);
      avc_loop fuel' bytes size next adapted (if type =? 1 then true else dependent) result
  end.

Definition PLANKCameraParseAVC (bytes : list Z) (size : Z) (result : PLANKCameraPayload)
    : option (bool * PLANKCameraPayload) :=
  avc_loop (Z.to_nat size) bytes size 0 0 false
    (mkPayload (pl_nals result) (pl_count result) PLANKCameraMaxNALs PLANKCameraMaxNALs
       (pl_independent result)).

(** *** JPEG *)

(** [while (at < size && bytes[at] == 0xff) at++;] *)
Fixpoint skip_fill (fuel : nat) (bytes : list Z) (size at_ : Z) : option Z :=
  if at_ <? size then
    match fuel with
    | O => None
    | S fuel' =>
        b ← load bytes at_;
        if b =? 0xff then skip_fill fuel' bytes size (at_ + 1) else Some at_
    end
  else Some at_.

(** The entropy-coded bytes of the scan: [None] inside is [return false]. *)
Fixpoint skip_entropy (fuel : nat) (bytes : list Z) (size at_ : Z) : option (option Z) :=
  if at_ <? size then
    match fuel with
    | O => None
    | S fuel' =>
        b ← load bytes at_;
        if negb (b =? 0xff) then skip_entropy fuel' bytes size (at_ + 1)
        else if size - at_ <? 2 then Some None
        else
          b1 ← load bytes (at_ + 1);
          if (b1 =? 0) || ((0xd0 <=? b1) && (b1 <=? 0xd7))
          then skip_entropy fuel' bytes size (at_ + 2)
          else Some (Some at_)
    end
  else Some (Some at_).

(** The component loop of SOF0 from component [i]: the identifiers so far, or
    [None] inside for [return false].  [data] is an offset. *)
Fixpoint sof_components (todo : nat) (bytes : list Z) (data i : Z) (ids : list Z)
    : option (option (list Z)) :=
  match todo with
  | O => Some (Some ids)
  | S todo' =>
      id ← load bytes (data + 6 + 3 * i);
      sampling ← load bytes (data + 7 + 3 * i);
      table ← load bytes (data + 8 + 3 * i);
      let high := Z.shiftr sampling 4 in
      let low := Z.land sampling 15 in
      stop_if (high =? 0) || (4 <? high) || (low =? 0) || (4 <? low) || (3 <? table) ||
              existsb (Z.eqb id) ids with Some None;
      sof_components todo' bytes data (i + 1) (ids ++ [id])
  end.

(** The last component with identifier [id], or [components]. *)
Definition find_component (ids : list Z) (id : Z) : Z :=
  foldl (fun found j => if nth (Z.to_nat j) ids (-1) =? id then j else found)
    (len ids) (map Z.of_nat (seq 0 (length ids))).

(** The component loop of SOS; [seen] is the bit set of the components seen. *)
Fixpoint sos_components (todo : nat) (bytes : list Z) (data i : Z) (ids : list Z) (seen : Z)
    : option bool :=
  match todo with
  | O => Some true
  | S todo' =>
      id ← load bytes (data + 1 + 2 * i);
      tables ← load bytes (data + 2 + 2 * i);
      let found := find_component ids id in
      stop_if (found =? len ids) || Z.testbit seen found ||
              (3 <? Z.shiftr tables 4) || (3 <? Z.land tables 15) with Some false;
      sos_components todo' bytes data (i + 1) ids (Z.lor seen (Z.shiftl 1 found))
  end.

(** SOF0 with [payload] bytes at [data]: the component identifiers. *)
Definition parse_sof (bytes : list Z) (data payload width height : Z) : option (option (list Z)) :=
  stop_if payload <? 6 with Some None;
  d0 ← load bytes data; d1 ← load bytes (data + 1); d2 ← load bytes (data + 2);
  d3 ← load bytes (data + 3); d4 ← load bytes (data + 4); components ← load bytes (data + 5);
  stop_if negb (d0 =? 8) || negb (Z.lor (Z.shiftl d1 8) d2 =? height) ||
          negb (Z.lor (Z.shiftl d3 8) d4 =? width) with Some None;
  stop_if (negb (components =? 1) && negb (components =? 3)) ||
          negb (payload =? 6 + 3 * components) with Some None;
  sof_components (Z.to_nat components) bytes data 0 [].

Definition parse_sos (bytes : list Z) (data payload : Z) (ids : list Z) : option bool :=
  let components := len ids in
  stop_if (components =? 0) || negb (payload =? 4 + 2 * components) with Some false;
  d0 ← load bytes data; a ← load bytes (data + payload - 3);
  b ← load bytes (data + payload - 2); c ← load bytes (data + payload - 1);
  stop_if negb (d0 =? components) || negb (a =? 0) || negb (b =? 63) || negb (c =? 0) with Some false;
  sos_components (Z.to_nat components) bytes data 0 ids 0.

Definition other_marker_refused (marker : Z) : bool :=
  negb (marker =? 0xc4) && negb (marker =? 0xdb) && negb (marker =? 0xdd) &&
  negb (marker =? 0xfe) && negb ((0xe0 <=? marker) && (marker <=? 0xef)).

(** One iteration per marker; [ids] holds the first [components] identifiers. *)
Fixpoint jpeg_loop (fuel : nat) (bytes : list Z) (size width height at_ markers : Z)
    (ids : list Z) (scan : bool) : option bool :=
  if negb (at_ <? size) then Some false
  else
  match fuel with
  | O => None
  | S fuel' =>
      let markers := markers + 1 in
      stop_if 512 <? markers with Some false;
      b ← load bytes at_;
      stop_if negb (b =? 0xff) with Some false;
      at_ ← skip_fill (Z.to_nat size) bytes size (at_ + 1);
      stop_if at_ =? size with Some false;
      marker ← load bytes at_;
      let at_ := at_ + 1 in
      stop_if marker =? 0xd9 with Some (scan && (at_ =? size));
      stop_if scan || (marker =? 0) || (marker =? 1) ||
              ((0xd0 <=? marker) && (marker <=? 0xd8)) || (size - at_ <? 2) with Some false;
      l0 ← load bytes at_; l1 ← load bytes (at_ + 1);
      let length := Z.lor (Z.shiftl l0 8) l1 in
      stop_if (length <? 2) || (size - at_ <? length) with Some false;
      let data := at_ + 2 in
      let payload := length - 2 in
      if marker =? 0xc0 then
        stop_if negb (len ids =? 0) with Some false;
        r ← parse_sof bytes data payload width height;
        match r with
        | None => Some false
        | Some ids => jpeg_loop fuel' bytes size width height (at_ + length) markers ids scan
        end
      else if marker =? 0xda then
        ok ← parse_sos bytes data payload ids;
        stop_if negb ok with Some false;
        let start := at_ + length in
        r ← skip_entropy (Z.to_nat size) bytes size start;
        match r with
        | None => Some false
        | Some at_ =>
            stop_if at_ =? start with Some false;
            jpeg_loop fuel' bytes size width height at_ markers ids true
        end
      else
        stop_if other_marker_refused marker with Some false;
        jpeg_loop fuel' bytes size width height (at_ + length) markers ids scan
  end.

Definition PLANKCameraParseJPEG (bytes : list Z) (size width height : Z) : option bool :=
  stop_if size <? 4 with Some false;
  b0 ← load bytes 0; b1 ← load bytes 1;
  stop_if negb (b0 =? 0xff) || negb (b1 =? 0xd8) with Some false;
  jpeg_loop (Z.to_nat size) bytes size width height 2 0 [] false.

(** A null [result] or [bytes] is [None]. *)
Definition PLANKCameraParsePayload (header : option V1.PlankCameraHeader)
    (bytes : option (list Z)) (size : Z) (result : option PLANKCameraPayload)
    : option (bool * option PLANKCameraPayload) :=
  match result with
  | None => Some (false, None)
  | Some _ =>
      match bytes, header with
      | Some b, Some h =>
          stop_if negb (V1.plank_camera_header_valid header size) with Some (false, Some payload_zero);
          if V1.codec h =? PLANK_CAMERA_MJPEG then
            ok ← PLANKCameraParseJPEG b size (V1.width h) (V1.height h);
            Some (ok, Some (mkPayload (pl_nals payload_zero) 0 0 0 true))
          else
            '(ok, r) ← PLANKCameraParseAVC b size payload_zero;
            Some (ok && eqb (pl_independent r) (negb (Z.land (V1.flags h) PLANK_CAMERA_KEY_FRAME =? 0)),
                  Some r)
      | _, _ => Some (false, Some payload_zero)
      end
  end.

(** ** Annex B streams as lists *)

(** The length of the start code a list begins with, or 0. *)
Definition starts_code (l : list Z) : Z :=
  match l with
  | b0 :: b1 :: b2 :: l' =>
      if (b0 =? 0) && (b1 =? 0) then
        if b2 =? 1 then 3
        else match l' with
             | b3 :: _ => if (b2 =? 0) && (b3 =? 1) then 4 else 0
             | [] => 0
             end
      else 0
  | _ => 0
  end.

(** The bytes before the next start code, and the rest. *)
Fixpoint split_nal (l : list Z) : list Z * list Z :=
  match l with
  | [] => ([], [])
  | b :: l' => if starts_code l =? 0 then (b :: (split_nal l').1, (split_nal l').2) else ([], l)
  end.

Fixpoint strip_zeros (l : list Z) : list Z :=
  match l with
  | [] => []
  | b :: l' => match strip_zeros l' with [] => if b =? 0 then [] else [b] | s => b :: s end
  end.

(** One NAL unit of a stream: its start code, its bytes, the zeros after it. *)
Record unit_ := mkUnit { u_code : list Z; u_nal : list Z; u_zeros : nat }.
Definition unit_bytes (u : unit_) : list Z := u_code u ++ u_nal u ++ replicate (u_zeros u) 0.

Record unit_wf (u : unit_) : Prop := {
  wf_code : u_code u = [0; 0; 1] \/ u_code u = [0; 0; 0; 1];
  wf_last : exists l b, u_nal u = l ++ [b] /\ b <> 0;
  wf_clean : forall a b, u_nal u = a ++ b -> starts_code b = 0 }.

Definition stream (p : list Z) (us : list unit_) : Prop :=
  Forall unit_wf us /\ p = concat (map unit_bytes us).

Lemma start_code_app pre suf :
  PLANKCameraStartCode (pre ++ suf) (len (pre ++ suf)) (len pre) = Some (starts_code suf).
Proof.
  unfold PLANKCameraStartCode. rewrite length_app, Nat2Z.inj_add.
  rewrite (proj2 (Z.ltb_ge _ (len pre))) by lia.
  replace (len pre + len suf - len pre) with (len suf) by lia.
  destruct suf as [|b0 [|b1 [|b2 suf]]]; try done.
  rewrite (proj2 (Z.ltb_ge _ 3)) by (cbn [length]; lia). cbn [orb].
  rewrite <- (Z.add_0_r (len pre)) at 1. rewrite !load_app_r by lia.
  change (load _ 0) with (Some b0). change (load _ 1) with (Some b1).
  change (load _ 2) with (Some b2). cbn [mbind option_bind starts_code].
  destruct (b0 =? 0), (b1 =? 0); cbn [negb andb]; try done.
  destruct (b2 =? 1); [done|]. destruct suf as [|b3 suf].
  - by rewrite (proj2 (Z.leb_gt 4 _)) by (cbn; lia).
  - rewrite (proj2 (Z.leb_le 4 _)) by (cbn [length]; lia). cbn [andb].
    destruct (b2 =? 0); [|done]. change (load _ 3) with (Some b3). cbn. by destruct (b3 =? 1).
Qed.

Lemma split_nal_eq l : l = (split_nal l).1 ++ (split_nal l).2.
Proof.
  induction l as [|b l IH]; [done|]. cbn [split_nal].
  case_match; [|done]. cbn [fst snd app]. by rewrite <- IH.
Qed.

Lemma nal_end_app fuel pre suf :
  (length suf <= fuel)%nat ->
  nal_end fuel (pre ++ suf) (len (pre ++ suf)) (len pre) = Some (len pre + len (split_nal suf).1).
Proof.
  revert fuel pre. induction suf as [|b suf IH]; intros fuel pre Hf.
  { destruct fuel; cbn [nal_end]; rewrite app_nil_r, Z.ltb_irrefl; f_equal; cbn; lia. }
  destruct fuel as [|fuel]; [cbn in Hf; lia|]. cbn [nal_end].
  rewrite (proj2 (Z.ltb_lt _ _)) by (rewrite length_app; cbn; lia).
  rewrite start_code_app. cbn [mbind option_bind split_nal].
  destruct (starts_code (b :: suf) =? 0) eqn:E; [|f_equal; cbn; lia].
  specialize (IH fuel (pre ++ [b])). rewrite <- app_assoc in IH. cbn [app] in IH.
  replace (len (pre ++ [b])) with (len pre + 1) in IH by (rewrite length_app; cbn; lia).
  rewrite IH by (cbn in Hf; lia). f_equal. cbn [fst length]. lia.
Qed.

Lemma strip_zeros_app_nonzero l b r :
  b <> 0 -> strip_zeros (l ++ b :: r) = l ++ b :: strip_zeros r.
Proof.
  intros Hb. induction l as [|a l IH]; cbn.
  - destruct (strip_zeros r); [|done]. by rewrite (proj2 (Z.eqb_neq b 0)).
  - rewrite IH. by destruct l.
Qed.

Lemma strip_zeros_zeros n : strip_zeros (replicate n 0) = [].
Proof. induction n as [|n IH]; cbn; [done|]. by rewrite IH. Qed.

Lemma strip_zeros_snoc l b :
  strip_zeros (l ++ [b]) = if b =? 0 then strip_zeros l else l ++ [b].
Proof.
  destruct (Z.eqb_spec b 0) as [->|Hb]; [|by rewrite strip_zeros_app_nonzero].
  induction l as [|a l IH]; [done|]. cbn [app strip_zeros]. by rewrite IH.
Qed.

Lemma strip_zeros_spec l :
  exists n, l = strip_zeros l ++ replicate n 0 /\
    (strip_zeros l = [] \/ exists l' b, strip_zeros l = l' ++ [b] /\ b <> 0).
Proof.
  induction l as [|b l IH] using rev_ind; [exists 0%nat; split; [done|by left]|].
  rewrite strip_zeros_snoc. destruct (Z.eqb_spec b 0) as [->|Hb].
  - destruct IH as (n & He & Hl). exists (S n). split; [|done].
    rewrite replicate_S_end, app_assoc. by rewrite <- He.
  - exists 0%nat. rewrite app_nil_r. split; [done|]. right. eauto.
Qed.

Lemma trim_zeros_app fuel pre l rest :
  (length l <= fuel)%nat ->
  trim_zeros fuel (pre ++ l ++ rest) (len pre) (len pre + len l)
  = Some (len pre + len (strip_zeros l)).
Proof.
  revert fuel rest. induction l as [|b l IH] using rev_ind; intros fuel rest Hf.
  { destruct fuel; cbn [trim_zeros length]; rewrite Z.add_0_r, Z.ltb_irrefl; f_equal; cbn; lia. }
  rewrite length_app in *. cbn [length] in *.
  destruct fuel as [|fuel]; [lia|]. cbn [trim_zeros].
  rewrite (proj2 (Z.ltb_lt _ _)) by lia.
  rewrite <- app_assoc. cbn [app].
  replace (len pre + Z.of_nat (length l + 1) - 1) with (len pre + len l) by lia.
  rewrite (app_assoc pre l). rewrite load_here by (rewrite length_app; lia).
  cbn [mbind option_bind]. rewrite strip_zeros_snoc.
  destruct (b =? 0).
  - rewrite <- app_assoc. apply IH. lia.
  - f_equal. rewrite length_app. cbn. lia.
Qed.

(** Reading one unit off the front of a stream. *)
Lemma starts_code_code u rest : unit_wf u -> starts_code (unit_bytes u ++ rest) = len (u_code u).
Proof. destruct u as [c n z]. intros [[E | E] _ _]; cbn in E; by subst. Qed.

Lemma starts_code_app_last l b r : b <> 0 ->
  starts_code ((l ++ [b]) ++ r) = starts_code (l ++ [b]).
Proof.
  intros Hb. destruct l as [|x0 [|x1 [|x2 [|x3 l]]]]; cbn.
  - destruct r as [|? [|? ?]]; try done. by rewrite (proj2 (Z.eqb_neq b 0)).
  - destruct r as [|? ?]; try done. by rewrite (proj2 (Z.eqb_neq b 0)), andb_false_r.
  - destruct ((x0 =? 0) && (x1 =? 0)); [|done]. destruct (b =? 1); [done|].
    destruct r; [done|]. by rewrite (proj2 (Z.eqb_neq b 0)).
  - done.
  - done.
Qed.

Lemma split_nal_clean l b r :
  b <> 0 -> (forall a c, l ++ [b] = a ++ c -> starts_code c = 0) ->
  split_nal ((l ++ [b]) ++ r) = ((l ++ [b]) ++ (split_nal r).1, (split_nal r).2).
Proof.
  intros Hb Hc. induction l as [|x l IH].
  - cbn [app split_nal].
    pose proof (starts_code_app_last [] b r Hb) as E. cbn [app] in E. rewrite E.
    by rewrite (Hc [] [b]).
  - cbn [app split_nal]. pose proof (starts_code_app_last (x :: l) b r Hb) as E.
    cbn [app] in E. rewrite E. rewrite (Hc [] (x :: l ++ [b])) by done. cbn [Z.eqb].
    rewrite IH; [done|]. intros a c He. apply (Hc (x :: a)). cbn. by rewrite He.
Qed.

Lemma starts_code_zeros k : starts_code (replicate k 0) = 0.
Proof. do 4 (destruct k as [|k]; [done|]). done. Qed.

(** The zeros before a start code: at most the last one joins it. *)
Lemma split_zeros k us :
  Forall unit_wf us ->
  exists k' us', (split_nal (replicate k 0 ++ concat (map unit_bytes us))).1 = replicate k' 0 /\
    stream (split_nal (replicate k 0 ++ concat (map unit_bytes us))).2 us' /\
    map u_nal us' = map u_nal us.
Proof.
  intros Hus. induction k as [|k IH].
  - exists 0%nat, us. cbn [replicate app]. destruct us as [|u us]; [by split_and!|].
    apply Forall_cons in Hus as [Hu Hus]. cbn [map concat].
    assert (exists b l, unit_bytes u ++ concat (map unit_bytes us) = b :: l) as (b & l & E).
    { destruct u as [c n z], Hu as [[Hc|Hc] _ _]; cbn in Hc; subst; cbn; eauto. }
    assert (starts_code (b :: l) <> 0) as Hs.
    { rewrite <- E, starts_code_code by done. destruct Hu as [[-> | ->] _ _]; done. }
    rewrite E. cbn [split_nal]. rewrite (proj2 (Z.eqb_neq _ _)) by done. cbn [fst snd].
    split_and!; [done|split; [by constructor|by rewrite <- E]|done].
  - destruct IH as (k' & us' & H1 & H2 & H3). cbn [replicate app split_nal].
    destruct (Z.eqb_spec (starts_code (0 :: replicate k 0 ++ concat (map unit_bytes us))) 0) as [E|E].
    + exists (S k'), us'. cbn [fst snd replicate]. by rewrite H1.
    + cbn [fst snd]. destruct us as [|u us].
      { exfalso. apply E. rewrite app_nil_r. apply (starts_code_zeros (S k)). }
      apply Forall_cons in Hus as [Hu Hus]. destruct u as [c n z].
      assert (k = 0%nat /\ c = [0; 0; 1]) as [-> ->].
      { destruct Hu as [[Hc|Hc] _ _]; cbn in Hc; subst c;
          do 3 (destruct k as [|k]; [try done|]); done. }
      exists 0%nat, (mkUnit [0; 0; 0; 1] n z :: us). split_and!; [done| |done].
      split; [|done]. constructor; [|done]. destruct Hu as [_ Hl Hc]. split; [by right|done|done].
Qed.

Lemma split_unit u us :
  unit_wf u -> Forall unit_wf us ->
  exists us', strip_zeros (split_nal (u_nal u ++ replicate (u_zeros u) 0 ++ concat (map unit_bytes us))).1
      = u_nal u /\
    stream (split_nal (u_nal u ++ replicate (u_zeros u) 0 ++ concat (map unit_bytes us))).2 us' /\
    map u_nal us' = map u_nal us.
Proof.
  intros [_ (l & b & El & Hb) Hc] Hus.
  destruct (split_zeros (u_zeros u) us Hus) as (k' & us' & H1 & H2 & H3).
  exists us'. rewrite El in *. rewrite split_nal_clean by done. cbn [fst snd]. rewrite H1.
  split_and!; [|done..].
  rewrite <- app_assoc. cbn [app]. rewrite strip_zeros_app_nonzero by done.
  by rewrite strip_zeros_zeros.
Qed.

Lemma starts_code_inv l :
  starts_code l <> 0 ->
  exists code body, l = code ++ body /\ (code = [0; 0; 1] \/ code = [0; 0; 0; 1]) /\
    starts_code l = len code.
Proof.
  unfold starts_code. destruct l as [|b0 [|b1 [|b2 l]]]; try done.
  destruct (Z.eqb_spec b0 0), (Z.eqb_spec b1 0); try done. subst. cbn [andb].
  destruct (Z.eqb_spec b2 1) as [->|]; [intros _; exists [0; 0; 1], l; tauto|].
  destruct l as [|b3 l]; [done|]. destruct (Z.eqb_spec b2 0), (Z.eqb_spec b3 1); try done.
  subst. intros _. exists [0; 0; 0; 1], l. tauto.
Qed.

Lemma starts_code_extend b r : starts_code b <> 0 -> starts_code (b ++ r) <> 0.
Proof.
  intros (c & body & -> & [-> | ->] & _)%starts_code_inv; done.
Qed.

Lemma split_nal_no_code l a b :
  (split_nal l).1 = a ++ b -> starts_code b = 0.
Proof.
  revert a. induction l as [|x l IH]; intros a; cbn [split_nal].
  { cbn. intros H. symmetry in H. by apply app_eq_nil in H as [_ ->]. }
  destruct (Z.eqb_spec (starts_code (x :: l)) 0) as [E|E]; cbn [fst].
  - destruct a as [|y a]; cbn [app].
    + intros <-. destruct (Z.eq_dec (starts_code (x :: (split_nal l).1)) 0) as [|Hn]; [done|].
      apply (starts_code_extend _ (split_nal l).2) in Hn. cbn [app] in Hn.
      by rewrite <- split_nal_eq in Hn.
    + intros [= _ H]. by apply (IH a).
  - intros H. symmetry in H. by apply app_eq_nil in H as [_ ->].
Qed.

(** The unit the parser finds after a start code. *)
Lemma found_unit code body :
  code = [0; 0; 1] \/ code = [0; 0; 0; 1] -> strip_zeros (split_nal body).1 <> [] ->
  exists n, unit_wf (mkUnit code (strip_zeros (split_nal body).1) n) /\
    code ++ body = unit_bytes (mkUnit code (strip_zeros (split_nal body).1) n) ++ (split_nal body).2.
Proof.
  intros Hcode Hne. destruct (strip_zeros_spec (split_nal body).1) as (n & He & [?|Hl]); [done|].
  exists n. split.
  - split; cbn; [done| |].
    + destruct Hl as (l & b & E & Hb). exists l, b. by split.
    + intros a b Hab. destruct (Z.eq_dec (starts_code b) 0) as [|Hn]; [done|].
      apply (starts_code_extend _ (replicate n 0)) in Hn. exfalso. apply Hn.
      apply (split_nal_no_code body a). rewrite He, Hab. by rewrite <- app_assoc.
  - unfold unit_bytes. cbn. rewrite <- !app_assoc. f_equal.
    rewrite (split_nal_eq body) at 1. rewrite He at 1. by rewrite <- app_assoc.
Qed.

(** ** Access units *)

Definition unit_type (n : list Z) : Z := Z.land (hd 0 n) 31.
Definition adapted_size (ns : list (list Z)) : Z := foldr (fun n s => 4 + len n + s) 0 ns.
Definition has_type (t : Z) (ns : list (list Z)) : Prop := exists n, n ∈ ns /\ unit_type n = t.

(** A unit by itself: no forbidden bit, an ordinary AVC type, a body where the type
    needs one. *)
Definition unit_ok (n : list Z) : Prop :=
  Z.land (hd 0 n) 0x80 = 0 /\ unit_type n ∈ [1; 5; 6; 7; 8; 9; 10; 11; 12] /\
  (unit_type n ∈ [1; 5; 7; 8] -> 2 <= len n).

(** A parameter set after the units [before]. *)
Definition parameter_ok (before : list (list Z)) (n : list Z) : Prop :=
  unit_type n = 7 \/ unit_type n = 8 ->
  len n <= PLANKCameraMaxParameterBytes /\
  ~ has_type 1 before /\ ~ has_type 5 before /\ ~ has_type (unit_type n) before.

Record admissible (ns : list (list Z)) : Prop := {
  ad_count : len ns <= PLANKCameraMaxNALs;
  ad_units : Forall unit_ok ns;
  ad_parameters : forall before n after, ns = before ++ n :: after -> parameter_ok before n;
  ad_size : adapted_size ns <= PLANK_CAMERA_MAX_FRAME_BYTES }.

(** One picture: slices of one kind only, and an IDR picture carries exactly one SPS
    and one PPS, before its slices. *)
Definition access_unit (ns : list (list Z)) : Prop :=
  admissible ns /\ ((has_type 1 ns /\ ~ has_type 5 ns) \/
                    (has_type 5 ns /\ ~ has_type 1 ns /\ has_type 7 ns /\ has_type 8 ns)).

Lemma has_type_app t a b : has_type t (a ++ b) <-> has_type t a \/ has_type t b.
Proof.
  unfold has_type. split.
  - intros (n & [H|H]%elem_of_app & <-); eauto.
  - intros [(n & H & <-)|(n & H & <-)]; exists n; rewrite elem_of_app; eauto.
Qed.

Lemma has_type_one t n : has_type t [n] <-> unit_type n = t.
Proof.
  unfold has_type. split; [intros (m & H & <-); by apply list_elem_of_singleton in H as ->|].
  intros H. exists n. split; [by apply list_elem_of_singleton|done].
Qed.

Lemma adapted_size_app a b : adapted_size (a ++ b) = adapted_size a + adapted_size b.
Proof. unfold adapted_size. induction a as [|m a IH]; cbn; [done|]. rewrite IH. lia. Qed.

Lemma adapted_size_nonneg a : 0 <= adapted_size a.
Proof. unfold adapted_size. induction a as [|n a IH]; cbn; lia. Qed.

Lemma admissible_snoc ns n :
  admissible (ns ++ [n]) <->
  admissible ns /\ len ns < PLANKCameraMaxNALs /\ unit_ok n /\ parameter_ok ns n /\
  adapted_size ns + 4 + len n <= PLANK_CAMERA_MAX_FRAME_BYTES.
Proof.
  split.
  - intros [Hc Hu Hp Hs]. rewrite length_app, adapted_size_app in *. cbn in *.
    apply Forall_app in Hu as [Hu Hn]. apply Forall_cons in Hn as [Hn _].
    pose proof (adapted_size_nonneg ns).
    split_and!; [|lia|done|by apply (Hp ns n [])|lia].
    split; [lia|done| |lia].
    intros before m after ->. apply (Hp before m (after ++ [n])). by rewrite <- app_assoc.
  - intros ([Hc Hu Hp Hs] & Hn & Ho & Hpar & Hsz). split.
    + rewrite length_app. cbn. lia.
    + apply Forall_app. split; [done|by constructor].
    + intros before m after He. destruct after as [|x after _] using rev_ind.
      * apply app_inj_tail in He as [<- <-]. done.
      * rewrite app_comm_cons, app_assoc in He. apply app_inj_tail in He as [-> _].
        by apply (Hp before m after).
    + rewrite adapted_size_app. cbn. lia.
Qed.

Lemma admissible_prefix a b : admissible (a ++ b) -> admissible a.
Proof.
  induction b as [|n b IH] using rev_ind; [by rewrite app_nil_r|].
  rewrite app_assoc. intros [H _]%admissible_snoc. by apply IH.
Qed.

Lemma admissible_nil : admissible [].
Proof. split; [done|constructor|by intros [|? ?] ? ?|done]. Qed.

(** *** The parser's state after the units [seen], each at its offset *)

Definition nal_of (s : Z * list Z) : PLANKCameraNAL := mkNAL s.1 (len s.2) (unit_type s.2).
Definition index_of (t i : Z) (ns : list (list Z)) : Prop :=
  i = PLANKCameraMaxNALs /\ ~ has_type t ns \/
  exists n, 0 <= i < len ns /\ ns !! Z.to_nat i = Some n /\ unit_type n = t.

Record state_of (seen : list (Z * list Z)) (result : PLANKCameraPayload) : Prop := {
  st_nals : exists unused, pl_nals result = map nal_of seen ++ unused /\
    (length seen + length unused)%nat = 64%nat;
  st_count : pl_count result = len seen;
  st_sps : index_of 7 (pl_sps result) (map snd seen);
  st_pps : index_of 8 (pl_pps result) (map snd seen);
  st_independent : pl_independent result = true <-> has_type 5 (map snd seen) }.

Fixpoint located (off : Z) (us : list unit_) : list (Z * list Z) :=
  match us with
  | [] => []
  | u :: us' => (off + len (u_code u), u_nal u) :: located (off + len (unit_bytes u)) us'
  end.

Lemma located_nals off us : map snd (located off us) = map u_nal us.
Proof. revert off. induction us as [|u us IH]; intros off; cbn; [done|]. by rewrite IH. Qed.

Lemma index_of_snoc t i ns n :
  len ns < PLANKCameraMaxNALs ->
  index_of t i ns -> (unit_type n = t -> ~ has_type t ns) ->
  index_of t (if unit_type n =? t then len ns else i) (ns ++ [n]).
Proof.
  intros Hc Hi Hn. destruct (Z.eqb_spec (unit_type n) t) as [E|E].
  - right. exists n. rewrite length_app, Nat2Z.id. cbn. split_and!; [lia|lia| |done].
    by apply list_lookup_middle.
  - destruct Hi as [[-> Hno]|(m & Hi & Hl & Hm)].
    + left. split; [done|]. rewrite has_type_app, has_type_one. tauto.
    + right. exists m. rewrite length_app. split_and!; [lia|lia| |done].
      by apply lookup_app_l_Some.
Qed.

Lemma state_snoc seen result off n :
  state_of seen result -> len seen < PLANKCameraMaxNALs ->
  ((unit_type n = 7 \/ unit_type n = 8) -> ~ has_type (unit_type n) (map snd seen)) ->
  exists result', record_nal result off (len n) (unit_type n) = Some result' /\
    state_of (seen ++ [(off, n)]) result'.
Proof.
  intros [(unused & Hn & Hl) Hc Hs Hp Hi] Hlt Hnew. unfold record_nal.
  rewrite Hn, Hc. destruct unused as [|u unused]; [cbn in Hl; unfold PLANKCameraMaxNALs in *; lia|].
  unfold store. change (u :: unused) with ([u] ++ unused).
  rewrite (copy_to_app (map nal_of seen) [u] [mkNAL off (len n) (unit_type n)])
    by (rewrite ?length_map; done).
  cbn [mbind option_bind]. eexists. split; [reflexivity|].
  assert (map snd (seen ++ [(off, n)]) = map snd seen ++ [n]) as E by by rewrite map_app.
  split; cbn [pl_nals pl_count pl_sps pl_pps pl_independent]; rewrite ?E.
  - exists unused. rewrite map_app, length_app, <- app_assoc. cbn in Hl |- *. split; [done|lia].
  - rewrite length_app. cbn. lia.
  - rewrite <- (length_map snd). apply index_of_snoc; rewrite ?length_map; [done..|].
    intros Ht. rewrite <- Ht. apply Hnew. tauto.
  - rewrite <- (length_map snd). apply index_of_snoc; rewrite ?length_map; [done..|].
    intros Ht. rewrite <- Ht. apply Hnew. tauto.
  - rewrite has_type_app, has_type_one. destruct (Z.eqb_spec (unit_type n) 5); [tauto|]. rewrite Hi. tauto.
Qed.

(** *** The checks of one unit *)

Lemma nal_refused_spec n :
  nal_refused (hd 0 n) (unit_type n) (len n) = false <-> unit_ok n.
Proof.
  unfold nal_refused, unit_ok. rewrite !elem_of_cons, elem_of_nil.
  set (t := unit_type n). set (f := Z.land (hd 0 n) 0x80). lia.
Qed.

Lemma index_of_free t i ns : index_of t i ns -> len ns < PLANKCameraMaxNALs ->
  i = PLANKCameraMaxNALs <-> ~ has_type t ns.
Proof.
  intros [[-> H]|(n & Hi & Hl & Ht)] Hc; [tauto|]. split; [lia|].
  intros Hno. exfalso. apply Hno. exists n. split; [|done]. by eapply list_elem_of_lookup_2.
Qed.

Lemma parameter_refused_spec seen result dependent n :
  state_of seen result -> (dependent = true <-> has_type 1 (map snd seen)) ->
  len seen < PLANKCameraMaxNALs ->
  ((unit_type n =? 7) || (unit_type n =? 8)) &&
    parameter_refused dependent result
      (if unit_type n =? 7 then pl_sps result else pl_pps result) (len n) = false <->
  parameter_ok (map snd seen) n.
Proof.
  intros Hst Hd Hc. rewrite <- (length_map snd) in Hc.
  pose proof (index_of_free 7 _ _ (st_sps _ _ Hst) Hc) as H7.
  pose proof (index_of_free 8 _ _ (st_pps _ _ Hst) Hc) as H8.
  pose proof (st_independent _ _ Hst) as H5.
  unfold parameter_ok, parameter_refused.
  destruct (Z.eqb_spec (unit_type n) 7) as [-> |]; [|destruct (Z.eqb_spec (unit_type n) 8) as [-> |]];
    cbn [orb andb]; [..|split; [tauto|done]].
  - destruct dependent, (pl_independent result); cbn [orb]; try (split; [done|intros H; exfalso; tauto]).
    destruct (Z.eqb_spec (pl_sps result) PLANKCameraMaxNALs); cbn [negb orb];
      split; intros H; try done; try tauto; [|lia].
    intros _. split_and!; [lia|intuition congruence..].
  - destruct dependent, (pl_independent result); cbn [orb]; try (split; [done|intros H; exfalso; tauto]).
    destruct (Z.eqb_spec (pl_pps result) PLANKCameraMaxNALs); cbn [negb orb];
      split; intros H; try done; try tauto; [|lia].
    intros _. split_and!; [lia|intuition congruence..].
Qed.

Lemma final_spec seen result dependent :
  state_of seen result -> (dependent = true <-> has_type 1 (map snd seen)) ->
  admissible (map snd seen) ->
  negb (pl_count result =? 0) && negb (eqb dependent (pl_independent result)) &&
    (negb (pl_independent result) ||
     ((pl_sps result <? pl_count result) && (pl_pps result <? pl_count result))) = true <->
  access_unit (map snd seen).
Proof.
  intros Hst Hd Had. pose proof (st_independent _ _ Hst) as H5. rewrite (st_count _ _ Hst).
  assert (forall t i, index_of t i (map snd seen) -> i < len seen <-> has_type t (map snd seen)) as Hidx.
  { intros t i [[-> Hno]|(n & Hi & Hl & Ht)].
    - destruct Had as [Hc _ _ _]. rewrite length_map in Hc. split; [lia|tauto].
    - rewrite length_map in Hi. split; [intros _|lia]. exists n.
      split; [by eapply list_elem_of_lookup_2|done]. }
  pose proof (Hidx 7 _ (st_sps _ _ Hst)) as H7. pose proof (Hidx 8 _ (st_pps _ _ Hst)) as H8.
  assert (forall t, has_type t (map snd seen) -> len seen <> 0) as Hne.
  { intros t (n & Hn & _). destruct seen; [by apply elem_of_nil in Hn|cbn; lia]. }
  pose proof (Hne 1). pose proof (Hne 5).
  unfold access_unit. rewrite !andb_true_iff, orb_true_iff, andb_true_iff, !Z.ltb_lt, H7, H8.
  rewrite negb_true_iff, Z.eqb_neq.
  destruct dependent, (pl_independent result); cbn [eqb negb]; intuition congruence.
Qed.

(** Removing the first unit from a stream. *)
Lemma stream_uncons code body us :
  code = [0; 0; 1] \/ code = [0; 0; 0; 1] -> stream (code ++ body) us ->
  exists us', strip_zeros (split_nal body).1 <> [] /\ stream (split_nal body).2 us' /\
    map u_nal us = strip_zeros (split_nal body).1 :: map u_nal us'.
Proof.
  intros Hcode [Hwf He]. destruct us as [|u us].
  { cbn in He. by destruct Hcode as [-> | ->]. }
  apply Forall_cons in Hwf as [Hu Hwf]. cbn [map concat] in He.
  assert (code = u_code u /\ body = u_nal u ++ replicate (u_zeros u) 0 ++ concat (map unit_bytes us))
    as [-> ->].
  { unfold unit_bytes in He at 1. rewrite <- !app_assoc in He.
    pose proof (wf_code _ Hu) as Hc. destruct Hcode as [-> | ->], Hc as [Hc|Hc]; rewrite Hc in He |- *;
      [by injection He|discriminate He|discriminate He|by injection He]. }
  destruct (split_unit u us Hu Hwf) as (us' & H1 & H2 & H3). exists us'. rewrite H1.
  split_and!; [|done|by cbn; rewrite H3].
  destruct (wf_last _ Hu) as (l & b & -> & _). by destruct l.
Qed.

Lemma hd_lookup (n : list Z) pre rest :
  n <> [] -> load (pre ++ n ++ rest) (len pre) = Some (hd 0 n).
Proof. destruct n as [|b n]; [done|]. intros _. by apply load_here. Qed.

(** *** The loop *)

(** What the loop must answer for the rest [suf] of the bytes. *)
Definition avc_answer (pre suf : list Z) (seen : list (Z * list Z)) (ok : bool)
    (result : PLANKCameraPayload) : Prop :=
  (ok = true -> exists us, stream suf us /\ access_unit (map snd seen ++ map u_nal us) /\
                  state_of (seen ++ located (len pre) us) result) /\
  (forall us, stream suf us -> access_unit (map snd seen ++ map u_nal us) -> ok = true).

Lemma answer_false pre suf seen result :
  (forall us, stream suf us -> access_unit (map snd seen ++ map u_nal us) -> False) ->
  avc_answer pre suf seen false result.
Proof. intros H. split; [done|]. intros us H1 H2. exfalso. eauto. Qed.

Lemma avc_answer_step pre code body zs nal seen ok result :
  code = [0; 0; 1] \/ code = [0; 0; 0; 1] ->
  nal = strip_zeros (split_nal body).1 -> nal <> [] ->
  zs = code ++ (split_nal body).1 ->
  avc_answer (pre ++ zs) (split_nal body).2 (seen ++ [(len pre + len code, nal)]) ok result ->
  avc_answer pre (code ++ body) seen ok result.
Proof.
  intros Hcode Hnal Hne Hzs [H1 H2]. rewrite map_app in H1, H2. cbn [map snd] in H1, H2. split.
  - intros Hok. destruct (H1 Hok) as (us & [Hwf He] & Hau & Hst).
    destruct (found_unit code body Hcode) as (n & Hu & Hb); [by rewrite <- Hnal|].
    rewrite <- Hnal in Hu, Hb. exists (mkUnit code nal n :: us). split_and!.
    + split; [by constructor|]. cbn [map concat]. by rewrite <- He.
    + rewrite <- app_assoc in Hau. exact Hau.
    + cbn [located u_code u_nal]. rewrite <- app_assoc in Hst. cbn [app] in Hst.
      assert (len (pre ++ zs) = len pre + len (unit_bytes (mkUnit code nal n))) as <-; [|done].
      rewrite length_app, Hzs. apply (f_equal length) in Hb. rewrite !length_app in *.
      pose proof (f_equal length (split_nal_eq body)) as Hs. rewrite length_app in Hs. lia.
  - intros us Hs Hau. destruct (stream_uncons code body us Hcode Hs) as (us' & _ & Hs' & Hm).
    apply (H2 us' Hs'). rewrite <- app_assoc. cbn [app]. rewrite Hnal, <- Hm. done.
Qed.

Lemma avc_end fuel pre seen adapted dependent result :
  state_of seen result -> (dependent = true <-> has_type 1 (map snd seen)) ->
  admissible (map snd seen) ->
  exists ok res, avc_loop fuel pre (len pre) (len pre) adapted dependent result = Some (ok, res) /\
    avc_answer pre [] seen ok res.
Proof.
  intros Hst Hd Had. pose proof (final_spec seen result dependent Hst Hd Had) as [F1 F2].
  eexists _, result. split.
  { destruct fuel; unfold avc_loop; rewrite Z.ltb_irrefl; reflexivity. }
  split.
  - intros Hok. exists []. cbn. rewrite !app_nil_r. by split_and!; [|apply F1|].
  - intros us [Hwf He] Hau. apply F2. destruct us as [|u us]; [by rewrite app_nil_r in Hau|].
    apply Forall_cons in Hwf as [Hu _]. cbn in He. symmetry in He.
    apply app_eq_nil in He as [He _].
    unfold unit_bytes in He. by destruct (wf_code _ Hu) as [E|E]; rewrite E in He.
Qed.

(** One iteration at a start code, in terms of the unit [nal] found there. *)
Lemma avc_loop_unit fuel pre code body raw rest adapted dependent result :
  code = [0; 0; 1] \/ code = [0; 0; 0; 1] -> starts_code (code ++ body) = len code ->
  split_nal body = (raw, rest) -> pl_count result < PLANKCameraMaxNALs ->
  let nal := strip_zeros raw in
  avc_loop (S fuel) (pre ++ code ++ body) (len (pre ++ code ++ body)) (len pre) adapted dependent result =
  if bool_decide (nal = []) || nal_refused (hd 0 nal) (unit_type nal) (len nal) ||
     ((unit_type nal =? 7) || (unit_type nal =? 8)) &&
       parameter_refused dependent result
         (if unit_type nal =? 7 then pl_sps result else pl_pps result) (len nal)
  then Some (false, result)
  else
    result ← record_nal result (len pre + len code) (len nal) (unit_type nal);
    if PLANK_CAMERA_MAX_FRAME_BYTES <? adapted + 4 + len nal then Some (false, result)
    else avc_loop fuel ((pre ++ code ++ raw) ++ rest) (len ((pre ++ code ++ raw) ++ rest))
           (len (pre ++ code ++ raw)) (adapted + 4 + len nal)
           (if unit_type nal =? 1 then true else dependent) result.
Proof.
  intros Hcode Ec Es Hlt. cbn zeta. cbn [avc_loop].
  assert (0 < len code) by (destruct Hcode as [-> | ->]; cbn; lia).
  rewrite (proj2 (Z.ltb_lt _ _)) by (rewrite !length_app; lia).
  rewrite start_code_app, Ec. cbn [negb mbind option_bind].
  rewrite (proj2 (Z.eqb_neq _ 0)), (proj2 (Z.eqb_neq _ PLANKCameraMaxNALs)) by lia. cbn [orb].
  rewrite (app_assoc pre code body).
  replace (len pre + len code) with (len (pre ++ code)) by (rewrite length_app; lia).
  rewrite nal_end_app by (rewrite !length_app; lia). cbn [mbind option_bind].
  pose proof (split_nal_eq body) as Hbody. rewrite Es in Hbody |- *. cbn [fst snd] in *.
  destruct (strip_zeros_spec raw) as (nz & Hraw & _).
  assert (Htrim : forall f, (length raw <= f)%nat ->
    trim_zeros f ((pre ++ code) ++ body) (len (pre ++ code)) (len (pre ++ code) + len raw)
    = Some (len (pre ++ code) + len (strip_zeros raw))).
  { intros f Hlen. rewrite Hbody. by apply trim_zeros_app. }
  rewrite Htrim by (rewrite Nat2Z.id, Hbody, !length_app; lia). cbn [mbind option_bind].
  generalize dependent (strip_zeros raw). intros nal Hraw _.
  case_bool_decide as Hnal; cbn [orb].
  { subst nal. rewrite Z.add_0_r, Z.eqb_refl. done. }
  rewrite (proj2 (Z.eqb_neq _ _)) by (destruct nal; [done|cbn; lia]).
  assert (load ((pre ++ code) ++ body) (len (pre ++ code)) = Some (hd 0 nal)) as ->.
  { rewrite Hbody, Hraw, <- (app_assoc nal). by apply hd_lookup. }
  cbn [mbind option_bind]. fold (unit_type nal).
  replace (len (pre ++ code) + len nal - len (pre ++ code)) with (len nal) by lia.
  destruct (nal_refused _ _ _); cbn [orb]; [done|]. destruct (_ && _); [done|].
  destruct (record_nal _ _ _ _) as [result'|]; [cbn [mbind option_bind]|done].
  replace (adapted + 4 + (len (pre ++ code) + len nal) - len (pre ++ code))
    with (adapted + 4 + len nal) by lia.
  rewrite Hbody, !app_assoc, <- (app_assoc pre).
  by replace (len (pre ++ code) + len raw) with (len (pre ++ code ++ raw)) by (rewrite !length_app; lia).
Qed.

(** The units of a stream whose first one is refused do not form an access unit. *)
Lemma avc_bad_unit pre code body raw rest seen result' :
  code = [0; 0; 1] \/ code = [0; 0; 0; 1] -> split_nal body = (raw, rest) ->
  ~ (strip_zeros raw <> [] /\ len seen < PLANKCameraMaxNALs /\ unit_ok (strip_zeros raw) /\
     parameter_ok (map snd seen) (strip_zeros raw) /\
     adapted_size (map snd seen) + 4 + len (strip_zeros raw) <= PLANK_CAMERA_MAX_FRAME_BYTES) ->
  avc_answer pre (code ++ body) seen false result'.
Proof.
  intros Hcode Es Hbad. apply answer_false. intros us Hs [Ha _]. apply Hbad.
  destruct (stream_uncons _ _ _ Hcode Hs) as (us' & Hn & _ & Hm).
  rewrite Es in Hn, Hm. cbn [fst] in Hn, Hm.
  rewrite Hm, cons_middle, app_assoc in Ha. apply admissible_prefix, admissible_snoc in Ha.
  rewrite length_map in Ha. tauto.
Qed.

Lemma avc_full fuel pre code body adapted dependent result :
  code = [0; 0; 1] \/ code = [0; 0; 0; 1] -> starts_code (code ++ body) = len code ->
  pl_count result = PLANKCameraMaxNALs ->
  avc_loop (S fuel) (pre ++ code ++ body) (len (pre ++ code ++ body)) (len pre) adapted dependent result
  = Some (false, result).
Proof.
  intros Hcode Ec Hc. cbn [avc_loop].
  assert (0 < len code) by (destruct Hcode as [-> | ->]; cbn; lia).
  rewrite (proj2 (Z.ltb_lt _ _)) by (rewrite !length_app; lia).
  rewrite start_code_app, Ec, Hc. cbn [negb mbind option_bind]. by rewrite Z.eqb_refl, orb_true_r.
Qed.

Lemma avc_no_code fuel pre suf adapted dependent result :
  suf <> [] -> starts_code suf = 0 ->
  avc_loop (S fuel) (pre ++ suf) (len (pre ++ suf)) (len pre) adapted dependent result
  = Some (false, result).
Proof.
  intros Hne E0. cbn [avc_loop].
  rewrite (proj2 (Z.ltb_lt _ _)) by (rewrite length_app; destruct suf; [done|cbn; lia]).
  by rewrite start_code_app, E0.
Qed.

Lemma avc_loop_spec fuel pre suf seen adapted dependent result :
  (length suf <= fuel)%nat -> state_of seen result ->
  (dependent = true <-> has_type 1 (map snd seen)) ->
  adapted = adapted_size (map snd seen) -> admissible (map snd seen) ->
  exists ok res,
    avc_loop fuel (pre ++ suf) (len (pre ++ suf)) (len pre) adapted dependent result = Some (ok, res) /\
    avc_answer pre suf seen ok res.
Proof.
  revert pre suf seen adapted dependent result.
  induction fuel as [|fuel IH]; intros pre suf seen adapted dependent result Hf Hst Hd Hadp Had;
    (destruct (decide (suf = [])) as [->|Hne]; [rewrite app_nil_r; by apply avc_end|]).
  { destruct suf; [done|cbn in Hf; lia]. }
  destruct (Z.eq_dec (starts_code suf) 0) as [E0|E0].
  { exists false, result. split; [by apply avc_no_code|]. apply answer_false.
    intros [|u us] [Hwf He] _; [by subst|].
    apply Forall_cons in Hwf as [Hu _]. cbn [map concat] in He. subst suf.
    rewrite starts_code_code in E0 by done. destruct (wf_code _ Hu) as [Hc|Hc]; by rewrite Hc in E0. }
  destruct (starts_code_inv suf E0) as (code & body & -> & Hcode & Ec).
  destruct (split_nal body) as [raw rest] eqn:Es.
  pose proof (avc_bad_unit pre code body raw rest seen) as Hbad.
  destruct (Z.eqb_spec (len seen) PLANKCameraMaxNALs) as [E1|E1].
  { exists false, result. split; [|apply Hbad; try done; intros (_ & Hlt & _); lia].
    apply (avc_full fuel); [done..|]. by rewrite (st_count _ _ Hst). }
  assert (len seen < PLANKCameraMaxNALs) as Hlt.
  { destruct Had as [Hc _ _ _]. rewrite length_map in Hc. lia. }
  rewrite (avc_loop_unit fuel pre code body raw rest) by (done || by rewrite (st_count _ _ Hst)).
  set (nal := strip_zeros raw) in *.
  destruct (bool_decide (nal = []) || _ || _) eqn:E2.
  { exists false, result. split; [done|]. apply Hbad; [done..|].
    intros (Hn & _ & Hok%nal_refused_spec & Hp & _).
    apply (parameter_refused_spec seen result dependent nal Hst Hd Hlt) in Hp.
    rewrite Hok, Hp, bool_decide_eq_false_2 in E2; done. }
  apply orb_false_iff in E2 as [E2 E4]. apply orb_false_iff in E2 as [E2%bool_decide_eq_false E3].
  apply nal_refused_spec in E3.
  apply (parameter_refused_spec seen result dependent nal Hst Hd Hlt) in E4.
  destruct (state_snoc seen result (len pre + len code) nal Hst Hlt) as (result' & -> & Hst').
  { intros Ht. by apply E4. }
  cbn [mbind option_bind].
  destruct (Z.ltb_spec PLANK_CAMERA_MAX_FRAME_BYTES (adapted + 4 + len nal)) as [E5|E5].
  { exists false, result'. split; [done|]. apply Hbad; [done..|].
    intros (_ & _ & _ & _ & Hsz). lia. }
  assert (map snd (seen ++ [(len pre + len code, nal)]) = map snd seen ++ [nal]) as Em
    by by rewrite map_app.
  destruct (IH (pre ++ code ++ raw) rest (seen ++ [(len pre + len code, nal)]) (adapted + 4 + len nal)
    (if unit_type nal =? 1 then true else dependent) result') as (ok & res & Hrun & Hans).
  - pose proof (split_nal_eq body) as Hbody. rewrite Es in Hbody. cbn in Hbody.
    rewrite length_app, Hbody, length_app in Hf. destruct Hcode as [-> | ->]; cbn in Hf; lia.
  - done.
  - rewrite Em, has_type_app, has_type_one. destruct (Z.eqb_spec (unit_type nal) 1); [tauto|].
    rewrite Hd. tauto.
  - rewrite Em, adapted_size_app. cbn. lia.
  - rewrite Em. apply admissible_snoc. rewrite length_map. split_and!; try done; lia.
  - exists ok, res. split; [exact Hrun|].
    apply (avc_answer_step pre code body (code ++ raw) nal); rewrite ?Es; done.
Qed.

(** ** JPEG as a grammar over lists *)

(** The component specifications of SOF0 after the identifiers [ids]. *)
Fixpoint sof_ids (ids comps : list Z) : option (list Z) :=
  match comps with
  | [] => Some ids
  | id :: sampling :: table :: comps' =>
      let high := Z.shiftr sampling 4 in
      let low := Z.land sampling 15 in
      if negb (high =? 0) && (high <=? 4) && negb (low =? 0) && (low <=? 4) && (table <=? 3) &&
         negb (existsb (Z.eqb id) ids)
      then sof_ids (ids ++ [id]) comps' else None
  | _ => None
  end.

(** The data of a SOF0 segment: eight-bit samples of the given dimensions. *)
Definition sof_data (width height : Z) (d : list Z) : option (list Z) :=
  match d with
  | d0 :: d1 :: d2 :: d3 :: d4 :: n :: comps =>
      if (d0 =? 8) && (Z.lor (Z.shiftl d1 8) d2 =? height) && (Z.lor (Z.shiftl d3 8) d4 =? width) &&
         ((n =? 1) || (n =? 3)) && (len comps =? 3 * n)
      then sof_ids [] comps else None
  | _ => None
  end.

(** The component selectors of SOS: every component of the frame once. *)
Fixpoint sos_selectors (ids : list Z) (seen : list Z) (sel : list Z) : bool :=
  match sel with
  | [] => true
  | id :: tables :: sel' =>
      existsb (Z.eqb id) ids && negb (existsb (Z.eqb id) seen) &&
      (Z.shiftr tables 4 <=? 3) && (Z.land tables 15 <=? 3) &&
      sos_selectors ids (id :: seen) sel'
  | _ => false
  end.

Definition sos_data (ids d : list Z) : bool :=
  match d with
  | n :: body =>
      let sel := take (2 * length ids) body in
      negb (len ids =? 0) && (n =? len ids) &&
      bool_decide (body = sel ++ [0; 63; 0]) && (len sel =? 2 * len ids) && sos_selectors ids [] sel
  | [] => false
  end.

(** Entropy-coded bytes: no marker except stuffed FF00 and restart markers. *)
Inductive entropy : list Z -> Prop :=
  | entropy_nil : entropy []
  | entropy_byte b e : b <> 0xff -> entropy e -> entropy (b :: e)
  | entropy_escape b e : b = 0 \/ 0xd0 <= b <= 0xd7 -> entropy e -> entropy (0xff :: b :: e).

Definition segment (marker : Z) (d : list Z) : list Z :=
  marker :: Z.shiftr (2 + len d) 8 :: Z.land (2 + len d) 255 :: d.

(** What may follow SOI: [jpeg_rest w h k ids scan l] says that [l] completes a
    file of which [k] markers were read, with frame components [ids] and the scan
    present or not.  Any marker may be preceded by fill bytes FF. *)
Inductive jpeg_rest (width height : Z) : Z -> list Z -> bool -> list Z -> Prop :=
  | jr_eoi k ids n : k < 512 ->
      jpeg_rest width height k ids true (replicate (S n) 0xff ++ [0xd9])
  | jr_sof k n d ids l : k < 512 -> len d < 65534 ->
      sof_data width height d = Some ids -> jpeg_rest width height (k + 1) ids false l ->
      jpeg_rest width height k [] false (replicate (S n) 0xff ++ segment 0xc0 d ++ l)
  | jr_scan k n d ids e l : k < 512 -> len d < 65534 -> sos_data ids d = true ->
      entropy e -> e <> [] -> jpeg_rest width height (k + 1) ids true l ->
      jpeg_rest width height k ids false (replicate (S n) 0xff ++ segment 0xda d ++ e ++ l)
  | jr_other k n marker d ids l : k < 512 -> len d < 65534 ->
      other_marker_refused marker = false -> jpeg_rest width height (k + 1) ids false l ->
      jpeg_rest width height k ids false (replicate (S n) 0xff ++ segment marker d ++ l).

Definition jpeg_file (width height : Z) (p : list Z) : Prop :=
  exists l, p = 0xff :: 0xd8 :: l /\ jpeg_rest width height 0 [] false l.

(** *** The scanning loops *)

Lemma fill_split l : exists n r, l = replicate n 0xff ++ r /\ (r = [] \/ exists b r', r = b :: r' /\ b <> 0xff).
Proof.
  induction l as [|b l (n & r & -> & Hr)]; [exists 0%nat, []; split; [done|by left]|].
  destruct (Z.eq_dec b 0xff) as [->|Hb].
  - exists (S n), r. by split.
  - exists 0%nat, (b :: replicate n 0xff ++ r). split; [done|right]. eauto.
Qed.

Lemma skip_fill_app fuel pre n r :
  (n < fuel)%nat -> r = [] \/ (exists b r', r = b :: r' /\ b <> 0xff) ->
  skip_fill fuel (pre ++ replicate n 0xff ++ r) (len (pre ++ replicate n 0xff ++ r)) (len pre)
  = Some (len pre + Z.of_nat n).
Proof.
  intros Hf Hr. revert fuel pre Hf. induction n as [|n IH]; intros fuel pre Hf;
    (destruct fuel as [|fuel]; [lia|]); cbn [replicate app skip_fill].
  - rewrite Z.add_0_r. destruct Hr as [->|(b & r' & -> & Hb)].
    + by rewrite app_nil_r, Z.ltb_irrefl.
    + rewrite (proj2 (Z.ltb_lt _ _)) by (rewrite length_app; cbn; lia).
      rewrite load_here by done. cbn [mbind option_bind]. by rewrite (proj2 (Z.eqb_neq b _)).
  - rewrite (proj2 (Z.ltb_lt _ _)) by (rewrite !length_app; cbn; lia).
    rewrite load_here by done. cbn [mbind option_bind Z.eqb Pos.eqb].
    specialize (IH fuel (pre ++ [0xff])). rewrite <- app_assoc in IH. cbn [app] in IH.
    replace (len pre + 1) with (len (pre ++ [0xff])) by (rewrite length_app; cbn; lia).
    rewrite IH by lia. f_equal. rewrite length_app. cbn. lia.
Qed.

(** Where the entropy loop stops. *)
Definition entropy_stop (r : list Z) : Prop :=
  r = [] \/ exists b r', r = 0xff :: b :: r' /\ b <> 0 /\ ~ 0xd0 <= b <= 0xd7.

Lemma entropy_split l : exists e r, l = e ++ r /\ entropy e /\ (r = [0xff] \/ entropy_stop r).
Proof.
  remember (length l) as n eqn:Hn. assert (length l <= n)%nat as Hle by lia. clear Hn.
  revert l Hle. induction n as [|n IH]; intros l Hle.
  { destruct l; [|cbn in Hle; lia]. exists [], []. split_and!; [done|constructor|right; by left]. }
  destruct l as [|b l]; [exists [], []; split_and!; [done|constructor|right; by left]|].
  cbn in Hle. destruct (Z.eq_dec b 0xff) as [->|Hb].
  - destruct l as [|c l]; [exists [], [0xff]; split_and!; [done|constructor|by left]|].
    destruct (decide (c = 0 \/ 0xd0 <= c <= 0xd7)) as [Hc|Hc].
    + destruct (IH l) as (e & r & -> & He & Hr); [cbn in Hle; lia|].
      exists (0xff :: c :: e), r. split_and!; [done|by constructor|done].
    + exists [], (0xff :: c :: l). split_and!; [done|constructor|]. right. right.
      exists c, l. split_and!; [done|tauto|tauto].
  - destruct (IH l) as (e & r & -> & He & Hr); [lia|].
    exists (b :: e), r. split_and!; [done|by constructor|done].
Qed.

Lemma load_second (pre rest : list Z) a b : load (pre ++ a :: b :: rest) (len pre + 1) = Some b.
Proof. rewrite load_app_r by lia. done. Qed.

Lemma skip_entropy_app e r pre fuel :
  entropy e -> r = [0xff] \/ entropy_stop r -> (length (e ++ r) <= fuel)%nat ->
  skip_entropy fuel (pre ++ e ++ r) (len (pre ++ e ++ r)) (len pre) =
  Some (if bool_decide (r = [0xff]) then None else Some (len pre + len e)).
Proof.
  intros He Hr. revert pre fuel. induction He as [|b e Hb He IH|b e Hb He IH]; intros pre fuel Hf.
  - cbn [app length]. rewrite Z.add_0_r. destruct Hr as [->|[->|(b & r' & -> & Hb0 & Hb1)]].
    + destruct fuel as [|fuel]; [cbn in Hf; lia|]. cbn [skip_entropy].
      rewrite (proj2 (Z.ltb_lt _ _)) by (rewrite length_app; cbn; lia).
      rewrite (load_here _ _ _ (len pre)) by done. cbn [mbind option_bind Z.eqb Pos.eqb negb].
      rewrite (proj2 (Z.ltb_lt _ 2)) by (rewrite length_app; cbn; lia). done.
    + rewrite app_nil_r. destruct fuel; cbn [skip_entropy]; by rewrite Z.ltb_irrefl.
    + destruct fuel as [|fuel]; [cbn in Hf; lia|]. cbn [skip_entropy].
      rewrite (proj2 (Z.ltb_lt _ _)) by (rewrite length_app; cbn; lia).
      rewrite (load_here _ _ _ (len pre)) by done. cbn [mbind option_bind Z.eqb Pos.eqb negb].
      rewrite (proj2 (Z.ltb_ge _ 2)) by (rewrite length_app; cbn; lia).
      rewrite load_second. cbn [mbind option_bind].
      replace ((b =? 0) || ((208 <=? b) && (b <=? 215))) with false by lia.
      by rewrite bool_decide_eq_false_2 by done.
  - destruct fuel as [|fuel]; [cbn in Hf; lia|]. cbn [app skip_entropy].
    rewrite (proj2 (Z.ltb_lt _ _)) by (rewrite length_app; cbn; lia).
    rewrite (load_here _ _ _ (len pre)) by done. cbn [mbind option_bind]. rewrite (proj2 (Z.eqb_neq b _)) by done.
    cbn [negb]. specialize (IH (pre ++ [b]) fuel). rewrite <- app_assoc in IH. cbn [app] in IH.
    replace (len pre + 1) with (len (pre ++ [b])) by (rewrite length_app; cbn; lia).
    rewrite IH by (cbn in Hf; lia). do 2 (f_equal; try case_bool_decide; try done).
    rewrite length_app. cbn. lia.
  - destruct fuel as [|fuel]; [cbn in Hf; lia|]. cbn [app skip_entropy].
    rewrite (proj2 (Z.ltb_lt _ _)) by (rewrite length_app; cbn; lia).
    rewrite (load_here _ _ _ (len pre)) by done. cbn [mbind option_bind Z.eqb Pos.eqb negb].
    rewrite (proj2 (Z.ltb_ge _ 2)) by (rewrite length_app; cbn; lia).
    specialize (IH (pre ++ [0xff; b]) fuel). rewrite <- app_assoc in IH. cbn [app] in IH.
    rewrite load_second. cbn [mbind option_bind].
    replace ((b =? 0) || ((208 <=? b) && (b <=? 215))) with true by lia.
    replace (len pre + 2) with (len (pre ++ [0xff; b])) by (rewrite length_app; cbn; lia).
    rewrite IH by (cbn in Hf; lia). do 2 (f_equal; try case_bool_decide; try done).
    rewrite length_app. cbn. lia.
Qed.

(** *** Segment data *)

Lemma load_third (pre rest : list Z) a b c : load (pre ++ a :: b :: c :: rest) (len pre + 2) = Some c.
Proof. rewrite load_app_r by lia. done. Qed.

Lemma load_at {A} (pre : list A) v rest i : i = len pre -> load (pre ++ v :: rest) i = Some v.
Proof. apply load_here. Qed.

Lemma sof_components_app n pre comps rest data i ids :
  len comps = 3 * Z.of_nat n -> len pre = data + 6 + 3 * i ->
  sof_components n (pre ++ comps ++ rest) data i ids = Some (sof_ids ids comps).
Proof.
  revert pre comps i ids. induction n as [|n IH]; intros pre comps i ids Hl Hp.
  { destruct comps; [done|cbn in Hl; lia]. }
  destruct comps as [|a [|b [|c comps]]]; cbn [length] in Hl; try lia.
  cbn [app sof_components sof_ids].
  rewrite (load_at pre a _ (data + 6 + 3 * i)) by lia.
  replace (data + 7 + 3 * i) with (len pre + 1) by lia. rewrite load_second.
  replace (data + 8 + 3 * i) with (len pre + 2) by lia. rewrite load_third.
  cbn [mbind option_bind].
  replace ((Z.shiftr b 4 =? 0) || (4 <? Z.shiftr b 4) || (Z.land b 15 =? 0) || (4 <? Z.land b 15)
    || (3 <? c) || existsb (Z.eqb a) ids) with
    (negb (negb (Z.shiftr b 4 =? 0) && (Z.shiftr b 4 <=? 4) && negb (Z.land b 15 =? 0) &&
      (Z.land b 15 <=? 4) && (c <=? 3) && negb (existsb (Z.eqb a) ids))).
  - destruct (_ && negb (existsb (Z.eqb a) ids)); cbn [negb]; [|done].
    change (a :: b :: c :: comps ++ rest) with ([a; b; c] ++ comps ++ rest).
    rewrite (app_assoc pre). apply IH; [lia|rewrite length_app; cbn; lia].
  - rewrite !Z.ltb_antisym. btauto.
Qed.

Lemma parse_sof_app pre d rest width height :
  parse_sof (pre ++ d ++ rest) (len pre) (len d) width height = Some (sof_data width height d).
Proof.
  unfold parse_sof, sof_data.
  destruct d as [|d0 [|d1 [|d2 [|d3 [|d4 [|n comps]]]]]]; try done.
  rewrite (proj2 (Z.ltb_ge _ 6)) by (cbn [length]; lia).
  cbn [app]. rewrite (load_at pre d0 _ (len pre)) by done.
  rewrite !(load_app_r pre) by lia.
  repeat match goal with |- context [load (?a :: ?l) ?i] =>
    let r := eval lazy in (load (a :: l) i) in change (load (a :: l) i) with r end.
  cbn [mbind option_bind].
  destruct (d0 =? 8), (Z.lor (Z.shiftl d1 8) d2 =? height), (Z.lor (Z.shiftl d3 8) d4 =? width);
    cbn [negb orb andb]; try done.
  replace (len (d0 :: d1 :: d2 :: d3 :: d4 :: n :: comps) =? 6 + 3 * n) with (len comps =? 3 * n)
    by (apply eq_iff_eq_true; rewrite !Z.eqb_eq; cbn [length]; lia).
  destruct (Z.eqb_spec (len comps) (3 * n)) as [El|]; cbn [negb]; rewrite ?orb_true_r, ?andb_false_r;
    [|by rewrite ?andb_false_r].
  rewrite orb_false_r, andb_true_r.
  destruct (Z.eqb_spec n 1) as [->|]; [|destruct (Z.eqb_spec n 3) as [->|]]; cbn [orb andb negb]; [..|done].
  - rewrite <- (sof_components_app 1 (pre ++ [d0; d1; d2; d3; d4; 1]) comps rest (len pre) 0 []);
      [|done|rewrite length_app; cbn; lia]. by rewrite <- app_assoc.
  - rewrite <- (sof_components_app 3 (pre ++ [d0; d1; d2; d3; d4; 3]) comps rest (len pre) 0 []);
      [|done|rewrite length_app; cbn; lia]. by rewrite <- app_assoc.
Qed.

Lemma sof_ids_NoDup ids comps ids' : NoDup ids -> sof_ids ids comps = Some ids' -> NoDup ids'.
Proof.
  remember (length comps) as n eqn:Hn. assert (length comps <= n)%nat as Hle by lia. clear Hn.
  revert ids comps Hle. induction n as [|n IH]; intros ids [|a [|b [|c comps]]] Hle Hnd H;
    cbn in Hle; try lia; cbn in H; try done; try (by injection H as <-).
  case_match eqn:E; [|done]. guards. eapply IH; [|apply NoDup_app; split_and!|exact H]; [lia|done| |].
  - intros x Hx ->%list_elem_of_singleton.
    match goal with Hex : existsb _ _ = false |- _ => apply not_true_iff_false in Hex; apply Hex end.
    apply existsb_exists. exists a. split; [by apply list_elem_of_In|lia].
  - apply NoDup_singleton.
Qed.

Lemma sof_data_NoDup width height d ids : sof_data width height d = Some ids -> NoDup ids.
Proof.
  unfold sof_data. destruct d as [|? [|? [|? [|? [|? [|? comps]]]]]]; try done.
  case_match; [|done]. apply sof_ids_NoDup. constructor.
Qed.

Lemma find_component_spec ids id :
  (find_component ids id = len ids /\ id ∉ ids) \/
  (0 <= find_component ids id < len ids /\ ids !! Z.to_nat (find_component ids id) = Some id).
Proof.
  unfold find_component.
  enough (forall k, (k <= length ids)%nat -> let r := foldl (fun found j =>
      if nth (Z.to_nat j) ids (-1) =? id then j else found) (len ids) (map Z.of_nat (seq 0 k)) in
    (r = len ids /\ id ∉ take k ids) \/ (0 <= r < len ids /\ ids !! Z.to_nat r = Some id)) as H.
  { specialize (H (length ids) ltac:(lia)). by rewrite firstn_all in H. }
  induction k as [|k IH]; intros Hk; cbn zeta; [left; split; [done|apply not_elem_of_nil]|].
  rewrite seq_S, map_app, foldl_app. cbn [map foldl plus].
  rewrite Nat2Z.id.
  destruct (lookup_lt_is_Some_2 ids k) as [x Hx]; [lia|].
  rewrite (nth_lookup_Some _ _ _ _ Hx).
  destruct (Z.eqb_spec x id) as [->|Hne].
  - right. rewrite Nat2Z.id. split; [lia|done].
  - destruct (IH ltac:(lia)) as [[-> Hn]|Hr]; [left|by right]. split; [done|].
    rewrite (take_S_r _ _ _ Hx). rewrite elem_of_app, list_elem_of_singleton. intros [?|?]; congruence.
Qed.

Lemma existsb_eqb (x : Z) l : existsb (Z.eqb x) l = true <-> x ∈ l.
Proof.
  rewrite existsb_exists. split.
  - intros (y & Hy & ->%Z.eqb_eq). by apply list_elem_of_In.
  - intros H. exists x. split; [by apply list_elem_of_In|apply Z.eqb_refl].
Qed.

(** The bit set [seen] over component indices is the list [l] of identifiers. *)
Definition same_seen (ids : list Z) (seen : Z) (l : list Z) : Prop :=
  forall (j : nat) x, ids !! j = Some x -> Z.testbit seen (Z.of_nat j) = existsb (Z.eqb x) l.

Lemma same_seen_cons ids seen l (j : nat) x :
  NoDup ids -> ids !! j = Some x -> same_seen ids seen l ->
  same_seen ids (Z.lor seen (Z.shiftl 1 (Z.of_nat j))) (x :: l).
Proof.
  intros Hnd Hj Hs k y Hk. rewrite Z.lor_spec, (Hs k y Hk), Z.shiftl_1_l, Z.pow2_bits_eqb by lia.
  cbn [existsb]. rewrite orb_comm. f_equal. apply eq_iff_eq_true. rewrite !Z.eqb_eq. split.
  - intros E. assert (j = k) as -> by lia. congruence.
  - intros ->. f_equal. by eapply NoDup_lookup.
Qed.

Lemma sos_components_app n pre sel rest data i ids seen l :
  len sel = 2 * Z.of_nat n -> len pre = data + 1 + 2 * i -> NoDup ids -> same_seen ids seen l ->
  sos_components n (pre ++ sel ++ rest) data i ids seen = Some (sos_selectors ids l sel).
Proof.
  intros Hl Hp Hnd. revert pre sel i seen l Hl Hp.
  induction n as [|n IH]; intros pre sel i seen l Hl Hp Hs.
  { destruct sel; [done|cbn in Hl; lia]. }
  destruct sel as [|a [|b sel]]; cbn [length] in Hl; try lia.
  cbn [app sos_components sos_selectors].
  rewrite (load_at pre a _ (data + 1 + 2 * i)) by lia.
  replace (data + 2 + 2 * i) with (len pre + 1) by lia. rewrite load_second.
  cbn [mbind option_bind].
  rewrite !(Z.ltb_antisym _ 3).
  destruct (find_component_spec ids a) as [[-> Hno]|[Hr Hf]].
  { rewrite Z.eqb_refl. cbn [orb].
    destruct (existsb (Z.eqb a) ids) eqn:E; [by apply existsb_eqb in E|done]. }
  rewrite (proj2 (Z.eqb_neq _ _)) by lia. cbn [orb].
  assert (existsb (Z.eqb a) ids = true) as ->
    by (apply existsb_eqb; by eapply list_elem_of_lookup_2).
  remember (Z.to_nat (find_component ids a)) as j eqn:Hj.
  assert (find_component ids a = Z.of_nat j) as -> by lia.
  rewrite (Hs _ _ Hf). cbn [andb].
  destruct (existsb (Z.eqb a) l); cbn [orb negb andb]; [done|].
  destruct (Z.shiftr b 4 <=? 3), (Z.land b 15 <=? 3); cbn [orb negb andb]; try done.
  change (a :: b :: sel ++ rest) with ([a; b] ++ sel ++ rest). rewrite (app_assoc pre).
  apply IH; [lia|rewrite length_app; cbn; lia|by apply same_seen_cons].
Qed.

Lemma sos_shape (n : Z) (ids body : list Z) :
  len (n :: body) = 4 + 2 * len ids ->
  exists sel a b c, body = sel ++ [a; b; c] /\ length sel = (2 * length ids)%nat.
Proof.
  intros Hl. cbn [length] in Hl.
  exists (take (2 * length ids) body).
  assert (length (drop (2 * length ids) body) = 3%nat) as Hd by (rewrite length_drop; lia).
  pose proof (take_drop (2 * length ids) body) as E.
  remember (drop (2 * length ids) body) as d. clear Heqd.
  explode d. exists o, o0, o1. split; [done|]. rewrite length_take. lia.
Qed.

Lemma parse_sos_app pre d rest ids :
  NoDup ids -> parse_sos (pre ++ d ++ rest) (len pre) (len d) ids = Some (sos_data ids d).
Proof.
  intros Hnd. unfold parse_sos, sos_data.
  destruct (Z.eqb_spec (len ids) 0) as [E0|E0]; cbn [orb].
  { destruct d; cbn [negb andb]; done. }
  destruct (Z.eqb_spec (len d) (4 + 2 * len ids)) as [El|El]; cbn [negb orb].
  2: { destruct d as [|n body]; [done|]. rewrite bool_decide_eq_false_2; [by rewrite !andb_false_r|].
       intros E. apply El. apply (f_equal length) in E. rewrite length_app, length_take in E.
       cbn [length] in *. lia. }
  destruct d as [|n body]; [cbn in El; lia|].
  destruct (sos_shape n ids body El) as (sel & a & b & c & -> & Hsel).
  rewrite take_app_length' by done. rewrite (bool_decide_ext _ ([a; b; c] = [0; 63; 0]))
    by (split; [by intros ?%app_inv_head|congruence]).
  assert (pre ++ (n :: sel ++ [a; b; c]) ++ rest = (pre ++ n :: sel) ++ a :: b :: c :: rest) as Eb.
  { cbn [app]. by rewrite <- !app_assoc. }
  assert (load (pre ++ (n :: sel ++ [a; b; c]) ++ rest) (len pre) = Some n) as ->
    by by apply load_here.
  rewrite Eb, El.
  assert (len (pre ++ n :: sel) = len pre + 1 + 2 * len ids) as Ep
    by (rewrite length_app; cbn [length]; lia).
  replace (len pre + (4 + 2 * len ids) - 3) with (len (pre ++ n :: sel)) by lia.
  replace (len pre + (4 + 2 * len ids) - 2) with (len (pre ++ n :: sel) + 1) by lia.
  replace (len pre + (4 + 2 * len ids) - 1) with (len (pre ++ n :: sel) + 2) by lia.
  rewrite (load_here _ a _ (len (pre ++ n :: sel))), load_second, load_third by done.
  cbn [mbind option_bind].
  destruct (n =? len ids); cbn [negb orb andb]; [|done].
  rewrite (proj2 (Z.eqb_eq (len sel) _)) by lia.
  assert (bool_decide ([a; b; c] = [0; 63; 0]) = (a =? 0) && (b =? 63) && (c =? 0)) as ->.
  { case_bool_decide as E; [by injection E as -> -> ->|].
    symmetry. apply not_true_iff_false. intros H. guards. apply E. repeat f_equal; lia. }
  destruct (a =? 0), (b =? 63), (c =? 0); cbn [negb orb andb]; try done.
  rewrite Nat2Z.id.
  rewrite <- (sos_components_app (length ids) (pre ++ [n]) sel (a :: b :: c :: rest) (len pre) 0 ids 0 []);
    [by rewrite <- !app_assoc|lia|rewrite length_app; cbn; lia|done|].
  intros j x Hj. cbn. apply Z.bits_0.
Qed.

(** *** The marker loop *)

Lemma fill_inj n n' (r r' : list Z) :
  (r = [] \/ exists b s, r = b :: s /\ b <> 0xff) -> (r' = [] \/ exists b s, r' = b :: s /\ b <> 0xff) ->
  replicate n 0xff ++ r = replicate n' 0xff ++ r' -> n = n' /\ r = r'.
Proof.
  revert n'. induction n as [|n IH]; intros [|n'] Hr Hr' E; cbn [replicate app] in E.
  - done.
  - destruct Hr as [->|(b & s & -> & Hb)]; congruence.
  - destruct Hr' as [->|(b & s & -> & Hb)]; congruence.
  - injection E as E. destruct (IH n' Hr Hr' E). by subst.
Qed.

(** What follows a marker, as the grammar has it. *)
Definition after_marker (width height k : Z) (ids : list Z) (scan : bool) (marker : Z) (tail : list Z)
    : Prop :=
  marker = 0xd9 /\ scan = true /\ tail = [] \/
  scan = false /\ exists d rest, len d < 65534 /\
    tail = Z.shiftr (2 + len d) 8 :: Z.land (2 + len d) 255 :: d ++ rest /\
    ((marker = 0xc0 /\ ids = [] /\ exists ids', sof_data width height d = Some ids' /\
        jpeg_rest width height (k + 1) ids' false rest) \/
     (marker = 0xda /\ sos_data ids d = true /\ exists e l, rest = e ++ l /\ entropy e /\ e <> [] /\
        jpeg_rest width height (k + 1) ids true l) \/
     (other_marker_refused marker = false /\ jpeg_rest width height (k + 1) ids false rest)).

Lemma other_marker_values m :
  other_marker_refused m = false -> m <> 0xff /\ m <> 0xd9 /\ m <> 0xc0 /\ m <> 0xda /\ m <> 0 /\ m <> 1 /\
    ~ 0xd0 <= m <= 0xd8.
Proof. unfold other_marker_refused. lia. Qed.

Lemma jpeg_rest_inv width height k ids scan n marker tail :
  marker <> 0xff ->
  jpeg_rest width height k ids scan (replicate (S n) 0xff ++ marker :: tail) <->
  k < 512 /\ after_marker width height k ids scan marker tail.
Proof.
  intros Hm. split.
  - intros H. remember (replicate (S n) 0xff ++ marker :: tail) as l eqn:El.
    assert (Hinj : forall n' m' t', m' <> 0xff ->
      replicate (S n') 0xff ++ m' :: t' = replicate (S n) 0xff ++ marker :: tail -> m' = marker /\ t' = tail).
    { intros n' m' t' Hm' E. apply fill_inj in E as [_ E]; [|right; eauto..]. by injection E. }
    destruct H as [k ids n' Hk|k n' d ids l' Hk Hd Hsof Hr|k n' d ids e l' Hk Hd Hsos He Hne Hr
                  |k n' m' d ids l' Hk Hd Ho Hr]; (split; [done|]).
    + apply Hinj in El as [<- <-]; [|done]. by left.
    + apply Hinj in El as [<- <-]; [|done]. right. split; [done|]. exists d, l'.
      split_and!; [done..|]. left. eauto.
    + apply Hinj in El as [<- <-]; [|done]. right. split; [done|]. exists d, (e ++ l').
      split_and!; [done..|]. right; left. split_and!; [done..|]. eauto 10.
    + apply Hinj in El as [<- <-]; [|by destruct (other_marker_values m' Ho)]. right. split; [done|].
      exists d, l'. split_and!; [done..|]. by right; right.
  - intros [Hk [(-> & -> & ->)|(-> & d & rest & Hd & -> & H)]]; [by constructor|].
    destruct H as [(-> & -> & ids' & ? & ?)|[(-> & ? & e & l & -> & ? & ? & ?)|[? ?]]];
      by econstructor.
Qed.

(** The length field of a segment. *)
Lemma segment_length l0 l1 n :
  is_byte l0 -> is_byte l1 -> Z.lor (Z.shiftl l0 8) l1 = n <->
  0 <= n < 65536 /\ l0 = Z.shiftr n 8 /\ l1 = Z.land n 255.
Proof.
  intros H0 H1. rewrite lor_shiftl_add by (ranges; lia).
  change 255 with (Z.ones 8). rewrite Z.land_ones, Z.shiftr_div_pow2 by lia.
  ranges. split; [intros <-|intros (? & -> & ->)]; Z.div_mod_to_equations; lia.
Qed.

(** Two ways to cut entropy-coded bytes off agree. *)
Lemma entropy_unique e r e' r' :
  entropy e -> r = [0xff] \/ entropy_stop r -> entropy e' -> entropy_stop r' -> r' <> [0xff] ->
  e ++ r = e' ++ r' -> e = e' /\ r = r'.
Proof.
  intros He Hr He' Hr' Hne E.
  pose proof (skip_entropy_app e r [] (length (e ++ r)) He Hr ltac:(lia)) as H1.
  pose proof (skip_entropy_app e' r' [] (length (e ++ r)) He' (or_intror Hr') ltac:(rewrite E; lia)) as H2.
  rewrite <- E in H2. rewrite H1 in H2. rewrite (bool_decide_eq_false_2 _ Hne) in H2.
  case_bool_decide; [done|]. injection H2 as H2. apply app_inj_1 in E; [done|]. lia.
Qed.

Lemma jpeg_rest_scan_stop width height k ids l :
  jpeg_rest width height k ids true l -> entropy_stop l /\ l <> [0xff].
Proof.
  inversion 1; subst. split; [|by destruct n].
  right. destruct n as [|n]; cbn; eexists _, _; (split; [reflexivity|lia]).
Qed.

Lemma jpeg_rest_head width height k ids scan l :
  jpeg_rest width height k ids scan l -> exists n marker tail, marker <> 0xff /\
    l = replicate (S n) 0xff ++ marker :: tail.
Proof.
  destruct 1 as [k ids n Hk|k n d ids l Hk Hd Hsof Hr|k n d ids e l Hk Hd Hsos He Hne Hr
                |k n m d ids l Hk Hd Ho Hr].
  - by exists n, 0xd9, [].
  - exists n, 0xc0. eexists. by split.
  - exists n, 0xda. eexists. by split.
  - exists n, m. eexists. split; [by destruct (other_marker_values m Ho)|done].
Qed.

(** The part of an iteration after the marker. *)
Definition jpeg_marker (fuel : nat) (bytes : list Z) (size width height at_ markers : Z)
    (ids : list Z) (scan : bool) (marker : Z) : option bool :=
  stop_if marker =? 0xd9 with Some (scan && (at_ =? size));
  stop_if scan || (marker =? 0) || (marker =? 1) ||
          ((0xd0 <=? marker) && (marker <=? 0xd8)) || (size - at_ <? 2) with Some false;
  l0 ← load bytes at_; l1 ← load bytes (at_ + 1);
  let length := Z.lor (Z.shiftl l0 8) l1 in
  stop_if (length <? 2) || (size - at_ <? length) with Some false;
  if marker =? 0xc0 then
    stop_if negb (len ids =? 0) with Some false;
    r ← parse_sof bytes (at_ + 2) (length - 2) width height;
    match r with
    | None => Some false
    | Some ids => jpeg_loop fuel bytes size width height (at_ + length) markers ids scan
    end
  else if marker =? 0xda then
    ok ← parse_sos bytes (at_ + 2) (length - 2) ids;
    stop_if negb ok with Some false;
    r ← skip_entropy (Z.to_nat size) bytes size (at_ + length);
    match r with
    | None => Some false
    | Some at' =>
        stop_if at' =? at_ + length with Some false;
        jpeg_loop fuel bytes size width height at' markers ids true
    end
  else
    stop_if other_marker_refused marker with Some false;
    jpeg_loop fuel bytes size width height (at_ + length) markers ids scan.

Lemma jpeg_loop_step fuel pre n marker tail width height k ids scan :
  marker <> 0xff -> k < 512 ->
  jpeg_loop (S fuel) (pre ++ replicate (S n) 0xff ++ marker :: tail)
    (len (pre ++ replicate (S n) 0xff ++ marker :: tail)) width height (len pre) k ids scan =
  jpeg_marker fuel (pre ++ replicate (S n) 0xff ++ marker :: tail)
    (len (pre ++ replicate (S n) 0xff ++ marker :: tail)) width height
    (len (pre ++ replicate (S n) 0xff ++ [marker])) (k + 1) ids scan marker.
Proof.
  intros Hm Hk. cbn [jpeg_loop].
  rewrite (proj2 (Z.ltb_lt _ _)) by (rewrite length_app; cbn; lia). cbn [negb].
  rewrite (proj2 (Z.ltb_ge _ _)) by lia.
  assert (load (pre ++ replicate (S n) 0xff ++ marker :: tail) (len pre) = Some 0xff) as ->
    by by apply load_here.
  cbn [mbind option_bind Z.eqb Pos.eqb negb].
  assert (forall f, (n < f)%nat -> skip_fill f (pre ++ replicate (S n) 0xff ++ marker :: tail)
    (len (pre ++ replicate (S n) 0xff ++ marker :: tail)) (len pre + 1) =
    Some (len (pre ++ replicate (S n) 0xff))) as Hfill.
  { intros f Hf. pose proof (skip_fill_app f (pre ++ [0xff]) n (marker :: tail) Hf) as H.
    rewrite <- !app_assoc in H. cbn [app replicate] in H |- *.
    replace (len pre + 1) with (len (pre ++ [0xff])) by (rewrite length_app; cbn; lia).
    rewrite H by (right; eauto). f_equal. rewrite !length_app. cbn [length]. rewrite length_replicate. lia. }
  rewrite Hfill by (rewrite Nat2Z.id, !length_app, length_replicate; cbn; lia).
  cbn [mbind option_bind].
  rewrite (proj2 (Z.eqb_neq _ _)) by (rewrite !length_app; cbn [length]; lia).
  rewrite (app_assoc pre) at 1. rewrite load_here by done. cbn [mbind option_bind].
  replace (len (pre ++ replicate (S n) 0xff) + 1) with (len (pre ++ replicate (S n) 0xff ++ [marker]))
    by (rewrite !length_app; cbn [length]; lia).
  reflexivity.
Qed.

Section marker.
Context (fuel : nat) (width height : Z).
Context (IH : forall pre l k ids scan, bytes l -> NoDup ids -> (length l <= fuel)%nat ->
  exists r, jpeg_loop fuel (pre ++ l) (len (pre ++ l)) width height (len pre) k ids scan = Some r /\
    (r = true <-> jpeg_rest width height k ids scan l)).

Definition decides (r : option bool) (P : Prop) : Prop := exists b, r = Some b /\ (b = true <-> P).

Lemma decides_false P : ~ P -> decides (Some false) P.
Proof. intros H. exists false. split; [done|]. split; [done|tauto]. Qed.

Lemma decides_iff r P Q : (P <-> Q) -> decides r P -> decides r Q.
Proof. intros HPQ (b & Hb & H). exists b. split; [done|]. by rewrite H. Qed.

Lemma cut_unique (d rest d' rest' : list Z) :
  len d = len d' -> d ++ rest = d' ++ rest' -> d = d' /\ rest = rest'.
Proof. intros Hl E. apply app_inj_1 in E; [done|lia]. Qed.

(** Splitting a segment off: its data and what follows. *)
Lemma after_marker_cut k ids scan marker l0 l1 t n :
  is_byte l0 -> is_byte l1 -> Z.lor (Z.shiftl l0 8) l1 = n -> marker <> 0xd9 ->
  after_marker width height k ids scan marker (l0 :: l1 :: t) <->
  scan = false /\ exists d rest, 2 + len d = n /\ t = d ++ rest /\
    ((marker = 0xc0 /\ ids = [] /\ exists ids', sof_data width height d = Some ids' /\
        jpeg_rest width height (k + 1) ids' false rest) \/
     (marker = 0xda /\ sos_data ids d = true /\ exists e l, rest = e ++ l /\ entropy e /\ e <> [] /\
        jpeg_rest width height (k + 1) ids true l) \/
     (other_marker_refused marker = false /\ jpeg_rest width height (k + 1) ids false rest)).
Proof.
  intros H0 H1 Hn Hm. unfold after_marker. split.
  - intros [(-> & _ & _)|(-> & d & rest & Hd & [= -> -> ->] & H)]; [done|].
    split; [done|]. exists d, rest. split; [|done]. 
    symmetry. rewrite <- Hn. apply segment_length; [done..|]. split; [lia|done].
  - intros (-> & d & rest & Hd & -> & H). right. split; [done|]. exists d, rest.
    apply segment_length in Hn as (Hr & -> & ->); [|done..].
    split_and!; [lia|by rewrite Hd|done].
Qed.

Lemma scan_spec q e r k ids :
  entropy e -> r = [0xff] \/ entropy_stop r -> bytes (e ++ r) -> NoDup ids ->
  (length (e ++ r) <= fuel)%nat ->
  decides
    (o ← skip_entropy (Z.to_nat (len (q ++ e ++ r))) (q ++ e ++ r) (len (q ++ e ++ r)) (len q);
     match o with
     | None => Some false
     | Some at' => stop_if at' =? len q with Some false;
                   jpeg_loop fuel (q ++ e ++ r) (len (q ++ e ++ r)) width height at' k ids true
     end)
    (exists e' l, e ++ r = e' ++ l /\ entropy e' /\ e' <> [] /\ jpeg_rest width height k ids true l).
Proof.
  intros He Hr Hb Hnd Hf.
  rewrite skip_entropy_app by (done || rewrite Nat2Z.id, (length_app q); lia). cbn [mbind option_bind].
  assert (Huniq : forall e' l, e ++ r = e' ++ l -> entropy e' -> jpeg_rest width height k ids true l ->
    e = e' /\ r = l).
  { intros e' l E He' Hl. apply jpeg_rest_scan_stop in Hl as [Hs Hne]. by apply entropy_unique. }
  case_bool_decide as Eff.
  { apply decides_false. intros (e' & l & E & He' & _ & Hl).
    destruct (Huniq _ _ E He' Hl) as [_ ->]. by apply jpeg_rest_scan_stop in Hl as [_ ?]. }
  destruct (Z.eqb_spec (len q + len e) (len q)) as [E0|E0].
  { apply decides_false. intros (e' & l & E & He' & Hne & Hl).
    destruct (Huniq _ _ E He' Hl) as [<- _]. destruct e; [done|cbn in E0; lia]. }
  rewrite app_assoc. replace (len q + len e) with (len (q ++ e)) by (rewrite length_app; lia).
  apply Forall_app in Hb as [_ Hb].
  destruct (IH (q ++ e) r k ids true Hb Hnd) as (b & Hrun & Hb'); [rewrite length_app in Hf; lia|].
  exists b. split; [done|]. rewrite Hb'. split.
  - intros Hl. exists e, r. split_and!; [done..| |done]. intros ->. cbn in E0. lia.
  - intros (e' & l & E & He' & _ & Hl). by destruct (Huniq _ _ E He' Hl) as [_ ->].
Qed.

Lemma jpeg_marker_spec q tail k ids scan marker :
  bytes tail -> NoDup ids -> (length tail <= fuel)%nat -> 
  decides (jpeg_marker fuel (q ++ tail) (len (q ++ tail)) width height (len q) (k + 1) ids scan marker)
    (after_marker width height k ids scan marker tail).
Proof.
  intros Hb Hnd Hf. unfold jpeg_marker.
  destruct (Z.eqb_spec marker 0xd9) as [->|Hm].
  { exists (scan && (len q =? len (q ++ tail))). split; [done|]. split.
    - intros [-> H]%andb_true_iff. left. split_and!; [done..|].
      apply Z.eqb_eq in H. rewrite length_app in H. destruct tail; [done|cbn [length] in H; lia].
    - intros [(_ & -> & ->)|(_ & d & rest & _ & _ & [(? & _)|[(? & _)|[Ho _]]])];
        [by rewrite app_nil_r, Z.eqb_refl|done|done|by apply other_marker_values in Ho; lia]. }
  destruct (scan || _ || _ || _ || _) eqn:E1.
  { apply decides_false. intros [(? & _)|(-> & d & rest & Hd & -> & H)]; [done|].
    rewrite length_app in E1. cbn [length orb] in E1. rewrite length_app in E1.
    rewrite !orb_true_iff, andb_true_iff, !Z.eqb_eq, !Z.leb_le, Z.ltb_lt in E1.
    destruct H as [(-> & _)|[(-> & _)|[Ho%other_marker_values _]]]; lia. }
  apply orb_false_iff in E1 as [E1 E1l]. apply Z.ltb_ge in E1l. rewrite length_app in E1l.
  destruct tail as [|l0 [|l1 t]]; [cbn [length] in E1l; lia..|].
  do 3 apply orb_false_iff in E1 as [E1 _]. subst scan.
  rewrite (load_here q _ _ (len q)) by done. rewrite load_second. cbn [mbind option_bind].
  apply Forall_cons in Hb as [H0 Hb]. apply Forall_cons in Hb as [H1 Hb].
  remember (Z.lor (Z.shiftl l0 8) l1) as n eqn:Hn. symmetry in Hn.
  eapply decides_iff; [symmetry; by apply (after_marker_cut k ids false marker l0 l1 t n)|].
  replace (len (q ++ l0 :: l1 :: t) - len q) with (2 + len t) by (rewrite length_app; cbn [length]; lia).
  destruct ((n <? 2) || (2 + len t <? n)) eqn:E2.
  { apply decides_false. intros (_ & d & rest & Hd & -> & _). rewrite length_app in E2. lia. }
  destruct (split_prefix t (Z.to_nat (n - 2))) as (d & rest & -> & Hd); [lia|].
  assert (2 + len d = n) as Hdn by lia. assert (n - 2 = len d) as -> by lia.
  assert (Hcut : forall d' rest', 2 + len d' = n -> d ++ rest = d' ++ rest' -> d = d' /\ rest = rest')
    by (intros; apply cut_unique; [lia|done]).
  apply Forall_app in Hb as [_ Hb].
  replace (q ++ l0 :: l1 :: d ++ rest) with ((q ++ [l0; l1]) ++ d ++ rest) by (by rewrite <- app_assoc).
  replace (len q + 2) with (len (q ++ [l0; l1])) by (rewrite length_app; cbn; lia).
  replace (len q + n) with (len ((q ++ [l0; l1]) ++ d)) by (rewrite !length_app; cbn; lia).
  assert (length rest <= fuel)%nat as Hfr by (cbn in Hf; rewrite length_app in Hf; lia).
  destruct (Z.eqb_spec marker 0xc0) as [->|Hc0]; [|destruct (Z.eqb_spec marker 0xda) as [->|Hda]].
  - rewrite parse_sof_app. cbn [mbind option_bind].
    destruct (Z.eqb_spec (len ids) 0) as [Ei|Ei]; cbn [negb].
    2: { apply decides_false. intros (_ & d' & rest' & _ & _ & [(_ & -> & _)|[(? & _)|[? _]]]); done. }
    destruct (sof_data width height d) as [ids'|] eqn:Es.
    + rewrite (app_assoc (q ++ [l0; l1])).
      destruct (IH ((q ++ [l0; l1]) ++ d) rest (k + 1) ids' false Hb) as (b & Hrun & Hb');
        [by eapply sof_data_NoDup|done|].
      exists b. split; [done|]. rewrite Hb'. split.
      * intros Hr. split; [done|]. exists d, rest. split_and!; [done..|]. left.
        split_and!; [done|destruct ids; [done|cbn in Ei; lia]|eauto].
      * intros (_ & d' & rest' & Hd' & E & H). destruct (Hcut _ _ Hd' E) as [<- <-].
        destruct H as [(_ & _ & ids2 & ? & ?)|[(? & _)|[? _]]]; [congruence|done..].
    + apply decides_false. intros (_ & d' & rest' & Hd' & E & H). destruct (Hcut _ _ Hd' E) as [<- <-].
      destruct H as [(_ & _ & ids2 & ? & ?)|[(? & _)|[? _]]]; [congruence|done..].
  - rewrite parse_sos_app by done. cbn [mbind option_bind].
    destruct (sos_data ids d) eqn:Es; cbn [negb].
    + destruct (entropy_split rest) as (e & r & -> & He & Hr).
      rewrite (app_assoc (q ++ [l0; l1])).
      eapply decides_iff; [|by apply scan_spec]. split.
      * intros H. split; [done|]. exists d, (e ++ r). split_and!; [done..|]. right; left. by split_and!.
      * intros (_ & d' & rest' & Hd' & E & H). destruct (Hcut _ _ Hd' E) as [<- <-].
        by destruct H as [(? & _)|[(_ & _ & H)|[? _]]].
    + apply decides_false. intros (_ & d' & rest' & Hd' & E & H). destruct (Hcut _ _ Hd' E) as [<- <-].
      destruct H as [(? & _)|[(_ & ? & _)|[? _]]]; [done|congruence|done].
  - destruct (other_marker_refused marker) eqn:Eo.
    { apply decides_false. intros (_ & d' & rest' & _ & _ & [(? & _)|[(? & _)|[? _]]]); congruence. }
    rewrite (app_assoc (q ++ [l0; l1])).
    destruct (IH ((q ++ [l0; l1]) ++ d) rest (k + 1) ids false Hb Hnd Hfr) as (b & Hrun & Hb').
    exists b. split; [done|]. rewrite Hb'. split.
    + intros Hr. split; [done|]. exists d, rest. by split_and!; [..|right; right].
    + intros (_ & d' & rest' & Hd' & E & H). destruct (Hcut _ _ Hd' E) as [<- <-].
      by destruct H as [(? & _)|[(? & _)|[_ ?]]].
Qed.
End marker.

Lemma jpeg_loop_spec fuel width height pre l k ids scan :
  bytes l -> NoDup ids -> (length l <= fuel)%nat ->
  decides (jpeg_loop fuel (pre ++ l) (len (pre ++ l)) width height (len pre) k ids scan)
    (jpeg_rest width height k ids scan l).
Proof.
  revert pre l k ids scan. induction fuel as [|fuel IH]; intros pre l k ids scan Hb Hnd Hf.
  { destruct l; [|cbn in Hf; lia]. cbn [jpeg_loop]. rewrite app_nil_r, Z.ltb_irrefl.
    apply decides_false. intros (n & m & t & _ & E)%jpeg_rest_head. done. }
  assert (Hstop : forall (P : Prop), P -> (jpeg_rest width height k ids scan l -> ~ P) ->
    decides (Some false) (jpeg_rest width height k ids scan l))
    by (intros P HP H; apply decides_false; tauto).
  destruct l as [|b l].
  { cbn [jpeg_loop]. rewrite app_nil_r, Z.ltb_irrefl.
    apply decides_false. intros (n & m & t & _ & E)%jpeg_rest_head. done. }
  destruct (Z.eq_dec b 0xff) as [->|Hff].
  2: { cbn [jpeg_loop]. rewrite (proj2 (Z.ltb_lt _ _)) by (rewrite length_app; cbn; lia).
       cbn [negb]. rewrite load_here by done. cbn [mbind option_bind].
       rewrite (proj2 (Z.eqb_neq b _)) by done. destruct (512 <? k + 1);
       apply decides_false; intros (n & m & t & _ & E)%jpeg_rest_head; cbn in E; congruence. }
  destruct (fill_split l) as (n & r & -> & Hr).
  change (0xff :: replicate n 0xff ++ r) with (replicate (S n) 0xff ++ r) in *.
  destruct (Z.ltb_spec k 512) as [Hk|Hk].
  2: { cbn [jpeg_loop]. rewrite (proj2 (Z.ltb_lt _ _)) by (rewrite length_app; cbn; lia).
       cbn [negb]. rewrite (proj2 (Z.ltb_lt 512 _)) by lia. apply decides_false. intros H.
       pose proof H as (n' & m & t & Hm & E)%jpeg_rest_head. rewrite E in H.
       apply jpeg_rest_inv in H as [? _]; [lia|done]. }
  destruct Hr as [->|(m & t & -> & Hm)].
  { rewrite app_nil_r. cbn [jpeg_loop].
    rewrite (proj2 (Z.ltb_lt _ _)) by (rewrite length_app; cbn; lia).
    cbn [negb]. rewrite (proj2 (Z.ltb_ge 512 _)) by lia.
    assert (load (pre ++ replicate (S n) 0xff) (len pre) = Some 0xff) as -> by by apply load_here.
    cbn [mbind option_bind Z.eqb Pos.eqb negb].
    pose proof (skip_fill_app (Z.to_nat (len (pre ++ replicate (S n) 0xff))) (pre ++ [0xff]) n []) as Hs.
    rewrite app_nil_r in Hs. rewrite <- app_assoc in Hs. cbn [app] in Hs.
    change (0xff :: replicate n 0xff) with (replicate (S n) 0xff) in Hs.
    replace (len pre + 1) with (len (pre ++ [0xff])) by (rewrite length_app; cbn; lia).
    rewrite Hs by (rewrite ?Nat2Z.id, ?length_app, ?length_replicate; auto; lia). cbn [mbind option_bind].
    rewrite (proj2 (Z.eqb_eq _ _)) by (rewrite !length_app, length_replicate; cbn; lia).
    apply decides_false. intros (n' & m & t & Hm & E)%jpeg_rest_head.
    rewrite <- (app_nil_r (replicate (S n) 0xff)) in E. apply fill_inj in E as [_ E];
      [done|by left|right; eauto]. }
  rewrite jpeg_loop_step by done.
  eapply decides_iff; [rewrite jpeg_rest_inv by done; split; [intros H; split; [exact Hk|exact H]|tauto]|].
  assert (pre ++ replicate (S n) 0xff ++ m :: t = (pre ++ replicate (S n) 0xff ++ [m]) ++ t) as ->
    by (by rewrite <- !app_assoc).
  apply jpeg_marker_spec; [exact IH| |done|].
  - apply Forall_app in Hb as [_ Hb]. by apply Forall_cons in Hb as [_ Hb].
  - rewrite length_app, length_replicate in Hf. cbn in Hf. lia.
Qed.

Lemma parse_jpeg_spec p width height :
  bytes p -> decides (PLANKCameraParseJPEG p (len p) width height) (jpeg_file width height p).
Proof.
  intros Hb. unfold PLANKCameraParseJPEG, jpeg_file.
  destruct (Z.ltb_spec (len p) 4) as [Hl|Hl].
  { apply decides_false. intros (l & -> & (n & m & t & _ & ->)%jpeg_rest_head).
    inversion_clear Hb. cbn in Hl. rewrite length_app in Hl. cbn in Hl. lia. }
  destruct p as [|b0 [|b1 p]]; try (cbn in Hl; lia).
  change (load (b0 :: b1 :: p) 0) with (Some b0). change (load (b0 :: b1 :: p) 1) with (Some b1).
  cbn [mbind option_bind].
  destruct (Z.eqb_spec b0 0xff) as [->|]; cbn [negb orb];
    [|apply decides_false; intros (l & ? & _); congruence].
  destruct (Z.eqb_spec b1 0xd8) as [->|]; cbn [negb];
    [|apply decides_false; intros (l & ? & _); congruence].
  do 2 apply Forall_cons in Hb as [_ Hb].
  eapply decides_iff; [|apply (jpeg_loop_spec _ width height [0xff; 0xd8] p 0 [] false Hb)].
  - split; [eauto|]. by intros (l & [= <-] & H).
  - constructor.
  - rewrite Nat2Z.id. cbn. lia.
Qed.

(** The units of a stream are determined by its bytes. *)
Lemma stream_nals p us us' : stream p us -> stream p us' -> map u_nal us = map u_nal us'.
Proof.
  remember (length us) as n eqn:Hn. revert p us us' Hn.
  induction n as [|n IH]; intros p us us' Hn Hs Hs'.
  - destruct us; [|done]. destruct Hs as [_ ->], us' as [|u us']; [done|].
    destruct Hs' as [Hwf He]. apply Forall_cons in Hwf as [Hu _]. cbn in He. symmetry in He.
    apply app_eq_nil in He as [He _]. unfold unit_bytes in He.
    by destruct (wf_code _ Hu) as [E|E]; rewrite E in He.
  - destruct us as [|u us]; [done|].
    assert (starts_code p <> 0) as Hsc.
    { destruct Hs as [Hwf ->]. apply Forall_cons in Hwf as [Hu _]. cbn [map concat].
      rewrite starts_code_code by done. destruct (wf_code _ Hu) as [-> | ->]; done. }
    destruct (starts_code_inv p Hsc) as (code & body & -> & Hcode & _).
    destruct (stream_uncons code body _ Hcode Hs) as (us1 & _ & Hs1 & E1).
    destruct (stream_uncons code body _ Hcode Hs') as (us2 & _ & Hs2 & E2).
    rewrite E1, E2. f_equal. eapply IH; [|done..].
    apply (f_equal length) in E1. cbn in E1. rewrite !length_map in E1. cbn in Hn. lia.
Qed.

Lemma parse_avc_spec p :
  exists ok res, PLANKCameraParseAVC p (len p) payload_zero = Some (ok, res) /\
    (ok = true -> exists us, stream p us /\ access_unit (map u_nal us) /\ state_of (located 0 us) res) /\
    (forall us, stream p us -> access_unit (map u_nal us) -> ok = true).
Proof.
  assert (state_of [] (mkPayload (pl_nals payload_zero) (pl_count payload_zero)
    PLANKCameraMaxNALs PLANKCameraMaxNALs (pl_independent payload_zero))) as Hst.
  { split; try done.
    - exists (pl_nals payload_zero). by split.
    - left. split; [done|]. by intros (n & ?%elem_of_nil & _).
    - left. split; [done|]. by intros (n & ?%elem_of_nil & _).
    - cbn. split; [done|]. by intros (n & ?%elem_of_nil & _). }
  destruct (avc_loop_spec (Z.to_nat (len p)) [] p [] 0 false _ ltac:(lia) Hst) as (ok & res & Hr & H1 & H2).
  - split; [done|]. by intros (n & ?%elem_of_nil & _).
  - done.
  - apply admissible_nil.
  - exists ok, res. split; [exact Hr|]. split; [exact H1|exact H2].
Qed.

(** ** Properties *)

(** The H.264 check never reads outside its bytes, terminates, and accepts
    exactly the Annex B byte streams (start codes of three or four bytes, units
    without an inner start code, optional trailing zeros) that form one access
    unit: at most 64 units of ordinary types, parameter sets of at most 4096 bytes,
    at most one SPS and PPS and before any slice, slices of one kind only, both
    parameter sets with an IDR picture, at most 4 MiB after adaption.  On acceptance
    the NAL table holds offset, size and type of precisely those units, and the
    SPS, PPS and independent fields are theirs. *)
Theorem parse_avc_exact p :
  exists ok res, PLANKCameraParseAVC p (len p) payload_zero = Some (ok, res) /\
    (ok = true <-> exists us, stream p us /\ access_unit (map u_nal us)) /\
    (ok = true -> exists us, stream p us /\ access_unit (map u_nal us) /\
       pl_count res = len us /\
       take (length us) (pl_nals res) = map nal_of (located 0 us) /\
       index_of 7 (pl_sps res) (map u_nal us) /\ index_of 8 (pl_pps res) (map u_nal us) /\
       (pl_independent res = true <-> has_type 5 (map u_nal us))).
Proof.
  destruct (parse_avc_spec p) as (ok & res & Hr & H1 & H2).
  exists ok, res. split; [done|]. split; [split; [|intros (us & ? & ?); eauto]|].
  - intros Hok. destruct (H1 Hok) as (us & ? & ? & _). eauto.
  - intros Hok. destruct (H1 Hok) as (us & Hs & Ha & [(unused & Hn & _) Hc Hsps Hpps Hi]).
    rewrite located_nals in Hsps, Hpps, Hi.
    assert (length (located 0 us) = length us) as Hl
      by (rewrite <- (length_map u_nal), <- (located_nals 0), length_map; done).
    exists us. split_and!; try done.
    + by rewrite Hc, Hl.
    + rewrite Hn. apply take_app_length'. by rewrite length_map.
Qed.

(** C4: over arbitrary bytes the camera payload check terminates without reading
    outside them and answers true exactly when the header is valid for that size and
    the bytes are what its codec says: for MJPEG a baseline JPEG file in the sense of
    [jpeg_file] (SOI, one SOF0 of the header's dimensions with one or three distinct
    components, one SOS naming every component once, a non-empty scan without stray
    markers, EOI as the last two bytes), for H.264 one access unit that is an IDR
    picture exactly when the key-frame flag is set. *)
Theorem parse_payload_exact h p r0 :
  bytes p ->
  exists ok res, PLANKCameraParsePayload (Some h) (Some p) (len p) (Some r0) = Some (ok, Some res) /\
    (ok = true <->
       V1.plank_camera_header_valid (Some h) (len p) = true /\
       ((V1.codec h = PLANK_CAMERA_MJPEG /\ jpeg_file (V1.width h) (V1.height h) p) \/
        (V1.codec h = PLANK_CAMERA_H264 /\ exists us, stream p us /\ access_unit (map u_nal us) /\
           (Z.testbit (V1.flags h) 0 = true <-> has_type 5 (map u_nal us))))).
Proof.
  intros Hb. unfold PLANKCameraParsePayload.
  destruct (V1.plank_camera_header_valid (Some h) (len p)) eqn:Hv; cbn [negb].
  2: { exists false, payload_zero. split; [done|]. split; [done|]. by intros [? _]. }
  assert (negb (Z.land (V1.flags h) PLANK_CAMERA_KEY_FRAME =? 0) = Z.testbit (V1.flags h) 0) as ->.
  { change PLANK_CAMERA_KEY_FRAME with (Z.ones 1). rewrite Z.land_ones by lia.
    change (2 ^ 1) with 2. rewrite <- Z.bit0_mod. by destruct (Z.testbit (V1.flags h) 0). }
  destruct (Z.eqb_spec (V1.codec h) PLANK_CAMERA_MJPEG) as [Ec|Ec].
  - destruct (parse_jpeg_spec p (V1.width h) (V1.height h) Hb) as (ok & -> & Hok). cbn [mbind option_bind].
    eexists _, _. split; [reflexivity|]. rewrite Hok. split; [tauto|].
    intros (_ & [[_ ?]|[E _]]); [done|]. rewrite Ec in E. done.
  - destruct (parse_avc_spec p) as (ok & res & -> & H1 & H2). cbn [mbind option_bind].
    eexists _, _. split; [reflexivity|].
    assert (Hcod : V1.codec h = PLANK_CAMERA_H264).
    { unfold V1.plank_camera_header_valid in Hv. guards.
      match goal with H : _ || _ = true |- _ => apply orb_true_iff in H as [?|?] end; lia. }
    rewrite andb_true_iff, eqb_true_iff. split.
    + intros [Hok Hkey]. destruct (H1 Hok) as (us & Hs & Ha & Hst).
      split; [done|right; split; [done|]]. exists us. split_and!; [done..|].
      pose proof (st_independent _ _ Hst) as Hi. rewrite located_nals in Hi. by rewrite <- Hkey.
    + intros (_ & [[? _]|(_ & us & Hs & Ha & Hkey)]); [done|].
      pose proof (H2 us Hs Ha) as Hok. split; [done|].
      destruct (H1 Hok) as (us' & Hs' & Ha' & Hst).
      pose proof (st_independent _ _ Hst) as Hi. rewrite located_nals in Hi.
      rewrite (stream_nals p us us') in Hkey by done.
      apply eq_iff_eq_true. by rewrite Hi, Hkey.
Qed.

(** An IDR access unit of three units, in a key frame of an H.264 camera. *)
Definition example_units : list unit_ :=
  [mkUnit [0; 0; 0; 1] [0x67; 9] 0; mkUnit [0; 0; 1] [0x68; 9] 1; mkUnit [0; 0; 0; 1] [0x65; 9] 0].

Lemma parse_payload_exact_witness :
  bytes (concat (map unit_bytes example_units)) /\
  exists ok res, PLANKCameraParsePayload (Some (V1.mk 1 0 1 PLANK_CAMERA_H264 0 0 0 0 0 1280 720 1))
    (Some (concat (map unit_bytes example_units))) 18 (Some payload_zero) = Some (ok, Some res) /\
    ok = true /\ V1.plank_camera_header_valid
      (Some (V1.mk 1 0 1 PLANK_CAMERA_H264 0 0 0 0 0 1280 720 1)) 18 = true.
Proof.
  assert (bytes (concat (map unit_bytes example_units))) as Hb by concrete.
  split; [exact Hb|].
  destruct (parse_payload_exact (V1.mk 1 0 1 PLANK_CAMERA_H264 0 0 0 0 0 1280 720 1)
    (concat (map unit_bytes example_units)) payload_zero Hb) as (ok & res & Hr & Hok).
  exists ok, res. split; [exact Hr|].
  assert (ok = true) as E by (vm_compute in Hr; injection Hr as <- _; reflexivity).
  split; [exact E|]. apply (proj1 Hok E).
Defined.
